(* ===== verification/_CoqProject ===== *)
-Q . S2P
Prelude.v
Net.v
Encoding.v
Wire.v
NodeId.v
Snapshot.v
SignedBytes.v
Crypto.v
Ip.v
Replay.v
Path.v
Handshake.v
Control.v
CoordDb.v
Coord.v
CoordInv.v
CoordSafety.v
CoordRaces.v
CoordSocket.v
NodeState.v
NodePeers.v
NodeSend.v
NodeSession.v
NodeData.v
NodeTimers.v
NodeInv.v
NodeSample.v
NodeDeliver.v
NodeTransfer.v
NodeBatch.v
Text.v
Dns.v
Stun.v
Admin.v
CoordClient.v
Codec.v
ClientServer.v
TunRoutes.v
TunBridge.v
Stack.v
StackInv.v
NodeView.v
NodeAuth.v
Diagnostic.v
DiagnosticInv.v
Runtime.v
RuntimeInv.v
RuntimeSample.v
RuntimeServe.v
PeerLoop.v
LocalControl.v
LocalControlText.v
LocalControlInv.v
LocalControlSample.v
CoordOpen.v
Supervisor.v
SupervisorRuntime.v
Files.v
Cli.v
Socket.v
SockAddr.v
Bind.v
AddrText.v
Serde.v
KeyFiles.v
KeyFilesSample.v
Status.v
StunAdapter.v
TunOther.v
StackApi.v
Commands.v
PeerControl.v
NodeBuild.v
PeerCommands.v
