(* ===== verification/Prelude.v ===== *)
(** * Vela: a verification library for the Vela overlay network

    ** The program

    Vela is an overlay network written in Rust.  A coordination server
    ([vela-coord]) admits members by invite, signs their credentials, and sends
    every member the signed list of all members.  A node ([vela-core]) takes IP
    packets from a virtual interface, finds the member that owns the destination,
    and sends them over UDP under a session key; it discovers paths with signed
    probes and opens sessions with a Noise handshake.  The interface is a TUN device
    of the kernel ([vela-tun]) or a userspace TCP/IP stack ([vela-stack]).  A peer
    ([vela-diagnostic]) joins node, coordination client and saved state, and its
    runtime keeps it connected; the command line ([vela-cli]) talks to a running peer
    over a local control service.  DNS over HTTPS ([vela-dns]) and STUN ([vela-stun])
    find servers and public addresses.  [vela-proto], [vela-crypto] and [vela-ip]
    hold what these share: the wire format, the signed data, credentials and packets.

    ** Which file models what

    Shared data ([vela-proto], [vela-crypto], [vela-ip]).
    - [Prelude]: results, the state-and-error monad [handler] with [let!], the
      predicate [keeps] with its walking tactic, fixed-width integers, bytes.
    - [Net], [Encoding], [Text]: addresses, self-delimiting encodings, and the string
      and number functions of the standard library.
    - [Wire], [NodeId], [Snapshot], [SignedBytes], [Control]: the packet header and
      framing, node ids, members and snapshots with their validation, the bytes a
      signature covers, the control messages.
    - [Crypto], [Ip]: credentials, signatures and session ciphers over abstract
      primitives (classes [Hash], [SignatureOps], [AeadOps], [HkdfOps], [NoiseOps] with
      their laws as separate classes); the packet parser and the route table.
    - [AddrText], [Serde], [Files], [KeyFiles], [KeyFilesSample]: addresses as text, the JSON
      of members, snapshots, credentials and saved states, a disk whose operations may
      fail half-way, and the files of keys, credentials and states on it.

    The node ([vela-core/src/lib.rs]).
    - [Replay], [Path], [Handshake]: the replay window, path MTU discovery and path
      migration, probes and handshake contexts.
    - [NodeState], [NodePeers], [NodeSend], [NodeSession], [NodeData], [NodeTimers]: the
      record [Node] ([Inner] in the source) and one definition for each handler, as
      steps on the node that also record the datagrams sent and events emitted.  Locks
      of the source delimit the steps; a task is the function of one of its turns.
    - [NodeInv]: the step relation over all of them and the invariant.  [NodeSample] is
      a run of two nodes with concrete primitives.  [NodeView], [NodeDeliver],
      [NodeTransfer], [NodeBatch] and [NodeAuth] hold the theorems about membership,
      delivery, transfer, batches and authentication.
    - [Socket], [SockAddr], [Bind]: the datagram socket under the node with its reader
      tasks and shutdown, the memory it shares with [sendmmsg] and [recvmmsg], and how its
      sockets are bound.  [NodeBuild]: [VelaNodeBuilder], and node and client together.
    - [StunAdapter]: STUN through the socket of a running node.  [Status]: what a node says
      of its members and the dashboard shows.

    The coordination server ([vela-coord]).
    - [CoordDb]: the tables, with the SQL statements as functions on them.
    - [Coord]: [ServerInner] as the record [CoordState] and a handler for every control
      message, connection clean-up, revocation, invites.  [Admin]: the HTTP API.
    - [CoordInv], [CoordSafety]: the step relation, the invariant, and what holds along
      every run.  [CoordRaces]: interleavings the source permits and should not.
    - [CoordSocket]: the tasks of the connections (writer, heartbeat, requests) and the
      mutex they share.
    - [CoordOpen]: opening the server on a database, and what a restart keeps.

    Clients ([vela-dns], [vela-stun], [vela-coord-client]).
    - [Dns], [Stun]: parsers, retransmission and the choice among servers, over an
      abstract HTTP client and socket.
    - [CoordClient]: the client with its queue of postponed messages.  [Codec] is a text
      form with the laws the development assumes of JSON.  [ClientServer] connects the
      client to the server of [Coord].

    Interfaces ([vela-tun], [vela-stack], and their use in [vela-cli/src/main.rs]).
    - [TunRoutes], [TunBridge]: host routes with their leases, and the device with the
      two tasks between it and the node.  [TunOther]: both on macOS and Windows.
    - [Stack], [StackInv], [StackApi]: the task of the userspace stack over an abstract
      smoltcp, and the handles of the application.

    The peer ([vela-diagnostic]).
    - [Diagnostic], [DiagnosticInv]: the peer's operations, each on node, client and saved
      state; what they keep.
    - [Runtime], [RuntimeInv], [RuntimeServe], [RuntimeSample]: the loop of [runtime.rs], one
      definition for each branch of its select, and the tasks beside it.
    - [PeerLoop]: the loop of a peer without a TUN interface, of [lib.rs].  [PeerControl]:
      the control connection of a program that has the files of a peer.
    - [LocalControl], [LocalControlText], [LocalControlInv], [LocalControlSample]: the local
      HTTP service and its client.

    The command line ([vela-cli/src/main.rs]).
    - [Supervisor], [SupervisorRuntime]: [peer up], which serves a runtime and starts it again;
      the runtime is the interface [Process], of which [Runtime] is an instance.
    - [Cli], [Commands], [PeerCommands]: the parsers of arguments, the commands on the files
      and the database of a server, alone and beside one that runs, and the commands that
      ask a running peer.

    ** What the theorems show

    - Packets: a packet that enters a TUN device leaves the TUN device of the member that
      owns its destination, unchanged and once ([TunBridge.tun_to_tun],
      [NodeTransfer.packet_transferred], [NodeDeliver.worker_delivers]); nonces do not
      repeat within a batch and every packet of a batch is answered ([NodeBatch]); the
      replay window refines a set ([Replay]); datagrams and their addresses pass unchanged
      through the memory of the system calls ([SockAddr]).
    - Consistency: every reachable node, server, connection, client, stack, runtime, peer loop,
      supervisor and socket satisfies its invariant ([NodeInv], [CoordInv], [CoordSocket],
      [CoordClient], [StackInv], [RuntimeInv], [PeerLoop], [Supervisor], [Socket]), and a
      restarted server takes up where it was ([CoordOpen]).  A call on the userspace stack
      gets an answer of its type ([StackApi]).  Binding and building leave no socket
      behind ([Bind], [NodeBuild]).
    - Files: saving is atomic whatever fails, an identity survives a restart, and the
      credentials file implements the store of the administration ([KeyFiles],
      [PeerControl]).
    - Commands: an invite made beside a running server is as good as one of its own; a
      revocation made there breaks its snapshots ([Commands]).
    - Membership: a server only signs snapshots its members accept; an accepted snapshot
      is installed exactly; a node's view is always that of a signed snapshot and never
      goes back; members enter by an unused invite; what a client accepts is signed
      ([CoordInv], [NodePeers], [NodeView], [CoordSafety], [ClientServer]).
    - Administration and local control: no request is served without its token, and what
      the command line prints is what the runtime published ([Admin], [LocalControlInv],
      [PeerCommands]);
      the dashboard shows the members of the node as they are ([Status]).
    - Liveness: requests to connect are not forgotten, pings are answered, MTU discovery
      settles, STUN ends, and only the socket of a member can hold up the mutex of the
      server ([RuntimeServe], [Path], [Stun], [CoordSocket]).  What STUN receives through a
      running node comes from the server it asked ([StunAdapter]).
    - Formats: the parsers of packets, snapshots, DNS, STUN and HTTP accept exactly what
      their grammar says, encoders and decoders are inverse, and signatures bind what
      they cover ([Wire], [Snapshot], [SignedBytes], [Dns], [Stun], [LocalControlInv],
      [AddrText], [Serde]).
    - Two theorems show weaknesses: the responder of a handshake does not authenticate
      the initiator ([NodeAuth]), and the session keys can be computed from the handshake
      messages ([Crypto.session_readable_by_observer]).  Others are stated where they
      arise, with the run that shows them.

    ** Modelling choices

    - A machine integer is a [Z] with its wrap-around or saturation written out ([wrap],
      [sat_add64]); a byte string is a list of [Z].  Hash maps and sets are [gmap] and
      [gset]; where the order of a hash set matters it is a parameter.
    - Cryptography, JSON, HTTP, sockets, smoltcp, netlink, the clock and random numbers
      are parameters.  What the code relies on of them is a class of laws, and each has an
      instance that satisfies them, with which the witnesses compute.
    - Asynchronous code is split at its awaits where another task can run in between:
      [select!] loops are turn functions indexed by what woke them, and the step relations
      interleave them freely.
    - Fuel: string functions get the length of their input, of which each step consumes
      at least one byte; a client waiting for an answer gets the frames that arrive; the
      port scan gets the number of ports; draining a set gets its size; a wait for a STUN
      response gets the time that is left, a device the length of the packet.  Each bound
      is either shown sufficient by a theorem about results, or is the number of
      iterations the source itself allows.

    ** Not modelled

    - The system calls themselves: those on a socket, of the TUN device and of files are
      parameters that may fail.  The batched calls of macOS ([sendmsg_x], [recvmsg_x]) are
      not described by their vendor, so nothing can be assumed of them.
    - The SQLite connection: a statement is a function on the tables, and locks between
      processes are left out.  TLS, WebSocket framing, the HTTP servers (routing, accepting
      connections) and the static pages: libraries the sources only call.
    - Declarations of arguments for clap, log lines, the optional [TrafficObserver], and
      tables printed for people: nothing else reads them.
    - Tests, benchmarks, fuzz targets, scripts and icons. *)
From Stdlib Require Export ZArith Lia Bool.
From stdpp Require Export base tactics numbers list list_numbers sorting gmap strings.

#[export] Set Default Goal Selector "!".
Global Open Scope Z_scope.
Declare Scope vela_scope.
Delimit Scope vela_scope with vela.
Global Open Scope vela_scope.
Create HintDb vela.

(** ** Results: the [Result<A, E>] of the source *)

Inductive result (A E : Type) : Type :=
| Ok (a : A)
| Err (e : E).
Arguments Ok {A E} a.
Arguments Err {A E} e.

Definition rbind {A B E} (m : result A E) (k : A -> result B E) : result B E :=
  match m with Ok a => k a | Err e => Err e end.

Definition rmap {A B E} (f : A -> B) (m : result A E) : result B E :=
  match m with Ok a => Ok (f a) | Err e => Err e end.
Definition rmap_err {A E F} (f : E -> F) (m : result A E) : result A F :=
  match m with Ok a => Ok a | Err e => Err (f e) end.

Definition ok_or {A E} (o : option A) (e : E) : result A E :=
  match o with Some a => Ok a | None => Err e end.

Definition is_ok {A E} (m : result A E) : bool :=
  match m with Ok _ => true | Err _ => false end.

(** The [?] operator. *)
Notation "'let?' x ':=' m 'in' k" := (rbind m (fun x => k))
  (at level 10, x pattern, m at level 100, k at level 200) : vela_scope.
Notation "m ';?' k" := (rbind m (fun _ => k))
  (at level 199, k at level 200, right associativity) : vela_scope.

(** Iterator [collect::<Result<Vec<_>, _>>()]: the first error wins. *)
Fixpoint rmapM {A B E} (f : A -> result B E) (l : list A) : result (list B) E :=
  match l with
  | [] => Ok []
  | x :: l' => let? y := f x in let? ys := rmapM f l' in Ok (y :: ys)
  end.

Lemma Ok_inj {A E} (a b : A) : @Ok A E a = Ok b -> a = b.
Proof. congruence. Qed.

Lemma Err_inj {A E} (a b : E) : @Err A E a = Err b -> a = b.
Proof. congruence. Qed.

Lemma rbind_Ok {A B E} (m : result A E) (k : A -> result B E) b :
  rbind m k = Ok b <-> exists a, m = Ok a /\ k a = Ok b.
Proof. destruct m; naive_solver. Qed.

Lemma rbind_unit {B E} (m : result unit E) (k : result B E) b :
  rbind m (fun _ => k) = Ok b <-> m = Ok tt /\ k = Ok b.
Proof. destruct m as [[]|]; naive_solver. Qed.

Lemma rmap_err_Ok {A E F} (f : E -> F) (m : result A E) a :
  rmap_err f m = Ok a <-> m = Ok a.
Proof. destruct m; naive_solver. Qed.

Lemma ok_or_Ok {A E} (o : option A) (e : E) a : ok_or o e = Ok a <-> o = Some a.
Proof. destruct o; naive_solver. Qed.

Lemma rmapM_Ok {A B E} (f : A -> result B E) l ys :
  rmapM f l = Ok ys <-> Forall2 (fun x y => f x = Ok y) l ys.
Proof.
  revert ys; induction l as [|x l IH]; intros ys; simpl.
  - split; [intros [= <-]; constructor | by inversion 1].
  - rewrite rbind_Ok; setoid_rewrite rbind_Ok; split.
    + intros (y & Hy & zs & Hzs & [= <-]). constructor; [done|]. by apply IH.
    + inversion 1 as [|? y ? zs Hy Hzs]; subst. exists y; split; [done|].
      exists zs. by rewrite IH.
Qed.

(** ** Handlers: state passing with errors

    A handler changes the state and then may fail: the changes made before the
    failure stay, as they do in the source. *)
Definition handler (S E A : Type) : Type := S -> result A E * S.

Definition hret {S E A} (a : A) : handler S E A := fun s => (Ok a, s).
Definition hfail {S E A} (e : E) : handler S E A := fun s => (Err e, s).
Definition hget {S E} : handler S E S := fun s => (Ok s, s).
Definition hmodify {S E} (f : S -> S) : handler S E unit := fun s => (Ok tt, f s).
Definition hlift {S E A} (r : result A E) : handler S E A := fun s => (r, s).
Definition hbind {S E A B} (m : handler S E A) (k : A -> handler S E B) : handler S E B :=
  fun s => match m s with (Ok a, s') => k a s' | (Err e, s') => (Err e, s') end.
(** The outcome of a step as a value: the caller looks at the error. *)
Definition htry {S E F A} (m : handler S E A) : handler S F (result A E) :=
  fun s => let '(r, s') := m s in (Ok r, s').

Notation "'let!' x ':=' m 'in' k" := (hbind m (fun x => k))
  (at level 10, x pattern, m at level 100, k at level 200) : vela_scope.
Notation "m ';!' k" := (hbind m (fun _ => k))
  (at level 199, k at level 200, right associativity) : vela_scope.

(** The state after a handler, whatever its outcome. *)
Definition hstate {S E A} (m : handler S E A) (s : S) : S := snd (m s).

(** A handler keeps a property of the state, whatever its outcome. *)
Definition keeps {S E A} (P : S -> Prop) (m : handler S E A) : Prop :=
  forall s, P s -> P (snd (m s)).

Lemma keeps_bind {S E A B} (P : S -> Prop) (m : handler S E A) (k : A -> handler S E B) :
  keeps P m -> (forall a, keeps P (k a)) -> keeps P (hbind m k).
Proof.
  intros Hm Hk s Hs. unfold hbind. specialize (Hm s Hs).
  destruct (m s) as [[a|e] s']; cbn in *; [by apply Hk | done].
Qed.

Lemma keeps_ret {S E A} (P : S -> Prop) (a : A) : keeps P (hret a : handler S E A).
Proof. by intros s Hs. Qed.

Lemma keeps_fail {S E A} (P : S -> Prop) (e : E) : keeps P (hfail e : handler S E A).
Proof. by intros s Hs. Qed.

Lemma keeps_get {S E} (P : S -> Prop) : keeps P (hget : handler S E S).
Proof. by intros s Hs. Qed.

Lemma keeps_lift {S E A} (P : S -> Prop) (r : result A E) : keeps P (hlift r : handler S E A).
Proof. by intros s Hs. Qed.

Lemma keeps_modify {S E} (P : S -> Prop) (f : S -> S) :
  (forall s, P s -> P (f s)) -> keeps P (hmodify f : handler S E unit).
Proof. by intros Hf s Hs; apply Hf. Qed.

Lemma keeps_try {S E F A} (P : S -> Prop) (m : handler S E A) :
  keeps P m -> keeps P (htry m : handler S F (result A E)).
Proof. intros Hm s Hs. unfold htry. specialize (Hm s Hs). by destruct (m s). Qed.

(** Walk down a handler to its primitive steps. *)
Ltac keeps_walk :=
  repeat match goal with
  | |- keeps _ (hbind _ _) => apply keeps_bind; [|intros ?]
  | |- keeps _ (hret _) => apply keeps_ret
  | |- keeps _ (hfail _) => apply keeps_fail
  | |- keeps _ (hlift _) => apply keeps_lift
  | |- keeps _ hget => apply keeps_get
  | |- keeps _ (htry _) => apply keeps_try
  | |- keeps _ (let _ := _ in _) => cbn zeta
  | |- keeps _ (let '(_, _) := ?x in _) => destruct x
  | |- keeps _ (if ?b then _ else _) => destruct b
  | |- keeps _ (match ?o with Some _ => _ | None => _ end) => destruct o
  | |- keeps _ (match ?r with Ok _ => _ | Err _ => _ end) => destruct r
  | |- keeps _ (match ?l with [] => _ | _ :: _ => _ end) => destruct l
  end.

(** Run a handler: the successful outcomes of a sequence. *)
Lemma hbind_Ok {S E A B} (m : handler S E A) (k : A -> handler S E B) s b s'' :
  hbind m k s = (Ok b, s'') <-> exists a s', m s = (Ok a, s') /\ k a s' = (Ok b, s'').
Proof.
  unfold hbind. destruct (m s) as [[a|e] s']; [naive_solver|].
  split; [done | intros (? & ? & ? & ?); congruence].
Qed.

(** Break every branch of a hypothesis or goal of [result] type. *)
Ltac inv_ok :=
  repeat match goal with
  | H : Ok _ = Ok _ |- _ => apply Ok_inj in H; subst
  | H : Err _ = Err _ |- _ => apply Err_inj in H; subst
  | H : Ok _ = Err _ |- _ => discriminate H
  | H : Err _ = Ok _ |- _ => discriminate H
  | H : rbind _ _ = Ok _ |- _ => apply rbind_Ok in H; destruct H as (? & ? & H); cbn beta in H
  | H : ok_or _ _ = Ok _ |- _ => apply ok_or_Ok in H
  | H : rmap_err _ _ = Ok _ |- _ => apply rmap_err_Ok in H
  | H : (if ?b then _ else _) = Ok _ |- _ => destruct b eqn:?; try discriminate H
  | H : (match ?o with Some _ => _ | None => _ end) = Ok _ |- _ =>
      destruct o eqn:?; try discriminate H
  end.

(** Turn boolean tests in the context into propositions. *)
Ltac unbool :=
  repeat match goal with
  | H : _ && _ = true |- _ => apply andb_true_iff in H; destruct H
  | H : _ || _ = false |- _ => apply orb_false_iff in H; destruct H
  | H : negb _ = true |- _ => apply negb_true_iff in H
  | H : negb _ = false |- _ => apply negb_false_iff in H
  | H : (_ <? _)%Z = true |- _ => apply Z.ltb_lt in H
  | H : (_ <? _)%Z = false |- _ => apply Z.ltb_ge in H
  | H : (_ <=? _)%Z = true |- _ => apply Z.leb_le in H
  | H : (_ <=? _)%Z = false |- _ => apply Z.leb_gt in H
  | H : (_ =? _)%Z = true |- _ => apply Z.eqb_eq in H
  | H : (_ =? _)%Z = false |- _ => apply Z.eqb_neq in H
  | H : (_ <? _)%nat = true |- _ => apply Nat.ltb_lt in H
  | H : (_ <? _)%nat = false |- _ => apply Nat.ltb_ge in H
  | H : (_ <=? _)%nat = true |- _ => apply Nat.leb_le in H
  | H : (_ <=? _)%nat = false |- _ => apply Nat.leb_gt in H
  | H : (_ =? _)%nat = true |- _ => apply Nat.eqb_eq in H
  | H : (_ =? _)%nat = false |- _ => apply Nat.eqb_neq in H
  | H : bool_decide _ = true |- _ => apply bool_decide_eq_true in H
  | H : bool_decide _ = false |- _ => apply bool_decide_eq_false in H
  end.

(** Closed decidable goals, by evaluation. *)
Ltac by_decide := apply (bool_decide_unpack _); vm_compute; exact I.

(** ** Machine integers: a [uN] is a [Z] kept in range explicitly *)

Definition U8_MAX : Z := 2 ^ 8 - 1.
Definition U16_MAX : Z := 2 ^ 16 - 1.
Definition U32_MAX : Z := 2 ^ 32 - 1.
Definition U64_MAX : Z := 2 ^ 64 - 1.
Definition U128_MAX : Z := 2 ^ 128 - 1.

(** [x as uN] *)
Definition wrap (bits : Z) (x : Z) : Z := x mod 2 ^ bits.

(** [x as iN] for a two's complement signed integer *)
Definition wrap_signed (bits : Z) (x : Z) : Z :=
  let y := x mod 2 ^ bits in if y <? 2 ^ (bits - 1) then y else y - 2 ^ bits.

Lemma wrap_wrap_signed bits x : wrap bits (wrap_signed bits (wrap bits x)) = wrap bits x.
Proof.
  unfold wrap, wrap_signed. rewrite Zmod_mod. destruct (_ <? _).
  - by rewrite Zmod_mod.
  - rewrite Zminus_mod, Z_mod_same_full, Z.sub_0_r. by rewrite !Zmod_mod.
Qed.

(** [saturating_add] at [u64] and [saturating_sub] at any unsigned width *)
Definition sat_add64 (x y : Z) : Z := Z.min (x + y) U64_MAX.
Definition sat_sub (x y : Z) : Z := Z.max 0 (x - y).

Definition is_u (bits x : Z) : Prop := 0 <= x < 2 ^ bits.

#[export] Instance is_u_dec bits x : Decision (is_u bits x).
Proof. unfold is_u; apply _. Defined.

Lemma wrap_small bits x : is_u bits x -> wrap bits x = x.
Proof. intros H. by apply Z.mod_small. Qed.

Lemma wrap_is_u bits x : 0 <= bits -> is_u bits (wrap bits x).
Proof. intros H. apply Z.mod_pos_bound. lia. Qed.

(** Bits of machine integers. *)

Lemma testbit_high n x j : is_u n x -> 0 <= n <= j -> Z.testbit x j = false.
Proof.
  intros Hx Hj. unfold is_u in Hx. destruct (decide (x = 0)) as [->|].
  - apply Z.bits_0.
  - apply Z.bits_above_log2; [lia|]. apply Z.lt_le_trans with n; [|lia].
    apply Z.log2_lt_pow2; lia.
Qed.

Lemma is_u_of_bits n x :
  0 <= n -> 0 <= x -> (forall j, n <= j -> Z.testbit x j = false) -> is_u n x.
Proof.
  intros Hn Hx Hb. replace x with (wrap n x); [by apply wrap_is_u|].
  apply Z.bits_inj'. intros j Hj. unfold wrap. destruct (Z.lt_ge_cases j n).
  - by apply Z.mod_pow2_bits_low.
  - rewrite Z.mod_pow2_bits_high by lia. symmetry. by apply Hb.
Qed.

Lemma is_u_lor n x y : 0 <= n -> is_u n x -> is_u n y -> is_u n (Z.lor x y).
Proof.
  intros Hn Hx Hy. apply is_u_of_bits; [done| |].
  - apply Z.lor_nonneg. unfold is_u in *; lia.
  - intros j Hj. by rewrite Z.lor_spec, (testbit_high n x), (testbit_high n y).
Qed.

Lemma is_u_shiftr n x k : 0 <= k -> is_u n x -> is_u n (Z.shiftr x k).
Proof.
  intros Hk Hx. unfold is_u in *. rewrite Z.shiftr_div_pow2 by lia.
  split; [apply Z.div_pos; lia|].
  apply Z.le_lt_trans with x; [|lia]. apply Z.div_le_upper_bound; nia.
Qed.

Lemma testbit_wrap_shiftl n a k j :
  0 <= k -> 0 <= j < n ->
  Z.testbit (wrap n (Z.shiftl a k)) j = (k <=? j) && Z.testbit a (j - k).
Proof.
  intros Hk Hj. unfold wrap. rewrite Z.mod_pow2_bits_low by lia.
  rewrite Z.shiftl_spec by lia.
  destruct (Z.leb_spec k j); [done|]. by rewrite Z.testbit_neg_r by lia.
Qed.

(** ** Bytes *)

Abbreviation bytes := (list Z) (only parsing).

Definition is_byte (b : Z) : Prop := 0 <= b < 256.
Definition bytes_ok (l : bytes) : Prop := Forall is_byte l.

#[export] Instance is_byte_dec b : Decision (is_byte b).
Proof. unfold is_byte; apply _. Defined.
#[export] Instance bytes_ok_dec l : Decision (bytes_ok l).
Proof. unfold bytes_ok; apply _. Defined.

(** [uN::to_be_bytes] and [uN::from_be_bytes] *)
Fixpoint be_bytes (n : nat) (v : Z) : bytes :=
  match n with O => [] | S k => be_bytes k (v / 256) ++ [v mod 256] end.

Definition be_value (l : bytes) : Z := fold_left (fun acc b => acc * 256 + b) l 0.

(** [&l[a..b]], for bounds the caller has checked *)
Definition slice (a b : nat) (l : bytes) : bytes := take (b - a) (drop a l).

(** The bytes of a string literal *)
Fixpoint str (s : string) : bytes :=
  match s with
  | EmptyString => []
  | String c s' => Z.of_N (Ascii.N_of_ascii c) :: str s'
  end.

Definition len (l : bytes) : Z := Z.of_nat (length l).

Lemma length_be_bytes n v : length (be_bytes n v) = n.
Proof.
  revert v; induction n as [|n IH]; intros v; simpl; [done|].
  rewrite length_app, IH; simpl; lia.
Qed.

Lemma be_bytes_ok n v : bytes_ok (be_bytes n v).
Proof.
  revert v; induction n as [|n IH]; intros v; simpl; [constructor|].
  apply Forall_app; split; [apply IH|].
  constructor; [apply Z.mod_pos_bound; lia | constructor].
Qed.

Lemma be_value_snoc l b : be_value (l ++ [b]) = be_value l * 256 + b.
Proof. unfold be_value. by rewrite fold_left_app. Qed.

Lemma pow256_S n : 256 ^ Z.of_nat (S n) = 256 * 256 ^ Z.of_nat n.
Proof. rewrite Nat2Z.inj_succ, Z.pow_succ_r; lia. Qed.

Lemma be_value_be_bytes n v :
  0 <= v < 256 ^ Z.of_nat n -> be_value (be_bytes n v) = v.
Proof.
  revert v; induction n as [|n IH]; intros v Hv.
  - simpl in *. unfold be_value; simpl. lia.
  - cbn [be_bytes]. rewrite be_value_snoc, IH.
    + pose proof (Z.div_mod v 256). lia.
    + rewrite pow256_S in Hv. split; [apply Z.div_pos; lia|].
      apply Z.div_lt_upper_bound; lia.
Qed.

Lemma be_value_bound l : bytes_ok l -> 0 <= be_value l < 256 ^ Z.of_nat (length l).
Proof.
  induction l as [|b l IH] using rev_ind; intros Hl.
  - unfold be_value; simpl; lia.
  - apply Forall_app in Hl as [Hl Hb]. apply Forall_cons in Hb as [Hb _].
    rewrite be_value_snoc, length_app, Nat.add_1_r, pow256_S.
    specialize (IH Hl). unfold is_byte in Hb. lia.
Qed.

Lemma be_bytes_be_value l : bytes_ok l -> be_bytes (length l) (be_value l) = l.
Proof.
  induction l as [|b l IH] using rev_ind; intros Hl; [done|].
  apply Forall_app in Hl as [Hl Hb]. apply Forall_cons in Hb as [Hb _].
  unfold is_byte in Hb.
  rewrite be_value_snoc, length_app, Nat.add_1_r. cbn [be_bytes].
  rewrite (Z.add_comm (_ * _) b), Z.div_add, (Z.div_small b), Z.add_0_l by lia.
  rewrite Z.mod_add, (Z.mod_small b) by lia. by rewrite IH.
Qed.

Lemma pow256_bits n : 256 ^ Z.of_nat n = 2 ^ (8 * Z.of_nat n).
Proof. rewrite Z.pow_mul_r by lia. done. Qed.

Lemma be_value_is_u l bits :
  bytes_ok l -> bits = 8 * Z.of_nat (length l) -> is_u bits (be_value l).
Proof. intros Hl ->. unfold is_u. rewrite <- pow256_bits. by apply be_value_bound. Qed.

Lemma be_value_be_bytes_u n bits v :
  bits = 8 * Z.of_nat n -> is_u bits v -> be_value (be_bytes n v) = v.
Proof. intros ->. unfold is_u. rewrite <- pow256_bits. apply be_value_be_bytes. Qed.

Lemma be_bytes_of_value n l : length l = n -> bytes_ok l -> be_bytes n (be_value l) = l.
Proof. intros <-. apply be_bytes_be_value. Qed.

Lemma be_bytes_inj n v w :
  0 <= v < 256 ^ Z.of_nat n -> 0 <= w < 256 ^ Z.of_nat n ->
  be_bytes n v = be_bytes n w -> v = w.
Proof.
  intros Hv Hw E. rewrite <- (be_value_be_bytes n v Hv), E.
  by apply be_value_be_bytes.
Qed.

Lemma str_ok s : bytes_ok (str s).
Proof.
  induction s as [|c s IH]; simpl; [constructor|]. constructor; [|done].
  unfold is_byte. pose proof (Ascii.N_ascii_bounded c). lia.
Qed.

Lemma length_slice a b l : (a <= b <= length l)%nat -> length (slice a b l) = (b - a)%nat.
Proof. intros. unfold slice. rewrite length_take, length_drop. lia. Qed.

Lemma slice_ok a b l : bytes_ok l -> bytes_ok (slice a b l).
Proof. intros. unfold slice. by apply Forall_take, Forall_drop. Qed.

Lemma lookup_total_ok l (i : nat) : bytes_ok l -> is_byte (l !!! i).
Proof.
  intros Hl. rewrite list_lookup_total_alt. destruct (l !! i) as [b|] eqn:E; simpl.
  - by eapply Forall_lookup_1.
  - unfold is_byte; simpl; lia.
Qed.

Lemma bytes_ok_app l1 l2 : bytes_ok (l1 ++ l2) <-> bytes_ok l1 /\ bytes_ok l2.
Proof. apply Forall_app. Qed.

Lemma bytes_ok_cons b l : bytes_ok (b :: l) <-> is_byte b /\ bytes_ok l.
Proof. apply Forall_cons. Qed.

Lemma slice_app_l a b l1 l2 :
  (a <= b <= length l1)%nat -> slice a b (l1 ++ l2) = slice a b l1.
Proof.
  intros. unfold slice. rewrite drop_app_le, take_app_le by (rewrite ?length_drop; lia). done.
Qed.

Lemma slice_all l : slice 0 (length l) l = l.
Proof. unfold slice. rewrite Nat.sub_0_r, drop_0. by apply firstn_all. Qed.

Lemma slice_split a b l :
  (a <= b <= length l)%nat -> l = take a l ++ slice a b l ++ drop b l.
Proof.
  intros. unfold slice. rewrite <- (take_drop a l) at 1. f_equal.
  rewrite <- (take_drop (b - a) (drop a l)) at 1. f_equal.
  rewrite drop_drop. f_equal. lia.
Qed.

(** Split equal concatenations whose first parts have the same length. *)
Lemma app_inj_len {A} (a b c d : list A) :
  length a = length c -> a ++ b = c ++ d -> a = c /\ b = d.
Proof. intros. by apply app_inj_1. Qed.

(** Byte-range goals on explicit lists. *)
Ltac solve_bytes :=
  repeat match goal with
  | |- bytes_ok (_ :: _) => apply bytes_ok_cons; split
  | |- bytes_ok (_ ++ _) => apply bytes_ok_app; split
  | |- bytes_ok [] => constructor
  end; auto with vela.

(** Name the elements of a list of known concrete length. *)
Ltac explode l :=
  lazymatch goal with
  | H : length l = ?n |- _ =>
      repeat (destruct l as [|? l]; [try discriminate H | ]; simpl in H; try discriminate H);
      try (destruct l; [clear H | discriminate H])
  end.

#[export] Hint Resolve keeps_ret keeps_fail keeps_get keeps_lift : vela.
#[export] Hint Resolve be_bytes_ok str_ok slice_ok lookup_total_ok : vela.
Create Rewrite HintDb vela.
#[export] Hint Rewrite length_be_bytes : vela.
#[export] Hint Rewrite @length_app : vela.

(** ** Reading a buffer at an offset *)

(** [u16::from_be_bytes([input[o], input[o + 1]])] *)
Definition be16 (input : bytes) (offset : nat) : Z :=
  be_value [input !!! offset; input !!! (offset + 1)%nat].

Lemma drop_cons {A} (l : list A) o x :
  l !! o = Some x -> drop o l = x :: drop (o + 1) l.
Proof. intros Hx. rewrite (drop_S l x o) by done. by rewrite Nat.add_1_r. Qed.

Lemma drop_app_inv {A} (l a r : list A) o :
  drop o l = a ++ r -> (o <= length l)%nat ->
  (o + length a <= length l)%nat /\ drop (o + length a) l = r.
Proof.
  intros E Ho. split.
  - apply (f_equal length) in E. rewrite length_drop, length_app in E. lia.
  - rewrite <- drop_drop, E. by rewrite drop_app_length.
Qed.

Lemma be16_drop input o k l rest :
  drop o input = l ++ rest -> (k + 1 < length l)%nat ->
  be16 input (o + k) = be_value [l !!! k; l !!! (k + 1)%nat].
Proof.
  intros Hd Hk. unfold be16.
  rewrite <- Nat.add_assoc, <- (lookup_total_drop _ o k), <- (lookup_total_drop _ o (k + 1)), Hd.
  by rewrite !lookup_total_app_l by lia.
Qed.

Lemma be_value_be16 v : is_u 16 v -> be_value (be_bytes 2 v) = v.
Proof. by apply be_value_be_bytes_u. Qed.

Lemma drop_slice a b (l : bytes) : (a <= b)%nat -> drop a l = slice a b l ++ drop b l.
Proof.
  intros. unfold slice. rewrite <- (take_drop (b - a) (drop a l)) at 1.
  rewrite drop_drop. do 2 f_equal. lia.
Qed.

Lemma be16_slice input o :
  bytes_ok input -> (o + 2 <= length input)%nat ->
  be_bytes 2 (be16 input o) = slice o (o + 2) input.
Proof.
  intros Hok Ho. pose proof (length_slice o (o + 2) input) as Hl.
  assert (slice o (o + 2) input = [input !!! o; input !!! (o + 1)%nat]) as ->.
  { unfold slice. replace (o + 2 - o)%nat with 2%nat by lia.
    rewrite (drop_S input (input !!! o)) by (apply list_lookup_lookup_total_lt; lia).
    rewrite (drop_S input (input !!! (o + 1)%nat))
      by (replace (S o) with (o + 1)%nat by lia; apply list_lookup_lookup_total_lt; lia).
    done. }
  apply be_bytes_of_value; [done|]. solve_bytes.
Qed.

Lemma be16_is_u input o : bytes_ok input -> is_u 16 (be16 input o).
Proof. intros. apply be_value_is_u; [solve_bytes | done]. Qed.
