(* ===== verification/Net.v ===== *)
(** * Addresses

    The address types of the standard library the source uses ([Ipv4Addr],
    [Ipv6Addr], [IpAddr], [SocketAddr]) and the transport [Candidate] of
    [vela-proto/src/lib.rs].  An IPv4 address is its 32-bit value and an IPv6
    address its 128-bit value; [octets] are their big-endian bytes. *)
From S2P Require Import Prelude.

Inductive IpAddr : Type :=
| V4 (a : Z)
| V6 (a : Z).

#[export] Instance IpAddr_eq_dec : EqDecision IpAddr.
Proof. solve_decision. Defined.

#[export] Instance IpAddr_countable : Countable IpAddr.
Proof.
  apply (inj_countable'
    (fun a => match a with V4 x => inl x | V6 x => inr x end)
    (fun s => match s with inl x => V4 x | inr x => V6 x end)).
  by intros [].
Defined.

#[export] Instance IpAddr_inhabited : Inhabited IpAddr := populate (V4 0).

(** An IPv6 socket address also carries a flow label and a scope id. *)
Inductive SocketAddr : Type :=
| SockV4 (ip port : Z)
| SockV6 (ip port flowinfo scope_id : Z).

#[export] Instance SocketAddr_eq_dec : EqDecision SocketAddr.
Proof. solve_decision. Defined.

#[export] Instance SocketAddr_countable : Countable SocketAddr.
Proof.
  apply (inj_countable'
    (fun a => match a with
              | SockV4 i p => inl (i, p)
              | SockV6 i p f s => inr (i, p, f, s)
              end)
    (fun s => match s with
              | inl (i, p) => SockV4 i p
              | inr (i, p, f, s) => SockV6 i p f s
              end)).
  by intros [].
Defined.

#[export] Instance SocketAddr_inhabited : Inhabited SocketAddr := populate (SockV4 0 0).

Definition sock_ip (a : SocketAddr) : IpAddr :=
  match a with SockV4 i _ => V4 i | SockV6 i _ _ _ => V6 i end.

Definition sock_port (a : SocketAddr) : Z :=
  match a with SockV4 _ p => p | SockV6 _ p _ _ => p end.

Definition sock_is_ipv4 (a : SocketAddr) : bool :=
  match a with SockV4 _ _ => true | SockV6 _ _ _ _ => false end.

(** [octets()] *)
Definition ipv4_octets (a : Z) : bytes := be_bytes 4 a.
Definition ipv6_octets (a : Z) : bytes := be_bytes 16 a.

Inductive Candidate : Type :=
| Host (a : SocketAddr)
| ServerReflexive (a : SocketAddr)
| PeerReflexive (a : SocketAddr).

#[export] Instance Candidate_eq_dec : EqDecision Candidate.
Proof. solve_decision. Defined.

(** [Candidate::address] *)
Definition Candidate_address (c : Candidate) : SocketAddr :=
  match c with Host a | ServerReflexive a | PeerReflexive a => a end.
