(* ===== verification/Encoding.v ===== *)
(** * Self-delimiting encodings and the order on byte strings

    The signed encodings of the source ([unsigned_bytes], [signing_bytes], the
    probe and handshake contexts) are concatenations of fixed-width fields,
    tagged options and length-prefixed lists.  An encoder is self-delimiting on a
    set of values if from its output followed by anything the value and the rest
    can be told; these lemmas build such encoders from their parts, so that the
    injectivity of a whole encoding is a chain of applications. *)
From S2P Require Import Prelude.

Definition self_delim {A} (P : A -> Prop) (enc : A -> bytes) : Prop :=
  forall a b r1 r2, P a -> P b -> enc a ++ r1 = enc b ++ r2 -> a = b /\ r1 = r2.

Section SelfDelim.
Context {A B : Type}.
Implicit Types (P : A -> Prop) (enc : A -> bytes).

Lemma self_delim_inj P enc a b : self_delim P enc -> P a -> P b -> enc a = enc b -> a = b.
Proof. intros H Ha Hb E. apply (H a b [] []); [done..|]. by rewrite E. Qed.

(** Fixed-width fields. *)
Lemma self_delim_fixed P enc n :
  (forall a, P a -> length (enc a) = n) ->
  (forall a b, P a -> P b -> enc a = enc b -> a = b) -> self_delim P enc.
Proof.
  intros Hl Hinj a b r1 r2 Ha Hb E.
  apply app_inj_len in E as [E ->]; [|by rewrite !Hl]. by split; [apply Hinj|].
Qed.

(** A projection of a value that is encoded on its own. *)
Lemma self_delim_map (P : A -> Prop) (Q : B -> Prop) (f : B -> A) (enc : A -> bytes) :
  self_delim P enc -> (forall x y, Q x -> Q y -> f x = f y -> x = y) ->
  (forall x, Q x -> P (f x)) -> self_delim Q (fun x => enc (f x)).
Proof.
  intros H Hf Hq x y r1 r2 Hx Hy E. apply H in E as [E ->]; auto.
Qed.

Lemma self_delim_option P enc :
  self_delim P enc ->
  self_delim (fun o => forall a, o = Some a -> P a)
    (fun o => match o with Some a => 1 :: enc a | None => [0] end).
Proof.
  intros H [a|] [b|] r1 r2 Ha Hb E; simplify_eq/=; [|done].
  apply H in E as [-> ->]; auto.
Qed.

Lemma self_delim_elems P enc (l1 l2 : list A) r1 r2 :
  self_delim P enc -> length l1 = length l2 -> Forall P l1 -> Forall P l2 ->
  concat (map enc l1) ++ r1 = concat (map enc l2) ++ r2 -> l1 = l2 /\ r1 = r2.
Proof.
  intros H. revert l2; induction l1 as [|a l1 IH]; intros [|b l2] Hl H1 H2 E;
    try discriminate Hl; [by split|].
  apply Forall_cons in H1 as [Ha H1], H2 as [Hb H2]. cbn in E.
  rewrite <- !app_assoc in E. apply H in E as [-> E]; [|done..].
  apply IH in E as [-> ->]; [done|by injection Hl|done..].
Qed.
End SelfDelim.

(** [out.extend(&(l.len() as u32).to_be_bytes())] then the elements. *)
Definition enc_list {A} (enc : A -> bytes) (l : list A) : bytes :=
  be_bytes 4 (wrap 32 (Z.of_nat (length l))) ++ concat (map enc l).

Definition short_list {A} (P : A -> Prop) (l : list A) : Prop :=
  Z.of_nat (length l) < 2 ^ 32 /\ Forall P l.

Lemma self_delim_list {A} (P : A -> Prop) enc :
  self_delim P enc -> self_delim (short_list P) (enc_list enc).
Proof.
  intros H l1 l2 r1 r2 [B1 H1] [B2 H2] E. unfold enc_list in E.
  rewrite <- !app_assoc in E.
  apply app_inj_len in E as [El E]; [|by rewrite !length_be_bytes].
  rewrite !wrap_small in El by (unfold is_u; lia).
  apply be_bytes_inj in El; [|change (256 ^ Z.of_nat 4) with (2 ^ 32); lia..].
  eapply self_delim_elems; eauto. lia.
Qed.

Lemma self_delim_be n bits :
  bits = 8 * Z.of_nat n -> self_delim (is_u bits) (be_bytes n).
Proof.
  intros ->. apply self_delim_fixed with n.
  - intros; apply length_be_bytes.
  - unfold is_u. rewrite <- pow256_bits. intros a b Ha Hb. by apply be_bytes_inj.
Qed.

(** A field of [n] raw bytes. *)
Lemma self_delim_raw n : self_delim (fun l : bytes => length l = n) (fun l => l).
Proof. by apply self_delim_fixed with n. Qed.

Lemma self_delim_byte : self_delim (fun _ : Z => True) (fun b => [b]).
Proof. apply self_delim_fixed with 1%nat; [done|]. by intros a b _ _ [= ->]. Qed.

(** ** The derived order on byte arrays *)

Fixpoint bytes_leb (a b : bytes) : bool :=
  match a, b with
  | [], _ => true
  | _ :: _, [] => false
  | x :: a', y :: b' => (x <? y) || ((x =? y) && bytes_leb a' b')
  end.

Definition bytes_ltb (a b : bytes) : bool := negb (bytes_leb b a).

Definition bytes_le (a b : bytes) : Prop := bytes_leb a b = true.

#[export] Instance bytes_le_dec a b : Decision (bytes_le a b).
Proof. unfold bytes_le; apply _. Defined.

Lemma bytes_leb_cons x a y b :
  bytes_leb (x :: a) (y :: b) = true <-> x < y \/ (x = y /\ bytes_leb a b = true).
Proof. cbn. rewrite orb_true_iff, andb_true_iff, Z.ltb_lt, Z.eqb_eq. done. Qed.

#[export] Instance bytes_le_total : Total bytes_le.
Proof.
  intros a; unfold bytes_le; induction a as [|x a IH]; intros [|y b]; auto.
  rewrite !bytes_leb_cons. destruct (IH b), (Z.lt_trichotomy x y) as [?|[?|?]]; auto.
Qed.

#[export] Instance bytes_le_trans : Transitive bytes_le.
Proof.
  intros a; unfold bytes_le; induction a as [|x a IH]; intros [|y b] [|z c]; try done.
  rewrite !bytes_leb_cons. intros [?|[-> ?]] [?|[? ?]]; [left; lia..|].
  right. split; [done|]. by eapply IH.
Qed.

#[export] Instance bytes_le_antisymm : AntiSymm (=) bytes_le.
Proof.
  intros a; unfold bytes_le; induction a as [|x a IH]; intros [|y b]; try done.
  rewrite !bytes_leb_cons. intros [?|[-> ?]] [?|[? ?]]; try lia. f_equal. by apply IH.
Qed.

(** ** Sorting by a key *)

Definition key_le {A} (key : A -> bytes) (x y : A) : Prop := bytes_le (key x) (key y).

#[export] Instance key_le_dec {A} (key : A -> bytes) x y : Decision (key_le key x y).
Proof. unfold key_le; apply _. Defined.

#[export] Instance key_le_total {A} (key : A -> bytes) : Total (key_le key).
Proof. intros x y. apply bytes_le_total. Qed.

#[export] Instance key_le_trans {A} (key : A -> bytes) : Transitive (key_le key).
Proof. intros x y z. apply bytes_le_trans. Qed.

(** [sort_by_key]: stable *)
Definition sort_by_key {A} (key : A -> bytes) (l : list A) : list A :=
  merge_sort (key_le key) l.

Lemma sort_by_key_perm {A} (key : A -> bytes) l : sort_by_key key l ≡ₚ l.
Proof. apply merge_sort_Permutation. Qed.

Lemma sort_by_key_sorted {A} (key : A -> bytes) l :
  StronglySorted (key_le key) (sort_by_key key l).
Proof. apply StronglySorted_merge_sort; apply _. Qed.

Lemma nodup_key_inj {A K} (key : A -> K) (l : list A) x1 x2 :
  NoDup (map key l) -> x1 ∈ l -> x2 ∈ l -> key x1 = key x2 -> x1 = x2.
Proof.
  intros Hnd Hx1 Hx2 Hk.
  apply list_elem_of_lookup in Hx1 as [i Hi], Hx2 as [j Hj].
  assert (i = j) as <-; [|congruence].
  eapply NoDup_lookup; [exact Hnd | by rewrite list_lookup_fmap, Hi | ].
  by rewrite list_lookup_fmap, Hj, Hk.
Qed.

(** A list sorted by distinct keys is determined by its elements. *)
Lemma sorted_by_key_ext {A} (key : A -> bytes) (l1 l2 : list A) :
  StronglySorted (key_le key) l1 -> StronglySorted (key_le key) l2 ->
  NoDup (map key l1) -> NoDup (map key l2) -> (forall x, x ∈ l1 <-> x ∈ l2) -> l1 = l2.
Proof.
  intros S1 S2 N1 N2 Hin. apply (StronglySorted_unique_strong (key_le key)); [|done..|].
  - intros x1 x2 Hx1 Hx2 H12 H21. apply (nodup_key_inj key l1); [done..|by apply Hin|].
    by apply (anti_symm bytes_le).
  - apply NoDup_Permutation; [by eapply NoDup_fmap_1..|done].
Qed.

(** With distinct keys the sorted list does not depend on the order given. *)
Lemma sort_by_key_unique {A} (key : A -> bytes) (l1 l2 : list A) :
  NoDup (map key l1) -> l1 ≡ₚ l2 -> sort_by_key key l1 = sort_by_key key l2.
Proof.
  intros Hnd Hp. apply (sorted_by_key_ext key).
  - apply sort_by_key_sorted.
  - apply sort_by_key_sorted.
  - by rewrite sort_by_key_perm.
  - by rewrite sort_by_key_perm, <- Hp.
  - intros x. by rewrite !sort_by_key_perm, Hp.
Qed.
