(* ===== verification/Wire.v ===== *)
(** * The data-plane wire format

    The fixed 26-byte packet header and the packet framing of
    [vela-proto/src/lib.rs] ([PacketType], [Header], [WirePacket]), with the
    error type of that crate.  Byte buffers are lists of [Z]; the multi-byte
    fields are the big-endian [be_bytes] of the prelude. *)
From S2P Require Import Prelude.

(** The control and data-plane errors ([ProtoError]). *)
Inductive ProtoError : Type :=
| Truncated
| InvalidMagic
| UnsupportedVersion (v : Z)
| UnknownPacketType (t : Z)
| PayloadTooLarge
| LengthMismatch
| TrailingBytes
| InvalidNodeId
| InvalidEncoding
| InvalidSnapshot (why : string)
| Hex (why : string).

Definition MAGIC : bytes := str "VELA".
Definition PROTOCOL_VERSION : Z := 2.
Definition HEADER_LEN : nat := 26.

Inductive PacketType : Type :=
| Probe | ProbeResponse | Handshake | Data | KeepAlive
| DiagnosticPing | DiagnosticPong | KeepAliveAck | MtuProbe | MtuProbeAck.

#[export] Instance PacketType_eq_dec : EqDecision PacketType.
Proof. solve_decision. Defined.

(** [packet_type as u8] *)
Definition PacketType_code (t : PacketType) : Z :=
  match t with
  | Probe => 1 | ProbeResponse => 2 | Handshake => 3 | Data => 4 | KeepAlive => 5
  | DiagnosticPing => 6 | DiagnosticPong => 7 | KeepAliveAck => 8
  | MtuProbe => 9 | MtuProbeAck => 10
  end.

Definition PacketType_try_from (value : Z) : result PacketType ProtoError :=
  match value with
  | 1 => Ok Probe
  | 2 => Ok ProbeResponse
  | 3 => Ok Handshake
  | 4 => Ok Data
  | 5 => Ok KeepAlive
  | 6 => Ok DiagnosticPing
  | 7 => Ok DiagnosticPong
  | 8 => Ok KeepAliveAck
  | 9 => Ok MtuProbe
  | 10 => Ok MtuProbeAck
  | _ => Err (UnknownPacketType value)
  end.

Record Header : Type := mkHeader {
  version : Z;
  packet_type : PacketType;
  flags : Z;
  session_id : Z;
  sequence : Z;
  payload_len : Z
}.

Definition Header_new (ty : PacketType) (sid seq : Z) (plen : nat)
    : result Header ProtoError :=
  if Z.of_nat plen <=? U16_MAX
  then Ok (mkHeader PROTOCOL_VERSION ty 0 sid seq (Z.of_nat plen))
  else Err PayloadTooLarge.

(** [Header::encode] appends to the output buffer; this is what it appends. *)
Definition Header_encode (h : Header) : bytes :=
  MAGIC ++ [version h] ++ [PacketType_code (packet_type h)]
  ++ be_bytes 2 (flags h) ++ be_bytes 8 (session_id h)
  ++ be_bytes 8 (sequence h) ++ be_bytes 2 (payload_len h).

Definition Header_decode (input : bytes) : result Header ProtoError :=
  if (length input <? HEADER_LEN)%nat then Err Truncated
  else if negb (bool_decide (slice 0 4 input = MAGIC)) then Err InvalidMagic
  else
    let v := input !!! 4%nat in
    if negb (v =? PROTOCOL_VERSION) then Err (UnsupportedVersion v)
    else
      let? ty := PacketType_try_from (input !!! 5%nat) in
      Ok {| version := v;
            packet_type := ty;
            flags := be_value [input !!! 6%nat; input !!! 7%nat];
            session_id := be_value (slice 8 16 input);
            sequence := be_value (slice 16 24 input);
            payload_len := be_value [input !!! 24%nat; input !!! 25%nat] |}.

Record WirePacket : Type := mkWirePacket {
  header : Header;
  payload : bytes
}.

Definition WirePacket_encode (p : WirePacket) : result bytes ProtoError :=
  if negb (len (payload p) =? payload_len (header p)) then Err LengthMismatch
  else Ok (Header_encode (header p) ++ payload p).

Definition WirePacket_decode (input : bytes) : result WirePacket ProtoError :=
  let? h := Header_decode input in
  let e := (HEADER_LEN + Z.to_nat (payload_len h))%nat in
  if (length input <? e)%nat then Err Truncated
  else if negb (length input =? e)%nat then Err TrailingBytes
  else Ok (mkWirePacket h (slice HEADER_LEN e input)).

(** [WirePacket::decode_bytes] shares the input buffer: its payload is
    [input.slice(HEADER_LEN..end)], represented by the offsets it keeps. *)
Record BytesView : Type := mkView { v_base : bytes; v_from : nat; v_to : nat }.

Definition view_bytes (v : BytesView) : bytes := slice (v_from v) (v_to v) (v_base v).

Definition WirePacket_decode_bytes (input : bytes) : result (Header * BytesView) ProtoError :=
  let? h := Header_decode input in
  let e := (HEADER_LEN + Z.to_nat (payload_len h))%nat in
  if (length input <? e)%nat then Err Truncated
  else if negb (length input =? e)%nat then Err TrailingBytes
  else Ok (h, mkView input HEADER_LEN e).

(** ** Well-formed headers and packets *)

Definition Header_wf (h : Header) : Prop :=
  version h = PROTOCOL_VERSION /\ is_u 16 (flags h) /\ is_u 64 (session_id h)
  /\ is_u 64 (sequence h) /\ is_u 16 (payload_len h).

#[export] Instance Header_wf_dec h : Decision (Header_wf h).
Proof. unfold Header_wf; apply _. Defined.

Definition WirePacket_wf (p : WirePacket) : Prop :=
  Header_wf (header p) /\ bytes_ok (payload p)
  /\ len (payload p) = payload_len (header p).

#[export] Instance WirePacket_wf_dec p : Decision (WirePacket_wf p).
Proof. unfold WirePacket_wf; apply _. Defined.

Lemma PacketType_roundtrip t : PacketType_try_from (PacketType_code t) = Ok t.
Proof. by destruct t. Qed.

Lemma PacketType_try_from_Ok b t :
  PacketType_try_from b = Ok t -> b = PacketType_code t.
Proof.
  unfold PacketType_try_from; intros H.
  repeat (case_match; try discriminate H); injection H as <-; done.
Qed.

Lemma PacketType_code_byte t : is_byte (PacketType_code t).
Proof. destruct t; unfold is_byte; simpl; lia. Qed.

Lemma length_Header_encode h : length (Header_encode h) = HEADER_LEN.
Proof. unfold Header_encode; autorewrite with vela; done. Qed.

Lemma Header_encode_ok h : Header_wf h -> bytes_ok (Header_encode h).
Proof.
  intros (Hv & _). unfold Header_encode.
  rewrite !bytes_ok_app, Hv. repeat split; auto with vela.
  - apply str_ok.
  - by_decide.
  - constructor; [apply PacketType_code_byte | constructor].
Qed.

Lemma Header_encode_inj h1 h2 :
  Header_wf h1 -> Header_wf h2 -> Header_encode h1 = Header_encode h2 -> h1 = h2.
Proof.
  intros (V1 & F1 & S1 & Q1 & P1) (V2 & F2 & S2 & Q2 & P2) E.
  unfold Header_encode in E.
  apply app_inj_len in E as [_ E]; [|done].
  apply app_inj_len in E as [_ E]; [|done].
  apply app_inj_len in E as [Et E]; [|done].
  apply app_inj_len in E as [Ef E]; [|by rewrite !length_be_bytes].
  apply app_inj_len in E as [Es E]; [|by rewrite !length_be_bytes].
  apply app_inj_len in E as [Eq Ep]; [|by rewrite !length_be_bytes].
  apply be_bytes_inj in Ef, Es, Eq, Ep; [|by unfold is_u in *..].
  injection Et as Et. destruct h1, h2; simpl in *; subst.
  f_equal. pose proof (PacketType_roundtrip packet_type0) as R1.
  rewrite Et, PacketType_roundtrip in R1. congruence.
Qed.

(** Decoding what was encoded, with any bytes after the header. *)
Lemma Header_decode_encode h rest :
  Header_wf h -> Header_decode (Header_encode h ++ rest) = Ok h.
Proof.
  intros (Hv & Hf & Hs & Hq & Hp). unfold Header_decode.
  rewrite length_app, length_Header_encode.
  destruct (Nat.ltb_spec (HEADER_LEN + length rest) HEADER_LEN) as [?|_]; [lia|].
  unfold Header_encode.
  pose proof (length_be_bytes 2 (flags h)) as L1.
  pose proof (length_be_bytes 8 (session_id h)) as L2.
  pose proof (length_be_bytes 8 (sequence h)) as L3.
  pose proof (length_be_bytes 2 (payload_len h)) as L4.
  pose proof (be_value_be_bytes 2 _ Hf) as V1.
  pose proof (be_value_be_bytes 8 _ Hs) as V2.
  pose proof (be_value_be_bytes 8 _ Hq) as V3.
  pose proof (be_value_be_bytes 2 _ Hp) as V4.
  destruct h as [v ty f s q p]; cbn [version packet_type flags session_id sequence payload_len] in *.
  generalize dependent (be_bytes 2 f); intros lf L1 V1.
  generalize dependent (be_bytes 8 s); intros ls L2 V2.
  generalize dependent (be_bytes 8 q); intros lq L3 V3.
  generalize dependent (be_bytes 2 p); intros lp L4 V4.
  explode lf; explode ls; explode lq; explode lp. subst v. cbn -[be_value].
  rewrite PacketType_roundtrip; cbn -[be_value]. unfold slice; cbn -[be_value].
  by rewrite V1, V2, V3, V4.
Qed.

(** The decoder accepts only encodings. *)
Lemma Header_decode_sound input h :
  bytes_ok input -> Header_decode input = Ok h ->
  Header_wf h /\ take HEADER_LEN input = Header_encode h.
Proof.
  intros Hb H. unfold Header_decode in H. inv_ok. unbool.
  match goal with E : PacketType_try_from _ = _ |- _ => apply PacketType_try_from_Ok in E end.
  change HEADER_LEN with 26%nat in *.
  assert (E : input = take 26 input ++ drop 26 input) by (by rewrite take_drop).
  assert (L : length (take 26 input) = 26%nat) by (rewrite length_take; lia).
  assert (Hb' : bytes_ok (take 26 input)) by (by apply Forall_take).
  set (rest := drop 26 input) in *; clearbody rest.
  set (hd := take 26 input) in *; clearbody hd. subst input. clear Hb.
  explode hd. unfold slice in *. cbn -[be_value be_bytes MAGIC] in *.
  rewrite !bytes_ok_cons in Hb'. destruct_and!.
  unfold Header_encode, Header_wf.
  cbn [version packet_type flags session_id sequence payload_len].
  rewrite <- H0, !be_bytes_of_value by first [done | solve_bytes].
  split; [|by rewrite <- Heqb0].
  split; [done|]. split_and!; apply be_value_is_u; first [done | solve_bytes].
Qed.

(** ** The codec theorems *)

Definition sample_packet : WirePacket :=
  mkWirePacket (mkHeader 2 Data 0 7 9 3) [10; 11; 12].

(** encoding a well-formed packet succeeds, and decoding the bytes gives
    the packet back. *)
Theorem wire_decode_encode p :
  WirePacket_wf p ->
  exists input, WirePacket_encode p = Ok input /\ WirePacket_decode input = Ok p.
Proof.
  intros (Hh & Hb & Hl). exists (Header_encode (header p) ++ payload p).
  unfold WirePacket_encode, WirePacket_decode.
  rewrite Hl, Z.eqb_refl; split; [done|].
  rewrite Header_decode_encode by done. cbn [rbind].
  rewrite <- Hl. unfold len. rewrite Nat2Z.id.
  rewrite length_app, length_Header_encode, Nat.ltb_irrefl, Nat.eqb_refl; cbn [negb].
  replace (slice _ _ _) with (payload p); [by destruct p|].
  unfold slice. rewrite <- (length_Header_encode (header p)), drop_app_length.
  by rewrite Nat.add_comm, Nat.add_sub, take_ge.
Qed.

(** the decoder is exact: an accepted input is the encoding of the packet
    returned, so no two byte strings decode to the same packet. *)
Theorem wire_decode_sound input p :
  bytes_ok input -> WirePacket_decode input = Ok p ->
  WirePacket_wf p /\ WirePacket_encode p = Ok input.
Proof.
  intros Hb H. unfold WirePacket_decode in H. inv_ok. unbool.
  match goal with E : Header_decode _ = _ |- _ => apply Header_decode_sound in E as [Hw Ht]; [|done] end.
  pose proof Hw as (_ & _ & _ & _ & Hp). unfold is_u in Hp.
  assert (Hs : slice HEADER_LEN (HEADER_LEN + Z.to_nat (payload_len x)) input = drop HEADER_LEN input).
  { unfold slice. rewrite take_ge; [done|]. rewrite length_drop. lia. }
  assert (Hlen : len (drop HEADER_LEN input) = payload_len x).
  { unfold len. rewrite length_drop. lia. }
  unfold WirePacket_wf, WirePacket_encode; cbn [header payload]. rewrite Hs, Hlen, Z.eqb_refl.
  split_and!; auto using Forall_drop.
  - by apply Forall_drop.
  - cbn [negb]. by rewrite <- Ht, take_drop.
Qed.

Lemma wire_decode_encode_witness :
  exists input, WirePacket_encode sample_packet = Ok input
                /\ WirePacket_decode input = Ok sample_packet.
Proof. apply (wire_decode_encode sample_packet). by_decide. Defined.

Lemma wire_decode_sound_witness :
  WirePacket_wf sample_packet
  /\ WirePacket_encode sample_packet = Ok (Header_encode (header sample_packet) ++ [10; 11; 12]).
Proof. apply wire_decode_sound; [by_decide | vm_compute; reflexivity]. Defined.

(** Both decoders agree on every input, errors included. *)
Lemma wire_decode_bytes_agrees input :
  WirePacket_decode input =
  (let? hv := WirePacket_decode_bytes input in
   Ok (mkWirePacket (fst hv) (view_bytes (snd hv)))).
Proof.
  unfold WirePacket_decode, WirePacket_decode_bytes, rbind.
  destruct (Header_decode input); [|done]. by repeat case_match.
Qed.

