(* ===== verification/NodeId.v ===== *)
(** * Node identifiers and their text form

    [NodeId] of [vela-proto/src/lib.rs] (32 bytes), its [Display], [short] and
    [FromStr], with [hex_encode] and [hex_decode].  A string is its UTF-8 bytes.
    Slicing a [&str] off a character boundary panics, so [hex_decode] returns
    [None] where the code panics and [Some] of its result otherwise. *)
From S2P Require Import Prelude Wire.

Definition NODE_ID_LEN : nat := 32.
Definition NodeId_wf (id : bytes) : Prop := length id = NODE_ID_LEN /\ bytes_ok id.

#[export] Instance NodeId_wf_dec id : Decision (NodeId_wf id).
Proof. unfold NodeId_wf; apply _. Defined.

(** [format!("{byte:02x}")] *)
Definition hex_digit (d : Z) : Z := if d <? 10 then 48 + d else 87 + d.
Definition hex_byte (b : Z) : bytes := [hex_digit (b / 16); hex_digit (b mod 16)].
Definition hex_encode (value : bytes) : bytes := concat (map hex_byte value).

Definition NodeId_display (id : bytes) : bytes := str "vela:" ++ hex_encode id.
Definition NodeId_short (id : bytes) : bytes := str "vela:" ++ hex_encode (take 8 id).

(** [char::to_digit(16)] *)
Definition digit_value (c : Z) : option Z :=
  if (48 <=? c) && (c <=? 57) then Some (c - 48)
  else if (97 <=? c) && (c <=? 102) then Some (c - 87)
  else if (65 <=? c) && (c <=? 70) then Some (c - 55)
  else None.

(** [u8::from_str_radix(s, 16)] on a string of two bytes: a leading plus sign is
    allowed; two digits never overflow. *)
Definition radix16_pair (a b : Z) : option Z :=
  if a =? 43 then digit_value b
  else
    match digit_value a, digit_value b with
    | Some x, Some y => Some (x * 16 + y)
    | _, _ => None
    end.

(** A UTF-8 continuation byte: not the start of a character. *)
Definition is_continuation (c : Z) : bool := (128 <=? c) && (c <? 192).

Definition on_boundary (rest : bytes) : bool :=
  match rest with [] => true | c :: _ => negb (is_continuation c) end.

(** The pairs from an offset that is a boundary. *)
Fixpoint hex_pairs (value : bytes) : option (result bytes ProtoError) :=
  match value with
  | a :: b :: rest =>
      if on_boundary rest then
        match radix16_pair a b with
        | None => Some (Err (Hex "invalid digit found in string"))
        | Some x =>
            match hex_pairs rest with
            | Some (Ok xs) => Some (Ok (x :: xs))
            | r => r
            end
        end
      else None
  | _ => Some (Ok [])
  end.

Definition hex_decode (value : bytes) : option (result bytes ProtoError) :=
  if Nat.odd (length value) then Some (Err InvalidNodeId) else hex_pairs value.

(** [value.strip_prefix(p).unwrap_or(value)] *)
Definition strip_prefix_or (p value : bytes) : bytes :=
  if bool_decide (take (length p) value = p) then drop (length p) value else value.

Definition NodeId_from_str (value : bytes) : option (result bytes ProtoError) :=
  match hex_decode (strip_prefix_or (str "vela:") value) with
  | Some (Ok b) => if (length b =? NODE_ID_LEN)%nat then Some (Ok b) else Some (Err InvalidNodeId)
  | r => r
  end.

(** ** Round trip *)

Lemma digit_value_hex d : 0 <= d < 16 -> digit_value (hex_digit d) = Some d.
Proof.
  intros Hd. unfold hex_digit.
  assert (d = 0 \/ d = 1 \/ d = 2 \/ d = 3 \/ d = 4 \/ d = 5 \/ d = 6 \/ d = 7 \/ d = 8
    \/ d = 9 \/ d = 10 \/ d = 11 \/ d = 12 \/ d = 13 \/ d = 14 \/ d = 15) as Hc by lia.
  repeat destruct Hc as [->|Hc]; try reflexivity. by subst.
Qed.

Lemma hex_digit_ascii d : 0 <= d < 16 -> 48 <= hex_digit d < 128.
Proof. intros. unfold hex_digit. case_match; lia. Qed.

Lemma radix16_pair_hex b : is_byte b -> radix16_pair (hex_digit (b / 16)) (hex_digit (b mod 16)) = Some b.
Proof.
  intros Hb. unfold is_byte in Hb. unfold radix16_pair.
  assert (0 <= b / 16 < 16) by (Z.div_mod_to_equations; lia).
  assert (0 <= b mod 16 < 16) by (Z.div_mod_to_equations; lia).
  pose proof (hex_digit_ascii (b / 16)). destruct (Z.eqb_spec (hex_digit (b / 16)) 43); [lia|].
  rewrite !digit_value_hex by done. f_equal. pose proof (Z.div_mod b 16). lia.
Qed.

Lemma on_boundary_hex l : bytes_ok l -> on_boundary (hex_encode l) = true.
Proof.
  intros [|b l' Hb _]; [done|]. cbn. unfold is_continuation.
  pose proof (hex_digit_ascii (b / 16)) as H. unfold is_byte in Hb.
  specialize (H ltac:(Z.div_mod_to_equations; lia)).
  by destruct (Z.leb_spec 128 (hex_digit (b / 16))); [lia|].
Qed.

Lemma hex_pairs_encode l : bytes_ok l -> hex_pairs (hex_encode l) = Some (Ok l).
Proof.
  induction 1 as [|b l Hb Hl IH]; [done|]. cbn [hex_encode map concat hex_byte app hex_pairs].
  fold (hex_encode l). by rewrite on_boundary_hex, radix16_pair_hex, IH.
Qed.

Lemma length_hex_encode l : length (hex_encode l) = (2 * length l)%nat.
Proof. induction l as [|b l IH]; cbn in *; [done|]. unfold hex_encode in IH. lia. Qed.

Lemma hex_decode_encode l : bytes_ok l -> hex_decode (hex_encode l) = Some (Ok l).
Proof.
  intros Hl. unfold hex_decode. rewrite length_hex_encode.
  replace (Nat.odd (2 * length l)) with false; [by apply hex_pairs_encode|].
  symmetry. by rewrite Nat.odd_mul.
Qed.

Lemma strip_prefix_or_app p v : strip_prefix_or p (p ++ v) = v.
Proof.
  unfold strip_prefix_or. rewrite take_app_length, bool_decide_eq_true_2 by done.
  by rewrite drop_app_length.
Qed.

(** the text form of a node id parses back to it. *)
Theorem node_id_roundtrip id :
  NodeId_wf id -> NodeId_from_str (NodeId_display id) = Some (Ok id).
Proof.
  intros [Hl Hb]. unfold NodeId_from_str, NodeId_display.
  rewrite strip_prefix_or_app, hex_decode_encode by done. by rewrite Hl.
Qed.

Definition sample_id : bytes := replicate 32 0xa5.

Lemma node_id_roundtrip_witness :
  NodeId_from_str (NodeId_display sample_id) = Some (Ok sample_id).
Proof. apply (node_id_roundtrip sample_id). by_decide. Defined.

(** An id has further text forms: a plus sign is accepted in place of the high
    digit of a byte below 16, as are capitals and a missing prefix. *)
Lemma node_id_not_canonical :
  NodeId_from_str (concat (replicate 32 (str "+f"))) = Some (Ok (replicate 32 15))
  /\ NodeId_from_str (concat (replicate 32 (str "0F"))) = Some (Ok (replicate 32 15)).
Proof. split; vm_compute; reflexivity. Qed.

(** Parsing panics on an even-length string whose pairs cut a character: here
    "a", "é" (two bytes) and "b". *)
Lemma node_id_parse_panics : NodeId_from_str [97; 195; 169; 98] = None.
Proof. vm_compute. reflexivity. Qed.

(** On ASCII input the parser never panics. *)
Lemma hex_pairs_ascii v : Forall (fun c => c < 128) v -> hex_pairs v <> None.
Proof.
  revert v; fix IH 1; intros [|a [|b rest]] H; cbn; try done.
  apply Forall_cons in H as [_ H]. apply Forall_cons in H as [_ H].
  assert (on_boundary rest = true) as ->.
  { destruct rest as [|c rest']; [done|]. apply Forall_cons in H as [Hc _]. cbn.
    unfold is_continuation. by destruct (Z.leb_spec 128 c); [lia|]. }
  destruct (radix16_pair a b); [|done]. specialize (IH rest H).
  by destruct (hex_pairs rest) as [[]|].
Qed.
