(* ===== verification/Snapshot.v ===== *)
(** * Peers and signed network snapshots

    The control-plane data of [vela-proto/src/lib.rs]: [PeerInfo],
    [PublicPeerInfo], [NetworkSnapshot], the validation a client runs on a
    snapshot and the byte string the coordinator signs.  BLAKE3 and base64 come
    from external crates, so the functions that use them take them as arguments. *)
From S2P Require Import Prelude Net Encoding Wire NodeId.

Inductive PeerCapability : Type := CapDiagnosticPing.

#[export] Instance PeerCapability_eq_dec : EqDecision PeerCapability.
Proof. solve_decision. Defined.

(** [capability as u8] *)
Definition capability_code (c : PeerCapability) : Z := match c with CapDiagnosticPing => 0 end.

Record PublicPeerInfo : Type := mkPublicPeer {
  pub_node_id : bytes;
  pub_incarnation : Z;
  pub_signing_public : bytes;
  pub_noise_public : bytes;
  pub_candidates : list Candidate;
  pub_virtual_ipv4 : option Z;
  pub_virtual_ipv6 : option Z;
  pub_credential : bytes;
  pub_capabilities : list PeerCapability
}.

Record PeerSummary : Type := mkSummary {
  sum_node_id : bytes;
  sum_name : bytes;
  sum_online : bool;
  sum_last_seen : option Z;
  sum_virtual_ipv4 : option Z;
  sum_virtual_ipv6 : option Z;
  sum_capabilities : list PeerCapability
}.

Record PeerInfo : Type := mkPeer {
  node_id : bytes;
  incarnation : Z;
  signing_public : bytes;
  noise_public : bytes;
  candidates : list Candidate;
  virtual_ipv4 : option Z;
  virtual_ipv6 : option Z;
  credential : bytes;
  capabilities : list PeerCapability
}.

#[export] Instance PeerInfo_eq_dec : EqDecision PeerInfo.
Proof. solve_decision. Defined.

(** [TryFrom<PublicPeerInfo> for PeerInfo], for a base64 decoder. *)
Definition PeerInfo_try_from (b64_decode : bytes -> option bytes) (value : PublicPeerInfo)
    : result PeerInfo ProtoError :=
  let? sp := ok_or (b64_decode (pub_signing_public value)) InvalidEncoding in
  let? np := ok_or (b64_decode (pub_noise_public value)) InvalidEncoding in
  let? cred := ok_or (b64_decode (pub_credential value)) InvalidEncoding in
  let? sp := (if (length sp =? 32)%nat then Ok sp else Err InvalidEncoding) in
  let? np := (if (length np =? 32)%nat then Ok np else Err InvalidEncoding) in
  Ok {| node_id := pub_node_id value;
        incarnation := pub_incarnation value;
        signing_public := sp;
        noise_public := np;
        candidates := pub_candidates value;
        virtual_ipv4 := pub_virtual_ipv4 value;
        virtual_ipv6 := pub_virtual_ipv6 value;
        credential := cred;
        capabilities := pub_capabilities value |}.

Record Ipv4Cidr : Type := mkCidr4 { cidr4_address : Z; cidr4_prefix : Z }.
Record Ipv6Cidr : Type := mkCidr6 { cidr6_address : Z; cidr6_prefix : Z }.

Record NetworkSnapshot : Type := mkSnapshot {
  network_id : bytes;
  generation : Z;
  snap_ipv4 : option Ipv4Cidr;
  snap_ipv6 : option Ipv6Cidr;
  doh_servers : list bytes;
  stun_servers : list bytes;
  peers : list PeerInfo;
  online_peers : list bytes;
  expires_at : Z;
  signature : bytes
}.

(** ** Networks *)

Definition net_mask (bits prefix_len : Z) : Z :=
  if prefix_len =? 0 then 0 else wrap bits (Z.shiftl (2 ^ bits - 1) (bits - prefix_len)).

Definition ipv4_in_network (network address prefix_len : Z) : bool :=
  let mask := net_mask 32 prefix_len in
  (Z.land network mask =? Z.land address mask) && (Z.land network mask =? network).

Definition ipv6_in_network (network address prefix_len : Z) : bool :=
  let network := be_value (ipv6_octets network) in
  let address := be_value (ipv6_octets address) in
  let mask := net_mask 128 prefix_len in
  (Z.land network mask =? Z.land address mask) && (Z.land network mask =? network).

(** ** Validation *)

Definition is_some_and {A} (o : option A) (f : A -> bool) : bool :=
  match o with Some a => f a | None => false end.

Definition validate_cidr4 (o : option Ipv4Cidr) : result unit ProtoError :=
  match o with
  | None => Ok tt
  | Some c =>
      if 32 <? cidr4_prefix c then Err (InvalidSnapshot "invalid IPv4 prefix length")
      else if negb (ipv4_in_network (cidr4_address c) (cidr4_address c) (cidr4_prefix c))
      then Err (InvalidSnapshot "IPv4 network address is not canonical")
      else Ok tt
  end.

Definition validate_cidr6 (o : option Ipv6Cidr) : result unit ProtoError :=
  match o with
  | None => Ok tt
  | Some c =>
      if 128 <? cidr6_prefix c then Err (InvalidSnapshot "invalid IPv6 prefix length")
      else if negb (ipv6_in_network (cidr6_address c) (cidr6_address c) (cidr6_prefix c))
      then Err (InvalidSnapshot "IPv6 network address is not canonical")
      else Ok tt
  end.

(** The check of one address against the network and the addresses seen, with
    the set after it. *)
Definition validate_address (in_network : Z -> bool) (why : string)
    (o : option Z) (seen : gset Z) : result (gset Z) ProtoError :=
  match o with
  | None => Ok seen
  | Some a =>
      if bool_decide (a ∈ seen) || negb (in_network a) then Err (InvalidSnapshot why)
      else Ok ({[a]} ∪ seen)
  end.

Section Validate.
Context (blake3 : bytes -> bytes).

Definition in_v4 (s : NetworkSnapshot) (a : Z) : bool :=
  is_some_and (snap_ipv4 s) (fun c => ipv4_in_network (cidr4_address c) a (cidr4_prefix c)).

Definition in_v6 (s : NetworkSnapshot) (a : Z) : bool :=
  is_some_and (snap_ipv6 s) (fun c => ipv6_in_network (cidr6_address c) a (cidr6_prefix c)).

(** The loop over the peers. *)
Fixpoint validate_peers (s : NetworkSnapshot) (l : list PeerInfo)
    (node_ids : gset bytes) (ipv4 ipv6 : gset Z) : result unit ProtoError :=
  match l with
  | [] => Ok tt
  | p :: rest =>
      if bool_decide (node_id p ∈ node_ids)
         || negb (bool_decide (node_id p = blake3 (signing_public p)))
      then Err (InvalidSnapshot "invalid or duplicate peer identity")
      else
        let? ipv4 := validate_address (in_v4 s) "invalid or duplicate virtual IPv4"
                       (virtual_ipv4 p) ipv4 in
        let? ipv6 := validate_address (in_v6 s) "invalid or duplicate virtual IPv6"
                       (virtual_ipv6 p) ipv6 in
        validate_peers s rest ({[node_id p]} ∪ node_ids) ipv4 ipv6
  end.

(** The loop over the online peers. *)
Fixpoint validate_online (peer_ids : gset bytes) (l : list bytes) (seen : gset bytes)
    : result unit ProtoError :=
  match l with
  | [] => Ok tt
  | id :: rest =>
      if negb (bool_decide (id ∈ peer_ids)) || bool_decide (id ∈ seen)
      then Err (InvalidSnapshot "invalid or duplicate online peer")
      else validate_online peer_ids rest ({[id]} ∪ seen)
  end.

Definition validate (s : NetworkSnapshot) : result unit ProtoError :=
  if generation s =? 0 then Err (InvalidSnapshot "generation must be non-zero")
  else
    let? _ := validate_cidr4 (snap_ipv4 s) in
    let? _ := validate_cidr6 (snap_ipv6 s) in
    let? _ := validate_peers s (peers s) ∅ ∅ ∅ in
    validate_online (list_to_set (map node_id (peers s))) (online_peers s) ∅.
End Validate.

(** ** What validation means *)

(** The prefix mask keeps the high bits. *)
Lemma land_net_mask bits p x :
  0 <= p <= bits -> is_u bits x ->
  Z.land x (net_mask bits p) = x / 2 ^ (bits - p) * 2 ^ (bits - p).
Proof.
  intros Hp Hx. rewrite <- Z.shiftl_mul_pow2, <- Z.shiftr_div_pow2 by lia.
  apply Z.bits_inj'. intros j Hj. rewrite Z.land_spec, Z.shiftl_spec by lia.
  destruct (Z.lt_ge_cases j (bits - p)) as [Hlow|Hhigh].
  - rewrite (Z.testbit_neg_r _ (j - (bits - p))) by lia. unfold net_mask.
    destruct (Z.eqb_spec p 0); [by rewrite Z.bits_0, andb_false_r|].
    rewrite testbit_wrap_shiftl by lia.
    destruct (Z.leb_spec (bits - p) j); [lia|]. by rewrite andb_false_r.
  - rewrite Z.shiftr_spec by lia. replace (j - (bits - p) + (bits - p)) with j by lia.
    destruct (Z.lt_ge_cases j bits) as [Hin|Hout].
    + unfold net_mask. destruct (Z.eqb_spec p 0); [lia|].
      rewrite testbit_wrap_shiftl by lia.
      destruct (Z.leb_spec (bits - p) j); [|lia].
      replace (2 ^ bits - 1) with (Z.ones bits) by (rewrite Z.ones_equiv; lia).
      rewrite Z.ones_spec_low by lia. by rewrite andb_true_r.
    + by rewrite (testbit_high bits x) by (done || lia).
Qed.

(** [address] is in the network [n/p], and [n] is its canonical address. *)
Definition in_network (bits n p address : Z) : Prop :=
  n mod 2 ^ (bits - p) = 0 /\ address / 2 ^ (bits - p) = n / 2 ^ (bits - p).

Lemma in_network_mask bits n p a :
  0 <= p <= bits -> is_u bits n -> is_u bits a ->
  (Z.land n (net_mask bits p) =? Z.land a (net_mask bits p))
    && (Z.land n (net_mask bits p) =? n) = true <-> in_network bits n p a.
Proof.
  intros Hp Hn Ha. rewrite !land_net_mask by done.
  rewrite andb_true_iff, !Z.eqb_eq. unfold in_network.
  pose proof (Z.div_mod n (2 ^ (bits - p))) as En.
  assert (0 < 2 ^ (bits - p)) by (apply Z.pow_pos_nonneg; lia).
  split; intros [H1 H2]; split; try nia.
Qed.

Lemma ipv4_in_network_iff n a p :
  0 <= p <= 32 -> is_u 32 n -> is_u 32 a ->
  ipv4_in_network n a p = true <-> in_network 32 n p a.
Proof. intros. by apply in_network_mask. Qed.

Lemma ipv6_in_network_iff n a p :
  0 <= p <= 128 -> is_u 128 n -> is_u 128 a ->
  ipv6_in_network n a p = true <-> in_network 128 n p a.
Proof.
  intros Hp Hn Ha. unfold ipv6_in_network, ipv6_octets.
  rewrite !(be_value_be_bytes_u 16 128) by done. by apply in_network_mask.
Qed.

(** The ranges the types of the source guarantee. *)
Definition snapshot_typed (s : NetworkSnapshot) : Prop :=
  (forall c, snap_ipv4 s = Some c -> is_u 32 (cidr4_address c) /\ 0 <= cidr4_prefix c)
  /\ (forall c, snap_ipv6 s = Some c -> is_u 128 (cidr6_address c) /\ 0 <= cidr6_prefix c)
  /\ Forall (fun p => (forall a, virtual_ipv4 p = Some a -> is_u 32 a)
                      /\ (forall a, virtual_ipv6 p = Some a -> is_u 128 a)) (peers s).

Definition addr4_ok (s : NetworkSnapshot) (a : Z) : Prop :=
  exists c, snap_ipv4 s = Some c
            /\ in_network 32 (cidr4_address c) (cidr4_prefix c) a.

Definition addr6_ok (s : NetworkSnapshot) (a : Z) : Prop :=
  exists c, snap_ipv6 s = Some c
            /\ in_network 128 (cidr6_address c) (cidr6_prefix c) a.

(** What a valid snapshot is: canonical networks, peers named by the hash of
    their signing key, no two peers with one id or one address, every address in
    its network, and the online list a subset of the peers without repeats. *)
Definition snapshot_valid (blake3 : bytes -> bytes) (s : NetworkSnapshot) : Prop :=
  generation s <> 0
  /\ (forall c, snap_ipv4 s = Some c ->
        cidr4_prefix c <= 32 /\ addr4_ok s (cidr4_address c))
  /\ (forall c, snap_ipv6 s = Some c ->
        cidr6_prefix c <= 128 /\ addr6_ok s (cidr6_address c))
  /\ NoDup (map node_id (peers s))
  /\ Forall (fun p => node_id p = blake3 (signing_public p)) (peers s)
  /\ NoDup (omap virtual_ipv4 (peers s))
  /\ Forall (addr4_ok s) (omap virtual_ipv4 (peers s))
  /\ NoDup (omap virtual_ipv6 (peers s))
  /\ Forall (addr6_ok s) (omap virtual_ipv6 (peers s))
  /\ NoDup (online_peers s)
  /\ Forall (fun id => id ∈ map node_id (peers s)) (online_peers s).

Lemma in_v4_iff s a :
  snapshot_typed s -> (forall c, snap_ipv4 s = Some c -> cidr4_prefix c <= 32) ->
  is_u 32 a -> in_v4 s a = true <-> addr4_ok s a.
Proof.
  intros (Ht & _ & _) Hp Ha. unfold in_v4, is_some_and, addr4_ok.
  destruct (snap_ipv4 s) as [c|]; [|naive_solver].
  destruct (Ht c eq_refl). specialize (Hp c eq_refl).
  rewrite ipv4_in_network_iff by (done || lia). naive_solver.
Qed.

Lemma in_v6_iff s a :
  snapshot_typed s -> (forall c, snap_ipv6 s = Some c -> cidr6_prefix c <= 128) ->
  is_u 128 a -> in_v6 s a = true <-> addr6_ok s a.
Proof.
  intros (_ & Ht & _) Hp Ha. unfold in_v6, is_some_and, addr6_ok.
  destruct (snap_ipv6 s) as [c|]; [|naive_solver].
  destruct (Ht c eq_refl). specialize (Hp c eq_refl).
  rewrite ipv6_in_network_iff by (done || lia). naive_solver.
Qed.

Lemma validate_cidr4_iff s :
  snapshot_typed s ->
  validate_cidr4 (snap_ipv4 s) = Ok tt <->
  (forall c, snap_ipv4 s = Some c -> cidr4_prefix c <= 32 /\ addr4_ok s (cidr4_address c)).
Proof.
  intros (Ht & _ & _). unfold validate_cidr4, addr4_ok.
  destruct (snap_ipv4 s) as [c|]; [|naive_solver].
  destruct (Ht c eq_refl) as [Hu Hp].
  destruct (Z.ltb_spec 32 (cidr4_prefix c)).
  { split; [done|]. intros H0. destruct (H0 c eq_refl). lia. }
  destruct (ipv4_in_network _ _ _) eqn:E; cbn [negb].
  - apply ipv4_in_network_iff in E; [|done || lia..]. naive_solver.
  - split; [done|]. intros H0. destruct (H0 c eq_refl) as [_ (c' & [= <-] & Hin)].
    apply ipv4_in_network_iff in Hin; [congruence | done || lia..].
Qed.

Lemma validate_cidr6_iff s :
  snapshot_typed s ->
  validate_cidr6 (snap_ipv6 s) = Ok tt <->
  (forall c, snap_ipv6 s = Some c -> cidr6_prefix c <= 128 /\ addr6_ok s (cidr6_address c)).
Proof.
  intros (_ & Ht & _). unfold validate_cidr6, addr6_ok.
  destruct (snap_ipv6 s) as [c|]; [|naive_solver].
  destruct (Ht c eq_refl) as [Hu Hp].
  destruct (Z.ltb_spec 128 (cidr6_prefix c)).
  { split; [done|]. intros H0. destruct (H0 c eq_refl). lia. }
  destruct (ipv6_in_network _ _ _) eqn:E; cbn [negb].
  - apply ipv6_in_network_iff in E; [|done || lia..]. naive_solver.
  - split; [done|]. intros H0. destruct (H0 c eq_refl) as [_ (c' & [= <-] & Hin)].
    apply ipv6_in_network_iff in Hin; [congruence | done || lia..].
Qed.

(** One address: it must be new and in the network. *)
Lemma validate_address_iff inn why o seen seen' :
  validate_address inn why o seen = Ok seen' <->
  Forall (fun a => a ∉ seen /\ inn a = true) (option_list o)
  /\ seen' = list_to_set (option_list o) ∪ seen.
Proof.
  unfold validate_address. destruct o as [a|]; cbn.
  - destruct (bool_decide (a ∈ seen)) eqn:E; unbool; cbn [orb].
    { split; [done|]. intros [H _]. apply Forall_cons in H. tauto. }
    destruct (inn a) eqn:E'; cbn [negb].
    + split; [intros [= <-]; split; [by repeat constructor | set_solver]|].
      intros [_ ->]. f_equal. set_solver.
    + split; [done|]. intros [H _]. apply Forall_cons in H as [[_ ?] _]. congruence.
  - split; [intros [= <-]; split; [constructor | set_solver]|]. intros [_ ->].
    f_equal. set_solver.
Qed.

(** A list all new with respect to a set and without repeats: what a loop that
    inserts into a hash set and stops at the first repeat checks. *)
Definition fresh {A} `{Countable A} (seen : gset A) (l : list A) : Prop :=
  NoDup l /\ Forall (fun x => x ∉ seen) l.

Lemma fresh_cons {A} `{Countable A} (seen : gset A) x l :
  fresh seen (x :: l) <-> x ∉ seen /\ fresh ({[x]} ∪ seen) l.
Proof.
  unfold fresh. rewrite NoDup_cons, Forall_cons, !Forall_forall. split.
  - intros [[Hx Hl] [Hs Hf]]. split_and!; [done..|].
    intros y Hy. specialize (Hf y Hy). set_unfold. intros [->|?]; done.
  - intros [Hs [Hl Hf]]. split_and!; [|done..|].
    + intros Hin. specialize (Hf x Hin). set_solver.
    + intros y Hy. specialize (Hf y Hy). set_solver.
Qed.

Lemma fresh_empty {A} `{Countable A} (l : list A) : fresh (∅ : gset A) l <-> NoDup l.
Proof. unfold fresh. split; [tauto|]. intros H1. split; [done|]. apply Forall_true. set_solver. Qed.

Lemma fresh_option {A} `{Countable A} (seen : gset A) (o : option A) l :
  fresh seen (option_list o ++ l) <->
  Forall (fun a => a ∉ seen) (option_list o)
  /\ fresh (list_to_set (option_list o) ∪ seen) l.
Proof.
  destruct o as [a|]; cbn.
  - rewrite fresh_cons, Forall_singleton. by rewrite (right_id_L ∅ (∪)).
  - rewrite (left_id_L ∅ (∪)). split; [|tauto]. intros Hf. split; [constructor|done].
Qed.

Lemma omap_option_list {A B} (f : A -> option B) x l :
  omap f (x :: l) = option_list (f x) ++ omap f l.
Proof. cbn. by destruct (f x). Qed.

Lemma Forall_and_iff {A} (P Q : A -> Prop) l :
  Forall (fun x => P x /\ Q x) l <-> Forall P l /\ Forall Q l.
Proof. apply Forall_and. Qed.

Lemma validate_online_iff peer_ids l seen :
  validate_online peer_ids l seen = Ok tt <->
  fresh seen l /\ Forall (fun id => id ∈ peer_ids) l.
Proof.
  revert seen; induction l as [|id l IH]; intros seen; cbn.
  { split; [|done]. intros _. repeat constructor. }
  rewrite fresh_cons, Forall_cons.
  destruct (bool_decide (id ∈ peer_ids)) eqn:E1, (bool_decide (id ∈ seen)) eqn:E2;
    cbn [negb orb]; unbool; rewrite ?IH; naive_solver.
Qed.

Section ValidateSpec.
Context (blake3 : bytes -> bytes).

Lemma validate_peers_iff s l ids v4 v6 :
  validate_peers blake3 s l ids v4 v6 = Ok tt <->
  fresh ids (map node_id l)
  /\ Forall (fun p => node_id p = blake3 (signing_public p)) l
  /\ fresh v4 (omap virtual_ipv4 l) /\ Forall (fun a => in_v4 s a = true) (omap virtual_ipv4 l)
  /\ fresh v6 (omap virtual_ipv6 l) /\ Forall (fun a => in_v6 s a = true) (omap virtual_ipv6 l).
Proof.
  revert ids v4 v6; induction l as [|p l IH]; intros ids v4 v6.
  { cbn. split; [|done]. intros _. repeat split; constructor. }
  cbn [validate_peers map]. rewrite fresh_cons, Forall_cons.
  rewrite !omap_option_list, !Forall_app, !fresh_option.
  destruct (bool_decide (node_id p ∈ ids)) eqn:E1; cbn [orb]; unbool; [naive_solver|].
  destruct (bool_decide (node_id p = _)) eqn:E2; cbn [negb]; unbool; [|naive_solver].
  rewrite rbind_Ok. setoid_rewrite rbind_Ok. setoid_rewrite validate_address_iff.
  setoid_rewrite IH. setoid_rewrite Forall_and_iff. naive_solver.
Qed.

Lemma addr4_forall s l :
  snapshot_typed s -> (forall c, snap_ipv4 s = Some c -> cidr4_prefix c <= 32) ->
  Forall (is_u 32) l -> Forall (fun a => in_v4 s a = true) l <-> Forall (addr4_ok s) l.
Proof.
  intros Ht Hp Hl. induction Hl as [|a l Ha Hl IH]; [by split|].
  by rewrite !Forall_cons, IH, in_v4_iff.
Qed.

Lemma addr6_forall s l :
  snapshot_typed s -> (forall c, snap_ipv6 s = Some c -> cidr6_prefix c <= 128) ->
  Forall (is_u 128) l -> Forall (fun a => in_v6 s a = true) l <-> Forall (addr6_ok s) l.
Proof.
  intros Ht Hp Hl. induction Hl as [|a l Ha Hl IH]; [by split|].
  by rewrite !Forall_cons, IH, in_v6_iff.
Qed.

Lemma typed_addresses s :
  snapshot_typed s ->
  Forall (is_u 32) (omap virtual_ipv4 (peers s)) /\ Forall (is_u 128) (omap virtual_ipv6 (peers s)).
Proof.
  intros (_ & _ & Hp). split; apply Forall_forall; intros a Ha;
    apply list_elem_of_omap in Ha as (p & Hin & Hv);
    rewrite Forall_forall in Hp; destruct (Hp p Hin); eauto.
Qed.

Lemma validate_iff_aux s :
  snapshot_typed s -> validate blake3 s = Ok tt <-> snapshot_valid blake3 s.
Proof.
  intros Ht. unfold validate, snapshot_valid.
  destruct (typed_addresses s Ht) as [Hu4 Hu6].
  destruct (Z.eqb_spec (generation s) 0) as [Hg|Hg]; [naive_solver|].
  rewrite !rbind_unit, validate_cidr4_iff, validate_cidr6_iff, validate_peers_iff,
    validate_online_iff, !fresh_empty by done.
  assert (Hon : Forall (fun id => id ∈ (list_to_set (map node_id (peers s)) : gset bytes)) (online_peers s)
            <-> Forall (fun id => id ∈ map node_id (peers s)) (online_peers s)).
  { rewrite !Forall_forall. by setoid_rewrite elem_of_list_to_set. }
  rewrite Hon. split.
  - intros (H4 & H6 & (? & ? & ? & I4 & ? & I6) & ? & ?).
    apply addr4_forall in I4; [|naive_solver..]. apply addr6_forall in I6; [|naive_solver..].
    tauto.
  - intros (_ & H4 & H6 & ? & ? & ? & I4 & ? & I6 & ? & ?).
    apply addr4_forall in I4; [|naive_solver..]. apply addr6_forall in I6; [|naive_solver..].
    tauto.
Qed.

(** Validation gives distinct ids and addresses. *)
Lemma validate_distinct s :
  validate blake3 s = Ok tt ->
  NoDup (map node_id (peers s)) /\ NoDup (omap virtual_ipv4 (peers s))
  /\ NoDup (omap virtual_ipv6 (peers s)).
Proof.
  unfold validate. destruct (generation s =? 0); [done|].
  rewrite !rbind_unit, validate_peers_iff, !fresh_empty. tauto.
Qed.

(** a snapshot passes the client's validation exactly when it is valid:
    canonical networks, peers named by the hash of their key, distinct ids and
    addresses, addresses inside the networks, online peers among the peers. *)
Theorem validate_iff s :
  snapshot_typed s -> validate blake3 s = Ok tt <-> snapshot_valid blake3 s.
Proof. apply validate_iff_aux. Qed.
End ValidateSpec.

(** A toy hash and a snapshot it makes valid, for the witnesses. *)
Definition toy_hash (m : bytes) : bytes := take 32 (m ++ replicate 32 0).

Definition sample_peer (k ip : Z) : PeerInfo :=
  mkPeer (toy_hash [k]) 1 [k] (replicate 32 k) [Host (SockV4 ip 4000)] (Some ip) None [1; 2] [CapDiagnosticPing].

Definition sample_snapshot : NetworkSnapshot :=
  mkSnapshot (replicate 16 9) 3 (Some (mkCidr4 (0x0afe0000) 16)) None
    [str "https://dns.example/dns-query"] [str "stun.example:3478"]
    [sample_peer 1 0x0afe0001; sample_peer 2 0x0afe0002] [toy_hash [2]] 1000 [].

Lemma sample_snapshot_typed : snapshot_typed sample_snapshot.
Proof.
  split_and!.
  - intros c [= <-]. split; by_decide.
  - done.
  - cbn. rewrite !Forall_cons. split_and!; [| | | |done]; intros a [= <-]; by_decide.
Qed.

Lemma validate_iff_witness : snapshot_valid toy_hash sample_snapshot.
Proof.
  apply (validate_iff toy_hash sample_snapshot); [apply sample_snapshot_typed|].
  vm_compute; reflexivity.
Defined.
