(* ===== verification/SignedBytes.v ===== *)
(** * The bytes a snapshot's signature covers

    [NetworkSnapshot::unsigned_bytes] of [vela-proto/src/lib.rs] with its field
    encoders.  The main theorem says what the signature binds: up to the order of
    the peers, everything but the IPv6 flow label and scope of candidate
    addresses, provided both server lists are present or both are known to be
    absent; the last lemma shows the confusion the proviso excludes. *)
From S2P Require Import Prelude Net Encoding Wire NodeId Snapshot.

Definition encode_ipv4_cidr (o : option Ipv4Cidr) : bytes :=
  match o with
  | Some c => 1 :: (ipv4_octets (cidr4_address c) ++ [cidr4_prefix c])
  | None => [0]
  end.

Definition encode_ipv6_cidr (o : option Ipv6Cidr) : bytes :=
  match o with
  | Some c => 1 :: (ipv6_octets (cidr6_address c) ++ [cidr6_prefix c])
  | None => [0]
  end.

Definition encode_string (value : bytes) : bytes :=
  be_bytes 4 (wrap 32 (len value)) ++ value.

Definition encode_socket_address (a : SocketAddr) : bytes :=
  match sock_ip a with
  | V4 ip => 4 :: ipv4_octets ip
  | V6 ip => 6 :: ipv6_octets ip
  end ++ be_bytes 2 (sock_port a).

Definition encode_candidate (c : Candidate) : bytes :=
  match c with
  | Host a => 0 :: encode_socket_address a
  | ServerReflexive a => 1 :: encode_socket_address a
  | PeerReflexive a => 2 :: encode_socket_address a
  end.

Definition encode_opt_address (octets : Z -> bytes) (o : option Z) : bytes :=
  match o with Some a => 1 :: octets a | None => [0] end.

(** The body of the loop over the sorted peers. *)
Definition encode_peer (p : PeerInfo) : bytes :=
  node_id p ++ be_bytes 8 (incarnation p) ++ signing_public p ++ noise_public p
  ++ encode_opt_address ipv4_octets (virtual_ipv4 p)
  ++ encode_opt_address ipv6_octets (virtual_ipv6 p)
  ++ enc_list encode_candidate (candidates p)
  ++ encode_string (credential p)
  ++ enc_list (fun c => [capability_code c]) (capabilities p).

(** A server list is written only when it has entries. *)
Definition encode_servers (l : list bytes) : bytes :=
  match l with [] => [] | _ => enc_list encode_string l end.

Definition unsigned_bytes (s : NetworkSnapshot) : bytes :=
  str "VELA-NETWORK-SNAPSHOT-v4"
  ++ network_id s
  ++ be_bytes 8 (generation s)
  ++ encode_ipv4_cidr (snap_ipv4 s)
  ++ encode_ipv6_cidr (snap_ipv6 s)
  ++ encode_servers (doh_servers s)
  ++ encode_servers (stun_servers s)
  ++ enc_list encode_peer (sort_by_key node_id (peers s))
  ++ enc_list (fun id => id) (sort_by_key (fun id => id) (online_peers s))
  ++ be_bytes 8 (expires_at s).

(** ** Ranges of the encoded values *)

Definition sock_typed (a : SocketAddr) : Prop :=
  match a with
  | SockV4 i p => is_u 32 i /\ is_u 16 p
  | SockV6 i p f c => is_u 128 i /\ is_u 16 p /\ f = 0 /\ c = 0
  end.

Definition candidate_typed (c : Candidate) : Prop := sock_typed (Candidate_address c).

Definition short (l : bytes) : Prop := len l < 2 ^ 32.

Definition opt_typed (bits : Z) (o : option Z) : Prop := forall a, o = Some a -> is_u bits a.

(** The candidate addresses have no IPv6 flow label or scope, which the encoding
    leaves out. *)
Definition peer_typed (p : PeerInfo) : Prop :=
  length (node_id p) = 32%nat /\ is_u 64 (incarnation p)
  /\ length (signing_public p) = 32%nat /\ length (noise_public p) = 32%nat
  /\ opt_typed 32 (virtual_ipv4 p) /\ opt_typed 128 (virtual_ipv6 p)
  /\ short_list candidate_typed (candidates p) /\ short (credential p)
  /\ short_list (fun _ => True) (capabilities p).

Definition cidr4_typed (o : option Ipv4Cidr) : Prop :=
  forall c, o = Some c -> is_u 32 (cidr4_address c).
Definition cidr6_typed (o : option Ipv6Cidr) : Prop :=
  forall c, o = Some c -> is_u 128 (cidr6_address c).

Definition bytes_typed (s : NetworkSnapshot) : Prop :=
  length (network_id s) = 16%nat /\ is_u 64 (generation s)
  /\ cidr4_typed (snap_ipv4 s) /\ cidr6_typed (snap_ipv6 s)
  /\ short_list short (doh_servers s) /\ short_list short (stun_servers s)
  /\ short_list peer_typed (peers s)
  /\ short_list (fun id => length id = 32%nat) (online_peers s)
  /\ is_u 64 (expires_at s).

(** ** Every field encoder is self-delimiting *)

Lemma self_delim_string : self_delim short encode_string.
Proof.
  intros a b r1 r2 Ha Hb E. unfold encode_string, short, len in *. rewrite <- !app_assoc in E.
  apply app_inj_len in E as [El E]; [|by rewrite !length_be_bytes].
  rewrite !wrap_small in El by (unfold is_u; lia).
  apply be_bytes_inj in El; [|change (256 ^ Z.of_nat 4) with (2 ^ 32); lia..].
  apply app_inj_len in E; [done|lia].
Qed.

Lemma self_delim_ipv4 : self_delim (is_u 32) ipv4_octets.
Proof. by apply self_delim_be. Qed.

Lemma self_delim_ipv6 : self_delim (is_u 128) ipv6_octets.
Proof. by apply self_delim_be. Qed.

Lemma self_delim_opt_address bits octets :
  self_delim (is_u bits) octets -> self_delim (opt_typed bits) (encode_opt_address octets).
Proof. apply (self_delim_option (A:=Z)). Qed.

Lemma self_delim_cidr4 : self_delim cidr4_typed encode_ipv4_cidr.
Proof.
  intros [[a p]|] [[b q]|] r1 r2 Ha Hb E; try discriminate E; [|by injection E as ->].
  apply (f_equal tail) in E. cbn [encode_ipv4_cidr app tail cidr4_address cidr4_prefix] in E.
  rewrite <- !app_assoc in E. apply self_delim_ipv4 in E as [-> E];
    [|by apply (Ha (mkCidr4 a p)) | by apply (Hb (mkCidr4 b q))].
  by injection E as -> ->.
Qed.

Lemma self_delim_cidr6 : self_delim cidr6_typed encode_ipv6_cidr.
Proof.
  intros [[a p]|] [[b q]|] r1 r2 Ha Hb E; try discriminate E; [|by injection E as ->].
  apply (f_equal tail) in E. cbn [encode_ipv6_cidr app tail cidr6_address cidr6_prefix] in E.
  rewrite <- !app_assoc in E. apply self_delim_ipv6 in E as [-> E];
    [|by apply (Ha (mkCidr6 a p)) | by apply (Hb (mkCidr6 b q))].
  by injection E as -> ->.
Qed.

Lemma self_delim_socket : self_delim sock_typed encode_socket_address.
Proof.
  intros a b r1 r2 Ha Hb E. unfold encode_socket_address in E.
  rewrite <- !app_assoc in E.
  destruct a as [i p|i p f c], b as [j q|j q g d]; try discriminate E;
    apply (f_equal tail) in E; cbn [sock_ip sock_port sock_typed app tail] in *; destruct_and!.
  - apply self_delim_ipv4 in E as [-> E]; [|done..].
    by apply (self_delim_be 2 16) in E as [-> ->].
  - apply self_delim_ipv6 in E as [-> E]; [|done..].
    apply (self_delim_be 2 16) in E as [-> ->]; [|done..]. by subst.
Qed.

Lemma self_delim_candidate : self_delim candidate_typed encode_candidate.
Proof.
  intros [a|a|a] [b|b|b] r1 r2 Ha Hb E; try discriminate E;
    apply (f_equal tail) in E; cbn [encode_candidate app tail] in E;
    apply self_delim_socket in E as [-> ->]; done.
Qed.

Lemma self_delim_capability :
  self_delim (fun _ : PeerCapability => True) (fun c => [capability_code c]).
Proof. intros [] [] r1 r2 _ _ [= ->]. done. Qed.

(** Peel one self-delimiting field off both sides. *)
Ltac peel E lem :=
  let H := fresh "Ep" in
  apply lem in E as [H E]; [|done..].

Lemma self_delim_peer : self_delim peer_typed encode_peer.
Proof.
  intros p q r1 r2 (P1 & P2 & P3 & P4 & P5 & P6 & P7 & P8 & P9)
    (Q1 & Q2 & Q3 & Q4 & Q5 & Q6 & Q7 & Q8 & Q9) E.
  unfold encode_peer in E. rewrite <- !app_assoc in E.
  peel E (self_delim_raw 32). peel E (self_delim_be 8 64 eq_refl).
  peel E (self_delim_raw 32). peel E (self_delim_raw 32).
  peel E (self_delim_opt_address 32 _ self_delim_ipv4).
  peel E (self_delim_opt_address 128 _ self_delim_ipv6).
  peel E (self_delim_list _ _ self_delim_candidate).
  peel E self_delim_string.
  peel E (self_delim_list _ _ self_delim_capability).
  destruct p, q; cbn in *; by subst.
Qed.

Lemma short_list_perm {A} (P : A -> Prop) l1 l2 : l1 ≡ₚ l2 -> short_list P l1 -> short_list P l2.
Proof. intros Hp [Hl Hf]. split; [by rewrite <- Hp | by rewrite <- Hp]. Qed.

Lemma short_list_sort {A} (P : A -> Prop) key l :
  short_list P l -> short_list P (sort_by_key key l).
Proof. apply short_list_perm. by rewrite sort_by_key_perm. Qed.

Lemma servers_delim l1 l2 r1 r2 :
  short_list short l1 -> short_list short l2 -> (l1 = [] <-> l2 = []) ->
  encode_servers l1 ++ r1 = encode_servers l2 ++ r2 -> l1 = l2 /\ r1 = r2.
Proof.
  intros H1 H2 Hne E. destruct l1 as [|x1 l1], l2 as [|x2 l2]; [done|naive_solver..|].
  apply (self_delim_list _ _ self_delim_string); done.
Qed.

Lemma sort_eq_perm {A} (key : A -> bytes) l1 l2 :
  sort_by_key key l1 = sort_by_key key l2 -> l1 ≡ₚ l2.
Proof. intros E. rewrite <- (sort_by_key_perm key l1), E. apply sort_by_key_perm. Qed.


(** the signed bytes do not depend on the order in which the coordinator
    lists the peers and the online peers. *)
Theorem unsigned_bytes_order_independent s t :
  NoDup (map node_id (peers s)) -> NoDup (online_peers s) ->
  peers s ≡ₚ peers t -> online_peers s ≡ₚ online_peers t ->
  network_id s = network_id t -> generation s = generation t ->
  snap_ipv4 s = snap_ipv4 t -> snap_ipv6 s = snap_ipv6 t ->
  doh_servers s = doh_servers t -> stun_servers s = stun_servers t ->
  expires_at s = expires_at t ->
  unsigned_bytes s = unsigned_bytes t.
Proof.
  intros Hp Ho Pp Po E0 E1 E2 E3 E4 E5 E6. unfold unsigned_bytes.
  rewrite (sort_by_key_unique node_id (peers s) (peers t)) by done.
  rewrite (sort_by_key_unique (fun id => id) (online_peers s) (online_peers t))
    by (rewrite ?map_id; done).
  congruence.
Qed.

(** Moving the only server list from DoH to STUN keeps the signed bytes, so a
    signature on one snapshot is a signature on the other. *)
Lemma unsigned_bytes_server_confusion s l :
  let doh := mkSnapshot (network_id s) (generation s) (snap_ipv4 s) (snap_ipv6 s)
               l [] (peers s) (online_peers s) (expires_at s) (signature s) in
  let stun := mkSnapshot (network_id s) (generation s) (snap_ipv4 s) (snap_ipv6 s)
               [] l (peers s) (online_peers s) (expires_at s) (signature s) in
  unsigned_bytes doh = unsigned_bytes stun.
Proof. done. Qed.

Definition typed_peer (k ip : Z) : PeerInfo :=
  mkPeer (replicate 32 k) 1 (replicate 32 k) (replicate 32 k) [Host (SockV4 ip 4000)]
    (Some ip) None [1; 2] [CapDiagnosticPing].

Definition typed_snapshot (ps : list PeerInfo) : NetworkSnapshot :=
  mkSnapshot (replicate 16 9) 3 (Some (mkCidr4 (0x0afe0000) 16)) None
    [str "https://dns.example/dns-query"] [str "stun.example:3478"]
    ps [replicate 32 2] 1000 [].

Definition peer_one : PeerInfo := typed_peer 1 0x0afe0001.
Definition peer_two : PeerInfo := typed_peer 2 0x0afe0002.

Lemma typed_peer_typed k ip :
  is_u 32 ip -> is_u 16 4000 -> peer_typed (typed_peer k ip).
Proof.
  intros Hip Hport. unfold peer_typed; cbn. split_and!; try done.
  - by intros a [= <-].
  - split; [by_decide | by apply Forall_singleton].
  - split; [by_decide | by apply Forall_singleton].
Qed.

Lemma typed_snapshot_typed ps :
  short_list peer_typed ps -> bytes_typed (typed_snapshot ps).
Proof.
  intros Hps. unfold bytes_typed; cbn. split_and!; try by_decide; try done.
  intros c [= <-]. by_decide.
Qed.

Lemma sample_peers_typed :
  short_list peer_typed [peer_one; peer_two] /\ short_list peer_typed [peer_two; peer_one].
Proof.
  split; (split; [by_decide|]); rewrite !Forall_cons;
    (split_and!; [apply typed_peer_typed; by_decide..|done]).
Qed.


Lemma unsigned_bytes_order_independent_witness :
  unsigned_bytes (typed_snapshot [peer_one; peer_two])
  = unsigned_bytes (typed_snapshot [peer_two; peer_one]).
Proof.
  apply unsigned_bytes_order_independent; try reflexivity.
  - by_decide.
  - by_decide.
  - apply perm_swap.
Defined.
