(* ===== verification/Crypto.v ===== *)
(** * Credentials, signed snapshots and session ciphers

    [vela-crypto/src/lib.rs].  The primitives (Ed25519, X25519, BLAKE3, HKDF,
    ChaCha20-Poly1305, the Noise protocol) come from external crates: they are the
    operations of the classes below, and the laws the theorems use are the
    documented ones (a signature verifies under its key, what is sealed opens).
    The key files are the component [KeyFiles]. *)
From S2P Require Import Prelude Net Encoding Wire NodeId Snapshot SignedBytes.

(** ** Primitives *)

(** BLAKE3 with its 32-byte output. *)
Class Hash : Type := blake3 : bytes -> bytes.

(** Ed25519: public key of a secret key, signing, whether 32 bytes are a valid
    key ([VerifyingKey::from_bytes]), verification and strict verification. *)
Class SignatureOps : Type := {
  sig_public : bytes -> bytes;
  sig_sign : bytes -> bytes -> bytes;
  sig_key_ok : bytes -> bool;
  sig_verify : bytes -> bytes -> bytes -> bool;
  sig_verify_strict : bytes -> bytes -> bytes -> bool
}.

Class SignatureLaws (S : SignatureOps) : Prop := {
  sig_sign_length sk m : length (sig_sign sk m) = 64%nat;
  sig_public_ok sk : sig_key_ok (sig_public sk) = true;
  sig_correct sk m : sig_verify (sig_public sk) m (sig_sign sk m) = true;
  sig_correct_strict sk m : sig_verify_strict (sig_public sk) m (sig_sign sk m) = true
}.

(** The AEAD: sealing gives a ciphertext of the plaintext's length and a 16-byte
    tag; opening what was sealed with the same key, nonce and data gives it back. *)
Class AeadOps : Type := {
  aead_seal : bytes -> bytes -> bytes -> bytes -> option (bytes * bytes);
  aead_open : bytes -> bytes -> bytes -> bytes -> bytes -> option bytes
}.

Class AeadLaws (A : AeadOps) : Prop := {
  aead_lengths k n ad m c t :
    aead_seal k n ad m = Some (c, t) -> length c = length m /\ length t = 16%nat;
  aead_correct k n ad m c t :
    aead_seal k n ad m = Some (c, t) -> aead_open k n ad c t = Some m;
  aead_open_length k n ad m c t :
    aead_open k n ad c t = Some m -> length m = length c
}.

Inductive CryptoError : Type :=
| Crypto_Io | Crypto_Serialization
| InvalidKey | InvalidSignature | CredentialExpired | NoiseFailed | Aead
| Crypto_InvalidSnapshot.

#[export] Instance CryptoError_eq_dec : EqDecision CryptoError.
Proof. solve_decision. Defined.

(** ** Identities and credentials *)

Record PublicIdentity : Type := mkIdentity {
  pid_node_id : bytes;
  pid_signing_public : bytes;
  pid_noise_public : bytes
}.

Record MembershipCredential : Type := mkCredential {
  cred_node_id : bytes;
  cred_signing_public : bytes;
  cred_noise_public : bytes;
  cred_tenant : bytes;
  cred_issued_at : Z;
  cred_expires_at : Z;
  cred_server_key_id : bytes;
  cred_signature : bytes
}.

Definition signing_bytes (c : MembershipCredential) : bytes :=
  cred_node_id c ++ cred_signing_public c ++ cred_noise_public c
  ++ be_bytes 4 (wrap 32 (len (cred_tenant c))) ++ cred_tenant c
  ++ be_bytes 8 (cred_issued_at c) ++ be_bytes 8 (cred_expires_at c)
  ++ cred_server_key_id c.

Section Keys.
Context `{Hash, SignatureOps}.

(** [Identity::public] for the public halves of the two keys. *)
Definition Identity_public (signing_secret noise_pub : bytes) : PublicIdentity :=
  mkIdentity (blake3 (sig_public signing_secret)) (sig_public signing_secret) noise_pub.

(** [MembershipCredential::unsigned]; the clock is an argument. *)
Definition Credential_unsigned (id : PublicIdentity) (tenant : bytes) (expires now : Z)
    (server_key_id : bytes) : MembershipCredential :=
  mkCredential (pid_node_id id) (pid_signing_public id) (pid_noise_public id) tenant
    now expires server_key_id (replicate 64 0).

(** [ServerSigner]: the secret key. *)
Definition ServerSigner_public (server : bytes) : bytes := sig_public server.
Definition ServerSigner_key_id (server : bytes) : bytes := blake3 (sig_public server).
Definition ServerSigner_sign (server m : bytes) : bytes := sig_sign server m.

Definition Credential_sign (c : MembershipCredential) (server : bytes) : MembershipCredential :=
  mkCredential (cred_node_id c) (cred_signing_public c) (cred_noise_public c)
    (cred_tenant c) (cred_issued_at c) (cred_expires_at c) (cred_server_key_id c)
    (ServerSigner_sign server (signing_bytes c)).

Definition Credential_verify (c : MembershipCredential) (server_public : bytes) (now : Z)
    : result unit CryptoError :=
  if (cred_expires_at c <? cred_issued_at c) || (cred_expires_at c <? now)
     || (sat_add64 now 60 <? cred_issued_at c)
  then Err CredentialExpired
  else if negb (bool_decide (cred_server_key_id c = blake3 server_public))
  then Err InvalidSignature
  else if negb (bool_decide (cred_node_id c = blake3 (cred_signing_public c)))
  then Err InvalidSignature
  else if negb (sig_key_ok server_public) then Err InvalidKey
  else if negb (length (cred_signature c) =? 64)%nat then Err InvalidSignature
  else if sig_verify server_public (signing_bytes c) (cred_signature c)
  then Ok tt else Err InvalidSignature.

(** ** Signed snapshots *)

Definition sign_snapshot (server : bytes) (s : NetworkSnapshot) : NetworkSnapshot :=
  mkSnapshot (network_id s) (generation s) (snap_ipv4 s) (snap_ipv6 s) (doh_servers s)
    (stun_servers s) (peers s) (online_peers s) (expires_at s)
    (ServerSigner_sign server (unsigned_bytes s)).

Definition verify_snapshot (s : NetworkSnapshot) (server_public : bytes) (now : Z)
    : result unit CryptoError :=
  if (expires_at s <? now) || negb (length (signature s) =? 64)%nat
  then Err Crypto_InvalidSnapshot
  else if negb (sig_key_ok server_public) then Err InvalidKey
  else if sig_verify server_public (unsigned_bytes s) (signature s)
  then Ok tt else Err Crypto_InvalidSnapshot.
End Keys.

(** ** Session ciphers *)

Record SessionKeys : Type := mkKeys { key_initiator : bytes; key_responder : bytes }.
Record SessionCipher : Type := mkCipher { cipher_tx : bytes; cipher_rx : bytes }.

(** [SessionKeys::cipher] *)
Definition session_cipher (k : SessionKeys) (initiator : bool) : SessionCipher :=
  mkCipher (if initiator then key_initiator k else key_responder k)
           (if initiator then key_responder k else key_initiator k).

Definition aead_nonce (sequence : Z) : bytes := replicate 4 0 ++ be_bytes 8 sequence.

Section Cipher.
Context `{AeadOps}.

(** The buffer after sealing in place, and the tag. *)
Definition encrypt_in_place_detached (c : SessionCipher) (sequence : Z) (ad plaintext : bytes)
    : result (bytes * bytes) CryptoError :=
  ok_or (aead_seal (cipher_tx c) (aead_nonce sequence) ad plaintext) Aead.

Definition encrypt (c : SessionCipher) (sequence : Z) (ad plaintext : bytes)
    : result bytes CryptoError :=
  let? ct := encrypt_in_place_detached c sequence ad plaintext in
  Ok (fst ct ++ snd ct).

Definition decrypt (c : SessionCipher) (sequence : Z) (ad ciphertext_and_tag : bytes)
    : result bytes CryptoError :=
  if (length ciphertext_and_tag <? 16)%nat then Err Aead
  else
    let split := (length ciphertext_and_tag - 16)%nat in
    ok_or (aead_open (cipher_rx c) (aead_nonce sequence) ad
             (take split ciphertext_and_tag) (drop split ciphertext_and_tag)) Aead.

(** [decrypt_in_place]: the buffer it leaves on success. *)
Definition decrypt_in_place (c : SessionCipher) (sequence : Z) (ad buffer : bytes)
    : result bytes CryptoError :=
  if (length buffer <? 16)%nat then Err Aead
  else
    let split := (length buffer - 16)%nat in
    let? opened := ok_or (aead_open (cipher_rx c) (aead_nonce sequence) ad
                            (take split buffer) (drop split buffer)) Aead in
    Ok (take split (opened ++ drop split buffer)).
End Cipher.

(** ** The Noise handshake *)

(** The state machine of the Noise crate: starting either role, writing and
    reading a message, whether the pattern is complete, and the handshake hash. *)
Class NoiseOps : Type := {
  NState : Type;
  noise_initiator : bytes -> bytes -> option NState;
  noise_responder : bytes -> option NState;
  noise_write : NState -> bytes -> option (bytes * NState);
  noise_read : NState -> bytes -> option (bytes * NState);
  noise_finished : NState -> bool;
  noise_hash : NState -> bytes
}.

(** HKDF-SHA256: salt, input key material, info. *)
Class HkdfOps : Type := hkdf_expand : bytes -> bytes -> bytes -> option bytes.

Section Noise.
Context `{NoiseOps, HkdfOps}.

Definition NoiseHandshake_initiator (noise_private peer_public : bytes)
    : result NState CryptoError := ok_or (noise_initiator noise_private peer_public) NoiseFailed.

Definition NoiseHandshake_responder (noise_private : bytes)
    : result NState CryptoError := ok_or (noise_responder noise_private) NoiseFailed.

(** Messages go through a 2048-byte buffer that is cut to the length written. *)
Definition write_message (st : NState) (p : bytes) : result (bytes * NState) CryptoError :=
  ok_or (noise_write st p) NoiseFailed.

Definition read_message (st : NState) (m : bytes) : result (bytes * NState) CryptoError :=
  ok_or (noise_read st m) NoiseFailed.

Definition session_salt : bytes := str "vela datagram session".

Definition derive_keys (hash : bytes) : result SessionKeys CryptoError :=
  let? i := ok_or (hkdf_expand session_salt hash (str "initiator")) NoiseFailed in
  let? r := ok_or (hkdf_expand session_salt hash (str "responder")) NoiseFailed in
  Ok (mkKeys i r).

Definition into_session (st : NState) : result SessionKeys CryptoError :=
  if negb (noise_finished st) then Err NoiseFailed else derive_keys (noise_hash st).
End Noise.

(** ** Credentials: what verification accepts *)

Section CredentialTheorems.
Context `{Hash, SignatureOps}.

Definition credential_valid (c : MembershipCredential) (server_public : bytes) (now : Z) : Prop :=
  cred_issued_at c <= cred_expires_at c /\ now <= cred_expires_at c
  /\ cred_issued_at c <= sat_add64 now 60
  /\ cred_server_key_id c = blake3 server_public
  /\ cred_node_id c = blake3 (cred_signing_public c)
  /\ sig_key_ok server_public = true /\ length (cred_signature c) = 64%nat
  /\ sig_verify server_public (signing_bytes c) (cred_signature c) = true.

Lemma credential_verify_iff_aux c server_public now :
  Credential_verify c server_public now = Ok tt <-> credential_valid c server_public now.
Proof.
  unfold Credential_verify, credential_valid. split.
  - intros E. inv_ok. unbool. split_and!; (done || lia).
  - intros (? & ? & ? & ? & ? & Hk & Hl & Hv).
    destruct (Z.ltb_spec (cred_expires_at c) (cred_issued_at c)); [lia|].
    destruct (Z.ltb_spec (cred_expires_at c) now); [lia|].
    destruct (Z.ltb_spec (sat_add64 now 60) (cred_issued_at c)); [lia|].
    cbn [orb]. rewrite !bool_decide_eq_true_2 by done. by rewrite Hk, Hl, Hv.
Qed.

Context {HS : SignatureLaws H0}.

(** a credential the coordinator issues and signs verifies under its public
    key from a minute before its issue until its expiry, and carries the id of
    the signing key it was issued for. *)
Theorem credential_issue_verify signing noise_pub tenant expires issued server now :
  issued <= expires -> now <= expires -> issued <= sat_add64 now 60 ->
  let c := Credential_sign
             (Credential_unsigned (Identity_public signing noise_pub) tenant expires issued
                (ServerSigner_key_id server)) server in
  Credential_verify c (ServerSigner_public server) now = Ok tt
  /\ cred_node_id c = blake3 (sig_public signing).
Proof.
  intros Hi Hn Hs c. split; [|done]. apply credential_verify_iff_aux.
  unfold credential_valid; cbn.
  split_and!; try done; [apply sig_public_ok | apply sig_sign_length | apply sig_correct].
Qed.
End CredentialTheorems.

(** The fields a credential's signature covers. *)
Definition credential_typed (c : MembershipCredential) : Prop :=
  length (cred_node_id c) = 32%nat /\ length (cred_signing_public c) = 32%nat
  /\ length (cred_noise_public c) = 32%nat /\ short (cred_tenant c)
  /\ is_u 64 (cred_issued_at c) /\ is_u 64 (cred_expires_at c)
  /\ length (cred_server_key_id c) = 32%nat.

(** the signed bytes of a credential determine every field but the signature,
    so one signature cannot serve two different memberships. *)
Theorem signing_bytes_binding c d :
  credential_typed c -> credential_typed d -> signing_bytes c = signing_bytes d ->
  mkCredential (cred_node_id c) (cred_signing_public c) (cred_noise_public c)
    (cred_tenant c) (cred_issued_at c) (cred_expires_at c) (cred_server_key_id c) []
  = mkCredential (cred_node_id d) (cred_signing_public d) (cred_noise_public d)
      (cred_tenant d) (cred_issued_at d) (cred_expires_at d) (cred_server_key_id d) [].
Proof.
  intros (C1 & C2 & C3 & C4 & C5 & C6 & C7) (D1 & D2 & D3 & D4 & D5 & D6 & D7) E.
  unfold signing_bytes in E.
  rewrite !(app_assoc (be_bytes 4 _)) in E.
  change (be_bytes 4 _ ++ cred_tenant ?x) with (encode_string (cred_tenant x)) in E.
  peel E (self_delim_raw 32). peel E (self_delim_raw 32). peel E (self_delim_raw 32).
  peel E self_delim_string.
  peel E (self_delim_be 8 64 eq_refl). peel E (self_delim_be 8 64 eq_refl).
  congruence.
Qed.

(** ** Snapshots *)

Section SnapshotTheorems.
Context `{Hash, SignatureOps}.

Definition snapshot_signed (s : NetworkSnapshot) (server_public : bytes) (now : Z) : Prop :=
  now <= expires_at s /\ length (signature s) = 64%nat /\ sig_key_ok server_public = true
  /\ sig_verify server_public (unsigned_bytes s) (signature s) = true.

Lemma verify_snapshot_iff s server_public now :
  verify_snapshot s server_public now = Ok tt <-> snapshot_signed s server_public now.
Proof.
  unfold verify_snapshot, snapshot_signed. split.
  - intros E. inv_ok. unbool. split_and!; (done || lia).
  - intros (? & Hl & Hk & Hv). destruct (Z.ltb_spec (expires_at s) now); [lia|].
    cbn [orb]. by rewrite Hl, Hk, Hv.
Qed.

Context {HS : SignatureLaws H0}.

Lemma unsigned_bytes_sign server s : unsigned_bytes (sign_snapshot server s) = unsigned_bytes s.
Proof. done. Qed.

Lemma sign_snapshot_verifies server s now :
  now <= expires_at s ->
  verify_snapshot (sign_snapshot server s) (ServerSigner_public server) now = Ok tt.
Proof.
  intros Hn. apply verify_snapshot_iff. unfold snapshot_signed.
  rewrite unsigned_bytes_sign. cbn.
  split_and!; [done | apply sig_sign_length | apply sig_public_ok | apply sig_correct].
Qed.
End SnapshotTheorems.

(** ** Session ciphers *)

Section CipherTheorems.
Context `{HA : AeadOps} {HL : AeadLaws HA}.

Lemma decrypt_in_place_decrypt c sequence ad b :
  decrypt_in_place c sequence ad b = decrypt c sequence ad b.
Proof.
  unfold decrypt_in_place, decrypt. destruct (_ <? 16)%nat; [done|].
  destruct (aead_open _ _ _ _ _) as [m|] eqn:E; [|done]. cbn.
  apply aead_open_length in E. rewrite length_take in E.
  rewrite take_app_le, take_ge by lia. done.
Qed.

Lemma open_of_seal tx rx sequence ad m ct :
  cipher_tx tx = cipher_rx rx -> encrypt tx sequence ad m = Ok ct ->
  decrypt rx sequence ad ct = Ok m /\ length ct = (length m + 16)%nat.
Proof.
  intros Hk E. unfold encrypt, encrypt_in_place_detached in E. inv_ok.
  destruct x as [c t]. match goal with S : aead_seal _ _ _ _ = _ |- _ => rename S into Es end.
  pose proof (aead_lengths _ _ _ _ _ _ Es) as [Hc Ht].
  unfold decrypt. cbn [fst snd]. rewrite length_app, Hc, Ht.
  destruct (Nat.ltb_spec (length m + 16) 16); [lia|].
  rewrite Nat.add_sub, <- Hc, take_app_length, drop_app_length, <- Hk, (aead_correct _ _ _ _ _ _ Es).
  done.
Qed.

(** the two ends of a session understand each other in both directions:
    what either side encrypts the other decrypts, in place or not, under the same
    sequence number and header. *)
Theorem session_duplex keys initiator sequence ad m ct :
  encrypt (session_cipher keys initiator) sequence ad m = Ok ct ->
  decrypt (session_cipher keys (negb initiator)) sequence ad ct = Ok m
  /\ decrypt_in_place (session_cipher keys (negb initiator)) sequence ad ct = Ok m
  /\ length ct = (length m + 16)%nat.
Proof.
  intros E. rewrite decrypt_in_place_decrypt.
  destruct (open_of_seal (session_cipher keys initiator) (session_cipher keys (negb initiator))
              sequence ad m ct); [by destruct initiator | done |]. done.
Qed.
End CipherTheorems.

(** Sequence numbers give distinct nonces. *)
Lemma aead_nonce_inj s1 s2 :
  is_u 64 s1 -> is_u 64 s2 -> aead_nonce s1 = aead_nonce s2 -> s1 = s2.
Proof.
  intros H1 H2 E. unfold aead_nonce in E. apply app_inv_head in E.
  by apply be_bytes_inj in E.
Qed.

(** ** Who can read a session *)

(** The handshake hash of the Noise framework for the IK pattern: a running hash
    of the protocol name, the (empty) prologue, the responder's static public key
    and the parts of the two messages as they are on the wire: an ephemeral key,
    the sealed static key and the sealed payload, then an ephemeral key and a
    sealed payload. *)
Section Transcript.
Context (sha256 : bytes -> bytes).

Definition mix_hash (h data : bytes) : bytes := sha256 (h ++ data).

Definition noise_protocol : bytes := str "Noise_IK_25519_ChaChaPoly_SHA256".

Definition ik_transcript_hash (rs m1 m2 : bytes) : bytes :=
  fold_left mix_hash
    [ []; rs; take 32 m1; slice 32 80 m1; drop 80 m1; take 32 m2; drop 32 m2 ]
    noise_protocol.

Context `{HN : NoiseOps, HK : HkdfOps, HA : AeadOps} {HL : AeadLaws HA}.

(** The initiator's side of a completed handshake. *)
Definition handshake_run (rs m1 m2 : bytes) (st : NState) : Prop :=
  exists priv p1 p2 st0 st1,
    NoiseHandshake_initiator priv rs = Ok st0
    /\ write_message st0 p1 = Ok (m1, st1)
    /\ read_message st1 m2 = Ok (p2, st).

(** The handshake hash is the hash of the transcript (Noise, section 5.2). *)
Definition hash_is_transcript : Prop :=
  forall rs m1 m2 st, handshake_run rs m1 m2 st -> noise_hash st = ik_transcript_hash rs m1 m2.

(** Decryption by someone who has the two handshake messages and the responder's
    public key, and no private key. *)
Definition observer_decrypt (rs m1 m2 : bytes) (from_initiator : bool)
    (sequence : Z) (ad ct : bytes) : result bytes CryptoError :=
  let? keys := derive_keys (ik_transcript_hash rs m1 m2) in
  decrypt (session_cipher keys (negb from_initiator)) sequence ad ct.

(** C39: a session is readable without a private key: from the two handshake
    messages on the wire and the responder's public key anyone recovers every
    packet of the session, in both directions, because [into_session] derives the
    session keys from the handshake hash alone. *)
Theorem session_readable_by_observer rs m1 m2 st keys dir sequence ad m ct :
  hash_is_transcript -> handshake_run rs m1 m2 st -> into_session st = Ok keys ->
  encrypt (session_cipher keys dir) sequence ad m = Ok ct ->
  observer_decrypt rs m1 m2 dir sequence ad ct = Ok m.
Proof.
  intros Hh Hrun E Ec. unfold into_session in E. inv_ok. unfold observer_decrypt.
  rewrite <- (Hh _ _ _ _ Hrun), E. cbn [rbind].
  eapply open_of_seal; [|exact Ec]. by destruct dir.
Qed.
End Transcript.

(** ** Concrete primitives for the witnesses *)

Definition toy_sign (sk m : bytes) : bytes := take 64 (sk ++ m ++ replicate 64 0).

#[local] Instance toy_sig : SignatureOps := {|
  sig_public sk := sk;
  sig_sign := toy_sign;
  sig_key_ok _ := true;
  sig_verify pk m s := bool_decide (s = toy_sign pk m);
  sig_verify_strict pk m s := bool_decide (s = toy_sign pk m)
|}.

Lemma toy_sig_laws : SignatureLaws toy_sig.
Proof.
  split; cbn; intros.
  - unfold toy_sign. rewrite length_take, !length_app, length_replicate. lia.
  - done.
  - by apply bool_decide_eq_true_2.
  - by apply bool_decide_eq_true_2.
Qed.

Definition toy_tag : bytes := replicate 16 0.

#[local] Instance toy_aead : AeadOps := {|
  aead_seal _ _ _ m := Some (m, toy_tag);
  aead_open _ _ _ c t := if bool_decide (t = toy_tag) then Some c else None
|}.

Lemma toy_aead_laws : AeadLaws toy_aead.
Proof. split; cbn; intros; repeat case_match; simplify_eq; done. Qed.

#[local] Instance toy_hash_ops : Hash := toy_hash.
#[local] Instance toy_hkdf : HkdfOps := fun salt ikm info => Some (take 32 (info ++ ikm)).

Record ToyNoise : Type := mkToy { toy_rs : bytes; toy_msgs : list bytes }.

#[local] Instance toy_noise : NoiseOps := {|
  NState := ToyNoise;
  noise_initiator _ rs := Some (mkToy rs []);
  noise_responder priv := Some (mkToy priv []);
  noise_write st p := Some (p, mkToy (toy_rs st) (toy_msgs st ++ [p]));
  noise_read st m := Some (m, mkToy (toy_rs st) (toy_msgs st ++ [m]));
  noise_finished st := (length (toy_msgs st) =? 2)%nat;
  noise_hash st := ik_transcript_hash toy_hash (toy_rs st)
                     (nth 0 (toy_msgs st) []) (nth 1 (toy_msgs st) [])
|}.

Lemma toy_hash_is_transcript : hash_is_transcript toy_hash.
Proof.
  intros rs m1 m2 st (priv & p1 & p2 & st0 & st1 & E0 & E1 & E2).
  cbn in *. by simplify_eq/=.
Qed.

Lemma session_readable_by_observer_witness :
  observer_decrypt toy_hash [5] [1] [2] true 7 [9] ([42] ++ toy_tag) = Ok [42].
Proof.
  apply (session_readable_by_observer toy_hash (HN := toy_noise) (HL := toy_aead_laws) [5] [1] [2] (mkToy [5] [[1]; [2]])
           (mkKeys (take 32 (str "initiator" ++ ik_transcript_hash toy_hash [5] [1] [2]))
                   (take 32 (str "responder" ++ ik_transcript_hash toy_hash [5] [1] [2])))
           true 7 [9] [42]).
  - apply toy_hash_is_transcript.
  - exists [], [1], [2], (mkToy [5] []), (mkToy [5] [[1]]). done.
  - vm_compute; reflexivity.
  - reflexivity.
Defined.

Lemma session_duplex_witness :
  decrypt (session_cipher (mkKeys [1] [2]) false) 3 [9] ([42] ++ toy_tag) = Ok [42]
  /\ decrypt_in_place (session_cipher (mkKeys [1] [2]) false) 3 [9] ([42] ++ toy_tag) = Ok [42]
  /\ length ([42] ++ toy_tag) = 17%nat.
Proof.
  apply (session_duplex (HL := toy_aead_laws) (mkKeys [1] [2]) true 3 [9] [42]). reflexivity.
Defined.

Lemma credential_issue_verify_witness :
  let c := Credential_sign
             (Credential_unsigned (Identity_public [7] [8]) (str "tenant") 100 50
                (ServerSigner_key_id [3])) [3] in
  Credential_verify c (ServerSigner_public [3]) 60 = Ok tt
  /\ cred_node_id c = blake3 (sig_public [7]).
Proof.
  apply (credential_issue_verify (HS := toy_sig_laws) [7] [8] (str "tenant") 100 50 [3] 60);
    by_decide.
Defined.

Definition sample_credential (sig : bytes) : MembershipCredential :=
  mkCredential (replicate 32 1) (replicate 32 2) (replicate 32 3) (str "home") 10 20
    (replicate 32 4) sig.

Lemma sample_credential_typed sig : credential_typed (sample_credential sig).
Proof. unfold credential_typed; cbn. split_and!; try done; by_decide. Qed.

Lemma signing_bytes_binding_witness :
  mkCredential (replicate 32 1) (replicate 32 2) (replicate 32 3) (str "home") 10 20
    (replicate 32 4) [] = sample_credential [].
Proof.
  apply (signing_bytes_binding (sample_credential [1]) (sample_credential [2]));
    [apply sample_credential_typed.. | reflexivity].
Defined.
