(* ===== verification/Ip.v ===== *)
(** * IP packets and the route table

    [vela-ip/src/lib.rs]: the validating parser of inner IPv4 and IPv6 packets,
    the Internet checksum, and the host-route table that maps a virtual address
    to the peer that owns it. *)
From S2P Require Import Prelude Net.

Inductive IpVersion : Type := IPv4 | IPv6.

#[export] Instance IpVersion_eq_dec : EqDecision IpVersion.
Proof. solve_decision. Defined.

(** [IpError]; the constructors carry a prefix where [ProtoError] has the same. *)
Inductive IpError : Type :=
| Ip_Truncated
| Ip_UnsupportedVersion (v : Z)
| Ip_InvalidHeaderLength
| Ip_InvalidTotalLength
| Ip_LengthMismatch (declared actual : Z)
| Ip_InvalidChecksum
| Ip_SourceNotLocal (a : IpAddr)
| Ip_DestinationUnknown (a : IpAddr).

Record IpPacket : Type := mkIp {
  ip_bytes : bytes;
  ip_version : IpVersion;
  ip_source : IpAddr;
  ip_destination : IpAddr;
  ip_protocol : Z
}.

(** ** The checksum *)

(** [while sum > 0xffff]: the loop runs at most three times on a [u32]. *)
Fixpoint fold_carries (fuel : nat) (sum : Z) : Z :=
  match fuel with
  | O => sum
  | S k => if U16_MAX <? sum
           then fold_carries k (Z.land sum U16_MAX + Z.shiftr sum 16) else sum
  end.

Definition fold_fuel : nat := 4.

(** One iteration on a chunk of two bytes, or on the last odd byte. *)
Definition add_word (sum word : Z) : Z := fold_carries fold_fuel (wrap 32 (sum + word)).

Fixpoint checksum_sum (sum : Z) (data : bytes) : Z :=
  match data with
  | [] => sum
  | [a] => add_word sum (wrap 16 (Z.shiftl a 8))
  | a :: b :: rest => checksum_sum (add_word sum (be_value [a; b])) rest
  end.

(** [!(sum as u16)] *)
Definition checksum (data : bytes) : Z := U16_MAX - wrap 16 (checksum_sum 0 data).

(** ** Parsing *)

Definition parse_v4 (b : bytes) : result IpPacket IpError :=
  if len b <? 20 then Err Ip_Truncated
  else
    let header_len := Z.land (b !!! 0%nat) 15 * 4 in
    if header_len <? 20 then Err Ip_InvalidHeaderLength
    else if len b <? header_len then Err Ip_Truncated
    else
      let total_len := be_value [b !!! 2%nat; b !!! 3%nat] in
      if total_len <? header_len then Err Ip_InvalidTotalLength
      else if negb (total_len =? len b) then Err (Ip_LengthMismatch total_len (len b))
      else if negb (checksum (slice 0 (Z.to_nat header_len) b) =? 0)
      then Err Ip_InvalidChecksum
      else Ok {| ip_bytes := b;
                 ip_version := IPv4;
                 ip_source := V4 (be_value (slice 12 16 b));
                 ip_destination := V4 (be_value (slice 16 20 b));
                 ip_protocol := b !!! 9%nat |}.

Definition parse_v6 (b : bytes) : result IpPacket IpError :=
  if len b <? 40 then Err Ip_Truncated
  else
    let total_len := Z.min (40 + be_value [b !!! 4%nat; b !!! 5%nat]) U64_MAX in
    if negb (total_len =? len b) then Err (Ip_LengthMismatch total_len (len b))
    else Ok {| ip_bytes := b;
               ip_version := IPv6;
               ip_source := V6 (be_value (slice 8 24 b));
               ip_destination := V6 (be_value (slice 24 40 b));
               ip_protocol := b !!! 6%nat |}.

(** [IpPacket::parse] *)
Definition ip_parse (b : bytes) : result IpPacket IpError :=
  match b with
  | [] => Err Ip_Truncated
  | b0 :: _ =>
      let v := Z.shiftr b0 4 in
      if v =? 4 then parse_v4 b
      else if v =? 6 then parse_v6 b
      else Err (Ip_UnsupportedVersion v)
  end.

Definition is_fragment (p : IpPacket) : bool :=
  match ip_version p with
  | IPv4 => negb (Z.land (be_value [ip_bytes p !!! 6%nat; ip_bytes p !!! 7%nat]) 0x3fff =? 0)
  | IPv6 => ip_protocol p =? 44
  end.

(** ** The route table *)

Record RouteTable : Type := mkRoutes {
  local : list IpAddr;
  routes : gmap IpAddr bytes
}.

Definition RouteTable_new (addresses : list IpAddr) : RouteTable := mkRoutes addresses ∅.
Definition set_local (t : RouteTable) (addresses : list IpAddr) : RouteTable :=
  mkRoutes addresses (routes t).
Definition route_insert (t : RouteTable) (a : IpAddr) (peer : bytes) : RouteTable :=
  mkRoutes (local t) (<[a := peer]> (routes t)).
Definition clear_routes (t : RouteTable) : RouteTable := mkRoutes (local t) ∅.
Definition route_remove (t : RouteTable) (a : IpAddr) : option bytes * RouteTable :=
  (routes t !! a, mkRoutes (local t) (delete a (routes t))).
Definition peer_for (t : RouteTable) (a : IpAddr) : option bytes := routes t !! a.
Definition is_local (t : RouteTable) (a : IpAddr) : bool := bool_decide (a ∈ local t).

Definition validate_outbound (t : RouteTable) (p : IpPacket) : result bytes IpError :=
  if negb (is_local t (ip_source p)) then Err (Ip_SourceNotLocal (ip_source p))
  else ok_or (peer_for t (ip_destination p)) (Ip_DestinationUnknown (ip_destination p)).

(** ** The checksum against its mathematical definition *)

(** The 16-bit words of the data, the last odd byte padded with zero. *)
Fixpoint words16 (data : bytes) : list Z :=
  match data with
  | [] => []
  | [a] => [a * 256]
  | a :: b :: rest => (a * 256 + b) :: words16 rest
  end.

Definition zsum (l : list Z) : Z := foldr Z.add 0 l.

(** One's complement reduction: the representative of [x] modulo 65535 in
    [1, 65535], or [0] when [x] is [0]. *)
Definition ones_complement (x : Z) : Z := if x =? 0 then 0 else (x - 1) mod 65535 + 1.

Lemma ones_complement_bounds x : 0 <= x -> 0 <= ones_complement x <= U16_MAX.
Proof.
  intros Hx. unfold ones_complement, U16_MAX. destruct (Z.eqb_spec x 0); [lia|].
  pose proof (Z.mod_pos_bound (x - 1) 65535). lia.
Qed.

Lemma ones_complement_small x : 0 <= x <= U16_MAX -> ones_complement x = x.
Proof.
  unfold ones_complement, U16_MAX. intros Hx. destruct (Z.eqb_spec x 0); [done|].
  rewrite Z.mod_small; lia.
Qed.

Lemma ones_complement_congr x k :
  0 < x -> 0 < x + k * 65535 -> ones_complement (x + k * 65535) = ones_complement x.
Proof.
  intros Hx Hk. unfold ones_complement.
  destruct (Z.eqb_spec x 0), (Z.eqb_spec (x + k * 65535) 0); try lia.
  replace (x + k * 65535 - 1) with (x - 1 + k * 65535) by lia. by rewrite Z.mod_add by lia.
Qed.

Lemma ones_complement_decomp x :
  0 < x -> exists k, ones_complement x = x + k * 65535 /\ 0 < ones_complement x.
Proof.
  intros Hx. unfold ones_complement. destruct (Z.eqb_spec x 0); [lia|].
  exists (- ((x - 1) / 65535)). pose proof (Z.div_mod (x - 1) 65535).
  pose proof (Z.mod_pos_bound (x - 1) 65535). lia.
Qed.

Lemma ones_complement_add x y :
  0 <= x -> 0 <= y -> ones_complement (ones_complement x + y) = ones_complement (x + y).
Proof.
  intros Hx Hy. destruct (decide (x = 0)) as [->|]; [done|].
  destruct (ones_complement_decomp x) as (k & -> & ?); [lia|].
  replace (x + k * 65535 + y) with (x + y + k * 65535) by lia.
  apply ones_complement_congr; lia.
Qed.

Lemma ones_complement_zero_mod x :
  0 <= x -> (ones_complement x = U16_MAX <-> 0 < x /\ x mod 65535 = 0).
Proof.
  intros Hx. unfold ones_complement, U16_MAX. destruct (Z.eqb_spec x 0) as [->|]; [lia|].
  split; Z.div_mod_to_equations; lia.
Qed.

(** One turn of the carry loop. *)
Lemma carry_once y :
  U16_MAX < y -> Z.land y U16_MAX + Z.shiftr y 16 = y - (y / 65536) * 65535
  /\ 0 < y / 65536.
Proof.
  intros Hy. change U16_MAX with (Z.ones 16) at 1.
  rewrite Z.land_ones, Z.shiftr_div_pow2 by lia. change (2 ^ 16) with 65536.
  unfold U16_MAX in Hy. split; Z.div_mod_to_equations; lia.
Qed.

Lemma fold_carries_small n x : 0 <= x <= U16_MAX -> fold_carries n x = ones_complement x.
Proof.
  intros Hx. rewrite ones_complement_small by done.
  destruct n; [done|]. cbn. by destruct (Z.ltb_spec U16_MAX x); [lia|].
Qed.

Lemma fold_carries_step n x :
  U16_MAX < x ->
  fold_carries (S n) x = fold_carries n (x - (x / 65536) * 65535)
  /\ ones_complement x = ones_complement (x - (x / 65536) * 65535)
  /\ 0 < x - (x / 65536) * 65535.
Proof.
  intros Hx. destruct (carry_once x Hx) as [He Hq].
  assert (0 < x - (x / 65536) * 65535) by (unfold U16_MAX in *; Z.div_mod_to_equations; lia).
  split_and!; [|symmetry|done].
  - cbn. destruct (Z.ltb_spec U16_MAX x); [by rewrite He | lia].
  - replace (x - (x / 65536) * 65535) with (x + (- (x / 65536)) * 65535) in * by lia.
    apply ones_complement_congr; unfold U16_MAX in *; lia.
Qed.

(** The loop terminates within its fuel on every [u32], on the one's complement
    reduction. *)
Lemma fold_carries_ones x :
  is_u 32 x -> fold_carries fold_fuel x = ones_complement x.
Proof.
  intros Hx. unfold fold_fuel, is_u in *.
  destruct (Z.le_gt_cases x U16_MAX) as [?|H1]; [apply fold_carries_small; lia|].
  destruct (fold_carries_step 3 x H1) as (-> & -> & Hp1).
  set (y := x - (x / 65536) * 65535) in *.
  assert (y <= 131070) by (unfold y; Z.div_mod_to_equations; lia).
  destruct (Z.le_gt_cases y U16_MAX) as [?|H2]; [apply fold_carries_small; lia|].
  destruct (fold_carries_step 2 y H2) as (-> & -> & Hp2).
  apply fold_carries_small. unfold U16_MAX in *. Z.div_mod_to_equations; lia.
Qed.

Lemma add_word_ones s w :
  0 <= s <= U16_MAX -> 0 <= w <= U16_MAX -> add_word s w = ones_complement (s + w).
Proof.
  intros Hs Hw. unfold add_word. unfold U16_MAX in *.
  assert (is_u 32 (s + w)) by (unfold is_u; lia).
  rewrite wrap_small by done. by apply fold_carries_ones.
Qed.

Lemma zsum_nonneg l : Forall (fun x => 0 <= x) l -> 0 <= zsum l.
Proof. induction 1; cbn; [lia|]. unfold zsum in *. lia. Qed.

Lemma words16_ok data : bytes_ok data -> Forall (fun x => 0 <= x <= U16_MAX) (words16 data).
Proof.
  revert data; fix IH 1; intros [|a [|b rest]]; cbn; intros H; [constructor|..].
  - apply bytes_ok_cons in H as [Ha _]. unfold is_byte, U16_MAX in *. repeat constructor; lia.
  - apply bytes_ok_cons in H as [Ha H]. apply bytes_ok_cons in H as [Hb H].
    constructor; [unfold is_byte, U16_MAX in *; lia | by apply IH].
Qed.

Lemma zsum_words16_nonneg data : bytes_ok data -> 0 <= zsum (words16 data).
Proof.
  intros H. apply zsum_nonneg. eapply Forall_impl; [by apply words16_ok|]. cbn; lia.
Qed.

Lemma checksum_sum_ones s data :
  0 <= s <= U16_MAX -> bytes_ok data ->
  checksum_sum s data = ones_complement (s + zsum (words16 data)).
Proof.
  revert s data; fix IH 2; intros s [|a [|b rest]] Hs H; cbn [checksum_sum words16].
  - cbn. by rewrite Z.add_0_r, ones_complement_small.
  - apply bytes_ok_cons in H as [Ha _]. unfold is_byte in Ha.
    assert (wrap 16 (Z.shiftl a 8) = a * 256) as ->.
    { rewrite Z.shiftl_mul_pow2 by lia. apply wrap_small. unfold is_u. lia. }
    rewrite add_word_ones by (unfold U16_MAX in *; lia). cbn. f_equal. lia.
  - apply bytes_ok_cons in H as [Ha H]. apply bytes_ok_cons in H as [Hb H].
    unfold is_byte in *. change (be_value [a; b]) with (a * 256 + b).
    rewrite add_word_ones by (unfold U16_MAX in *; lia).
    pose proof (zsum_words16_nonneg rest H) as Hz.
    rewrite IH; [|apply ones_complement_bounds; lia|done].
    cbn. fold (zsum (words16 rest)). rewrite ones_complement_add by lia. f_equal. lia.
Qed.

(** The checksum of any buffer is the complement of the one's complement sum of
    its words. *)
Lemma checksum_ones data :
  bytes_ok data -> checksum data = U16_MAX - ones_complement (zsum (words16 data)).
Proof.
  intros H. unfold checksum. rewrite checksum_sum_ones by (done || unfold U16_MAX; lia).
  pose proof (ones_complement_bounds (0 + zsum (words16 data))
                (zsum_words16_nonneg data H)) as Hb.
  rewrite wrap_small by (unfold is_u, U16_MAX in *; lia). done.
Qed.

Lemma checksum_zero_iff data :
  bytes_ok data ->
  checksum data = 0 <-> 0 < zsum (words16 data) /\ zsum (words16 data) mod 65535 = 0.
Proof.
  intros H. rewrite checksum_ones, <- ones_complement_zero_mod by auto using zsum_words16_nonneg.
  lia.
Qed.

(** Replacing one byte moves the sum by its weight. *)
Definition byte_weight (i : nat) : Z := if Nat.even i then 256 else 1.

Lemma zsum_words16_insert data i b :
  (i < length data)%nat ->
  zsum (words16 (<[i := b]> data)) = zsum (words16 data) + (b - data !!! i) * byte_weight i.
Proof.
  revert data i; fix IH 1; intros [|x [|y rest]] i Hi; cbn [length] in Hi; [lia|..].
  - assert (i = 0%nat) as -> by lia. cbn. lia.
  - destruct i as [|[|i]]; unfold zsum; simpl; [unfold byte_weight; simpl; lia..|].
    fold (zsum (words16 (<[i:=b]> rest))). fold (zsum (words16 rest)).
    rewrite IH by lia. change (byte_weight (S (S i))) with (byte_weight i). lia.
Qed.

Lemma bytes_ok_insert data i b : bytes_ok data -> is_byte b -> bytes_ok (<[i := b]> data).
Proof. intros. by apply Forall_insert. Qed.

(** the header checksum detects every single-byte error: changing one byte
    of a buffer whose checksum verifies makes it fail. *)
Theorem checksum_detects_byte_error data i b :
  bytes_ok data -> checksum data = 0 -> (i < length data)%nat -> is_byte b ->
  b <> data !!! i -> checksum (<[i := b]> data) <> 0.
Proof.
  intros Hd H0 Hi Hb Hne Hz.
  apply checksum_zero_iff in H0 as [_ H0]; [|done].
  apply checksum_zero_iff in Hz as [_ Hz]; [|by apply bytes_ok_insert].
  rewrite zsum_words16_insert in Hz by done.
  pose proof (lookup_total_ok data i Hd) as Ho. unfold is_byte, byte_weight in *.
  destruct (Nat.even i); Z.div_mod_to_equations; lia.
Qed.

Lemma checksum_detects_byte_error_witness :
  checksum (<[3%nat := 7]> [0x12; 0x34; 0xed; 0xcb]) <> 0.
Proof.
  apply (checksum_detects_byte_error [0x12; 0x34; 0xed; 0xcb] 3 7); [by_decide..|].
  vm_compute; congruence.
Defined.

(** the checksum a sender computes verifies: with the checksum of the buffer
    stored big-endian in two zero bytes at an even offset, the checksum of the
    buffer is zero. *)
Theorem checksum_fill data i :
  bytes_ok data -> Nat.even i = true -> (S i < length data)%nat ->
  data !!! i = 0 -> data !!! S i = 0 ->
  checksum (<[S i := checksum data mod 256]> (<[i := checksum data / 256]> data)) = 0.
Proof.
  intros Hd He Hi H0 H1.
  pose proof (zsum_words16_nonneg data Hd) as Hs.
  pose proof (checksum_ones data Hd) as Hc.
  pose proof (ones_complement_bounds _ Hs) as Hb.
  assert (Hr : 0 <= checksum data <= U16_MAX) by lia. unfold U16_MAX in Hr.
  assert (is_byte (checksum data / 256)) by (unfold is_byte; Z.div_mod_to_equations; lia).
  assert (is_byte (checksum data mod 256)) by (unfold is_byte; Z.div_mod_to_equations; lia).
  apply checksum_zero_iff; [auto using bytes_ok_insert|].
  rewrite !zsum_words16_insert by (rewrite ?length_insert; lia).
  rewrite list_lookup_total_insert_ne, H0, H1 by lia.
  assert (byte_weight i = 256 /\ byte_weight (S i) = 1) as [-> ->].
  { unfold byte_weight. rewrite Nat.even_succ, <- Nat.negb_even, He. done. }
  replace (zsum (words16 data) + _ + _) with (zsum (words16 data) + checksum data)
    by (Z.div_mod_to_equations; lia).
  rewrite Hc. unfold U16_MAX in *. destruct (decide (zsum (words16 data) = 0)) as [->|].
  - done.
  - destruct (ones_complement_decomp (zsum (words16 data))) as (k & Hk & Hpos); [lia|].
    rewrite Hk in *. replace (_ + _) with ((1 - k) * 65535) by lia.
    rewrite Z.mod_mul by lia. split; lia.
Qed.

Definition sample_v4 : bytes :=
  [0x45; 0; 0; 22; 0; 0; 0; 0; 64; 17; 0; 0; 10; 254; 0; 1; 10; 254; 0; 2].

Lemma checksum_fill_witness :
  checksum (<[11%nat := checksum sample_v4 mod 256]>
              (<[10%nat := checksum sample_v4 / 256]> sample_v4)) = 0.
Proof. apply (checksum_fill sample_v4 10); by_decide. Defined.

(** ** What the parser accepts *)

(** The checks of the IPv4 branch, as a predicate on the buffer. *)
Definition valid_v4 (b : bytes) : Prop :=
  let header_len := Z.land (b !!! 0%nat) 15 * 4 in
  20 <= header_len <= len b /\ be_value [b !!! 2%nat; b !!! 3%nat] = len b
  /\ checksum (slice 0 (Z.to_nat header_len) b) = 0.

Definition valid_v6 (b : bytes) : Prop :=
  40 <= len b /\ 40 + be_value [b !!! 4%nat; b !!! 5%nat] = len b.

Lemma parse_v4_iff b p :
  parse_v4 b = Ok p <->
  valid_v4 b /\ p = mkIp b IPv4 (V4 (be_value (slice 12 16 b)))
                      (V4 (be_value (slice 16 20 b))) (b !!! 9%nat).
Proof.
  unfold parse_v4, valid_v4; cbn zeta. split.
  - intros H. inv_ok. unbool. split; [|done]. split_and!; (done || lia).
  - intros [(Hh & Ht & Hc) ->].
    repeat match goal with
    | |- context [if ?c then _ else _] => destruct c eqn:?; unbool; try lia
    end. done.
Qed.

Lemma parse_v6_iff b p :
  bytes_ok b ->
  parse_v6 b = Ok p <->
  valid_v6 b /\ p = mkIp b IPv6 (V6 (be_value (slice 8 24 b)))
                      (V6 (be_value (slice 24 40 b))) (b !!! 6%nat).
Proof.
  intros Hb. pose proof (be_value_is_u [b !!! 4%nat; b !!! 5%nat] 16) as Hu.
  specialize (Hu ltac:(solve_bytes) eq_refl). unfold is_u in Hu.
  unfold parse_v6, valid_v6, U64_MAX; cbn zeta. rewrite Z.min_l by lia. split.
  - intros H. inv_ok. unbool. split; [|done]. lia.
  - intros [(Hl & Ht) ->].
    repeat match goal with
    | |- context [if ?c then _ else _] => destruct c eqn:?; unbool; try lia
    end. done.
Qed.

(** the parser accepts exactly the buffers whose version nibble, header
    length, declared length and (for IPv4) header checksum are right, and then
    returns the buffer with the addresses and protocol at their offsets. *)
Theorem ip_parse_exact b p :
  bytes_ok b ->
  ip_parse b = Ok p <->
  (Z.shiftr (b !!! 0%nat) 4 = 4 /\ valid_v4 b
   /\ p = mkIp b IPv4 (V4 (be_value (slice 12 16 b))) (V4 (be_value (slice 16 20 b)))
            (b !!! 9%nat))
  \/ (Z.shiftr (b !!! 0%nat) 4 = 6 /\ valid_v6 b
      /\ p = mkIp b IPv6 (V6 (be_value (slice 8 24 b))) (V6 (be_value (slice 24 40 b)))
               (b !!! 6%nat)).
Proof.
  intros Hb. destruct b as [|b0 rest] eqn:E.
  { cbn. unfold valid_v4, valid_v6, len; cbn. split; [done | lia]. }
  rewrite <- E in *. assert (b !!! 0%nat = b0) as -> by (by rewrite E).
  rewrite E at 1. cbn [ip_parse]. rewrite <- E.
  destruct (Z.eqb_spec (Z.shiftr b0 4) 4) as [->|H4].
  { rewrite parse_v4_iff. split; [auto|]. intros [?|[? _]]; [tauto | lia]. }
  destruct (Z.eqb_spec (Z.shiftr b0 4) 6) as [->|H6].
  { rewrite parse_v6_iff by done. split; [auto|]. intros [[? _]|?]; [lia | tauto]. }
  split; [done|]. intros [[? _]|[? _]]; lia.
Qed.

Lemma ip_parse_exact_witness :
  let b := <[11%nat := checksum sample_v4 mod 256]>
              (<[10%nat := checksum sample_v4 / 256]> sample_v4) ++ [1; 2] in
  ip_parse b = Ok (mkIp b IPv4 (V4 (be_value [10; 254; 0; 1])) (V4 (be_value [10; 254; 0; 2])) 17).
Proof.
  intros b. apply (ip_parse_exact b); [by_decide|]. left.
  split; [reflexivity|]. split; [|reflexivity]. unfold valid_v4. by_decide.
Defined.

(** ** Lemmas on the route table *)

Lemma validate_outbound_Ok t p peer :
  validate_outbound t p = Ok peer <->
  ip_source p ∈ local t /\ routes t !! ip_destination p = Some peer.
Proof.
  unfold validate_outbound, is_local, peer_for.
  destruct (bool_decide (ip_source p ∈ local t)) eqn:E; cbn [negb]; unbool.
  - rewrite ok_or_Ok. naive_solver.
  - split; [done | by intros [? _]].
Qed.
