(* ===== verification/Replay.v ===== *)
(** * The anti-replay window

    [ReplayWindow] of [vela-core/src/lib.rs]: 1024 bits in sixteen 64-bit words,
    bit [d] of the window standing for the sequence number [highest - d].  The
    abstract specification is the plain list of the sequence numbers accepted so
    far; the window refines it. *)
From S2P Require Import Prelude.

Definition REPLAY_WINDOW_SIZE : Z := 1024.
Definition WORD_BITS : Z := 64.
Definition REPLAY_WORDS : nat := 16.

Record ReplayWindow : Type := mkReplay {
  highest : option Z;
  bits : list Z
}.

Definition ReplayWindow_default : ReplayWindow := mkReplay None (replicate REPLAY_WORDS 0).

(** One iteration of the loop of [shift_left] on the word [index]. *)
Definition shift_word (old : list Z) (word_shift : nat) (bit_shift : Z)
    (index : nat) (w : Z) : Z :=
  let w := Z.lor w (wrap 64 (Z.shiftl (old !!! (index - word_shift)%nat) bit_shift)) in
  if negb (bit_shift =? 0) && (word_shift <? index)%nat
  then Z.lor w (Z.shiftr (old !!! (index - word_shift - 1)%nat) (WORD_BITS - bit_shift))
  else w.

Definition shift_left (old : list Z) (shift : Z) : list Z :=
  if REPLAY_WINDOW_SIZE <=? shift then replicate REPLAY_WORDS 0
  else
    let word_shift := Z.to_nat (shift / WORD_BITS) in
    let bit_shift := shift mod WORD_BITS in
    fold_left
      (fun bits index => alter (shift_word old word_shift bit_shift index) index bits)
      (rev (seq word_shift (REPLAY_WORDS - word_shift)))
      (replicate REPLAY_WORDS 0).

(** [ReplayWindow::accept]: the verdict and the window after it. *)
Definition accept (w : ReplayWindow) (sequence : Z) : bool * ReplayWindow :=
  match highest w with
  | None => (true, mkReplay (Some sequence) (<[0%nat := 1]> (bits w)))
  | Some h =>
      if h <? sequence then
        let shifted := shift_left (bits w) (sequence - h) in
        (true, mkReplay (Some sequence) (alter (fun x => Z.lor x 1) 0%nat shifted))
      else
        let distance := h - sequence in
        if REPLAY_WINDOW_SIZE <=? distance then (false, w)
        else
          let word := Z.to_nat (distance / WORD_BITS) in
          let bit := distance mod WORD_BITS in
          if negb (Z.land (bits w !!! word) (wrap 64 (Z.shiftl 1 bit)) =? 0)
          then (false, w)
          else (true, mkReplay (highest w)
                        (alter (fun x => Z.lor x (wrap 64 (Z.shiftl 1 bit))) word (bits w)))
  end.

(** The verdicts on a stream of sequence numbers. *)
Fixpoint accept_all (w : ReplayWindow) (seqs : list Z) : list bool * ReplayWindow :=
  match seqs with
  | [] => ([], w)
  | s :: rest =>
      let '(b, w') := accept w s in
      let '(bs, w'') := accept_all w' rest in (b :: bs, w'')
  end.

(** ** Specification: the set of accepted numbers, without a window *)

(** A number is fresh if it has not been accepted, and no accepted number is
    1024 or more ahead of it. *)
Definition spec_accept (seen : list Z) (s : Z) : bool :=
  forallb (fun x => x - s <? REPLAY_WINDOW_SIZE) seen && negb (bool_decide (s ∈ seen)).

Fixpoint spec_accept_all (seen : list Z) (seqs : list Z) : list bool :=
  match seqs with
  | [] => []
  | s :: rest =>
      let b := spec_accept seen s in
      b :: spec_accept_all (if b then s :: seen else seen) rest
  end.

(** ** The window as a bit vector *)

Definition window_bit (ws : list Z) (d : Z) : bool :=
  Z.testbit (ws !!! Z.to_nat (d / WORD_BITS)) (d mod WORD_BITS).

Definition words_ok (ws : list Z) : Prop :=
  length ws = REPLAY_WORDS /\ Forall (is_u 64) ws.

Lemma words_ok_lookup ws i : words_ok ws -> is_u 64 (ws !!! i).
Proof.
  intros [_ Hf]. rewrite list_lookup_total_alt. destruct (ws !! i) eqn:E; simpl.
  - by eapply Forall_lookup_1.
  - by_decide.
Qed.

Lemma words_ok_zero : words_ok (replicate REPLAY_WORDS 0).
Proof. split; [done|]. apply Forall_replicate. by_decide. Qed.

(** The words a loop of updates at distinct indices produces. *)
Lemma fold_alter_lookup {A} (f : nat -> A -> A) (ks : list nat) (l : list A) j :
  NoDup ks ->
  fold_left (fun b i => alter (f i) i b) ks l !! j =
  (if decide (j ∈ ks) then f j <$> l !! j else l !! j).
Proof.
  revert l; induction ks as [|i ks IH]; intros l Hnd; simpl; [done|].
  apply NoDup_cons in Hnd as [Hi Hnd]. rewrite IH by done.
  destruct (decide (j = i)) as [->|Hne].
  - rewrite decide_False by done. rewrite decide_True by left.
    by rewrite list_lookup_alter_eq.
  - rewrite list_lookup_alter_ne by done.
    destruct (decide (j ∈ ks)); [by rewrite decide_True by by right|].
    rewrite decide_False; [done|]. by rewrite not_elem_of_cons.
Qed.

Lemma shift_left_lookup old shift i :
  0 <= shift < REPLAY_WINDOW_SIZE -> (i < REPLAY_WORDS)%nat ->
  shift_left old shift !!! i =
  (if (Z.to_nat (shift / WORD_BITS) <=? i)%nat
   then shift_word old (Z.to_nat (shift / WORD_BITS)) (shift mod WORD_BITS) i 0 else 0).
Proof.
  intros Hs Hi. unfold shift_left.
  destruct (Z.leb_spec REPLAY_WINDOW_SIZE shift) as [?|_]; [lia|].
  rewrite list_lookup_total_alt, fold_alter_lookup
    by (apply NoDup_ListNoDup, NoDup_rev, seq_NoDup).
  rewrite lookup_replicate_2 by done.
  destruct (Nat.leb_spec (Z.to_nat (shift / WORD_BITS)) i).
  - rewrite decide_True; [done|]. apply list_elem_of_In, in_rev. rewrite rev_involutive.
    apply in_seq. lia.
  - rewrite decide_False; [done|]. intros Hin%list_elem_of_In.
    apply in_rev in Hin. apply in_seq in Hin. lia.
Qed.

Lemma length_shift_left old shift : length (shift_left old shift) = REPLAY_WORDS.
Proof.
  unfold shift_left. case_match; [done|].
  generalize (rev (seq (Z.to_nat (shift / WORD_BITS)) (REPLAY_WORDS - Z.to_nat (shift / WORD_BITS)))).
  assert (H0 : length (replicate REPLAY_WORDS 0) = REPLAY_WORDS) by done.
  revert H0. generalize (replicate REPLAY_WORDS 0). intros l H0 ks; revert l H0.
  induction ks as [|k ks IH]; intros l H0; simpl; [done|].
  apply IH. by rewrite length_alter.
Qed.

Lemma shift_word_ok old ws bs i :
  words_ok old -> 0 <= bs < WORD_BITS -> is_u 64 (shift_word old ws bs i 0).
Proof.
  intros Hold Hbs. unfold shift_word.
  assert (is_u 64 0) by by_decide.
  assert (is_u 64 (Z.lor 0 (wrap 64 (Z.shiftl (old !!! (i - ws)%nat) bs)))).
  { apply is_u_lor; [lia|done|]. apply wrap_is_u; lia. }
  case_match; [|done]. apply is_u_lor; [lia|done|].
  apply is_u_shiftr; [unfold WORD_BITS in *; lia|]. by apply words_ok_lookup.
Qed.

Lemma shift_left_ok old shift :
  words_ok old -> 0 <= shift -> words_ok (shift_left old shift).
Proof.
  intros Hold Hs. split; [apply length_shift_left|].
  apply Forall_lookup_2. intros i x Hx.
  assert (Hi : (i < REPLAY_WORDS)%nat).
  { rewrite <- (length_shift_left old shift). by eapply lookup_lt_Some. }
  replace x with (shift_left old shift !!! i)
    by (by apply list_lookup_total_correct).
  destruct (Z.lt_ge_cases shift REPLAY_WINDOW_SIZE).
  - rewrite shift_left_lookup by done. case_match; [|by_decide].
    apply shift_word_ok; [done|]. apply Z.mod_pos_bound. done.
  - unfold shift_left. destruct (Z.leb_spec REPLAY_WINDOW_SIZE shift); [|lia].
    apply words_ok_lookup, words_ok_zero.
Qed.

(** Bit [r] of word [i] after the shift, for [i] at or above the word shift. *)
Lemma shift_word_bit old ws bs i r :
  words_ok old -> 0 <= bs < WORD_BITS -> 0 <= r < WORD_BITS -> (ws <= i)%nat ->
  Z.testbit (shift_word old ws bs i 0) r =
  (if bs <=? r then Z.testbit (old !!! (i - ws)%nat) (r - bs)
   else (ws <? i)%nat && Z.testbit (old !!! (i - ws - 1)%nat) (r + WORD_BITS - bs)).
Proof.
  intros Hold Hbs Hr Hi. unfold shift_word, WORD_BITS in *. rewrite Z.lor_0_l.
  assert (Hhi : bs <= r -> Z.testbit (Z.shiftr (old !!! (i - ws - 1)%nat) (64 - bs)) r = false).
  { intros Hle. rewrite Z.shiftr_spec by lia.
    apply (testbit_high 64); [by apply words_ok_lookup | lia]. }
  destruct (Z.eqb_spec bs 0) as [->|Hne]; cbn [negb andb].
  - rewrite testbit_wrap_shiftl by lia. by destruct (Z.leb_spec 0 r); [|lia].
  - destruct (Nat.ltb_spec ws i); cbn [andb].
    + rewrite Z.lor_spec, testbit_wrap_shiftl by lia.
      destruct (Z.leb_spec bs r); cbn [andb orb].
      * rewrite Hhi by done. by rewrite orb_false_r.
      * rewrite Z.shiftr_spec by lia. f_equal. lia.
    + rewrite testbit_wrap_shiftl by lia. by destruct (Z.leb_spec bs r).
Qed.

(** The word-level shift is a shift of the 1024-bit vector. *)
Lemma shift_left_window_bit old shift d :
  words_ok old -> 0 <= shift -> 0 <= d < REPLAY_WINDOW_SIZE ->
  window_bit (shift_left old shift) d = (shift <=? d) && window_bit old (d - shift).
Proof.
  intros Hold Hs Hd. unfold window_bit.
  destruct (Z.lt_ge_cases shift REPLAY_WINDOW_SIZE) as [Hlt|Hge].
  2: { destruct (Z.leb_spec shift d); [lia|]. unfold shift_left.
       destruct (Z.leb_spec REPLAY_WINDOW_SIZE shift); [|lia].
       rewrite lookup_total_replicate_2; [apply Z.bits_0|].
       unfold REPLAY_WINDOW_SIZE, REPLAY_WORDS, WORD_BITS in *.
       Z.div_mod_to_equations; lia. }
  unfold REPLAY_WINDOW_SIZE in *.
  rewrite shift_left_lookup by
    (unfold REPLAY_WINDOW_SIZE, REPLAY_WORDS, WORD_BITS in *; Z.div_mod_to_equations; lia).
  destruct (Nat.leb_spec (Z.to_nat (shift / WORD_BITS)) (Z.to_nat (d / WORD_BITS))) as [Hle|Hgt].
  2: { destruct (Z.leb_spec shift d); [|apply Z.bits_0].
       unfold WORD_BITS in *; Z.div_mod_to_equations; lia. }
  rewrite shift_word_bit by (try apply Z.mod_pos_bound; done).
  unfold WORD_BITS in *.
  destruct (Z.leb_spec (shift mod 64) (d mod 64)), (Z.leb_spec shift d);
    cbn [andb]; try (Z.div_mod_to_equations; lia).
  - f_equal; [f_equal|]; Z.div_mod_to_equations; lia.
  - destruct (Nat.ltb_spec (Z.to_nat (shift / 64)) (Z.to_nat (d / 64)));
      [|Z.div_mod_to_equations; lia].
    cbn [andb]. f_equal; [f_equal|]; Z.div_mod_to_equations; lia.
  - destruct (Nat.ltb_spec (Z.to_nat (shift / 64)) (Z.to_nat (d / 64))); [|done].
    Z.div_mod_to_equations; lia.
Qed.

Lemma one_bit b : 0 <= b < 64 -> wrap 64 (Z.shiftl 1 b) = 2 ^ b.
Proof.
  intros Hb. rewrite Z.shiftl_1_l. apply wrap_small. unfold is_u.
  split; [lia|]. apply Z.pow_lt_mono_r; lia.
Qed.

Lemma land_one_bit x b :
  0 <= b < 64 -> negb (Z.land x (wrap 64 (Z.shiftl 1 b)) =? 0) = Z.testbit x b.
Proof.
  intros Hb. rewrite one_bit by done.
  assert (E : Z.land x (2 ^ b) = if Z.testbit x b then 2 ^ b else 0).
  { apply Z.bits_inj'. intros j Hj. rewrite Z.land_spec, Z.pow2_bits_eqb by lia.
    destruct (Z.eqb_spec b j) as [->|Hne].
    - destruct (Z.testbit x j) eqn:Hx; cbn [andb]; rewrite ?Z.pow2_bits_true, ?Z.bits_0 by lia; done.
    - rewrite andb_false_r. destruct (Z.testbit x b); rewrite ?Z.bits_0, ?Z.pow2_bits_false by lia; done. }
  rewrite E. destruct (Z.testbit x b); [|done].
  destruct (Z.eqb_spec (2 ^ b) 0); [|done]. pose proof (Z.pow_pos_nonneg 2 b). lia.
Qed.

(** Setting the bit of one distance. *)
Lemma set_window_bit ws k d :
  words_ok ws -> 0 <= k < REPLAY_WINDOW_SIZE -> 0 <= d ->
  window_bit (alter (fun x => Z.lor x (wrap 64 (Z.shiftl 1 (k mod WORD_BITS))))
                (Z.to_nat (k / WORD_BITS)) ws) d
  = (d =? k) || window_bit ws d.
Proof.
  intros [Hl Hf] Hk Hd. unfold window_bit.
  assert (Hkl : (Z.to_nat (k / WORD_BITS) < length ws)%nat).
  { rewrite Hl. unfold REPLAY_WINDOW_SIZE, REPLAY_WORDS, WORD_BITS in *.
    Z.div_mod_to_equations; lia. }
  rewrite one_bit by (apply Z.mod_pos_bound; done).
  rewrite list_lookup_total_alt.
  destruct (decide (Z.to_nat (d / WORD_BITS) = Z.to_nat (k / WORD_BITS))) as [He|He].
  - rewrite He, list_lookup_alter_eq.
    apply lookup_lt_is_Some in Hkl as [x Hx].
    rewrite Hx, (list_lookup_total_correct _ _ _ Hx). cbn.
    rewrite Z.lor_spec, Z.pow2_bits_eqb by (apply Z.mod_pos_bound; done).
    rewrite orb_comm. f_equal. unfold WORD_BITS in *.
    destruct (Z.eqb_spec (k mod 64) (d mod 64)), (Z.eqb_spec d k); try done;
      Z.div_mod_to_equations; lia.
  - rewrite list_lookup_alter_ne by done. rewrite <- list_lookup_total_alt.
    destruct (Z.eqb_spec d k) as [->|]; done.
Qed.

Lemma words_ok_alter_bit ws i b :
  words_ok ws -> words_ok (alter (fun x => Z.lor x (wrap 64 (Z.shiftl 1 b))) i ws).
Proof.
  intros [Hl Hf]. split; [by rewrite length_alter|].
  apply Forall_alter; [done|]. intros x _ Hx.
  apply is_u_lor; [lia|done|]. apply wrap_is_u; lia.
Qed.

(** The concrete window represents the numbers accepted so far. *)
Definition represents (w : ReplayWindow) (seen : list Z) : Prop :=
  words_ok (bits w) /\
  match highest w with
  | None => seen = [] /\ bits w = replicate REPLAY_WORDS 0
  | Some h => h ∈ seen /\ (forall s, s ∈ seen -> 0 <= s <= h)
              /\ (forall d, 0 <= d < REPLAY_WINDOW_SIZE ->
                    window_bit (bits w) d = bool_decide (h - d ∈ seen))
  end.

Lemma represents_default : represents ReplayWindow_default [].
Proof. split; [apply words_ok_zero | done]. Qed.

(** The specification's age test only looks at the newest accepted number. *)
Lemma spec_accept_highest h seen s :
  h ∈ seen -> (forall x, x ∈ seen -> 0 <= x <= h) ->
  spec_accept seen s = (h - s <? REPLAY_WINDOW_SIZE) && negb (bool_decide (s ∈ seen)).
Proof.
  intros Hin Hmax. unfold spec_accept. f_equal.
  apply eq_true_iff_eq. rewrite forallb_forall, Z.ltb_lt. split.
  - intros H. apply Z.ltb_lt, H. by apply list_elem_of_In.
  - intros H x Hx%list_elem_of_In. apply Z.ltb_lt. specialize (Hmax _ Hx). lia.
Qed.

Lemma accept_first w s :
  words_ok (bits w) -> bits w = replicate REPLAY_WORDS 0 -> 0 <= s ->
  represents (mkReplay (Some s) (<[0%nat := 1]> (bits w))) [s].
Proof.
  intros Hok Hz Hs.
  assert (E : <[0%nat := 1]> (bits w)
            = alter (fun x => Z.lor x (wrap 64 (Z.shiftl 1 (0 mod WORD_BITS))))
                (Z.to_nat (0 / WORD_BITS)) (bits w)) by (by rewrite Hz).
  rewrite E. split; [by apply words_ok_alter_bit|]. cbn [highest bits]. split_and!.
  - by left.
  - intros x ->%list_elem_of_singleton. lia.
  - intros d Hd. rewrite set_window_bit by (done || lia).
    replace (window_bit (bits w) d) with false.
    + rewrite orb_false_r. apply eq_true_iff_eq.
      rewrite Z.eqb_eq, bool_decide_eq_true, list_elem_of_singleton. lia.
    + rewrite Hz. unfold window_bit. rewrite lookup_total_replicate_2; [by rewrite Z.bits_0|].
      unfold REPLAY_WINDOW_SIZE, REPLAY_WORDS, WORD_BITS in *. Z.div_mod_to_equations; lia.
Qed.

Lemma accept_newer w h seen s :
  represents w seen -> highest w = Some h -> h < s ->
  represents (mkReplay (Some s)
     (alter (fun x => Z.lor x 1) 0%nat (shift_left (bits w) (s - h)))) (s :: seen).
Proof.
  intros [Hok Hr] Hh Hs. rewrite Hh in Hr. destruct Hr as (Hin & Hmax & Hbits).
  pose proof (shift_left_ok (bits w) (s - h) Hok) as Hok'. specialize (Hok' ltac:(lia)).
  change (fun x => Z.lor x 1) with
    (fun x => Z.lor x (wrap 64 (Z.shiftl 1 (0 mod WORD_BITS)))).
  change (alter ?f 0%nat ?l) with (alter f (Z.to_nat (0 / WORD_BITS)) l).
  split; [by apply words_ok_alter_bit|]. cbn [highest bits]. split_and!.
  - by left.
  - intros x [->|Hx]%elem_of_cons; [pose proof (Hmax _ Hin)|pose proof (Hmax _ Hx)]; lia.
  - intros d Hd. rewrite set_window_bit by (done || lia).
    rewrite shift_left_window_bit by (done || lia).
    apply eq_true_iff_eq. rewrite bool_decide_eq_true, elem_of_cons, orb_true_iff, andb_true_iff.
    rewrite Z.eqb_eq, Z.leb_le. split.
    + intros [->|[Hle Hb]]; [left; lia|right].
      rewrite Hbits in Hb by lia. apply bool_decide_eq_true in Hb.
      by replace (s - d) with (h - (d - (s - h))) by lia.
    + intros [?|Hx]; [left; lia|]. right. pose proof (Hmax _ Hx). split; [lia|].
      rewrite Hbits by lia. apply bool_decide_eq_true.
      by replace (h - (d - (s - h))) with (s - d) by lia.
Qed.

(** One step: the window's verdict is the specification's, and the window after
    it represents the numbers accepted after it. *)
Lemma accept_refines w seen s :
  represents w seen -> 0 <= s ->
  fst (accept w s) = spec_accept seen s
  /\ represents (snd (accept w s)) (if spec_accept seen s then s :: seen else seen).
Proof.
  intros Hrep Hs. pose proof Hrep as [Hok Hr]. unfold accept.
  destruct (highest w) as [h|] eqn:Hh.
  2: { destruct Hr as [-> Hz]. cbn. split; [done|]. by apply accept_first. }
  pose proof Hr as (Hin & Hmax & Hbits). rewrite (spec_accept_highest h) by done.
  destruct (Z.ltb_spec h s) as [Hgt|Hle].
  { cbn [fst snd]. assert (Hn : s ∉ seen) by (intros Hx; specialize (Hmax _ Hx); lia).
    rewrite bool_decide_eq_false_2 by done.
    destruct (Z.ltb_spec (h - s) REPLAY_WINDOW_SIZE); [|unfold REPLAY_WINDOW_SIZE in *; lia].
    split; [done|]. by apply (accept_newer w h). }
  destruct (Z.leb_spec REPLAY_WINDOW_SIZE (h - s)) as [Hold|Hnew].
  { destruct (Z.ltb_spec (h - s) REPLAY_WINDOW_SIZE); [lia|]. done. }
  destruct (Z.ltb_spec (h - s) REPLAY_WINDOW_SIZE); [|lia].
  rewrite land_one_bit by (apply Z.mod_pos_bound; done).
  change (Z.testbit _ _) with (window_bit (bits w) (h - s)).
  rewrite Hbits by lia. replace (h - (h - s)) with s by lia.
  destruct (bool_decide (s ∈ seen)) eqn:Hd; cbn [andb negb fst snd]; [done|].
  split; [done|]. split; [by apply words_ok_alter_bit|]. cbn [highest bits].
  apply bool_decide_eq_false in Hd. split_and!.
  - by right.
  - intros x [->|Hx]%elem_of_cons; [lia|by apply Hmax].
  - intros d Hd'. rewrite set_window_bit, Hbits by (done || lia).
    apply eq_true_iff_eq. rewrite orb_true_iff, !bool_decide_eq_true, elem_of_cons, Z.eqb_eq.
    split; (intros [?|?]; [left; lia | by right]).
Qed.

Lemma accept_all_refines w seen seqs :
  represents w seen -> Forall (fun s => 0 <= s) seqs ->
  fst (accept_all w seqs) = spec_accept_all seen seqs.
Proof.
  revert w seen; induction seqs as [|s seqs IH]; intros w seen Hrep Hf; [done|].
  apply Forall_cons in Hf as [Hs Hf]. cbn [accept_all spec_accept_all].
  destruct (accept_refines w seen s Hrep Hs) as [Hv Hrep'].
  destruct (accept w s) as [b w']; cbn [fst snd] in *. subst b.
  specialize (IH _ _ Hrep' Hf). destruct (accept_all w' seqs); cbn [fst] in *. by rewrite IH.
Qed.

(** The numbers a list of verdicts lets through. *)
Definition accepted (seqs : list Z) (verdicts : list bool) : list Z :=
  map fst (List.filter snd (zip seqs verdicts)).

Lemma spec_accepted_fresh seen seqs :
  NoDup (accepted seqs (spec_accept_all seen seqs))
  /\ forall s, s ∈ accepted seqs (spec_accept_all seen seqs) -> s ∉ seen.
Proof.
  revert seen; induction seqs as [|s seqs IH]; intros seen; cbn.
  { split; [constructor | by intros ? ?%elem_of_nil]. }
  destruct (spec_accept seen s) eqn:Hs; [|apply IH].
  specialize (IH (s :: seen)) as [IHn IHf]. unfold accepted in *. cbn. split.
  - constructor; [|done]. intros Hin. apply (IHf s Hin). by left.
  - intros x [->|Hx]%elem_of_cons.
    + unfold spec_accept in Hs. unbool. done.
    + intros Hin. apply (IHf x Hx). by right.
Qed.

(** ** The theorems on the window *)

(** C33: on every stream of sequence numbers the 1024-bit window gives the same
    verdicts as the unbounded list of accepted numbers: a number is accepted iff
    it was not accepted before and no accepted number is 1024 or more ahead. *)
Theorem replay_window_refines seqs :
  Forall (is_u 64) seqs ->
  fst (accept_all ReplayWindow_default seqs) = spec_accept_all [] seqs.
Proof.
  intros H. apply accept_all_refines; [apply represents_default|].
  eapply Forall_impl; [exact H|]. unfold is_u. intros; cbn in *; lia.
Qed.

(** no sequence number is ever accepted twice. *)
Theorem replay_never_repeats seqs :
  Forall (is_u 64) seqs ->
  NoDup (accepted seqs (fst (accept_all ReplayWindow_default seqs))).
Proof.
  intros H. rewrite accept_all_refines with (seen := []).
  - apply spec_accepted_fresh.
  - apply represents_default.
  - eapply Forall_impl; [exact H|]. unfold is_u. intros; cbn in *; lia.
Qed.

Definition sample_seqs : list Z := [100; 98; 101; 98; 1124; 99; 101; 102].

Lemma replay_window_refines_witness :
  fst (accept_all ReplayWindow_default sample_seqs)
  = [true; true; true; false; true; false; false; true].
Proof.
  rewrite (replay_window_refines sample_seqs); [vm_compute; reflexivity | by_decide].
Defined.

Lemma replay_never_repeats_witness :
  NoDup (accepted sample_seqs (fst (accept_all ReplayWindow_default sample_seqs))).
Proof. apply (replay_never_repeats sample_seqs). by_decide. Defined.
