(* ===== verification/Path.v ===== *)
(** * Path state of a session

    Path MTU discovery ([PathMtuState], [next_mtu_probe]) and path migration
    ([PendingPathMigration], [confirm_path_migration]) of
    [vela-core/src/lib.rs].  An [Instant] is a number of nanoseconds;
    [duration_since] saturates at zero.  The nonce of a probe is drawn from the
    operating system, so it is an argument. *)
From S2P Require Import Prelude Net.

Definition DEFAULT_VIRTUAL_MTU : Z := 1190.
Definition DEFAULT_MAX_VIRTUAL_MTU : Z := 1430.
Definition MTU_PROBE_NONCE_LEN : nat := 16.
Definition MTU_PROBE_INTERVAL : Z := 200 * 10 ^ 6.
Definition MTU_PROBE_TIMEOUT : Z := 500 * 10 ^ 6.
Definition MTU_PROBE_STEP : Z := 64.
Definition MTU_PROBE_MAX_FAILURES : Z := 3.
Definition MTU_PROBE_MIN_GAIN : Z := 8.
Definition PATH_MIGRATION_CONFIRMATIONS : Z := 3.
Definition PATH_MIGRATION_WINDOW : Z := 2 * 10 ^ 9.

Definition duration_since (now earlier : Z) : Z := sat_sub now earlier.

(** ** Path MTU discovery *)

Record PendingMtuProbe : Type := mkProbe {
  target : Z;
  nonce : bytes;
  sent_at : Z;
  failures : Z
}.

Record PathMtuState : Type := mkMtu {
  confirmed : Z;
  upper : Z;
  next : option Z;
  pending : option PendingMtuProbe
}.

Definition PathMtuState_new (base maximum : Z) : PathMtuState :=
  let base := Z.min base maximum in
  mkMtu base maximum
    (if base <? maximum then Some (Z.min (base + MTU_PROBE_STEP) maximum) else None)
    None.

Definition PathMtuState_reset (st : PathMtuState) (base maximum : Z) : bool * PathMtuState :=
  let st' := PathMtuState_new base maximum in
  (negb (confirmed st' =? confirmed st), st').

Definition next_mtu_probe (confirmed upper : Z) : option Z :=
  if upper <=? confirmed + MTU_PROBE_MIN_GAIN then None
  else
    let midpoint := confirmed + (upper - confirmed) / 2 in
    if confirmed <? midpoint then Some midpoint else None.

(** The tail of [poll_probe]: take [next] and send a fresh probe. *)
Definition start_probe (st : PathMtuState) (now : Z) (fresh : bytes)
    : option (Z * bytes) * PathMtuState :=
  match next st with
  | None => (None, st)
  | Some t => (Some (t, fresh),
               mkMtu (confirmed st) (upper st) None (Some (mkProbe t fresh now 0)))
  end.

Definition poll_probe (st : PathMtuState) (now : Z) (fresh : bytes)
    : option (Z * bytes) * PathMtuState :=
  match pending st with
  | Some p =>
      if duration_since now (sent_at p) <? MTU_PROBE_TIMEOUT then (None, st)
      else if failures p + 1 <? MTU_PROBE_MAX_FAILURES then
        (Some (target p, nonce p),
         mkMtu (confirmed st) (upper st) (next st)
           (Some (mkProbe (target p) (nonce p) now (failures p + 1))))
      else
        let upper' := Z.min (upper st) (sat_sub (target p) 1) in
        start_probe
          (mkMtu (confirmed st) upper' (next_mtu_probe (confirmed st) upper') None)
          now fresh
  | None => start_probe st now fresh
  end.

Definition acknowledge (st : PathMtuState) (n : bytes) (peer_max_mtu : Z)
    : option Z * PathMtuState :=
  match pending st with
  | None => (None, st)
  | Some p =>
      if negb (bool_decide (n = nonce p)) then (None, st)
      else
        let previous := confirmed st in
        let st' :=
          if peer_max_mtu <? target p then
            let upper' := Z.min (upper st) peer_max_mtu in
            mkMtu (Z.min peer_max_mtu upper') upper' None None
          else
            let confirmed' := Z.max (confirmed st) (target p) in
            mkMtu confirmed' (upper st)
              (if confirmed' <? upper st
               then Some (Z.min (confirmed' + MTU_PROBE_STEP) (upper st)) else None)
              None in
        ((if negb (confirmed st' =? previous) then Some (confirmed st') else None), st')
  end.

(** [Inner::safe_virtual_mtu] *)
Definition safe_virtual_mtu (virtual_mtu : Z) : Z := Z.min virtual_mtu DEFAULT_VIRTUAL_MTU.

(** [VelaNode::effective_virtual_mtu] over the sessions of the peers that have one. *)
Definition effective_virtual_mtu (virtual_mtu : Z) (sessions : list PathMtuState) : Z :=
  match fold_left
          (fun acc st => Some (match acc with
                               | None => confirmed st
                               | Some m => Z.min m (confirmed st)
                               end)) sessions None with
  | Some m => m
  | None => safe_virtual_mtu virtual_mtu
  end.

(** ** Path migration *)

Record PendingPathMigration : Type := mkMigration {
  mig_path : SocketAddr;
  confirmations : Z;
  last_seen : Z
}.

(** The verdict and the new value of [pending_path]. *)
Definition confirm_path_migration (current_path : SocketAddr)
    (pending_path : option PendingPathMigration) (source : SocketAddr) (now : Z)
    : bool * option PendingPathMigration :=
  if bool_decide (source = current_path) then (false, pending_path)
  else
    let fresh := mkMigration source 1 now in
    let pending' :=
      match pending_path with
      | Some p =>
          if bool_decide (mig_path p = source)
             && (duration_since now (last_seen p) <=? PATH_MIGRATION_WINDOW)
          then mkMigration (mig_path p) (Z.min (confirmations p + 1) U8_MAX) now
          else fresh
      | None => fresh
      end in
    if confirmations pending' <? PATH_MIGRATION_CONFIRMATIONS
    then (false, Some pending') else (true, None).

(** [ActiveSession::observe_data_source] on the two fields it touches. *)
Definition observe_data_source (path : SocketAddr)
    (pending_path : option PendingPathMigration) (source : SocketAddr) (now : Z)
    : bool * (SocketAddr * option PendingPathMigration) :=
  let '(migrate, pending') := confirm_path_migration path pending_path source now in
  if migrate then (true, (source, pending')) else (false, (path, pending')).

(** ** Discovery against a path

    One tick of [mtu_loop] for a session whose path carries probes of up to
    [capacity] bytes and whose peer runs with [peer_mtu]: the probe is skipped
    when it cannot hold its nonce, and a probe that gets through is answered by
    the peer's [MtuProbe] branch of [handle_data]. *)
Definition mtu_ack_value (peer_mtu : Z) : Z := Z.min peer_mtu U16_MAX.

Definition mtu_tick (capacity peer_mtu : Z) (st : PathMtuState) (now : Z) (fresh : bytes)
    : PathMtuState :=
  let '(sent, st1) := poll_probe st now fresh in
  match sent with
  | None => st1
  | Some (t, n) =>
      if t <? Z.of_nat MTU_PROBE_NONCE_LEN then st1
      else if t <=? capacity then snd (acknowledge st1 n (mtu_ack_value peer_mtu))
      else st1
  end.

Fixpoint mtu_ticks (ticks : nat) (capacity peer_mtu : Z) (fresh : Z -> bytes)
    (st : PathMtuState) (now : Z) : PathMtuState :=
  match ticks with
  | O => st
  | S k => mtu_ticks k capacity peer_mtu fresh
             (mtu_tick capacity peer_mtu st now (fresh now)) (now + MTU_PROBE_INTERVAL)
  end.

(** ** Invariant of the discovery state *)

(** Bounds on the fields of a state, constants unfolded. *)
Ltac mtu_bounds :=
  split_and!; intros; simplify_eq/=; split_and?;
  unfold MTU_PROBE_MAX_FAILURES, MTU_PROBE_STEP, MTU_PROBE_MIN_GAIN, MTU_PROBE_INTERVAL,
    MTU_PROBE_TIMEOUT in *;
  first [done | lia | Z.div_mod_to_equations; lia].

Definition mtu_inv (maximum : Z) (st : PathMtuState) : Prop :=
  0 <= confirmed st <= upper st /\ upper st <= maximum
  /\ (forall t, next st = Some t -> confirmed st < t <= upper st)
  /\ (forall p, pending st = Some p ->
        confirmed st < target p <= upper st /\ next st = None
        /\ 0 <= failures p < MTU_PROBE_MAX_FAILURES).

Lemma next_mtu_probe_bounds c u t :
  next_mtu_probe c u = Some t -> c < t <= u /\ c + MTU_PROBE_MIN_GAIN < u.
Proof.
  unfold next_mtu_probe, MTU_PROBE_MIN_GAIN. intros H. repeat case_match; simplify_eq. unbool.
  split; [|lia]. Z.div_mod_to_equations; lia.
Qed.

Lemma next_mtu_probe_None c u :
  next_mtu_probe c u = None <-> u <= c + MTU_PROBE_MIN_GAIN.
Proof.
  unfold next_mtu_probe, MTU_PROBE_MIN_GAIN.
  destruct (Z.leb_spec u (c + 8)); [split; [lia|done]|].
  destruct (Z.ltb_spec c (c + (u - c) / 2)); [split; [done|lia]|].
  Z.div_mod_to_equations; lia.
Qed.

Lemma mtu_new_inv base maximum :
  0 <= base -> 0 <= maximum -> mtu_inv maximum (PathMtuState_new base maximum).
Proof.
  intros Hb Hm. unfold mtu_inv, PathMtuState_new, MTU_PROBE_STEP; cbn.
  split_and!; try lia; [|done].
  intros t Ht. case_match; simplify_eq. unbool. lia.
Qed.

Lemma start_probe_inv maximum st now fresh :
  mtu_inv maximum st -> pending st = None ->
  mtu_inv maximum (snd (start_probe st now fresh)).
Proof.
  intros Hinv Hnone. pose proof Hinv as (Hc & Hu & Hn & Hp). unfold start_probe.
  destruct (next st) as [t|] eqn:E; [|done].
  unfold mtu_inv; cbn. specialize (Hn t eq_refl).
  mtu_bounds.
Qed.

Lemma mtu_inv_fail maximum st p :
  mtu_inv maximum st -> pending st = Some p ->
  let u := Z.min (upper st) (sat_sub (target p) 1) in
  mtu_inv maximum (mkMtu (confirmed st) u (next_mtu_probe (confirmed st) u) None)
  /\ u = target p - 1.
Proof.
  intros (Hc & Hu & Hn & Hp) Hpend. destruct (Hp p Hpend) as (Ht & _ & _).
  unfold mtu_inv, sat_sub; cbn. split; [|lia]. split_and!; try lia; [|done].
  intros t Hnext. apply next_mtu_probe_bounds in Hnext. lia.
Qed.

(** Polling keeps the discovery state consistent: the confirmed MTU never
    exceeds the upper bound, the upper bound never exceeds the configured
    maximum, an outstanding or planned probe lies strictly above the confirmed
    MTU and within the bound, and a probe is retried fewer than three times. *)
Lemma poll_probe_inv maximum st now fresh :
  mtu_inv maximum st -> mtu_inv maximum (snd (poll_probe st now fresh)).
Proof.
  intros Hinv. pose proof Hinv as (Hc & Hu & Hn & Hp). unfold poll_probe.
  destruct (pending st) as [p|] eqn:Hpend; [|by apply start_probe_inv].
  destruct (duration_since now (sent_at p) <? MTU_PROBE_TIMEOUT); [done|].
  destruct (Hp p eq_refl) as (Ht & Hnn & Hf).
  destruct (Z.ltb_spec (failures p + 1) MTU_PROBE_MAX_FAILURES).
  - unfold mtu_inv; cbn. mtu_bounds.
  - apply start_probe_inv; [|done]. by apply mtu_inv_fail.
Qed.

Lemma acknowledge_inv_aux maximum st n m :
  0 <= m -> mtu_inv maximum st -> mtu_inv maximum (snd (acknowledge st n m)).
Proof.
  intros Hm Hinv. pose proof Hinv as (Hc & Hu & Hn & Hp). unfold acknowledge.
  destruct (pending st) as [p|] eqn:Hpend; [|done].
  destruct (negb (bool_decide (n = nonce p))); [done|]. cbn [snd].
  destruct (Hp p eq_refl) as (Ht & Hnn & Hf).
  destruct (Z.ltb_spec m (target p)); unfold mtu_inv, MTU_PROBE_STEP in *; cbn.
  - split_and!; try lia; done.
  - split_and!; try lia; [|done]. intros t Hnext. case_match; simplify_eq. unbool. lia.
Qed.

(** ** Convergence *)

(** What the discovery knows after some ticks: the confirmed MTU works, the
    bound has not excluded a working MTU, and when it stops it is within
    [MTU_PROBE_MIN_GAIN] of the best working MTU. *)
Definition mtu_goal (capacity peer_mtu maximum : Z) : Z :=
  Z.min (Z.min capacity (mtu_ack_value peer_mtu)) maximum.

Definition mtu_run_inv (capacity peer_mtu maximum : Z) (st : PathMtuState) (now : Z) : Prop :=
  mtu_inv maximum st
  /\ confirmed st <= mtu_goal capacity peer_mtu maximum <= upper st
  /\ (forall p, pending st = Some p ->
        capacity < target p /\ sent_at p + MTU_PROBE_INTERVAL <= now)
  /\ (pending st = None -> next st = None ->
        mtu_goal capacity peer_mtu maximum - MTU_PROBE_MIN_GAIN <= confirmed st)
  /\ (confirmed st < upper st -> Z.of_nat MTU_PROBE_NONCE_LEN <= confirmed st).

(** The number of ticks still to come is at most this. *)
Definition mtu_potential (st : PathMtuState) (now : Z) : Z :=
  20 * (upper st - confirmed st)
  + match pending st, next st with
    | Some p, _ => 4 * (2 - failures p)
                   + (3 - Z.min 3 ((now - sent_at p) / MTU_PROBE_INTERVAL))
    | None, Some _ => 12
    | None, None => 0
    end.

Definition mtu_done (st : PathMtuState) : Prop := pending st = None /\ next st = None.

(** What a tick does with the outcome of the poll. *)
Definition mtu_settle (capacity peer_mtu : Z) (r : option (Z * bytes) * PathMtuState)
    : PathMtuState :=
  match fst r with
  | None => snd r
  | Some (t, n) =>
      if t <? Z.of_nat MTU_PROBE_NONCE_LEN then snd r
      else if t <=? capacity then snd (acknowledge (snd r) n (mtu_ack_value peer_mtu))
      else snd r
  end.

Lemma mtu_tick_settle capacity peer_mtu st now fresh :
  mtu_tick capacity peer_mtu st now fresh
  = mtu_settle capacity peer_mtu (poll_probe st now fresh).
Proof. unfold mtu_tick, mtu_settle. by destruct (poll_probe st now fresh) as [[[]|] ]. Qed.

Lemma one_interval now : (now + MTU_PROBE_INTERVAL - now) / MTU_PROBE_INTERVAL = 1.
Proof. by replace (now + MTU_PROBE_INTERVAL - now) with MTU_PROBE_INTERVAL by lia. Qed.

Section Convergence.
Context (capacity peer_mtu maximum : Z).
Hypothesis Hpeer : 0 <= peer_mtu.
Hypothesis Hcap : 0 <= capacity.

Lemma start_settle st now fresh :
  mtu_run_inv capacity peer_mtu maximum st now -> pending st = None ->
  let st' := mtu_settle capacity peer_mtu (start_probe st now fresh) in
  mtu_run_inv capacity peer_mtu maximum st' (now + MTU_PROBE_INTERVAL)
  /\ (next st = None -> st' = st)
  /\ mtu_potential st' (now + MTU_PROBE_INTERVAL)
     <= 20 * (upper st - confirmed st) + (match next st with Some _ => 10 | None => 0 end).
Proof.
  intros (Hinv & Hgoal & Hpend & Hstop & Hbig) Hnone; cbn zeta.
  unfold start_probe. destruct (next st) as [t|] eqn:Hnext; unfold mtu_settle; cbn [fst snd].
  2: { split_and!; [|done|unfold mtu_potential; rewrite Hnone, Hnext; lia].
       unfold mtu_run_inv. rewrite Hnone, Hnext in *. split_and!; done || lia. }
  pose proof Hinv as (Hc & Hu & Hn & _). specialize (Hn t Hnext).
  specialize (Hbig ltac:(lia)).
  destruct (Z.ltb_spec t (Z.of_nat MTU_PROBE_NONCE_LEN)) as [?|_]; [lia|].
  set (m := mtu_ack_value peer_mtu).
  assert (Hm : 0 <= m) by (unfold m, mtu_ack_value, U16_MAX; lia).
  unfold mtu_goal in *. fold m in Hgoal, Hstop |- *.
  destruct (Z.leb_spec t capacity) as [Hok|Hlost].
  - unfold acknowledge; cbn [pending nonce target confirmed upper]. rewrite bool_decide_eq_true_2 by done.
    cbn [negb snd]. unfold mtu_run_inv, mtu_inv, mtu_potential, mtu_goal, MTU_PROBE_STEP, MTU_PROBE_MIN_GAIN. fold m.
    destruct (Z.ltb_spec m t) as [Hlt|Hge]; cbn.
    + mtu_bounds.
    + destruct (Z.ltb_spec (Z.max (confirmed st) t) (upper st)); cbn; mtu_bounds.
  - unfold mtu_run_inv, mtu_inv, mtu_potential, mtu_goal; cbn. fold m.
    rewrite one_interval.
    mtu_bounds.
Qed.

Lemma mtu_tick_progress st now fresh :
  mtu_run_inv capacity peer_mtu maximum st now ->
  let st' := mtu_tick capacity peer_mtu st now fresh in
  mtu_run_inv capacity peer_mtu maximum st' (now + MTU_PROBE_INTERVAL)
  /\ (mtu_done st -> st' = st)
  /\ (~ mtu_done st ->
      mtu_potential st' (now + MTU_PROBE_INTERVAL) < mtu_potential st now).
Proof.
  intros Hrun. rewrite mtu_tick_settle. cbn zeta. unfold poll_probe, mtu_done.
  destruct (pending st) as [p|] eqn:Hpend.
  2: { destruct (start_settle st now fresh Hrun Hpend) as (Hr & Hsame & Hpot).
       split_and!; [done | by intros [_ ?]; auto |].
       intros Hnd. unfold mtu_potential at 2. rewrite Hpend.
       destruct (next st); [lia | by exfalso; apply Hnd]. }
  pose proof Hrun as (Hinv & Hgoal & Hlost & Hstop & Hbig).
  destruct (Hlost p Hpend) as [Ht Hsent].
  pose proof Hinv as (Hc & Hu & Hn & Hp). destruct (Hp p Hpend) as (Htb & Hnn & Hf).
  unfold duration_since, sat_sub.
  destruct (Z.ltb_spec (Z.max 0 (now - sent_at p)) MTU_PROBE_TIMEOUT) as [Hwait|Hlate].
  { unfold mtu_settle; cbn [fst snd]. split_and!; [|by intros [? _]|].
    - unfold mtu_run_inv. split_and!; try done; try lia.
      intros q Hq. destruct (Hlost q Hq). unfold MTU_PROBE_INTERVAL in *. lia.
    - intros _. unfold mtu_potential. rewrite Hpend.
      unfold MTU_PROBE_INTERVAL, MTU_PROBE_TIMEOUT in *. Z.div_mod_to_equations; lia. }
  destruct (Z.ltb_spec (failures p + 1) MTU_PROBE_MAX_FAILURES) as [Hretry|Hfail].
  - unfold mtu_settle; cbn [fst snd].
    assert (Hsettle : forall x : PathMtuState,
      (if target p <? Z.of_nat MTU_PROBE_NONCE_LEN then x
       else if target p <=? capacity
            then snd (acknowledge x (nonce p) (mtu_ack_value peer_mtu)) else x) = x).
    { intros x. destruct (Z.leb_spec (target p) capacity); [lia|]. by case_match. }
    rewrite Hsettle. split_and!; [|by intros [? _]|intros _].
    + unfold mtu_run_inv, mtu_inv; cbn. mtu_bounds.
    + unfold mtu_potential; cbn -[MTU_PROBE_INTERVAL]. rewrite Hpend, one_interval. lia.
  - destruct (mtu_inv_fail maximum st p Hinv Hpend) as [Hinv' Hup].
    match goal with |- context [start_probe ?s now fresh] => set (s' := s) in * end.
    assert (Hrun' : mtu_run_inv capacity peer_mtu maximum s' now).
    { unfold mtu_run_inv, mtu_goal in *. cbn [confirmed upper pending next s'].
      split_and!; try done; try lia. intros _ Hnone.
      apply next_mtu_probe_None in Hnone. lia. }
    destruct (start_settle s' now fresh Hrun' eq_refl) as (Hr & _ & Hpot).
    split_and!; [done | by intros [? _] | intros _].
    eapply Z.le_lt_trans; [exact Hpot|]. unfold mtu_potential. rewrite Hpend.
    cbn [confirmed upper s'].
    unfold MTU_PROBE_MAX_FAILURES, sat_sub in *. destruct (next s'); lia.
Qed.

Lemma mtu_potential_nonneg st now :
  mtu_run_inv capacity peer_mtu maximum st now -> 0 <= mtu_potential st now.
Proof.
  intros ((Hc & Hu & Hn & Hp) & _). unfold mtu_potential.
  destruct (pending st) as [p|] eqn:E.
  - destruct (Hp p eq_refl) as (? & ? & ?). unfold MTU_PROBE_MAX_FAILURES in *; lia.
  - destruct (next st); lia.
Qed.

Lemma mtu_done_stable ticks fresh st now :
  mtu_done st -> mtu_ticks ticks capacity peer_mtu fresh st now = st.
Proof.
  intros [Hp Hn]. revert now; induction ticks as [|k IH]; intros now; cbn; [done|].
  replace (mtu_tick _ _ _ _ _) with st; [apply IH|].
  unfold mtu_tick, poll_probe, start_probe. by rewrite Hp, Hn.
Qed.

Lemma mtu_ticks_converge ticks fresh st now :
  mtu_run_inv capacity peer_mtu maximum st now ->
  mtu_potential st now <= Z.of_nat ticks ->
  let st' := mtu_ticks ticks capacity peer_mtu fresh st now in
  mtu_done st' /\ exists now', mtu_run_inv capacity peer_mtu maximum st' now'.
Proof.
  revert st now; induction ticks as [|k IH]; intros st now Hrun Hpot; cbn zeta.
  - cbn. split; [|by eexists]. pose proof Hrun as ((Hc & Hu & Hn & Hp) & _).
    unfold mtu_potential in Hpot. destruct (pending st) as [p|] eqn:E.
    + destruct (Hp p eq_refl) as (? & ? & ?).
      unfold MTU_PROBE_MAX_FAILURES in *. lia.
    + destruct (next st) eqn:E'; [lia|]. by split.
  - assert (Hdec : mtu_done st \/ ~ mtu_done st).
    { unfold mtu_done. destruct (pending st), (next st); [right; by intros []..|by left]. }
    destruct Hdec as [Hd|Hd].
    + rewrite mtu_done_stable by done. by eauto.
    + destruct (mtu_tick_progress st now (fresh now) Hrun) as (Hrun' & _ & Hless).
      apply IH; [done|]. specialize (Hless Hd). lia.
Qed.
End Convergence.

Lemma mtu_new_run_inv capacity peer_mtu maximum base now :
  Z.of_nat MTU_PROBE_NONCE_LEN <= base <= maximum ->
  base <= capacity -> base <= mtu_ack_value peer_mtu ->
  mtu_run_inv capacity peer_mtu maximum (PathMtuState_new base maximum) now.
Proof.
  intros Hb Hc Hp. split; [apply mtu_new_inv; lia|].
  unfold mtu_goal, PathMtuState_new; cbn.
  destruct (Z.ltb_spec (Z.min base maximum) maximum); mtu_bounds.
Qed.

(** C40: path MTU discovery terminates and finds the path MTU: from a fresh
    state, on a path that carries up to [capacity] bytes to a peer whose own
    maximum is [peer_mtu], after at most [20 * (maximum - base) + 12] ticks no
    probe is planned or outstanding, and the confirmed MTU is at most the
    largest MTU that works and within [MTU_PROBE_MIN_GAIN] bytes of it. *)
Theorem mtu_discovery_converges base maximum capacity peer_mtu fresh ticks :
  Z.of_nat MTU_PROBE_NONCE_LEN <= base <= maximum ->
  base <= capacity -> base <= mtu_ack_value peer_mtu -> 0 <= peer_mtu ->
  20 * (maximum - base) + 12 <= Z.of_nat ticks ->
  let st := mtu_ticks ticks capacity peer_mtu fresh (PathMtuState_new base maximum) 0 in
  mtu_done st
  /\ mtu_goal capacity peer_mtu maximum - MTU_PROBE_MIN_GAIN <= confirmed st
     <= mtu_goal capacity peer_mtu maximum.
Proof.
  intros Hb Hc Hp Hp0 Hticks st.
  destruct (mtu_ticks_converge capacity peer_mtu maximum ltac:(done) ltac:(lia)
              ticks fresh (PathMtuState_new base maximum) 0) as [Hd [now' Hrun]].
  - by apply mtu_new_run_inv.
  - unfold mtu_potential, PathMtuState_new; cbn. rewrite !Z.min_l by lia.
    case_match; simplify_eq; lia.
  - fold st in Hd, Hrun. split; [done|]. destruct Hd as [Hpe Hne].
    destruct Hrun as (_ & Hg & _ & Hstop & _). specialize (Hstop Hpe Hne). lia.
Qed.

Lemma mtu_discovery_converges_witness :
  let st := mtu_ticks 4812 1300 1500 (fun _ => replicate 16 7) (PathMtuState_new 1190 1430) 0 in
  mtu_done st /\ mtu_goal 1300 1500 1430 - MTU_PROBE_MIN_GAIN <= confirmed st
                 <= mtu_goal 1300 1500 1430.
Proof.
  apply (mtu_discovery_converges 1190 1430 1300 1500 (fun _ => replicate 16 7) 4812);
    by_decide.
Defined.

(** an acknowledgement keeps the discovery state consistent and answers only
    the outstanding probe: a nonce other than the pending one changes nothing. *)
Theorem acknowledge_inv maximum st n m :
  mtu_inv maximum st -> 0 <= m ->
  mtu_inv maximum (snd (acknowledge st n m))
  /\ (forall p, pending st = Some p -> n <> nonce p -> acknowledge st n m = (None, st))
  /\ (forall p, pending st = Some p -> n = nonce p ->
        pending (snd (acknowledge st n m)) = None
        /\ confirmed (snd (acknowledge st n m)) = Z.min m (target p) `max` Z.min m (confirmed st)).
Proof.
  intros Hinv Hm. split; [by apply acknowledge_inv_aux|]. split.
  - intros p Hp Hne. unfold acknowledge. rewrite Hp, bool_decide_eq_false_2 by done. done.
  - intros p Hp ->. unfold acknowledge. rewrite Hp, bool_decide_eq_true_2 by done. cbn.
    destruct Hinv as (Hc & Hu & Hn & Hpe). destruct (Hpe p Hp) as (Ht & _ & _).
    destruct (Z.ltb_spec m (target p)); cbn; (split; [done|]); lia.
Qed.

(** ** Path migration: three packets from the new path, close together *)

(** The states a session's path goes through, with the packets seen from other
    paths since the path last changed. *)
Inductive migration_run : SocketAddr -> option PendingPathMigration
                          -> list (SocketAddr * Z) -> Prop :=
| run_start path : migration_run path None []
| run_stay path pend hist source now pend' :
    migration_run path pend hist ->
    observe_data_source path pend source now = (false, (path, pend')) ->
    migration_run path pend'
      (if bool_decide (source = path) then hist else hist ++ [(source, now)])
| run_move path pend hist source now pend' :
    migration_run path pend hist ->
    observe_data_source path pend source now = (true, (source, pend')) ->
    migration_run source pend' [].

(** What a pending migration remembers of the packets seen. *)
Definition migration_inv (path : SocketAddr) (pend : option PendingPathMigration)
    (hist : list (SocketAddr * Z)) : Prop :=
  match pend with
  | None => True
  | Some p => mig_path p <> path /\
      (confirmations p = 1 /\ (exists pre, hist = pre ++ [(mig_path p, last_seen p)])
       \/ confirmations p = 2 /\
          exists pre t, hist = pre ++ [(mig_path p, t); (mig_path p, last_seen p)]
                        /\ duration_since (last_seen p) t <= PATH_MIGRATION_WINDOW)
  end.

Lemma observe_stay_inv path pend hist source now pend' :
  migration_inv path pend hist ->
  observe_data_source path pend source now = (false, (path, pend')) ->
  migration_inv path pend'
    (if bool_decide (source = path) then hist else hist ++ [(source, now)]).
Proof.
  intros Hinv H. unfold observe_data_source, confirm_path_migration in H.
  destruct (bool_decide (source = path)) eqn:Hsp; [by simplify_eq|].
  apply bool_decide_eq_false in Hsp.
  destruct pend as [p|].
  2: { cbn in H. simplify_eq. cbn. split; [done|]. left. eauto. }
  destruct (bool_decide (mig_path p = source) && _) eqn:Hb.
  2: { cbn in H. simplify_eq. cbn. split; [done|]. left. eauto. }
  unbool. subst source. destruct Hinv as [_ [(Hc & pre & ->)|(Hc & _)]].
  - rewrite Hc in H. change ((1 + 1) `min` U8_MAX) with 2 in H. cbn in H. simplify_eq.
    cbn. split; [done|]. right. split; [done|].
    exists pre, (last_seen p). by rewrite <- app_assoc.
  - by rewrite Hc in H.
Qed.

Lemma migration_run_inv path pend hist :
  migration_run path pend hist -> migration_inv path pend hist.
Proof.
  induction 1 as [|? ? ? ? ? ? ? IH H|? ? ? ? ? ? ? IH H]; [done|by eapply observe_stay_inv|].
  unfold observe_data_source, confirm_path_migration in H.
  repeat case_match; simplify_eq; done.
Qed.

(** a session's path changes only after three packets in a row from the same
    other path (packets on the current path apart), each within two seconds of
    the one before; it changes to that path and the pending state is cleared. *)
Theorem migration_needs_three path pend hist source now path' pend' :
  migration_run path pend hist ->
  observe_data_source path pend source now = (true, (path', pend')) ->
  path' = source /\ source <> path /\ pend' = None
  /\ exists pre t1 t2, hist = pre ++ [(source, t1); (source, t2)]
       /\ duration_since t2 t1 <= PATH_MIGRATION_WINDOW
       /\ duration_since now t2 <= PATH_MIGRATION_WINDOW.
Proof.
  intros Hrun%migration_run_inv H. unfold observe_data_source, confirm_path_migration in H.
  destruct (bool_decide (source = path)) eqn:Hsp; [by simplify_eq|].
  apply bool_decide_eq_false in Hsp. destruct pend as [p|]; [|done].
  destruct (bool_decide (mig_path p = source) && _) eqn:Hb; [|done].
  unbool. subst source. destruct Hrun as [_ [(Hc & _)|(Hc & pre & t & -> & Hw)]].
  - by rewrite Hc in H.
  - rewrite Hc in H. change ((2 + 1) `min` U8_MAX) with 3 in H. cbn in H. simplify_eq. do 3 (split; [done|]). by exists pre, t, (last_seen p).
Qed.

Definition path_a : SocketAddr := SockV4 1 10.
Definition path_b : SocketAddr := SockV4 2 20.

Lemma migration_needs_three_witness :
  path_b = path_b /\ path_b <> path_a /\ @None PendingPathMigration = None
  /\ exists pre t1 t2, [(path_b, 0); (path_b, 5)] = pre ++ [(path_b, t1); (path_b, t2)]
       /\ duration_since t2 t1 <= PATH_MIGRATION_WINDOW
       /\ duration_since 9 t2 <= PATH_MIGRATION_WINDOW.
Proof.
  apply (migration_needs_three path_a (Some (mkMigration path_b 2 5))
           [(path_b, 0); (path_b, 5)] path_b 9 path_b None).
  - apply (run_stay path_a (Some (mkMigration path_b 1 0)) [(path_b, 0)] path_b 5
             (Some (mkMigration path_b 2 5))); [|vm_compute; reflexivity].
    apply (run_stay path_a None [] path_b 0 (Some (mkMigration path_b 1 0)));
      [constructor | vm_compute; reflexivity].
  - vm_compute; reflexivity.
Defined.

(** A packet on the current path leaves the path alone. *)
Lemma observe_same_path path d t : fst (snd (observe_data_source path d path t)) = path.
Proof. unfold observe_data_source. by destruct (confirm_path_migration path d path t) as [[] ?]. Qed.

(** A packet from another path moves the session or is counted. *)
Lemma observe_other_path path pend source t :
  source <> path -> (forall p, pend = Some p -> 0 < confirmations p) ->
  observe_data_source path pend source t = (true, (source, None))
  \/ exists c, 0 < c < PATH_MIGRATION_CONFIRMATIONS
       /\ observe_data_source path pend source t
          = (false, (path, Some (mkMigration source c t))).
Proof.
  intros Hne Hpos. unfold observe_data_source, confirm_path_migration.
  rewrite bool_decide_eq_false_2 by done. destruct pend as [p|].
  2: { right. exists 1. by split. }
  specialize (Hpos p eq_refl).
  destruct (bool_decide (mig_path p = source) && _) eqn:E.
  2: { right. exists 1. by split. }
  unbool. cbn. subst source.
  destruct (Z.ltb_spec ((confirmations p + 1) `min` U8_MAX) PATH_MIGRATION_CONFIRMATIONS);
    [|by left].
  right. exists ((confirmations p + 1) `min` U8_MAX).
  unfold PATH_MIGRATION_CONFIRMATIONS, U8_MAX in *. split; [lia|done].
Qed.

Lemma observe_counted path source c t t' :
  source <> path -> 0 < c < PATH_MIGRATION_CONFIRMATIONS ->
  duration_since t' t <= PATH_MIGRATION_WINDOW ->
  observe_data_source path (Some (mkMigration source c t)) source t'
  = if c <? 2 then (false, (path, Some (mkMigration source (c + 1) t')))
    else (true, (source, None)).
Proof.
  intros Hne Hc Hw%Z.leb_le. unfold observe_data_source, confirm_path_migration.
  cbn [mig_path last_seen confirmations].
  rewrite bool_decide_eq_false_2, bool_decide_eq_true_2, Hw by done.
  unfold PATH_MIGRATION_CONFIRMATIONS in Hc.
  assert (c = 1 \/ c = 2) as [-> | ->] by lia; done.
Qed.

(** The path after packets from one source at the given times. *)
Fixpoint observe_times (path : SocketAddr) (pend : option PendingPathMigration)
    (source : SocketAddr) (times : list Z) : SocketAddr :=
  match times with
  | [] => path
  | t :: rest =>
      let '(_, (path', pend')) := observe_data_source path pend source t in
      observe_times path' pend' source rest
  end.

Lemma observe_times_settled source pend times : observe_times source pend source times = source.
Proof.
  revert pend; induction times as [|t ts IH]; intros pend; cbn; [done|].
  pose proof (observe_same_path source pend t) as H.
  destruct (observe_data_source source pend source t) as [? [p ?]]. cbn in H. by subst p.
Qed.

(** three packets from the same other path, each within two seconds of the
    one before, move the session to that path, whatever was pending before. *)
Theorem migration_after_three path pend source t1 t2 t3 :
  source <> path -> (forall p, pend = Some p -> 0 < confirmations p) ->
  duration_since t2 t1 <= PATH_MIGRATION_WINDOW ->
  duration_since t3 t2 <= PATH_MIGRATION_WINDOW ->
  observe_times path pend source [t1; t2; t3] = source.
Proof.
  intros Hne Hpos H21 H32. cbn [observe_times].
  destruct (observe_other_path path pend source t1 Hne Hpos) as [->|(c & Hc & ->)].
  { apply (observe_times_settled source None [t2; t3]). }
  rewrite observe_counted by done. destruct (Z.ltb_spec c 2).
  - rewrite observe_counted by (done || unfold PATH_MIGRATION_CONFIRMATIONS in *; lia).
    by destruct (Z.ltb_spec (c + 1) 2); [lia|].
  - apply (observe_times_settled source None [t3]).
Qed.

Lemma migration_after_three_witness :
  observe_times path_a (Some (mkMigration path_a 2 0)) path_b [1; 2; 3] = path_b.
Proof.
  apply (migration_after_three path_a (Some (mkMigration path_a 2 0)) path_b 1 2 3);
    [done | by intros p [= <-] | by_decide | by_decide].
Defined.

Lemma acknowledge_inv_witness :
  mtu_inv 1430 (snd (acknowledge (PathMtuState_new 1190 1430) [1] 1300)).
Proof.
  apply (acknowledge_inv 1430 (PathMtuState_new 1190 1430) [1] 1300); [|done].
  by apply mtu_new_inv.
Defined.
