(* ===== verification/Handshake.v ===== *)
(** * Probes, handshake contexts and data packets

    The messages two nodes exchange to find a path and open a session, from
    [vela-core/src/lib.rs]: the signed [Probe], the [HandshakeContext] carried in
    the Noise payloads, the checks of a peer's identity and membership, the order
    in which candidates are tried, and the sealed data packet. *)
From S2P Require Import Prelude Net Encoding Wire NodeId Snapshot SignedBytes Crypto Ip.

(** [CoreError]; the payloads of operating-system, coordination and STUN errors
    are left out. *)
Inductive CoreError : Type :=
| Core_Io
| Core_DatagramBind
| Core_Protocol (e : ProtoError)
| Core_Crypto (e : CryptoError)
| Core_Ip (e : IpError)
| Core_Coordination
| Core_Stun
| MissingProvider
| HybridCryptoUnavailable
| Core_UnknownPeer (id : bytes)
| InvalidPeer
| InvalidProbe
| InvalidHandshake
| InvalidDiagnosticPing
| InvalidKeepAlive
| InvalidMtuProbe
| Core_SnapshotExpired
| NetworkMismatch
| StaleSnapshot
| LocalPeerMissing
| LocalAddressMissing
| PeerCredentialExpired.

(** ** Probes *)

Record ProbeMsg : Type := mkProbeMsg {
  probe_sender : bytes;
  probe_receiver : bytes;
  probe_session_id : Z;
  probe_timestamp : Z;
  probe_nonce : bytes;
  probe_signature : bytes
}.

Definition probe_signing_bytes (data : bytes) : bytes := str "VELA-PROBE-v1" ++ data.

(** The part of a probe that is signed. *)
Definition probe_body (sender receiver : bytes) (session_id timestamp : Z) (nonce : bytes)
    : bytes :=
  sender ++ receiver ++ be_bytes 8 session_id ++ be_bytes 8 timestamp ++ nonce.

Definition decode_probe (data : bytes) : result ProbeMsg CoreError :=
  if negb (length data =? 160)%nat then Err InvalidProbe
  else Ok {| probe_sender := slice 0 32 data;
             probe_receiver := slice 32 64 data;
             probe_session_id := be_value (slice 64 72 data);
             probe_timestamp := be_value (slice 72 80 data);
             probe_nonce := slice 80 96 data;
             probe_signature := slice 96 160 data |}.

(** [u64::abs_diff] *)
Definition abs_diff (x y : Z) : Z := Z.abs (x - y).

Section Probes.
Context `{SignatureOps}.

Definition encode_probe (sender receiver : bytes) (session_id timestamp : Z)
    (nonce signing : bytes) : bytes :=
  let data := probe_body sender receiver session_id timestamp nonce in
  data ++ sig_sign signing (probe_signing_bytes data).

Definition verify_probe (p : ProbeMsg) (info : PeerInfo) (now : Z) : result unit CoreError :=
  if negb (bool_decide (probe_sender p = node_id info)) then Err InvalidProbe
  else
    let data := probe_body (probe_sender p) (probe_receiver p) (probe_session_id p)
                  (probe_timestamp p) (probe_nonce p) in
    if negb (sig_key_ok (signing_public info)) then Err InvalidProbe
    else if negb (sig_verify_strict (signing_public info) (probe_signing_bytes data)
                    (probe_signature p))
    then Err InvalidProbe
    else if 90 <? abs_diff (probe_timestamp p) now then Err InvalidProbe
    else Ok tt.
End Probes.

(** ** Handshake contexts *)

Definition HANDSHAKE_CONTEXT_MAGIC : bytes := str "VELA-HS-v2".

Record HandshakeContext : Type := mkContext {
  hs_network_id : bytes;
  hs_generation : Z;
  hs_node_id : bytes;
  hs_incarnation : Z;
  hs_virtual_ipv4 : option Z;
  hs_virtual_ipv6 : option Z
}.

(** An optional address in a fixed-width field. *)
Definition encode_padded (n : nat) (o : option Z) : bytes :=
  match o with Some a => 1 :: be_bytes n a | None => 0 :: replicate n 0 end.

Definition encode_handshake_context (c : HandshakeContext) : bytes :=
  HANDSHAKE_CONTEXT_MAGIC ++ hs_network_id c ++ be_bytes 8 (hs_generation c)
  ++ hs_node_id c ++ be_bytes 8 (hs_incarnation c)
  ++ encode_padded 4 (hs_virtual_ipv4 c) ++ encode_padded 16 (hs_virtual_ipv6 c).

Definition decode_padded (b : bytes) (offset n : nat) : option (option Z) :=
  match b !!! offset with
  | 0 => Some None
  | 1 => Some (Some (be_value (slice (offset + 1) (offset + 1 + n) b)))
  | _ => None
  end.

Definition decode_handshake_context (b : bytes) : option HandshakeContext :=
  let magic_len := length HANDSHAKE_CONTEXT_MAGIC in
  if negb (length b =? magic_len + 16 + 8 + 32 + 8 + 1 + 4 + 1 + 16)%nat
     || negb (bool_decide (slice 0 magic_len b = HANDSHAKE_CONTEXT_MAGIC))
  then None
  else
    let o := magic_len in
    let network := slice o (o + 16) b in
    let o := (o + 16)%nat in
    let gen := be_value (slice o (o + 8) b) in
    let o := (o + 8)%nat in
    let id := slice o (o + 32) b in
    let o := (o + 32)%nat in
    let inc := be_value (slice o (o + 8) b) in
    let o := (o + 8)%nat in
    match decode_padded b o 4 with
    | None => None
    | Some v4 =>
        match decode_padded b (o + 5) 16 with
        | None => None
        | Some v6 => Some (mkContext network gen id inc v4 v6)
        end
    end.

(** [Inner::validate_handshake_context] for the network id the node holds. *)
Definition validate_handshake_context (expected_network_id b sender : bytes) (peer : PeerInfo)
    : result unit CoreError :=
  let? c := ok_or (decode_handshake_context b) InvalidHandshake in
  if bool_decide (hs_network_id c = expected_network_id)
     && bool_decide (hs_node_id c = sender)
     && bool_decide (hs_node_id c = node_id peer)
     && bool_decide (hs_incarnation c = incarnation peer)
     && bool_decide (hs_virtual_ipv4 c = virtual_ipv4 peer)
     && bool_decide (hs_virtual_ipv6 c = virtual_ipv6 peer)
  then Ok tt else Err InvalidHandshake.

(** ** Identity and membership of a peer *)

Section Membership.
Context `{Hash, SignatureOps}.
(** Decoding a credential from its JSON text is the job of a library. *)
Context (parse_credential : bytes -> option MembershipCredential).

Definition validate_peer_info (info : PeerInfo) : result unit CoreError :=
  if bool_decide (blake3 (signing_public info) = node_id info) then Ok tt else Err InvalidPeer.

Definition membership_expires_at (info : PeerInfo) (server_public_key : option bytes) : Z :=
  match server_public_key with
  | None => U64_MAX
  | Some _ => match parse_credential (credential info) with
              | Some c => cred_expires_at c
              | None => 0
              end
  end.

Definition validate_peer_membership (info : PeerInfo) (server_public_key : option bytes)
    (now : Z) : result unit CoreError :=
  match server_public_key with
  | None => Ok tt
  | Some key =>
      let? c := ok_or (parse_credential (credential info)) InvalidPeer in
      let? _ := rmap_err (fun _ => PeerCredentialExpired) (Credential_verify c key now) in
      if negb (bool_decide (cred_node_id c = node_id info))
         || negb (bool_decide (cred_signing_public c = signing_public info))
         || negb (bool_decide (cred_noise_public c = noise_public info))
      then Err InvalidPeer else Ok tt
  end.
End Membership.

(** ** The order candidates are tried in *)

(** [Ipv4Addr::is_private] and [Ipv6Addr::is_unique_local] *)
Definition ipv4_is_private (a : Z) : bool :=
  (Z.shiftr a 24 =? 10) || (Z.shiftr a 20 =? 0xac1) || (Z.shiftr a 16 =? 0xc0a8).
Definition ipv6_is_unique_local (a : Z) : bool := Z.land (Z.shiftr a 112) 0xfe00 =? 0xfc00.

Definition is_private_address (a : SocketAddr) : bool :=
  match sock_ip a with
  | V4 a => ipv4_is_private a
  | V6 a => ipv6_is_unique_local a
  end.

Definition candidate_priority (c : Candidate) : Z :=
  match c with
  | Host a => if is_private_address a then 0 else 1
  | PeerReflexive _ => 2
  | ServerReflexive _ => 3
  end.

Definition candidate_type (l : list Candidate) (address : SocketAddr) : string :=
  match List.find (fun c => bool_decide (Candidate_address c = address)) l with
  | None => "peer_reflexive"
  | Some (Host _) => "host"
  | Some (ServerReflexive _) => "server_reflexive"
  | Some (PeerReflexive _) => "peer_reflexive"
  end.

(** One turn of the loop: append a candidate with a new address, or replace the
    one with its address when its priority is better. *)
Fixpoint merge_candidate (ordered : list Candidate) (c : Candidate) : list Candidate :=
  match ordered with
  | [] => [c]
  | e :: rest =>
      if bool_decide (Candidate_address e = Candidate_address c)
      then (if candidate_priority c <? candidate_priority e then c else e) :: rest
      else e :: merge_candidate rest c
  end.

Definition prio_le (x y : Candidate) : Prop := candidate_priority x <= candidate_priority y.

#[export] Instance prio_le_dec x y : Decision (prio_le x y).
Proof. unfold prio_le; apply _. Defined.

Definition ordered_connection_candidates (l : list Candidate) : list Candidate :=
  merge_sort prio_le (fold_left merge_candidate l []).

(** ** Data packets *)

(** [encoded_header]: the header as associated data. *)
Definition encoded_header (h : Header) : bytes :=
  MAGIC ++ [PROTOCOL_VERSION; PacketType_code (packet_type h)]
  ++ be_bytes 2 (flags h) ++ be_bytes 8 (session_id h) ++ be_bytes 8 (sequence h)
  ++ be_bytes 2 (payload_len h).

Record DataPacket : Type := mkDataPacket {
  dp_header : Header;
  dp_encrypted_len : Z;
  dp_payload : bytes;
  dp_source : SocketAddr
}.

Definition decode_data_packet (input : bytes) (h : Header) (source : SocketAddr)
    : result DataPacket ProtoError :=
  let e := (HEADER_LEN + Z.to_nat (payload_len h))%nat in
  if (length input <? e)%nat then Err Truncated
  else if negb (length input =? e)%nat then Err TrailingBytes
  else
    let body := drop HEADER_LEN input in
    Ok (mkDataPacket h (len body) body source).

Section Sealing.
Context `{AeadOps}.

(** [encrypt_payload] on the fields of the session it reads. *)
Definition encrypt_payload (sid : Z) (c : SessionCipher) (ty : PacketType) (seq : Z)
    (body : bytes) : result bytes CoreError :=
  let? h := rmap_err Core_Protocol (Header_new ty sid seq (length body + 16)) in
  rmap_err Core_Crypto (encrypt c seq (encoded_header h) body).

(** The wire packet [prepare_encrypted_data_packet] builds for an IP packet. *)
Definition seal_data_packet (sid : Z) (c : SessionCipher) (seq : Z) (packet : bytes)
    : result bytes CoreError :=
  let? h := rmap_err Core_Protocol (Header_new Data sid seq (length packet + 16)) in
  let? ct := rmap_err Core_Crypto
               (encrypt_in_place_detached c seq (encoded_header h) packet) in
  Ok (Header_encode h ++ fst ct ++ snd ct).

(** The receiver's side: decode the header, split the payload off, open it in
    place with the encoded header as associated data. *)
Definition open_data_packet (c : SessionCipher) (input : bytes) (source : SocketAddr)
    : result (Header * bytes) CoreError :=
  let? h := rmap_err Core_Protocol (Header_decode input) in
  let? dp := rmap_err Core_Protocol (decode_data_packet input h source) in
  let? p := rmap_err Core_Crypto
              (decrypt_in_place c (sequence h) (encoded_header h) (dp_payload dp)) in
  Ok (h, p).
End Sealing.

(** ** Lemmas *)

Lemma encoded_header_encode h :
  version h = PROTOCOL_VERSION -> encoded_header h = Header_encode h.
Proof. intros Hv. unfold encoded_header, Header_encode. by rewrite Hv. Qed.

Lemma length_probe_body s r i t n :
  length s = 32%nat -> length r = 32%nat -> length n = 16%nat ->
  length (probe_body s r i t n) = 96%nat.
Proof. intros. unfold probe_body. autorewrite with vela. lia. Qed.

(** Reading the field of a concatenation that starts after its first part. *)
Lemma slice_field (l1 l2 l3 : bytes) a b :
  length l1 = a -> length l2 = (b - a)%nat -> (a <= b)%nat ->
  slice a b (l1 ++ l2 ++ l3) = l2.
Proof.
  intros <- Hl Hab. unfold slice. rewrite drop_app_length, <- Hl.
  by rewrite take_app_length.
Qed.

(** Read a field of a right-nested concatenation: skip the parts before it. *)
Lemma slice_skip (l1 l2 : bytes) a b :
  (length l1 <= a)%nat -> slice a b (l1 ++ l2) = slice (a - length l1) (b - length l1) l2.
Proof.
  intros Ha. unfold slice. rewrite drop_app_ge by lia. f_equal. lia.
Qed.

Lemma slice_here (l1 l2 : bytes) b : length l1 = b -> slice 0 b (l1 ++ l2) = l1.
Proof. intros <-. unfold slice. by rewrite Nat.sub_0_r, drop_0, take_app_length. Qed.

Lemma slice_whole (l : bytes) b : length l = b -> slice 0 b l = l.
Proof. intros <-. apply slice_all. Qed.

Lemma lookup_total_skip (l1 l2 : bytes) (i : nat) :
  (length l1 <= i)%nat -> (l1 ++ l2) !!! i = l2 !!! (i - length l1)%nat.
Proof. intros. rewrite !list_lookup_total_alt. by rewrite lookup_app_r. Qed.

(** The fields of a fixed layout: the lengths of the parts are hypotheses. *)
Ltac known_lengths :=
  rewrite ?length_be_bytes;
  repeat match goal with H : length ?x = _ |- context [length ?x] => rewrite H end;
  cbn [Nat.sub Nat.add].

Ltac read_field :=
  repeat (rewrite slice_skip by (known_lengths; lia); known_lengths);
  first [ rewrite slice_here by (known_lengths; lia)
        | rewrite slice_whole by (known_lengths; lia) ].

Section ProbeTheorems.
Context `{HSig : SignatureOps} {HS : SignatureLaws HSig}.

Definition probe_typed (sender receiver : bytes) (sid ts : Z) (nonce : bytes) : Prop :=
  length sender = 32%nat /\ length receiver = 32%nat /\ is_u 64 sid /\ is_u 64 ts
  /\ length nonce = 16%nat.

Lemma decode_encode_probe sender receiver sid ts nonce signing :
  probe_typed sender receiver sid ts nonce ->
  decode_probe (encode_probe sender receiver sid ts nonce signing)
  = Ok (mkProbeMsg sender receiver sid ts nonce
          (sig_sign signing (probe_signing_bytes (probe_body sender receiver sid ts nonce)))).
Proof.
  intros (L1 & L2 & Hs & Ht & L3). unfold decode_probe, encode_probe.
  set (sg := sig_sign _ _). assert (L4 : length sg = 64%nat) by apply sig_sign_length.
  rewrite length_app, length_probe_body, L4 by done. cbn [Nat.eqb negb].
  f_equal. unfold probe_body. rewrite <- !app_assoc.
  f_equal; read_field; first [done | by apply (be_value_be_bytes_u 8 64)].
Qed.

Definition probe_accepted (p : ProbeMsg) (info : PeerInfo) (now : Z) : Prop :=
  probe_sender p = node_id info /\ sig_key_ok (signing_public info) = true
  /\ sig_verify_strict (signing_public info)
       (probe_signing_bytes (probe_body (probe_sender p) (probe_receiver p)
          (probe_session_id p) (probe_timestamp p) (probe_nonce p)))
       (probe_signature p) = true
  /\ probe_timestamp p - 90 <= now <= probe_timestamp p + 90.

Lemma verify_probe_iff p info now :
  verify_probe p info now = Ok tt <-> probe_accepted p info now.
Proof.
  unfold verify_probe, probe_accepted, abs_diff. split.
  - intros E. inv_ok. unbool. split_and!; (done || lia).
  - intros (Hs & Hk & Hv & Ht). rewrite bool_decide_eq_true_2 by done. rewrite Hk, Hv.
    cbn [negb]. by destruct (Z.ltb_spec 90 (Z.abs (probe_timestamp p - now))); [lia|].
Qed.

(** the receiver decodes a probe to what the sender put in it, and accepts it
    from a peer with the sender's id and key for 90 seconds either side of its
    timestamp and at no other time. *)
Theorem probe_roundtrip sender receiver sid ts nonce signing info now :
  probe_typed sender receiver sid ts nonce ->
  node_id info = sender -> signing_public info = sig_public signing ->
  exists p, decode_probe (encode_probe sender receiver sid ts nonce signing) = Ok p
    /\ probe_sender p = sender /\ probe_receiver p = receiver
    /\ probe_session_id p = sid /\ probe_nonce p = nonce
    /\ (verify_probe p info now = Ok tt <-> ts - 90 <= now <= ts + 90).
Proof.
  intros Ht Hid Hkey. eexists. split; [by apply decode_encode_probe|]. cbn.
  split_and!; try done. rewrite verify_probe_iff. unfold probe_accepted; cbn.
  rewrite Hkey, sig_public_ok, sig_correct_strict. naive_solver.
Qed.
End ProbeTheorems.

(** ** Handshake contexts *)

Definition context_typed (c : HandshakeContext) : Prop :=
  length (hs_network_id c) = 16%nat /\ is_u 64 (hs_generation c)
  /\ length (hs_node_id c) = 32%nat /\ is_u 64 (hs_incarnation c)
  /\ opt_typed 32 (hs_virtual_ipv4 c) /\ opt_typed 128 (hs_virtual_ipv6 c).

Lemma length_encode_padded n o : length (encode_padded n o) = S n.
Proof. destruct o; cbn; by rewrite ?length_be_bytes, ?length_replicate. Qed.

Lemma decode_padded_field n o pre post offset :
  length pre = offset -> opt_typed (8 * Z.of_nat n) o ->
  decode_padded (pre ++ encode_padded n o ++ post) offset n = Some o.
Proof.
  intros <- Ho. unfold decode_padded. rewrite lookup_total_skip, Nat.sub_diag by lia.
  destruct o as [a|]; [|done]. cbn [encode_padded app]. cbn -[slice be_bytes be_value].
  do 2 f_equal. rewrite slice_skip by lia.
  replace (length pre + 1 - length pre)%nat with 1%nat by lia.
  replace (length pre + 1 + n - length pre)%nat with (S n) by lia.
  change (1 :: be_bytes n a ++ post) with ([1] ++ be_bytes n a ++ post).
  rewrite slice_skip by (cbn; lia). cbn [length Nat.sub]. rewrite Nat.sub_0_r.
  rewrite slice_here by apply length_be_bytes.
  eapply be_value_be_bytes_u; [reflexivity|]. by apply Ho.
Qed.

Lemma decode_encode_context c :
  context_typed c -> decode_handshake_context (encode_handshake_context c) = Some c.
Proof.
  intros (L1 & U1 & L2 & U2 & O4 & O6).
  pose proof (length_encode_padded 4 (hs_virtual_ipv4 c)) as P4.
  pose proof (length_encode_padded 16 (hs_virtual_ipv6 c)) as P6.
  assert (LM : length HANDSHAKE_CONTEXT_MAGIC = 10%nat) by done.
  unfold decode_handshake_context. rewrite LM.
  assert (Hlen : length (encode_handshake_context c) = 96%nat).
  { unfold encode_handshake_context. rewrite !length_app. known_lengths. done. }
  rewrite Hlen. cbn [Nat.eqb Nat.add negb orb].
  assert (Hm : slice 0 10 (encode_handshake_context c) = HANDSHAKE_CONTEXT_MAGIC)
    by (by apply slice_here).
  rewrite Hm, bool_decide_eq_true_2 by done. cbn [negb].
  assert (E : encode_handshake_context c =
    (HANDSHAKE_CONTEXT_MAGIC ++ hs_network_id c ++ be_bytes 8 (hs_generation c)
     ++ hs_node_id c ++ be_bytes 8 (hs_incarnation c))
    ++ encode_padded 4 (hs_virtual_ipv4 c) ++ encode_padded 16 (hs_virtual_ipv6 c)).
  { unfold encode_handshake_context. by rewrite <- !app_assoc. }
  assert (E6 : encode_handshake_context c =
    (HANDSHAKE_CONTEXT_MAGIC ++ hs_network_id c ++ be_bytes 8 (hs_generation c)
     ++ hs_node_id c ++ be_bytes 8 (hs_incarnation c) ++ encode_padded 4 (hs_virtual_ipv4 c))
     ++ encode_padded 16 (hs_virtual_ipv6 c) ++ []).
  { unfold encode_handshake_context. by rewrite app_nil_r, <- !app_assoc. }
  assert (D4 : decode_padded (encode_handshake_context c) 74 4 = Some (hs_virtual_ipv4 c)).
  { rewrite E. apply decode_padded_field; [|done]. rewrite !length_app. known_lengths. done. }
  assert (D6 : decode_padded (encode_handshake_context c) 79 16 = Some (hs_virtual_ipv6 c)).
  { rewrite E6. apply decode_padded_field; [|done]. rewrite !length_app. known_lengths. done. }
  rewrite D4, D6. clear E E6 D4 D6 Hlen Hm.
  unfold encode_handshake_context.
  destruct c; cbn [hs_network_id hs_generation hs_node_id hs_incarnation
                   hs_virtual_ipv4 hs_virtual_ipv6] in *.
  do 2 f_equal; read_field; first [done | by apply (be_value_be_bytes_u 8 64)].
Qed.

(** a node accepts the handshake context of a peer exactly when the network
    id, node id, incarnation and virtual addresses in it are the ones it expects;
    the snapshot generation may differ. *)
Theorem handshake_context_checked network c sender peer :
  context_typed c ->
  validate_handshake_context network (encode_handshake_context c) sender peer = Ok tt <->
  hs_network_id c = network /\ hs_node_id c = sender /\ hs_node_id c = node_id peer
  /\ hs_incarnation c = incarnation peer /\ hs_virtual_ipv4 c = virtual_ipv4 peer
  /\ hs_virtual_ipv6 c = virtual_ipv6 peer.
Proof.
  intros Hc. unfold validate_handshake_context. rewrite decode_encode_context by done.
  cbn [ok_or rbind]. destruct (_ && _) eqn:E; unbool.
  - by split.
  - split; [done|]. intros (H1 & H2 & H3 & H4 & H5 & H6).
    by rewrite !bool_decide_eq_true_2 in E by done.
Qed.

(** ** Candidate order *)

(** What the merge has gathered of the candidates it has seen: one candidate per
    address, the best of its address. *)
Definition merged (seen acc : list Candidate) : Prop :=
  NoDup (map Candidate_address acc)
  /\ (forall c, c ∈ acc -> c ∈ seen /\ forall d, d ∈ seen ->
        Candidate_address d = Candidate_address c ->
        candidate_priority c <= candidate_priority d)
  /\ (forall d, d ∈ seen -> Candidate_address d ∈ map Candidate_address acc).

Lemma merge_candidate_addresses acc c :
  map Candidate_address (merge_candidate acc c) =
  (if decide (Candidate_address c ∈ map Candidate_address acc)
   then map Candidate_address acc else map Candidate_address acc ++ [Candidate_address c]).
Proof.
  induction acc as [|e acc IH]; cbn [merge_candidate map].
  { by rewrite decide_False by apply not_elem_of_nil. }
  destruct (bool_decide (Candidate_address e = Candidate_address c)) eqn:E; unbool.
  - rewrite decide_True by (rewrite E; by left). cbn [map].
    by destruct (candidate_priority c <? candidate_priority e); rewrite ?E.
  - cbn [map]. rewrite IH. destruct (decide (Candidate_address c ∈ map Candidate_address acc)).
    + by rewrite decide_True by by right.
    + by rewrite decide_False by (rewrite not_elem_of_cons; auto).
Qed.

Lemma merge_candidate_elem acc c x :
  NoDup (map Candidate_address acc) -> x ∈ merge_candidate acc c ->
  (x ∈ acc \/ x = c)
  /\ (Candidate_address x = Candidate_address c ->
        candidate_priority x <= candidate_priority c
        /\ forall e, e ∈ acc -> Candidate_address e = Candidate_address c ->
             candidate_priority x <= candidate_priority e).
Proof.
  induction acc as [|e acc IH]; cbn [merge_candidate map]; intros Hnd Hx.
  { apply list_elem_of_singleton in Hx as ->. split; [by right|]. intros _.
    split; [lia|]. by intros e ?%elem_of_nil. }
  apply NoDup_cons in Hnd as [Hne Hnd].
  assert (Hno : forall e', e' ∈ acc -> Candidate_address e' <> Candidate_address e).
  { intros e' He' Heq. apply Hne. rewrite <- Heq. by apply list_elem_of_fmap_2. }
  destruct (bool_decide (Candidate_address e = Candidate_address c)) eqn:E; unbool.
  - apply elem_of_cons in Hx as [->|Hx].
    + split; [destruct (_ <? _); [by right | left; by left]|]. intros _.
      destruct (Z.ltb_spec (candidate_priority c) (candidate_priority e));
        (split; [lia|]); intros e' [->|He']%elem_of_cons Ha; try lia;
        (exfalso; apply (Hno e' He'); congruence).
    + split; [left; by right|]. intros Ha. exfalso. apply (Hno x Hx). congruence.
  - apply elem_of_cons in Hx as [->|Hx].
    + split; [left; by left|]. done.
    + destruct (IH Hnd Hx) as [Hin Hbest]. split; [destruct Hin; [left; by right | by right]|].
      intros Ha. destruct (Hbest Ha) as [Hc Hacc]. split; [done|].
      intros e' [->|He']%elem_of_cons Ha'; [done | by apply Hacc].
Qed.

Lemma merge_candidate_merged seen acc c :
  merged seen acc -> merged (seen ++ [c]) (merge_candidate acc c).
Proof.
  intros (Hnd & Hbest & Hall). split_and!.
  - rewrite merge_candidate_addresses. case_decide; [done|].
    apply NoDup_app. split_and!; [done| |apply NoDup_singleton].
    by intros x Hx ->%list_elem_of_singleton.
  - intros x Hx. destruct (merge_candidate_elem acc c x Hnd Hx) as [Hin Hp].
    split.
    + apply elem_of_app. destruct Hin as [Hin| ->]; [left; by apply Hbest | right; by left].
    + intros d [Hd| ->%list_elem_of_singleton]%elem_of_app Ha; [|by destruct (Hp (eq_sym Ha))].
      destruct Hin as [Hin| ->]; [by apply Hbest|].
      destruct (Hp eq_refl) as [_ Hacc].
      specialize (Hall d Hd). apply list_elem_of_fmap in Hall as (e & He & Hein).
      destruct (Hbest e Hein) as [_ Hbe]. specialize (Hacc e Hein ltac:(congruence)).
      specialize (Hbe d Hd ltac:(congruence)). lia.
  - intros d Hd. rewrite merge_candidate_addresses.
    apply elem_of_app in Hd as [Hd| ->%list_elem_of_singleton]; case_decide; try done.
    + by apply Hall.
    + apply elem_of_app. left. by apply Hall.
    + apply elem_of_app. right. by left.
Qed.

Lemma fold_merge_merged seen acc l :
  merged seen acc -> merged (seen ++ l) (fold_left merge_candidate l acc).
Proof.
  revert seen acc; induction l as [|c l IH]; intros seen acc Hm; cbn.
  - by rewrite app_nil_r.
  - rewrite (cons_middle c seen l), app_assoc. by apply IH, merge_candidate_merged.
Qed.

#[export] Instance prio_le_total : Total prio_le.
Proof. intros x y. unfold prio_le. lia. Qed.

#[export] Instance prio_le_trans : Transitive prio_le.
Proof. intros x y z. unfold prio_le. lia. Qed.

(** the candidates to try hold every address once, with the best-ranked
    candidate given for it, in order of rank (private host, public host, peer
    reflexive, server reflexive). *)
Theorem candidates_ordered l :
  let out := ordered_connection_candidates l in
  NoDup (map Candidate_address out)
  /\ StronglySorted prio_le out
  /\ (forall c, c ∈ out -> c ∈ l /\ forall d, d ∈ l ->
        Candidate_address d = Candidate_address c ->
        candidate_priority c <= candidate_priority d)
  /\ (forall d, d ∈ l -> Candidate_address d ∈ map Candidate_address out).
Proof.
  unfold ordered_connection_candidates; cbn zeta.
  destruct (fold_merge_merged [] [] l) as (Hnd & Hbest & Hall).
  { split_and!; [constructor | by intros c ?%elem_of_nil..]. }
  rewrite app_nil_l in *.
  pose proof (merge_sort_Permutation prio_le (fold_left merge_candidate l [])) as Hp.
  split_and!.
  - by rewrite Hp.
  - apply StronglySorted_merge_sort; apply _.
  - intros c. rewrite Hp. apply Hbest.
  - intros d Hd. rewrite Hp. by apply Hall.
Qed.

(** ** The data path *)

Section DataPath.
Context `{HA : AeadOps} {HL : AeadLaws HA}.

(** What the other end finds in a sealed packet: the header, and a body that opens
    to the packet. *)
Lemma sealed_packet_opens tx rx sid seq packet wire source :
  cipher_tx tx = cipher_rx rx -> is_u 64 sid -> is_u 64 seq ->
  seal_data_packet sid tx seq packet = Ok wire ->
  exists h d, Header_decode wire = Ok h /\ decode_data_packet wire h source = Ok d
    /\ session_id h = sid /\ sequence h = seq /\ packet_type h = Data
    /\ dp_header d = h /\ dp_source d = source
    /\ decrypt_in_place rx seq (encoded_header h) (dp_payload d) = Ok packet.
Proof.
  intros Hk Hsid Hseq E. unfold seal_data_packet in E. inv_ok.
  match goal with Hn : Header_new _ _ _ _ = _ |- _ => unfold Header_new in Hn end.
  inv_ok. unbool. destruct x0 as [c t]; cbn [fst snd] in *.
  match goal with |- context [Header_encode ?hh] => set (h := hh) in * end.
  assert (Hwf : Header_wf h) by (unfold Header_wf, is_u, U16_MAX in *; cbn; split_and!; lia).
  assert (Henc : encrypt tx seq (encoded_header h) packet = Ok (c ++ t)).
  { unfold encrypt. match goal with He : encrypt_in_place_detached _ _ _ _ = _ |- _ => by rewrite He end. }
  destruct (open_of_seal tx rx seq (encoded_header h) packet (c ++ t) Hk Henc) as [Hdec Hlen].
  exists h. rewrite Header_decode_encode by done.
  unfold decode_data_packet. rewrite length_app, length_Header_encode, Hlen.
  replace (Z.to_nat (payload_len h)) with (length packet + 16)%nat by (cbn; lia).
  rewrite Nat.ltb_irrefl, Nat.eqb_refl. cbn [negb].
  eexists. split_and!; [done..|]. cbn [dp_payload].
  by rewrite <- (length_Header_encode h), drop_app_length, decrypt_in_place_decrypt.
Qed.

(** a data packet sealed by one end of a session is opened by the other to
    the same IP packet, with the session id and sequence it was sent under. *)
Theorem data_packet_roundtrip keys initiator sid seq packet wire source :
  is_u 64 sid -> is_u 64 seq ->
  seal_data_packet sid (session_cipher keys initiator) seq packet = Ok wire ->
  exists h, open_data_packet (session_cipher keys (negb initiator)) wire source = Ok (h, packet)
    /\ session_id h = sid /\ sequence h = seq /\ packet_type h = Data.
Proof.
  intros Hsid Hseq E.
  destruct (sealed_packet_opens (session_cipher keys initiator) (session_cipher keys (negb initiator))
              sid seq packet wire source) as (h & d & Hh & Hd & <- & <- & Ht & _ & _ & Ho);
    [by destruct initiator|done..|].
  exists h. split; [|done]. unfold open_data_packet. rewrite Hh. cbn [rmap_err rbind].
  rewrite Hd. cbn [rmap_err rbind]. by rewrite Ho.
Qed.
End DataPath.

(** ** Witnesses *)

Definition toy_peer : PeerInfo :=
  mkPeer (replicate 32 1) 4 [7] (replicate 32 3) [] (Some 0x0afe0001) None [] [].

Lemma probe_roundtrip_witness :
  exists p, decode_probe (encode_probe (H := toy_sig) (replicate 32 1) (replicate 32 2) 5 1000
                            (replicate 16 9) [7]) = Ok p
    /\ probe_sender p = replicate 32 1 /\ probe_receiver p = replicate 32 2
    /\ probe_session_id p = 5 /\ probe_nonce p = replicate 16 9
    /\ (verify_probe (H := toy_sig) p toy_peer 1080 = Ok tt
        <-> 1000 - 90 <= 1080 <= 1000 + 90).
Proof.
  apply (probe_roundtrip (HS := toy_sig_laws) (replicate 32 1) (replicate 32 2) 5 1000
           (replicate 16 9) [7] toy_peer 1080); [|reflexivity..].
  unfold probe_typed. split_and!; by_decide.
Defined.

Definition toy_context : HandshakeContext :=
  mkContext (replicate 16 6) 12 (replicate 32 1) 4 (Some 0x0afe0001) None.

Definition path_zero : SocketAddr := SockV4 0 0.

Lemma toy_context_typed : context_typed toy_context.
Proof. unfold context_typed; cbn. split_and!; try by_decide; [by intros a [= <-]; by_decide | done]. Qed.

Lemma handshake_context_checked_witness :
  validate_handshake_context (replicate 16 6) (encode_handshake_context toy_context)
    (replicate 32 1) toy_peer = Ok tt.
Proof.
  apply (handshake_context_checked (replicate 16 6) toy_context (replicate 32 1) toy_peer);
    [apply toy_context_typed | by_decide].
Defined.

Lemma data_packet_roundtrip_witness :
  exists h, open_data_packet (H := toy_aead) (session_cipher (mkKeys [1] [2]) false)
              (Header_encode (mkHeader 2 Data 0 8 9 17) ++ [42] ++ toy_tag) path_zero = Ok (h, [42])
    /\ session_id h = 8 /\ sequence h = 9 /\ packet_type h = Data.
Proof.
  apply (data_packet_roundtrip (HL := toy_aead_laws) (mkKeys [1] [2]) true 8 9 [42]);
    [by_decide | by_decide | vm_compute; reflexivity].
Defined.
