(* ===== verification/Control.v ===== *)
(** * Control messages

    [ControlMessage] of [vela-proto/src/lib.rs], exchanged by a node and the
    coordinator as JSON over a WebSocket.  Strings are their UTF-8 bytes; keys and
    credentials in them are base64 text. *)
From S2P Require Import Prelude Net Wire NodeId Snapshot.

Inductive ControlMessage : Type :=
| Register (node_id : bytes) (incarnation : Z) (signing_public noise_public credential : bytes)
    (invite_token : option bytes) (candidates : list Candidate)
    (capabilities : list PeerCapability)
| RegisterOk (credential : bytes) (peers : list PublicPeerInfo) (snapshot : NetworkSnapshot)
| UpdateCandidates (candidates : list Candidate)
| RuntimeStatus (virtual_mtu : Z)
| RequestSnapshot
| LookupPeer (node_id : bytes)
| PeerInfoMsg (peer : PublicPeerInfo)
| ListPeers
| ListPeersOk (peers : list PeerSummary)
| ConnectSignal (from : PublicPeerInfo) (to : bytes)
| Revoke (node_id : bytes)
| SnapshotMsg (snapshot : NetworkSnapshot)
| SnapshotResponse (snapshot : NetworkSnapshot)
| ErrorMsg (code message : bytes)
| Ping (nonce : Z)
| Pong (nonce : Z).
