(* ===== verification/CoordDb.v ===== *)
(** * The coordinator's tables

    The SQLite tables of [vela-coord/src/lib.rs] ([peers], [invites], the snapshot
    generation of [metadata]) and the statements that read and write them, with
    the allocation of virtual addresses.  A row holds the values of its columns:
    the JSON columns (candidates, capabilities) and the address blobs are stored as
    the values they encode, integers as the [i64] SQLite keeps.  Statements are
    assumed to succeed; the mutex around the connection makes each one atomic. *)
From S2P Require Import Prelude Net Encoding Wire NodeId Snapshot.

Definition VIRTUAL_IPV4_NETWORK_BASE : Z := be_value [10; 254; 0; 0].
Definition VIRTUAL_IPV4_PREFIX_LEN : Z := 16.
Definition VIRTUAL_IPV4_USABLE_HOSTS : Z := 2 ^ 16 - 2.

(** A row of [peers]. *)
Record PeerRow : Type := mkRow {
  row_signing_public : bytes;
  row_noise_public : bytes;
  row_incarnation : Z;
  row_candidates : list Candidate;
  row_virtual_ipv4 : option Z;
  row_virtual_ipv6 : option Z;
  row_credential : bytes;
  row_capabilities : list PeerCapability;
  row_revoked : bool;
  row_name : bytes;
  row_notes : bytes;
  row_last_seen : Z
}.

(** A row of [invites]; the table's key is the token hash. *)
Record InviteRow : Type := mkInvite {
  inv_id : bytes;
  inv_expires_at : Z;
  inv_used : bool;
  inv_name : bytes;
  inv_notes : bytes;
  inv_created_at : Z;
  inv_revoked : bool;
  inv_download_token_hash : bytes;
  inv_download_used : bool
}.

Record StoredPeer : Type := mkStored {
  sp_node_id : bytes;
  sp_incarnation : Z;
  sp_name : bytes;
  sp_signing_public : bytes;
  sp_noise_public : bytes;
  sp_candidates : list Candidate;
  sp_virtual_ipv4 : option Z;
  sp_virtual_ipv6 : option Z;
  sp_credential : bytes;
  sp_capabilities : list PeerCapability;
  sp_last_seen : Z
}.

Abbreviation PeerTable := (gmap bytes PeerRow).
Abbreviation InviteTable := (gmap bytes InviteRow).

(** ** Reading *)

Definition stored_of_row (id : bytes) (r : PeerRow) : StoredPeer :=
  {| sp_node_id := id;
     sp_incarnation := wrap 64 (row_incarnation r);
     sp_name := row_name r;
     sp_signing_public := row_signing_public r;
     sp_noise_public := row_noise_public r;
     sp_candidates := row_candidates r;
     sp_virtual_ipv4 := row_virtual_ipv4 r;
     sp_virtual_ipv6 := row_virtual_ipv6 r;
     sp_credential := row_credential r;
     sp_capabilities := row_capabilities r;
     sp_last_seen := wrap 64 (Z.max (row_last_seen r) 0) |}.

(** [SELECT ... WHERE node_id = ?1 AND revoked = 0] *)
Definition load_peer (t : PeerTable) (id : bytes) : option StoredPeer :=
  match t !! id with
  | Some r => if row_revoked r then None else Some (stored_of_row id r)
  | None => None
  end.

Definition active (t : PeerTable) : PeerTable := filter (fun kv => row_revoked kv.2 = false) t.

(** [SELECT ... WHERE revoked = 0 ORDER BY node_id] *)
Definition load_peers (t : PeerTable) : list StoredPeer :=
  sort_by_key sp_node_id (map (fun kv => stored_of_row kv.1 kv.2) (map_to_list (active t))).

(** [CoordServer::list_peers] *)
Definition list_peers (t : PeerTable) : list bytes :=
  sort_by_key (fun id => id) (map fst (map_to_list (active t))).

(** ** Writing *)

Definition coalesce {A} (x y : option A) : option A :=
  match x with Some a => Some a | None => y end.

(** [INSERT ... ON CONFLICT(node_id) DO UPDATE]: the name, notes and last-seen
    columns keep their values on a conflict and their defaults on an insert. *)
Definition update_peer (t : PeerTable) (p : StoredPeer) : PeerTable :=
  let old := t !! sp_node_id p in
  <[sp_node_id p := {|
     row_signing_public := sp_signing_public p;
     row_noise_public := sp_noise_public p;
     row_incarnation := wrap_signed 64 (sp_incarnation p);
     row_candidates := sp_candidates p;
     row_virtual_ipv4 := coalesce (sp_virtual_ipv4 p) (old ≫= row_virtual_ipv4);
     row_virtual_ipv6 := coalesce (sp_virtual_ipv6 p) (old ≫= row_virtual_ipv6);
     row_credential := sp_credential p;
     row_capabilities := sp_capabilities p;
     row_revoked := false;
     row_name := default [] (row_name <$> old);
     row_notes := default [] (row_notes <$> old);
     row_last_seen := default 0 (row_last_seen <$> old) |}]> t.

Definition set_metadata (name notes : bytes) (r : PeerRow) : PeerRow :=
  mkRow (row_signing_public r) (row_noise_public r) (row_incarnation r) (row_candidates r)
    (row_virtual_ipv4 r) (row_virtual_ipv6 r) (row_credential r) (row_capabilities r)
    (row_revoked r) name notes (row_last_seen r).

Definition update_peer_metadata (t : PeerTable) (id name notes : bytes) : bool * PeerTable :=
  (bool_decide (is_Some (t !! id)), alter (set_metadata name notes) id t).

Definition set_last_seen (v : Z) (r : PeerRow) : PeerRow :=
  mkRow (row_signing_public r) (row_noise_public r) (row_incarnation r) (row_candidates r)
    (row_virtual_ipv4 r) (row_virtual_ipv6 r) (row_credential r) (row_capabilities r)
    (row_revoked r) (row_name r) (row_notes r) v.

Definition touch_peer (t : PeerTable) (id : bytes) (now : Z) : PeerTable :=
  alter (set_last_seen (wrap_signed 64 now)) id t.

Definition set_revoked (r : PeerRow) : PeerRow :=
  mkRow (row_signing_public r) (row_noise_public r) (row_incarnation r) (row_candidates r)
    (row_virtual_ipv4 r) (row_virtual_ipv6 r) (row_credential r) (row_capabilities r)
    true (row_name r) (row_notes r) (row_last_seen r).

(** [UPDATE peers SET revoked = 1 WHERE node_id = ?1 AND revoked = 0]: whether a
    row changed, and the table after it. *)
Definition revoke_row (t : PeerTable) (id : bytes) : bool * PeerTable :=
  match t !! id with
  | Some r => if row_revoked r then (false, t) else (true, <[id := set_revoked r]> t)
  | None => (false, t)
  end.

(** [DELETE FROM peers WHERE node_id = ?1] *)
Definition delete_row (t : PeerTable) (id : bytes) : bool * PeerTable :=
  (bool_decide (is_Some (t !! id)), delete id t).

(** ** Virtual addresses *)

(** [SELECT 1 FROM peers WHERE virtual_ipv4 = ?1 LIMIT 1] *)
Definition address_used (t : PeerTable) (a : Z) : bool :=
  existsb (fun kv => bool_decide (row_virtual_ipv4 kv.2 = Some a)) (map_to_list t).

(** The host tried at an offset, and the loop [for offset in 0..USABLE_HOSTS]. *)
Definition candidate_host (start offset : Z) : Z :=
  1 + (start + offset) mod VIRTUAL_IPV4_USABLE_HOSTS.

Fixpoint scan_hosts (free : Z -> bool) (start : Z) (fuel : nat) (offset : Z) : option Z :=
  match fuel with
  | O => None
  | S k => let host := candidate_host start offset in
           if free host then Some host else scan_hosts free start k (offset + 1)
  end.

Definition usable_hosts : nat := Z.to_nat VIRTUAL_IPV4_USABLE_HOSTS.

(** The first host for a node: its id hashed again. *)
Definition host_start (blake3 : bytes -> bytes) (id : bytes) : Z :=
  be_value (take 4 (blake3 id)) mod VIRTUAL_IPV4_USABLE_HOSTS.

Definition allocate_virtual_ipv4 (blake3 : bytes -> bytes) (t : PeerTable) (id : bytes)
    : option Z :=
  Z.add VIRTUAL_IPV4_NETWORK_BASE <$>
  scan_hosts (fun host => negb (address_used t (VIRTUAL_IPV4_NETWORK_BASE + host)))
    (host_start blake3 id) usable_hosts 0.

Definition virtual_ipv4_host (a : Z) : option Z :=
  let host := a - VIRTUAL_IPV4_NETWORK_BASE in
  if (1 <=? host) && (host <=? VIRTUAL_IPV4_USABLE_HOSTS) then Some host else None.

(** [allocate_virtual_ipv4_from_used]: the address and the used set after it. *)
Definition allocate_from_used (blake3 : bytes -> bytes) (id : bytes) (used : gset Z)
    : option (Z * gset Z) :=
  (fun host => (VIRTUAL_IPV4_NETWORK_BASE + host, {[host]} ∪ used)) <$>
  scan_hosts (fun host => negb (bool_decide (host ∈ used))) (host_start blake3 id) usable_hosts 0.

(** The loop of [migrate_virtual_ipv4] over the rows in id order: the updates it
    collects, or failure when the pool is exhausted. *)
Fixpoint migrate_rows (blake3 : bytes -> bytes) (rows : list (bytes * option Z))
    (used : gset Z) : option (list (bytes * Z)) :=
  match rows with
  | [] => Some []
  | (id, stored) :: rest =>
      let reassign :=
        match allocate_from_used blake3 id used with
        | None => None
        | Some (a, used') => cons (id, a) <$> migrate_rows blake3 rest used'
        end in
      match stored ≫= virtual_ipv4_host with
      | None => reassign
      | Some host =>
          if bool_decide (host ∈ used) then reassign
          else migrate_rows blake3 rest ({[host]} ∪ used)
      end
  end.

Definition set_ipv4 (a : Z) (r : PeerRow) : PeerRow :=
  mkRow (row_signing_public r) (row_noise_public r) (row_incarnation r) (row_candidates r)
    (Some a) (row_virtual_ipv6 r) (row_credential r) (row_capabilities r)
    (row_revoked r) (row_name r) (row_notes r) (row_last_seen r).

Definition migrate_virtual_ipv4 (blake3 : bytes -> bytes) (t : PeerTable) : option PeerTable :=
  (fun updates => fold_left (fun t u => alter (set_ipv4 u.2) u.1 t) updates t) <$>
  migrate_rows blake3
    (sort_by_key fst (map (fun kv => (kv.1, row_virtual_ipv4 kv.2)) (map_to_list t))) ∅.

(** ** Allocation *)

Definition usable_host (host : Z) : Prop := 1 <= host <= VIRTUAL_IPV4_USABLE_HOSTS.
Definition usable_address (a : Z) : Prop :=
  VIRTUAL_IPV4_NETWORK_BASE + 1 <= a <= VIRTUAL_IPV4_NETWORK_BASE + VIRTUAL_IPV4_USABLE_HOSTS.

Lemma candidate_host_usable start offset : usable_host (candidate_host start offset).
Proof.
  unfold usable_host, candidate_host.
  pose proof (Z.mod_pos_bound (start + offset) VIRTUAL_IPV4_USABLE_HOSTS eq_refl). lia.
Qed.

Lemma scan_hosts_Some free start fuel offset host :
  scan_hosts free start fuel offset = Some host -> usable_host host /\ free host = true.
Proof.
  revert offset; induction fuel as [|k IH]; intros offset E; cbn in E; [done|].
  destruct (free (candidate_host start offset)) eqn:Hf; [|by eapply IH].
  injection E as <-. split; [apply candidate_host_usable | done].
Qed.

Lemma scan_hosts_None free start fuel offset i :
  scan_hosts free start fuel offset = None ->
  offset <= i < offset + Z.of_nat fuel -> free (candidate_host start i) = false.
Proof.
  revert offset; induction fuel as [|k IH]; intros offset E Hi; cbn in E; [lia|].
  destruct (free (candidate_host start offset)) eqn:Hf; [done|].
  destruct (decide (i = offset)) as [->|]; [done|]. apply (IH (offset + 1)); [done|lia].
Qed.

(** Every usable host is tried at some offset. *)
Lemma candidate_host_onto start host :
  0 <= start < VIRTUAL_IPV4_USABLE_HOSTS -> usable_host host ->
  exists i, 0 <= i < VIRTUAL_IPV4_USABLE_HOSTS /\ candidate_host start i = host.
Proof.
  intros Hs Hh. unfold usable_host, candidate_host in *.
  exists ((host - 1 - start) mod VIRTUAL_IPV4_USABLE_HOSTS).
  split; [by apply Z.mod_pos_bound|].
  rewrite Z.add_mod_idemp_r by done.
  replace (start + (host - 1 - start)) with (host - 1) by lia.
  rewrite Z.mod_small by lia. lia.
Qed.

Lemma scan_all_None free start :
  0 <= start < VIRTUAL_IPV4_USABLE_HOSTS ->
  scan_hosts free start usable_hosts 0 = None ->
  forall host, usable_host host -> free host = false.
Proof.
  intros Hs E host Hh. destruct (candidate_host_onto start host Hs Hh) as (i & Hi & <-).
  eapply scan_hosts_None; [exact E|]. unfold usable_hosts. rewrite Z2Nat.id by done. lia.
Qed.

Lemma host_start_bound blake3 id : 0 <= host_start blake3 id < VIRTUAL_IPV4_USABLE_HOSTS.
Proof. by apply Z.mod_pos_bound. Qed.

Lemma address_used_iff t a :
  address_used t a = true <-> exists id r, t !! id = Some r /\ row_virtual_ipv4 r = Some a.
Proof.
  unfold address_used. rewrite existsb_exists. split.
  - intros ([id r] & Hin & Hb). unbool. apply list_elem_of_In, elem_of_map_to_list in Hin.
    by exists id, r.
  - intros (id & r & Hl & Ha). exists (id, r). split.
    + by apply list_elem_of_In, elem_of_map_to_list.
    + by apply bool_decide_eq_true_2.
Qed.

Lemma allocate_Some blake3 t id a :
  allocate_virtual_ipv4 blake3 t id = Some a ->
  usable_address a /\ forall id' r, t !! id' = Some r -> row_virtual_ipv4 r <> Some a.
Proof.
  unfold allocate_virtual_ipv4. intros (host & E & ->)%fmap_Some.
  apply scan_hosts_Some in E as [Hh Hf]. split; [unfold usable_address, usable_host in *; lia|].
  intros id' r Hl Ha. apply negb_true_iff in Hf.
  assert (address_used t (VIRTUAL_IPV4_NETWORK_BASE + host) = true); [|congruence].
  apply address_used_iff. by exists id', r.
Qed.

Lemma allocate_None blake3 t id :
  allocate_virtual_ipv4 blake3 t id = None ->
  forall a, usable_address a -> exists id' r, t !! id' = Some r /\ row_virtual_ipv4 r = Some a.
Proof.
  unfold allocate_virtual_ipv4. intros E%fmap_None a Ha. apply address_used_iff.
  pose proof (scan_all_None _ _ (host_start_bound blake3 id) E
                (a - VIRTUAL_IPV4_NETWORK_BASE)) as Hf. cbn beta in Hf.
  specialize (Hf ltac:(unfold usable_host, usable_address in *; lia)).
  replace (VIRTUAL_IPV4_NETWORK_BASE + (a - VIRTUAL_IPV4_NETWORK_BASE)) with a in Hf by lia.
  by apply negb_false_iff in Hf.
Qed.

(** ** The address invariant of the peer table *)

Definition addresses_ok (t : PeerTable) : Prop :=
  (forall id r, t !! id = Some r -> exists a, row_virtual_ipv4 r = Some a /\ usable_address a)
  /\ (forall id1 id2 r1 r2 a, t !! id1 = Some r1 -> t !! id2 = Some r2 ->
        row_virtual_ipv4 r1 = Some a -> row_virtual_ipv4 r2 = Some a -> id1 = id2).

(** address allocation is exact: it returns an address of the pool that no
    row holds, and fails only when every address of the pool is held. *)
Theorem allocate_exact blake3 t id :
  match allocate_virtual_ipv4 blake3 t id with
  | Some a => usable_address a /\ forall id' r, t !! id' = Some r -> row_virtual_ipv4 r <> Some a
  | None => forall a, usable_address a ->
              exists id' r, t !! id' = Some r /\ row_virtual_ipv4 r = Some a
  end.
Proof.
  destruct (allocate_virtual_ipv4 blake3 t id) eqn:E.
  - by eapply allocate_Some.
  - by eapply allocate_None.
Qed.

(** ** Migration of addresses at start-up *)

Lemma virtual_ipv4_host_Some a host :
  virtual_ipv4_host a = Some host <-> usable_host host /\ a = VIRTUAL_IPV4_NETWORK_BASE + host.
Proof.
  unfold virtual_ipv4_host, usable_host. split.
  - intros H. destruct (_ && _) eqn:E in H; [|done]. injection H as <-. unbool. lia.
  - intros [Hh ->].
    replace (VIRTUAL_IPV4_NETWORK_BASE + host - VIRTUAL_IPV4_NETWORK_BASE) with host by lia.
    destruct (Z.leb_spec 1 host); [|lia].
    by destruct (Z.leb_spec host VIRTUAL_IPV4_USABLE_HOSTS); [|lia].
Qed.

Lemma allocate_from_used_Some blake3 id used a used' :
  allocate_from_used blake3 id used = Some (a, used') ->
  exists host, usable_host host /\ host ∉ used
               /\ a = VIRTUAL_IPV4_NETWORK_BASE + host /\ used' = {[host]} ∪ used.
Proof.
  unfold allocate_from_used. intros (host & E & [= -> ->])%fmap_Some.
  apply scan_hosts_Some in E as [Hh Hf]. unbool. by exists host.
Qed.

(** One row of the migration: it keeps a usable address nobody has, or gets one. *)
Lemma migrate_rows_cons blake3 id st rows used ups :
  migrate_rows blake3 ((id, st) :: rows) used = Some ups ->
  exists host ups', usable_host host /\ host ∉ used
    /\ migrate_rows blake3 rows ({[host]} ∪ used) = Some ups'
    /\ (ups = (id, VIRTUAL_IPV4_NETWORK_BASE + host) :: ups'
        \/ (ups = ups' /\ st = Some (VIRTUAL_IPV4_NETWORK_BASE + host))).
Proof.
  cbn. intros E.
  assert (Hre : match allocate_from_used blake3 id used with
                | None => None
                | Some (a, used') => cons (id, a) <$> migrate_rows blake3 rows used'
                end = Some ups ->
    exists host ups', usable_host host /\ host ∉ used
    /\ migrate_rows blake3 rows ({[host]} ∪ used) = Some ups'
    /\ (ups = (id, VIRTUAL_IPV4_NETWORK_BASE + host) :: ups'
        \/ (ups = ups' /\ st = Some (VIRTUAL_IPV4_NETWORK_BASE + host)))).
  { destruct (allocate_from_used blake3 id used) as [[a used']|] eqn:Ea; [|done].
    intros (ups' & Eu & ->)%fmap_Some.
    apply allocate_from_used_Some in Ea as (host & ? & ? & -> & ->). eauto 10. }
  destruct (st ≫= virtual_ipv4_host) as [host|] eqn:Hst; [|by apply Hre].
  destruct (bool_decide (host ∈ used)) eqn:Hb; unbool; [by apply Hre|].
  apply bind_Some in Hst as (a & -> & Hv). apply virtual_ipv4_host_Some in Hv as [? ->].
  eauto 10.
Qed.

(** What the updates say of a row: its new address, or nothing when it keeps the
    old one; the addresses are usable, unused and pairwise distinct. *)
Definition final_address (ups : list (bytes * Z)) (id : bytes) (st : option Z) (a : Z) : Prop :=
  (id, a) ∈ ups \/ (id ∉ map fst ups /\ st = Some a).

Lemma migrate_rows_assign blake3 rows used ups :
  NoDup (map fst rows) -> migrate_rows blake3 rows used = Some ups ->
  (forall id a, (id, a) ∈ ups -> id ∈ map fst rows)
  /\ NoDup (map fst ups)
  /\ exists assign : gmap bytes Z,
       (forall id st, (id, st) ∈ rows -> exists h, assign !! id = Some h
          /\ usable_host h /\ h ∉ used
          /\ final_address ups id st (VIRTUAL_IPV4_NETWORK_BASE + h))
       /\ (forall id h, assign !! id = Some h -> h ∉ used)
       /\ (forall id1 id2 h, assign !! id1 = Some h -> assign !! id2 = Some h -> id1 = id2)
       /\ (forall id, is_Some (assign !! id) -> id ∈ map fst rows).
Proof.
  revert used ups; induction rows as [|[id st] rows IH]; intros used ups Hnd E.
  { injection E as <-. split_and!; [by intros ? ? ?%elem_of_nil | constructor |].
    exists ∅. split_and!; [by intros ? ? ?%elem_of_nil | done | done |].
    intros i [x Hx]. done. }
  apply migrate_rows_cons in E as (host & ups' & Hh & Hu & E & Hups).
  cbn [map fst] in Hnd. apply NoDup_cons in Hnd as [Hid Hnd].
  destruct (IH _ _ Hnd E) as (Hin & Hndu & assign & Ha & Hfresh & Hinj & Hdom).
  assert (Hid' : id ∉ map fst ups').
  { intros ((i & a) & -> & Hia)%list_elem_of_fmap. by apply Hid, (Hin i a). }
  assert (Hnone : assign !! id = None).
  { apply eq_None_not_Some. intros Hs. by apply Hid, Hdom. }
  split_and!.
  - intros i a Hi. destruct Hups as [-> | [-> _]].
    + apply elem_of_cons in Hi as [[= -> ->]|Hi]; [by left | right; by eapply Hin].
    + right. by eapply Hin.
  - destruct Hups as [-> | [-> _]]; [by constructor | done].
  - exists (<[id := host]> assign). split_and!.
    + intros i s [[= -> ->]|Hi]%elem_of_cons.
      * exists host. rewrite lookup_insert_eq. split_and!; try done.
        destruct Hups as [-> | [-> ->]]; [left; by left | by right].
      * assert (i <> id) by (intros ->; by apply Hid, (list_elem_of_fmap_2 fst _ (id, s))).
        destruct (Ha i s Hi) as (h & Hl & Hus & Hnu & Hf). exists h.
        rewrite lookup_insert_ne by done. split_and!; try done; [set_solver|].
        destruct Hups as [-> | [-> _]]; [|done].
        destruct Hf as [Hf|[Hf1 Hf2]]; [left; by right | right].
        split; [|done]. cbn. rewrite not_elem_of_cons. done.
    + intros i h. rewrite lookup_insert_Some. intros [[<- <-]|[_ Hl]]; [done|].
      apply Hfresh in Hl. set_solver.
    + intros i1 i2 h. rewrite !lookup_insert_Some.
      intros [[<- <-]|[? H1]] [[<- ?]|[? H2]]; try done.
      * apply Hfresh in H2. set_solver.
      * subst. apply Hfresh in H1. set_solver.
      * by eapply Hinj.
    + intros i [x Hx]. rewrite lookup_insert_Some in Hx.
      destruct Hx as [[<- _]|[_ Hx]]; [by left | right; apply Hdom; by exists x].
Qed.

Lemma fold_set_ipv4_lookup (ups : list (bytes * Z)) (t : PeerTable) id :
  NoDup (map fst ups) ->
  fold_left (fun t u => alter (set_ipv4 u.2) u.1 t) ups t !! id =
  (fun r => match list_find (fun u => u.1 = id) ups with
            | Some (_, u) => set_ipv4 u.2 r
            | None => r
            end) <$> t !! id.
Proof.
  revert t; induction ups as [|[i a] ups IH]; intros t Hnd; cbn.
  { by destruct (t !! id). }
  cbn in Hnd. apply NoDup_cons in Hnd as [Hi Hnd]. rewrite IH by done.
  case_decide as Hd; [subst i|].
  - rewrite lookup_alter_eq. destruct (t !! id) as [r|]; [|done]. cbn. f_equal.
    destruct (list_find (fun u : bytes * Z => u.1 = id) ups) as [[n u]|] eqn:El; [|done].
    apply list_find_Some in El as (Hu & Hx & _). exfalso. apply Hi. rewrite <- Hx.
    apply list_elem_of_fmap_2. by eapply list_elem_of_lookup_2.
  - rewrite lookup_alter_ne by done. destruct (t !! id) as [r|]; [|done]. cbn. f_equal.
    by destruct (list_find (fun u : bytes * Z => u.1 = id) ups) as [[n u]|].
Qed.

Lemma migrated_address (ups : list (bytes * Z)) (t : PeerTable) id r a :
  NoDup (map fst ups) -> t !! id = Some r -> final_address ups id (row_virtual_ipv4 r) a ->
  exists r', fold_left (fun t u => alter (set_ipv4 u.2) u.1 t) ups t !! id = Some r'
             /\ row_virtual_ipv4 r' = Some a.
Proof.
  intros Hnd Hl Hf. rewrite fold_set_ipv4_lookup, Hl by done. cbn. eexists; split; [done|].
  destruct (list_find (fun u : bytes * Z => u.1 = id) ups) as [[n [i b]]|] eqn:El.
  - apply list_find_Some in El as (Hu & Hx & _). cbn in Hx |- *. subst i. f_equal.
    destruct Hf as [Hf|[Hf _]].
    + apply list_elem_of_lookup in Hf as [m Hm].
      assert (n = m) as <-; [|congruence].
      eapply NoDup_lookup; [exact Hnd | by rewrite list_lookup_fmap, Hu |
        by rewrite list_lookup_fmap, Hm].
    + exfalso. apply Hf. apply list_elem_of_fmap. exists (id, b).
      split; [done|]. by eapply list_elem_of_lookup_2.
  - destruct Hf as [Hf|[_ Hf]]; [|done]. apply list_find_None in El.
    rewrite Forall_forall in El. by apply El in Hf.
Qed.

Lemma migrate_rows_nodup (t : PeerTable) :
  NoDup (map fst (sort_by_key fst
           (map (fun kv => (kv.1, row_virtual_ipv4 kv.2)) (map_to_list t)))).
Proof.
  rewrite sort_by_key_perm, map_map. cbn. apply NoDup_fst_map_to_list.
Qed.

(** opening a database leaves every peer with a usable address and no two
    peers with the same one, whatever addresses were stored before. *)
Theorem migrate_virtual_ipv4_ok blake3 t t' :
  migrate_virtual_ipv4 blake3 t = Some t' -> addresses_ok t'.
Proof.
  unfold migrate_virtual_ipv4. intros (ups & E & ->)%fmap_Some.
  apply migrate_rows_assign in E as (_ & Hnd & assign & Ha & _ & Hinj & _);
    [|apply migrate_rows_nodup].
  assert (Haddr : forall id r', fold_left (fun t u => alter (set_ipv4 u.2) u.1 t) ups t !! id = Some r' ->
    exists h, assign !! id = Some h /\ usable_host h
              /\ row_virtual_ipv4 r' = Some (VIRTUAL_IPV4_NETWORK_BASE + h)).
  { intros id r' Hl. pose proof Hl as Hl'. rewrite fold_set_ipv4_lookup in Hl' by done.
    apply fmap_Some in Hl' as (r & Hr & _).
    destruct (Ha id (row_virtual_ipv4 r)) as (h & Has & Hu & _ & Hf).
    { rewrite sort_by_key_perm. apply list_elem_of_fmap. exists (id, r).
      split; [done | by apply elem_of_map_to_list]. }
    destruct (migrated_address ups t id r _ Hnd Hr Hf) as (r'' & Hr'' & Hv).
    exists h. split_and!; [done..|congruence]. }
  split.
  - intros id r Hl. destruct (Haddr id r Hl) as (h & _ & Hu & ->). eexists; split; [done|].
    unfold usable_address, usable_host in *. lia.
  - intros id1 id2 r1 r2 a H1 H2 E1 E2.
    destruct (Haddr id1 r1 H1) as (h1 & A1 & _ & V1).
    destruct (Haddr id2 r2 H2) as (h2 & A2 & _ & V2).
    apply (Hinj _ _ h1); [done|]. rewrite A2. f_equal.
    assert (VIRTUAL_IPV4_NETWORK_BASE + h1 = VIRTUAL_IPV4_NETWORK_BASE + h2) by congruence. lia.
Qed.

Definition old_row (ip : option Z) : PeerRow :=
  mkRow [] [] 0 [] ip None [] [] false [] [] 0.

Definition clashing_table : PeerTable :=
  {[ [1] := old_row (Some (VIRTUAL_IPV4_NETWORK_BASE + 5));
     [2] := old_row (Some (VIRTUAL_IPV4_NETWORK_BASE + 5));
     [3] := old_row None ]}.

Lemma migrate_virtual_ipv4_ok_witness :
  exists t', migrate_virtual_ipv4 toy_hash clashing_table = Some t' /\ addresses_ok t'.
Proof.
  eexists. split; [vm_compute; reflexivity|].
  apply (migrate_virtual_ipv4_ok toy_hash clashing_table). vm_compute; reflexivity.
Defined.
