(* ===== verification/Coord.v ===== *)
(** * The coordination server

    [vela-coord/src/lib.rs]: the server's state ([ServerInner]), the handler of
    every control message, connection clean-up, revocation, invites, and the
    snapshots it signs and broadcasts.  A handler is a function of the state that
    may fail after changing it.  A handler reads the clock once, as [now].  The
    sending half of a connection is its id; what is sent is appended to
    [cs_sent], and sending to a connection whose writer has ended fails.  Base64
    and JSON text come from libraries, as do the hash and the signatures. *)
From S2P Require Import Prelude Net Encoding Wire NodeId Snapshot SignedBytes Crypto Control CoordDb.

Inductive CoordError : Type :=
| Coord_Io | Coord_Database | DatabasePoisoned | Coord_Serialization
| Coord_Crypto (e : CryptoError) | Coord_Random
| Coord_InvalidPeer | AddressPoolExhausted | SnapshotGenerationOverflow
| InviteRequired | InvalidInvite | InviteExpired | InvalidCredential
| PeerNotRegistered | NotRegistered | UnsupportedMessage | ConnectionClosed
| Coord_Server | AdminCredentials.

(** The text forms the server reads and writes. *)
Class TextOps : Type := {
  b64_encode : bytes -> bytes;
  b64_decode : bytes -> option bytes;
  json_credential : MembershipCredential -> bytes;
  parse_credential : bytes -> option MembershipCredential
}.

Class TextLaws (T : TextOps) : Prop := {
  b64_roundtrip x : b64_decode (b64_encode x) = Some x;
  json_roundtrip c : parse_credential (json_credential c) = Some c
}.

(** What is put on a connection: a control message, or a snapshot for the
    latest-only channel. *)
Inductive Outgoing : Type :=
| Control (m : ControlMessage)
| LatestSnapshot (s : NetworkSnapshot).

Record CoordState : Type := mkCoord {
  cs_peers : PeerTable;
  cs_invites : InviteTable;
  cs_meta_generation : Z;
  cs_generation : Z;
  cs_online : gmap bytes (gset Z);
  cs_runtime : gmap bytes (gmap Z Z);
  cs_pending : bool;
  cs_running : bool;
  cs_doh : list bytes;
  cs_stun : list bytes;
  cs_conns : gmap Z (option bytes);
  cs_closed : gset Z;
  cs_sent : list (Z * Outgoing)
}.

Abbreviation H A := (handler CoordState CoordError A).

(** ** Field updates *)

Definition set_peers (t : PeerTable) (s : CoordState) : CoordState :=
  mkCoord t (cs_invites s) (cs_meta_generation s) (cs_generation s) (cs_online s)
    (cs_runtime s) (cs_pending s) (cs_running s) (cs_doh s) (cs_stun s) (cs_conns s)
    (cs_closed s) (cs_sent s).
Definition set_invites (t : InviteTable) (s : CoordState) : CoordState :=
  mkCoord (cs_peers s) t (cs_meta_generation s) (cs_generation s) (cs_online s)
    (cs_runtime s) (cs_pending s) (cs_running s) (cs_doh s) (cs_stun s) (cs_conns s)
    (cs_closed s) (cs_sent s).
Definition set_generation (g : Z) (s : CoordState) : CoordState :=
  mkCoord (cs_peers s) (cs_invites s) g g (cs_online s)
    (cs_runtime s) (cs_pending s) (cs_running s) (cs_doh s) (cs_stun s) (cs_conns s)
    (cs_closed s) (cs_sent s).
Definition set_online (o : gmap bytes (gset Z)) (s : CoordState) : CoordState :=
  mkCoord (cs_peers s) (cs_invites s) (cs_meta_generation s) (cs_generation s) o
    (cs_runtime s) (cs_pending s) (cs_running s) (cs_doh s) (cs_stun s) (cs_conns s)
    (cs_closed s) (cs_sent s).
Definition set_runtime (r : gmap bytes (gmap Z Z)) (s : CoordState) : CoordState :=
  mkCoord (cs_peers s) (cs_invites s) (cs_meta_generation s) (cs_generation s) (cs_online s)
    r (cs_pending s) (cs_running s) (cs_doh s) (cs_stun s) (cs_conns s)
    (cs_closed s) (cs_sent s).
Definition set_broadcast (pending running : bool) (s : CoordState) : CoordState :=
  mkCoord (cs_peers s) (cs_invites s) (cs_meta_generation s) (cs_generation s) (cs_online s)
    (cs_runtime s) pending running (cs_doh s) (cs_stun s) (cs_conns s)
    (cs_closed s) (cs_sent s).
Definition set_config (doh stun : list bytes) (s : CoordState) : CoordState :=
  mkCoord (cs_peers s) (cs_invites s) (cs_meta_generation s) (cs_generation s) (cs_online s)
    (cs_runtime s) (cs_pending s) (cs_running s) doh stun (cs_conns s)
    (cs_closed s) (cs_sent s).
Definition set_conns (c : gmap Z (option bytes)) (s : CoordState) : CoordState :=
  mkCoord (cs_peers s) (cs_invites s) (cs_meta_generation s) (cs_generation s) (cs_online s)
    (cs_runtime s) (cs_pending s) (cs_running s) (cs_doh s) (cs_stun s) c
    (cs_closed s) (cs_sent s).
Definition set_closed (c : gset Z) (s : CoordState) : CoordState :=
  mkCoord (cs_peers s) (cs_invites s) (cs_meta_generation s) (cs_generation s) (cs_online s)
    (cs_runtime s) (cs_pending s) (cs_running s) (cs_doh s) (cs_stun s) (cs_conns s)
    c (cs_sent s).
Definition push_sent (c : Z) (m : Outgoing) (s : CoordState) : CoordState :=
  mkCoord (cs_peers s) (cs_invites s) (cs_meta_generation s) (cs_generation s) (cs_online s)
    (cs_runtime s) (cs_pending s) (cs_running s) (cs_doh s) (cs_stun s) (cs_conns s)
    (cs_closed s) (cs_sent s ++ [(c, m)]).

(** ** Sending *)

(** [outbound.send(..).await.map_err(|_| ConnectionClosed)] *)
Definition send (conn : Z) (m : ControlMessage) : H unit :=
  fun s => if bool_decide (conn ∈ cs_closed s) then (Err ConnectionClosed, s)
           else (Ok tt, push_sent conn (Control m) s).

(** [let _ = sender.send(..).await] *)
Definition send_ignore (conn : Z) (m : ControlMessage) (s : CoordState) : CoordState :=
  snd (send conn m s).

(** ** Snapshots *)

(** [bump_snapshot]: the generation is stored before it is published. *)
Definition bump_snapshot : H unit :=
  fun s =>
    let g := cs_generation s + 1 in
    if U64_MAX <? g then (Err SnapshotGenerationOverflow, s)
    else if 2 ^ 63 - 1 <? g then (Err SnapshotGenerationOverflow, s)
    else (Ok tt, set_generation g s).

(** [broadcast_snapshot]: mark a broadcast pending and start the loop if it does
    not run. *)
Definition broadcast_snapshot : H unit := hmodify (set_broadcast true true).

Definition public_peer `{TextOps} (p : StoredPeer) : PublicPeerInfo :=
  {| pub_node_id := sp_node_id p;
     pub_incarnation := sp_incarnation p;
     pub_signing_public := b64_encode (sp_signing_public p);
     pub_noise_public := b64_encode (sp_noise_public p);
     pub_candidates := sp_candidates p;
     pub_virtual_ipv4 := sp_virtual_ipv4 p;
     pub_virtual_ipv6 := sp_virtual_ipv6 p;
     pub_credential := b64_encode (sp_credential p);
     pub_capabilities := sp_capabilities p |}.

Definition private_peer (p : StoredPeer) : PeerInfo :=
  {| node_id := sp_node_id p;
     incarnation := sp_incarnation p;
     signing_public := sp_signing_public p;
     noise_public := sp_noise_public p;
     candidates := sp_candidates p;
     virtual_ipv4 := sp_virtual_ipv4 p;
     virtual_ipv6 := sp_virtual_ipv6 p;
     credential := sp_credential p;
     capabilities := sp_capabilities p |}.

Definition online_ids (s : CoordState) : list bytes := map fst (map_to_list (cs_online s)).

(** [online_peer_ids] *)
Definition online_peer_ids (s : CoordState) : list bytes :=
  sort_by_key (fun id => id) (online_ids s).

Definition default_v4_cidr : Ipv4Cidr :=
  mkCidr4 VIRTUAL_IPV4_NETWORK_BASE VIRTUAL_IPV4_PREFIX_LEN.

Section Server.
Context {HH : Hash} {HSg : SignatureOps} {HT : TextOps}.
Context (tenant signer : bytes).

Definition network_snapshot (s : CoordState) (online : list bytes) (now : Z) : NetworkSnapshot :=
  sign_snapshot signer
    (mkSnapshot (take 16 (blake3 tenant)) (cs_generation s) (Some default_v4_cidr) None
       (cs_doh s) (cs_stun s) (map private_peer (load_peers (cs_peers s))) online
       (sat_add64 now 3600) []).

(** [broadcast_snapshot_now]: one snapshot on the latest-only channel of every
    connection of every online peer. *)
Definition broadcast_snapshot_now (now : Z) (s : CoordState) : CoordState :=
  let snapshot := network_snapshot s (online_ids s) now in
  let senders := concat (map (fun kv => elements kv.2) (map_to_list (cs_online s))) in
  fold_left (fun s c => push_sent c (LatestSnapshot snapshot) s) senders s.

(** A turn of [snapshot_broadcast_loop] after its sleep, when it runs: broadcast
    if one is pending; the loop stops when none is pending after it. *)
Definition broadcast_turn (now : Z) (s : CoordState) : CoordState :=
  if negb (cs_pending s) then set_broadcast false false s
  else
    let s := broadcast_snapshot_now now (set_broadcast false (cs_running s) s) in
    set_broadcast (cs_pending s) (cs_pending s) s.

(** ** Registration *)

Definition decode_key (value : bytes) : result bytes CoordError :=
  match b64_decode value with
  | Some b => if (length b =? 32)%nat then Ok b else Err Coord_InvalidPeer
  | None => Err Coord_InvalidPeer
  end.

Record InviteRegistration : Type := mkInviteRegistration {
  ir_name : bytes;
  ir_notes : bytes;
  ir_credential : MembershipCredential
}.

Definition mark_used (r : InviteRow) : InviteRow :=
  mkInvite (inv_id r) (inv_expires_at r) true (inv_name r) (inv_notes r)
    (inv_created_at r) (inv_revoked r) (inv_download_token_hash r) true.

Definition register_with_invite (id signing noise token : bytes) (now : Z)
    : H InviteRegistration :=
  fun s =>
    let hash := blake3 token in
    match cs_invites s !! hash with
    | None => (Err InvalidInvite, s)
    | Some r =>
        if inv_revoked r || inv_used r || (inv_expires_at r <? wrap_signed 64 now)
        then (Err InviteExpired, s)
        else
          (Ok (mkInviteRegistration (inv_name r) (inv_notes r)
                 (Credential_sign
                    (Credential_unsigned (mkIdentity id signing noise) tenant
                       (sat_add64 now (365 * 24 * 3600)) now (ServerSigner_key_id signer))
                    signer)),
           set_invites (<[hash := mark_used r]> (cs_invites s)) s)
    end.

(** The credential branch of [Register]: the presented credential must be ours and
    name this peer; the stored one is returned. *)
Definition check_credential (id signing noise credential : bytes) (now : Z) (t : PeerTable)
    : result bytes CoordError :=
  let? b := ok_or (b64_decode credential) InvalidCredential in
  let? c := ok_or (parse_credential b) Coord_Serialization in
  let? _ := rmap_err (fun _ => InvalidCredential)
              (Credential_verify c (ServerSigner_public signer) now) in
  if negb (bool_decide (cred_node_id c = id))
     || negb (bool_decide (cred_signing_public c = signing))
     || negb (bool_decide (cred_noise_public c = noise))
     || negb (bool_decide (cred_tenant c = tenant))
  then Err InvalidCredential
  else ok_or (sp_credential <$> load_peer t id) PeerNotRegistered.

(** The credential to store and, for a registration by invite, what the invite
    says of the peer. *)
Definition obtain_credential (id sp np credential : bytes) (invite : option bytes) (now : Z)
    : H (bytes * option InviteRegistration) :=
  match credential with
  | [] =>
      match invite with
      | None => hfail InviteRequired
      | Some token =>
          let! r := register_with_invite id sp np token now in
          hret (json_credential (ir_credential r), Some r)
      end
  | _ =>
      let! s := hget in
      let! c := hlift (check_credential id sp np credential now (cs_peers s)) in
      hret (c, None)
  end.

Definition peer_changed (previous : option StoredPeer) (p : StoredPeer) : bool :=
  match previous with
  | None => true
  | Some q =>
      negb (sp_incarnation q =? sp_incarnation p)
      || negb (bool_decide (sp_candidates q = sp_candidates p))
      || negb (bool_decide (sp_signing_public q = sp_signing_public p))
      || negb (bool_decide (sp_noise_public q = sp_noise_public p))
  end.

(** The row [Register] stores for a peer. *)
Definition registration (id : bytes) (inc : Z) (sp np : bytes) (cands : list Candidate)
    (previous : option StoredPeer) (fresh : Z) (stored : bytes) (caps : list PeerCapability)
    : StoredPeer :=
  {| sp_node_id := id;
     sp_incarnation := inc;
     sp_name := [];
     sp_signing_public := sp;
     sp_noise_public := np;
     sp_candidates := cands;
     sp_virtual_ipv4 := coalesce (previous ≫= sp_virtual_ipv4) (Some fresh);
     sp_virtual_ipv6 := None;
     sp_credential := stored;
     sp_capabilities := caps;
     sp_last_seen := default 0 (sp_last_seen <$> previous) |}.

(** [Register] after the row is stored, up to the point where it waits for the
    online table. *)
Definition register_store (id : bytes) (reg : option InviteRegistration) (now : Z) : H unit :=
  let! _ := match reg with
            | Some r => hmodify (fun s => set_peers
                          (snd (update_peer_metadata (cs_peers s) id (ir_name r) (ir_notes r))) s)
            | None => hret tt
            end in
  let! _ := hmodify (fun s => set_peers (touch_peer (cs_peers s) id now) s) in
  bump_snapshot.

(** [Register] from the online table on. *)
Definition register_online (conn : Z) (id stored : bytes) (changed : bool) (now : Z)
    : H (option bytes) :=
  let! s := hget in
  let was_online := bool_decide (is_Some (cs_online s !! id)) in
  let! _ := hmodify (fun s => set_online
              (<[id := {[conn]} ∪ default ∅ (cs_online s !! id)]> (cs_online s)) s) in
  let! s := hget in
  let peers := map public_peer
                 (List.filter (fun p => negb (bool_decide (sp_node_id p = id)))
                    (load_peers (cs_peers s))) in
  let! _ := send conn (RegisterOk (b64_encode stored) peers
                         (network_snapshot s (online_peer_ids s) now)) in
  let! _ := (if negb was_online || changed then broadcast_snapshot else hret tt) in
  hret (Some id).

Definition finish_register (conn : Z) (id stored : bytes) (reg : option InviteRegistration)
    (changed : bool) (now : Z) : H (option bytes) :=
  let! _ := register_store id reg now in
  register_online conn id stored changed now.

(** The [Register] branch.  The address is allocated whether or not the peer has
    one: [or] evaluates its argument. *)
Definition handle_register (conn : Z) (id : bytes) (inc : Z)
    (signing noise credential : bytes) (invite : option bytes) (cands : list Candidate)
    (caps : list PeerCapability) (now : Z) : H (option bytes) :=
  let! sp := hlift (decode_key signing) in
  let! np := hlift (decode_key noise) in
  if negb (bool_decide (blake3 sp = id)) then hfail Coord_InvalidPeer
  else
    let! (stored, reg) := obtain_credential id sp np credential invite now in
    let! s := hget in
    let previous := load_peer (cs_peers s) id in
    let! fresh := hlift (ok_or (allocate_virtual_ipv4 blake3 (cs_peers s) id)
                           AddressPoolExhausted) in
    let peer := registration id inc sp np cands previous fresh stored caps in
    let changed := peer_changed previous peer in
    let! _ := hmodify (fun s => set_peers (update_peer (cs_peers s) peer) s) in
    finish_register conn id stored reg changed now.

(** ** The other messages *)

Definition require_registered (registered : option bytes) : H bytes :=
  hlift (ok_or registered NotRegistered).

Definition require_peer (id : bytes) : H StoredPeer :=
  fun s => (ok_or (load_peer (cs_peers s) id) PeerNotRegistered, s).

Definition with_candidates (p : StoredPeer) (cands : list Candidate) : StoredPeer :=
  mkStored (sp_node_id p) (sp_incarnation p) (sp_name p) (sp_signing_public p)
    (sp_noise_public p) cands (sp_virtual_ipv4 p) (sp_virtual_ipv6 p) (sp_credential p)
    (sp_capabilities p) (sp_last_seen p).

Definition handle_update_candidates (conn : Z) (registered : option bytes)
    (cands : list Candidate) (now : Z) : H (option bytes) :=
  let! id := require_registered registered in
  let! peer := require_peer id in
  let changed := negb (bool_decide (sp_candidates peer = cands)) in
  let! _ := hmodify (fun s => set_peers (update_peer (cs_peers s) (with_candidates peer cands)) s) in
  let! _ := hmodify (fun s => set_peers (touch_peer (cs_peers s) id now) s) in
  if changed then
    let! _ := bump_snapshot in
    let! _ := broadcast_snapshot in
    hret registered
  else
    let! s := hget in
    let! _ := send conn (SnapshotMsg (network_snapshot s (online_peer_ids s) now)) in
    hret registered.

Definition handle_runtime_status (conn : Z) (registered : option bytes) (mtu : Z)
    : H (option bytes) :=
  let! id := require_registered registered in
  let! _ := hmodify (fun s => set_runtime
              (<[id := <[conn := mtu]> (default ∅ (cs_runtime s !! id))]> (cs_runtime s)) s) in
  hret registered.

Definition handle_request_snapshot (conn : Z) (registered : option bytes) (now : Z)
    : H (option bytes) :=
  let! _ := require_registered registered in
  let! s := hget in
  let! _ := send conn (SnapshotResponse (network_snapshot s (online_peer_ids s) now)) in
  hret registered.

Definition handle_lookup_peer (conn : Z) (registered : option bytes) (id : bytes)
    : H (option bytes) :=
  let! requester := require_registered registered in
  let! target := require_peer id in
  let! requester_info := require_peer requester in
  let! _ := send conn (PeerInfoMsg (public_peer target)) in
  let! _ := hmodify (fun s =>
              fold_left (fun s c => send_ignore c (ConnectSignal (public_peer requester_info) id) s)
                (elements (default ∅ (cs_online s !! id))) s) in
  hret registered.

Definition summary_of (online : gmap bytes (gset Z)) (p : StoredPeer) : PeerSummary :=
  {| sum_node_id := sp_node_id p;
     sum_name := sp_name p;
     sum_online := bool_decide (is_Some (online !! sp_node_id p));
     sum_last_seen := if 0 <? sp_last_seen p then Some (sp_last_seen p) else None;
     sum_virtual_ipv4 := sp_virtual_ipv4 p;
     sum_virtual_ipv6 := sp_virtual_ipv6 p;
     sum_capabilities := sp_capabilities p |}.

Definition handle_list_peers (conn : Z) (registered : option bytes) : H (option bytes) :=
  let! requester := require_registered registered in
  let! s := hget in
  let! _ := send conn (ListPeersOk
              (map (summary_of (cs_online s))
                 (List.filter (fun p => negb (bool_decide (sp_node_id p = requester)))
                    (load_peers (cs_peers s))))) in
  hret registered.

Definition handle_pong (registered : option bytes) (now : Z) : H (option bytes) :=
  match registered with
  | Some id => let! _ := hmodify (fun s => set_peers (touch_peer (cs_peers s) id now) s) in
               hret registered
  | None => hret registered
  end.

Definition handle_message (conn : Z) (registered : option bytes) (request : ControlMessage)
    (now : Z) : H (option bytes) :=
  match request with
  | Register id inc signing noise cred invite cands caps =>
      handle_register conn id inc signing noise cred invite cands caps now
  | UpdateCandidates cands => handle_update_candidates conn registered cands now
  | RuntimeStatus mtu => handle_runtime_status conn registered mtu
  | RequestSnapshot => handle_request_snapshot conn registered now
  | LookupPeer id => handle_lookup_peer conn registered id
  | ListPeers => handle_list_peers conn registered
  | Ping nonce => let! _ := send conn (Pong nonce) in hret registered
  | Pong _ => handle_pong registered now
  | _ => hfail UnsupportedMessage
  end.

(** [CoordError::as_control]: every error has the same code. *)
Definition as_control (text : CoordError -> bytes) (e : CoordError) : ControlMessage :=
  ErrorMsg (str "server_error") (text e).

(** One message in the loop of [handle_socket]. *)
Definition receive (text : CoordError -> bytes) (conn : Z) (request : ControlMessage) (now : Z)
    (s : CoordState) : CoordState :=
  match cs_conns s !! conn with
  | None => s
  | Some registered =>
      match handle_message conn registered request now s with
      | (Ok next, s') => set_conns (<[conn := next]> (cs_conns s')) s'
      | (Err e, s') => send_ignore conn (as_control text e) s'
      end
  end.

(** Remove one connection from the sessions of a peer. *)
Definition drop_session {A} (conn : Z) (remove : Z -> A -> A) (empty : A -> bool)
    (id : bytes) (m : gmap bytes A) : gmap bytes A :=
  match m !! id with
  | None => m
  | Some sessions =>
      let sessions := remove conn sessions in
      if empty sessions then delete id m else <[id := sessions]> m
  end.

(** The end of [handle_socket]. *)
Definition close_connection (conn : Z) (s : CoordState) : CoordState :=
  match cs_conns s !! conn with
  | None => s
  | Some registered =>
      let s := set_closed ({[conn]} ∪ cs_closed s) (set_conns (delete conn (cs_conns s)) s) in
      match registered with
      | None => s
      | Some id =>
          let before := cs_online s !! id in
          let online := drop_session conn (fun c (x : gset Z) => x ∖ {[c]})
                          (fun x => bool_decide (x = ∅)) id (cs_online s) in
          let became_offline := bool_decide (is_Some before) && bool_decide (online !! id = None) in
          let runtime := drop_session conn (fun c (x : gmap Z Z) => delete c x)
                           (fun x => bool_decide (x = ∅)) id (cs_runtime s) in
          let s := set_runtime runtime (set_online online s) in
          if became_offline then
            match bump_snapshot s with
            | (Ok _, s) => snd (broadcast_snapshot s)
            | (Err _, s) => s
            end
          else s
      end
  end.

(** ** Administration *)

Definition disconnect_peer (id : bytes) (s : CoordState) : CoordState :=
  let senders := elements (default ∅ (cs_online s !! id)) in
  fold_left (fun s c => send_ignore c (Revoke id) s) senders
    (set_online (delete id (cs_online s)) s).

Definition after_removal (id : bytes) : H bool :=
  let! _ := bump_snapshot in
  let! _ := hmodify (disconnect_peer id) in
  let! _ := broadcast_snapshot in
  hret true.

Definition revoke_peer_inner (id : bytes) : H bool :=
  fun s => let '(changed, t) := revoke_row (cs_peers s) id in
           if changed then after_removal id (set_peers t s) else (Ok false, s).

Definition delete_peer_inner (id : bytes) : H bool :=
  fun s => let '(changed, t) := delete_row (cs_peers s) id in
           if changed then after_removal id (set_peers t s) else (Ok false, s).

(** [CoordServer::revoke_peer] *)
Definition revoke_peer (id : bytes) : H unit :=
  let! done := revoke_peer_inner id in
  if negb done then hfail PeerNotRegistered else hret tt.

(** [create_invite]; the tokens are drawn at random.  The token hash is the table's
    key and the id is unique, so a repeat fails. *)
Definition create_invite (id token download name notes : bytes) (ttl now : Z) : H Z :=
  fun s =>
    let expires := sat_add64 now ttl in
    if bool_decide (is_Some (cs_invites s !! blake3 token))
       || existsb (fun kv => bool_decide (inv_id kv.2 = id)) (map_to_list (cs_invites s))
    then (Err Coord_Database, s)
    else
      (Ok expires,
       set_invites (<[blake3 token :=
         mkInvite id (wrap_signed 64 expires) false name notes (wrap_signed 64 now) false
           (blake3 download) false]> (cs_invites s)) s).

Definition mark_downloaded (r : InviteRow) : InviteRow :=
  mkInvite (inv_id r) (inv_expires_at r) (inv_used r) (inv_name r) (inv_notes r)
    (inv_created_at r) (inv_revoked r) (inv_download_token_hash r) true.

Definition downloadable (hash : bytes) (now : Z) (r : InviteRow) : bool :=
  bool_decide (inv_download_token_hash r = hash) && negb (inv_download_used r)
  && negb (inv_revoked r) && negb (inv_used r) && (wrap_signed 64 now <? inv_expires_at r).

(** [consume_download_token]: whether a row changed. *)
Definition consume_download_token (token : bytes) (now : Z) : H bool :=
  fun s =>
    let hash := blake3 token in
    (Ok (existsb (fun kv => downloadable hash now kv.2) (map_to_list (cs_invites s))),
     set_invites ((fun r => if downloadable hash now r then mark_downloaded r else r)
                    <$> cs_invites s) s).

Definition mark_revoked (r : InviteRow) : InviteRow :=
  mkInvite (inv_id r) (inv_expires_at r) (inv_used r) (inv_name r) (inv_notes r)
    (inv_created_at r) true (inv_download_token_hash r) true.

(** The statement of [delete_invite] in [admin.rs]: revoke the invite with an id. *)
Definition delete_invite (id : bytes) : H bool :=
  fun s =>
    (Ok (existsb (fun kv => bool_decide (inv_id kv.2 = id)) (map_to_list (cs_invites s))),
     set_invites ((fun r => if bool_decide (inv_id r = id) then mark_revoked r else r)
                    <$> cs_invites s) s).

(** [update_network_config] *)
Definition update_network_config (doh stun : list bytes) : H unit :=
  fun s =>
    if bool_decide (cs_doh s = doh) && bool_decide (cs_stun s = stun) then (Ok tt, s)
    else hbind bump_snapshot (fun _ => broadcast_snapshot) (set_config doh stun s).
End Server.
