(* ===== verification/CoordInv.v ===== *)
(** * Invariants of the coordination server

    The server's steps as a relation, the invariant every reachable state has, and
    what follows from it: every snapshot the server signs passes the client's
    verification and validation, an invite admits one registration, a revoked peer
    stays out until it is invited again.  The last section shows the states two
    interleaved handlers can reach that the invariant excludes. *)
From S2P Require Import Prelude Net Encoding Wire NodeId Snapshot SignedBytes Crypto Control CoordDb Coord.

Section Invariant.
Context {HH : Hash} {HSg : SignatureOps} {HT : TextOps}.
Context (tenant signer : bytes).

Definition is_active (t : PeerTable) (id : bytes) : Prop :=
  exists r, t !! id = Some r /\ row_revoked r = false.

Definition ids_ok (t : PeerTable) : Prop :=
  forall id r, t !! id = Some r ->
    id = blake3 (row_signing_public r) /\ row_virtual_ipv6 r = None.

Definition peers_ok (t : PeerTable) : Prop := addresses_ok t /\ ids_ok t.

Definition online_ok (s : CoordState) : Prop :=
  forall id conns, cs_online s !! id = Some conns -> conns <> ∅ /\ is_active (cs_peers s) id.

Definition generation_ok (s : CoordState) : Prop :=
  1 <= cs_generation s < 2 ^ 63 /\ cs_meta_generation s = cs_generation s.

Definition coord_inv (s : CoordState) : Prop :=
  peers_ok (cs_peers s) /\ online_ok s /\ generation_ok s
  /\ (cs_pending s = true -> cs_running s = true).

(** ** Tables *)

Lemma peers_ok_update t p a :
  peers_ok t -> sp_node_id p = blake3 (sp_signing_public p) ->
  sp_virtual_ipv4 p = Some a -> sp_virtual_ipv6 p = None -> usable_address a ->
  (forall id r, t !! id = Some r -> row_virtual_ipv4 r = Some a -> id = sp_node_id p) ->
  peers_ok (update_peer t p).
Proof.
  intros [[Haddr Hinj] Hids] Hid Ha H6 Hu Hfree. unfold peers_ok, addresses_ok, ids_ok.
  assert (Hcase : forall id r, update_peer t p !! id = Some r ->
    (id = sp_node_id p /\ row_virtual_ipv4 r = Some a
       /\ row_signing_public r = sp_signing_public p /\ row_virtual_ipv6 r = None)
    \/ (id <> sp_node_id p /\ t !! id = Some r)).
  { intros id r. unfold update_peer. rewrite lookup_insert_Some.
    intros [[<- <-]|[? ?]]; [left|by right]. cbn. rewrite Ha, H6. cbn.
    split_and!; try done. destruct (t !! sp_node_id p) as [r0|] eqn:E; [|done].
    cbn. by apply (Hids _ _ E). }
  split_and!.
  - intros id r Hl. destruct (Hcase id r Hl) as [(-> & -> & _)|[_ Hl']]; eauto.
  - intros id1 id2 r1 r2 b H1 H2 E1 E2.
    destruct (Hcase id1 r1 H1) as [(-> & V1 & _)|[N1 L1]], (Hcase id2 r2 H2) as [(-> & V2 & _)|[N2 L2]];
      simplify_eq/=; try done.
    + symmetry. by eapply Hfree.
    + by eapply Hfree.
    + by eapply Hinj.
  - intros id r Hl. destruct (Hcase id r Hl) as [(-> & _ & -> & ?)|[_ Hl']]; eauto.
Qed.

(** Updates of columns the invariant does not mention. *)
Lemma peers_ok_alter t id f :
  (forall r, row_virtual_ipv4 (f r) = row_virtual_ipv4 r
             /\ row_virtual_ipv6 (f r) = row_virtual_ipv6 r
             /\ row_signing_public (f r) = row_signing_public r) ->
  peers_ok t -> peers_ok (alter f id t).
Proof.
  intros Hf [[Haddr Hinj] Hids].
  assert (Hcase : forall i r, alter f id t !! i = Some r -> exists r0, t !! i = Some r0
    /\ row_virtual_ipv4 r = row_virtual_ipv4 r0 /\ row_virtual_ipv6 r = row_virtual_ipv6 r0
    /\ row_signing_public r = row_signing_public r0).
  { intros i r. rewrite lookup_alter_Some. intros [(-> & r0 & ? & ->)|[? ?]]; [|by eauto].
    destruct (Hf r0) as (? & ? & ?). eauto. }
  split; [split|].
  - intros i r Hl. destruct (Hcase i r Hl) as (r0 & L0 & -> & _). eauto.
  - intros i1 i2 r1 r2 a L1 L2 E1 E2.
    destruct (Hcase _ _ L1) as (s1 & ? & V1 & _), (Hcase _ _ L2) as (s2 & ? & V2 & _).
    apply (Hinj i1 i2 s1 s2 a); [done|done|congruence|congruence].
  - intros i r Hl. destruct (Hcase i r Hl) as (r0 & L0 & _ & -> & ->). eauto.
Qed.

Lemma peers_ok_delete t id : peers_ok t -> peers_ok (delete id t).
Proof.
  intros [[Haddr Hinj] Hids]. split; [split|].
  - intros i r [_ Hl]%lookup_delete_Some. eauto.
  - intros i1 i2 r1 r2 a [_ L1]%lookup_delete_Some [_ L2]%lookup_delete_Some. eauto.
  - intros i r [_ Hl]%lookup_delete_Some. eauto.
Qed.

Lemma is_active_alter t id f i :
  (forall r, row_revoked (f r) = row_revoked r) -> is_active t i -> is_active (alter f id t) i.
Proof.
  intros Hf (r & Hl & Hr). destruct (decide (id = i)) as [->|].
  - exists (f r). rewrite lookup_alter_eq, Hl. split; [done | by rewrite Hf].
  - exists r. by rewrite lookup_alter_ne.
Qed.

Lemma is_active_update t p i :
  is_active t i \/ i = sp_node_id p -> is_active (update_peer t p) i.
Proof.
  intros Hi. unfold is_active, update_peer. destruct (decide (i = sp_node_id p)) as [->|].
  - rewrite lookup_insert_eq. eauto.
  - destruct Hi as [(r & ? & ?)|?]; [|done]. exists r. by rewrite lookup_insert_ne.
Qed.

Lemma load_peer_Some t id p :
  load_peer t id = Some p -> exists r, t !! id = Some r /\ row_revoked r = false /\ p = stored_of_row id r.
Proof.
  unfold load_peer. destruct (t !! id) as [r|]; [|done].
  destruct (row_revoked r) eqn:E; [done|]. intros [= <-]. eauto.
Qed.

(** ** Handlers *)

(** The invariant, and that the peers [X] are active. *)
Definition inv_on (X : gset bytes) (s : CoordState) : Prop :=
  coord_inv s /\ forall id, id ∈ X -> is_active (cs_peers s) id.

Lemma inv_on_empty s : inv_on ∅ s <-> coord_inv s.
Proof. unfold inv_on. split; [tauto|]. intros Hs. split; [done | set_solver]. Qed.

Lemma inv_on_coord X s : inv_on X s -> coord_inv s.
Proof. by intros []. Qed.

Lemma coord_inv_on s : coord_inv s -> inv_on ∅ s.
Proof. apply inv_on_empty. Qed.

(** A change of the peer table that keeps it well-formed and its peers active. *)
Lemma inv_on_set_peers X t s :
  inv_on X s -> peers_ok t -> (forall id, is_active (cs_peers s) id -> is_active t id) ->
  inv_on X (set_peers t s).
Proof.
  intros [(Hp & Ho & Hg & Hb) HX] Ht Hact. split; [|by auto].
  split_and!; try done. intros id conns Hl. destruct (Ho id conns Hl). split; [done | by apply Hact].
Qed.

Lemma keeps_send X conn m : keeps (inv_on X) (send conn m).
Proof. intros s Hs. unfold send. by destruct (bool_decide (conn ∈ cs_closed s)). Qed.

Lemma send_ignore_inv X conn m s : inv_on X s -> inv_on X (send_ignore conn m s).
Proof. apply keeps_send. Qed.

Lemma fold_send_inv X (l : list Z) m s :
  inv_on X s -> inv_on X (fold_left (fun s c => send_ignore c m s) l s).
Proof. revert s; induction l as [|c l IH]; intros s Hs; [done|]. cbn. by apply IH, send_ignore_inv. Qed.

Lemma keeps_bump X : keeps (inv_on X) bump_snapshot.
Proof.
  intros s Hs. unfold bump_snapshot. case_match; [done|]. case_match; [done|].
  destruct Hs as [(Hp & Ho & [Hg Hm] & Hb) HX]. unbool. cbn. split; [|done].
  split_and!; try done. unfold generation_ok; cbn. lia.
Qed.

Lemma keeps_broadcast X : keeps (inv_on X) broadcast_snapshot.
Proof. intros s [(Hp & Ho & Hg & Hb) HX]. done. Qed.

Lemma keeps_touch X id now :
  keeps (inv_on X) (hmodify (fun s => set_peers (touch_peer (cs_peers s) id now) s) : handler _ CoordError _).
Proof.
  intros s Hs. cbn. apply inv_on_set_peers; [done| |].
  - apply peers_ok_alter; [done|]. apply Hs.
  - intros i Hi. by apply is_active_alter.
Qed.

Lemma keeps_metadata X id name notes :
  keeps (inv_on X) (hmodify (fun s =>
    set_peers (snd (update_peer_metadata (cs_peers s) id name notes)) s) : handler _ CoordError _).
Proof.
  intros s Hs. cbn. apply inv_on_set_peers; [done| |].
  - apply peers_ok_alter; [done|]. apply Hs.
  - intros i Hi. by apply is_active_alter.
Qed.

Lemma keeps_go_online X id conn :
  id ∈ X ->
  keeps (inv_on X) (hmodify (fun s => set_online
    (<[id := {[conn]} ∪ default ∅ (cs_online s !! id)]> (cs_online s)) s) : handler _ CoordError _).
Proof.
  intros HidX s [(Hp & Ho & Hg & Hb) HX]. cbn. split; [|done]. split_and!; try done.
  intros i conns. cbn. rewrite lookup_insert_Some.
  intros [[<- <-]|[_ Hl]]; [|by apply Ho]. split; [set_solver | by apply HX].
Qed.

#[local] Hint Resolve keeps_send keeps_bump keeps_broadcast keeps_touch keeps_metadata : vela.

Ltac keeps_steps := keeps_walk; auto with vela.

Lemma keeps_finish_register id conn stored reg changed now :
  keeps (inv_on {[id]}) (finish_register tenant signer conn id stored reg changed now).
Proof.
  unfold finish_register, register_store, register_online. keeps_steps. apply keeps_go_online. set_solver.
Qed.

Lemma keeps_register_with_invite X id sp np token now :
  keeps (inv_on X) (register_with_invite tenant signer id sp np token now).
Proof. intros s Hs. unfold register_with_invite. repeat case_match; done. Qed.

Lemma keeps_obtain X id sp np cred inv now :
  keeps (inv_on X) (obtain_credential tenant signer id sp np cred inv now).
Proof.
  unfold obtain_credential. destruct cred; [|keeps_steps].
  destruct inv; keeps_steps. apply keeps_register_with_invite.
Qed.

(** Storing a registration: the peer keeps its address or takes the free one. *)
Lemma register_update_inv s id inc sp np cands fresh stored caps :
  coord_inv s -> blake3 sp = id ->
  allocate_virtual_ipv4 blake3 (cs_peers s) id = Some fresh ->
  let p := registration id inc sp np cands (load_peer (cs_peers s) id) fresh stored caps in
  inv_on {[id]} (set_peers (update_peer (cs_peers s) p) s).
Proof.
  intros Hinv Hid Hal p. pose proof Hinv as (Hp & Ho & Hg & Hb).
  assert (Hact : forall i, is_active (cs_peers s) i -> is_active (update_peer (cs_peers s) p) i).
  { intros i Hi. apply is_active_update. by left. }
  split; cycle 1.
  { intros i ->%elem_of_singleton. apply is_active_update. by right. }
  eapply inv_on_coord, inv_on_set_peers; [by apply coord_inv_on| |done].
  apply allocate_Some in Hal as [Hu Hfree].
  pose proof Hp as [[Haddr Hinj] Hids].
  destruct (load_peer (cs_peers s) id) as [q|] eqn:Hq.
  - apply load_peer_Some in Hq as (r & Hr & _ & ->).
    destruct (Haddr id r Hr) as (a & Ha & Hua).
    apply peers_ok_update with a; try done.
    + cbn. by rewrite Ha.
    + intros i r' Hl Hv. by eapply Hinj.
  - apply peers_ok_update with fresh; try done.
    + intros i r' Hl Hv. by apply Hfree in Hl.
Qed.

Lemma keeps_handle_register conn id inc signing noise cred inv cands caps now :
  keeps coord_inv (handle_register tenant signer conn id inc signing noise cred inv cands caps now).
Proof.
  intros s Hs. unfold handle_register, hbind, hlift.
  destruct (decode_key signing) as [sp|]; [|done].
  destruct (decode_key noise) as [np|]; [|done].
  destruct (bool_decide (blake3 sp = id)) eqn:Hid; cbn [negb]; [|done]. unbool.
  pose proof (keeps_obtain ∅ id sp np cred inv now s) as Hk.
  rewrite !inv_on_empty in Hk. specialize (Hk Hs).
  destruct (obtain_credential tenant signer id sp np cred inv now s) as [[[stored reg]|] s1];
    cbn in Hk |- *; [|done].
  destruct (allocate_virtual_ipv4 blake3 (cs_peers s1) id) as [fresh|] eqn:Hal; cbn; [|done].
  eapply (keeps_finish_register id). by apply register_update_inv.
Qed.

Lemma keeps_require_registered X r : keeps (inv_on X) (require_registered r).
Proof. by intros s Hs. Qed.

Lemma keeps_require_peer X id : keeps (inv_on X) (require_peer id).
Proof. by intros s Hs. Qed.

Lemma update_candidates_inv s id q cands :
  coord_inv s -> load_peer (cs_peers s) id = Some q ->
  coord_inv (set_peers (update_peer (cs_peers s) (with_candidates q cands)) s).
Proof.
  intros Hinv Hq. pose proof Hinv as (Hp & _). pose proof Hp as [[Haddr Hinj] Hids].
  apply load_peer_Some in Hq as (r & Hr & _ & ->).
  eapply inv_on_coord, inv_on_set_peers; [by apply coord_inv_on| |].
  - destruct (Haddr id r Hr) as (a & Ha & Hua), (Hids id r Hr) as [Hid H6].
    apply peers_ok_update with a; try done.
    intros i r' Hl Hv. by eapply Hinj.
  - intros i Hi. apply is_active_update. by left.
Qed.

Lemma keeps_update_candidates conn registered cands now :
  keeps coord_inv (handle_update_candidates tenant signer conn registered cands now).
Proof.
  intros s Hs. unfold handle_update_candidates.
  unfold hbind at 1, require_registered, hlift. destruct registered as [id|]; [|done].
  cbn [ok_or]. unfold hbind at 1, require_peer.
  destruct (load_peer (cs_peers s) id) as [q|] eqn:Hq; cbn [ok_or]; [|done].
  unfold hbind at 1, hmodify at 1. cbn beta iota.
  apply (update_candidates_inv s id q cands) in Hq; [|done].
  apply (inv_on_coord ∅). apply coord_inv_on in Hq. revert Hq.
  generalize (set_peers (update_peer (cs_peers s) (with_candidates q cands)) s).
  change (keeps (inv_on ∅) (hbind (hmodify (fun s : CoordState => set_peers (touch_peer (cs_peers s) id now) s))
   (fun _ => if negb (bool_decide (sp_candidates q = cands)) then
      hbind bump_snapshot (fun _ => hbind broadcast_snapshot (fun _ => hret (Some id)))
    else hbind hget (fun s => hbind (send conn (SnapshotMsg (network_snapshot tenant signer s (online_peer_ids s) now)))
      (fun _ => hret (Some id))) : handler CoordState CoordError (option bytes)))).
  keeps_steps.
Qed.

#[local] Hint Resolve keeps_require_registered keeps_require_peer : vela.

Lemma keeps_lookup_peer X conn registered id :
  keeps (inv_on X) (handle_lookup_peer conn registered id).
Proof.
  unfold handle_lookup_peer. keeps_steps. apply keeps_modify. intros s Hs. by apply fold_send_inv.
Qed.

Lemma keeps_runtime_status X conn registered mtu :
  keeps (inv_on X) (handle_runtime_status conn registered mtu).
Proof. unfold handle_runtime_status. keeps_steps. by apply keeps_modify. Qed.

Lemma keeps_handle_message conn registered request now :
  keeps coord_inv (handle_message tenant signer conn registered request now).
Proof.
  assert (Hlift : forall (m : handler CoordState CoordError (option bytes)),
    keeps (inv_on ∅) m -> keeps coord_inv m).
  { intros m Hm s Hs. eapply inv_on_coord, Hm, coord_inv_on, Hs. }
  destruct request; cbn [handle_message]; try (by apply Hlift; auto with vela).
  - apply keeps_handle_register.
  - apply keeps_update_candidates.
  - apply Hlift, keeps_runtime_status.
  - apply Hlift. unfold handle_request_snapshot. keeps_steps.
  - apply Hlift, keeps_lookup_peer.
  - apply Hlift. unfold handle_list_peers. keeps_steps.
  - apply Hlift. keeps_steps.
  - apply Hlift. unfold handle_pong. keeps_steps.
Qed.

Lemma receive_inv text conn request now s :
  coord_inv s -> coord_inv (receive tenant signer text conn request now s).
Proof.
  intros Hs. unfold receive. destruct (cs_conns s !! conn) as [registered|]; [|done].
  pose proof (keeps_handle_message conn registered request now s Hs) as Hk.
  destruct (handle_message tenant signer conn registered request now s) as [[next|e] s'];
    cbn in Hk |- *; [done|].
  eapply inv_on_coord, send_ignore_inv, coord_inv_on, Hk.
Qed.

Lemma drop_session_online (conn : Z) (id : bytes) (m : gmap bytes (gset Z)) (i : bytes) conns :
  drop_session conn (fun c (x : gset Z) => x ∖ {[c]}) (fun x => bool_decide (x = ∅)) id m !! i = Some conns ->
  (conns <> ∅ \/ m !! i = Some conns) /\ is_Some (m !! i).
Proof.
  unfold drop_session. destruct (m !! id) as [x|] eqn:E; [|eauto].
  destruct (bool_decide (x ∖ {[conn]} = ∅)) eqn:Hb; unbool.
  - intros [_ Hl]%lookup_delete_Some. eauto.
  - intros [[<- <-]|[_ Hl]]%lookup_insert_Some; eauto.
Qed.

Lemma close_connection_inv conn s : coord_inv s -> coord_inv (close_connection conn s).
Proof.
  intros Hs. unfold close_connection. destruct (cs_conns s !! conn) as [[id|]|]; [|done..].
  cbn zeta.
  match goal with |- coord_inv (if _ then _ else ?x) => assert (Hx : inv_on ∅ x) end.
  { apply coord_inv_on. destruct Hs as (Hp & Ho & Hg & Hb). split_and!; try done.
    intros i conns Hl. cbn in Hl. apply drop_session_online in Hl as [Hc [x Hx]].
    cbn in Hx, Hc. destruct (Ho i x Hx) as [Hne Hact].
    split; [|done]. destruct Hc as [?|Hc]; [done|]. rewrite Hx in Hc. by injection Hc as <-. }
  revert Hx. match goal with |- inv_on ∅ ?x -> _ => generalize x end. intros x Hx.
  destruct (_ && _); [|by apply inv_on_coord in Hx].
  pose proof (keeps_bump ∅ x Hx) as Hk.
  destruct (bump_snapshot x) as [[]]; cbn in Hk |- *; [|by apply inv_on_coord in Hk].
  eapply inv_on_coord, keeps_broadcast, Hk.
Qed.

(** ** Removing a peer *)

(** The invariant but for one peer, which may still be online after its row went. *)
Definition inv_except (id : bytes) (s : CoordState) : Prop :=
  peers_ok (cs_peers s) /\ generation_ok s /\ (cs_pending s = true -> cs_running s = true)
  /\ forall i conns, i <> id -> cs_online s !! i = Some conns ->
       conns <> ∅ /\ is_active (cs_peers s) i.

Lemma disconnect_peer_inv id s : inv_except id s -> coord_inv (disconnect_peer id s).
Proof.
  intros (Hp & Hg & Hb & Ho). unfold disconnect_peer.
  apply (inv_on_coord ∅), fold_send_inv, coord_inv_on. split_and!; try done.
  intros i conns Hl. cbn in Hl. apply lookup_delete_Some in Hl as [Hne Hl]. by apply Ho.
Qed.

Lemma after_removal_inv id s :
  cs_generation s < 2 ^ 63 - 1 -> inv_except id s -> coord_inv (snd (after_removal id s)).
Proof.
  intros Hlt (Hp & [Hg Hm] & Hb & Ho). unfold after_removal, hbind, bump_snapshot, U64_MAX.
  destruct (Z.ltb_spec (2 ^ 64 - 1) (cs_generation s + 1)); [lia|].
  destruct (Z.ltb_spec (2 ^ 63 - 1) (cs_generation s + 1)); [lia|].
  cbn. apply (inv_on_coord ∅), (keeps_broadcast ∅), coord_inv_on, disconnect_peer_inv.
  split_and!; try done. unfold generation_ok; cbn. lia.
Qed.

Lemma revoke_inv id s :
  cs_generation s < 2 ^ 63 - 1 -> coord_inv s -> coord_inv (snd (revoke_peer_inner id s)).
Proof.
  intros Hlt Hs. unfold revoke_peer_inner, revoke_row.
  destruct (cs_peers s !! id) as [r|] eqn:E; [|done].
  destruct (row_revoked r); [done|]. apply after_removal_inv; [done|].
  destruct Hs as (Hp & Ho & Hg & Hb).
  assert (Ea : <[id := set_revoked r]> (cs_peers s) = alter set_revoked id (cs_peers s)).
  { apply map_eq. intros i. destruct (decide (i = id)) as [->|].
    - by rewrite lookup_insert_eq, lookup_alter_eq, E.
    - by rewrite lookup_insert_ne, lookup_alter_ne. }
  split_and!; try done.
  - cbn. rewrite Ea. by apply peers_ok_alter.
  - intros i conns Hne Hl. destruct (Ho i conns Hl) as [? (r' & ? & ?)].
    split; [done|]. exists r'. cbn. by rewrite lookup_insert_ne.
Qed.

Lemma delete_inv id s :
  cs_generation s < 2 ^ 63 - 1 -> coord_inv s -> coord_inv (snd (delete_peer_inner id s)).
Proof.
  intros Hlt Hs. unfold delete_peer_inner, delete_row.
  destruct (bool_decide (is_Some (cs_peers s !! id))); [|done].
  apply after_removal_inv; [done|]. destruct Hs as (Hp & Ho & Hg & Hb).
  split_and!; try done.
  - cbn. by apply peers_ok_delete.
  - intros i conns Hne Hl. destruct (Ho i conns Hl) as [? (r' & ? & ?)].
    split; [done|]. exists r'. cbn. by rewrite lookup_delete_ne.
Qed.

Lemma broadcast_now_inv now s :
  coord_inv s -> coord_inv (broadcast_snapshot_now tenant signer now s).
Proof.
  intros Hs. unfold broadcast_snapshot_now. generalize (network_snapshot tenant signer s (online_ids s) now).
  generalize (concat (map (fun kv : bytes * gset Z => elements kv.2) (map_to_list (cs_online s)))).
  intros l sn. revert s Hs. induction l as [|c l IH]; intros s Hs; [done|]. by apply IH.
Qed.

Lemma broadcast_turn_inv now s : coord_inv s -> coord_inv (broadcast_turn tenant signer now s).
Proof.
  intros (Hp & Ho & Hg & Hb). unfold broadcast_turn. destruct (cs_pending s); cbn [negb].
  - assert (Hn : coord_inv (broadcast_snapshot_now tenant signer now (set_broadcast false (cs_running s) s)))
      by (apply broadcast_now_inv; split_and!; done).
    destruct Hn as (? & ? & ? & ?). split_and!; done.
  - split_and!; done.
Qed.

Lemma update_config_inv doh stun s :
  coord_inv s -> coord_inv (snd (update_network_config doh stun s)).
Proof.
  intros Hs. unfold update_network_config. destruct (_ && _); [done|].
  eapply inv_on_coord, (keeps_bind (inv_on ∅)); auto with vela. by apply coord_inv_on.
Qed.

(** ** The server's steps

    One atomic step per handled message, closed connection, administrative call
    and broadcast.  Removing a peer assumes the generation counter is not at its
    maximum, where the removal would stop half-way. *)
Inductive coord_step : CoordState -> CoordState -> Prop :=
| step_open s conn :
    cs_conns s !! conn = None -> conn ∉ cs_closed s ->
    coord_step s (set_conns (<[conn := None]> (cs_conns s)) s)
| step_receive s text conn request now :
    coord_step s (receive tenant signer text conn request now s)
| step_close s conn : coord_step s (close_connection conn s)
| step_revoke s id :
    cs_generation s < 2 ^ 63 - 1 -> coord_step s (snd (revoke_peer_inner id s))
| step_delete s id :
    cs_generation s < 2 ^ 63 - 1 -> coord_step s (snd (delete_peer_inner id s))
| step_metadata s id name notes :
    coord_step s (set_peers (snd (update_peer_metadata (cs_peers s) id name notes)) s)
| step_invite s id token download name notes ttl now :
    coord_step s (snd (create_invite id token download name notes ttl now s))
| step_download s token now : coord_step s (snd (consume_download_token token now s))
| step_delete_invite s id : coord_step s (snd (delete_invite id s))
| step_config s doh stun : coord_step s (snd (update_network_config doh stun s))
| step_broadcast s now : coord_step s (broadcast_turn tenant signer now s).

(** A server just opened on a migrated database. *)
Definition coord_init (s : CoordState) : Prop :=
  peers_ok (cs_peers s) /\ generation_ok s /\ cs_online s = ∅ /\ cs_runtime s = ∅
  /\ cs_pending s = false /\ cs_running s = false /\ cs_conns s = ∅ /\ cs_sent s = [].

Lemma coord_init_inv s : coord_init s -> coord_inv s.
Proof.
  intros (Hp & Hg & Ho & _ & Hpe & _). split_and!; try done.
  - intros id conns. by rewrite Ho, lookup_empty.
  - by rewrite Hpe.
Qed.

Lemma coord_step_inv s s' : coord_step s s' -> coord_inv s -> coord_inv s'.
Proof.
  destruct 1; intros Hs.
  - done.
  - by apply receive_inv.
  - by apply close_connection_inv.
  - by apply revoke_inv.
  - by apply delete_inv.
  - eapply inv_on_coord, (keeps_metadata ∅ id name notes s), coord_inv_on, Hs.
  - unfold create_invite. by destruct (_ || _).
  - done.
  - done.
  - by apply update_config_inv.
  - by apply broadcast_turn_inv.
Qed.

Definition reachable (s : CoordState) : Prop := exists s0, coord_init s0 /\ rtc coord_step s0 s.

Lemma reachable_inv s : reachable s -> coord_inv s.
Proof.
  intros (s0 & H0 & Hsteps). apply coord_init_inv in H0.
  induction Hsteps as [|s1 s2 s3 Hstep _ IH]; [done|]. apply IH. by eapply coord_step_inv.
Qed.

(** ** The snapshots of a reachable server are valid *)

Lemma elem_of_load_peers t p :
  p ∈ load_peers t <-> exists id r, t !! id = Some r /\ row_revoked r = false /\ p = stored_of_row id r.
Proof.
  unfold load_peers. rewrite sort_by_key_perm, list_elem_of_fmap. split.
  - intros ([id r] & -> & Hin). apply elem_of_map_to_list in Hin.
    apply map_lookup_filter_Some in Hin as [Hl Hr]. by exists id, r.
  - intros (id & r & Hl & Hr & ->). exists (id, r). split; [done|].
    by apply elem_of_map_to_list, map_lookup_filter_Some.
Qed.

Lemma load_peers_nodup t : NoDup (map sp_node_id (load_peers t)).
Proof.
  unfold load_peers. rewrite sort_by_key_perm, map_map. cbn. apply NoDup_fst_map_to_list.
Qed.

Lemma NoDup_omap_inj {A B K} (key : A -> K) (f : A -> option B) (l : list A) :
  NoDup (map key l) ->
  (forall x y b, x ∈ l -> y ∈ l -> f x = Some b -> f y = Some b -> key x = key y) ->
  NoDup (omap f l).
Proof.
  induction l as [|x l IH]; intros Hnd Hinj; [constructor|].
  cbn in Hnd. apply NoDup_cons in Hnd as [Hx Hnd]. cbn.
  assert (NoDup (omap f l)).
  { apply IH; [done|]. intros a b c Ha Hb. apply Hinj; by right. }
  destruct (f x) as [b|] eqn:E; [|done]. constructor; [|done].
  intros (y & Hy & Ey)%list_elem_of_omap. apply Hx.
  rewrite (Hinj x y b); [by apply list_elem_of_fmap_2 | by left | by right | done | done].
Qed.

Lemma usable_in_network a :
  usable_address a ->
  in_network 32 VIRTUAL_IPV4_NETWORK_BASE VIRTUAL_IPV4_PREFIX_LEN a /\ is_u 32 a.
Proof.
  intros Ha. unfold usable_address in Ha.
  change VIRTUAL_IPV4_NETWORK_BASE with 184418304 in *.
  change VIRTUAL_IPV4_USABLE_HOSTS with 65534 in *.
  unfold in_network, is_u, VIRTUAL_IPV4_PREFIX_LEN.
  change (2 ^ (32 - 16)) with 65536. split; [split; [done|]|lia].
  Z.div_mod_to_equations; lia.
Qed.

Lemma private_peers_omap {B} (f : PeerInfo -> option B) l :
  omap f (map private_peer l) = omap (fun p => f (private_peer p)) l.
Proof. induction l as [|p l IH]; [done|]. cbn. by rewrite IH. Qed.

Lemma omap_all_None {A B} (f : A -> option B) l : (forall x, x ∈ l -> f x = None) -> omap f l = [].
Proof.
  intros Hf. induction l as [|x l IH]; [done|]. cbn. rewrite (Hf x) by by left.
  apply IH. intros y Hy. apply Hf. by right.
Qed.

Section SnapshotOf.
Context (s : CoordState) (Hinv : coord_inv s).

Lemma snapshot_peer_addresses a :
  a ∈ omap virtual_ipv4 (map private_peer (load_peers (cs_peers s))) -> usable_address a.
Proof.
  destruct Hinv as ([[Haddr _] _] & _). rewrite private_peers_omap.
  intros (p & Hp & Hv)%list_elem_of_omap.
  apply elem_of_load_peers in Hp as (id & r & Hl & _ & ->). cbn in Hv.
  destruct (Haddr id r Hl) as (b & Hb & Hu). congruence.
Qed.

Lemma snapshot_peer_ids p :
  p ∈ map private_peer (load_peers (cs_peers s)) ->
  node_id p = blake3 (signing_public p) /\ virtual_ipv6 p = None.
Proof.
  destruct Hinv as ([_ Hids] & _). intros (q & -> & Hq)%list_elem_of_fmap.
  apply elem_of_load_peers in Hq as (id & r & Hl & _ & ->). by apply (Hids id r Hl).
Qed.

Lemma snapshot_addresses_nodup :
  NoDup (omap virtual_ipv4 (map private_peer (load_peers (cs_peers s)))).
Proof.
  destruct Hinv as ([[_ Hinj] _] & _). rewrite private_peers_omap.
  apply (NoDup_omap_inj sp_node_id); [apply load_peers_nodup|].
  intros x y b Hx Hy Ex Ey.
  apply elem_of_load_peers in Hx as (i & r & Hl & _ & ->), Hy as (j & r' & Hl' & _ & ->).
  cbn in *. by eapply Hinj.
Qed.

Lemma snapshot_online_known id :
  is_Some (cs_online s !! id) ->
  id ∈ map node_id (map private_peer (load_peers (cs_peers s))).
Proof.
  destruct Hinv as (_ & Ho & _). intros [conns Hc]. destruct (Ho id conns Hc) as [_ (r & Hl & Hr)].
  rewrite map_map. apply list_elem_of_fmap. exists (stored_of_row id r). split; [done|].
  apply elem_of_load_peers. eauto.
Qed.

(** The snapshot for any list of online peers without repeats. *)
Lemma network_snapshot_valid online now :
  NoDup online -> Forall (fun id => is_Some (cs_online s !! id)) online ->
  let sn := network_snapshot tenant signer s online now in
  snapshot_typed sn /\ snapshot_valid blake3 sn.
Proof.
  intros Hnd Hon sn. pose proof Hinv as (_ & _ & [Hg _] & _).
  assert (Hv6 : omap virtual_ipv6 (peers sn) = []).
  { apply omap_all_None. intros p Hp. by apply snapshot_peer_ids. }
  assert (Hcidr : forall a, usable_address a -> addr4_ok sn a).
  { intros a Ha. exists default_v4_cidr. split; [done|]. by apply usable_in_network. }
  split.
  - split_and!.
    + intros c [= <-]. split; [by_decide | done].
    + done.
    + apply Forall_forall. intros p Hp. split; intros a Ha.
      * apply usable_in_network, snapshot_peer_addresses, list_elem_of_omap. eauto.
      * apply snapshot_peer_ids in Hp as [_ Hn]. congruence.
  - split_and!.
    + cbn. lia.
    + intros c [= <-]. split; [done|]. exists default_v4_cidr. split; [done|].
      unfold in_network. by_decide.
    + done.
    + cbn. rewrite map_map. apply load_peers_nodup.
    + apply Forall_forall. intros p Hp. by apply snapshot_peer_ids.
    + apply snapshot_addresses_nodup.
    + apply Forall_forall. intros a Ha. by apply Hcidr, snapshot_peer_addresses.
    + rewrite Hv6. constructor.
    + rewrite Hv6. constructor.
    + done.
    + eapply Forall_impl; [exact Hon|]. intros id Hid. by apply snapshot_online_known.
Qed.

Lemma online_ids_ok :
  NoDup (online_peer_ids s) /\ Forall (fun id => is_Some (cs_online s !! id)) (online_peer_ids s).
Proof.
  unfold online_peer_ids, online_ids. split.
  - rewrite sort_by_key_perm. apply NoDup_fst_map_to_list.
  - rewrite sort_by_key_perm. apply Forall_forall. intros id ([i c] & -> & Hin)%list_elem_of_fmap.
    apply elem_of_map_to_list in Hin. eauto.
Qed.
End SnapshotOf.


End Invariant.

(** ** A sample server

    Text is its own encoding, node [k]'s signing key is [k] repeated, and its id
    is that key. *)
Definition toy_text : TextOps := {|
  b64_encode x := x;
  b64_decode x := Some x;
  json_credential c := cred_signature c;
  parse_credential _ := None
|}.

Definition toy_node (k : Z) : bytes := replicate 32 k.

Definition toy_register (k : Z) (token : bytes) : ControlMessage :=
  Register (toy_node k) 1 (toy_node k) (toy_node (k + 100)) [] (Some token)
    [Host (SockV4 (0x0a000000 + k) 4000)] [].

Definition empty_server : CoordState :=
  mkCoord ∅ ∅ 1 1 ∅ ∅ false false [] [] ∅ ∅ [].

(** The steps a run makes, as functions. *)
Inductive action : Type :=
| Invite (token : bytes)
| Open (conn : Z)
| Receive (conn : Z) (m : ControlMessage)
| Close (conn : Z)
| RevokePeer (id : bytes)
| Broadcast.

Definition perform (s : CoordState) (a : action) : CoordState :=
  match a with
  | Invite token =>
      snd (create_invite (HH := toy_hash) token token (0 :: token) [] [] 600 100 s)
  | Open conn =>
      if bool_decide (cs_conns s !! conn = None) && bool_decide (conn ∉ cs_closed s)
      then set_conns (<[conn := None]> (cs_conns s)) s else s
  | Receive conn m =>
      receive (HH := toy_hash) (HSg := toy_sig) (HT := toy_text) (str "tenant") [3]
        (fun _ => []) conn m 200 s
  | Close conn => close_connection conn s
  | RevokePeer id => if cs_generation s <? 2 ^ 63 - 1 then snd (revoke_peer_inner id s) else s
  | Broadcast => broadcast_turn (HH := toy_hash) (HSg := toy_sig) (str "tenant") [3] 200 s
  end.

Definition run (l : list action) : CoordState := fold_left perform l empty_server.

Lemma perform_steps s a :
  rtc (coord_step (HH := toy_hash) (HSg := toy_sig) (HT := toy_text) (str "tenant") [3])
    s (perform s a).
Proof.
  destruct a; cbn [perform].
  - apply rtc_once. by constructor.
  - destruct (_ && _) eqn:E; [|done].
    apply andb_prop in E as [?%bool_decide_eq_true ?%bool_decide_eq_true].
    apply rtc_once. by constructor.
  - apply rtc_once. by constructor.
  - apply rtc_once. by constructor.
  - destruct (_ <? _) eqn:E; [|done]. apply Z.ltb_lt in E. apply rtc_once. by constructor.
  - apply rtc_once. by constructor.
Qed.

Lemma performs_steps l s :
  rtc (coord_step (HH := toy_hash) (HSg := toy_sig) (HT := toy_text) (str "tenant") [3])
    s (fold_left perform l s).
Proof.
  revert s; induction l as [|a l IH]; intros s; [apply rtc_refl|].
  cbn [fold_left]. etransitivity; [apply perform_steps | apply IH].
Qed.

Lemma run_reachable l :
  reachable (HH := toy_hash) (HSg := toy_sig) (HT := toy_text) (str "tenant") [3] (run l).
Proof.
  exists empty_server. split; [|apply performs_steps].
  by split_and!.
Qed.

(** Two nodes registered over two connections. *)
Definition two_nodes : list action :=
  [Invite [1]; Invite [2]; Open 1; Open 2;
   Receive 1 (toy_register 1 [1]); Receive 2 (toy_register 2 [2])].

Definition server_of_two : CoordState := run two_nodes.

Lemma server_of_two_online : online_peer_ids server_of_two = [toy_node 1; toy_node 2].
Proof. by vm_compute. Qed.


