(* ===== verification/CoordSafety.v ===== *)
(** * Membership and revision safety of the coordination server

    What holds along every run of the server: an invite admits one registration,
    a peer becomes a member only by spending an invite, a member leaves by
    revocation or deletion, and every change of what a snapshot says raises the
    snapshot generation. *)
From S2P Require Import Prelude Net Encoding Wire NodeId Snapshot SignedBytes Crypto Control CoordDb Coord CoordInv.

Section Safety.
Context {HH : Hash} {HSg : SignatureOps} {HT : TextOps}.
Context (tenant signer : bytes).

(** ** Invites *)

Definition invite_spent (h : bytes) (s : CoordState) : Prop :=
  exists r, cs_invites s !! h = Some r /\ inv_used r = true.

(** A property of the invites alone is kept by the handlers that leave them. *)
Lemma keeps_spent_modify h (f : CoordState -> CoordState) :
  (forall s, cs_invites (f s) = cs_invites s) ->
  keeps (invite_spent h) (hmodify f : handler _ CoordError _).
Proof. intros Hf s Hs. cbn. unfold invite_spent. by rewrite Hf. Qed.

Lemma keeps_spent_send h conn m : keeps (invite_spent h) (send conn m).
Proof. intros s Hs. unfold send. by destruct (bool_decide (conn ∈ cs_closed s)). Qed.

Lemma keeps_spent_bump h : keeps (invite_spent h) bump_snapshot.
Proof. intros s Hs. unfold bump_snapshot. by repeat case_match. Qed.

Lemma fold_send_invites (l : list Z) m s :
  cs_invites (fold_left (fun s c => send_ignore c m s) l s) = cs_invites s.
Proof.
  revert s; induction l as [|c l IH]; intros s; [done|]. cbn. rewrite IH.
  unfold send_ignore, send. by destruct (bool_decide (c ∈ cs_closed s)).
Qed.

Lemma keeps_spent_register_with_invite h id sp np token now :
  keeps (invite_spent h) (register_with_invite tenant signer id sp np token now).
Proof.
  intros s (r & Hl & Hu). unfold register_with_invite.
  destruct (cs_invites s !! blake3 token) as [r'|] eqn:E; [|by exists r].
  destruct (_ || _); cbn; [by exists r|]. unfold invite_spent; cbn.
  destruct (decide (blake3 token = h)) as [->|].
  - exists (mark_used r'). by rewrite lookup_insert_eq.
  - exists r. by rewrite lookup_insert_ne.
Qed.

Ltac keeps_spent :=
  keeps_walk;
  repeat match goal with
  | |- keeps _ (hmodify _) => apply keeps_spent_modify; intros ?
  | |- keeps _ (send _ _) => apply keeps_spent_send
  | |- keeps _ bump_snapshot => apply keeps_spent_bump
  | |- keeps _ broadcast_snapshot => apply keeps_spent_modify; intros ?
  | |- keeps _ (register_with_invite _ _ _ _ _ _ _) => apply keeps_spent_register_with_invite
  | |- keeps _ (require_peer _) => by intros ? ?
  | |- keeps _ (require_registered _) => by intros ? ?
  end; try done.

Lemma keeps_spent_finish h conn id stored reg changed now :
  keeps (invite_spent h) (finish_register tenant signer conn id stored reg changed now).
Proof. unfold finish_register, register_store, register_online. keeps_spent. Qed.

Lemma keeps_spent_message h conn registered request now :
  keeps (invite_spent h) (handle_message tenant signer conn registered request now).
Proof.
  destruct request; cbn [handle_message]; auto with vela.
  - unfold handle_register, obtain_credential. keeps_spent. apply keeps_spent_finish.
  - unfold handle_update_candidates. keeps_spent.
  - unfold handle_runtime_status. keeps_spent.
  - unfold handle_request_snapshot. keeps_spent.
  - unfold handle_lookup_peer. keeps_spent. apply fold_send_invites.
  - unfold handle_list_peers. keeps_spent.
  - keeps_spent.
  - unfold handle_pong. keeps_spent.
Qed.

Lemma spent_fmap h (f : InviteRow -> InviteRow) s :
  (forall r, inv_used (f r) = inv_used r) ->
  invite_spent h s -> invite_spent h (set_invites (f <$> cs_invites s) s).
Proof.
  intros Hf (r & Hl & Hu). exists (f r). cbn. rewrite lookup_fmap, Hl. by rewrite Hf.
Qed.

Lemma after_removal_invites id s : cs_invites (snd (after_removal id s)) = cs_invites s.
Proof.
  apply (keeps_bind (fun x => cs_invites x = cs_invites s)); [| |done].
  - intros x Hx. unfold bump_snapshot. by do 2 (destruct (_ <? _); [exact Hx|]).
  - intros _. apply keeps_bind; [|intros _; apply keeps_bind; by intros ? ?].
    intros x Hx. cbn. unfold disconnect_peer. by rewrite fold_send_invites.
Qed.

Lemma close_invites conn s : cs_invites (close_connection conn s) = cs_invites s.
Proof.
  unfold close_connection, bump_snapshot. destruct (cs_conns s !! conn) as [[id|]|]; [|done..].
  cbn zeta. destruct (_ && _); [|done]. by do 2 (destruct (_ <? _); [done|]).
Qed.

Lemma fold_push_invites (l : list Z) m s :
  cs_invites (fold_left (fun s c => push_sent c m s) l s) = cs_invites s.
Proof. revert s; induction l as [|c l IH]; intros s; [done|]. cbn. by rewrite IH. Qed.

Lemma broadcast_invites now s : cs_invites (broadcast_turn tenant signer now s) = cs_invites s.
Proof.
  unfold broadcast_turn, broadcast_snapshot_now. destruct (cs_pending s); [|done].
  cbn [negb cs_invites set_broadcast]. by rewrite fold_push_invites.
Qed.

Lemma step_spent h s s' :
  coord_step tenant signer s s' -> invite_spent h s -> invite_spent h s'.
Proof.
  destruct 1; intros Hs.
  - done.
  - unfold receive. destruct (cs_conns s !! conn) as [registered|]; [|done].
    pose proof (keeps_spent_message h conn registered request now s Hs) as Hk.
    destruct (handle_message tenant signer conn registered request now s) as [[next|e] s'];
      cbn in Hk |- *; [done|]. by apply (keeps_spent_send h conn (as_control text e) s').
  - unfold invite_spent. by rewrite close_invites.
  - unfold revoke_peer_inner. destruct (revoke_row (cs_peers s) id) as [[] t]; [|done].
    unfold invite_spent. by rewrite after_removal_invites.
  - unfold delete_peer_inner. destruct (delete_row (cs_peers s) id) as [[] t]; [|done].
    unfold invite_spent. by rewrite after_removal_invites.
  - done.
  - unfold create_invite. destruct (_ || _) eqn:E; [done|].
    apply orb_false_iff in E as [E%bool_decide_eq_false _].
    destruct Hs as (r & Hl & Hu). exists r. cbn.
    rewrite lookup_insert_ne; [done|]. intros Heq. apply E. by rewrite Heq, Hl.
  - apply spent_fmap; [|done]. intros r. by destruct (downloadable _ _ _).
  - apply spent_fmap; [|done]. intros r. by destruct (bool_decide _).
  - unfold update_network_config. destruct (_ && _); [done|].
    apply (keeps_bind (invite_spent h)); [apply keeps_spent_bump | | done].
    intros _. by apply keeps_spent_modify.
  - unfold invite_spent. by rewrite broadcast_invites.
Qed.

Lemma steps_spent h s s' :
  rtc (coord_step tenant signer) s s' -> invite_spent h s -> invite_spent h s'.
Proof. induction 1; [done|]. intros Hs. by apply IHrtc, (step_spent h x). Qed.

(** A spent invite is refused, and nothing changes. *)
Lemma spent_refused id sp np token now s :
  invite_spent (blake3 token) s ->
  register_with_invite tenant signer id sp np token now s = (Err InviteExpired, s).
Proof.
  intros (r & Hl & Hu). unfold register_with_invite. rewrite Hl, Hu.
  by rewrite orb_true_r.
Qed.

Lemma register_with_invite_Ok id sp np token now s reg s' :
  register_with_invite tenant signer id sp np token now s = (Ok reg, s') ->
  invite_spent (blake3 token) s' /\ ~ invite_spent (blake3 token) s
  /\ cs_peers s' = cs_peers s
  /\ ir_credential reg = Credential_sign
       (Credential_unsigned (mkIdentity id sp np) tenant (sat_add64 now (365 * 24 * 3600)) now
          (ServerSigner_key_id signer)) signer.
Proof.
  unfold register_with_invite. destruct (cs_invites s !! blake3 token) as [r|] eqn:E; [|done].
  destruct (_ || _) eqn:Eb; [done|]. intros [= <- <-].
  apply orb_false_iff in Eb as [[_ Hu]%orb_false_iff _]. split_and!; try done.
  - exists (mark_used r). cbn. by rewrite lookup_insert_eq.
  - intros (r' & Hl & Hu'). congruence.
Qed.

(** The stages of a registration. *)
Lemma handle_register_stages conn id inc signing noise cred inv cands caps now s r s' :
  handle_register tenant signer conn id inc signing noise cred inv cands caps now s = (Ok r, s') ->
  exists sp np stored reg s1,
    decode_key signing = Ok sp /\ decode_key noise = Ok np /\ blake3 sp = id
    /\ obtain_credential tenant signer id sp np cred inv now s = (Ok (stored, reg), s1)
    /\ exists fresh, allocate_virtual_ipv4 blake3 (cs_peers s1) id = Some fresh
       /\ finish_register tenant signer conn id stored reg
            (peer_changed (load_peer (cs_peers s1) id)
               (registration id inc sp np cands (load_peer (cs_peers s1) id) fresh stored caps)) now
            (set_peers (update_peer (cs_peers s1)
               (registration id inc sp np cands (load_peer (cs_peers s1) id) fresh stored caps)) s1)
          = (Ok r, s').
Proof.
  unfold handle_register, hlift. unfold hbind at 1.
  destruct (decode_key signing) as [sp|]; [|done]. unfold hbind at 1.
  destruct (decode_key noise) as [np|]; [|done].
  destruct (bool_decide (blake3 sp = id)) eqn:Hid; cbn [negb]; [|done]. unbool.
  unfold hbind at 1.
  destruct (obtain_credential tenant signer id sp np cred inv now s) as [[[stored reg]|] s1] eqn:Eo; [|done].
  unfold hbind at 1, hget. unfold hbind at 1.
  destruct (allocate_virtual_ipv4 blake3 (cs_peers s1) id) as [fresh|] eqn:Ea; cbn [ok_or]; [|done].
  unfold hbind, hmodify. intros E. eauto 15.
Qed.

(** C26: an invite admits one registration: once a peer has registered with a
    token, every later registration with that token, by anyone, fails and leaves
    the server as it was. *)
Theorem invite_single_use conn id inc signing noise token cands caps now s r s1 s2 :
  handle_register tenant signer conn id inc signing noise [] (Some token) cands caps now s
    = (Ok r, s1) ->
  rtc (coord_step tenant signer) s1 s2 ->
  forall conn' id' inc' signing' noise' cands' caps' now',
  exists e, handle_register tenant signer conn' id' inc' signing' noise' [] (Some token)
              cands' caps' now' s2 = (Err e, s2).
Proof.
  intros Hreg Hsteps conn' id' inc' signing' noise' cands' caps' now'.
  apply handle_register_stages in Hreg as (sp & np & stored & reg & sm & _ & _ & _ & Ho & fresh & _ & Hf).
  unfold obtain_credential in Ho. apply hbind_Ok in Ho as (ir & s1' & Hi & [= _ _ <-]).
  apply register_with_invite_Ok in Hi as (Hsp & _).
  assert (Hs1 : invite_spent (blake3 token) s1).
  { change s1 with (snd (Ok r : result (option bytes) CoordError, s1)). rewrite <- Hf. by apply keeps_spent_finish. }
  apply (steps_spent _ _ _ Hsteps) in Hs1.
  unfold handle_register, hbind, hlift. destruct (decode_key signing') as [sp'|]; [|eauto].
  destruct (decode_key noise') as [np'|]; [|eauto]. destruct (negb _); [eauto|].
  unfold obtain_credential, hbind. rewrite spent_refused by done. eauto.
Qed.

(** ** Membership *)

Definition not_active (id : bytes) (s : CoordState) : Prop := ~ is_active (cs_peers s) id.

Lemma keeps_na_modify id (f : CoordState -> CoordState) :
  (forall s, is_active (cs_peers (f s)) id -> is_active (cs_peers s) id) ->
  keeps (not_active id) (hmodify f : handler _ CoordError _).
Proof. intros Hf s Hs Ha. by apply Hs, Hf. Qed.

Lemma is_active_alter_rev t id f i :
  (forall r, row_revoked (f r) = row_revoked r) -> is_active (alter f id t) i -> is_active t i.
Proof.
  intros Hf (r & Hl & Hr). apply lookup_alter_Some in Hl as [(-> & r0 & ? & ->)|[? ?]].
  - exists r0. split; [done|]. by rewrite <- Hf.
  - by exists r.
Qed.

Lemma is_active_update_rev t p i :
  is_active (update_peer t p) i -> i = sp_node_id p \/ is_active t i.
Proof.
  intros (r & Hl & Hr). unfold update_peer in Hl.
  apply lookup_insert_Some in Hl as [[<- _]|[? ?]]; [by left | right; by exists r].
Qed.

Lemma load_peer_not_active t id : ~ is_active t id -> load_peer t id = None.
Proof.
  intros Hn. unfold load_peer. destruct (t !! id) as [r|] eqn:E; [|done].
  destruct (row_revoked r) eqn:Er; [done|]. exfalso. apply Hn. by exists r.
Qed.

Lemma fold_send_peers (l : list Z) m s :
  cs_peers (fold_left (fun s c => send_ignore c m s) l s) = cs_peers s.
Proof.
  revert s; induction l as [|c l IH]; intros s; [done|]. cbn. rewrite IH.
  unfold send_ignore, send. by destruct (bool_decide (c ∈ cs_closed s)).
Qed.

Lemma fold_push_peers (l : list Z) m s :
  cs_peers (fold_left (fun s c => push_sent c m s) l s) = cs_peers s.
Proof. revert s; induction l as [|c l IH]; intros s; [done|]. cbn. by rewrite IH. Qed.

Lemma keeps_na_send id conn m : keeps (not_active id) (send conn m).
Proof. intros s Hs. unfold send. by destruct (bool_decide (conn ∈ cs_closed s)). Qed.

Lemma keeps_na_bump id : keeps (not_active id) bump_snapshot.
Proof. intros s Hs. unfold bump_snapshot. by do 2 (destruct (_ <? _); [done|]). Qed.

Ltac keeps_na :=
  keeps_walk;
  repeat match goal with
  | |- keeps _ (hmodify _) => apply keeps_na_modify; intros ?
  | |- keeps _ (send _ _) => apply keeps_na_send
  | |- keeps _ bump_snapshot => apply keeps_na_bump
  | |- keeps _ broadcast_snapshot => apply keeps_na_modify; intros ?
  | |- keeps _ (require_peer _) => by intros ? ?
  | |- keeps _ (require_registered _) => by intros ? ?
  | |- is_active (cs_peers (set_peers (touch_peer _ _ _) _)) _ -> _ =>
      by apply is_active_alter_rev
  | |- is_active (cs_peers (set_peers (snd (update_peer_metadata _ _ _ _)) _)) _ -> _ =>
      by apply is_active_alter_rev
  end; try done.

Lemma keeps_na_finish i conn id stored reg changed now :
  keeps (not_active i) (finish_register tenant signer conn id stored reg changed now).
Proof. unfold finish_register, register_store, register_online. keeps_na. Qed.

Lemma register_with_invite_Err id sp np token now s e s' :
  register_with_invite tenant signer id sp np token now s = (Err e, s') -> s' = s.
Proof. unfold register_with_invite. intros E. repeat case_match; by simplify_eq. Qed.

(** A presented credential only helps a peer that is registered and not revoked. *)
Lemma check_credential_active id sp np cred now t c :
  check_credential tenant signer id sp np cred now t = Ok c -> is_active t id.
Proof.
  unfold check_credential. intros E. inv_ok.
  match goal with E : sp_credential <$> _ = Some _ |- _ =>
    apply fmap_Some in E as (p & Hp & _) end.
  apply load_peer_Some in Hp as (r & Hl & Hr & _). by exists r.
Qed.

(** Either a peer that is out stays out, or an unused invite is spent. *)
Definition admitted_by_invite (i : bytes) (s s' : CoordState) : Prop :=
  not_active i s' \/ exists h, ~ invite_spent h s /\ invite_spent h s'.

Lemma handle_register_admits i conn id inc signing noise cred inv cands caps now s :
  not_active i s ->
  admitted_by_invite i s
    (snd (handle_register tenant signer conn id inc signing noise cred inv cands caps now s)).
Proof.
  intros Hn. unfold handle_register, hlift. unfold hbind at 1.
  destruct (decode_key signing) as [sp|]; [|by left]. unfold hbind at 1.
  destruct (decode_key noise) as [np|]; [|by left].
  destruct (bool_decide (blake3 sp = id)) eqn:Hid; cbn [negb]; [|by left]. unbool.
  unfold hbind at 1, obtain_credential. destruct cred as [|c0 cred].
  - destruct inv as [token|]; [|by left]. unfold hbind at 1.
    destruct (register_with_invite tenant signer id sp np token now s) as [[reg|e] s1] eqn:Er.
    2: { apply register_with_invite_Err in Er as ->. by left. }
    apply register_with_invite_Ok in Er as (Hsp & Hns & _). cbn [hret]. right.
    exists (blake3 token). split; [done|]. unfold hbind at 1, hget. unfold hbind at 1.
    destruct (allocate_virtual_ipv4 blake3 (cs_peers s1) id) as [fresh|]; cbn [ok_or]; [|done].
    unfold hbind, hmodify. by apply keeps_spent_finish.
  - unfold hbind at 1, hget. unfold hbind at 1.
    destruct (check_credential tenant signer id sp np (c0 :: cred) now (cs_peers s)) as [c|] eqn:Ec;
      [|by left].
    apply check_credential_active in Ec. left. unfold hbind, hlift, hret. cbn beta iota.
    destruct (allocate_virtual_ipv4 blake3 (cs_peers s) id) as [fresh|]; cbn [ok_or]; [|done].
    unfold hmodify. apply keeps_na_finish.
    intros [->|Ha]%is_active_update_rev; by apply Hn.
Qed.

Lemma update_candidates_keeps_out i conn registered cands now :
  keeps (not_active i) (handle_update_candidates tenant signer conn registered cands now).
Proof.
  intros s Hn. unfold handle_update_candidates. unfold hbind at 1, require_registered, hlift.
  destruct registered as [id|]; [|done]. cbn [ok_or]. unfold hbind at 1, require_peer.
  destruct (load_peer (cs_peers s) id) as [q|] eqn:Hq; cbn [ok_or]; [|done].
  apply load_peer_Some in Hq as (r & Hl & Hr & ->).
  unfold hbind at 1, hmodify at 1. cbn beta iota.
  match goal with |- not_active i (snd (?m ?x)) => assert (Hx : not_active i x) end.
  { intros [->|Ha]%is_active_update_rev; [|by apply Hn]. apply Hn. by exists r. }
  revert Hx. match goal with |- not_active i ?x -> _ => generalize x end.
  match goal with |- forall x, not_active i x -> not_active i (snd (?m x)) =>
    change (keeps (not_active i) m) end.
  keeps_na.
Qed.

Lemma handle_message_admits i conn registered request now s :
  not_active i s ->
  admitted_by_invite i s (snd (handle_message tenant signer conn registered request now s)).
Proof.
  intros Hn. destruct request; cbn [handle_message]; try (left; exact Hn).
  - by apply handle_register_admits.
  - left. by apply update_candidates_keeps_out.
  - left. revert s Hn. change (keeps (not_active i) (handle_runtime_status conn registered virtual_mtu)).
    unfold handle_runtime_status. keeps_na.
  - left. revert s Hn. change (keeps (not_active i) (handle_request_snapshot tenant signer conn registered now)).
    unfold handle_request_snapshot. keeps_na.
  - left. revert s Hn. change (keeps (not_active i) (handle_lookup_peer conn registered node_id)).
    unfold handle_lookup_peer. keeps_na. by rewrite fold_send_peers.
  - left. revert s Hn. change (keeps (not_active i) (handle_list_peers conn registered)).
    unfold handle_list_peers. keeps_na.
  - left. revert s Hn. change (keeps (not_active i)
      (hbind (send conn (Pong nonce)) (fun _ => hret registered : handler CoordState CoordError (option bytes)))). keeps_na.
  - left. revert s Hn. change (keeps (not_active i) (handle_pong registered now)).
    unfold handle_pong. keeps_na.
Qed.

Lemma after_removal_peers id s : cs_peers (snd (after_removal id s)) = cs_peers s.
Proof.
  apply (keeps_bind (fun x => cs_peers x = cs_peers s)); [| |done].
  - intros x Hx. unfold bump_snapshot. by do 2 (destruct (_ <? _); [exact Hx|]).
  - intros _. apply keeps_bind; [|intros _; apply keeps_bind; by intros ? ?].
    intros x Hx. cbn. unfold disconnect_peer. by rewrite fold_send_peers.
Qed.

Lemma close_peers conn s : cs_peers (close_connection conn s) = cs_peers s.
Proof.
  unfold close_connection, bump_snapshot. destruct (cs_conns s !! conn) as [[id|]|]; [|done..].
  cbn zeta. destruct (_ && _); [|done]. by do 2 (destruct (_ <? _); [done|]).
Qed.

Lemma broadcast_peers now s : cs_peers (broadcast_turn tenant signer now s) = cs_peers s.
Proof.
  unfold broadcast_turn, broadcast_snapshot_now. destruct (cs_pending s); [|done].
  cbn [negb cs_peers set_broadcast]. by rewrite fold_push_peers.
Qed.

(** ** Snapshot generations

    What a snapshot says, apart from its generation and its date: the public part
    of the active rows, who is online, and the server lists. *)
Definition member_view (t : PeerTable) (id : bytes) : option PeerInfo :=
  private_peer <$> load_peer t id.

Definition same_content (s s' : CoordState) : Prop :=
  (forall id, member_view (cs_peers s') id = member_view (cs_peers s) id)
  /\ dom (cs_online s') = dom (cs_online s)
  /\ cs_doh s' = cs_doh s /\ cs_stun s' = cs_stun s.

(** The generation is a signed 64-bit column, so it can no longer grow at its end. *)
Definition advanced (s x : CoordState) : Prop :=
  cs_generation s < cs_generation x
  \/ (cs_generation x = cs_generation s
      /\ (cs_generation s < 2 ^ 63 - 1 -> same_content s x)).

Lemma advanced_refl s : advanced s s.
Proof. right. by split_and!. Qed.

Lemma same_content_trans s x y : same_content s x -> same_content x y -> same_content s y.
Proof.
  intros (Hv & Ho & Hd & Hs) (Hv' & Ho' & Hd' & Hs').
  split_and!; [intros id; by rewrite Hv' | by etransitivity..].
Qed.

Lemma advanced_trans s x y : advanced s x -> advanced x y -> advanced s y.
Proof.
  intros [Hl|[E Hc]] [Hl'|[E' Hc']]; [left; lia..|].
  right. split; [lia|]. intros Hb. apply (same_content_trans s x); [by apply Hc|].
  apply Hc'. lia.
Qed.

Lemma advanced_same s x y :
  advanced s x -> cs_generation y = cs_generation x -> same_content x y -> advanced s y.
Proof. intros H E Hc. apply (advanced_trans s x y H). by right. Qed.

Lemma bump_cases x :
  bump_snapshot x = (Ok tt, set_generation (cs_generation x + 1) x)
  \/ (exists e, bump_snapshot x = (Err e, x)) /\ 2 ^ 63 - 1 <= cs_generation x.
Proof.
  unfold bump_snapshot, U64_MAX.
  destruct (Z.ltb_spec (2 ^ 64 - 1) (cs_generation x + 1)); [right; split; [eauto|lia]|].
  destruct (Z.ltb_spec (2 ^ 63 - 1) (cs_generation x + 1)); [right; split; [eauto|lia]|].
  by left.
Qed.

(** A handler that bumps the generation after changing the content advances. *)
Lemma bump_then {A} s x (k : unit -> handler CoordState CoordError A) :
  cs_generation x = cs_generation s ->
  keeps (fun y => cs_generation s < cs_generation y) (k tt) ->
  advanced s (snd (hbind bump_snapshot k x)).
Proof.
  intros E Hk. unfold hbind. destruct (bump_cases x) as [->|[[e ->] Hb]].
  - left. apply Hk. cbn. lia.
  - right. split; [done|lia].
Qed.

Lemma member_view_alter t id f i :
  (forall j r, row_revoked (f r) = row_revoked r
     /\ private_peer (stored_of_row j (f r)) = private_peer (stored_of_row j r)) ->
  member_view (alter f id t) i = member_view t i.
Proof.
  intros Hf. unfold member_view, load_peer. destruct (decide (i = id)) as [->|].
  - rewrite lookup_alter_eq. destruct (t !! id) as [r|]; [|done]. cbn.
    destruct (Hf id r) as [-> Hp]. destruct (row_revoked r); [done|]. cbn. by rewrite Hp.
  - by rewrite lookup_alter_ne.
Qed.

Lemma load_peers_sorted t : StronglySorted (key_le node_id) (map private_peer (load_peers t)).
Proof.
  assert (Hs : StronglySorted (key_le sp_node_id) (load_peers t)) by apply sort_by_key_sorted.
  induction Hs as [|p l _ IH Hl]; cbn [map]; constructor; [done|].
  apply Forall_map. by eapply Forall_impl.
Qed.

(** Lists sorted by distinct keys with the same elements are equal. *)
Lemma view_peers t t' :
  (forall id, member_view t' id = member_view t id) ->
  map private_peer (load_peers t') = map private_peer (load_peers t).
Proof.
  intros Hv.
  assert (Hin : forall u p, p ∈ map private_peer (load_peers u) <-> member_view u (node_id p) = Some p).
  { intros u p. unfold member_view. rewrite list_elem_of_fmap. setoid_rewrite elem_of_load_peers. split.
    - intros (q & -> & id & r & Hl & Hr & ->). cbn. unfold load_peer. by rewrite Hl, Hr.
    - intros (q & Hq & ->)%fmap_Some. exists q. split; [done|].
      apply load_peer_Some in Hq as (r & Hl & Hr & E). eauto. }
  apply (sorted_by_key_ext node_id).
  - by apply load_peers_sorted.
  - by apply load_peers_sorted.
  - rewrite map_map. apply load_peers_nodup.
  - rewrite map_map. apply load_peers_nodup.
  - intros p. by rewrite !Hin, Hv.
Qed.

Lemma same_content_snapshot s s' online now :
  cs_generation s' = cs_generation s -> same_content s s' ->
  network_snapshot tenant signer s' online now = network_snapshot tenant signer s online now.
Proof.
  intros E (Hv & _ & Hd & Hs). unfold network_snapshot.
  by rewrite E, Hd, Hs, (view_peers _ _ Hv).
Qed.
Lemma keeps_adv_modify s (f : CoordState -> CoordState) :
  (forall x, cs_generation (f x) = cs_generation x /\ same_content x (f x)) ->
  keeps (advanced s) (hmodify f : handler _ CoordError _).
Proof. intros Hf x Hx. destruct (Hf x). by apply (advanced_same s x). Qed.

Lemma send_same conn m x :
  cs_generation (snd (send conn m x)) = cs_generation x /\ same_content x (snd (send conn m x)).
Proof. unfold send. by destruct (bool_decide (conn ∈ cs_closed x)). Qed.

Lemma fold_send_same (l : list Z) m x :
  cs_generation (fold_left (fun s c => send_ignore c m s) l x) = cs_generation x
  /\ same_content x (fold_left (fun s c => send_ignore c m s) l x).
Proof.
  revert x; induction l as [|c l IH]; intros x; [done|]. cbn [fold_left].
  destruct (IH (send_ignore c m x)) as [Hg Hc], (send_same c m x) as [Hg' Hc'].
  split; [by rewrite Hg | by eapply same_content_trans].
Qed.

Lemma touch_same id now x : same_content x (set_peers (touch_peer (cs_peers x) id now) x).
Proof. split_and!; [|done..]. intros i. by apply member_view_alter. Qed.

Lemma metadata_same id name notes x :
  same_content x (set_peers (snd (update_peer_metadata (cs_peers x) id name notes)) x).
Proof. split_and!; [|done..]. intros i. by apply member_view_alter. Qed.

(** The steps of a handler that neither changes the content nor bumps. *)
Ltac keeps_adv :=
  keeps_walk;
  repeat match goal with
  | |- keeps _ (hmodify _) => apply keeps_adv_modify; intros ?
  | |- keeps _ (send _ _) => intros ? ?; eapply advanced_same; [eassumption | apply send_same..]
  | |- keeps _ broadcast_snapshot => apply keeps_adv_modify; intros ?
  | |- keeps _ (require_peer _) => by intros ? ?
  | |- keeps _ (require_registered _) => by intros ? ?
  end; try done; try (by split_and!).

Ltac keeps_gen :=
  keeps_walk; unfold broadcast_snapshot;
  repeat match goal with
  | |- keeps _ (hmodify _) => by intros ? ?
  | |- keeps _ (send ?c ?m) =>
      let x := fresh in intros x ?; cbn beta; by rewrite (proj1 (send_same c m x))
  end.

Lemma finish_register_advances s conn id stored reg changed now x :
  cs_generation x = cs_generation s ->
  advanced s (snd (finish_register tenant signer conn id stored reg changed now x)).
Proof.
  intros E. unfold finish_register, register_store.
  match goal with |- context [register_online tenant signer ?c ?i ?st ?ch ?n] =>
    pose (k := fun _ : unit => register_online tenant signer c i st ch n) end.
  assert (Hk : keeps (fun y => cs_generation s < cs_generation y) (k tt)).
  { unfold k, register_online. keeps_gen. }
  destruct reg as [reg|].
  - apply (bump_then s _ k); [|done]. exact E.
  - apply (bump_then s _ k); [|done]. exact E.
Qed.

Lemma obtain_same id sp np cred inv now x :
  cs_generation (snd (obtain_credential tenant signer id sp np cred inv now x)) = cs_generation x
  /\ same_content x (snd (obtain_credential tenant signer id sp np cred inv now x)).
Proof.
  unfold obtain_credential, hbind, hlift, hget, hret, register_with_invite.
  repeat case_match; by simplify_eq.
Qed.
Lemma handle_register_advances conn id inc signing noise cred inv cands caps now s :
  advanced s
    (snd (handle_register tenant signer conn id inc signing noise cred inv cands caps now s)).
Proof.
  unfold handle_register, hlift. unfold hbind at 1.
  destruct (decode_key signing) as [sp|]; [|apply advanced_refl]. unfold hbind at 1.
  destruct (decode_key noise) as [np|]; [|apply advanced_refl].
  destruct (negb _); [apply advanced_refl|]. unfold hbind at 1.
  destruct (obtain_same id sp np cred inv now s) as [Hg Hc].
  destruct (obtain_credential tenant signer id sp np cred inv now s) as [[[stored reg]|e] s1];
    cbn [snd] in *; [|by right].
  unfold hbind at 1, hget. unfold hbind at 1.
  destruct (allocate_virtual_ipv4 blake3 (cs_peers s1) id) as [fresh|]; cbn [ok_or snd]; [|by right].
  unfold hbind, hmodify. by apply finish_register_advances.
Qed.

(** Storing a peer again with its candidates unchanged. *)
Lemma same_candidates_view t id p i :
  load_peer t id = Some p ->
  member_view (update_peer t (with_candidates p (sp_candidates p))) i = member_view t i.
Proof.
  intros Hp. apply load_peer_Some in Hp as (r & Hl & Hr & ->).
  unfold member_view, load_peer, update_peer. cbn. destruct (decide (i = id)) as [->|].
  - rewrite lookup_insert_eq, Hl, Hr. unfold private_peer; cbn. f_equal. f_equal.
    + apply wrap_wrap_signed.
    + by destruct (row_virtual_ipv4 r).
    + by destruct (row_virtual_ipv6 r).
  - by rewrite lookup_insert_ne.
Qed.

Lemma update_candidates_advances conn registered cands now s :
  advanced s (snd (handle_update_candidates tenant signer conn registered cands now s)).
Proof.
  unfold handle_update_candidates. unfold hbind at 1, require_registered, hlift.
  destruct registered as [id|]; [|apply advanced_refl]. cbn [ok_or]. unfold hbind at 1, require_peer.
  destruct (load_peer (cs_peers s) id) as [q|] eqn:Hq; cbn [ok_or]; [|apply advanced_refl].
  unfold hbind at 1, hmodify at 1. unfold hbind at 1, hmodify at 1.
  case_bool_decide as Hc; cbn [negb].
  - subst cands. unfold hbind at 1, hget.
    apply keeps_bind; [keeps_adv | intros _; keeps_adv|].
    apply (advanced_trans s (set_peers (update_peer (cs_peers s) (with_candidates q (sp_candidates q))) s)).
    + right. split; [done|]. intros _. split_and!; [|done..]. intros i.
      by apply (same_candidates_view _ id).
    + right. split; [done|]. intros _. apply touch_same.
  - apply bump_then; [done|]. keeps_gen.
Qed.

Lemma handle_message_advances conn registered request now s :
  advanced s (snd (handle_message tenant signer conn registered request now s)).
Proof.
  assert (Hk : forall A (m : handler CoordState CoordError A),
    keeps (advanced s) m -> advanced s (snd (m s))).
  { intros A m Hm. apply Hm, advanced_refl. }
  destruct request; cbn [handle_message]; try apply advanced_refl.
  - apply handle_register_advances.
  - apply update_candidates_advances.
  - apply Hk. unfold handle_runtime_status. keeps_adv.
  - apply Hk. unfold handle_request_snapshot. keeps_adv.
  - apply Hk. unfold handle_lookup_peer. keeps_adv. apply fold_send_same.
  - apply Hk. unfold handle_list_peers. keeps_adv.
  - apply Hk. keeps_adv.
  - apply Hk. unfold handle_pong. keeps_adv. split; [done|apply touch_same].
Qed.

Lemma after_removal_advances s id t : advanced s (snd (after_removal id (set_peers t s))).
Proof.
  apply bump_then; [done|]. keeps_gen. intros x Hx. cbn. unfold disconnect_peer.
  by rewrite (proj1 (fold_send_same _ _ _)).
Qed.

Lemma close_advances conn s : advanced s (close_connection conn s).
Proof.
  unfold close_connection. destruct (cs_conns s !! conn) as [[id|]|] eqn:E;
    [|by right..]. cbn zeta. destruct (_ && _) eqn:Eb.
  - match goal with |- advanced s (match bump_snapshot ?x with _ => _ end) =>
      destruct (bump_cases x) as [->|[[e ->] Hb]] end; [left; cbn; lia|].
    right. split; [done|]. cbn in Hb. lia.
  - right. split; [done|]. intros _. split_and!; try done. cbn in Eb |- *.
    unfold drop_session in *. destruct (cs_online s !! id) as [conns|] eqn:Eo; [|done].
    destruct (bool_decide (conns ∖ {[conn]} = ∅)).
    + rewrite lookup_delete_eq in Eb. done.
    + rewrite dom_insert_L. assert (id ∈ dom (cs_online s)) by (by apply elem_of_dom_2 in Eo). set_solver.
Qed.

Lemma fold_push_same (l : list Z) m x :
  cs_generation (fold_left (fun s c => push_sent c m s) l x) = cs_generation x
  /\ same_content x (fold_left (fun s c => push_sent c m s) l x).
Proof. revert x; induction l as [|c l IH]; intros x; [done|]. apply (IH (push_sent c m x)). Qed.

Lemma step_advances s s' : coord_step tenant signer s s' -> advanced s s'.
Proof.
  destruct 1; try (by right).
  - unfold receive. destruct (cs_conns s !! conn) as [registered|]; [|apply advanced_refl].
    pose proof (handle_message_advances conn registered request now s) as Hk.
    destruct (handle_message tenant signer conn registered request now s) as [[next|e] s'];
      cbn [snd] in Hk.
    + by eapply advanced_same.
    + eapply advanced_same; [exact Hk | apply send_same..].
  - apply close_advances.
  - unfold revoke_peer_inner. destruct (revoke_row (cs_peers s) id) as [[] t];
      [apply after_removal_advances | apply advanced_refl].
  - unfold delete_peer_inner. destruct (delete_row (cs_peers s) id) as [[] t];
      [apply after_removal_advances | apply advanced_refl].
  - right. split; [done|]. intros _. apply metadata_same.
  - unfold create_invite. destruct (_ || _); by right.
  - unfold update_network_config. destruct (_ && _); [apply advanced_refl|].
    apply bump_then; [done|]. keeps_gen.
  - unfold broadcast_turn, broadcast_snapshot_now. destruct (cs_pending s); [|by right].
    cbn [negb]. match goal with |- context [fold_left _ ?l ?x] =>
      match goal with |- context [push_sent _ ?m _] => destruct (fold_push_same l m x) as [Hg Hc] end end.
    by apply (advanced_same s s); [apply advanced_refl|..].
Qed.

(** a snapshot generation names one content: along every run of the server the
    generation never decreases, and while it keeps its value, below the last
    64-bit one, who is online and every snapshot the server signs are unchanged. *)
Theorem generation_fresh s s' :
  rtc (coord_step tenant signer) s s' ->
  cs_generation s <= cs_generation s'
  /\ (cs_generation s' = cs_generation s -> cs_generation s < 2 ^ 63 - 1 ->
      dom (cs_online s') = dom (cs_online s)
      /\ forall online now,
         network_snapshot tenant signer s' online now = network_snapshot tenant signer s online now).
Proof.
  intros Hr. assert (Ha : advanced s s').
  { induction Hr as [|x y z Hs _ IH]; [apply advanced_refl|].
    by eapply advanced_trans; [apply step_advances|]. }
  destruct Ha as [Hl|[E Hc]]; [split; lia|]. split; [lia|]. intros _ Hb.
  specialize (Hc Hb). split; [by destruct Hc as (_ & ? & _)|].
  intros online now. by apply same_content_snapshot.
Qed.
End Safety.

(** ** The sample server *)

Definition invited : CoordState := run [Invite [1]; Open 1; Open 2].

Definition toy_handle_register (conn k : Z) (token : bytes) (s : CoordState) :=
  handle_register (HH := toy_hash) (HSg := toy_sig) (HT := toy_text) (str "tenant") [3]
    conn (toy_node k) 1 (toy_node k) (toy_node (k + 100)) [] (Some token) [] [] 200 s.

Definition registered_once : CoordState := snd (toy_handle_register 1 1 [1] invited).

Lemma invite_single_use_witness :
  let s2 := fold_left perform [Close 1; Open 3] registered_once in
  exists e, toy_handle_register 3 2 [1] s2 = (Err e, s2).
Proof.
  intros s2. unfold toy_handle_register.
  apply (invite_single_use (HH := toy_hash) (HSg := toy_sig) (HT := toy_text) (str "tenant") [3]
           1 (toy_node 1) 1 (toy_node 1) (toy_node 101) [1] [] [] 200 invited
           (Some (toy_node 1)) registered_once s2).
  - unfold registered_once, toy_handle_register. by vm_compute.
  - apply performs_steps.
Defined.


Lemma generation_fresh_witness :
  let s2 := fold_left perform [Close 1; Open 3] registered_once in
  cs_generation registered_once <= cs_generation s2.
Proof.
  intros s2.
  apply (generation_fresh (HH := toy_hash) (HSg := toy_sig) (HT := toy_text) (str "tenant") [3]).
  apply performs_steps.
Defined.
