(* ===== verification/CoordRaces.v ===== *)
(** * What the server's invariant does not cover

    The states of [vela-coord/src/lib.rs] that a correct client would not expect:
    two handlers interleaved at a point where one of them waits, a connection that
    registers twice, a revoked peer whose connection stays open, a removal at the
    last snapshot generation, and a full address pool. *)
From S2P Require Import Prelude Net Encoding Wire NodeId Snapshot SignedBytes Crypto Control CoordDb Coord CoordInv.

Section Races.
Context {HH : Hash} {HSg : SignatureOps} {HT : TextOps}.
Context (tenant signer : bytes).

(** [Register] up to the point where it waits for the online table. *)
Definition register_begin (id : bytes) (inc : Z) (signing noise credential : bytes)
    (invite : option bytes) (cands : list Candidate) (caps : list PeerCapability) (now : Z)
    : handler CoordState CoordError (bytes * bool) :=
  let! sp := hlift (decode_key signing) in
  let! np := hlift (decode_key noise) in
  if negb (bool_decide (blake3 sp = id)) then hfail Coord_InvalidPeer
  else
    let! (stored, reg) := obtain_credential tenant signer id sp np credential invite now in
    let! s := hget in
    let previous := load_peer (cs_peers s) id in
    let! fresh := hlift (ok_or (allocate_virtual_ipv4 blake3 (cs_peers s) id)
                           AddressPoolExhausted) in
    let peer := registration id inc sp np cands previous fresh stored caps in
    let! _ := hmodify (fun s => set_peers (update_peer (cs_peers s) peer) s) in
    let! _ := register_store id reg now in
    hret (stored, peer_changed previous peer).

(** With nothing in between, the two halves are [Register]. *)
Lemma handle_register_split conn id inc signing noise cred inv cands caps now s :
  handle_register tenant signer conn id inc signing noise cred inv cands caps now s
  = hbind (register_begin id inc signing noise cred inv cands caps now)
      (fun '(stored, changed) => register_online tenant signer conn id stored changed now) s.
Proof.
  unfold handle_register, register_begin, finish_register, hbind, hlift, hmodify, hget, hret, hfail.
  destruct (decode_key signing); [|done]. destruct (decode_key noise); [|done].
  destruct (negb _); [done|].
  destruct (obtain_credential _ _ _ _ _ _ _ _ _) as [[[stored reg]|] s1]; [|done].
  destruct (ok_or _ _); [|done].
  by destruct (register_store id reg now _) as [[u|e] s2].
Qed.

Lemma obtain_peers id sp np cred inv now s c s' :
  obtain_credential tenant signer id sp np cred inv now s = (c, s') -> cs_peers s' = cs_peers s.
Proof.
  unfold obtain_credential, hbind, hlift, hget, hret, hfail, register_with_invite.
  intros E. repeat case_match; by simplify_eq.
Qed.

(** When every address is taken no registration succeeds, not even one that
    renews a peer that has an address. *)
Lemma register_fails_when_full conn id inc signing noise cred inv cands caps now s :
  (forall a, usable_address a ->
     exists id' r, cs_peers s !! id' = Some r /\ row_virtual_ipv4 r = Some a) ->
  exists e, fst (handle_register tenant signer conn id inc signing noise cred inv cands caps now s)
            = Err e.
Proof.
  intros Hfull.
  destruct (handle_register tenant signer conn id inc signing noise cred inv cands caps now s)
    as [[r|e] s'] eqn:E; [|by exists e]. exfalso.
  rewrite handle_register_split in E. apply hbind_Ok in E as ([stored changed] & s2 & E & _).
  unfold register_begin in E. apply hbind_Ok in E as (sp & ? & [= _ <-] & E).
  apply hbind_Ok in E as (np & ? & [= _ <-] & E). destruct (negb _); [done|].
  apply hbind_Ok in E as ([c reg] & s1 & Ho & E). apply hbind_Ok in E as (s1' & ? & [= <- <-] & E).
  apply hbind_Ok in E as (fresh & ? & [= Ha <-] & _).
  apply obtain_peers in Ho. rewrite Ho in Ha.
  destruct (allocate_virtual_ipv4 blake3 (cs_peers s) id) as [a|] eqn:Ea; [|done].
  apply allocate_Some in Ea as [Hu Hfree]. destruct (Hfull a Hu) as (id2 & row & Hl & Hr).
  by apply (Hfree id2 row).
Qed.

(** A revocation between reading a peer and storing it with its new candidates
    ([UpdateCandidates]) is undone: the statement clears the [revoked] column. *)
Lemma update_candidates_undoes_revocation s id p cands :
  load_peer (cs_peers s) id = Some p ->
  is_active (update_peer (cs_peers (snd (revoke_peer_inner id s))) (with_candidates p cands)) id.
Proof.
  intros Hp. apply load_peer_Some in Hp as (r & _ & _ & ->).
  eexists. unfold update_peer. cbn. by rewrite lookup_insert_eq.
Qed.
End Races.

(** ** Runs of the sample server *)

Definition toy_begin (k : Z) (token : bytes) (s : CoordState) :=
  register_begin (HH := toy_hash) (HSg := toy_sig) (HT := toy_text) (str "tenant") [3]
    (toy_node k) 1 (toy_node k) (toy_node (k + 100)) [] (Some token) [] [] 200 s.

Definition toy_online (conn k : Z) (s : CoordState) : CoordState :=
  snd (register_online (HH := toy_hash) (HSg := toy_sig) (HT := toy_text) (str "tenant") [3]
         conn (toy_node k) [] true 200 s).

Definition toy_snapshot (s : CoordState) : NetworkSnapshot :=
  network_snapshot (HH := toy_hash) (HSg := toy_sig) (str "tenant") [3] s (online_peer_ids s) 200.

(** Node 2 is revoked while its registration waits for the online table. *)
Definition revoked_while_registering : CoordState :=
  let s := run [Invite [1]; Invite [2]; Open 1; Open 2; Receive 1 (toy_register 1 [1])] in
  let s := snd (toy_begin 2 [2] s) in
  toy_online 2 2 (snd (revoke_peer_inner (toy_node 2) s)).

(** It ends revoked and online, and node 1 refuses every snapshot from then on. *)
Lemma revoke_race_breaks_snapshots :
  is_Some (cs_online revoked_while_registering !! toy_node 2)
  /\ load_peer (cs_peers revoked_while_registering) (toy_node 2) = None
  /\ validate toy_hash (toy_snapshot revoked_while_registering) <> Ok tt.
Proof. vm_compute. split_and!; [by eexists | done | done]. Qed.

(** One connection registers node 1, then node 2, and closes: node 1 stays online
    with no connection left. *)
Lemma second_registration_leaks_online :
  let s := run [Invite [1]; Invite [2]; Open 1; Receive 1 (toy_register 1 [1]);
                Receive 1 (toy_register 2 [2]); Close 1] in
  cs_conns s = ∅ /\ online_peer_ids s = [toy_node 1].
Proof. by vm_compute. Qed.

(** A revoked peer is told so, but its open connection still gets snapshots. *)
Lemma revoked_connection_served :
  let s := run (two_nodes ++ [RevokePeer (toy_node 2); Receive 2 RequestSnapshot]) in
  load_peer (cs_peers s) (toy_node 2) = None
  /\ exists sn, last (cs_sent s) = Some (2, Control (SnapshotResponse sn))
               /\ map node_id (peers sn) = [toy_node 1].
Proof. vm_compute. split; [done|]. by eexists. Qed.

(** At the last generation a revocation reports an error after revoking the row,
    and the peer stays online. *)
Lemma revoke_at_last_generation :
  let s := set_generation (2 ^ 63 - 1) (run two_nodes) in
  let '(r, s') := revoke_peer_inner (toy_node 2) s in
  r = Err SnapshotGenerationOverflow /\ load_peer (cs_peers s') (toy_node 2) = None
  /\ is_Some (cs_online s' !! toy_node 2).
Proof. vm_compute. split_and!; [done | done | by eexists]. Qed.
