(* ===== verification/CoordSocket.v ===== *)
(** * The connections of the coordination server

    [handle_socket] of [vela-coord/src/lib.rs]: the tasks of one connection (the
    writer with its queue and its latest-only snapshot, the heartbeat, the loop
    that reads requests) and the mutex [online] that all connections share.  The
    handlers of the requests are those of [Coord]; here a handler is the list of
    the places where it waits: the mutex, and room in the queue of a connection.
    An event of the server is a function that gives [None] when it has to wait.
    The theorems say what a client receives, when the heartbeat ends a connection,
    and who can hold up the whole server. *)
From S2P Require Import Prelude Net Encoding Wire NodeId Snapshot SignedBytes Crypto Control CoordDb Coord CoordInv.

Definition OUTBOUND_CAPACITY : nat := 64.
Definition CONTROL_HEARTBEAT_INTERVAL : Z := 15.
Definition CONTROL_HEARTBEAT_TIMEOUT_SECONDS : Z := 45.

(** A place where a handler waits; [checked]: the handler returns when the send fails *)
Inductive Act : Type :=
| Lock
| Unlock
| Send (to_ : Z) (m : ControlMessage) (checked : bool).

(** The loop over the requests of a connection *)
Inductive RequestLoop : Type :=
| Reading
| Handling (acts : list Act).

(** The variables of [handle_socket]; [cn_sent] is everything that was put on the
    two channels, [cn_written] what the writer has sent. *)
Record Connection : Type := mkConnection {
  cn_outbound : list ControlMessage;
  cn_latest : option NetworkSnapshot;
  cn_changed : bool;
  cn_writing : bool;
  cn_written : list Outgoing;
  cn_sent : list Outgoing;
  cn_last_pong : Z;
  cn_beating : bool;
  cn_failed : bool;
  cn_reader : RequestLoop
}.

Definition connection_new (now : Z) : Connection := mkConnection [] None false true [] [] now true false Reading.

Definition set_outbound x c := mkConnection x (cn_latest c) (cn_changed c) (cn_writing c) (cn_written c) (cn_sent c) (cn_last_pong c) (cn_beating c) (cn_failed c) (cn_reader c).
Definition set_latest x b c := mkConnection (cn_outbound c) x b (cn_writing c) (cn_written c) (cn_sent c) (cn_last_pong c) (cn_beating c) (cn_failed c) (cn_reader c).
Definition set_written x c := mkConnection (cn_outbound c) (cn_latest c) (cn_changed c) (cn_writing c) x (cn_sent c) (cn_last_pong c) (cn_beating c) (cn_failed c) (cn_reader c).
Definition set_sent x c := mkConnection (cn_outbound c) (cn_latest c) (cn_changed c) (cn_writing c) (cn_written c) x (cn_last_pong c) (cn_beating c) (cn_failed c) (cn_reader c).
Definition set_last_pong x c := mkConnection (cn_outbound c) (cn_latest c) (cn_changed c) (cn_writing c) (cn_written c) (cn_sent c) x (cn_beating c) (cn_failed c) (cn_reader c).
Definition set_loop x c := mkConnection (cn_outbound c) (cn_latest c) (cn_changed c) (cn_writing c) (cn_written c) (cn_sent c) (cn_last_pong c) (cn_beating c) (cn_failed c) x.
(** The writer ends and drops its queue. *)
Definition end_writer c := mkConnection [] (cn_latest c) (cn_changed c) false (cn_written c) (cn_sent c) (cn_last_pong c) (cn_beating c) (cn_failed c) (cn_reader c).
(** [notify_one] and the end of the heartbeat *)
Definition end_heartbeat c := mkConnection (cn_outbound c) (cn_latest c) (cn_changed c) (cn_writing c) (cn_written c) (cn_sent c) (cn_last_pong c) false true (cn_reader c).

(** ** The tasks of a connection *)

(** Room in the queue of a writer that runs *)
Definition has_room (c : Connection) : bool := (length (cn_outbound c) <? OUTBOUND_CAPACITY)%nat.

Definition queue_message (m : ControlMessage) (c : Connection) : Connection :=
  set_sent (cn_sent c ++ [Control m]) (set_outbound (cn_outbound c ++ [m]) c).

(** [snapshot.send_replace] *)
Definition replace_latest (sn : NetworkSnapshot) (c : Connection) : Connection :=
  set_sent (cn_sent c ++ [LatestSnapshot sn]) (set_latest (Some sn) true c).

(** A turn of the writer, the queue before the snapshot; [ok]: whether the socket
    takes the frame *)
Definition write_frame (ok : bool) (o : Outgoing) (c : Connection) : Connection :=
  if ok then set_written (cn_written c ++ [o]) c else end_writer c.

Definition socket_writer_turn (ok : bool) (c : Connection) : Connection :=
  if negb (cn_writing c) then c
  else
    match cn_outbound c with
    | m :: rest => write_frame ok (Control m) (set_outbound rest c)
    | [] =>
        if cn_changed c then
          match cn_latest c with
          | None => set_latest None false c
          | Some sn => write_frame ok (LatestSnapshot sn) (set_latest (Some sn) false c)
          end
        else c
    end.

(** A tick of the heartbeat *)
Definition heartbeat_tick (now nonce : Z) (c : Connection) : Connection :=
  if negb (cn_beating c) then c
  else if CONTROL_HEARTBEAT_TIMEOUT_SECONDS <=? sat_sub now (cn_last_pong c) then end_heartbeat c
  else if cn_writing c && has_room c then queue_message (Ping nonce) c
  else end_heartbeat c.

(** Where the handler of a request waits.  [replies] go to the connection itself,
    [signals] to other ones; a handler that fails only sends its error. *)
Definition handler_acts (conn : Z) (request : ControlMessage) (ok : bool) (replies : list ControlMessage)
    (signals : list (Z * ControlMessage)) : list Act :=
  let own := map (fun m => Send conn m true) replies in
  if negb ok then own
  else
    match request with
    | Register _ _ _ _ _ _ _ _ => [Lock; Unlock; Lock; Unlock] ++ own
    | UpdateCandidates _ => match own with [] => [] | _ => [Lock; Unlock] ++ own end
    | RequestSnapshot => [Lock; Unlock] ++ own
    | LookupPeer _ => own ++ [Lock; Unlock] ++ map (fun p => Send p.1 p.2 false) signals
    | ListPeers => [Lock] ++ own ++ [Unlock]
    | _ => own
    end.

(** [disconnect_peer], which a request of the administration runs *)
Definition disconnect_acts (id : bytes) (conns : list Z) : list Act :=
  [Lock; Unlock] ++ map (fun c => Send c (Revoke id) false) conns.

(** ** All connections *)

Inductive Owner : Type := OfConn (conn : Z) | OfTask (i : nat).

#[export] Instance Owner_eq_dec : EqDecision Owner.
Proof. solve_decision. Defined.

Record Hub : Type := mkHub {
  hub_conns : gmap Z Connection;
  hub_lock : option Owner;
  hub_tasks : list (list Act)
}.

Definition hub_new : Hub := mkHub ∅ None [].

Definition set_connection (conn : Z) (c : Connection) (h : Hub) : Hub :=
  mkHub (<[conn := c]> (hub_conns h)) (hub_lock h) (hub_tasks h).
Definition set_lock (l : option Owner) (h : Hub) : Hub := mkHub (hub_conns h) l (hub_tasks h).
Definition set_tasks (l : list (list Act)) (h : Hub) : Hub := mkHub (hub_conns h) (hub_lock h) l.

(** [sender.send(..).await]: [None] while the queue is full, else whether it was sent *)
Definition hub_send (to_ : Z) (m : ControlMessage) (h : Hub) : option (bool * Hub) :=
  match hub_conns h !! to_ with
  | None => Some (false, h)
  | Some c =>
      if negb (cn_writing c) then Some (false, h)
      else if has_room c then Some (true, set_connection to_ (queue_message m c) h)
      else None
  end.

(** One act of a handler, and what is left of it.  A handler that returns gives
    the mutex back. *)
Definition run_act (o : Owner) (a : Act) (rest : list Act) (h : Hub) : option (list Act * Hub) :=
  match a with
  | Lock => match hub_lock h with None => Some (rest, set_lock (Some o) h) | Some _ => None end
  | Unlock => Some (rest, set_lock None h)
  | Send to_ m checked =>
      match hub_send to_ m h with
      | None => None
      | Some (sent, h) =>
          Some (if sent || negb checked then rest
                else if bool_decide (hub_lock h = Some o) then [Unlock] else [], h)
      end
  end.

Inductive HubEvent : Type :=
| EvOpen (conn now : Z)
| EvRequest (conn : Z) (request : ControlMessage) (ok : bool) (replies : list ControlMessage)
    (signals : list (Z * ControlMessage)) (now : Z)
| EvInvalid (conn : Z) (text : bytes)
| EvAct (conn : Z)
| EvWrite (conn : Z) (ok : bool)
| EvTick (conn now nonce : Z)
| EvNotified (conn : Z) (registered : bool)
| EvClosed (conn : Z) (registered : bool)
| EvBroadcast (sn : NetworkSnapshot) (conns : list Z)
| EvTask (id : bytes) (conns : list Z)
| EvTaskAct (i : nat).

Definition on_connection (conn : Z) (f : Connection -> Connection) (h : Hub) : option Hub :=
  (fun c => set_connection conn (f c) h) <$> hub_conns h !! conn.

(** A step of the loop of a connection that waits for a request *)
Definition on_reading (conn : Z) (f : Connection -> Connection) (h : Hub) : option Hub :=
  match hub_conns h !! conn with
  | Some c => match cn_reader c with
              | Reading => Some (set_connection conn (f c) h)
              | Handling _ => None
              end
  | None => None
  end.

Definition is_pong (m : ControlMessage) : bool := match m with Pong _ => true | _ => false end.

Definition set_acts (acts : list Act) (c : Connection) : Connection :=
  set_loop (match acts with [] => Reading | _ => Handling acts end) c.

(** The end of [handle_socket]: a registered connection is taken out of [online]. *)
Definition leave (conn : Z) (registered : bool) (h : Hub) : option Hub :=
  match hub_conns h !! conn with
  | Some c =>
      match cn_reader c with
      | Reading =>
          if registered && bool_decide (is_Some (hub_lock h)) then None
          else Some (mkHub (delete conn (hub_conns h)) (hub_lock h) (hub_tasks h))
      | Handling _ => None
      end
  | None => None
  end.

Definition hub_do (e : HubEvent) (h : Hub) : option Hub :=
  match e with
  | EvOpen conn now =>
      match hub_conns h !! conn with
      | None => Some (set_connection conn (connection_new now) h)
      | Some _ => None
      end
  | EvRequest conn request ok replies signals now =>
      on_reading conn (fun c =>
        set_acts (handler_acts conn request ok replies signals)
          (if is_pong request then set_last_pong now c else c)) h
  | EvInvalid conn text =>
      on_reading conn (set_acts [Send conn (ErrorMsg (str "invalid_message") text) false]) h
  | EvAct conn =>
      match cn_reader <$> hub_conns h !! conn with
      | Some (Handling (a :: rest)) =>
          match run_act (OfConn conn) a rest h with
          | Some (rest, h) => on_connection conn (set_acts rest) h
          | None => None
          end
      | _ => None
      end
  | EvWrite conn ok => on_connection conn (socket_writer_turn ok) h
  | EvTick conn now nonce => on_connection conn (heartbeat_tick now nonce) h
  | EvNotified conn registered =>
      if default false (cn_failed <$> hub_conns h !! conn) then leave conn registered h else None
  | EvClosed conn registered => leave conn registered h
  | EvBroadcast sn conns =>
      match hub_lock h with
      | Some _ => None
      | None => Some (mkHub (fold_left (fun m c => alter (replace_latest sn) c m) conns (hub_conns h))
                        None (hub_tasks h))
      end
  | EvTask id conns => Some (set_tasks (hub_tasks h ++ [disconnect_acts id conns]) h)
  | EvTaskAct i =>
      match hub_tasks h !! i with
      | Some (a :: rest) =>
          match run_act (OfTask i) a rest h with
          | Some (rest, h) => Some (set_tasks (<[i := rest]> (hub_tasks h)) h)
          | None => None
          end
      | _ => None
      end
  end.

Fixpoint hub_run (es : list HubEvent) (h : Hub) : option Hub :=
  match es with
  | [] => Some h
  | e :: es => match hub_do e h with Some h => hub_run es h | None => None end
  end.

(** ** What a client receives *)

Definition controls (l : list Outgoing) : list ControlMessage :=
  omap (fun o => match o with Control m => Some m | LatestSnapshot _ => None end) l.
Definition latest (l : list Outgoing) : list NetworkSnapshot :=
  omap (fun o => match o with Control _ => None | LatestSnapshot sn => Some sn end) l.

Arguments controls !l /.
Arguments latest !l /.

(** The messages are written in the order they were queued, none of them twice or
    left out; the snapshots written are some of those that were broadcast, in their
    order, and the last one of them unless one still waits. *)
Definition connection_ok (c : Connection) : Prop :=
  (length (cn_outbound c) <= OUTBOUND_CAPACITY)%nat
  /\ (if cn_writing c then controls (cn_written c) ++ cn_outbound c = controls (cn_sent c)
      else controls (cn_written c) `prefix_of` controls (cn_sent c))
  /\ (if cn_changed c
      then exists l sn, latest (cn_sent c) = l ++ [sn] /\ cn_latest c = Some sn
                        /\ latest (cn_written c) `sublist_of` l
      else latest (cn_written c) `sublist_of` latest (cn_sent c)
           /\ (cn_writing c = true -> last (latest (cn_written c)) = last (latest (cn_sent c)))).

Lemma controls_app l k : controls (l ++ k) = controls l ++ controls k.
Proof. apply omap_app. Qed.
Lemma latest_app l k : latest (l ++ k) = latest l ++ latest k.
Proof. apply omap_app. Qed.

Lemma connection_ok_new now : connection_ok (connection_new now).
Proof. split_and!; [cbn; lia|done|by cbn]. Qed.

Lemma queue_message_ok m c : has_room c = true -> cn_writing c = true -> connection_ok c -> connection_ok (queue_message m c).
Proof.
  intros Hr%Nat.ltb_lt Hw (Hl & Hc & Hs). rewrite Hw in Hc. unfold connection_ok. cbn.
  rewrite length_app, Hw, controls_app, latest_app, <- Hc. cbn. rewrite app_nil_r, app_assoc. rewrite Hw in Hs.
  split_and!; [lia|done|done].
Qed.

Lemma replace_latest_ok sn c : connection_ok c -> connection_ok (replace_latest sn c).
Proof.
  intros (Hl & Hc & Hs). unfold connection_ok. cbn. rewrite controls_app, latest_app. cbn. rewrite app_nil_r.
  split_and!; [done|done|]. exists (latest (cn_sent c)), sn. split_and!; [done|done|].
  destruct (cn_changed c); [|by destruct Hs]. destruct Hs as (l & sn' & -> & _ & Hsub).
  by apply sublist_inserts_r.
Qed.

Lemma end_writer_ok c : connection_ok c -> connection_ok (end_writer c).
Proof.
  intros (Hl & Hc & Hs). unfold connection_ok. cbn. split_and!; [lia| |].
  - destruct (cn_writing c); [|done]. rewrite <- Hc. by eexists.
  - destruct (cn_changed c); [done|]. split; [by destruct Hs|done].
Qed.

Lemma socket_writer_turn_ok ok c : connection_ok c -> connection_ok (socket_writer_turn ok c).
Proof.
  intros Hok. unfold socket_writer_turn. destruct (cn_writing c) eqn:Hw; cbn [negb]; [|done].
  pose proof Hok as (Hl & Hc & Hs). rewrite Hw in Hc. destruct (cn_outbound c) as [|m rest] eqn:Eo.
  - destruct (cn_changed c) eqn:Ech; [|done]. destruct Hs as (l & sn & El & -> & Hsub). unfold write_frame.
    assert (Hw' : latest (cn_written c) `sublist_of` latest (cn_sent c)) by (rewrite El; by apply sublist_inserts_r).
    destruct ok; unfold connection_ok; cbn; rewrite ?Hw, ?Eo.
    + rewrite controls_app, latest_app, El. cbn. rewrite app_nil_r, !last_snoc.
      split_and!; [lia|done|by apply sublist_app|done].
    + split_and!; [lia|rewrite <- Hc; by eexists|done|done].
  - unfold write_frame. destruct ok.
    + unfold connection_ok. cbn. rewrite Hw, controls_app, latest_app, <- Hc. cbn. rewrite app_nil_r, <- app_assoc.
      rewrite Hw in Hs. cbn in Hl. split_and!; [lia|done|done].
    + by apply (end_writer_ok c) in Hok.
Qed.

Lemma heartbeat_tick_ok now nonce c : connection_ok c -> connection_ok (heartbeat_tick now nonce c).
Proof.
  intros Hok. unfold heartbeat_tick. destruct (cn_beating c); [|done]. cbn [negb].
  destruct (_ <=? _); [done|]. destruct (cn_writing c) eqn:Hw; cbn [andb]; [|done].
  destruct (has_room c) eqn:Hr; [by apply queue_message_ok|done].
Qed.

(** ** Who holds the mutex *)

(** What is left of a handler that holds the mutex or not: while it holds it, it
    sends to its own connection at most. *)
Fixpoint tidy (self : option Z) (held : bool) (acts : list Act) : Prop :=
  match acts with
  | [] => held = false
  | Lock :: rest => held = false /\ tidy self true rest
  | Unlock :: rest => held = true /\ tidy self false rest
  | Send to_ _ _ :: rest => (held = true -> self = Some to_) /\ tidy self held rest
  end.

Definition owned (o : Owner) (h : Hub) : bool := bool_decide (hub_lock h = Some o).

Definition acts_of (c : Connection) : list Act := match cn_reader c with Reading => [] | Handling acts => acts end.

Definition lock_ok (h : Hub) : Prop :=
  (forall conn, tidy (Some conn) (owned (OfConn conn) h) (default [] (acts_of <$> hub_conns h !! conn)))
  /\ (forall i, tidy None (owned (OfTask i) h) (default [] (hub_tasks h !! i))).

Definition hub_inv (h : Hub) : Prop := map_Forall (fun _ => connection_ok) (hub_conns h) /\ lock_ok h.

Lemma tidy_app self held l k : tidy self held l -> tidy self false k -> tidy self held (l ++ k).
Proof.
  revert held; induction l as [|a l IH]; intros held; cbn; [by intros ->|].
  destruct a; intros []; split; auto.
Qed.

Lemma tidy_sends self l : tidy self false (map (fun p : Z * ControlMessage => Send p.1 p.2 false) l).
Proof. induction l; by cbn. Qed.

Lemma tidy_own conn held replies k :
  tidy (Some conn) held k -> tidy (Some conn) held (map (fun m => Send conn m true) replies ++ k).
Proof. intros Hk. induction replies; by cbn. Qed.

Lemma tidy_handler conn request ok replies signals :
  tidy (Some conn) false (handler_acts conn request ok replies signals).
Proof.
  assert (Hown : tidy (Some conn) false (map (fun m => Send conn m true) replies))
    by (rewrite <- (app_nil_r (map _ _)); by apply tidy_own).
  unfold handler_acts. cbn zeta. destruct ok; cbn [negb]; [|done].
  destruct request; try done.
  - by destruct (map _ replies) eqn:E; [|rewrite <- E in *].
  - apply tidy_own. cbn. split; [done|]. split; [done|]. apply tidy_sends.
  - cbn. split; [done|]. by apply tidy_own.
Qed.

Lemma tidy_disconnect id conns : tidy None false (disconnect_acts id conns).
Proof. cbn. split; [done|]. split; [done|]. induction conns; by cbn. Qed.

Lemma acts_of_set acts c : acts_of (set_acts acts c) = acts.
Proof. by destruct acts. Qed.

(** What one act does to the hub: it changes the queue of a connection, or the mutex *)
Definition hub_only (h h' : Hub) : Prop :=
  hub_tasks h' = hub_tasks h
  /\ (forall conn, acts_of <$> hub_conns h' !! conn = acts_of <$> hub_conns h !! conn)
  /\ (map_Forall (fun _ => connection_ok) (hub_conns h) -> map_Forall (fun _ => connection_ok) (hub_conns h')).

Lemma hub_only_refl h : hub_only h h.
Proof. by split_and!. Qed.

Lemma hub_send_spec to_ m h sent h' :
  hub_send to_ m h = Some (sent, h') -> hub_only h h' /\ hub_lock h' = hub_lock h.
Proof.
  unfold hub_send. destruct (hub_conns h !! to_) as [c|] eqn:E; [|intros [= _ <-]; by split; [apply hub_only_refl|]].
  destruct (cn_writing c) eqn:Hw; cbn [negb]; [|intros [= _ <-]; by split; [apply hub_only_refl|]].
  destruct (has_room c) eqn:Hr; [|done]. intros [= _ <-]. split; [|done]. split_and!; [done| |].
  - intros conn. cbn. destruct (decide (conn = to_)) as [->|]; [|by rewrite lookup_insert_ne].
    by rewrite lookup_insert_eq, E.
  - intros Hok. apply map_Forall_insert_2; [|done]. apply queue_message_ok; [done..|]. by eapply Hok.
Qed.

Lemma tidy_run o self a rest h rest' h' :
  run_act o a rest h = Some (rest', h') -> tidy self (owned o h) (a :: rest) ->
  hub_only h h' /\ tidy self (owned o h') rest'
  /\ (forall o', o' <> o -> (hub_lock h = Some o' <-> hub_lock h' = Some o')).
Proof.
  unfold run_act, owned. destruct a as [| |to_ m checked]; cbn [tidy].
  - destruct (hub_lock h) eqn:El; [done|]. intros [= <- <-] [_ Ht]. split; [by split_and!|].
    cbn. rewrite bool_decide_true by done. split; [done|]. intros o' Ho. split; [done|]. intros [= ->]. done.
  - intros [= <- <-] [Hl%bool_decide_eq_true Ht]. split; [by split_and!|]. cbn. split; [done|].
    intros o' Ho. rewrite Hl. split; [intros [= ->]; done|done].
  - destruct (hub_send to_ m h) as [[sent h1]|] eqn:E; [|done]. intros [= <- <-] [_ Ht].
    apply hub_send_spec in E as [Ho El]. rewrite El. split; [done|]. split; [|done].
    destruct (sent || negb checked); [done|]. by destruct (bool_decide _).
Qed.

(** The invariant, apart from what one handler has left to do *)
Definition inv_but (o : Owner) (h : Hub) : Prop :=
  map_Forall (fun _ => connection_ok) (hub_conns h)
  /\ (forall conn, OfConn conn <> o ->
        tidy (Some conn) (owned (OfConn conn) h) (default [] (acts_of <$> hub_conns h !! conn)))
  /\ (forall i, OfTask i <> o -> tidy None (owned (OfTask i) h) (default [] (hub_tasks h !! i))).

Lemma hub_inv_but o h : hub_inv h -> inv_but o h.
Proof. intros (Hc & H1 & H2). by split_and!. Qed.

Lemma inv_but_step o h h' :
  hub_only h h' -> (forall o', o' <> o -> (hub_lock h = Some o' <-> hub_lock h' = Some o')) ->
  hub_inv h -> inv_but o h'.
Proof.
  intros (Ht & Ha & Hok) Hl (Hc & H1 & H2). split_and!; [by apply Hok|intros conn Hne|intros i Hne].
  - rewrite Ha. specialize (H1 conn). unfold owned in *. by rewrite <- (bool_decide_ext _ _ (Hl _ Hne)).
  - rewrite Ht. specialize (H2 i). unfold owned in *. by rewrite <- (bool_decide_ext _ _ (Hl _ Hne)).
Qed.

Lemma inv_set_connection conn c h :
  inv_but (OfConn conn) h -> connection_ok c -> tidy (Some conn) (owned (OfConn conn) h) (acts_of c) ->
  hub_inv (set_connection conn c h).
Proof.
  intros (Hc & H1 & H2) Hok Ht. split; [by apply map_Forall_insert_2|]. split; [intros x|intros i; by apply H2].
  cbn. destruct (decide (x = conn)) as [->|]; [by rewrite lookup_insert_eq|].
  rewrite lookup_insert_ne by done. apply H1. congruence.
Qed.

Lemma inv_set_task i l h :
  is_Some (hub_tasks h !! i) -> inv_but (OfTask i) h -> tidy None (owned (OfTask i) h) l ->
  hub_inv (set_tasks (<[i := l]> (hub_tasks h)) h).
Proof.
  intros Hi%lookup_lt_is_Some (Hc & H1 & H2) Ht. split; [done|]. split; [intros x; by apply H1|intros j].
  cbn. destruct (decide (j = i)) as [->|]; [by rewrite list_lookup_insert_eq|].
  rewrite list_lookup_insert_ne by done. apply H2. congruence.
Qed.

(** A task of a connection that leaves its handler alone *)
Lemma inv_on_connection conn f h h' :
  (forall c, connection_ok c -> connection_ok (f c)) -> (forall c, cn_reader (f c) = cn_reader c) ->
  on_connection conn f h = Some h' -> hub_inv h -> hub_inv h'.
Proof.
  intros Hf Hr E Hi. unfold on_connection in E. destruct (hub_conns h !! conn) as [c|] eqn:Ec; [|done].
  injection E as <-. pose proof Hi as (Hc & H1 & _). apply inv_set_connection; [by apply hub_inv_but|by eapply Hf, Hc|].
  specialize (H1 conn). rewrite Ec in H1. unfold acts_of in *. by rewrite Hr.
Qed.

Lemma inv_on_reading conn f acts h h' :
  (forall c, connection_ok c -> connection_ok (f c)) -> (forall c, acts_of (f c) = acts) ->
  tidy (Some conn) false acts -> on_reading conn f h = Some h' -> hub_inv h -> hub_inv h'.
Proof.
  intros Hf Hr Ht E Hi. unfold on_reading in E. destruct (hub_conns h !! conn) as [c|] eqn:Ec; [|done].
  destruct (cn_reader c) eqn:Er; [|done]. injection E as <-. pose proof Hi as (Hc & H1 & _).
  apply inv_set_connection; [by apply hub_inv_but|by eapply Hf, Hc|]. rewrite Hr.
  specialize (H1 conn). rewrite Ec in H1. cbn in H1. unfold acts_of in H1. rewrite Er in H1. cbn in H1. by rewrite H1.
Qed.

Lemma inv_leave conn registered h h' : leave conn registered h = Some h' -> hub_inv h -> hub_inv h'.
Proof.
  unfold leave. destruct (hub_conns h !! conn) as [c|] eqn:Ec; [|done]. destruct (cn_reader c) eqn:Er; [|done].
  destruct (_ && _); [done|]. intros [= <-] (Hc & H1 & H2). split; [by apply map_Forall_delete|].
  split; [intros x|done]. cbn. specialize (H1 x). destruct (decide (x = conn)) as [->|]; [|by rewrite lookup_delete_ne].
  rewrite lookup_delete_eq. rewrite Ec in H1. cbn in H1. unfold acts_of in H1. by rewrite Er in H1.
Qed.

Lemma inv_act conn h h' : hub_do (EvAct conn) h = Some h' -> hub_inv h -> hub_inv h'.
Proof.
  intros E Hi. cbn [hub_do] in E. destruct (hub_conns h !! conn) as [c|] eqn:Ec; [|done]. cbn in E.
  destruct (cn_reader c) as [|[|a rest]] eqn:Er; try done.
  destruct (run_act _ a rest h) as [[rest' h1]|] eqn:Ea; [|done].
  pose proof Hi as (_ & H1 & _). specialize (H1 conn). rewrite Ec in H1. cbn in H1. unfold acts_of in H1. rewrite Er in H1.
  apply (tidy_run _ (Some conn)) in Ea as (Ho & Ht & Hl); [|done].
  pose proof (inv_but_step _ _ _ Ho Hl Hi) as Hb. unfold on_connection in E.
  destruct (hub_conns h1 !! conn) as [c1|] eqn:Ec1; [|done]. injection E as <-.
  apply inv_set_connection; [done| |by rewrite acts_of_set]. pose proof Hb as (Hc & _). by apply Hc in Ec1.
Qed.

Lemma inv_task_act i h h' : hub_do (EvTaskAct i) h = Some h' -> hub_inv h -> hub_inv h'.
Proof.
  intros E Hi. cbn [hub_do] in E. destruct (hub_tasks h !! i) as [[|a rest]|] eqn:Ei; try done.
  destruct (run_act _ a rest h) as [[rest' h1]|] eqn:Ea; [|done]. injection E as <-.
  pose proof Hi as (_ & _ & H2). specialize (H2 i). rewrite Ei in H2. cbn [default] in H2.
  apply (tidy_run _ None) in Ea as (Ho & Ht & Hl); [|done].
  apply inv_set_task; [|by eapply inv_but_step|done]. destruct Ho as (-> & _). by rewrite Ei.
Qed.

Lemma broadcast_conns sn conns (m : gmap Z Connection) :
  map_Forall (fun _ => connection_ok) m ->
  let m' := fold_left (fun m c => alter (replace_latest sn) c m) conns m in
  map_Forall (fun _ => connection_ok) m' /\ forall x, acts_of <$> m' !! x = acts_of <$> m !! x.
Proof.
  revert m; induction conns as [|c conns IH]; intros m Hm; [done|]. cbn [fold_left].
  destruct (IH (alter (replace_latest sn) c m)) as [Hok Ha].
  - intros x y. destruct (decide (x = c)) as [->|]; [|rewrite lookup_alter_ne by done; apply Hm].
    rewrite lookup_alter_eq. intros (y' & Hy & ->)%fmap_Some_1. by eapply replace_latest_ok, Hm.
  - split; [done|]. intros x. rewrite Ha. destruct (decide (x = c)) as [->|]; [|by rewrite lookup_alter_ne].
    rewrite lookup_alter_eq. by destruct (m !! c).
Qed.

Lemma inv_broadcast sn conns h h' : hub_do (EvBroadcast sn conns) h = Some h' -> hub_inv h -> hub_inv h'.
Proof.
  cbn [hub_do]. destruct (hub_lock h) eqn:El; [done|]. intros [= <-] (Hc & H1 & H2).
  destruct (broadcast_conns sn conns _ Hc) as [Hok Ha]. split; [done|]. unfold lock_ok, owned in *. rewrite El in *.
  cbn [hub_conns hub_lock]. split; [intros x; rewrite Ha; apply H1|done].
Qed.

Lemma inv_event e h h' : hub_do e h = Some h' -> hub_inv h -> hub_inv h'.
Proof.
  intros E Hi. destruct e as [conn now|conn request ok replies signals now|conn text|conn|conn ok|conn now nonce
    |conn registered|conn registered|sn conns|id conns|i].
  - cbn [hub_do] in E. destruct (hub_conns h !! conn) eqn:Ec; [done|]. injection E as <-.
    apply inv_set_connection; [by apply hub_inv_but|apply connection_ok_new|].
    destruct Hi as (_ & H1 & _). specialize (H1 conn). by rewrite Ec in H1.
  - eapply (inv_on_reading conn _ (handler_acts conn request ok replies signals)), Hi; [| |apply tidy_handler|exact E];
      [|intros c; apply acts_of_set]. intros c Hc. by destruct (handler_acts _ _ _ _ _), (is_pong request).
  - eapply (inv_on_reading conn _ [_]), Hi; [| | |exact E]; [done|done|by cbn].
  - by eapply inv_act.
  - eapply inv_on_connection, Hi; [| |exact E]; [intros; by apply socket_writer_turn_ok|]. intros c. unfold socket_writer_turn, write_frame.
    by destruct (cn_writing c), (cn_outbound c), (cn_changed c), (cn_latest c), ok.
  - eapply inv_on_connection, Hi; [| |exact E]; [intros; by apply heartbeat_tick_ok|]. intros c. unfold heartbeat_tick.
    by destruct (cn_beating c), (_ <=? _), (cn_writing c), (has_room c).
  - cbn [hub_do] in E. destruct (default false _); [|done]. by eapply inv_leave.
  - by eapply inv_leave.
  - by eapply inv_broadcast.
  - injection E as <-. destruct Hi as (Hc & H1 & H2). split; [done|]. split; [done|]. intros i. cbn.
    specialize (H2 i). destruct (decide (i = length (hub_tasks h))) as [->|].
    + rewrite list_lookup_middle by done. rewrite lookup_ge_None_2 in H2 by done. cbn in H2.
      pose proof (tidy_disconnect id conns) as Ht. rewrite <- H2 in Ht. exact Ht.
    + destruct (decide (i < length (hub_tasks h))%nat); [by rewrite lookup_app_l|].
      rewrite lookup_ge_None_2 in H2 by lia. rewrite lookup_ge_None_2; [done|]. rewrite length_app. cbn. lia.
  - by eapply inv_task_act.
Qed.

Lemma hub_inv_new : hub_inv hub_new.
Proof. split; [done|]. split; intros x; by rewrite ?lookup_empty. Qed.

Lemma hub_run_inv es h h' : hub_run es h = Some h' -> hub_inv h -> hub_inv h'.
Proof.
  revert h; induction es as [|e es IH]; intros h E Hi; [by injection E as <-|]. cbn [hub_run] in E.
  destruct (hub_do e h) as [h1|] eqn:E1; [|done]. eapply IH; [done|]. by eapply inv_event.
Qed.

(** C32: on every connection of the server, whatever its tasks and those of the other
    connections do: the control messages that are written are those that were
    queued, in their order, none twice and none left out, and those not written yet
    are in the queue, which holds at most 64; the snapshots that are written were
    broadcast, in this order, and the last one broadcast is the last one written or
    the one that waits. *)
Theorem connection_output es h conn c :
  hub_run es hub_new = Some h -> hub_conns h !! conn = Some c -> connection_ok c.
Proof. intros E Hc. apply hub_run_inv in E as [Hok _]; [by eapply Hok|apply hub_inv_new]. Qed.

(** ** The mutex and slow members *)

(** The next event of the holder of the mutex *)
Definition holder_event (o : Owner) : HubEvent :=
  match o with OfConn conn => EvAct conn | OfTask i => EvTaskAct i end.

(** A member whose socket takes no more bytes: its queue is full and its handler,
    which holds the mutex, waits for room in it. *)
Definition waits_for_itself (conn : Z) (c : Connection) : Prop :=
  (exists m checked rest, cn_reader c = Handling (Send conn m checked :: rest))
  /\ cn_writing c = true /\ has_room c = false.

Definition held_up (conn : Z) (h : Hub) : Prop :=
  hub_lock h = Some (OfConn conn) /\ exists c, hub_conns h !! conn = Some c /\ waits_for_itself conn c.

Lemma on_connection_some conn f h : is_Some (hub_conns h !! conn) -> is_Some (on_connection conn f h).
Proof. intros [c E]. unfold on_connection. by rewrite E. Qed.

Lemma conn_act_moves conn h a rest c rest' h1 :
  hub_conns h !! conn = Some c -> cn_reader c = Handling (a :: rest) ->
  run_act (OfConn conn) a rest h = Some (rest', h1) -> hub_only h h1 -> is_Some (hub_do (EvAct conn) h).
Proof.
  intros Ec Er Ea (_ & Ho & _). cbn [hub_do]. rewrite Ec. cbn. rewrite Er, Ea. apply on_connection_some.
  specialize (Ho conn). rewrite Ec in Ho. destruct (hub_conns h1 !! conn); [done|discriminate].
Qed.

Lemma holder_moves h o :
  hub_inv h -> hub_lock h = Some o ->
  is_Some (hub_do (holder_event o) h) \/ exists conn, o = OfConn conn /\ held_up conn h.
Proof.
  intros (_ & H1 & H2) Hl. destruct o as [conn|i].
  - specialize (H1 conn). unfold owned in H1. rewrite bool_decide_true in H1 by done.
    destruct (hub_conns h !! conn) as [c|] eqn:Ec; [|done]. cbn in H1. unfold acts_of in H1.
    destruct (cn_reader c) as [|[|a rest]] eqn:Er; try done. destruct a as [| |to_ m checked]; cbn in H1.
    + by destruct H1.
    + left. by eapply (conn_act_moves conn h Unlock rest c); [| |reflexivity|split_and!].
    + destruct H1 as [Hto _]. injection (Hto eq_refl) as <-.
      destruct (run_act (OfConn conn) (Send conn m checked) rest h) as [[rest' h1]|] eqn:Ea.
      * left. eapply conn_act_moves; [done..|]. cbn in Ea.
        destruct (hub_send conn m h) as [[sent h2]|] eqn:Es; [|done]. injection Ea as _ <-. by apply hub_send_spec in Es as [? _].
      * right. exists conn. split; [done|]. split; [done|]. exists c. split; [done|]. split; [by eauto|].
        cbn in Ea. unfold hub_send in Ea. rewrite Ec in Ea. by destruct (cn_writing c), (has_room c).
  - left. specialize (H2 i). unfold owned in H2. rewrite bool_decide_true in H2 by done. cbn [holder_event hub_do].
    destruct (hub_tasks h !! i) as [[|a rest]|]; try done. cbn in H2. destruct a as [| |to_ m checked].
    + by destruct H2.
    + by cbn.
    + destruct H2 as [Hto _]. by specialize (Hto eq_refl).
Qed.

Lemma hub_send_moves conn m h c :
  hub_conns h !! conn = Some c -> cn_writing c = false \/ has_room c = true -> is_Some (hub_send conn m h).
Proof. intros Ec H. unfold hub_send. rewrite Ec. destruct (cn_writing c), (has_room c); naive_solver. Qed.

Lemma writer_makes_room ok c :
  connection_ok c -> cn_writing c = true -> has_room c = false ->
  cn_writing (socket_writer_turn ok c) = false \/ has_room (socket_writer_turn ok c) = true.
Proof.
  intros (Hl & _) Hw Hr. unfold socket_writer_turn. rewrite Hw. cbn [negb]. unfold has_room in *.
  destruct (cn_outbound c) as [|m l]; [done|]. cbn in Hl. destruct ok; [|by left]. right. by apply Nat.ltb_lt.
Qed.

Lemma socket_writer_reader ok c : cn_reader (socket_writer_turn ok c) = cn_reader c.
Proof.
  unfold socket_writer_turn, write_frame. by destruct (cn_writing c), (cn_outbound c), (cn_changed c), (cn_latest c), ok.
Qed.

(** One frame that its socket takes, or refuses, lets the holder go on. *)
Lemma held_up_released conn ok h :
  hub_inv h -> held_up conn h ->
  exists h', hub_do (EvWrite conn ok) h = Some h' /\ is_Some (hub_do (EvAct conn) h').
Proof.
  intros [Hok _] (_ & c & Ec & (m & checked & rest & Er) & Hw & Hr). cbn [hub_do]. unfold on_connection. rewrite Ec.
  eexists. split; [reflexivity|]. set (h' := set_connection _ _ _).
  assert (Ec' : hub_conns h' !! conn = Some (socket_writer_turn ok c)) by apply lookup_insert_eq.
  destruct (hub_send_moves conn m h' _ Ec') as [[sent h1] Es]; [by apply writer_makes_room; [eapply Hok|..]|].
  pose proof Es as [Ho _]%hub_send_spec. eapply (conn_act_moves conn h'), Ho; [done|by rewrite socket_writer_reader|].
  unfold run_act. by rewrite Es.
Qed.

(** C31: whoever holds the mutex of the server can go on at once, except a member
    whose own queue is full, which goes on as soon as its socket takes a frame or
    fails; so the server is never held up by anything but the socket of one member. *)
Theorem mutex_progress es h o :
  hub_run es hub_new = Some h -> hub_lock h = Some o ->
  is_Some (hub_do (holder_event o) h)
  \/ exists conn, o = OfConn conn /\ held_up conn h
       /\ forall ok, exists h', hub_do (EvWrite conn ok) h = Some h' /\ is_Some (hub_do (holder_event o) h').
Proof.
  intros E Hl. apply hub_run_inv in E; [|apply hub_inv_new].
  destruct (holder_moves h o E Hl) as [?|(conn & -> & Hh)]; [by left|]. right. exists conn.
  split; [done|]. split; [done|]. intros ok. by apply held_up_released.
Qed.

(** ** A member that stops reading *)

Lemma hub_send_other conn to_ m h sent h' c :
  hub_send to_ m h = Some (sent, h') -> hub_conns h !! conn = Some c -> waits_for_itself conn c ->
  hub_conns h' !! conn = Some c.
Proof.
  intros E Ec (_ & Hw & Hr). unfold hub_send in E. destruct (decide (to_ = conn)) as [->|Hne].
  - rewrite Ec, Hw, Hr in E. done.
  - destruct (hub_conns h !! to_) as [c'|]; [|by injection E as _ <-].
    destruct (cn_writing c'); [|by injection E as _ <-]. cbn [negb] in E. destruct (has_room c'); [|done].
    injection E as _ <-. cbn. by rewrite lookup_insert_ne.
Qed.

(** The acts of others: they neither get the mutex nor give it back. *)
Lemma run_act_other conn o self a rest h rest' h' c :
  run_act o a rest h = Some (rest', h') -> o <> OfConn conn -> tidy self (owned o h) (a :: rest) ->
  hub_lock h = Some (OfConn conn) -> hub_conns h !! conn = Some c -> waits_for_itself conn c ->
  hub_lock h' = Some (OfConn conn) /\ hub_conns h' !! conn = Some c.
Proof.
  intros E Hne Ht Hl Ec Hw. destruct a as [| |to_ m checked]; cbn in E.
  - by rewrite Hl in E.
  - destruct Ht as [Ho%bool_decide_eq_true _]. congruence.
  - destruct (hub_send to_ m h) as [[sent h1]|] eqn:Es; [|done]. injection E as _ <-.
    split; [|by eapply hub_send_other]. apply hub_send_spec in Es as [_ ->]. done.
Qed.

Lemma held_up_act conn x h h' :
  hub_do (EvAct x) h = Some h' -> hub_inv h -> held_up conn h -> held_up conn h'.
Proof.
  intros E (_ & H1 & _) (Hl & c & Ec & Hw). cbn [hub_do] in E. destruct (hub_conns h !! x) as [cx|] eqn:Ex; [|done].
  cbn in E. destruct (cn_reader cx) as [|[|a rest]] eqn:Er; try done.
  destruct (run_act _ a rest h) as [[rest' h1]|] eqn:Ea; [|done]. destruct (decide (x = conn)) as [->|Hne].
  - exfalso. rewrite Ec in Ex. injection Ex as <-. destruct Hw as ((m & ch & rest0 & Er') & Hw & Hr).
    rewrite Er' in Er. injection Er as <- <-. cbn in Ea. unfold hub_send in Ea. by rewrite Ec, Hw, Hr in Ea.
  - specialize (H1 x). rewrite Ex in H1. cbn in H1. unfold acts_of in H1. rewrite Er in H1.
    eapply (run_act_other conn) in Ea as [Hl1 Ec1]; [|congruence|done..]. unfold on_connection in E.
    destruct (hub_conns h1 !! x); [|done]. injection E as <-. split; [done|]. exists c. cbn. by rewrite lookup_insert_ne.
Qed.

Lemma held_up_set conn x c' h : x <> conn -> held_up conn h -> held_up conn (set_connection x c' h).
Proof. intros Hne (Hl & c & Ec & Hw). split; [done|]. exists c. cbn. by rewrite lookup_insert_ne. Qed.

Lemma held_up_on_reading conn x f h h' : on_reading x f h = Some h' -> held_up conn h -> held_up conn h'.
Proof.
  intros E Hh. unfold on_reading in E. destruct (hub_conns h !! x) as [cx|] eqn:Ex; [|done].
  destruct (cn_reader cx) eqn:Er; [|done]. injection E as <-. apply held_up_set; [|done]. intros ->.
  destruct Hh as (_ & c & Ec & (m & ch & rest & Er') & _). congruence.
Qed.

Lemma held_up_leave conn x registered h h' : leave x registered h = Some h' -> held_up conn h -> held_up conn h'.
Proof.
  intros E (Hl & c & Ec & Hw). unfold leave in E. destruct (hub_conns h !! x) as [cx|] eqn:Ex; [|done].
  destruct (cn_reader cx) eqn:Er; [|done]. destruct (_ && _); [done|]. injection E as <-. split; [done|]. exists c.
  cbn. rewrite lookup_delete_ne; [done|]. intros ->. destruct Hw as ((m & ch & rest & Er') & _). congruence.
Qed.

Lemma held_up_tick conn x now nonce h h' :
  hub_do (EvTick x now nonce) h = Some h' -> held_up conn h -> held_up conn h'.
Proof.
  intros E Hh. cbn [hub_do] in E. unfold on_connection in E. destruct (hub_conns h !! x) as [cx|] eqn:Ex; [|done].
  injection E as <-. destruct (decide (x = conn)) as [->|]; [|by apply held_up_set].
  destruct Hh as (Hl & c & Ec & (Hrd & Hw & Hr)). rewrite Ec in Ex. injection Ex as <-. split; [done|].
  eexists. split; [apply lookup_insert_eq|]. unfold heartbeat_tick. rewrite Hw, Hr.
  by destruct (cn_beating c), (_ <=? _).
Qed.

Definition writes_to (conn : Z) (e : HubEvent) : bool :=
  match e with EvWrite x _ => bool_decide (x = conn) | _ => false end.

Lemma held_up_event conn e h h' :
  hub_do e h = Some h' -> writes_to conn e = false -> hub_inv h -> held_up conn h -> held_up conn h'.
Proof.
  intros E Hn Hi Hh. destruct e as [x now|x request ok replies signals now|x text|x|x ok|x now nonce
    |x registered|x registered|sn conns|id conns|i].
  - cbn [hub_do] in E. destruct (hub_conns h !! x) eqn:Ex; [done|]. injection E as <-. apply held_up_set; [|done].
    intros ->. destruct Hh as (_ & c & Ec & _). congruence.
  - by eapply held_up_on_reading.
  - by eapply held_up_on_reading.
  - by eapply held_up_act.
  - apply bool_decide_eq_false in Hn. cbn [hub_do] in E. unfold on_connection in E.
    destruct (hub_conns h !! x); [|done]. injection E as <-. by apply held_up_set.
  - by eapply held_up_tick.
  - cbn [hub_do] in E. destruct (default false _); [|done]. by eapply held_up_leave.
  - by eapply held_up_leave.
  - cbn [hub_do] in E. destruct Hh as (Hl & _). by rewrite Hl in E.
  - injection E as <-. done.
  - destruct Hi as (_ & _ & H2). destruct Hh as (Hl & c & Ec & Hw). cbn [hub_do] in E. specialize (H2 i).
    destruct (hub_tasks h !! i) as [[|a rest]|]; try done. cbn [default] in H2.
    destruct (run_act _ a rest h) as [[rest' h1]|] eqn:Ea; [|done]. injection E as <-.
    eapply (run_act_other conn) in Ea as [Hl1 Ec1]; [|done..]. split; [done|]. by exists c.
Qed.

Lemma held_up_run conn es h h' :
  hub_run es h = Some h' -> forallb (fun e => negb (writes_to conn e)) es = true -> hub_inv h -> held_up conn h ->
  held_up conn h'.
Proof.
  revert h; induction es as [|e es IH]; intros h E Hn Hi Hh; [by injection E as <-|]. cbn in E, Hn.
  apply andb_prop in Hn as [Hn%negb_true_iff Hns]. destruct (hub_do e h) as [h1|] eqn:E1; [|done].
  eapply IH; [done..|by eapply inv_event|by eapply held_up_event].
Qed.

(** a member whose queue is full when it asks for the list of peers, and whose
    socket takes no more bytes, holds up the whole server for as long as that lasts:
    no snapshot is broadcast, no connection of a registered peer ends, and no
    handler that needs the mutex goes on.  The heartbeat of the member does not end
    it. *)
Theorem slow_member_holds_up es h conn es' h' :
  hub_run es hub_new = Some h -> held_up conn h ->
  hub_run es' h = Some h' -> forallb (fun e => negb (writes_to conn e)) es' = true ->
  held_up conn h'
  /\ (forall sn conns, hub_do (EvBroadcast sn conns) h' = None)
  /\ (forall x, hub_do (EvNotified x true) h' = None /\ hub_do (EvClosed x true) h' = None)
  /\ (forall x c rest, hub_conns h' !! x = Some c -> cn_reader c = Handling (Lock :: rest) ->
        hub_do (EvAct x) h' = None).
Proof.
  intros E Hh E' Hn. apply hub_run_inv in E; [|apply hub_inv_new].
  pose proof (held_up_run _ _ _ _ E' Hn E Hh) as Hh'. split; [done|]. destruct Hh' as [Hl _].
  assert (Hleave : forall x, leave x true h' = None).
  { intros x. unfold leave. rewrite Hl. destruct (hub_conns h' !! x) as [c|]; [|done]. by destruct (cn_reader c). }
  split_and!.
  - intros sn conns. cbn. by rewrite Hl.
  - intros x. split; [|apply Hleave]. cbn [hub_do]. destruct (default false _); [apply Hleave|done].
  - intros x c rest Ec Er. cbn. rewrite Ec. cbn. rewrite Er. cbn. by rewrite Hl.
Qed.

(** ** The heartbeat *)

Fixpoint ticks (t : Z) (nonces : list Z) (c : Connection) : Connection :=
  match nonces with
  | [] => c
  | n :: nonces => ticks (t + CONTROL_HEARTBEAT_INTERVAL) nonces (heartbeat_tick t n c)
  end.

Lemma heartbeat_keeps_pong now nonce c : cn_last_pong (heartbeat_tick now nonce c) = cn_last_pong c.
Proof. unfold heartbeat_tick. by destruct (cn_beating c), (_ <=? _), (cn_writing c), (has_room c). Qed.

(** A tick leaves the heartbeat running or has told the connection to end. *)
Lemma heartbeat_decides now nonce c :
  cn_beating c = negb (cn_failed c) -> cn_beating (heartbeat_tick now nonce c) = negb (cn_failed (heartbeat_tick now nonce c)).
Proof.
  intros H. unfold heartbeat_tick. destruct (cn_beating c) eqn:E; cbn [negb]; [|congruence].
  destruct (_ <=? _); [done|]. destruct (_ && _); [cbn; congruence|done].
Qed.

(** A client that is silent since before a tick has been given up three ticks
    later, 45 seconds after it. *)
Lemma silent_given_up t n1 n2 n3 n4 c :
  cn_beating c = negb (cn_failed c) -> 0 <= cn_last_pong c <= t -> cn_failed (ticks t [n1; n2; n3; n4] c) = true.
Proof.
  intros Hb Hp. cbn [ticks].
  set (c1 := heartbeat_tick t n1 c). set (c2 := heartbeat_tick _ n2 c1). set (c3 := heartbeat_tick _ n3 c2).
  assert (H3 : cn_beating c3 = negb (cn_failed c3)) by (by do 3 apply heartbeat_decides).
  assert (P3 : cn_last_pong c3 = cn_last_pong c) by (unfold c3, c2, c1; by rewrite !heartbeat_keeps_pong).
  unfold heartbeat_tick. destruct (cn_failed c3) eqn:Ef; rewrite H3; cbn [negb]; [done|].
  destruct (Z.leb_spec CONTROL_HEARTBEAT_TIMEOUT_SECONDS
              (sat_sub (t + CONTROL_HEARTBEAT_INTERVAL + CONTROL_HEARTBEAT_INTERVAL + CONTROL_HEARTBEAT_INTERVAL)
                 (cn_last_pong c3))) as [_|Hlt]; [done|].
  rewrite P3 in Hlt. unfold sat_sub, CONTROL_HEARTBEAT_TIMEOUT_SECONDS, CONTROL_HEARTBEAT_INTERVAL in Hlt. lia.
Qed.

(** A client that answered within 45 seconds, and reads, is asked again. *)
Lemma answering_kept now nonce c :
  cn_beating c = true -> now - cn_last_pong c < CONTROL_HEARTBEAT_TIMEOUT_SECONDS -> cn_writing c = true ->
  has_room c = true -> heartbeat_tick now nonce c = queue_message (Ping nonce) c.
Proof.
  intros Hb Ht Hw Hr. unfold heartbeat_tick. rewrite Hb, Hw, Hr. cbn.
  destruct (Z.leb_spec CONTROL_HEARTBEAT_TIMEOUT_SECONDS (sat_sub now (cn_last_pong c))) as [Hle|]; [|done].
  unfold sat_sub, CONTROL_HEARTBEAT_TIMEOUT_SECONDS in *. lia.
Qed.

(** ** The handlers of the server *)

Section server.
Context {HH : Hash} {HSg : SignatureOps} {HT : TextOps}.
Context (tenant signer : bytes) (text : CoordError -> bytes).

(** A request as an event of the connection: what the handler of [Coord] sends *)
Definition request_event (conn : Z) (request : ControlMessage) (now : Z) (s : CoordState) : HubEvent * CoordState :=
  let registered := default None (cs_conns s !! conn) in
  let ok := is_ok (fst (handle_message tenant signer conn registered request now s)) in
  let s' := receive tenant signer text conn request now s in
  let outs := omap (fun p : Z * Outgoing => match p.2 with Control m => Some (p.1, m) | _ => None end)
                (drop (length (cs_sent s)) (cs_sent s')) in
  (EvRequest conn request ok (map snd (List.filter (fun p => bool_decide (p.1 = conn)) outs))
     (List.filter (fun p => negb (bool_decide (p.1 = conn))) outs) now, s').

(** The handler of [ListPeers] sends while it holds the mutex. *)
Lemma list_peers_waits conn id now s :
  cs_conns s !! conn = Some (Some id) -> conn ∉ cs_closed s ->
  exists l, fst (request_event conn ListPeers now s) = EvRequest conn ListPeers true [ListPeersOk l] [] now
            /\ handler_acts conn ListPeers true [ListPeersOk l] [] = [Lock; Send conn (ListPeersOk l) true; Unlock].
Proof.
  intros Ec Hcl. unfold request_event, receive. rewrite Ec. cbn [default handle_message handle_list_peers].
  unfold handle_list_peers, require_registered, send. unfold hbind, hlift, hget, hret. cbn.
  rewrite bool_decide_false by done. cbn. rewrite drop_app_length. cbn. rewrite bool_decide_true by done. cbn. eauto.
Qed.
End server.

(** ** Sample runs *)

Abbreviation sample_request conn request s :=
  (request_event (HH := toy_hash) (HSg := toy_sig) (HT := toy_text) (str "tenant") [3] (fun _ => []) conn request 200 s).

(** The first member asks for the list of peers again and again, and does not read. *)
Definition ask_peers : HubEvent := fst (sample_request 1 ListPeers server_of_two).

Definition flood : list HubEvent :=
  [EvOpen 1 100; EvOpen 2 100] ++ concat (replicate 64 [ask_peers; EvAct 1; EvAct 1; EvAct 1]) ++ [ask_peers; EvAct 1].

Definition flooded : Hub := default hub_new (hub_run flood hub_new).

(** Then its heartbeat gives up, and a second member wants the newest snapshot. *)
Definition after_flood : list HubEvent :=
  [EvTick 1 200 7; fst (sample_request 2 RequestSnapshot server_of_two)].

Definition after_flooded : Hub := default hub_new (hub_run after_flood flooded).

Lemma some_default {A} (x : option A) d : is_Some x -> x = Some (default d x).
Proof. by intros [y ->]. Qed.

Lemma flooded_held_up : held_up 1 flooded.
Proof.
  split; [vm_compute; reflexivity|]. eexists. split; [vm_compute; reflexivity|].
  split; [do 3 eexists; vm_compute; reflexivity|]. split; vm_compute; reflexivity.
Qed.

Lemma slow_member_holds_up_witness :
  default false (cn_failed <$> hub_conns after_flooded !! 1) = true
  /\ held_up 1 after_flooded /\ forall sn conns, hub_do (EvBroadcast sn conns) after_flooded = None.
Proof.
  split; [vm_compute; reflexivity|].
  destruct (slow_member_holds_up flood flooded 1 after_flood after_flooded) as (Hh & Hb & _).
  - apply some_default. vm_compute. by eexists.
  - apply flooded_held_up.
  - apply some_default. vm_compute. by eexists.
  - vm_compute. reflexivity.
  - by split.
Defined.

Lemma mutex_progress_witness :
  exists h', hub_do (EvWrite 1 true) flooded = Some h' /\ is_Some (hub_do (EvAct 1) h').
Proof.
  destruct (mutex_progress flood flooded (OfConn 1)) as [Hm|(conn & [= <-] & _ & Hok)].
  - apply some_default. vm_compute. by eexists.
  - vm_compute. reflexivity.
  - exfalso. cbn [holder_event] in Hm. revert Hm. vm_compute. by intros [].
  - apply (Hok true).
Defined.

(** A snapshot is broadcast to a member; before the writer comes to it, another
    member joins and the first one asks for a snapshot. *)
Definition overtake : list HubEvent :=
  [EvOpen 1 100; EvBroadcast (network_snapshot (HH := toy_hash) (HSg := toy_sig) (str "tenant") [3]
                               (run [Invite [1]; Open 1; Receive 1 (toy_register 1 [1])]) [toy_node 1] 200) [1];
   fst (sample_request 1 RequestSnapshot server_of_two);
   EvAct 1; EvAct 1; EvAct 1; EvWrite 1 true; EvWrite 1 true].

Definition overtaken_hub : Hub := default hub_new (hub_run overtake hub_new).
Definition overtaken_connection : Connection := default (connection_new 0) (hub_conns overtaken_hub !! 1).

(** The generation of a snapshot that is written *)
Definition written_generation (o : Outgoing) : option Z :=
  match o with
  | Control (SnapshotResponse sn) | Control (SnapshotMsg sn) | LatestSnapshot sn => Some (generation sn)
  | _ => None
  end.

(** The answer overtakes the broadcast: the member receives an older snapshot after
    a newer one. *)
Lemma answer_overtakes_broadcast :
  exists old new, omap written_generation (cn_written overtaken_connection) = [new; old] /\ old < new.
Proof. do 2 eexists. split; [vm_compute; reflexivity|]. by vm_compute. Qed.

Lemma connection_output_witness :
  length (cn_written overtaken_connection) = 2%nat /\ connection_ok overtaken_connection.
Proof.
  split; [vm_compute; reflexivity|]. apply (connection_output overtake overtaken_hub 1).
  - apply some_default. vm_compute. by eexists.
  - apply some_default. vm_compute. by eexists.
Defined.
