(* ===== verification/NodeState.v ===== *)
(** * The state of a node

    [Inner] and [PeerState] of [vela-core/src/lib.rs] and the operations every
    handler uses: events, datagrams, the session index, invalidation of a session
    and the request to reconnect.

    A peer is shared: the peer table, the session index, queued packets and tasks
    hold [Arc<PeerState>].  Here a peer lives in [n_heap] and an [Arc] is its
    address there, so [Arc::ptr_eq] is equality of addresses.  A handler is a
    function of the node that may fail after changing it; locks order the
    handlers and are not state.  The clock ([unix_time], [Instant::now] in
    nanoseconds), whether the operating system takes a datagram, and how many of a
    batch, are the [World] a handler runs in.  Log lines and the optional [TrafficObserver] are
    left out. *)
From S2P Require Import Prelude Net Encoding Wire NodeId Snapshot SignedBytes Crypto Ip Replay Path Handshake.

(** ** Data *)

Inductive ConnectError : Type :=
| NotStarted | Connect_UnknownPeer | NoCandidates | Connect_Timeout | Superseded
| Connect_Core (e : CoreError).

Inductive SendError : Type :=
| Send_UnknownPeer | WrongPeer | Send_NotConnected | QueueFull | PacketTooLarge
| Send_SnapshotExpired
| Send_Ip (e : IpError)
| Send_Io
| Send_Protocol (e : ProtoError)
| Send_Crypto (e : CryptoError).

(** The texts of [record_failure], by what they report. *)
Inductive FailureReason : Type :=
| AttemptTimedOut
| HandshakeSendFailed (e : CoreError)
| ReconnectFailed (e : ConnectError).

Inductive PeerCandidateState : Type := CandPending | CandSent | CandResponded | CandFailed.

Record PeerCandidateAttempt : Type := mkCandidateAttempt {
  ca_candidate : Candidate;
  ca_state : PeerCandidateState;
  ca_last_sent_at : option Z;
  ca_responded_at : option Z;
  ca_error : option CoreError
}.

Record PeerPathChange : Type := mkPathChange {
  pc_path : SocketAddr;
  pc_candidate_type : string;
  pc_changed_at : Z
}.

Record ReconnectState : Type := mkReconnect {
  rc_requested : bool;
  rc_running : bool;
  rc_attempts : Z
}.

Definition ReconnectState_default : ReconnectState := mkReconnect false false 0.

(** The waiters of a session are the nonces of the pings in flight. *)
Record ActiveSession : Type := mkSession {
  as_session_id : Z;
  as_path : SocketAddr;
  as_pending_path : option PendingPathMigration;
  as_cipher : SessionCipher;
  as_tx_sequence : Z;
  as_replay : ReplayWindow;
  as_ping_waiters : gset bytes;
  as_pending_keepalive : option (bytes * Z);
  as_last_rx : Z;
  as_created_at_unix : Z;
  as_created_at : Z;
  as_path_changed_at : option Z;
  as_last_rtt_ms : option Z;
  as_tx_bytes : Z;
  as_rx_bytes : Z;
  as_path_mtu : PathMtuState
}.

Record Attempt (N : Type) : Type := mkAttempt {
  at_session_id : Z;
  at_handshake : option N;
  at_handshake_payload : option bytes;
  at_handshake_path : option SocketAddr;
  at_last_handshake_at : option Z;
  at_started_at : Z;
  at_timeout_at : Z;
  at_candidates : list PeerCandidateAttempt
}.
Arguments mkAttempt {N} _ _ _ _ _ _ _ _.
Arguments at_session_id {N} _.
Arguments at_handshake {N} _.
Arguments at_handshake_payload {N} _.
Arguments at_handshake_path {N} _.
Arguments at_last_handshake_at {N} _.
Arguments at_started_at {N} _.
Arguments at_timeout_at {N} _.
Arguments at_candidates {N} _.

Record PeerReceiveCounters : Type := mkPeerReceive {
  pr_worker_data_packets : Z;
  pr_decrypt_failures : Z;
  pr_replay_drops : Z;
  pr_ip_parse_failures : Z;
  pr_invalid_destinations : Z;
  pr_accepted_ip_packets : Z;
  pr_event_queue_drops : Z
}.

Record PeerState (N : Type) : Type := mkPeerState {
  ps_node_id : bytes;
  ps_info : PeerInfo;
  ps_membership_expires_at : Z;
  ps_online : bool;
  ps_last_failure : option (FailureReason * Z);
  ps_path_history : list PeerPathChange;
  ps_connecting : bool;
  ps_attempt : option (Attempt N);
  ps_active : option ActiveSession;
  ps_reconnect : ReconnectState;
  ps_queue : list bytes;
  ps_receive : PeerReceiveCounters
}.
Arguments mkPeerState {N} _ _ _ _ _ _ _ _ _ _ _ _.
Arguments ps_node_id {N} _.
Arguments ps_info {N} _.
Arguments ps_membership_expires_at {N} _.
Arguments ps_online {N} _.
Arguments ps_last_failure {N} _.
Arguments ps_path_history {N} _.
Arguments ps_connecting {N} _.
Arguments ps_attempt {N} _.
Arguments ps_active {N} _.
Arguments ps_reconnect {N} _.
Arguments ps_queue {N} _.
Arguments ps_receive {N} _.

Inductive VelaEvent : Type :=
| PeerConnecting (id : bytes)
| PeerConnectionRequested (id : bytes)
| PeerConnected (id : bytes)
| PeerDisconnected (id : bytes)
| PeerReconnectRequested (id : bytes)
| PeerUnreachable (id : bytes)
| PathChanged (id : bytes) (path : SocketAddr)
| PathMtuChanged (peer : bytes) (path : SocketAddr) (mtu : Z)
| TransportFailed
| IpPacketEvent (peer : bytes) (packet : IpPacket).

(** Tasks handed to the runtime. *)
Inductive Task : Type :=
| ConnectTask (id : bytes)
| ReconnectTask (peer : Z).

Record TransportReceiveCounters : Type := mkTransportReceive {
  tr_udp_datagrams : Z;
  tr_stun_datagrams : Z;
  tr_data_datagrams : Z;
  tr_data_queue_drops : Z;
  tr_worker_data_datagrams : Z;
  tr_unassociated_data_datagrams : Z
}.

Record NodeConfig : Type := mkConfig {
  max_payload_size : Z;
  per_peer_queue_limit : nat;
  keepalive_interval : Z;
  connect_timeout : Z;
  reconnect_backoff : Z;
  server_public_key : option bytes;
  cfg_network_id : bytes;
  cfg_virtual_ipv4 : option Z;
  cfg_virtual_ipv6 : option Z;
  virtual_mtu : Z
}.

(** The keys of the node and the incarnation it was built with. *)
Record Local : Type := mkLocal {
  signing_secret : bytes;
  noise_private : bytes;
  local_noise_public : bytes;
  local_incarnation : Z
}.

Record Node (N : Type) : Type := mkNode {
  n_heap : gmap Z (PeerState N);
  n_next_ref : Z;
  n_peers : gmap bytes Z;
  n_sessions : gmap Z Z;
  n_routes : RouteTable;
  n_network_id : bytes;
  n_snapshot_generation : Z;
  n_snapshot_expires_at : Z;
  n_local_ipv4 : option Z;
  n_local_ipv6 : option Z;
  n_stun_waiters : gmap bytes SocketAddr;
  n_control_events : list VelaEvent;
  n_data_events : list VelaEvent;
  n_data_queues : list (list DataPacket);
  n_receive : TransportReceiveCounters;
  n_started : bool;
  n_stopping : bool;
  n_spawned : list Task;
  n_sent : list (SocketAddr * bytes);
  n_pongs : list (bytes * SocketAddr)
}.
Arguments mkNode {N} _ _ _ _ _ _ _ _ _ _ _ _ _ _ _ _ _ _ _ _.
Arguments n_heap {N} _.
Arguments n_next_ref {N} _.
Arguments n_peers {N} _.
Arguments n_sessions {N} _.
Arguments n_routes {N} _.
Arguments n_network_id {N} _.
Arguments n_snapshot_generation {N} _.
Arguments n_snapshot_expires_at {N} _.
Arguments n_local_ipv4 {N} _.
Arguments n_local_ipv6 {N} _.
Arguments n_stun_waiters {N} _.
Arguments n_control_events {N} _.
Arguments n_data_events {N} _.
Arguments n_data_queues {N} _.
Arguments n_receive {N} _.
Arguments n_started {N} _.
Arguments n_stopping {N} _.
Arguments n_spawned {N} _.
Arguments n_sent {N} _.
Arguments n_pongs {N} _.

Record World : Type := mkWorld {
  w_unix : Z;
  w_instant : Z;
  w_udp : SocketAddr -> bytes -> bool;
  w_batch : list (SocketAddr * bytes) -> option nat
}.

Definition DATA_WORKER_QUEUE_LIMIT : nat := 2048.
Definition CORE_EVENT_QUEUE_LIMIT : nat := 4096.
Definition MAX_RECONNECT_ATTEMPTS : Z := 5.
Definition KEEPALIVE_NONCE_LEN : nat := 16.
Definition DIAGNOSTIC_NONCE_LEN : nat := 16.
Definition HANDSHAKE_RETRY_INTERVAL : Z := 250 * 10 ^ 6.

(** ** Field updates *)

Definition set_as_path (v : SocketAddr) (s : ActiveSession) : ActiveSession := mkSession
    (as_session_id s) v (as_pending_path s) (as_cipher s) (as_tx_sequence s) (as_replay s)
    (as_ping_waiters s) (as_pending_keepalive s) (as_last_rx s) (as_created_at_unix s)
    (as_created_at s) (as_path_changed_at s) (as_last_rtt_ms s) (as_tx_bytes s) (as_rx_bytes s)
    (as_path_mtu s).
Definition set_as_pending_path (v : option PendingPathMigration) (s : ActiveSession) :
    ActiveSession := mkSession (as_session_id s) (as_path s) v (as_cipher s) (as_tx_sequence s)
    (as_replay s) (as_ping_waiters s) (as_pending_keepalive s) (as_last_rx s) (as_created_at_unix
    s) (as_created_at s) (as_path_changed_at s) (as_last_rtt_ms s) (as_tx_bytes s) (as_rx_bytes s)
    (as_path_mtu s).
Definition set_as_tx_sequence (v : Z) (s : ActiveSession) : ActiveSession := mkSession
    (as_session_id s) (as_path s) (as_pending_path s) (as_cipher s) v (as_replay s)
    (as_ping_waiters s) (as_pending_keepalive s) (as_last_rx s) (as_created_at_unix s)
    (as_created_at s) (as_path_changed_at s) (as_last_rtt_ms s) (as_tx_bytes s) (as_rx_bytes s)
    (as_path_mtu s).
Definition set_as_replay (v : ReplayWindow) (s : ActiveSession) : ActiveSession := mkSession
    (as_session_id s) (as_path s) (as_pending_path s) (as_cipher s) (as_tx_sequence s) v
    (as_ping_waiters s) (as_pending_keepalive s) (as_last_rx s) (as_created_at_unix s)
    (as_created_at s) (as_path_changed_at s) (as_last_rtt_ms s) (as_tx_bytes s) (as_rx_bytes s)
    (as_path_mtu s).
Definition set_as_ping_waiters (v : gset bytes) (s : ActiveSession) : ActiveSession := mkSession
    (as_session_id s) (as_path s) (as_pending_path s) (as_cipher s) (as_tx_sequence s) (as_replay
    s) v (as_pending_keepalive s) (as_last_rx s) (as_created_at_unix s) (as_created_at s)
    (as_path_changed_at s) (as_last_rtt_ms s) (as_tx_bytes s) (as_rx_bytes s) (as_path_mtu s).
Definition set_as_pending_keepalive (v : option (bytes * Z)) (s : ActiveSession) : ActiveSession
    := mkSession (as_session_id s) (as_path s) (as_pending_path s) (as_cipher s) (as_tx_sequence
    s) (as_replay s) (as_ping_waiters s) v (as_last_rx s) (as_created_at_unix s) (as_created_at s)
    (as_path_changed_at s) (as_last_rtt_ms s) (as_tx_bytes s) (as_rx_bytes s) (as_path_mtu s).
Definition set_as_last_rx (v : Z) (s : ActiveSession) : ActiveSession := mkSession (as_session_id
    s) (as_path s) (as_pending_path s) (as_cipher s) (as_tx_sequence s) (as_replay s)
    (as_ping_waiters s) (as_pending_keepalive s) v (as_created_at_unix s) (as_created_at s)
    (as_path_changed_at s) (as_last_rtt_ms s) (as_tx_bytes s) (as_rx_bytes s) (as_path_mtu s).
Definition set_as_path_changed_at (v : option Z) (s : ActiveSession) : ActiveSession := mkSession
    (as_session_id s) (as_path s) (as_pending_path s) (as_cipher s) (as_tx_sequence s) (as_replay
    s) (as_ping_waiters s) (as_pending_keepalive s) (as_last_rx s) (as_created_at_unix s)
    (as_created_at s) v (as_last_rtt_ms s) (as_tx_bytes s) (as_rx_bytes s) (as_path_mtu s).
Definition set_as_last_rtt_ms (v : option Z) (s : ActiveSession) : ActiveSession := mkSession
    (as_session_id s) (as_path s) (as_pending_path s) (as_cipher s) (as_tx_sequence s) (as_replay
    s) (as_ping_waiters s) (as_pending_keepalive s) (as_last_rx s) (as_created_at_unix s)
    (as_created_at s) (as_path_changed_at s) v (as_tx_bytes s) (as_rx_bytes s) (as_path_mtu s).
Definition set_as_tx_bytes (v : Z) (s : ActiveSession) : ActiveSession := mkSession (as_session_id
    s) (as_path s) (as_pending_path s) (as_cipher s) (as_tx_sequence s) (as_replay s)
    (as_ping_waiters s) (as_pending_keepalive s) (as_last_rx s) (as_created_at_unix s)
    (as_created_at s) (as_path_changed_at s) (as_last_rtt_ms s) v (as_rx_bytes s) (as_path_mtu s).
Definition set_as_rx_bytes (v : Z) (s : ActiveSession) : ActiveSession := mkSession (as_session_id
    s) (as_path s) (as_pending_path s) (as_cipher s) (as_tx_sequence s) (as_replay s)
    (as_ping_waiters s) (as_pending_keepalive s) (as_last_rx s) (as_created_at_unix s)
    (as_created_at s) (as_path_changed_at s) (as_last_rtt_ms s) (as_tx_bytes s) v (as_path_mtu s).
Definition set_as_path_mtu (v : PathMtuState) (s : ActiveSession) : ActiveSession := mkSession
    (as_session_id s) (as_path s) (as_pending_path s) (as_cipher s) (as_tx_sequence s) (as_replay
    s) (as_ping_waiters s) (as_pending_keepalive s) (as_last_rx s) (as_created_at_unix s)
    (as_created_at s) (as_path_changed_at s) (as_last_rtt_ms s) (as_tx_bytes s) (as_rx_bytes s) v.

Definition set_at_handshake {N : Type} (v : option N) (s : Attempt N) : Attempt N := mkAttempt
    (at_session_id s) v (at_handshake_payload s) (at_handshake_path s) (at_last_handshake_at s)
    (at_started_at s) (at_timeout_at s) (at_candidates s).
Definition set_at_handshake_payload {N : Type} (v : option bytes) (s : Attempt N) : Attempt N :=
    mkAttempt (at_session_id s) (at_handshake s) v (at_handshake_path s) (at_last_handshake_at s)
    (at_started_at s) (at_timeout_at s) (at_candidates s).
Definition set_at_handshake_path {N : Type} (v : option SocketAddr) (s : Attempt N) : Attempt N :=
    mkAttempt (at_session_id s) (at_handshake s) (at_handshake_payload s) v (at_last_handshake_at
    s) (at_started_at s) (at_timeout_at s) (at_candidates s).
Definition set_at_last_handshake_at {N : Type} (v : option Z) (s : Attempt N) : Attempt N :=
    mkAttempt (at_session_id s) (at_handshake s) (at_handshake_payload s) (at_handshake_path s) v
    (at_started_at s) (at_timeout_at s) (at_candidates s).
Definition set_at_candidates {N : Type} (v : list PeerCandidateAttempt) (s : Attempt N) : Attempt
    N := mkAttempt (at_session_id s) (at_handshake s) (at_handshake_payload s) (at_handshake_path
    s) (at_last_handshake_at s) (at_started_at s) (at_timeout_at s) v.

Definition set_ps_info {N : Type} (v : PeerInfo) (s : PeerState N) : PeerState N := mkPeerState
    (ps_node_id s) v (ps_membership_expires_at s) (ps_online s) (ps_last_failure s)
    (ps_path_history s) (ps_connecting s) (ps_attempt s) (ps_active s) (ps_reconnect s) (ps_queue
    s) (ps_receive s).
Definition set_ps_membership_expires_at {N : Type} (v : Z) (s : PeerState N) : PeerState N :=
    mkPeerState (ps_node_id s) (ps_info s) v (ps_online s) (ps_last_failure s) (ps_path_history s)
    (ps_connecting s) (ps_attempt s) (ps_active s) (ps_reconnect s) (ps_queue s) (ps_receive s).
Definition set_ps_online {N : Type} (v : bool) (s : PeerState N) : PeerState N := mkPeerState
    (ps_node_id s) (ps_info s) (ps_membership_expires_at s) v (ps_last_failure s) (ps_path_history
    s) (ps_connecting s) (ps_attempt s) (ps_active s) (ps_reconnect s) (ps_queue s) (ps_receive
    s).
Definition set_ps_last_failure {N : Type} (v : option (FailureReason * Z)) (s : PeerState N) :
    PeerState N := mkPeerState (ps_node_id s) (ps_info s) (ps_membership_expires_at s) (ps_online
    s) v (ps_path_history s) (ps_connecting s) (ps_attempt s) (ps_active s) (ps_reconnect s)
    (ps_queue s) (ps_receive s).
Definition set_ps_path_history {N : Type} (v : list PeerPathChange) (s : PeerState N) : PeerState
    N := mkPeerState (ps_node_id s) (ps_info s) (ps_membership_expires_at s) (ps_online s)
    (ps_last_failure s) v (ps_connecting s) (ps_attempt s) (ps_active s) (ps_reconnect s)
    (ps_queue s) (ps_receive s).
Definition set_ps_connecting {N : Type} (v : bool) (s : PeerState N) : PeerState N := mkPeerState
    (ps_node_id s) (ps_info s) (ps_membership_expires_at s) (ps_online s) (ps_last_failure s)
    (ps_path_history s) v (ps_attempt s) (ps_active s) (ps_reconnect s) (ps_queue s) (ps_receive
    s).
Definition set_ps_attempt {N : Type} (v : option (Attempt N)) (s : PeerState N) : PeerState N :=
    mkPeerState (ps_node_id s) (ps_info s) (ps_membership_expires_at s) (ps_online s)
    (ps_last_failure s) (ps_path_history s) (ps_connecting s) v (ps_active s) (ps_reconnect s)
    (ps_queue s) (ps_receive s).
Definition set_ps_active {N : Type} (v : option ActiveSession) (s : PeerState N) : PeerState N :=
    mkPeerState (ps_node_id s) (ps_info s) (ps_membership_expires_at s) (ps_online s)
    (ps_last_failure s) (ps_path_history s) (ps_connecting s) (ps_attempt s) v (ps_reconnect s)
    (ps_queue s) (ps_receive s).
Definition set_ps_reconnect {N : Type} (v : ReconnectState) (s : PeerState N) : PeerState N :=
    mkPeerState (ps_node_id s) (ps_info s) (ps_membership_expires_at s) (ps_online s)
    (ps_last_failure s) (ps_path_history s) (ps_connecting s) (ps_attempt s) (ps_active s) v
    (ps_queue s) (ps_receive s).
Definition set_ps_queue {N : Type} (v : list bytes) (s : PeerState N) : PeerState N := mkPeerState
    (ps_node_id s) (ps_info s) (ps_membership_expires_at s) (ps_online s) (ps_last_failure s)
    (ps_path_history s) (ps_connecting s) (ps_attempt s) (ps_active s) (ps_reconnect s) v
    (ps_receive s).
Definition set_ps_receive {N : Type} (v : PeerReceiveCounters) (s : PeerState N) : PeerState N :=
    mkPeerState (ps_node_id s) (ps_info s) (ps_membership_expires_at s) (ps_online s)
    (ps_last_failure s) (ps_path_history s) (ps_connecting s) (ps_attempt s) (ps_active s)
    (ps_reconnect s) (ps_queue s) v.

Definition set_pr_worker_data_packets (v : Z) (s : PeerReceiveCounters) : PeerReceiveCounters :=
    mkPeerReceive v (pr_decrypt_failures s) (pr_replay_drops s) (pr_ip_parse_failures s)
    (pr_invalid_destinations s) (pr_accepted_ip_packets s) (pr_event_queue_drops s).
Definition set_pr_decrypt_failures (v : Z) (s : PeerReceiveCounters) : PeerReceiveCounters :=
    mkPeerReceive (pr_worker_data_packets s) v (pr_replay_drops s) (pr_ip_parse_failures s)
    (pr_invalid_destinations s) (pr_accepted_ip_packets s) (pr_event_queue_drops s).
Definition set_pr_replay_drops (v : Z) (s : PeerReceiveCounters) : PeerReceiveCounters :=
    mkPeerReceive (pr_worker_data_packets s) (pr_decrypt_failures s) v (pr_ip_parse_failures s)
    (pr_invalid_destinations s) (pr_accepted_ip_packets s) (pr_event_queue_drops s).
Definition set_pr_ip_parse_failures (v : Z) (s : PeerReceiveCounters) : PeerReceiveCounters :=
    mkPeerReceive (pr_worker_data_packets s) (pr_decrypt_failures s) (pr_replay_drops s) v
    (pr_invalid_destinations s) (pr_accepted_ip_packets s) (pr_event_queue_drops s).
Definition set_pr_invalid_destinations (v : Z) (s : PeerReceiveCounters) : PeerReceiveCounters :=
    mkPeerReceive (pr_worker_data_packets s) (pr_decrypt_failures s) (pr_replay_drops s)
    (pr_ip_parse_failures s) v (pr_accepted_ip_packets s) (pr_event_queue_drops s).
Definition set_pr_accepted_ip_packets (v : Z) (s : PeerReceiveCounters) : PeerReceiveCounters :=
    mkPeerReceive (pr_worker_data_packets s) (pr_decrypt_failures s) (pr_replay_drops s)
    (pr_ip_parse_failures s) (pr_invalid_destinations s) v (pr_event_queue_drops s).
Definition set_pr_event_queue_drops (v : Z) (s : PeerReceiveCounters) : PeerReceiveCounters :=
    mkPeerReceive (pr_worker_data_packets s) (pr_decrypt_failures s) (pr_replay_drops s)
    (pr_ip_parse_failures s) (pr_invalid_destinations s) (pr_accepted_ip_packets s) v.

Definition set_tr_udp_datagrams (v : Z) (s : TransportReceiveCounters) : TransportReceiveCounters
    := mkTransportReceive v (tr_stun_datagrams s) (tr_data_datagrams s) (tr_data_queue_drops s)
    (tr_worker_data_datagrams s) (tr_unassociated_data_datagrams s).
Definition set_tr_stun_datagrams (v : Z) (s : TransportReceiveCounters) : TransportReceiveCounters
    := mkTransportReceive (tr_udp_datagrams s) v (tr_data_datagrams s) (tr_data_queue_drops s)
    (tr_worker_data_datagrams s) (tr_unassociated_data_datagrams s).
Definition set_tr_data_datagrams (v : Z) (s : TransportReceiveCounters) : TransportReceiveCounters
    := mkTransportReceive (tr_udp_datagrams s) (tr_stun_datagrams s) v (tr_data_queue_drops s)
    (tr_worker_data_datagrams s) (tr_unassociated_data_datagrams s).
Definition set_tr_data_queue_drops (v : Z) (s : TransportReceiveCounters) :
    TransportReceiveCounters := mkTransportReceive (tr_udp_datagrams s) (tr_stun_datagrams s)
    (tr_data_datagrams s) v (tr_worker_data_datagrams s) (tr_unassociated_data_datagrams s).
Definition set_tr_worker_data_datagrams (v : Z) (s : TransportReceiveCounters) :
    TransportReceiveCounters := mkTransportReceive (tr_udp_datagrams s) (tr_stun_datagrams s)
    (tr_data_datagrams s) (tr_data_queue_drops s) v (tr_unassociated_data_datagrams s).
Definition set_tr_unassociated_data_datagrams (v : Z) (s : TransportReceiveCounters) :
    TransportReceiveCounters := mkTransportReceive (tr_udp_datagrams s) (tr_stun_datagrams s)
    (tr_data_datagrams s) (tr_data_queue_drops s) (tr_worker_data_datagrams s) v.

Definition set_n_heap {N : Type} (v : gmap Z (PeerState N)) (s : Node N) : Node N := mkNode v
    (n_next_ref s) (n_peers s) (n_sessions s) (n_routes s) (n_network_id s) (n_snapshot_generation
    s) (n_snapshot_expires_at s) (n_local_ipv4 s) (n_local_ipv6 s) (n_stun_waiters s)
    (n_control_events s) (n_data_events s) (n_data_queues s) (n_receive s) (n_started s)
    (n_stopping s) (n_spawned s) (n_sent s) (n_pongs s).
Definition set_n_next_ref {N : Type} (v : Z) (s : Node N) : Node N := mkNode (n_heap s) v (n_peers
    s) (n_sessions s) (n_routes s) (n_network_id s) (n_snapshot_generation s)
    (n_snapshot_expires_at s) (n_local_ipv4 s) (n_local_ipv6 s) (n_stun_waiters s)
    (n_control_events s) (n_data_events s) (n_data_queues s) (n_receive s) (n_started s)
    (n_stopping s) (n_spawned s) (n_sent s) (n_pongs s).
Definition set_n_peers {N : Type} (v : gmap bytes Z) (s : Node N) : Node N := mkNode (n_heap s)
    (n_next_ref s) v (n_sessions s) (n_routes s) (n_network_id s) (n_snapshot_generation s)
    (n_snapshot_expires_at s) (n_local_ipv4 s) (n_local_ipv6 s) (n_stun_waiters s)
    (n_control_events s) (n_data_events s) (n_data_queues s) (n_receive s) (n_started s)
    (n_stopping s) (n_spawned s) (n_sent s) (n_pongs s).
Definition set_n_sessions {N : Type} (v : gmap Z Z) (s : Node N) : Node N := mkNode (n_heap s)
    (n_next_ref s) (n_peers s) v (n_routes s) (n_network_id s) (n_snapshot_generation s)
    (n_snapshot_expires_at s) (n_local_ipv4 s) (n_local_ipv6 s) (n_stun_waiters s)
    (n_control_events s) (n_data_events s) (n_data_queues s) (n_receive s) (n_started s)
    (n_stopping s) (n_spawned s) (n_sent s) (n_pongs s).
Definition set_n_routes {N : Type} (v : RouteTable) (s : Node N) : Node N := mkNode (n_heap s)
    (n_next_ref s) (n_peers s) (n_sessions s) v (n_network_id s) (n_snapshot_generation s)
    (n_snapshot_expires_at s) (n_local_ipv4 s) (n_local_ipv6 s) (n_stun_waiters s)
    (n_control_events s) (n_data_events s) (n_data_queues s) (n_receive s) (n_started s)
    (n_stopping s) (n_spawned s) (n_sent s) (n_pongs s).
Definition set_n_network_id {N : Type} (v : bytes) (s : Node N) : Node N := mkNode (n_heap s)
    (n_next_ref s) (n_peers s) (n_sessions s) (n_routes s) v (n_snapshot_generation s)
    (n_snapshot_expires_at s) (n_local_ipv4 s) (n_local_ipv6 s) (n_stun_waiters s)
    (n_control_events s) (n_data_events s) (n_data_queues s) (n_receive s) (n_started s)
    (n_stopping s) (n_spawned s) (n_sent s) (n_pongs s).
Definition set_n_snapshot_generation {N : Type} (v : Z) (s : Node N) : Node N := mkNode (n_heap s)
    (n_next_ref s) (n_peers s) (n_sessions s) (n_routes s) (n_network_id s) v
    (n_snapshot_expires_at s) (n_local_ipv4 s) (n_local_ipv6 s) (n_stun_waiters s)
    (n_control_events s) (n_data_events s) (n_data_queues s) (n_receive s) (n_started s)
    (n_stopping s) (n_spawned s) (n_sent s) (n_pongs s).
Definition set_n_snapshot_expires_at {N : Type} (v : Z) (s : Node N) : Node N := mkNode (n_heap s)
    (n_next_ref s) (n_peers s) (n_sessions s) (n_routes s) (n_network_id s) (n_snapshot_generation
    s) v (n_local_ipv4 s) (n_local_ipv6 s) (n_stun_waiters s) (n_control_events s) (n_data_events
    s) (n_data_queues s) (n_receive s) (n_started s) (n_stopping s) (n_spawned s) (n_sent s)
    (n_pongs s).
Definition set_n_local_ipv4 {N : Type} (v : option Z) (s : Node N) : Node N := mkNode (n_heap s)
    (n_next_ref s) (n_peers s) (n_sessions s) (n_routes s) (n_network_id s) (n_snapshot_generation
    s) (n_snapshot_expires_at s) v (n_local_ipv6 s) (n_stun_waiters s) (n_control_events s)
    (n_data_events s) (n_data_queues s) (n_receive s) (n_started s) (n_stopping s) (n_spawned s)
    (n_sent s) (n_pongs s).
Definition set_n_local_ipv6 {N : Type} (v : option Z) (s : Node N) : Node N := mkNode (n_heap s)
    (n_next_ref s) (n_peers s) (n_sessions s) (n_routes s) (n_network_id s) (n_snapshot_generation
    s) (n_snapshot_expires_at s) (n_local_ipv4 s) v (n_stun_waiters s) (n_control_events s)
    (n_data_events s) (n_data_queues s) (n_receive s) (n_started s) (n_stopping s) (n_spawned s)
    (n_sent s) (n_pongs s).
Definition set_n_stun_waiters {N : Type} (v : gmap bytes SocketAddr) (s : Node N) : Node N :=
    mkNode (n_heap s) (n_next_ref s) (n_peers s) (n_sessions s) (n_routes s) (n_network_id s)
    (n_snapshot_generation s) (n_snapshot_expires_at s) (n_local_ipv4 s) (n_local_ipv6 s) v
    (n_control_events s) (n_data_events s) (n_data_queues s) (n_receive s) (n_started s)
    (n_stopping s) (n_spawned s) (n_sent s) (n_pongs s).
Definition set_n_control_events {N : Type} (v : list VelaEvent) (s : Node N) : Node N := mkNode
    (n_heap s) (n_next_ref s) (n_peers s) (n_sessions s) (n_routes s) (n_network_id s)
    (n_snapshot_generation s) (n_snapshot_expires_at s) (n_local_ipv4 s) (n_local_ipv6 s)
    (n_stun_waiters s) v (n_data_events s) (n_data_queues s) (n_receive s) (n_started s)
    (n_stopping s) (n_spawned s) (n_sent s) (n_pongs s).
Definition set_n_data_events {N : Type} (v : list VelaEvent) (s : Node N) : Node N := mkNode
    (n_heap s) (n_next_ref s) (n_peers s) (n_sessions s) (n_routes s) (n_network_id s)
    (n_snapshot_generation s) (n_snapshot_expires_at s) (n_local_ipv4 s) (n_local_ipv6 s)
    (n_stun_waiters s) (n_control_events s) v (n_data_queues s) (n_receive s) (n_started s)
    (n_stopping s) (n_spawned s) (n_sent s) (n_pongs s).
Definition set_n_data_queues {N : Type} (v : list (list DataPacket)) (s : Node N) : Node N :=
    mkNode (n_heap s) (n_next_ref s) (n_peers s) (n_sessions s) (n_routes s) (n_network_id s)
    (n_snapshot_generation s) (n_snapshot_expires_at s) (n_local_ipv4 s) (n_local_ipv6 s)
    (n_stun_waiters s) (n_control_events s) (n_data_events s) v (n_receive s) (n_started s)
    (n_stopping s) (n_spawned s) (n_sent s) (n_pongs s).
Definition set_n_receive {N : Type} (v : TransportReceiveCounters) (s : Node N) : Node N := mkNode
    (n_heap s) (n_next_ref s) (n_peers s) (n_sessions s) (n_routes s) (n_network_id s)
    (n_snapshot_generation s) (n_snapshot_expires_at s) (n_local_ipv4 s) (n_local_ipv6 s)
    (n_stun_waiters s) (n_control_events s) (n_data_events s) (n_data_queues s) v (n_started s)
    (n_stopping s) (n_spawned s) (n_sent s) (n_pongs s).
Definition set_n_started {N : Type} (v : bool) (s : Node N) : Node N := mkNode (n_heap s)
    (n_next_ref s) (n_peers s) (n_sessions s) (n_routes s) (n_network_id s) (n_snapshot_generation
    s) (n_snapshot_expires_at s) (n_local_ipv4 s) (n_local_ipv6 s) (n_stun_waiters s)
    (n_control_events s) (n_data_events s) (n_data_queues s) (n_receive s) v (n_stopping s)
    (n_spawned s) (n_sent s) (n_pongs s).
Definition set_n_stopping {N : Type} (v : bool) (s : Node N) : Node N := mkNode (n_heap s)
    (n_next_ref s) (n_peers s) (n_sessions s) (n_routes s) (n_network_id s) (n_snapshot_generation
    s) (n_snapshot_expires_at s) (n_local_ipv4 s) (n_local_ipv6 s) (n_stun_waiters s)
    (n_control_events s) (n_data_events s) (n_data_queues s) (n_receive s) (n_started s) v
    (n_spawned s) (n_sent s) (n_pongs s).
Definition set_n_spawned {N : Type} (v : list Task) (s : Node N) : Node N := mkNode (n_heap s)
    (n_next_ref s) (n_peers s) (n_sessions s) (n_routes s) (n_network_id s) (n_snapshot_generation
    s) (n_snapshot_expires_at s) (n_local_ipv4 s) (n_local_ipv6 s) (n_stun_waiters s)
    (n_control_events s) (n_data_events s) (n_data_queues s) (n_receive s) (n_started s)
    (n_stopping s) v (n_sent s) (n_pongs s).
Definition set_n_sent {N : Type} (v : list (SocketAddr * bytes)) (s : Node N) : Node N := mkNode
    (n_heap s) (n_next_ref s) (n_peers s) (n_sessions s) (n_routes s) (n_network_id s)
    (n_snapshot_generation s) (n_snapshot_expires_at s) (n_local_ipv4 s) (n_local_ipv6 s)
    (n_stun_waiters s) (n_control_events s) (n_data_events s) (n_data_queues s) (n_receive s)
    (n_started s) (n_stopping s) (n_spawned s) v (n_pongs s).
Definition set_n_pongs {N : Type} (v : list (bytes * SocketAddr)) (s : Node N) : Node N := mkNode
    (n_heap s) (n_next_ref s) (n_peers s) (n_sessions s) (n_routes s) (n_network_id s)
    (n_snapshot_generation s) (n_snapshot_expires_at s) (n_local_ipv4 s) (n_local_ipv6 s)
    (n_stun_waiters s) (n_control_events s) (n_data_events s) (n_data_queues s) (n_receive s)
    (n_started s) (n_stopping s) (n_spawned s) (n_sent s) v.

(** ** Peers *)

Definition PeerReceiveCounters_default : PeerReceiveCounters := mkPeerReceive 0 0 0 0 0 0 0.
Definition TransportReceiveCounters_default : TransportReceiveCounters :=
  mkTransportReceive 0 0 0 0 0 0.

Definition ip_addresses (v4 v6 : option Z) : list IpAddr :=
  match v4 with Some a => [V4 a] | None => [] end
  ++ match v6 with Some a => [V6 a] | None => [] end.

(** The addresses a peer is routed at. *)
Definition peer_addresses (i : PeerInfo) : list IpAddr :=
  ip_addresses (virtual_ipv4 i) (virtual_ipv6 i).

Section PeerOps.
Context {N : Type}.
Context (parse_credential : bytes -> option MembershipCredential).

(** [PeerState::with_online]; [PeerState::new] is online. *)
Definition with_online (info : PeerInfo) (online : bool) (key : option bytes) : PeerState N :=
  mkPeerState (node_id info) info (membership_expires_at parse_credential info key) online None []
    false None None ReconnectState_default [] PeerReceiveCounters_default.

Definition PeerState_new (info : PeerInfo) (key : option bytes) : PeerState N :=
  with_online info true key.

Definition membership_expired_at (p : PeerState N) (now : Z) : bool :=
  ps_membership_expires_at p <=? now.

Definition update_info (info : PeerInfo) (key : option bytes) (p : PeerState N) : PeerState N :=
  set_ps_info info (set_ps_membership_expires_at (membership_expires_at parse_credential info key) p).

Definition record_failure (reason : FailureReason) (now : Z) (p : PeerState N) : PeerState N :=
  set_ps_last_failure (Some (reason, now)) p.

(** The history keeps its last 32 entries. *)
Definition record_path (path : SocketAddr) (candidates : list Candidate) (now : Z)
    (p : PeerState N) : PeerState N :=
  let history := ps_path_history p in
  match List.rev history with
  | previous :: _ =>
      if bool_decide (pc_path previous = path) then p
      else
        let history := history ++ [mkPathChange path (candidate_type candidates path) now] in
        set_ps_path_history (if (32 <? length history)%nat then tl history else history) p
  | [] => set_ps_path_history [mkPathChange path (candidate_type candidates path) now] p
  end.

Definition can_retain_session (p : PeerState N) (next : PeerInfo) : bool :=
  let previous := ps_info p in
  if negb (bool_decide (node_id previous = node_id next))
     || negb (incarnation previous =? incarnation next)
     || negb (bool_decide (signing_public previous = signing_public next))
     || negb (bool_decide (noise_public previous = noise_public next))
     || negb (bool_decide (virtual_ipv4 previous = virtual_ipv4 next))
     || negb (bool_decide (virtual_ipv6 previous = virtual_ipv6 next))
  then false
  else
    match ps_active p with
    | Some session =>
        bool_decide (candidates previous = candidates next)
        || existsb (fun c => bool_decide (Candidate_address c = as_path session)) (candidates next)
    | None =>
        match ps_attempt p with
        | None => true
        | Some _ => bool_decide (candidates previous = candidates next)
        end
    end.
End PeerOps.

#[export] Instance PeerInfo_inhabited : Inhabited PeerInfo :=
  populate (mkPeer [] 0 [] [] [] None None [] []).
#[export] Instance PeerState_inhabited {N} : Inhabited (PeerState N) :=
  populate (with_online (fun _ => None) inhabitant false None).

(** ** Steps of the handlers *)

Section Steps.
Context {N E : Type}.
Abbreviation HN A := (handler (Node N) E A).

(** Allocate a peer ([Arc::new]), read one and change one. *)
Definition alloc (p : PeerState N) : HN Z :=
  fun n => (Ok (n_next_ref n),
            set_n_next_ref (n_next_ref n + 1) (set_n_heap (<[n_next_ref n := p]> (n_heap n)) n)).

Definition peer_at (r : Z) (n : Node N) : PeerState N := n_heap n !!! r.

Definition load (r : Z) : HN (PeerState N) := fun n => (Ok (peer_at r n), n).

Definition update_at (r : Z) (f : PeerState N -> PeerState N) (n : Node N) : Node N :=
  set_n_heap (alter f r (n_heap n)) n.

Definition update (r : Z) (f : PeerState N -> PeerState N) : HN unit := hmodify (update_at r f).

(** [fetch_add(k)] on a counter wraps. *)
Definition fetch_add (c k : Z) : Z := wrap 64 (c + k).

Definition count_peer (r : Z) (get : PeerReceiveCounters -> Z)
    (set : Z -> PeerReceiveCounters -> PeerReceiveCounters) : HN unit :=
  update r (fun p => set_ps_receive (set (fetch_add (get (ps_receive p)) 1) (ps_receive p)) p).

Definition count (get : TransportReceiveCounters -> Z)
    (set : Z -> TransportReceiveCounters -> TransportReceiveCounters) (k : Z) : HN unit :=
  hmodify (fun n => set_n_receive (set (fetch_add (get (n_receive n)) k) (n_receive n)) n).

(** [emit]: data events go to a bounded queue and are dropped when it is full. *)
Definition emit (ev : VelaEvent) : HN bool :=
  fun n =>
    match ev with
    | IpPacketEvent _ _ =>
        if (length (n_data_events n) <? CORE_EVENT_QUEUE_LIMIT)%nat
        then (Ok true, set_n_data_events (n_data_events n ++ [ev]) n)
        else (Ok false, n)
    | _ => (Ok true, set_n_control_events (n_control_events n ++ [ev]) n)
    end.

Definition emit_peer_connecting (r : Z) : HN unit :=
  let! p := load r in
  match ps_active p with
  | Some _ => hret tt
  | None =>
      let! _ := update r (set_ps_connecting true) in
      if ps_connecting p then hret tt
      else let! _ := emit (PeerConnecting (node_id (ps_info p))) in hret tt
  end.

Definition spawn (t : Task) : HN unit :=
  hmodify (fun n => set_n_spawned (n_spawned n ++ [t]) n).

(** [socket.send_to] *)
Definition udp_send (w : World) (target : SocketAddr) (packet : bytes) : HN bool :=
  fun n => if w_udp w target packet then (Ok true, set_n_sent (n_sent n ++ [(target, packet)]) n)
           else (Ok false, n).

Definition remove_session (r : Z) (session_id : Z) : HN unit :=
  hmodify (fun n => if bool_decide (n_sessions n !! session_id = Some r)
                    then set_n_sessions (delete session_id (n_sessions n)) n else n).

Definition session_peer (session_id : Z) (n : Node N) : option Z := n_sessions n !! session_id.

(** [invalidate_session_if] *)
Definition invalidate_session_if (r : Z) (expected : option Z) (request_reconnect : bool)
    : HN unit :=
  let! p := load r in
  if match expected with
     | Some sid => match ps_active p with
                   | Some s => negb (as_session_id s =? sid)
                   | None => true
                   end
     | None => false
     end
  then hret tt
  else
    let! _ := update r (set_ps_active None) in
    let! _ := match ps_active p with
              | Some s => remove_session r (as_session_id s)
              | None => hret tt
              end in
    let disconnected := bool_decide (is_Some (ps_active p)) in
    let had_attempt := match ps_attempt p with Some _ => true | None => false end in
    let! _ := update r (set_ps_attempt None) in
    let! _ := update r (set_ps_queue []) in
    let! _ := (if request_reconnect && (disconnected || had_attempt)
               then update r (fun p => set_ps_reconnect
                      (mkReconnect true (rc_running (ps_reconnect p)) 0) p)
               else hret tt) in
    let! _ := update r (set_ps_connecting false) in
    if disconnected
    then let! _ := emit (PeerDisconnected (node_id (ps_info p))) in hret tt
    else hret tt.

Definition invalidate_session (r : Z) (request_reconnect : bool) : HN unit :=
  invalidate_session_if r None request_reconnect.

Definition schedule_reconnect (r : Z) : HN unit :=
  let! n := hget in
  let p := peer_at r n in
  if negb (n_started n) || n_stopping n || negb (ps_online p) then hret tt
  else if negb (rc_requested (ps_reconnect p)) || rc_running (ps_reconnect p)
          || (MAX_RECONNECT_ATTEMPTS <=? rc_attempts (ps_reconnect p))
  then hret tt
  else
    let! _ := update r (fun p => set_ps_reconnect
                (mkReconnect (rc_requested (ps_reconnect p)) true (rc_attempts (ps_reconnect p))) p) in
    let! _ := emit (PeerReconnectRequested (node_id (ps_info p))) in
    spawn (ReconnectTask r).

(** Run a step on every element of a list. *)
Fixpoint for_each {A} (f : A -> HN unit) (l : list A) : HN unit :=
  match l with
  | [] => hret tt
  | x :: l => let! _ := f x in for_each f l
  end.
End Steps.

(** A peer after a change to one of them. *)
Lemma peer_at_update {N} r f (n : Node N) r' :
  peer_at r' (update_at r f n) = peer_at r' n
  \/ r' = r /\ peer_at r' (update_at r f n) = f (peer_at r n).
Proof.
  unfold peer_at, update_at. cbn. rewrite !lookup_total_alt.
  destruct (decide (r' = r)) as [->|Hne]; [|left; by rewrite lookup_alter_ne].
  rewrite lookup_alter_eq. destruct (n_heap n !! r); [by right | by left].
Qed.

Lemma peer_at_active {N} r s (n : Node N) (f : PeerState N -> PeerState N) :
  ps_active (peer_at r n) = Some s -> peer_at r (update_at r f n) = f (peer_at r n).
Proof.
  unfold peer_at, update_at. cbn. rewrite !lookup_total_alt, lookup_alter_eq.
  by destruct (n_heap n !! r).
Qed.

(** [send_packet] *)
Definition send_packet {N} (w : World) (target : SocketAddr) (ty : PacketType) (sid seq : Z)
    (payload : bytes) : handler (Node N) CoreError unit :=
  let! h := hlift (rmap_err Core_Protocol (Header_new ty sid seq (length payload))) in
  let! packet := hlift (rmap_err Core_Protocol (WirePacket_encode (mkWirePacket h payload))) in
  let! sent := udp_send w target packet in
  if sent then hret tt else hfail Core_Io.

(** [peer_for] *)
Definition node_peer_for {N} (id : bytes) : handler (Node N) CoreError Z :=
  fun n => (ok_or (n_peers n !! id) (Core_UnknownPeer id), n).

(** ** A new node *)

Definition DATA_WORKER_MIN : Z := 4.
Definition DATA_WORKER_MAX : Z := 16.

(** [data_worker_count] for what [available_parallelism] reports. *)
Definition data_worker_count (parallelism : option Z) : Z :=
  match parallelism with
  | None => DATA_WORKER_MIN
  | Some p => Z.max DATA_WORKER_MIN (Z.min p DATA_WORKER_MAX)
  end.

(** The node [VelaNodeBuilder::build] makes. *)
Definition node_new {N} (cfg : NodeConfig) (parallelism : option Z) : Node N :=
  mkNode ∅ 0 ∅ ∅ (RouteTable_new (ip_addresses (cfg_virtual_ipv4 cfg) (cfg_virtual_ipv6 cfg)))
    (cfg_network_id cfg) 0 U64_MAX (cfg_virtual_ipv4 cfg) (cfg_virtual_ipv6 cfg) ∅ [] []
    (replicate (Z.to_nat (data_worker_count parallelism)) []) TransportReceiveCounters_default
    false false [] [] [].

(** [start] and [shutdown], apart from the tasks and the socket. *)
Definition start {N} (n : Node N) : Node N := set_n_started true n.
Definition shutdown {N} (n : Node N) : Node N := set_n_stun_waiters ∅ (set_n_stopping true n).

(** [next_data_event_batch] and [next_control_event_batch]: the events up to a
    limit, and the node without them. *)
Definition next_data_event_batch {N} (limit : nat) (n : Node N) : list VelaEvent * Node N :=
  (take limit (n_data_events n), set_n_data_events (drop limit (n_data_events n)) n).
Definition next_control_event_batch {N} (limit : nat) (n : Node N) : list VelaEvent * Node N :=
  (take limit (n_control_events n), set_n_control_events (drop limit (n_control_events n)) n).

(** [next_event_batch]: control events come first. *)
Definition next_event_batch {N} (limit : nat) (n : Node N) : list VelaEvent * Node N :=
  let '(control, n) := next_control_event_batch limit n in
  let '(data, n) := next_data_event_batch (limit - length control) n in
  (control ++ data, n).
