(* ===== verification/NodePeers.v ===== *)
(** * Membership of a node: peers, routes and snapshots

    [register_peer], [remove_peer] and [apply_snapshot] of [vela-core/src/lib.rs]:
    the peer table and the host routes, driven by the coordinator's snapshots. *)
From S2P Require Import Prelude Net Encoding Wire NodeId Snapshot SignedBytes Crypto Ip Replay Path Handshake NodeState.

Section Membership.
Context {HH : Hash} {HSg : SignatureOps} {N : Type}.
Context (parse_credential : bytes -> option MembershipCredential).
Context (cfg : NodeConfig) (me : Local).

(** [identity.public().node_id] *)
Definition my_id : bytes := pid_node_id (Identity_public (signing_secret me) (local_noise_public me)).

Abbreviation HM A := (handler (Node N) CoreError A).

Definition remove_routes (l : list IpAddr) (t : RouteTable) : RouteTable :=
  fold_left (fun t a => snd (route_remove t a)) l t.

Definition insert_routes (l : list IpAddr) (id : bytes) (t : RouteTable) : RouteTable :=
  fold_left (fun t a => route_insert t a id) l t.

(** What [register_peer] and [remove_peer] do to the peer they take out; the one
    reports only a session that was open, the other always. *)
Definition retire (r : Z) (who : bytes) (always_notify : bool) : HM unit :=
  let! p := load r in
  let! _ := update r (set_ps_online false) in
  let! _ := update r (fun p => set_ps_reconnect
              (mkReconnect false (rc_running (ps_reconnect p)) (rc_attempts (ps_reconnect p))) p) in
  let! _ := update r (set_ps_active None) in
  let! _ := match ps_active p with
            | Some s => remove_session r (as_session_id s)
            | None => hret tt
            end in
  let! _ := update r (set_ps_attempt None) in
  let! _ := update r (set_ps_queue []) in
  if always_notify || bool_decide (is_Some (ps_active p))
  then let! _ := emit (PeerDisconnected who) in hret tt
  else hret tt.

(** The replacement [register_peer] makes while it holds both tables: the new peer
    takes the place of the old one, and so do its routes. *)
Definition install_peer (info : PeerInfo) (n : Node N) : Node N :=
  let r := n_next_ref n in
  let x := set_n_next_ref (r + 1)
             (set_n_heap (<[r := PeerState_new parse_credential info (server_public_key cfg)]> (n_heap n)) n) in
  let x := set_n_peers (<[node_id info := r]> (n_peers n)) x in
  let x := match n_peers n !! node_id info with
           | Some r => set_n_routes (remove_routes (peer_addresses (ps_info (peer_at r x))) (n_routes n)) x
           | None => x
           end in
  set_n_routes (insert_routes (peer_addresses info) (node_id info) (n_routes x)) x.

Definition register_peer (w : World) (info : PeerInfo) : HM unit :=
  let! _ := hlift (validate_peer_info info) in
  let! _ := hlift (validate_peer_membership parse_credential info (server_public_key cfg) (w_unix w)) in
  let id := node_id info in
  let! n := hget in
  let previous := n_peers n !! id in
  if match previous with Some r => bool_decide (ps_info (peer_at r n) = info) | None => false end
  then match previous with
       | Some r => update r (set_ps_online true)
       | None => hret tt
       end
  else
    let! _ := hmodify (install_peer info) in
    match previous with
    | Some r => retire r (node_id (ps_info (peer_at r n))) false
    | None => hret tt
    end.

(** The same for [remove_peer]. *)
Definition uninstall_peer (id : bytes) (r : Z) (n : Node N) : Node N :=
  set_n_routes (remove_routes (peer_addresses (ps_info (peer_at r n))) (n_routes n))
    (set_n_peers (delete id (n_peers n)) n).

Definition remove_peer (id : bytes) : HM bool :=
  let! n := hget in
  match n_peers n !! id with
  | None => hret false
  | Some r =>
      let! _ := hmodify (uninstall_peer id r) in
      let! _ := retire r id true in
      hret true
  end.

(** The checks of [apply_snapshot] before it changes anything; they give the
    addresses of the node itself. *)
Definition check_snapshot (w : World) (sn : NetworkSnapshot) (n : Node N)
    : result PeerInfo CoreError :=
  let? _ := match server_public_key cfg with
            | Some key => rmap_err Core_Crypto (verify_snapshot sn key (w_unix w))
            | None => Ok tt
            end in
  let? _ := rmap_err Core_Protocol (validate blake3 sn) in
  if expires_at sn <=? w_unix w then Err Core_SnapshotExpired
  else if negb (bool_decide (cfg_network_id cfg = replicate 16 0))
          && negb (bool_decide (cfg_network_id cfg = network_id sn)) then Err NetworkMismatch
  else if generation sn <? n_snapshot_generation n then Err StaleSnapshot
  else
    let? local := ok_or (List.find (fun p => bool_decide (node_id p = my_id)) (peers sn))
                    LocalPeerMissing in
    let? _ := validate_peer_info local in
    match peer_addresses local with
    | [] => Err LocalAddressMissing
    | _ => Ok local
    end.

(** The new record of a known peer, after its session is closed if it cannot be
    kept. *)
Definition refresh_peer (r : Z) (info : PeerInfo) (online close : bool) : HM unit :=
  let! _ := (if close then invalidate_session r true else hret tt) in
  let! _ := update r (update_info parse_credential info (server_public_key cfg)) in
  update r (set_ps_online online).

(** One turn of the loop over the members: the replacement table and the peers to
    reconnect, with their ids. *)
Definition apply_peer (w : World) (online_peers : list bytes) (old : gmap bytes Z)
    (info : PeerInfo) (replacement : gmap bytes Z) (reconnect : list (bytes * Z))
    : HM (gmap bytes Z * list (bytes * Z)) :=
  let! _ := hlift (validate_peer_info info) in
  let! _ := hlift (validate_peer_membership parse_credential info (server_public_key cfg) (w_unix w)) in
  let id := node_id info in
  let online := bool_decide (id ∈ online_peers) in
  if bool_decide (id = my_id) then hret (replacement, reconnect)
  else
    match old !! id with
    | Some r =>
        let! p := load r in
        let! _ := refresh_peer r info online (negb (can_retain_session p info)) in
        let! p := load r in
        let again := online && rc_requested (ps_reconnect p) in
        let! _ := (if again
                   then update r (fun p => set_ps_reconnect
                          (mkReconnect (rc_requested (ps_reconnect p)) (rc_running (ps_reconnect p)) 0) p)
                   else hret tt) in
        hret (<[id := r]> replacement,
              if again && negb (bool_decide (id ∈ map fst reconnect))
              then reconnect ++ [(id, r)] else reconnect)
    | None =>
        let! r := alloc (with_online parse_credential info online (server_public_key cfg)) in
        hret (<[id := r]> replacement, reconnect)
    end.

Fixpoint apply_peers (w : World) (online_peers : list bytes) (old : gmap bytes Z)
    (infos : list PeerInfo) (replacement : gmap bytes Z) (reconnect : list (bytes * Z))
    : HM (gmap bytes Z * list (bytes * Z)) :=
  match infos with
  | [] => hret (replacement, reconnect)
  | info :: rest =>
      let! (replacement, reconnect) := apply_peer w online_peers old info replacement reconnect in
      apply_peers w online_peers old rest replacement reconnect
  end.

(** The route table of a replacement. *)
Definition routes_of (n : Node N) (local : PeerInfo) (replacement : gmap bytes Z) : RouteTable :=
  fold_left (fun t kv => let info := ps_info (peer_at kv.2 n) in
                         insert_routes (peer_addresses info) (node_id info) t)
    (map_to_list replacement) (RouteTable_new (peer_addresses local)).

(** Peers that are no longer members. *)
Definition drop_member (r : Z) : HM unit :=
  let! _ := update r (set_ps_online false) in
  let! _ := update r (fun p => set_ps_reconnect
              (mkReconnect false (rc_running (ps_reconnect p)) (rc_attempts (ps_reconnect p))) p) in
  invalidate_session r false.

Definition removed_members (old replacement : gmap bytes Z) : list Z :=
  map snd (List.filter (fun kv => bool_decide (replacement !! kv.1 = None)) (map_to_list old)).

(** The replacement of the membership view. *)
Definition install_snapshot (sn : NetworkSnapshot) (local : PeerInfo) (replacement : gmap bytes Z)
    (n : Node N) : Node N :=
  set_n_snapshot_expires_at (expires_at sn)
    (set_n_snapshot_generation (generation sn)
       (set_n_local_ipv6 (virtual_ipv6 local)
          (set_n_local_ipv4 (virtual_ipv4 local)
             (set_n_network_id (network_id sn)
                (set_n_peers replacement
                   (set_n_routes (routes_of n local replacement) n)))))).

Definition apply_snapshot (w : World) (sn : NetworkSnapshot) : HM unit :=
  let! n := hget in
  let! local := hlift (check_snapshot w sn n) in
  let! (replacement, reconnect) :=
    apply_peers w (online_peers sn) (n_peers n) (peers sn) ∅ [] in
  let! n := hget in
  let old := n_peers n in
  let! _ := hmodify (install_snapshot sn local replacement) in
  let! _ := for_each drop_member (removed_members old replacement) in
  for_each (fun kv => schedule_reconnect kv.2) reconnect.
(** ** Route tables *)

Lemma elem_cons_bool (a b : IpAddr) l :
  bool_decide (a ∈ b :: l) = if decide (a = b) then true else bool_decide (a ∈ l).
Proof. case_decide; [apply bool_decide_eq_true_2 | apply bool_decide_ext]; set_solver. Qed.

Lemma insert_routes_spec l id t :
  local (insert_routes l id t) = local t
  /\ forall a, peer_for (insert_routes l id t) a
               = if bool_decide (a ∈ l) then Some id else peer_for t a.
Proof.
  revert t; induction l as [|b l IH]; intros t; [done|]. cbn [insert_routes fold_left].
  destruct (IH (route_insert t b id)) as [Hl Hp]. fold (insert_routes l id (route_insert t b id)).
  split; [done|]. intros a. rewrite Hp, (elem_cons_bool a b l). unfold peer_for, route_insert. cbn.
  destruct (decide (a = b)) as [->|Hne].
  - rewrite lookup_insert_eq. by case_bool_decide.
  - rewrite lookup_insert_ne by done. by case_bool_decide.
Qed.

Lemma remove_routes_spec l t :
  local (remove_routes l t) = local t
  /\ forall a, peer_for (remove_routes l t) a
               = if bool_decide (a ∈ l) then None else peer_for t a.
Proof.
  revert t; induction l as [|b l IH]; intros t; [done|]. cbn [remove_routes fold_left].
  destruct (IH (snd (route_remove t b))) as [Hl Hp]. fold (remove_routes l (snd (route_remove t b))).
  split; [done|]. intros a. rewrite Hp, (elem_cons_bool a b l). unfold peer_for, route_remove. cbn.
  destruct (decide (a = b)) as [->|Hne].
  - rewrite lookup_delete_eq. by case_bool_decide.
  - rewrite lookup_delete_ne by done. by case_bool_decide.
Qed.

(** ** The table of peers *)

(** A peer with its address in the heap. *)
Definition peer_named (n : Node N) (id : bytes) (r : Z) : Prop :=
  exists p, n_heap n !! r = Some p /\ ps_node_id p = id /\ node_id (ps_info p) = id.

Definition heap_bounded (n : Node N) : Prop :=
  forall r p, n_heap n !! r = Some p -> r < n_next_ref n.

(** The peer table holds peers under their own ids. *)
Definition peers_wf (n : Node N) : Prop :=
  heap_bounded n /\ forall id r, n_peers n !! id = Some r -> peer_named n id r.

(** Every route leads to a peer that has the address. *)
Definition routes_wf (n : Node N) : Prop :=
  forall a id, peer_for (n_routes n) a = Some id ->
  exists r, n_peers n !! id = Some r /\ a ∈ peer_addresses (ps_info (peer_at r n)).

Lemma peer_named_inj n id1 id2 r : peer_named n id1 r -> peer_named n id2 r -> id1 = id2.
Proof. intros (p & H1 & <- & _) (q & H2 & <- & _). congruence. Qed.

(** A change to one peer that keeps its name, its record and whether it is
    online, and nothing of the node's membership. *)
Definition frame (r : Z) (n x : Node N) : Prop :=
  n_peers x = n_peers n /\ n_routes x = n_routes n /\ n_next_ref x = n_next_ref n
  /\ n_network_id x = n_network_id n
  /\ n_snapshot_generation x = n_snapshot_generation n
  /\ n_snapshot_expires_at x = n_snapshot_expires_at n
  /\ (forall r', r' <> r -> n_heap x !! r' = n_heap n !! r')
  /\ (forall p, n_heap n !! r = Some p ->
        exists p', n_heap x !! r = Some p' /\ ps_node_id p' = ps_node_id p
                   /\ ps_info p' = ps_info p /\ ps_online p' = ps_online p).

Lemma frame_refl r n : frame r n n.
Proof. split_and!; try done. intros p Hp. by exists p. Qed.

Lemma frame_modify {E} r n (f : Node N -> Node N) :
  (forall x, frame r x (f x)) -> keeps (frame r n) (hmodify f : handler (Node N) E unit).
Proof.
  intros Hf x (H1 & H2 & H3 & H4 & H5 & H6 & H7 & H8).
  destruct (Hf x) as (F1 & F2 & F3 & F4 & F5 & F6 & F7 & F8). cbn.
  split_and!; try congruence.
  - intros r' Hr. by rewrite F7, H7.
  - intros p Hp. destruct (H8 p Hp) as (p' & Hp' & ? & ? & ?).
    destruct (F8 p' Hp') as (q & Hq & ? & ? & ?). exists q. split_and!; congruence.
Qed.

Lemma frame_update {E} r n (f : PeerState N -> PeerState N) :
  (forall p, ps_node_id (f p) = ps_node_id p /\ ps_info (f p) = ps_info p
             /\ ps_online (f p) = ps_online p) ->
  keeps (frame r n) (update r f : handler (Node N) E unit).
Proof.
  intros Hf. apply frame_modify. intros x. split_and!; try done.
  - intros r' Hr. cbn. by rewrite lookup_alter_ne.
  - intros p Hp. exists (f p). split; [cbn; by rewrite lookup_alter_eq, Hp | apply Hf].
Qed.

Lemma frame_emit {E} r n ev : keeps (frame r n) (emit ev : handler (Node N) E bool).
Proof.
  intros x Hx. unfold emit. destruct ev; try exact Hx. by destruct (_ <? _)%nat.
Qed.

Lemma frame_remove_session {E} r n r' sid :
  keeps (frame r n) (remove_session r' sid : handler (Node N) E unit).
Proof. intros x Hx. cbn. by case_bool_decide. Qed.

Lemma frame_spawn {E} r n t : keeps (frame r n) (spawn t : handler (Node N) E unit).
Proof. by intros x Hx. Qed.

Lemma frame_load {E} r n r' : keeps (frame r n) (load r' : handler (Node N) E _).
Proof. by intros x Hx. Qed.

Ltac frame_steps :=
  keeps_walk;
  repeat match goal with
  | |- keeps (frame _ _) (load _) => apply frame_load
  | |- keeps (frame _ _) (emit _) => apply frame_emit
  | |- keeps (frame _ _) (spawn _) => apply frame_spawn
  | |- keeps (frame _ _) (remove_session _ _) => apply frame_remove_session
  | |- keeps (frame _ _) (update _ _) => by apply frame_update
  end.

Lemma frame_invalidate {E} r n expected request :
  keeps (frame r n) (invalidate_session_if r expected request : handler (Node N) E unit).
Proof. unfold invalidate_session_if. frame_steps. Qed.

(** Invalidation does not fail. *)
Lemma invalidate_total {E} r expected request (n : Node N) :
  exists x, (invalidate_session_if r expected request : handler (Node N) E unit) n = (Ok tt, x).
Proof.
  unfold invalidate_session_if, hbind, load, update, hmodify, remove_session, emit, hret.
  repeat case_match; simplify_eq; eauto.
Qed.

Lemma frame_schedule {E} r n : keeps (frame r n) (schedule_reconnect r : handler (Node N) E unit).
Proof. unfold schedule_reconnect. frame_steps. Qed.
(** ** Applying a snapshot *)

Definition same_membership (n x : Node N) : Prop :=
  n_peers x = n_peers n /\ n_routes x = n_routes n /\ n_network_id x = n_network_id n
  /\ n_snapshot_generation x = n_snapshot_generation n
  /\ n_snapshot_expires_at x = n_snapshot_expires_at n.

Lemma frame_same r n x : frame r n x -> same_membership n x.
Proof. intros (? & ? & _ & ? & ? & ? & _). by split_and!. Qed.

(** A peer of the replacement table: it carries the record of a member. *)
Definition member_at (online : list bytes) (done : list PeerInfo) (n : Node N)
    (id : bytes) (r : Z) : Prop :=
  exists p, n_heap n !! r = Some p /\ ps_node_id p = id /\ node_id (ps_info p) = id
            /\ ps_info p ∈ done /\ id <> my_id /\ ps_online p = bool_decide (id ∈ online).

Definition loop_inv (online : list bytes) (old : gmap bytes Z) (done : list PeerInfo)
    (replacement : gmap bytes Z) (n : Node N) : Prop :=
  heap_bounded n
  /\ (forall id r, old !! id = Some r -> peer_named n id r)
  /\ (forall id r, replacement !! id = Some r -> member_at online done n id r)
  /\ (forall p, p ∈ done -> node_id p <> my_id -> is_Some (replacement !! node_id p)).

(** The heap with one peer changed or added. *)
Definition heap_set (r : Z) (p : PeerState N) (n x : Node N) : Prop :=
  n_heap x !! r = Some p /\ forall r', r' <> r -> n_heap x !! r' = n_heap n !! r'.

Lemma loop_inv_step online old done rep n x info r p :
  loop_inv online old done rep n ->
  node_id info ∉ map node_id done -> node_id info <> my_id ->
  heap_set r p n x -> ps_node_id p = node_id info -> ps_info p = info ->
  ps_online p = bool_decide (node_id info ∈ online) ->
  heap_bounded x ->
  (forall id, peer_named n id r -> id = node_id info) ->
  loop_inv online old (done ++ [info]) (<[node_id info := r]> rep) x.
Proof.
  intros (Hb & Hold & Hrep & Hdone) Hnew Hme [Hr Hothers] Hn Hi Ho Hbx Huniq. split_and!.
  - done.
  - intros id r' Hl. destruct (decide (r' = r)) as [->|Hne].
    + rewrite (Huniq id (Hold _ _ Hl)). exists p. split_and!; [done..|]. by rewrite Hi.
    + destruct (Hold _ _ Hl) as (q & Hq & ?). exists q. by rewrite Hothers.
  - intros id r' [[<- <-]|[Hne Hl]]%lookup_insert_Some.
    + exists p. split_and!; [done..|by rewrite Hi| |done|done]. rewrite Hi. set_solver.
    + destruct (Hrep _ _ Hl) as (q & Hq & Hqn & Hqi & Hqd & ? & ?).
      assert (r' <> r). { intros ->. apply Hne. symmetry. apply Huniq. by exists q. }
      exists q. rewrite Hothers by done. split_and!; try done. set_solver.
  - intros q [Hq|Hq]%elem_of_app Hqme.
    + destruct (decide (node_id q = node_id info)) as [E|E].
      * exfalso. apply Hnew. rewrite <- E. apply list_elem_of_fmap. by exists q.
      * rewrite lookup_insert_ne by done. by apply Hdone.
    + apply list_elem_of_singleton in Hq as ->. rewrite lookup_insert_eq. by eexists.
Qed.

Lemma loop_inv_self online old done rep n info :
  loop_inv online old done rep n -> node_id info = my_id ->
  loop_inv online old (done ++ [info]) rep n.
Proof.
  intros (Hb & Hold & Hrep & Hdone) Hme. split_and!; [done..| |].
  - intros id r Hl. destruct (Hrep _ _ Hl) as (q & ? & ? & ? & ? & ? & ?).
    exists q. split_and!; try done. set_solver.
  - intros q [Hq|Hq]%elem_of_app Hqme; [by apply Hdone|].
    by apply list_elem_of_singleton in Hq as ->.
Qed.

(** What the loop does to a peer that is already known. *)
Lemma known_peer_effect r info online close n p :
  n_heap n !! r = Some p ->
  exists x p', refresh_peer r info online close n = (Ok tt, x) /\ heap_set r p' n x
    /\ n_next_ref x = n_next_ref n /\ same_membership n x
    /\ ps_node_id p' = ps_node_id p /\ ps_info p' = info /\ ps_online p' = online.
Proof.
  intros Hp.
  assert (H1 : exists x p1, (if close then invalidate_session r true else hret tt : HM unit) n
            = (Ok tt, x) /\ frame r n x /\ n_heap x !! r = Some p1 /\ ps_node_id p1 = ps_node_id p).
  { destruct close.
    - pose proof (frame_invalidate (E := CoreError) r n None true n (frame_refl r n)) as Hf.
      pose proof Hf as (_ & _ & _ & _ & _ & _ & _ & Hr). destruct (Hr p Hp) as (p1 & Hp1 & Hn1 & _).
      destruct (invalidate_total (E := CoreError) r None true n) as [x Hx].
      unfold invalidate_session. rewrite Hx in *. eauto 10.
    - exists n, p. split_and!; [done|apply frame_refl|done..]. }
  destruct H1 as (x & p1 & Hx & Hf & Hp1 & Hn1).
  unfold refresh_peer. unfold hbind at 1. rewrite Hx. unfold hbind, update, hmodify, update_at.
  eexists _, (set_ps_online online (update_info parse_credential info (server_public_key cfg) p1)).
  split; [reflexivity|]. destruct Hf as (F1 & F2 & F3 & F4 & F5 & F6 & F7 & F8).
  unfold heap_set, same_membership. split_and!; cbn; try done.
  - by rewrite lookup_alter_eq, lookup_alter_eq, Hp1.
  - intros r' Hr'. rewrite !lookup_alter_ne by done. by apply F7.
Qed.
Lemma heap_set_frame r p n x y :
  heap_set r p n x -> frame r x y ->
  exists p', heap_set r p' n y /\ ps_node_id p' = ps_node_id p
             /\ ps_info p' = ps_info p /\ ps_online p' = ps_online p.
Proof.
  intros [Hr Ho] (_ & _ & _ & _ & _ & _ & F7 & F8). destruct (F8 p Hr) as (p' & Hp' & ?).
  exists p'. split; [|done]. split; [done|]. intros r' Hne. by rewrite F7, Ho.
Qed.

Lemma heap_set_bounded r p n x :
  heap_set r p n x -> heap_bounded n -> r < n_next_ref x -> n_next_ref n <= n_next_ref x ->
  heap_bounded x.
Proof.
  intros [Hr Ho] Hb Hlt Hle r' q Hq. destruct (decide (r' = r)) as [->|Hne]; [done|].
  rewrite Ho in Hq by done. apply Hb in Hq. lia.
Qed.

Lemma same_membership_trans n x y :
  same_membership n x -> same_membership x y -> same_membership n y.
Proof.
  intros (? & ? & ? & ? & ?) (? & ? & ? & ? & ?). unfold same_membership. split_and!; congruence.
Qed.

(** The turn for a known peer, up to the result. *)
Lemma apply_known_spec w online old info rep rc r n rep' rc' n' :
  old !! node_id info = Some r -> peer_named n (node_id info) r -> heap_bounded n ->
  node_id info <> my_id ->
  apply_peer w online old info rep rc n = (Ok (rep', rc'), n') ->
  rep' = <[node_id info := r]> rep
  /\ same_membership n n'
  /\ n_next_ref n' = n_next_ref n
  /\ exists p, heap_set r p n n' /\ ps_node_id p = node_id info /\ ps_info p = info
               /\ ps_online p = bool_decide (node_id info ∈ online).
Proof.
  intros Hl (p & Hp & Hn & _) Hb Hme E. unfold apply_peer in E.
  apply hbind_Ok in E as ([] & ? & [= _ <-] & E). apply hbind_Ok in E as ([] & ? & [= _ <-] & E).
  rewrite (bool_decide_eq_false_2 _ Hme), Hl in E.
  apply hbind_Ok in E as (q & ? & [= _ <-] & E). apply hbind_Ok in E as ([] & x & Ex & E).
  destruct (known_peer_effect r info (bool_decide (node_id info ∈ online))
              (negb (can_retain_session q info)) n p Hp)
    as (x' & p1 & Ex' & Hset & Hnext & Hsame & Hn1 & Hi1 & Ho1).
  rewrite Ex' in Ex. injection Ex as <-.
  apply hbind_Ok in E as (q2 & ? & [= <- <-] & E). apply hbind_Ok in E as ([] & y & Ey & [= <- _ <-]).
  assert (Hf : frame r x' y).
  { revert Ey. destruct (_ && _).
    - intros Ey. pose proof (frame_update (E := CoreError) r x'
        (fun p => set_ps_reconnect (mkReconnect (rc_requested (ps_reconnect p))
           (rc_running (ps_reconnect p)) 0) p) ltac:(done) x' (frame_refl r x')) as Hk.
      by rewrite Ey in Hk.
    - intros [= <-]. apply frame_refl. }
  split; [done|]. split; [by eapply same_membership_trans, frame_same|].
  split; [destruct Hf as (_ & _ & -> & _); done|].
  destruct (heap_set_frame _ _ _ _ _ Hset Hf) as (p2 & ? & ? & ? & ?).
  exists p2. split_and!; congruence.
Qed.

Lemma apply_peer_spec w online old done info rep rc n rep' rc' n' :
  apply_peer w online old info rep rc n = (Ok (rep', rc'), n') ->
  loop_inv online old done rep n -> node_id info ∉ map node_id done ->
  loop_inv online old (done ++ [info]) rep' n' /\ same_membership n n'.
Proof.
  intros E HL Hnew. pose proof HL as (Hb & Hold & Hrep & Hdone).
  destruct (decide (node_id info = my_id)) as [Hme|Hme].
  { unfold apply_peer in E. apply hbind_Ok in E as ([] & ? & [= _ <-] & E).
    apply hbind_Ok in E as ([] & ? & [= _ <-] & E).
    rewrite bool_decide_eq_true_2 in E by done. injection E as <- <- <-.
    split; [by apply loop_inv_self | done]. }
  destruct (old !! node_id info) as [r|] eqn:Hl.
  - pose proof (Hold _ _ Hl) as Hnamed. pose proof Hnamed as (p0 & Hp0 & _).
    destruct (apply_known_spec w online old info rep rc r n rep' rc' n' Hl Hnamed Hb Hme E)
      as (-> & Hsame & Hnext & p & Hset & Hn & Hi & Ho).
    split; [|done]. eapply loop_inv_step; try done.
    + eapply heap_set_bounded; try done; rewrite Hnext; [by eapply Hb | done].
    + intros id Hid. by eapply peer_named_inj.
  - unfold apply_peer in E. apply hbind_Ok in E as ([] & ? & [= _ <-] & E).
    apply hbind_Ok in E as ([] & ? & [= _ <-] & E).
    rewrite (bool_decide_eq_false_2 _ Hme), Hl in E.
    apply hbind_Ok in E as (r & x & Ea & [= <- <- <-]). unfold alloc in Ea. injection Ea as <- <-.
    assert (Hfresh : n_heap n !! n_next_ref n = None).
    { destruct (n_heap n !! n_next_ref n) eqn:Eh; [|done]. apply Hb in Eh. lia. }
    split; [|done]. eapply loop_inv_step; try done.
    + split; cbn; [apply lookup_insert_eq | intros r' Hne; by rewrite lookup_insert_ne].
    + done.
    + done.
    + done.
    + intros r' q Hq. cbn in Hq |- *. apply lookup_insert_Some in Hq as [[<- _]|[_ Hq]]; [lia|].
      apply Hb in Hq. lia.
    + intros id (q & Hq & _). congruence.
Qed.

Lemma apply_peers_spec w online old infos done rep rc n rep' rc' n' :
  apply_peers w online old infos rep rc n = (Ok (rep', rc'), n') ->
  loop_inv online old done rep n -> NoDup (map node_id (done ++ infos)) ->
  loop_inv online old (done ++ infos) rep' n' /\ same_membership n n'.
Proof.
  revert done rep rc n; induction infos as [|info infos IH]; intros done rep rc n E HL Hnd.
  - injection E as <- <- <-. by rewrite app_nil_r.
  - cbn [apply_peers] in E. apply hbind_Ok in E as ([rep1 rc1] & n1 & E1 & E2).
    assert (Hnew : node_id info ∉ map node_id done).
    { rewrite map_app in Hnd. apply NoDup_app in Hnd as (_ & Hd & _). intros Hin.
      apply (Hd _ Hin). cbn. set_solver. }
    destruct (apply_peer_spec _ _ _ _ _ _ _ _ _ _ _ E1 HL Hnew) as [HL1 Hs1].
    destruct (IH (done ++ [info]) rep1 rc1 n1 E2 HL1) as [HL2 Hs2].
    { by rewrite <- app_assoc. }
    rewrite <- app_assoc in HL2. split; [done|]. by eapply same_membership_trans.
Qed.
(** A property that every step of a loop keeps. *)
Lemma keeps_for_each {A} (P : Node N -> Prop) (f : A -> HM unit) l :
  Forall (fun x => keeps P (f x)) l -> keeps P (for_each f l).
Proof.
  induction 1 as [|x l Hx _ IH]; cbn [for_each]; [apply keeps_ret|].
  apply keeps_bind; [done|]. by intros _.
Qed.

(** The view a snapshot leaves: the table, the routes and the members' records. *)
Definition installed (sn : NetworkSnapshot) (replacement : gmap bytes Z) (t : RouteTable)
    (n : Node N) : Prop :=
  n_peers n = replacement /\ n_routes n = t /\ n_network_id n = network_id sn
  /\ n_snapshot_generation n = generation sn /\ n_snapshot_expires_at n = expires_at sn
  /\ forall id r, replacement !! id = Some r -> member_at (online_peers sn) (peers sn) n id r.

Lemma installed_frame sn rep t r n x : installed sn rep t n -> frame r n x -> installed sn rep t x.
Proof.
  intros (H1 & H2 & H3 & H4 & H5 & H6) (F1 & F2 & _ & F4 & F5 & F6 & F7 & F8).
  unfold installed. split_and!; try congruence. intros id r' Hl.
  destruct (H6 id r' Hl) as (p & Hp & Hn & Hi & Hd & Hme & Ho). destruct (decide (r' = r)) as [->|Hne].
  - destruct (F8 p Hp) as (q & Hq & ? & Eq & ?). exists q. rewrite Eq. split_and!; congruence.
  - exists p. rewrite F7 by done. by split_and!.
Qed.

Lemma keeps_installed_frame sn rep t r (m : HM unit) :
  (forall n, keeps (frame r n) m) -> keeps (installed sn rep t) m.
Proof. intros Hm n Hn. apply (installed_frame _ _ _ r n); [done|]. apply Hm, frame_refl. Qed.

Lemma keeps_installed_update sn rep t r f :
  (forall id, rep !! id <> Some r) -> keeps (installed sn rep t) (update r f : HM unit).
Proof.
  intros Hr n (H1 & H2 & H3 & H4 & H5 & H6). unfold installed. cbn. split_and!; try done.
  intros id r' Hl. destruct (H6 id r' Hl) as (p & Hp & ?). exists p. cbn.
  rewrite lookup_alter_ne; [done|]. intros <-. by apply (Hr id).
Qed.

Lemma keeps_drop_member sn rep t r :
  (forall id, rep !! id <> Some r) -> keeps (installed sn rep t) (drop_member r).
Proof.
  intros Hr. unfold drop_member.
  apply keeps_bind; [by apply keeps_installed_update | intros _].
  apply keeps_bind; [by apply keeps_installed_update | intros _].
  apply (keeps_installed_frame _ _ _ r). intros n. apply frame_invalidate.
Qed.

Lemma removed_not_replaced online old done rep n r :
  loop_inv online old done rep n -> r ∈ removed_members old rep -> forall id, rep !! id <> Some r.
Proof.
  intros (_ & Hold & Hrep & _) Hr id Hl. unfold removed_members in Hr.
  apply list_elem_of_fmap in Hr as ([id0 r0] & -> & Hin).
  apply list_elem_of_In, filter_In in Hin as [Hin Hnone]. cbn in *.
  apply list_elem_of_In, elem_of_map_to_list, Hold in Hin. unbool.
  destruct (Hrep _ _ Hl) as (p & Hp & Hn & Hi & _).
  assert (id = id0) as -> by (eapply peer_named_inj; [by exists p | done]). congruence.
Qed.

(** The table of routes of a replacement. *)
Lemma routes_of_local n local rep : Ip.local (routes_of n local rep) = peer_addresses local.
Proof.
  unfold routes_of. set (t := RouteTable_new (peer_addresses local)).
  change (peer_addresses local) with (Ip.local t). generalize t as u; clear t.
  induction (map_to_list rep) as [|kv l IH]; intros u; [done|]. cbn [fold_left].
  rewrite IH. apply insert_routes_spec.
Qed.

Lemma fold_routes_spec (n : Node N) (l : list (bytes * Z)) t a id :
  (forall kv kv', kv ∈ l -> kv' ∈ l -> a ∈ peer_addresses (ps_info (peer_at kv.2 n)) ->
     a ∈ peer_addresses (ps_info (peer_at kv'.2 n)) ->
     node_id (ps_info (peer_at kv.2 n)) = node_id (ps_info (peer_at kv'.2 n))) ->
  peer_for t a = None ->
  peer_for (fold_left (fun t kv => let info := ps_info (peer_at kv.2 n) in
              insert_routes (peer_addresses info) (node_id info) t) l t) a = Some id <->
  exists kv, kv ∈ l /\ a ∈ peer_addresses (ps_info (peer_at kv.2 n))
             /\ node_id (ps_info (peer_at kv.2 n)) = id.
Proof.
  induction l as [|kv l IH] using rev_ind; intros Huniq Ht.
  { cbn. rewrite Ht. split; [done|]. intros (kv & Hkv & _). by apply not_elem_of_nil in Hkv. }
  rewrite fold_left_app. cbn [fold_left]. cbn zeta.
  rewrite (proj2 (insert_routes_spec _ _ _)). case_bool_decide as Ha.
  - split.
    + intros [= <-]. exists kv. set_solver.
    + intros (kv' & Hin & Ha' & <-). f_equal. apply Huniq; set_solver.
  - rewrite IH; [|intros; apply Huniq; set_solver|done]. split.
    + intros (kv' & ? & ?). exists kv'. set_solver.
    + intros (kv' & [Hin|Hin]%elem_of_app & Ha' & Hid); [by exists kv'|].
      apply list_elem_of_singleton in Hin as ->. done.
Qed.
Lemma NoDup_omap_unique {A B} (f : A -> option B) (l : list A) x y b :
  NoDup (omap f l) -> x ∈ l -> y ∈ l -> f x = Some b -> f y = Some b -> x = y.
Proof.
  induction l as [|z l IH]; intros Hnd Hx Hy Ex Ey; [by apply not_elem_of_nil in Hx|].
  cbn in Hnd. apply elem_of_cons in Hx as [->|Hx], Hy as [->|Hy]; [done| | |].
  - rewrite Ex in Hnd. apply NoDup_cons in Hnd as [Hn _]. exfalso. apply Hn.
    apply list_elem_of_omap. by exists y.
  - rewrite Ey in Hnd. apply NoDup_cons in Hnd as [Hn _]. exfalso. apply Hn.
    apply list_elem_of_omap. by exists x.
  - apply IH; try done. destruct (f z); [by apply NoDup_cons in Hnd as [_ ?] | done].
Qed.

(** In a valid snapshot an address has one owner. *)
Lemma address_owner sn p q a :
  validate blake3 sn = Ok tt -> p ∈ peers sn -> q ∈ peers sn ->
  a ∈ peer_addresses p -> a ∈ peer_addresses q -> p = q.
Proof.
  intros Hv Hp Hq Hap Haq. apply validate_distinct in Hv as (_ & H4 & H6).
  unfold peer_addresses, ip_addresses in *.
  destruct (virtual_ipv4 p) eqn:P4, (virtual_ipv6 p) eqn:P6, (virtual_ipv4 q) eqn:Q4,
    (virtual_ipv6 q) eqn:Q6; cbn in Hap, Haq; set_unfold; destruct_or?; simplify_eq;
    eauto using NoDup_omap_unique.
Qed.

Lemma member_peer_at online done n id r :
  member_at online done n id r ->
  node_id (ps_info (peer_at r n)) = id /\ ps_info (peer_at r n) ∈ done /\ id <> my_id.
Proof.
  intros (p & Hp & _ & Hi & Hd & Hme & _). unfold peer_at.
  by rewrite (lookup_total_correct _ _ _ Hp).
Qed.

Lemma routes_of_spec online old sn rep n local a id :
  loop_inv online old (peers sn) rep n -> validate blake3 sn = Ok tt ->
  peer_for (routes_of n local rep) a = Some id <->
  exists p, p ∈ peers sn /\ node_id p = id /\ id <> my_id /\ a ∈ peer_addresses p.
Proof.
  intros (_ & _ & Hrep & Hdone) Hv. unfold routes_of. rewrite fold_routes_spec; [| |done].
  - split.
    + intros ([id' r] & Hin & Ha & <-). apply elem_of_map_to_list, Hrep, member_peer_at in Hin
        as (<- & Hd & Hme). eauto.
    + intros (p & Hp & <- & Hme & Ha). destruct (Hdone p Hp Hme) as [r Hr].
      exists (node_id p, r). pose proof (member_peer_at _ _ _ _ _ (Hrep _ _ Hr)) as (Hi & Hd & _).
      apply validate_distinct in Hv as (Hids & _).
      assert (E : ps_info (peer_at r n) = p) by (by eapply (nodup_key_inj node_id)). cbn [fst snd]. rewrite E.
      split_and!; try done. by apply elem_of_map_to_list.
  - intros [i1 r1] [i2 r2] H1 H2 A1 A2. f_equal.
    apply elem_of_map_to_list, Hrep, member_peer_at in H1 as (_ & D1 & _), H2 as (_ & D2 & _).
    by eapply address_owner.
Qed.

Lemma check_snapshot_Ok w sn n local :
  check_snapshot w sn n = Ok local ->
  validate blake3 sn = Ok tt /\ local ∈ peers sn /\ node_id local = my_id
  /\ n_snapshot_generation n <= generation sn /\ w_unix w < expires_at sn.
Proof.
  unfold check_snapshot. intros E. apply rbind_Ok in E as ([] & _ & E).
  apply rbind_Ok in E as ([] & Hv & E). apply rmap_err_Ok in Hv.
  destruct (Z.leb_spec (expires_at sn) (w_unix w)); [done|].
  destruct (_ && _); [done|]. destruct (Z.ltb_spec (generation sn) (n_snapshot_generation n)); [done|].
  apply rbind_Ok in E as (l & Hf & E). apply rbind_Ok in E as ([] & _ & E).
  destruct (peer_addresses l); [done|]. injection E as <-.
  destruct (List.find _ _) as [q|] eqn:Eq; [|done]. injection Hf as <-.
  apply find_some in Eq as [Hin Hid]. unbool. split_and!; try done. by apply list_elem_of_In.
Qed.

Lemma apply_snapshot_stages w sn n n' :
  peers_wf n -> apply_snapshot w sn n = (Ok tt, n') ->
  exists local rep n1,
    check_snapshot w sn n = Ok local
    /\ loop_inv (online_peers sn) (n_peers n) (peers sn) rep n1
    /\ installed sn rep (routes_of n1 local rep) n'.
Proof.
  intros [Hb Hwf] E. unfold apply_snapshot in E.
  apply hbind_Ok in E as (n0 & ? & [= <- <-] & E). apply hbind_Ok in E as (local & ? & [= Hc <-] & E).
  pose proof (check_snapshot_Ok _ _ _ _ Hc) as (Hv & _). apply validate_distinct in Hv as (Hids & _).
  apply hbind_Ok in E as ([rep rc] & n1 & Ep & E).
  apply (apply_peers_spec _ _ _ _ []) in Ep as [HL (Hpe & Hro & _)].
  2: { split_and!; [done..| |]; intros ?; [by rewrite lookup_empty | set_solver]. }
  2: done.
  apply hbind_Ok in E as (n2 & ? & [= <- <-] & E). apply hbind_Ok in E as ([] & n3 & [= <-] & E).
  exists local, rep, n1. split_and!; [done..|]. rewrite Hpe in E.
  assert (Hi : installed sn rep (routes_of n1 local rep) (install_snapshot sn local rep n1)).
  { split_and!; try done. apply HL. }
  assert (Hk : keeps (installed sn rep (routes_of n1 local rep))
    (hbind (for_each drop_member (removed_members (n_peers n) rep))
       (fun _ => for_each (fun kv => schedule_reconnect kv.2) rc))).
  { apply keeps_bind; [|intros _]; apply keeps_for_each, Forall_forall.
    - intros r Hr. apply keeps_drop_member. by eapply removed_not_replaced.
    - intros [id r] _. apply (keeps_installed_frame _ _ _ r). intros x. apply frame_schedule. }
  specialize (Hk _ Hi). by rewrite E in Hk.
Qed.

(** C17: a snapshot that is applied becomes the node's view: the routes are exactly
    the addresses of the other members, the local addresses exactly the node's own,
    the peer table holds exactly the other members with their records and whether
    they are online, and the snapshot is neither older than the view it replaces
    nor expired. *)
Theorem apply_snapshot_installs w sn n n' :
  peers_wf n -> apply_snapshot w sn n = (Ok tt, n') ->
  (n_snapshot_generation n <= n_snapshot_generation n' /\ n_snapshot_generation n' = generation sn
   /\ n_snapshot_expires_at n' = expires_at sn /\ w_unix w < expires_at sn
   /\ n_network_id n' = network_id sn)
  /\ (forall a, is_local (n_routes n') a = true <->
        exists p, p ∈ peers sn /\ node_id p = my_id /\ a ∈ peer_addresses p)
  /\ (forall a id, peer_for (n_routes n') a = Some id <->
        exists p, p ∈ peers sn /\ node_id p = id /\ id <> my_id /\ a ∈ peer_addresses p)
  /\ (forall id, is_Some (n_peers n' !! id) <->
        exists p, p ∈ peers sn /\ node_id p = id /\ id <> my_id)
  /\ (forall id r, n_peers n' !! id = Some r ->
        exists p, n_heap n' !! r = Some p /\ ps_info p ∈ peers sn /\ node_id (ps_info p) = id
                  /\ ps_online p = bool_decide (id ∈ online_peers sn)).
Proof.
  intros Hwf E. destruct (apply_snapshot_stages _ _ _ _ Hwf E) as (local & rep & n1 & Hc & HL & Hi).
  destruct (check_snapshot_Ok _ _ _ _ Hc) as (Hv & Hloc & Hme & Hgen & Hexp).
  destruct Hi as (Hpe & Hro & Hnet & Hg & He & Hm). rewrite Hpe, Hro. split_and!; try done; try lia.
  - intros a. unfold is_local. rewrite routes_of_local, bool_decide_eq_true. split; [by eauto|].
    intros (p & Hp & Hid & Ha). apply validate_distinct in Hv as (Hids & _).
    by rewrite (nodup_key_inj node_id (peers sn) local p) by (done || congruence).
  - intros a id. by eapply routes_of_spec.
  - intros id. destruct HL as (_ & _ & _ & Hdone). split.
    + intros [r Hr]. destruct (Hm id r Hr) as (p & _ & _ & Hid & Hd & Hne & _). eauto.
    + intros (p & Hp & <- & Hne). by apply Hdone.
  - intros id r Hr. destruct (Hm id r Hr) as (p & ? & _ & ? & ? & _ & ?). by exists p.
Qed.
(** ** Registering and removing a peer *)

(** The part of a peer that only membership changes. *)
Definition record_at (r : Z) (n : Node N) : option (bytes * PeerInfo) :=
  (fun p => (ps_node_id p, ps_info p)) <$> n_heap n !! r.

(** A step that leaves membership alone. *)
Definition quiet (n x : Node N) : Prop :=
  n_peers x = n_peers n /\ n_routes x = n_routes n /\ n_next_ref x = n_next_ref n
  /\ forall r, record_at r x = record_at r n.

Lemma quiet_refl n : quiet n n.
Proof. done. Qed.

Lemma quiet_trans n x y : quiet n x -> quiet x y -> quiet n y.
Proof.
  intros (? & ? & ? & Hr) (? & ? & ? & Hr'). split_and!; [congruence..|].
  intros r. by rewrite Hr', Hr.
Qed.

Lemma quiet_modify {E} n (f : Node N -> Node N) :
  (forall x, quiet x (f x)) -> keeps (quiet n) (hmodify f : handler (Node N) E unit).
Proof. intros Hf x Hx. by eapply quiet_trans. Qed.

Lemma quiet_update_at r (f : PeerState N -> PeerState N) n :
  (forall p, ps_node_id (f p) = ps_node_id p /\ ps_info (f p) = ps_info p) ->
  quiet n (update_at r f n).
Proof.
  intros Hf. split_and!; try done. intros r'. unfold record_at. cbn.
  destruct (decide (r' = r)) as [->|].
  - rewrite lookup_alter_eq. destruct (n_heap n !! r) as [p|]; [|done]. cbn.
    by destruct (Hf p) as [-> ->].
  - by rewrite lookup_alter_ne.
Qed.

Lemma quiet_update {E} n r (f : PeerState N -> PeerState N) :
  (forall p, ps_node_id (f p) = ps_node_id p /\ ps_info (f p) = ps_info p) ->
  keeps (quiet n) (update r f : handler (Node N) E unit).
Proof. intros Hf. apply quiet_modify. intros x. by apply quiet_update_at. Qed.

Lemma quiet_emit {E} n ev : keeps (quiet n) (emit ev : handler (Node N) E bool).
Proof. intros x Hx. unfold emit. destruct ev; try exact Hx. by destruct (_ <? _)%nat. Qed.

Lemma quiet_remove_session {E} n r sid :
  keeps (quiet n) (remove_session r sid : handler (Node N) E unit).
Proof. intros x Hx. cbn. by case_bool_decide. Qed.

Lemma quiet_load {E} n r : keeps (quiet n) (load r : handler (Node N) E _).
Proof. by intros x Hx. Qed.

Lemma quiet_retire n r who always : keeps (quiet n) (retire r who always).
Proof.
  unfold retire. keeps_walk;
    auto using quiet_load, quiet_emit, quiet_remove_session, quiet_update.
Qed.

Lemma retire_total r who always n : exists x, retire r who always n = (Ok tt, x).
Proof.
  unfold retire, hbind, load, update, hmodify, remove_session, emit, hret.
  repeat case_match; simplify_eq; eauto.
Qed.

Lemma quiet_named n x id r : quiet n x -> peer_named n id r -> peer_named x id r.
Proof.
  intros (_ & _ & _ & Hr) (p & Hp & Hn & Hi). specialize (Hr r). unfold record_at in Hr.
  rewrite Hp in Hr. apply fmap_Some in Hr as (q & Hq & [= E1 E2]).
  exists q. split_and!; congruence.
Qed.

Lemma quiet_peers_wf n x : quiet n x -> peers_wf n -> peers_wf x.
Proof.
  intros Hq [Hb Hw]. pose proof Hq as (Hp & _ & Hn & Hr). split.
  - intros r p Hl. rewrite Hn. specialize (Hr r). unfold record_at in Hr. rewrite Hl in Hr.
    symmetry in Hr. apply fmap_Some in Hr as (q & Hq' & _). by apply (Hb r q).
  - intros id r Hl. rewrite Hp in Hl. by eapply quiet_named, Hw.
Qed.

Lemma quiet_info n x r : quiet n x -> is_Some (n_heap n !! r) ->
  ps_info (peer_at r x) = ps_info (peer_at r n).
Proof.
  intros (_ & _ & _ & Hr) [p Hp]. specialize (Hr r). unfold record_at, peer_at in *.
  rewrite Hp in Hr. apply fmap_Some in Hr as (q & Hq & [= E1 E2]).
  by rewrite (lookup_total_correct _ _ _ Hp), (lookup_total_correct _ _ _ Hq).
Qed.

Lemma quiet_routes_wf n x : quiet n x -> peers_wf n -> routes_wf n -> routes_wf x.
Proof.
  intros Hq [_ Hw] Hr a id Ha. pose proof Hq as (Hp & Hro & _). rewrite Hro in Ha.
  destruct (Hr a id Ha) as (r & Hl & Hin). exists r. rewrite Hp. split; [done|].
  rewrite (quiet_info n x); [done..|]. destruct (Hw id r Hl) as (p & Hpp & _). by exists p.
Qed.

Lemma install_peer_fields info n :
  n_heap (install_peer info n) = <[n_next_ref n := PeerState_new parse_credential info
    (server_public_key cfg)]> (n_heap n)
  /\ n_next_ref (install_peer info n) = n_next_ref n + 1
  /\ n_peers (install_peer info n) = <[node_id info := n_next_ref n]> (n_peers n).
Proof. unfold install_peer. by destruct (n_peers n !! node_id info). Qed.

Lemma heap_fresh n r p : heap_bounded n -> n_heap n !! r = Some p -> n_next_ref n <> r.
Proof. intros Hb Hp. apply Hb in Hp. lia. Qed.

Lemma install_peer_named info n : peers_wf n -> peers_wf (install_peer info n).
Proof.
  intros [Hb Hw]. destruct (install_peer_fields info n) as (Hh & Hn & Hp). split.
  - intros r p. rewrite Hh, Hn. intros [[<- _]|[_ Hl]]%lookup_insert_Some; [lia|]. apply Hb in Hl. lia.
  - intros id r. rewrite Hp. intros [[<- <-]|[Hne Hl]]%lookup_insert_Some.
    + exists (PeerState_new parse_credential info (server_public_key cfg)). rewrite Hh. by rewrite lookup_insert_eq.
    + destruct (Hw id r Hl) as (p & Hpp & ?). exists p. rewrite Hh.
      rewrite lookup_insert_ne; [done|]. by eapply heap_fresh.
Qed.

Lemma install_peer_wf info n : peers_wf n -> routes_wf n -> routes_wf (install_peer info n).
Proof.
  intros [Hb Hw] Hr a id Ha. destruct (install_peer_fields info n) as (Hh & Hn & Hp).
  unfold peer_at. rewrite Hp, Hh.
  assert (Hcase : (a ∈ peer_addresses info /\ id = node_id info)
            \/ (peer_for (n_routes n) a = Some id /\ id <> node_id info)).
  { revert Ha. unfold install_peer. cbn [n_routes set_n_routes].
    rewrite (proj2 (insert_routes_spec _ _ _)). case_bool_decide; [intros [= <-]; by left|].
    destruct (n_peers n !! node_id info) as [r|] eqn:El; cbn [n_routes set_n_routes set_n_peers].
    - rewrite (proj2 (remove_routes_spec _ _)). case_bool_decide as Hin; [done|]. intros Ha. right.
      split; [done|]. intros ->. destruct (Hr _ _ Ha) as (r' & Hr' & Hin'). apply Hin.
      assert (r' = r) as -> by congruence. destruct (Hw _ _ El) as (p & Hpp & _).
      unfold peer_at in *. cbn. rewrite lookup_total_insert_ne; [done|]. by eapply heap_fresh.
    - intros Ha. right. split; [done|]. intros ->. destruct (Hr _ _ Ha) as (r' & Hr' & _). congruence. }
  destruct Hcase as [[Hin ->]|[Ha' Hne]].
  - exists (n_next_ref n). rewrite lookup_insert_eq. split; [done|]. by rewrite lookup_total_insert_eq.
  - destruct (Hr _ _ Ha') as (r & Hl & Hin). exists r. rewrite lookup_insert_ne by done.
    split; [done|]. destruct (Hw _ _ Hl) as (p & Hpp & _).
    rewrite lookup_total_insert_ne; [done|]. by eapply heap_fresh.
Qed.

Lemma register_peer_cases w info n res n' :
  register_peer w info n = (res, n') ->
  (n' = n /\ exists e, res = Err e)
  \/ (quiet n n' /\ exists r, n_peers n !! node_id info = Some r /\ ps_info (peer_at r n) = info)
  \/ quiet (install_peer info n) n'.
Proof.
  unfold register_peer. unfold hbind at 1, hlift.
  destruct (validate_peer_info info) as [[]|e]; [|intros [= <- <-]; eauto]. unfold hbind at 1.
  destruct (validate_peer_membership _ _ _ _) as [[]|e]; [|intros [= <- <-]; eauto].
  unfold hbind at 1, hget.
  destruct (n_peers n !! node_id info) as [r|] eqn:El; [case_bool_decide as Hi|]; intros E; right.
  - left. injection E as <- <-. split; [by apply quiet_update_at | by exists r].
  - right. unfold hbind at 1, hmodify in E.
    match type of E with retire ?r ?who ?b ?x = _ =>
      pose proof (quiet_retire x r who b x (quiet_refl x)) as Hq end.
    by rewrite E in Hq.
  - right. injection E as <- <-. apply quiet_refl.
Qed.

(** registering a peer keeps the tables consistent: peers stay under their own
    ids, every route leads to a registered peer that has the address, and a peer
    that was accepted is in the table with the record given. *)
Theorem register_peer_consistent w info n n' :
  peers_wf n -> routes_wf n -> register_peer w info n = (Ok tt, n') ->
  peers_wf n' /\ routes_wf n'
  /\ exists r, n_peers n' !! node_id info = Some r /\ ps_info (peer_at r n') = info.
Proof.
  intros Hw Hr E.
  apply register_peer_cases in E as [(_ & e & [=])|[(Hq & r & Hl & Hi)|Hq]].
  - split; [by eapply quiet_peers_wf|]. split; [by eapply quiet_routes_wf|].
    exists r. destruct Hw as [_ Hw]. destruct (Hw _ _ Hl) as (p & Hp & _).
    pose proof Hq as (-> & _). split; [done|]. rewrite (quiet_info n); [done|done|by exists p].
  - pose proof (install_peer_named info n Hw) as Hw'. pose proof (install_peer_wf info n Hw Hr) as Hr'.
    split; [by eapply quiet_peers_wf|]. split; [by eapply quiet_routes_wf|].
    destruct (install_peer_fields info n) as (Hh & _ & Hl).
    exists (n_next_ref n). pose proof Hq as (-> & _).
    rewrite Hl, lookup_insert_eq. split; [done|].
    rewrite (quiet_info (install_peer info n)); [|done|rewrite Hh, lookup_insert_eq; by eexists].
    unfold peer_at. by rewrite Hh, lookup_total_insert_eq.
Qed.

Lemma uninstall_peer_wf id r n :
  peers_wf n -> routes_wf n -> n_peers n !! id = Some r ->
  peers_wf (uninstall_peer id r n) /\ routes_wf (uninstall_peer id r n)
  /\ forall a id', peer_for (n_routes (uninstall_peer id r n)) a = Some id' ->
                   peer_for (n_routes n) a = Some id' /\ id' <> id.
Proof.
  intros [Hb Hw] Hr El.
  assert (Hro : forall a id', peer_for (n_routes (uninstall_peer id r n)) a = Some id' ->
            peer_for (n_routes n) a = Some id' /\ id' <> id).
  { intros a id'. cbn [uninstall_peer n_routes set_n_routes].
    rewrite (proj2 (remove_routes_spec _ _)). case_bool_decide as Hin; [done|]. intros Ha.
    split; [done|]. intros ->. destruct (Hr _ _ Ha) as (r' & Hr' & Hin').
    apply Hin. by assert (r' = r) as -> by congruence. }
  split_and!; [split| |done].
  - exact Hb.
  - intros i r'. cbn [uninstall_peer n_peers set_n_routes set_n_peers].
    intros [_ Hl]%lookup_delete_Some. destruct (Hw _ _ Hl) as (p & ?). by exists p.
  - intros a i Ha. destruct (Hro _ _ Ha) as [Ha' Hne]. destruct (Hr _ _ Ha') as (r' & Hl & Hin).
    exists r'. split; [|done]. cbn [uninstall_peer n_peers set_n_routes set_n_peers].
    by rewrite lookup_delete_ne.
Qed.

(** a removed peer is gone: it is in no table, no route leads to it, and what
    is left is consistent; only the addresses it had stop being routed. *)
Theorem remove_peer_consistent id n b n' :
  peers_wf n -> routes_wf n -> remove_peer id n = (Ok b, n') ->
  n_peers n' = delete id (n_peers n)
  /\ (forall a, peer_for (n_routes n') a <> Some id)
  /\ (forall a id', peer_for (n_routes n') a = Some id' -> peer_for (n_routes n) a = Some id')
  /\ peers_wf n' /\ routes_wf n' /\ (b = true <-> is_Some (n_peers n !! id)).
Proof.
  intros [Hb Hw] Hr E. unfold remove_peer in E. apply hbind_Ok in E as (n0 & ? & [= <- <-] & E).
  destruct (n_peers n !! id) as [r|] eqn:El.
  2: { injection E as <- <-. rewrite delete_id by done. split_and!; try done.
    - intros a Ha. destruct (Hr a id Ha) as (r & Hl & _). congruence. }
  unfold hbind at 1, hmodify in E. apply hbind_Ok in E as ([] & x & Ex & [= <- <-]).
  pose proof (quiet_retire _ r id true _ (quiet_refl (uninstall_peer id r n))) as Hq.
  rewrite Ex in Hq. cbn [snd] in Hq.
  destruct (uninstall_peer_wf id r n (conj Hb Hw) Hr El) as (Hw0 & Hr0 & Hro).
  pose proof Hq as (Hp & Hrt & _). rewrite Hp, Hrt. split_and!; try done.
  - intros a Ha. by destruct (Hro _ _ Ha).
  - intros a id' Ha. by destruct (Hro _ _ Ha).
  - by eapply quiet_peers_wf.
  - by eapply quiet_routes_wf.
Qed.
End Membership.
