(* ===== verification/NodeSend.v ===== *)
(** * Sending IP packets

    The outbound path of [vela-core/src/lib.rs]: a packet from the virtual
    interface is parsed, routed to a peer, sealed under the peer's session or
    queued until there is one, and handed to the socket alone or in batches.  The
    source seals large batches in worker tasks; sealing is pure and each result
    goes to its own slot, so the model seals in order. *)
From S2P Require Import Prelude Net Encoding Wire NodeId Snapshot SignedBytes Crypto Ip Replay Path Handshake NodeState.

Record PreparedDataPacket : Type := mkPrepared {
  pd_peer : Z;
  pd_peer_id : bytes;
  pd_session_id : Z;
  pd_sequence : Z;
  pd_path : SocketAddr;
  pd_packet_len : Z;
  pd_wire_packet : bytes
}.

(** Consecutive elements with one key. *)
Fixpoint group_runs {A} (same : A -> A -> bool) (l : list A) : list (list A) :=
  match l with
  | [] => []
  | x :: l =>
      match group_runs same l with
      | (y :: g) :: gs => if same x y then (x :: y :: g) :: gs else [x] :: (y :: g) :: gs
      | gs => [x] :: gs
      end
  end.

Section Send.
Context {HA : AeadOps} {N : Type}.
Context (cfg : NodeConfig).

Abbreviation HS A := (handler (Node N) SendError A).

Definition packet_size (p : IpPacket) : Z := len (ip_bytes p).

Definition prepare_encrypted_data_packet (r : Z) (peer_id : bytes) (sid : Z) (path : SocketAddr)
    (c : SessionCipher) (seq : Z) (p : IpPacket) : result PreparedDataPacket SendError :=
  let b := ip_bytes p in
  let? h := rmap_err Send_Protocol (Header_new Data sid seq (length b + 16)) in
  let? ct := rmap_err Send_Crypto (encrypt_in_place_detached c seq (encoded_header h) b) in
  Ok (mkPrepared r peer_id sid seq path (len b) (Header_encode h ++ fst ct ++ snd ct)).

Definition too_large (p : IpPacket) : bool :=
  (virtual_mtu cfg <? packet_size p) || (max_payload_size cfg <? packet_size p).

(** The packets of a batch with a session: one sequence number for each that fits. *)
Fixpoint seal_all (r : Z) (peer_id : bytes) (s : ActiveSession) (tx : Z) (l : list IpPacket)
    : list (result (option PreparedDataPacket) SendError) * Z :=
  match l with
  | [] => ([], tx)
  | p :: l =>
      if too_large p || (confirmed (as_path_mtu s) <? packet_size p)
      then let '(rs, tx') := seal_all r peer_id s tx l in (Err PacketTooLarge :: rs, tx')
      else
        let '(rs, tx') := seal_all r peer_id s (fetch_add tx 1) l in
        (rmap Some (prepare_encrypted_data_packet r peer_id (as_session_id s) (as_path s)
                      (as_cipher s) tx p) :: rs, tx')
  end.

(** The packets of a batch without a session: queued while there is room. *)
Fixpoint queue_all (q : list bytes) (l : list IpPacket)
    : list (result (option PreparedDataPacket) SendError) * list bytes :=
  match l with
  | [] => ([], q)
  | p :: l =>
      if too_large p then let '(rs, q') := queue_all q l in (Err PacketTooLarge :: rs, q')
      else if (per_peer_queue_limit cfg <=? length q)%nat
      then let '(rs, q') := queue_all q l in (Err QueueFull :: rs, q')
      else let '(rs, q') := queue_all (q ++ [ip_bytes p]) l in (Ok None :: rs, q')
  end.

Definition prepare_ip_packets (w : World) (r : Z) (l : list IpPacket)
    : HS (list (result (option PreparedDataPacket) SendError)) :=
  let! n := hget in
  match l with
  | [] => hret []
  | _ =>
      if n_snapshot_expires_at n <=? w_unix w then
        let! _ := invalidate_session r true in
        hret (map (fun _ => Err Send_SnapshotExpired) l)
      else
        let p := peer_at r n in
        match ps_active p with
        | Some s =>
            let '(rs, tx) := seal_all r (ps_node_id p) s (as_tx_sequence s) l in
            let! _ := update r (set_ps_active (Some (set_as_tx_sequence tx s))) in
            hret rs
        | None =>
            let '(rs, q) := queue_all (ps_queue p) l in
            let! _ := update r (set_ps_queue q) in
            hret rs
        end
  end.

(** [prepare_ip_packet]: the one result; no result is the [expect] that panics. *)
Definition prepare_ip_packet (w : World) (r : Z) (p : IpPacket)
    : HS (option (result (option PreparedDataPacket) SendError)) :=
  let! rs := prepare_ip_packets w r [p] in hret (head rs).

Definition add_tx_bytes (l : list PreparedDataPacket) (s : ActiveSession) : ActiveSession :=
  set_as_tx_bytes (fold_left (fun c p => fetch_add c (pd_packet_len p)) l (as_tx_bytes s)) s.

(** [record_sent_batch] *)
Definition record_sent_batch (l : list PreparedDataPacket) : HS unit :=
  match l with
  | [] => hret tt
  | first :: _ =>
      update (pd_peer first) (fun p =>
        match ps_active p with
        | Some s => if as_session_id s =? pd_session_id first
                    then set_ps_active (Some (add_tx_bytes l s)) p else p
        | None => p
        end)
  end.

Definition send_ip_packet (w : World) (r : Z) (p : IpPacket) : HS unit :=
  let! prepared := prepare_ip_packet w r p in
  match prepared with
  | None => hret tt
  | Some (Err e) => hfail e
  | Some (Ok None) => hret tt
  | Some (Ok (Some d)) =>
      let! sent := udp_send w (pd_path d) (pd_wire_packet d) in
      if sent then record_sent_batch [d]
      else
        let! _ := invalidate_session_if (pd_peer d) (Some (pd_session_id d)) true in
        hfail Send_Io
  end.

Definition same_flow (x y : PreparedDataPacket) : bool :=
  bool_decide (pd_peer_id x = pd_peer_id y) && (pd_session_id x =? pd_session_id y)
  && bool_decide (pd_path x = pd_path y).

(** One group of [send_prepared_batch] in one call to the socket. *)
Definition send_group (w : World) (g : list PreparedDataPacket) : HS (list (result unit SendError)) :=
  match g with
  | [] => hret []
  | first :: _ =>
      let packets := map (fun d => (pd_path d, pd_wire_packet d)) g in
      match w_batch w packets with
      | Some count =>
          let sent := Nat.min count (length g) in
          let! _ := hmodify (fun n => set_n_sent (n_sent n ++ take sent packets) n) in
          let! _ := record_sent_batch (take sent g) in
          let! _ := (if (count =? length g)%nat then hret tt
                     else invalidate_session_if (pd_peer first) (Some (pd_session_id first)) true) in
          hret (replicate sent (Ok tt) ++ replicate (length g - sent) (Err Send_Io))
      | None =>
          let! _ := invalidate_session_if (pd_peer first) (Some (pd_session_id first)) true in
          hret (replicate (length g) (Err Send_Io))
      end
  end.

Fixpoint send_groups (w : World) (gs : list (list PreparedDataPacket))
    : HS (list (result unit SendError)) :=
  match gs with
  | [] => hret []
  | g :: gs => let! rs := send_group w g in
               let! rest := send_groups w gs in
               hret (rs ++ rest)
  end.

Definition send_prepared_batch (w : World) (l : list PreparedDataPacket)
    : HS (list (result unit SendError)) :=
  send_groups w (group_runs same_flow l).

Definition send_payload (w : World) (r : Z) (payload : bytes) : HS unit :=
  let! p := hlift (rmap_err Send_Ip (ip_parse payload)) in
  let! n := hget in
  let! routed := hlift (rmap_err Send_Ip (validate_outbound (n_routes n) p)) in
  if negb (bool_decide (routed = ps_node_id (peer_at r n))) then hfail WrongPeer
  else send_ip_packet w r p.

(** [flush_queue]: the loop stops when the queue is empty or a packet fails.  A
    turn takes one packet off, so the length of the queue is enough turns when
    sending does not queue it again. *)
Fixpoint flush_queue (fuel : nat) (w : World) (r : Z) : HS unit :=
  match fuel with
  | O => hret tt
  | S k =>
      let! p := load r in
      match ps_queue p with
      | [] => hret tt
      | payload :: rest =>
          let! _ := update r (set_ps_queue rest) in
          let! res := (htry (send_payload w r payload) : HS (result unit SendError)) in
          match res with
          | Ok _ => flush_queue k w r
          | Err _ => hret tt
          end
      end
  end.

(** What a caller does after a send: ask to reconnect after a socket error, ask
    for a connection when the packet was queued and none is on its way. *)
Definition after_send (r : Z) (id : bytes) (should_connect : bool) (res : result unit SendError)
    : HS unit :=
  let! _ := match res with Err Send_Io => schedule_reconnect r | _ => hret tt end in
  match res with
  | Ok _ => if should_connect
            then let! _ := emit (PeerConnectionRequested id) in spawn (ConnectTask id)
            else hret tt
  | Err _ => hret tt
  end.

Definition idle (p : PeerState N) : bool :=
  match ps_active p, ps_attempt p with None, None => true | _, _ => false end.

(** [VelaNode::send_ip] *)
Definition send_ip (w : World) (payload : bytes) : HS unit :=
  let! p := hlift (rmap_err Send_Ip (ip_parse payload)) in
  let! n := hget in
  let! id := hlift (rmap_err Send_Ip (validate_outbound (n_routes n) p)) in
  let! r := hlift (ok_or (n_peers n !! id) Send_UnknownPeer) in
  let should_connect := idle (peer_at r n) in
  let! res := (htry (send_ip_packet w r p) : HS (result unit SendError)) in
  let! _ := after_send r id should_connect res in
  hlift res.

(** ** A batch from the virtual interface

    The results are filled in by index; an empty slot at the end is the [expect]
    that panics. *)
Abbreviation Slots := (list (option (result unit SendError))).

Record RoutedPacket : Type := mkRouted { rp_index : nat; rp_packet : IpPacket; rp_peer : Z }.

(** Parse and route every packet against one view of the tables. *)
Fixpoint route_batch (n : Node N) (i : nat) (l : list bytes) (results : Slots)
    : list RoutedPacket * Slots :=
  match l with
  | [] => ([], results)
  | payload :: l =>
      match (let? p := rmap_err Send_Ip (ip_parse payload) in
             let? id := rmap_err Send_Ip (validate_outbound (n_routes n) p) in
             let? r := ok_or (n_peers n !! id) Send_UnknownPeer in
             Ok (mkRouted i p r)) with
      | Ok routed => let '(rs, results) := route_batch n (S i) l results in (routed :: rs, results)
      | Err e => route_batch n (S i) l (<[i := Some (Err e)]> results)
      end
  end.

(** The packets of one peer, prepared; those to send with their indices, and
    whether a connection is wanted. *)
Definition prepare_group (w : World) (g : list RoutedPacket) (results : Slots)
    : HS (list (nat * PreparedDataPacket) * list bytes * Slots) :=
  match g with
  | [] => hret ([], [], results)
  | first :: _ =>
      let r := rp_peer first in
      let! n := hget in
      let should_connect := idle (peer_at r n) in
      let id := ps_node_id (peer_at r n) in
      let! rs := prepare_ip_packets w r (map rp_packet g) in
      let step acc (x : RoutedPacket * result (option PreparedDataPacket) SendError) :=
        let '(sends, connects, results) := acc in
        let connects' := if should_connect then connects ++ [id] else connects in
        match x.2 with
        | Ok (Some d) => (sends ++ [(rp_index x.1, d)], connects', results)
        | Ok None => (sends, connects', <[rp_index x.1 := Some (Ok tt)]> results)
        | Err e => (sends, connects, <[rp_index x.1 := Some (Err e)]> results)
        end in
      hret (fold_left step (zip g rs) ([], [], results))
  end.

Fixpoint prepare_groups (w : World) (gs : list (list RoutedPacket)) (results : Slots)
    : HS (list (nat * PreparedDataPacket) * list bytes * Slots) :=
  match gs with
  | [] => hret ([], [], results)
  | g :: gs =>
      let! (sends, connects, results) := prepare_group w g results in
      let! (sends', connects', results) := prepare_groups w gs results in
      hret (sends ++ sends', connects ++ connects', results)
  end.

(** Record the outcome of every send. *)
Fixpoint record_results (l : list (nat * PreparedDataPacket * result unit SendError))
    (results : Slots) : HS Slots :=
  match l with
  | [] => hret results
  | (i, d, res) :: l =>
      let! _ := match res with Err Send_Io => schedule_reconnect (pd_peer d) | _ => hret tt end in
      record_results l (<[i := Some res]> results)
  end.

Definition send_ip_batch (w : World) (packets : list bytes) : HS Slots :=
  let! n := hget in
  let '(routed, results) := route_batch n 0 packets (replicate (length packets) None) in
  let same x y := bool_decide (ps_node_id (peer_at (rp_peer x) n) = ps_node_id (peer_at (rp_peer y) n)) in
  let! (sends, connects, results) := prepare_groups w (group_runs same routed) results in
  let! outcomes := send_prepared_batch w (map snd sends) in
  let! results := record_results (zip sends outcomes) results in
  let! _ := for_each (fun id => let! _ := emit (PeerConnectionRequested id) in spawn (ConnectTask id))
              (remove_dups (sort_by_key (fun id => id) connects)) in
  hret results.

(** [PeerHandle::send_ip] *)
Definition handle_send_ip (w : World) (id payload : bytes) : HS unit :=
  let! n := hget in
  let! r := hlift (ok_or (n_peers n !! id) Send_UnknownPeer) in
  let should_connect := idle (peer_at r n) in
  let! res := (htry (send_payload w r payload) : HS (result unit SendError)) in
  let! _ := after_send r id should_connect res in
  hlift res.
End Send.
