(* ===== verification/NodeSession.v ===== *)
(** * Opening a session

    Probes and the Noise handshake of [vela-core/src/lib.rs]: [handle_probe],
    [handle_probe_response], [start_initiator], [handle_handshake] and
    [establish].  The node with the smaller id starts the handshake.  Random
    session ids and nonces are arguments. *)
From S2P Require Import Prelude Net Encoding Wire NodeId Snapshot SignedBytes Crypto Ip Replay Path Handshake NodeState NodePeers NodeSend.

Section Session.
Context {HH : Hash} {HSg : SignatureOps} {HA : AeadOps} {HK : HkdfOps} {HN : NoiseOps}.
Context (parse_credential : bytes -> option MembershipCredential).
Context (cfg : NodeConfig) (me : Local).

Abbreviation N := (@NState HN).
Abbreviation HC A := (handler (Node N) CoreError A).

Definition handshake_context (n : Node N) : bytes :=
  encode_handshake_context
    (mkContext (n_network_id n) (n_snapshot_generation n) (my_id me) (local_incarnation me)
       (n_local_ipv4 n) (n_local_ipv6 n)).

(** A fresh attempt; durations are in nanoseconds and the time-out in seconds. *)
Definition new_attempt (w : World) (sid : Z) (l : list Candidate) : Attempt N :=
  mkAttempt sid None None None None (w_unix w)
    (sat_add64 (w_unix w) (connect_timeout cfg / 10 ^ 9))
    (map (fun c => mkCandidateAttempt c CandPending None None None) l).

(** Change the first candidate with an address. *)
Fixpoint update_candidate (address : SocketAddr) (f : PeerCandidateAttempt -> PeerCandidateAttempt)
    (l : list PeerCandidateAttempt) : list PeerCandidateAttempt :=
  match l with
  | [] => []
  | c :: l => if bool_decide (Candidate_address (ca_candidate c) = address)
              then f c :: l else c :: update_candidate address f l
  end.

Definition on_attempt (sid : Z) (f : Attempt N -> Attempt N) (p : PeerState N) : PeerState N :=
  match ps_attempt p with
  | Some a => if at_session_id a =? sid then set_ps_attempt (Some (f a)) p else p
  | None => p
  end.

Definition record_candidate_probe (w : World) (r : Z) (sid : Z) (address : SocketAddr)
    (error : option CoreError) : HC unit :=
  update r (on_attempt sid (fun a => set_at_candidates
    (update_candidate address (fun c =>
       mkCandidateAttempt (ca_candidate c)
         (match error with Some _ => CandFailed | None => CandSent end)
         (Some (w_unix w)) (ca_responded_at c) error) (at_candidates a)) a)).

Definition record_candidate_response (w : World) (r : Z) (sid : Z) (address : SocketAddr)
    : HC unit :=
  update r (on_attempt sid (fun a => set_at_candidates
    (update_candidate address (fun c =>
       mkCandidateAttempt (ca_candidate c) CandResponded (ca_last_sent_at c) (Some (w_unix w)) None)
       (at_candidates a)) a)).

(** The payload to send, and the handshake when it is new; nothing when the same
    path was tried a moment ago. *)
Definition initiator_payload (w : World) (path : SocketAddr) (info : PeerInfo) (a : Attempt N)
    : HC (option (bytes * option N)) :=
  match at_handshake a, at_handshake_payload a with
  | Some _, Some payload =>
      if bool_decide (at_handshake_path a = Some path)
         && match at_last_handshake_at a with
            | Some t => duration_since (w_instant w) t <? HANDSHAKE_RETRY_INTERVAL
            | None => false
            end
      then hret None
      else hret (Some (payload, None))
  | _, _ =>
      let! st := hlift (rmap_err Core_Crypto
                   (NoiseHandshake_initiator (noise_private me) (noise_public info))) in
      let! n := hget in
      let! (message, st) := hlift (rmap_err Core_Crypto (write_message st (handshake_context n))) in
      hret (Some (1 :: my_id me ++ message, Some st))
  end.

(** The attempt after its handshake message was sent on a path. *)
Definition mark_sent (w : World) (path : SocketAddr) (payload : bytes) (st : option N)
    (a : Attempt N) : Attempt N :=
  let a := match st with
           | Some st => set_at_handshake_payload (Some payload) (set_at_handshake (Some st) a)
           | None => a
           end in
  set_at_last_handshake_at (Some (w_instant w)) (set_at_handshake_path (Some path) a).

Definition start_initiator (w : World) (r : Z) (path : SocketAddr) (sid : Z) : HC unit :=
  let! p := load r in
  match ps_active p with
  | Some _ => hret tt
  | None =>
      match ps_attempt p with
      | None => hret tt
      | Some a =>
          if negb (at_session_id a =? sid) then hret tt
          else
            let! what := initiator_payload w path (ps_info p) a in
            match what with
            | None => hret tt
            | Some (payload, st) =>
                let! sent := (htry (send_packet w path Handshake sid 0 payload)
                              : HC (result unit CoreError)) in
                match sent with
                | Err e =>
                    let! _ := update r (record_failure (HandshakeSendFailed e) (w_unix w)) in
                    hfail e
                | Ok _ =>
                    let! _ := update r (fun p => set_ps_attempt
                                (option_map (mark_sent w path payload st) (ps_attempt p)) p) in
                    emit_peer_connecting r
                end
            end
      end
  end.

(** ** Probes *)

(** The checks both probe handlers make: the probe, and the peer that sent it. *)
Definition authenticate_probe (w : World) (payload : bytes) : HC (ProbeMsg * Z) :=
  let! probe := hlift (decode_probe payload) in
  if negb (bool_decide (probe_receiver probe = my_id me)) then hfail InvalidProbe
  else
    let! r := node_peer_for (probe_sender probe) in
    let! p := load r in
    let! _ := hlift (validate_peer_membership parse_credential (ps_info p) (server_public_key cfg) (w_unix w)) in
    let! _ := hlift (verify_probe probe (ps_info p) (w_unix w)) in
    hret (probe, r).

Definition handle_probe (w : World) (payload : bytes) (source : SocketAddr) : HC unit :=
  let! (probe, r) := authenticate_probe w payload in
  let sid := probe_session_id probe in
  let response := encode_probe (my_id me) (probe_sender probe) sid (probe_timestamp probe)
                    (probe_nonce probe) (signing_secret me) in
  let! _ := send_packet w source ProbeResponse sid 0 response in
  let! _ := emit_peer_connecting r in
  if bytes_ltb (my_id me) (probe_sender probe) then
    let! _ := update r (fun p =>
      let can_replace := match ps_attempt p with
                         | Some a => match at_handshake a with Some _ => false | None => true end
                         | None => true
                         end in
      if can_replace && negb (bool_decide (at_session_id <$> ps_attempt p = Some sid))
      then set_ps_attempt (Some (new_attempt w sid (candidates (ps_info p)))) p else p) in
    start_initiator w r source sid
  else hret tt.

Definition handle_probe_response (w : World) (payload : bytes) (source : SocketAddr) : HC unit :=
  let! (probe, r) := authenticate_probe w payload in
  let sid := probe_session_id probe in
  let! p := load r in
  if negb (bool_decide (at_session_id <$> ps_attempt p = Some sid)) then hret tt
  else
    let! _ := record_candidate_response w r sid source in
    if bytes_ltb (my_id me) (probe_sender probe) then start_initiator w r source sid else hret tt.

(** ** The handshake *)

Definition new_session (w : World) (sid : Z) (path : SocketAddr) (c : SessionCipher) : ActiveSession :=
  mkSession sid path None c 1 ReplayWindow_default ∅ None (w_instant w) (w_unix w) (w_instant w)
    None None 0 0 (PathMtuState_new (safe_virtual_mtu (virtual_mtu cfg)) (virtual_mtu cfg)).

(** [establish] *)
Definition establish (w : World) (r : Z) (sid : Z) (path : SocketAddr) (c : SessionCipher)
    (expected : PeerInfo) : HC unit :=
  let! p := load r in
  if match ps_active p with Some _ => true | None => false end
     || negb (bool_decide (ps_info p = expected))
  then hret tt
  else
    let! _ := update r (set_ps_active (Some (new_session w sid path c))) in
    let! _ := hmodify (fun n => set_n_sessions (<[sid := r]> (n_sessions n)) n) in
    let! _ := update r (record_path path (candidates expected) (w_unix w)) in
    let! _ := update r (set_ps_last_failure None) in
    let! _ := update r (set_ps_connecting false) in
    let! _ := update r (set_ps_attempt None) in
    let! _ := update r (set_ps_reconnect ReconnectState_default) in
    let! _ := emit (PeerConnected (node_id (ps_info p))) in
    let! _ := (htry (flush_queue cfg (length (ps_queue p)) w r) : HC (result unit SendError)) in
    hret tt.

Definition close_previous (r : Z) : HC unit :=
  let! p := load r in
  match ps_active p with Some _ => invalidate_session r false | None => hret tt end.

(** The responder's half: read the initiator's message, answer, open the session. *)
Definition respond (w : World) (r : Z) (sid : Z) (sender payload : bytes) (source : SocketAddr)
    : HC unit :=
  let! p := load r in
  let! st := hlift (rmap_err Core_Crypto (NoiseHandshake_responder (noise_private me))) in
  let! (context, st) := hlift (rmap_err Core_Crypto (read_message st (drop 33 payload))) in
  let! n := hget in
  let! _ := hlift (validate_handshake_context (n_network_id n) context sender (ps_info p)) in
  let! (response, st) := hlift (rmap_err Core_Crypto (write_message st (handshake_context n))) in
  let! keys := hlift (rmap_err Core_Crypto (into_session st)) in
  let! _ := send_packet w source Handshake sid 0 (2 :: my_id me ++ response) in
  let! _ := close_previous r in
  establish w r sid source (session_cipher keys false) (ps_info p).

(** The initiator's half: the handshake is taken out of the attempt before the
    answer is read. *)
Definition complete (w : World) (r : Z) (sid : Z) (sender payload : bytes) (source : SocketAddr)
    : HC unit :=
  let! p := load r in
  if negb (bool_decide (at_session_id <$> ps_attempt p = Some sid)) then hret tt
  else
    match ps_attempt p ≫= at_handshake with
    | None => hret tt
    | Some st =>
        let! _ := update r (fun p => set_ps_attempt
                    (option_map (set_at_handshake None) (ps_attempt p)) p) in
        let! (context, st) := hlift (rmap_err Core_Crypto (read_message st (drop 33 payload))) in
        let! n := hget in
        let! _ := hlift (validate_handshake_context (n_network_id n) context sender (ps_info p)) in
        let! keys := hlift (rmap_err Core_Crypto (into_session st)) in
        let! _ := close_previous r in
        establish w r sid source (session_cipher keys true) (ps_info p)
    end.

Definition handle_handshake (w : World) (sid : Z) (payload : bytes) (source : SocketAddr) : HC unit :=
  if (length payload <? 34)%nat then hfail InvalidHandshake
  else
    let role := payload !!! 0%nat in
    let sender := slice 1 33 payload in
    let! r := node_peer_for sender in
    let! p := load r in
    let! _ := hlift (validate_peer_membership parse_credential (ps_info p) (server_public_key cfg) (w_unix w)) in
    if bool_decide (as_session_id <$> ps_active p = Some sid) then hret tt
    else if role =? 1 then
      if bytes_ltb (my_id me) sender then hret tt else respond w r sid sender payload source
    else if role =? 2 then
      if bytes_ltb sender (my_id me) then hret tt else complete w r sid sender payload source
    else hret tt.
End Session.
