(* ===== verification/NodeData.v ===== *)
(** * Receiving packets

    The inbound path of [vela-core/src/lib.rs]: the dispatch of a datagram
    ([read_loop], [handle_packet]), encrypted control packets ([handle_data]), and
    IP packets, alone ([decrypt_data_inline], [commit_ip_data]) or in batches
    ([data_loop], [queue_data_decrypt_batch], [commit_ip_data_batch]).  Decryption
    in worker tasks is pure and its results come back in order. *)
From S2P Require Import Prelude Net Encoding Wire NodeId Snapshot SignedBytes Crypto Ip Replay Path Handshake NodeState NodePeers NodeSend NodeSession.

Definition STUN_MAGIC_COOKIE : bytes := be_bytes 4 0x2112A442.

(** [stun_transaction_id] *)
Definition stun_transaction_id (input : bytes) : option bytes :=
  if (length input <? 20)%nat || negb (Z.land (input !!! 0%nat) 0xc0 =? 0)
     || negb (bool_decide (slice 4 8 input = STUN_MAGIC_COOKIE)) then None
  else Some (slice 8 20 input).

Definition DATA_WORKER_BATCH_SIZE : nat := 64.

Section Data.
Context {HH : Hash} {HSg : SignatureOps} {HA : AeadOps} {HK : HkdfOps} {HN : NoiseOps}.
Context (parse_credential : bytes -> option MembershipCredential).
Context (cfg : NodeConfig) (me : Local).

Abbreviation N := (@NState HN).
Abbreviation HC A := (handler (Node N) CoreError A).

(** ** IP packets *)

(** [data_decrypt_context_at] *)
Definition data_decrypt_context_at (d : DataPacket) (now : Z) : HC (option (Z * SessionCipher)) :=
  let sid := session_id (dp_header d) in
  let! n := hget in
  match session_peer sid n with
  | None => hret None
  | Some r =>
      let p := peer_at r n in
      if bool_decide (is_Some (server_public_key cfg)) && membership_expired_at p now then
        let! _ := invalidate_session r true in
        hfail PeerCredentialExpired
      else
        match ps_active p with
        | Some s =>
            if as_session_id s =? sid then hret (Some (r, as_cipher s))
            else let! _ := remove_session r sid in hret None
        | None => let! _ := remove_session r sid in hret None
        end
  end.

(** What an IP packet that is accepted does to its session and its peer: whether
    the path changed, and whether that reset the path MTU. *)
Definition observe_packet (w : World) (source : SocketAddr) (encrypted_len : Z)
    (s : ActiveSession) (p : PeerState N) : bool * bool * PeerState N :=
  let s := set_as_last_rx (w_instant w) s in
  let '(changed, (path, pending)) :=
    observe_data_source (as_path s) (as_pending_path s) source (w_instant w) in
  let s := set_as_pending_path pending (set_as_path path s) in
  let '(reset, s, p) :=
    if changed : bool then
      let s := set_as_path_changed_at (Some (w_unix w)) s in
      let p := record_path source (candidates (ps_info p)) (w_unix w) p in
      let '(reset, mtu) := PathMtuState_reset (as_path_mtu s)
                             (safe_virtual_mtu (virtual_mtu cfg)) (virtual_mtu cfg) in
      (reset, set_as_path_mtu mtu s, p)
    else (false, s, p) in
  let s := set_as_rx_bytes (fetch_add (as_rx_bytes s) encrypted_len) s in
  (changed, reset, set_ps_active (Some s) p).

(** The step on the session: nothing when it is not the packet's or the packet was
    seen before. *)
Definition accept_packet (w : World) (r : Z) (h : Header) (source : SocketAddr)
    (encrypted_len : Z) : HC (option (bool * bool)) :=
  let! p := load r in
  match ps_active p with
  | Some s =>
      if negb (as_session_id s =? session_id h) then hret None
      else
        let '(fresh, window) := accept (as_replay s) (sequence h) in
        if negb fresh then
          let! _ := count_peer r pr_replay_drops set_pr_replay_drops in hret None
        else
          let '(changed, reset, p') :=
            observe_packet w source encrypted_len (set_as_replay window s) p in
          let! _ := update r (fun _ => p') in
          hret (Some (changed, reset))
  | None => hret None
  end.

(** The events of an IP packet whose destination is this node. *)
Definition deliver (r : Z) (source : SocketAddr) (changed reset : bool) (p : IpPacket) : HC unit :=
  let! _ := count_peer r pr_accepted_ip_packets set_pr_accepted_ip_packets in
  let! n := hget in
  let id := ps_node_id (peer_at r n) in
  let! _ := (if changed then emit (PathChanged id source) else hret true) in
  let! _ := (if reset then emit (PathMtuChanged id source (safe_virtual_mtu (virtual_mtu cfg)))
             else hret true) in
  let! sent := emit (IpPacketEvent id p) in
  if sent then hret tt else count_peer r pr_event_queue_drops set_pr_event_queue_drops.

Definition commit_ip_data (w : World) (r : Z) (d : DataPacket) : HC unit :=
  match ip_parse (dp_payload d) with
  | Err e => let! _ := count_peer r pr_ip_parse_failures set_pr_ip_parse_failures in hfail (Core_Ip e)
  | Ok p =>
      let! accepted := accept_packet w r (dp_header d) (dp_source d) (dp_encrypted_len d) in
      match accepted with
      | None => hret tt
      | Some (changed, reset) =>
          let! n := hget in
          if negb (is_local (n_routes n) (ip_destination p)) then
            let! _ := count_peer r pr_invalid_destinations set_pr_invalid_destinations in
            hfail (Core_Ip (Ip_DestinationUnknown (ip_destination p)))
          else deliver r (dp_source d) changed reset p
      end
  end.

Definition with_payload (d : DataPacket) (payload : bytes) : DataPacket :=
  mkDataPacket (dp_header d) (dp_encrypted_len d) payload (dp_source d).

(** Open a data packet under a cipher, in place. *)
Definition open_packet (c : SessionCipher) (d : DataPacket) : result DataPacket CryptoError :=
  rmap (with_payload d)
    (decrypt_in_place c (sequence (dp_header d)) (encoded_header (dp_header d)) (dp_payload d)).

(** [decrypt_data_inline_at] *)
Definition decrypt_data_inline (w : World) (d : DataPacket) : HC unit :=
  let! context := data_decrypt_context_at d (w_unix w) in
  match context with
  | None => count tr_unassociated_data_datagrams set_tr_unassociated_data_datagrams 1
  | Some (r, c) =>
      let! _ := count_peer r pr_worker_data_packets set_pr_worker_data_packets in
      match open_packet c d with
      | Err e => let! _ := count_peer r pr_decrypt_failures set_pr_decrypt_failures in
                 hfail (Core_Crypto e)
      | Ok d => commit_ip_data w r d
      end
  end.

(** ** Batches *)

(** A packet of a batch that parsed. *)
Record ParsedPacket : Type := mkParsed {
  pp_peer : Z; pp_header : Header; pp_source : SocketAddr; pp_encrypted_len : Z; pp_packet : IpPacket
}.

Fixpoint parse_batch (l : list (Z * DataPacket)) : HC (list ParsedPacket) :=
  match l with
  | [] => hret []
  | (r, d) :: l =>
      match ip_parse (dp_payload d) with
      | Err _ => let! _ := count_peer r pr_ip_parse_failures set_pr_ip_parse_failures in parse_batch l
      | Ok p => let! rest := parse_batch l in
                hret (mkParsed r (dp_header d) (dp_source d) (dp_encrypted_len d) p :: rest)
      end
  end.

(** The session steps, in order; the source takes the lock once per run of packets
    of one session. *)
Fixpoint accept_batch (w : World) (l : list ParsedPacket) : HC (list (ParsedPacket * (bool * bool))) :=
  match l with
  | [] => hret []
  | x :: l =>
      let! accepted := accept_packet w (pp_peer x) (pp_header x) (pp_source x) (pp_encrypted_len x) in
      let! rest := accept_batch w l in
      hret (match accepted with Some flags => (x, flags) :: rest | None => rest end)
  end.

(** The packets addressed to this node. *)
Fixpoint route_inbound (l : list (ParsedPacket * (bool * bool)))
    : HC (list (ParsedPacket * (bool * bool))) :=
  match l with
  | [] => hret []
  | x :: l =>
      let! n := hget in
      if negb (is_local (n_routes n) (ip_destination (pp_packet x.1))) then
        let! _ := count_peer (pp_peer x.1) pr_invalid_destinations set_pr_invalid_destinations in
        route_inbound l
      else let! rest := route_inbound l in hret (x :: rest)
  end.

Definition commit_ip_data_batch (w : World) (l : list (Z * DataPacket)) : HC unit :=
  let! parsed := parse_batch l in
  let! committed := accept_batch w parsed in
  let! accepted := route_inbound committed in
  for_each (fun x => deliver (pp_peer x.1) (pp_source x.1) x.2.1 x.2.2 (pp_packet x.1)) accepted.

(** [queue_data_decrypt_batch]: the context of a session is looked up once per
    batch; the jobs of the packets that have one. *)
Fixpoint queue_batch (now : Z) (contexts : gmap Z (option (Z * SessionCipher))) (l : list DataPacket)
    : HC (list (Z * SessionCipher * DataPacket)) :=
  match l with
  | [] => hret []
  | d :: l =>
      let sid := session_id (dp_header d) in
      let! contexts := match contexts !! sid with
                       | Some _ => hret contexts
                       | None =>
                           let! res := (htry (data_decrypt_context_at d now)
                                        : HC (result (option (Z * SessionCipher)) CoreError)) in
                           hret (<[sid := match res with Ok c => c | Err _ => None end]> contexts)
                       end in
      match contexts !! sid with
      | Some (Some (r, c)) =>
          let! _ := count_peer r pr_worker_data_packets set_pr_worker_data_packets in
          let! rest := queue_batch now contexts l in
          hret ((r, c, d) :: rest)
      | _ =>
          let! _ := count tr_unassociated_data_datagrams set_tr_unassociated_data_datagrams 1 in
          queue_batch now contexts l
      end
  end.

(** [data_decrypt_loop] and [finish_data_decrypt] *)
Fixpoint open_batch (l : list (Z * SessionCipher * DataPacket)) : HC (list (Z * DataPacket)) :=
  match l with
  | [] => hret []
  | (r, c, d) :: l =>
      match open_packet c d with
      | Ok d => let! rest := open_batch l in hret ((r, d) :: rest)
      | Err _ => let! _ := count_peer r pr_decrypt_failures set_pr_decrypt_failures in open_batch l
      end
  end.

(** A turn of [data_loop] on the packets it received. *)
Definition data_turn (w : World) (l : list DataPacket) : HC unit :=
  let! _ := count tr_worker_data_datagrams set_tr_worker_data_datagrams (Z.of_nat (length l)) in
  let! n := hget in
  if n_snapshot_expires_at n <=? w_unix w then hret tt
  else
    match l with
    | [d] => let! _ := (htry (decrypt_data_inline w d) : HC (result unit CoreError)) in hret tt
    | _ =>
        let! jobs := queue_batch (w_unix w) ∅ l in
        match jobs with
        | [] => hret tt
        | _ => let! opened := open_batch jobs in commit_ip_data_batch w opened
        end
    end.

(** ** Control packets *)

Record Response : Type := mkResponse {
  rs_type : PacketType; rs_target : SocketAddr; rs_session_id : Z; rs_sequence : Z; rs_payload : bytes
}.

(** What a control packet asks for: events, an answer, a ping to complete. *)
Record ControlEffect : Type := mkEffect {
  ce_events : list VelaEvent; ce_response : option Response; ce_pong : option bytes
}.

Definition no_effect : ControlEffect := mkEffect [] None None.

(** Answer under the next sequence number. *)
Definition answer (ty : PacketType) (source : SocketAddr) (body : bytes)
    : handler ActiveSession CoreError ControlEffect :=
  fun s =>
    let seq := as_tx_sequence s in
    let s' := set_as_tx_sequence (fetch_add seq 1) s in
    (let? sealed := encrypt_payload (as_session_id s) (as_cipher s) ty seq body in
     Ok (mkEffect [] (Some (mkResponse ty source (as_session_id s) seq sealed)) None), s').

(** The round trip of a keepalive in milliseconds. *)
Definition rtt_ms (now sent : Z) : Z := Z.min (duration_since now sent / 10 ^ 6) U64_MAX.

(** The branches of [handle_data] on a packet that was opened and is fresh. *)
Definition control_step (w : World) (id : bytes) (ty : PacketType) (source : SocketAddr) (body : bytes)
    : handler ActiveSession CoreError ControlEffect :=
  let! s := hget in
  match ty with
  | KeepAlive =>
      if negb (length body =? KEEPALIVE_NONCE_LEN)%nat then hfail InvalidKeepAlive
      else answer KeepAliveAck source body
  | KeepAliveAck =>
      if negb (length body =? KEEPALIVE_NONCE_LEN)%nat then hfail InvalidKeepAlive
      else
        match as_pending_keepalive s with
        | Some (nonce, sent) =>
            if bool_decide (nonce = body) then
              let! _ := hmodify (fun s => set_as_last_rtt_ms (Some (rtt_ms (w_instant w) sent))
                                            (set_as_pending_keepalive None s)) in
              hret no_effect
            else hret no_effect
        | None => hret no_effect
        end
  | DiagnosticPing =>
      if negb (length body =? DIAGNOSTIC_NONCE_LEN)%nat then hfail InvalidDiagnosticPing
      else answer DiagnosticPong source body
  | DiagnosticPong =>
      if negb (length body =? DIAGNOSTIC_NONCE_LEN)%nat then hfail InvalidDiagnosticPing
      else if bool_decide (body ∈ as_ping_waiters s) then
        let! _ := hmodify (fun s => set_as_ping_waiters (as_ping_waiters s ∖ {[body]}) s) in
        hret (mkEffect [] None (Some body))
      else hret no_effect
  | MtuProbe =>
      if (length body <? MTU_PROBE_NONCE_LEN)%nat then hfail InvalidMtuProbe
      else answer MtuProbeAck source
             (take MTU_PROBE_NONCE_LEN body ++ be_bytes 2 (mtu_ack_value (virtual_mtu cfg)))
  | MtuProbeAck =>
      if negb (length body =? MTU_PROBE_NONCE_LEN + 2)%nat then hfail InvalidMtuProbe
      else if negb (bool_decide (source = as_path s)) then hret no_effect
      else
        let '(changed, mtu) := acknowledge (as_path_mtu s) (take MTU_PROBE_NONCE_LEN body)
                                 (be_value (drop MTU_PROBE_NONCE_LEN body)) in
        let! _ := hmodify (set_as_path_mtu mtu) in
        hret (match changed with
              | Some mtu => mkEffect [PathMtuChanged id (as_path s) mtu] None None
              | None => no_effect
              end)
  | _ => hfail InvalidDiagnosticPing
  end.

(** Run a step on the session of a peer. *)
Definition on_session {A} (r : Z) (s : ActiveSession) (m : handler ActiveSession CoreError A) : HC A :=
  fun n => let '(res, s') := m s in (res, update_at r (set_ps_active (Some s')) n).

(** The session of a peer whose credential is no longer valid. *)
Definition drop_expired (r : Z) (sid : Z) : HC unit :=
  let! p := load r in
  let! _ := update r (set_ps_active None) in
  let! _ := remove_session r sid in
  let! _ := update r (set_ps_attempt None) in
  let! _ := update r (set_ps_queue []) in
  let! _ := emit (PeerDisconnected (node_id (ps_info p))) in
  hfail PeerCredentialExpired.

(** The end of [handle_data]: deliver the events, complete the ping, answer. *)
Definition perform_effect (w : World) (source : SocketAddr) (e : ControlEffect) : HC unit :=
  let! _ := match ce_pong e with
            | Some nonce => hmodify (fun n => set_n_pongs (n_pongs n ++ [(nonce, source)]) n)
            | None => hret tt
            end in
  let! _ := for_each (fun ev => let! _ := emit ev in hret tt) (ce_events e) in
  match ce_response e with
  | Some a => send_packet w (rs_target a) (rs_type a) (rs_session_id a) (rs_sequence a) (rs_payload a)
  | None => hret tt
  end.

(** [handle_data] for the packets that are not IP data. *)
Definition handle_control (w : World) (h : Header) (payload : bytes) (source : SocketAddr) : HC unit :=
  let! n := hget in
  match session_peer (session_id h) n with
  | None => hret tt
  | Some r =>
      let! p := load r in
      match ps_active p with
      | None => remove_session r (session_id h)
      | Some s =>
          if negb (as_session_id s =? session_id h) then remove_session r (session_id h)
          else
            match validate_peer_membership parse_credential (ps_info p) (server_public_key cfg) (w_unix w) with
            | Err _ => drop_expired r (session_id h)
            | Ok _ =>
                let! body := hlift (rmap_err Core_Crypto
                               (decrypt_in_place (as_cipher s) (sequence h) (encoded_header h) payload)) in
                let '(fresh, window) := accept (as_replay s) (sequence h) in
                let s := set_as_replay window s in
                if negb fresh then update r (set_ps_active (Some s))
                else
                  let s := set_as_rx_bytes (fetch_add (as_rx_bytes s) (len payload))
                             (set_as_last_rx (w_instant w) s) in
                  let! effect := on_session r s
                                   (control_step w (node_id (ps_info p)) (packet_type h) source body) in
                  perform_effect w source effect
            end
      end
  end.

(** [handle_data] *)
Definition handle_data (w : World) (h : Header) (payload : bytes) (source : SocketAddr) : HC unit :=
  match packet_type h with
  | Data =>
      let! encoded := hlift (rmap_err Core_Protocol (WirePacket_encode (mkWirePacket h payload))) in
      let! d := hlift (rmap_err Core_Protocol (decode_data_packet encoded h source)) in
      decrypt_data_inline w d
  | _ => handle_control w h payload source
  end.

(** [handle_packet] *)
Definition handle_packet (w : World) (input : bytes) (source : SocketAddr) : HC unit :=
  let! n := hget in
  if n_snapshot_expires_at n <=? w_unix w then hfail Core_SnapshotExpired
  else
    let! (h, view) := hlift (rmap_err Core_Protocol (WirePacket_decode_bytes input)) in
    let payload := view_bytes view in
    match packet_type h with
    | Probe => handle_probe parse_credential cfg me w payload source
    | ProbeResponse => handle_probe_response parse_credential cfg me w payload source
    | Handshake => handle_handshake parse_credential cfg me w (session_id h) payload source
    | _ => handle_data w h payload source
    end.

(** ** The dispatcher *)

Definition ignore (m : HC unit) : HC unit :=
  let! _ := (htry m : HC (result unit CoreError)) in hret tt.

(** A datagram in [read_loop]; data packets go to the queue of the worker of their
    session and are dropped when it is full. *)
Definition receive_datagram (w : World) (input : bytes) (source : SocketAddr) : HC unit :=
  let! _ := count tr_udp_datagrams set_tr_udp_datagrams 1 in
  match stun_transaction_id input with
  | Some transaction =>
      let! _ := count tr_stun_datagrams set_tr_stun_datagrams 1 in
      hmodify (fun n => if bool_decide (n_stun_waiters n !! transaction = Some source)
                        then set_n_stun_waiters (delete transaction (n_stun_waiters n)) n else n)
  | None =>
      match Header_decode input with
      | Err _ => ignore (handle_packet w input source)
      | Ok h =>
          match packet_type h with
          | Data =>
              let! _ := count tr_data_datagrams set_tr_data_datagrams 1 in
              match decode_data_packet input h source with
              | Err _ => hret tt
              | Ok d =>
                  let! n := hget in
                  let worker := Z.to_nat (session_id h mod Z.of_nat (length (n_data_queues n))) in
                  match n_data_queues n !! worker with
                  | Some q =>
                      if (length q <? DATA_WORKER_QUEUE_LIMIT)%nat
                      then hmodify (fun n => set_n_data_queues (<[worker := q ++ [d]]> (n_data_queues n)) n)
                      else count tr_data_queue_drops set_tr_data_queue_drops 1
                  | None => hret tt
                  end
              end
          | _ => ignore (handle_packet w input source)
          end
      end
  end.

(** A worker takes what is in its queue, up to a batch. *)
Definition worker_turn (w : World) (worker : nat) : HC unit :=
  let! n := hget in
  match n_data_queues n !! worker with
  | Some (d :: q) =>
      let batch := take DATA_WORKER_BATCH_SIZE (d :: q) in
      let! _ := hmodify (fun n => set_n_data_queues
                  (<[worker := drop DATA_WORKER_BATCH_SIZE (d :: q)]> (n_data_queues n)) n) in
      data_turn w batch
  | _ => hret tt
  end.
End Data.
