(* ===== verification/NodeTimers.v ===== *)
(** * Connections and timers

    [connect] and [reconnect_loop], the keepalive and path MTU timers, and the
    diagnostic ping of [vela-core/src/lib.rs].  A loop is a turn function; the
    source waits between turns.  Random values are arguments. *)
From S2P Require Import Prelude Net Encoding Wire NodeId Snapshot SignedBytes Crypto Ip Replay Path Handshake NodeState NodePeers NodeSend NodeSession.

Definition PROBE_RETRY_INTERVAL : Z := 10 ^ 9.
Definition FALLBACK_DELAY : Z := 100 * 10 ^ 6.
Definition REKEY_AFTER : Z := 3600 * 10 ^ 9.

Inductive DiagnosticPingError : Type :=
| InvalidCount | Ping_UnknownPeer | Ping_NotConnected | Ping_Timeout | Ping_Core (e : CoreError).

(** The loop of [connect]. *)
Record ConnectLoop : Type := mkConnect {
  cn_peer : Z;
  cn_id : bytes;
  cn_session_id : Z;
  cn_payload : bytes;
  cn_candidates : list Candidate;
  cn_fallback : list Candidate;
  cn_deadline : Z;
  cn_next_fallback : Z;
  cn_next_probe : Z;
  cn_fallback_sent : bool;
  cn_superseded : bool
}.

(** A turn ends the loop, runs another turn at once, or waits. *)
Inductive Turn : Type :=
| Connected
| Again (c : ConnectLoop)
| Wait (d : Z) (c : ConnectLoop).

Section Timers.
Context {HH : Hash} {HSg : SignatureOps} {HA : AeadOps} {HK : HkdfOps} {HN : NoiseOps}.
Context (cfg : NodeConfig) (me : Local).

Abbreviation N := (@NState HN).
Abbreviation HC A := (handler (Node N) CoreError A).
Abbreviation HX A := (handler (Node N) ConnectError A).

(** ** Connecting *)

(** [send_probes] *)
Definition send_probe (w : World) (r : Z) (sid : Z) (payload : bytes) (c : Candidate) : HX unit :=
  let address := Candidate_address c in
  let! res := (htry (send_packet w address Probe sid 0 payload) : HX (result unit CoreError)) in
  let! _ := (htry (record_candidate_probe w r sid address
               (match res with Ok _ => None | Err e => Some e end)) : HX (result unit CoreError)) in
  hret tt.

Definition send_probes (w : World) (r : Z) (sid : Z) (payload : bytes) (l : list Candidate) : HX unit :=
  for_each (send_probe w r sid payload) l.

(** [connect] up to its loop; nothing is left to do when a session is open. *)
Definition connect_begin (w : World) (id : bytes) (nonce : bytes) (sid : Z) : HX (option ConnectLoop) :=
  let! n := hget in
  if negb (n_started n) then hfail NotStarted
  else if n_snapshot_expires_at n <=? w_unix w then hfail (Connect_Core Core_SnapshotExpired)
  else
    let! r := hlift (ok_or (n_peers n !! id) Connect_UnknownPeer) in
    let! p := load r in
    match ps_active p with
    | Some _ => hret None
    | None =>
        match ordered_connection_candidates (candidates (ps_info p)) with
        | [] => hfail NoCandidates
        | cands =>
            let! _ := emit_peer_connecting r in
            let! _ := update r (set_ps_attempt (Some (new_attempt cfg w sid cands))) in
            let! _ := update r (set_ps_last_failure None) in
            let preferred := List.filter (fun c => candidate_priority c =? 0) cands in
            let fallback := List.filter (fun c => negb (candidate_priority c =? 0)) cands in
            let payload := encode_probe (my_id me) id sid (w_unix w) nonce (signing_secret me) in
            let deadline := w_instant w + connect_timeout cfg in
            let! _ := send_probes w r sid payload
                        (match preferred with [] => fallback | _ => preferred end) in
            let sent := match preferred, fallback with [], _ | _, [] => true | _, _ => false end in
            hret (Some (mkConnect r id sid payload cands fallback deadline
                          (if sent then deadline else w_instant w + FALLBACK_DELAY)
                          (w_instant w + PROBE_RETRY_INTERVAL) sent false))
        end
    end.

(** The deadline has passed without a session. *)
Definition connect_expire (w : World) (c : ConnectLoop) : HX Turn :=
  let r := cn_peer c in
  let! p := load r in
  if negb (bool_decide (at_session_id <$> ps_attempt p = Some (cn_session_id c))) then hfail Superseded
  else
    let! _ := update r (set_ps_attempt None) in
    let! _ := update r (record_failure AttemptTimedOut (w_unix w)) in
    let! _ := update r (set_ps_connecting false) in
    let! _ := emit (PeerUnreachable (cn_id c)) in
    hfail Connect_Timeout.

Definition with_superseded (c : ConnectLoop) : ConnectLoop :=
  mkConnect (cn_peer c) (cn_id c) (cn_session_id c) (cn_payload c) (cn_candidates c) (cn_fallback c)
    (cn_deadline c) (cn_next_fallback c) (cn_deadline c) (cn_fallback_sent c) true.

Definition with_fallback_sent (c : ConnectLoop) : ConnectLoop :=
  mkConnect (cn_peer c) (cn_id c) (cn_session_id c) (cn_payload c) (cn_candidates c) (cn_fallback c)
    (cn_deadline c) (cn_next_fallback c) (cn_next_probe c) true (cn_superseded c).

Definition with_next_probe (t : Z) (c : ConnectLoop) : ConnectLoop :=
  mkConnect (cn_peer c) (cn_id c) (cn_session_id c) (cn_payload c) (cn_candidates c) (cn_fallback c)
    (cn_deadline c) (cn_next_fallback c) t true (cn_superseded c).

(** A turn of the loop.  The check the source makes after a notification is the
    one at the start of the next turn. *)
Definition connect_turn (w : World) (c : ConnectLoop) : HX Turn :=
  let r := cn_peer c in
  let now := w_instant w in
  let! p := load r in
  match ps_active p with
  | Some _ => hret Connected
  | None =>
      let remaining := sat_sub (cn_deadline c) now in
      if remaining =? 0 then connect_expire w c
      else
        let mine := bool_decide (at_session_id <$> ps_attempt p = Some (cn_session_id c)) in
        let gone := match ps_attempt p with None => true | Some _ => false end in
        if negb mine && gone && negb (cn_superseded c) then hfail Superseded
        else
          let c := if negb mine && negb gone then with_superseded c else c in
          if negb (cn_superseded c) && negb (cn_fallback_sent c) && (cn_next_fallback c <=? now) then
            let! _ := send_probes w r (cn_session_id c) (cn_payload c) (cn_fallback c) in
            hret (Again (with_fallback_sent c))
          else if negb (cn_superseded c) && (cn_next_probe c <=? now) then
            let! _ := send_probes w r (cn_session_id c) (cn_payload c) (cn_candidates c) in
            hret (Again (with_next_probe (now + PROBE_RETRY_INTERVAL) c))
          else
            let for_probe := if cn_superseded c then remaining else sat_sub (cn_next_probe c) now in
            let for_fallback := if cn_superseded c || cn_fallback_sent c then remaining
                                else sat_sub (cn_next_fallback c) now in
            hret (Wait (Z.min remaining (Z.min for_probe for_fallback)) c)
  end.

(** ** Reconnecting *)

Definition set_running (b : bool) (p : PeerState N) : PeerState N :=
  set_ps_reconnect (mkReconnect (rc_requested (ps_reconnect p)) b (rc_attempts (ps_reconnect p))) p.

(** The delay before the next attempt of [reconnect_loop], or its end. *)
Definition reconnect_next (r : Z) : HX (option Z) :=
  let! n := hget in
  let p := peer_at r n in
  let rc := ps_reconnect p in
  if negb (rc_requested rc) || n_stopping n || negb (ps_online p)
     || (MAX_RECONNECT_ATTEMPTS <=? rc_attempts rc)
  then let! _ := update r (set_running false) in hret None
  else
    let! _ := update r (set_ps_reconnect (mkReconnect (rc_requested rc) (rc_running rc) (rc_attempts rc + 1))) in
    hret (Some (if rc_attempts rc =? 0 then 0
                else Z.min (reconnect_backoff cfg * Z.shiftl 1 (rc_attempts rc - 1)) (30 * 10 ^ 9))).

(** After the delay: whether the peer is still the one to connect to. *)
Definition reconnect_ready (r : Z) : HX bool :=
  let! n := hget in
  let p := peer_at r n in
  if n_stopping n || negb (ps_online p)
     || negb (bool_decide (n_peers n !! node_id (ps_info p) = Some r))
  then let! _ := update r (set_running false) in hret false
  else hret true.

(** The outcome of the attempt; the loop goes on after an error. *)
Definition reconnect_done (w : World) (r : Z) (res : result unit ConnectError) : HX bool :=
  match res with
  | Ok _ => let! _ := update r (set_ps_reconnect ReconnectState_default) in hret true
  | Err e => let! _ := update r (record_failure (ReconnectFailed e) (w_unix w)) in hret false
  end.

(** ** Keepalives *)

Definition needs_rekey (w : World) (s : ActiveSession) : bool :=
  (REKEY_AFTER <=? duration_since (w_instant w) (as_created_at s)) || (2 ^ 30 <=? as_tx_bytes s).

(** The peer's turn of [keepalive_loop]; [sid] is the id a new attempt gets. *)
Definition rekey (w : World) (r : Z) (s : ActiveSession) (sid : Z) : HC unit :=
  let! _ := update r (set_ps_active None) in
  let! _ := remove_session r (as_session_id s) in
  let! _ := update r (set_ps_attempt None) in
  let! p := load r in
  if bytes_ltb (my_id me) (node_id (ps_info p)) then
    let! _ := update r (set_ps_attempt (Some (new_attempt cfg w sid (candidates (ps_info p))))) in
    let! _ := (htry (start_initiator me w r (as_path s) sid) : HC (result unit CoreError)) in
    hret tt
  else hret tt.

Definition send_keepalive (w : World) (r : Z) (s : ActiveSession) (nonce : bytes) : HC unit :=
  let seq := as_tx_sequence s in
  let s := set_as_tx_sequence (fetch_add seq 1) s in
  match encrypt_payload (as_session_id s) (as_cipher s) KeepAlive seq nonce with
  | Err _ => update r (set_ps_active (Some s))
  | Ok payload =>
      let! _ := update r (set_ps_active
                  (Some (set_as_pending_keepalive (Some (nonce, w_instant w)) s))) in
      let! _ := (htry (send_packet w (as_path s) KeepAlive (as_session_id s) seq payload)
                 : HC (result unit CoreError)) in
      hret tt
  end.

Definition keepalive_turn (w : World) (r : Z) (nonce : bytes) (sid : Z) : HC unit :=
  let! n := hget in
  let p := peer_at r n in
  if (n_snapshot_expires_at n <=? w_unix w)
     || (bool_decide (is_Some (server_public_key cfg)) && membership_expired_at p (w_unix w))
  then invalidate_session r true
  else
    match ps_active p with
    | None => hret tt
    | Some s =>
        if 3 * keepalive_interval cfg <=? duration_since (w_instant w) (as_last_rx s) then
          let! _ := invalidate_session r true in schedule_reconnect r
        else if needs_rekey w s then rekey w r s sid
        else send_keepalive w r s nonce
    end.

(** ** Path MTU probes: the peer's turn of [mtu_loop] *)

Definition mtu_turn (w : World) (r : Z) (fresh : bytes) : HC unit :=
  let! p := load r in
  match ps_active p with
  | None => hret tt
  | Some s =>
      let '(probe, mtu) := poll_probe (as_path_mtu s) (w_instant w) fresh in
      let s := set_as_path_mtu mtu s in
      match probe with
      | None => update r (set_ps_active (Some s))
      | Some (target, nonce) =>
          if target <? Z.of_nat MTU_PROBE_NONCE_LEN then update r (set_ps_active (Some s))
          else
            let body := nonce ++ replicate (Z.to_nat target - MTU_PROBE_NONCE_LEN) 0 in
            let seq := as_tx_sequence s in
            let! _ := update r (set_ps_active (Some (set_as_tx_sequence (fetch_add seq 1) s))) in
            match encrypt_payload (as_session_id s) (as_cipher s) MtuProbe seq body with
            | Err _ => hret tt
            | Ok payload =>
                let! _ := (htry (send_packet w (as_path s) MtuProbe (as_session_id s) seq payload)
                           : HC (result unit CoreError)) in
                hret tt
            end
      end
  end.

(** ** Diagnostic pings *)

Definition forget_ping (nonce : bytes) (p : PeerState N) : PeerState N :=
  match ps_active p with
  | Some s => set_ps_active (Some (set_as_ping_waiters (as_ping_waiters s ∖ {[nonce]}) s)) p
  | None => p
  end.

(** One ping up to the wait for its answer. *)
Definition ping_begin (w : World) (id : bytes) (nonce : bytes)
    : handler (Node N) DiagnosticPingError unit :=
  let! n := hget in
  let! r := hlift (ok_or (n_peers n !! id) Ping_UnknownPeer) in
  let! s := hlift (ok_or (ps_active (peer_at r n)) Ping_NotConnected) in
  let seq := as_tx_sequence s in
  let! _ := update r (set_ps_active (Some (set_as_ping_waiters ({[nonce]} ∪ as_ping_waiters s)
                                              (set_as_tx_sequence (fetch_add seq 1) s)))) in
  let! payload := hlift (rmap_err Ping_Core
                    (encrypt_payload (as_session_id s) (as_cipher s) DiagnosticPing seq nonce)) in
  let! res := (htry (send_packet w (as_path s) DiagnosticPing (as_session_id s) seq payload)
               : handler (Node N) DiagnosticPingError (result unit CoreError)) in
  match res with
  | Ok _ => hret tt
  | Err e => let! _ := update r (forget_ping nonce) in hfail (Ping_Core e)
  end.

(** The end of the wait: the path of the answer if it came. *)
Definition ping_end (r : Z) (nonce : bytes) : handler (Node N) DiagnosticPingError SocketAddr :=
  let! n := hget in
  match List.find (fun x => bool_decide (x.1 = nonce)) (n_pongs n) with
  | Some x => hret x.2
  | None => let! _ := update r (forget_ping nonce) in hfail Ping_Timeout
  end.
End Timers.
