(* ===== verification/NodeInv.v ===== *)
(** * The invariant of a node

    The operations of a node as a step relation, and what every reachable node
    satisfies: the tables are consistent, every session in the index is the open
    session of a peer, and the queues, counters and path MTUs are in bounds. *)
From S2P Require Import Prelude Net Encoding Wire NodeId Snapshot SignedBytes Crypto Ip Replay Path Handshake NodeState NodePeers NodeSend NodeSession NodeData NodeTimers.

(** What opening gives is as many bytes as the ciphertext has. *)
Class AeadBytes (A : AeadOps) : Prop :=
  aead_open_bytes k n ad c t m :
    aead_open k n ad c t = Some m -> length m = length c /\ bytes_ok m.

Section Invariant.
Context {HH : Hash} {HSg : SignatureOps} {HA : AeadOps} {HK : HkdfOps} {HN : NoiseOps}.
Context (parse_credential : bytes -> option MembershipCredential).
Context (cfg : NodeConfig) (me : Local).
Context {HB : AeadBytes HA} (Hmtu : 0 <= virtual_mtu cfg).

Abbreviation N := (@NState HN).

Definition session_wf (s : ActiveSession) : Prop :=
  0 <= as_tx_sequence s < 2 ^ 64 /\ mtu_inv (virtual_mtu cfg) (as_path_mtu s)
  /\ exists seen, represents (as_replay s) seen.

(** The sequence number of a packet that was decoded. *)
Definition sequence_ok (d : DataPacket) : Prop := 0 <= sequence (dp_header d).

Definition peer_wf (p : PeerState N) : Prop :=
  (forall s, ps_active p = Some s -> session_wf s)
  /\ (length (ps_queue p) <= per_peer_queue_limit cfg)%nat
  /\ 0 <= rc_attempts (ps_reconnect p) <= MAX_RECONNECT_ATTEMPTS
  /\ (length (ps_path_history p) <= 32)%nat.

(** Every session in the index is the open session of its peer. *)
Definition sessions_wf (n : Node N) : Prop :=
  forall sid r, n_sessions n !! sid = Some r ->
  exists p s, n_heap n !! r = Some p /\ ps_active p = Some s /\ as_session_id s = sid.

Definition queue_wf (q : list DataPacket) : Prop :=
  (length q <= DATA_WORKER_QUEUE_LIMIT)%nat /\ Forall sequence_ok q.

(** The part that does not depend on which session is open. *)
Definition node_base (n : Node N) : Prop :=
  peers_wf n /\ (forall r p, n_heap n !! r = Some p -> peer_wf p)
  /\ (length (n_data_events n) <= CORE_EVENT_QUEUE_LIMIT)%nat
  /\ Forall queue_wf (n_data_queues n).

Definition node_inv (n : Node N) : Prop := node_base n /\ sessions_wf n.

(** ** Steps *)

(** A change of a peer that keeps its name. *)
Definition named (f : PeerState N -> PeerState N) (p : PeerState N) : Prop :=
  ps_node_id (f p) = ps_node_id p /\ node_id (ps_info (f p)) = node_id (ps_info p) /\ peer_wf (f p).

(** One that also keeps which session is open. *)
Definition tame (f : PeerState N -> PeerState N) (p : PeerState N) : Prop :=
  named f p /\ as_session_id <$> ps_active (f p) = as_session_id <$> ps_active p.

Lemma base_update_at r f n :
  node_base n -> (forall p, n_heap n !! r = Some p -> named f p) -> node_base (update_at r f n).
Proof.
  intros ((Hb & Hw) & Hp & He & Hq) Hf. unfold update_at. split_and!; [split| |done|done].
  - intros r' p Hl. cbn in Hl |- *.
    apply lookup_alter_Some in Hl as [(<- & q & Hl & ->)|[_ Hl]]; by eapply Hb.
  - intros id r' Hl. destruct (Hw id r' Hl) as (p & Hl' & Hn & Hi).
    destruct (decide (r' = r)) as [->|Hne].
    + exists (f p). destruct (Hf p Hl') as (Hfn & Hfi & _). cbn. rewrite lookup_alter_eq, Hl'.
      split_and!; [done|congruence..].
    + exists p. cbn. by rewrite lookup_alter_ne.
  - intros r' p Hl. cbn in Hl.
    apply lookup_alter_Some in Hl as [(<- & q & Hl & ->)|[_ Hl]]; [by apply Hf | by eapply Hp].
Qed.

Lemma inv_update_at r f n :
  node_inv n -> (forall p, n_heap n !! r = Some p -> tame f p) -> node_inv (update_at r f n).
Proof.
  intros [Hb Hs] Hf. split; [apply base_update_at; [done|]; intros p Hp; by apply Hf|].
  intros sid r' Hl. destruct (Hs sid r' Hl) as (p & s & Hl' & Ha & Hsid). cbn.
  destruct (decide (r' = r)) as [->|Hne].
  - destruct (Hf p Hl') as (_ & Hk). rewrite Ha in Hk. apply fmap_Some in Hk as (s' & Hs' & E).
    exists (f p), s'. rewrite lookup_alter_eq, Hl'. split_and!; [done|done|congruence].
  - exists p, s. by rewrite lookup_alter_ne.
Qed.

Lemma inv_peer n r p : node_inv n -> n_heap n !! r = Some p -> peer_wf p.
Proof. intros ((_ & H & _) & _). apply H. Qed.

Lemma inv_update_tame r f n :
  (forall p, peer_wf p -> tame f p) -> node_inv n -> node_inv (update_at r f n).
Proof. intros Hf Hn. apply inv_update_at; [done|]. intros p Hp. by eapply Hf, inv_peer. Qed.

Lemma keeps_inv_update {E} r f :
  (forall p, peer_wf p -> tame f p) -> keeps node_inv (update r f : handler (Node N) E unit).
Proof. intros Hf n Hn. by apply inv_update_tame. Qed.

Lemma keeps_inv_emit {E} ev : keeps node_inv (emit ev : handler (Node N) E bool).
Proof.
  intros n Hn. unfold emit. destruct ev; try done. destruct Hn as ((H1 & H2 & H4 & H5) & H3).
  destruct (Nat.ltb_spec (length (n_data_events n)) CORE_EVENT_QUEUE_LIMIT); [|by split].
  split; [|done]. split_and!; try done. cbn [n_data_events set_n_data_events snd]. rewrite length_app. cbn [length]. lia.
Qed.

Lemma keeps_inv_spawn {E} t : keeps node_inv (spawn t : handler (Node N) E unit).
Proof. by intros n Hn. Qed.

Lemma keeps_inv_load {E} r : keeps node_inv (load r : handler (Node N) E _).
Proof. by intros n Hn. Qed.

Lemma keeps_inv_count {E} g s k : keeps node_inv (count g s k : handler (Node N) E unit).
Proof. by intros n Hn. Qed.

Lemma keeps_inv_count_peer {E} r g s : keeps node_inv (count_peer r g s : handler (Node N) E unit).
Proof. apply keeps_inv_update. by intros p Hp. Qed.

Lemma keeps_inv_udp {E} w t b : keeps node_inv (udp_send w t b : handler (Node N) E bool).
Proof. intros n Hn. unfold udp_send. by destruct (w_udp w t b). Qed.

Lemma inv_remove_session r sid n :
  node_inv n -> node_inv (snd ((remove_session r sid : handler (Node N) CoreError unit) n)).
Proof.
  intros [H1 H3]. cbn. case_bool_decide; [|by split]. split; [done|].
  intros sid' r' Hl. cbn in Hl. apply lookup_delete_Some in Hl as [_ Hl]. by apply H3.
Qed.

Lemma keeps_inv_remove_session {E} r sid :
  keeps node_inv (remove_session r sid : handler (Node N) E unit).
Proof. intros n Hn. by apply (inv_remove_session r sid). Qed.

#[local] Hint Resolve keeps_inv_emit keeps_inv_spawn keeps_inv_load keeps_inv_count
  keeps_inv_count_peer keeps_inv_udp keeps_inv_remove_session : core.

(** The bounds of a peer one of whose fields changed. *)
Ltac peer_steps :=
  match goal with
  | H : peer_wf ?p |- peer_wf (_ ?p) =>
      destruct H as (? & ? & ? & ?); split_and!; cbn; try done;
      unfold MAX_RECONNECT_ATTEMPTS in *; lia
  end.

Ltac tame_steps :=
  let p := fresh "p" in let Hp := fresh "Hp" in intros p Hp; split; [split_and!|];
  first [done | exact Hp | peer_steps].

Ltac inv_steps :=
  keeps_walk; auto;
  repeat match goal with
  | |- keeps node_inv (update _ _) => apply keeps_inv_update; tame_steps
  end.

Lemma keeps_inv_send_packet w t ty sid seq b :
  keeps node_inv (send_packet w t ty sid seq b : handler (Node N) CoreError unit).
Proof. unfold send_packet. inv_steps. Qed.

Lemma keeps_inv_connecting {E} r : keeps node_inv (emit_peer_connecting r : handler (Node N) E unit).
Proof. unfold emit_peer_connecting. inv_steps. Qed.

Lemma keeps_inv_schedule {E} r : keeps node_inv (schedule_reconnect r : handler (Node N) E unit).
Proof. unfold schedule_reconnect. inv_steps. Qed.

(** ** Closing a session *)

Lemma active_update_at r r' (f : PeerState N -> PeerState N) n :
  (forall p, ps_active (f p) = ps_active p) ->
  ps_active (peer_at r (update_at r' f n)) = ps_active (peer_at r n).
Proof.
  intros Hf. unfold peer_at, update_at. cbn. rewrite !lookup_total_alt.
  destruct (decide (r = r')) as [->|Hne].
  - rewrite lookup_alter_eq. destruct (n_heap n !! r'); [apply Hf | done].
  - by rewrite lookup_alter_ne.
Qed.

(** Taking the open session of a peer and removing it from the index. *)
Lemma inv_close {E A} r n a (k : unit -> handler (Node N) E A) :
  node_inv n -> ps_active (peer_at r n) = a -> keeps node_inv (k tt) ->
  node_inv (snd ((let! _ := update r (set_ps_active None) in
                  let! x := match a with
                            | Some s => remove_session r (as_session_id s)
                            | None => hret tt
                            end in k x) n)).
Proof.
  intros [Hb Hs] Ha Hk. unfold update, hmodify. unfold hbind at 1.
  set (x := update_at r (set_ps_active None) n).
  assert (Hbx : node_base x).
  { apply base_update_at; [done|]. intros p Hp. destruct Hb as (_ & Hpw & _).
    destruct (Hpw r p Hp) as (_ & ?). by split_and!. }
  assert (Hx : forall sid r', n_sessions x !! sid = Some r' -> r' <> r ->
    exists p s, n_heap x !! r' = Some p /\ ps_active p = Some s /\ as_session_id s = sid).
  { intros sid r' Hl Hne. destruct (Hs sid r' Hl) as (p & s & Hp & ?). exists p, s. cbn.
    by rewrite lookup_alter_ne. }
  assert (Hr : forall sid, n_sessions x !! sid = Some r -> exists s, a = Some s /\ as_session_id s = sid).
  { intros sid Hl. destruct (Hs sid r Hl) as (p & s & Hp & Hact & Hsid). exists s. split; [|done].
    rewrite <- Ha. unfold peer_at. by rewrite (lookup_total_correct _ _ _ Hp). }
  destruct a as [s|].
  - unfold remove_session, hmodify, hbind. apply Hk. case_bool_decide as Hin.
    + split; [exact Hbx|]. intros sid r' Hl. cbn in Hl. apply lookup_delete_Some in Hl as [Hne Hl].
      apply Hx; [done|]. intros ->. destruct (Hr sid Hl) as (s' & [= <-] & ?). done.
    + split; [done|]. intros sid r' Hl. apply Hx; [done|]. intros ->.
      destruct (Hr sid Hl) as (s' & [= <-] & <-). done.
  - unfold hbind, hret. apply Hk. split; [done|]. intros sid r' Hl. apply Hx; [done|]. intros ->.
    by destruct (Hr sid Hl) as (s' & ? & _).
Qed.

Lemma keeps_inv_invalidate {E} r expected request :
  keeps node_inv (invalidate_session_if r expected request : handler (Node N) E unit).
Proof.
  intros n Hn. unfold invalidate_session_if. unfold hbind at 1, load.
  match goal with |- node_inv (snd ((if ?b then _ else _) n)) => destruct b end; [done|].
  apply inv_close; [done|done|]. inv_steps.
Qed.

Lemma keeps_inv_retire r who always : keeps node_inv (retire r who always).
Proof.
  intros n Hn. unfold retire. unfold hbind at 1, load. set (a := ps_active (peer_at r n)).
  unfold hbind at 1, update at 1, hmodify at 1. unfold hbind at 1, update at 1, hmodify at 1.
  apply inv_close.
  - apply inv_update_tame; [tame_steps|]. apply inv_update_tame; [tame_steps|done].
  - by rewrite !active_update_at.
  - inv_steps.
Qed.

(** ** Membership *)

Lemma peer_new_wf info online key : peer_wf (with_online parse_credential info online key).
Proof. split_and!; cbn; unfold MAX_RECONNECT_ATTEMPTS; try done; lia. Qed.

(** A fresh peer in the heap. *)
Lemma sessions_fresh n x p :
  sessions_wf n -> heap_bounded n -> n_sessions x = n_sessions n ->
  n_heap x = <[n_next_ref n := p]> (n_heap n) -> sessions_wf x.
Proof.
  intros Hs Hb Es Eh sid r Hl. rewrite Es in Hl. destruct (Hs sid r Hl) as (q & s & Hq & ?).
  exists q, s. rewrite Eh, lookup_insert_ne; [done|]. by eapply heap_fresh.
Qed.

Lemma keeps_inv_alloc {E} p : peer_wf p -> keeps node_inv (alloc p : handler (Node N) E Z).
Proof.
  intros Hp n [((Hb & Hw) & Hpw & He & Hq) Hs]. split.
  - split_and!; [split| |done|done].
    + intros r q Hl. cbn in Hl |- *. apply lookup_insert_Some in Hl as [[<- _]|[_ Hl]]; [lia|].
      apply Hb in Hl. lia.
    + intros id r Hl. destruct (Hw id r Hl) as (q & Hl' & ?). exists q. cbn.
      rewrite lookup_insert_ne; [done|]. by eapply heap_fresh.
    + intros r q Hl. cbn in Hl. apply lookup_insert_Some in Hl as [[_ <-]|[_ Hl]]; [done|]. by eapply Hpw.
  - by eapply sessions_fresh.
Qed.

Lemma inv_install_peer info n :
  node_inv n -> node_inv (install_peer parse_credential cfg info n).
Proof.
  intros [(Hw & Hpw & He & Hq) Hs].
  destruct (install_peer_fields parse_credential cfg info n) as (Hh & Hn & Hp).
  assert (Hrest : n_data_events (install_peer parse_credential cfg info n) = n_data_events n
    /\ n_data_queues (install_peer parse_credential cfg info n) = n_data_queues n
    /\ n_sessions (install_peer parse_credential cfg info n) = n_sessions n).
  { unfold install_peer. by destruct (n_peers n !! node_id info). }
  destruct Hrest as (E1 & E2 & E3). split.
  - split_and!; [by apply install_peer_named| |by rewrite E1|by rewrite E2].
    intros r q. rewrite Hh. intros [[_ <-]|[_ Hl]]%lookup_insert_Some; [apply peer_new_wf | by eapply Hpw].
  - destruct Hw as [Hb _]. by eapply sessions_fresh.
Qed.

Lemma keeps_inv_register w info : keeps node_inv (register_peer parse_credential cfg w info).
Proof.
  unfold register_peer. inv_steps.
  - apply keeps_modify. intros n Hn. by apply inv_install_peer.
  - apply keeps_inv_retire.
Qed.

Lemma inv_uninstall id r n : node_inv n -> node_inv (uninstall_peer id r n).
Proof.
  intros [((Hb & Hw) & Hpw & He & Hq) Hs]. split; [|done]. split_and!; [split|done..]; [done|].
  intros i r' Hl. unfold uninstall_peer in Hl. cbn [n_peers set_n_routes set_n_peers] in Hl.
  apply lookup_delete_Some in Hl as [_ Hl]. by apply Hw.
Qed.

Lemma keeps_inv_remove_peer id : keeps node_inv (remove_peer id).
Proof.
  unfold remove_peer. inv_steps.
  - apply keeps_modify. intros n Hn. by apply inv_uninstall.
  - apply keeps_inv_retire.
Qed.

(** The loop of [apply_snapshot] also keeps the names of the peers it found. *)
Definition inv_names (old : gmap bytes Z) (n : Node N) : Prop :=
  node_inv n /\ forall id r, old !! id = Some r -> peer_named n id r.

Lemma names_update_at (old : gmap bytes Z) r f n :
  (forall id r', old !! id = Some r' -> peer_named n id r') ->
  (forall p, n_heap n !! r = Some p -> named f p) ->
  forall id r', old !! id = Some r' -> peer_named (update_at r f n) id r'.
Proof.
  intros Hn Hf id r' Hl. destruct (Hn id r' Hl) as (p & Hp & Hpn & Hpi).
  destruct (decide (r' = r)) as [->|Hne].
  - exists (f p). destruct (Hf p Hp) as (E1 & E2 & _). cbn. rewrite lookup_alter_eq, Hp.
    split_and!; [done|congruence..].
  - exists p. cbn. by rewrite lookup_alter_ne.
Qed.

Lemma keeps_names_update {E} old r f :
  (forall p, peer_wf p -> tame f p) -> keeps (inv_names old) (update r f : handler (Node N) E unit).
Proof.
  intros Hf n [Hn Hnm]. split; [by apply inv_update_tame|].
  intros id r' Hl. apply (names_update_at old); [done| |done]. intros p Hp. by eapply Hf, inv_peer.
Qed.

Lemma keeps_names_info {E} old r info :
  old !! node_id info = Some r ->
  keeps (inv_names old) (update r (update_info parse_credential info (server_public_key cfg))
                         : handler (Node N) E unit).
Proof.
  intros Hl n [Hn Hnm]. destruct (Hnm _ _ Hl) as (q & Hq & _ & Hqi).
  assert (Hf : forall p, n_heap n !! r = Some p ->
    tame (update_info parse_credential info (server_public_key cfg)) p).
  { intros p Hp. assert (p = q) as -> by congruence. split; [|done].
    split_and!; [done|done|]. exact (inv_peer n r q Hn Hq). }
  split; [by apply inv_update_at|].
  intros id r' Hl'. apply (names_update_at old); [done| |done]. intros p Hp. by apply Hf.
Qed.

Lemma keeps_names_invalidate {E} old r request :
  keeps (inv_names old) (invalidate_session r request : handler (Node N) E unit).
Proof.
  intros n [Hn Hnm]. split; [by apply keeps_inv_invalidate|]. intros id r' Hl.
  destruct (Hnm id r' Hl) as (p & Hp & ? & ?).
  pose proof (frame_invalidate (E := E) r n None request n (frame_refl r n))
    as (_ & _ & _ & _ & _ & _ & F7 & F8). unfold invalidate_session.
  destruct (decide (r' = r)) as [->|Hne].
  - destruct (F8 p Hp) as (q & Hq & ? & ? & _). exists q. split_and!; [done|congruence..].
  - exists p. by rewrite F7.
Qed.

Lemma keeps_names_alloc {E} old p :
  peer_wf p -> keeps (inv_names old) (alloc p : handler (Node N) E Z).
Proof.
  intros Hp n [Hn Hnm]. split; [by apply keeps_inv_alloc|]. intros id r Hl.
  destruct (Hnm id r Hl) as (q & Hq & ?). exists q. cbn. rewrite lookup_insert_ne; [done|].
  destruct Hn as [((Hb & _) & _) _]. by eapply heap_fresh.
Qed.

Lemma keeps_names_load {E} old r : keeps (inv_names old) (load r : handler (Node N) E _).
Proof. by intros n Hn. Qed.

Lemma keeps_names_apply_peer w online old info rep rc :
  keeps (inv_names old) (apply_peer parse_credential cfg me w online old info rep rc).
Proof.
  unfold apply_peer, refresh_peer. destruct (old !! node_id info) as [r|] eqn:Hl.
  - keeps_walk; auto using keeps_names_load, keeps_names_invalidate.
    all: first [by apply keeps_names_info | apply keeps_names_update; tame_steps].
  - keeps_walk. apply keeps_names_alloc, peer_new_wf.
Qed.

Lemma keeps_names_apply_peers w online old infos rep rc :
  keeps (inv_names old) (apply_peers parse_credential cfg me w online old infos rep rc).
Proof.
  revert rep rc; induction infos as [|info infos IH]; intros rep rc; cbn [apply_peers].
  - apply keeps_ret.
  - apply keeps_bind; [apply keeps_names_apply_peer|]. intros [rep' rc']. apply IH.
Qed.

Lemma keeps_inv_drop_member r : keeps node_inv (drop_member r).
Proof. unfold drop_member. inv_steps. apply keeps_inv_invalidate. Qed.

Lemma inv_apply_snapshot w sn n :
  node_inv n -> node_inv (snd (apply_snapshot parse_credential cfg me w sn n)).
Proof.
  intros Hn. unfold apply_snapshot. unfold hbind at 1, hget. unfold hbind at 1, hlift.
  destruct (check_snapshot cfg me w sn n) as [local|e] eqn:Hc; [|done].
  pose proof (check_snapshot_Ok _ _ _ _ _ _ Hc) as (Hv & _). apply validate_distinct in Hv as (Hids & _).
  pose proof (keeps_names_apply_peers w (online_peers sn) (n_peers n) (peers sn) ∅ [] n) as Hk.
  unfold hbind at 1.
  destruct (apply_peers _ _ _ _ _ _ _ _ _ n) as [[[rep rc]|e] n1] eqn:Ep; cbn [snd] in Hk.
  2: { apply Hk. split; [done|]. apply Hn. }
  destruct Hk as [Hn1 _]. { split; [done|]. apply Hn. }
  apply (apply_peers_spec _ _ _ _ _ _ _ []) in Ep as [HL _].
  2: { split_and!; [apply Hn| apply Hn | |]; intros ?; [by rewrite lookup_empty | set_solver]. }
  2: done.
  unfold hbind at 1. unfold hbind at 1, hmodify at 1.
  match goal with |- node_inv (snd (?m ?x)) => assert (Hx : node_inv x) end.
  { destruct Hn1 as [((Hb & _) & Hpw & He & Hq) Hs]. split; [|done]. split_and!; [split|done..]; [done|].
    intros id r Hl. destruct HL as (_ & _ & Hrep & _). destruct (Hrep id r Hl) as (p & ? & ? & ? & _).
    by exists p. }
  revert Hx. match goal with |- node_inv ?x -> _ => generalize x end.
  match goal with |- forall x, node_inv x -> node_inv (snd (?m x)) => change (keeps node_inv m) end.
  apply keeps_bind; [|intros _]; apply keeps_for_each, Forall_forall.
  - intros r _. apply keeps_inv_drop_member.
  - intros kv _. apply keeps_inv_schedule.
Qed.

(** ** Changing the open session *)

Lemma tame_active s s' p :
  ps_active p = Some s -> as_session_id s' = as_session_id s -> (session_wf s -> session_wf s') ->
  peer_wf p -> tame (set_ps_active (Some s')) p.
Proof.
  intros Ha Hid Hwf (Hs & Hp). split; [|rewrite Ha; cbn; by rewrite Hid].
  split_and!; [done..|]. split; [|done]. intros x [= <-]. by apply Hwf, Hs.
Qed.

Lemma tame_ext (g f : PeerState N -> PeerState N) p : f p = g p -> tame g p -> tame f p.
Proof. unfold tame, named. by intros ->. Qed.

Lemma tame_id p : peer_wf p -> tame id p.
Proof. by intros Hp. Qed.

Lemma inv_set_session r s s' n :
  node_inv n -> ps_active (peer_at r n) = Some s -> as_session_id s' = as_session_id s ->
  (session_wf s -> session_wf s') -> node_inv (update_at r (set_ps_active (Some s')) n).
Proof.
  intros Hn Ha Hid Hwf. apply inv_update_at; [done|]. intros p Hp.
  unfold peer_at in Ha. rewrite (lookup_total_correct _ _ _ Hp) in Ha.
  eapply tame_active; [done..|]. by eapply inv_peer.
Qed.

Lemma session_wf_of r s n : node_inv n -> ps_active (peer_at r n) = Some s -> session_wf s.
Proof.
  intros Hn Ha. unfold peer_at in Ha. rewrite lookup_total_alt in Ha.
  destruct (n_heap n !! r) as [p|] eqn:Hp; [|done].
  destruct (inv_peer n r p Hn Hp) as (Hs & _). by apply Hs.
Qed.

Lemma fetch_add_range c k : 0 <= fetch_add c k < 2 ^ 64.
Proof. unfold fetch_add, wrap. apply Z.mod_pos_bound. lia. Qed.

(** ** Sending *)

Lemma seal_all_tx r id s tx l :
  0 <= tx < 2 ^ 64 -> 0 <= snd (seal_all cfg r id s tx l) < 2 ^ 64.
Proof.
  revert tx; induction l as [|p l IH]; intros tx Htx; [done|]. cbn [seal_all].
  destruct (_ || _).
  - specialize (IH tx Htx). by destruct (seal_all cfg r id s tx l).
  - specialize (IH _ (fetch_add_range tx 1)). by destruct (seal_all cfg r id s (fetch_add tx 1) l).
Qed.

Lemma queue_all_length q l :
  (length q <= per_peer_queue_limit cfg)%nat ->
  (length (snd (queue_all cfg q l)) <= per_peer_queue_limit cfg)%nat.
Proof.
  revert q; induction l as [|p l IH]; intros q Hq; [done|]. cbn [queue_all].
  destruct (too_large cfg p); [specialize (IH q Hq); by destruct (queue_all cfg q l)|].
  destruct (Nat.leb_spec (per_peer_queue_limit cfg) (length q)).
  - specialize (IH q Hq). by destruct (queue_all cfg q l).
  - specialize (IH (q ++ [ip_bytes p])). rewrite length_app in IH. cbn [length] in IH.
    specialize (IH ltac:(lia)). by destruct (queue_all cfg (q ++ [ip_bytes p]) l).
Qed.

Lemma keeps_inv_prepare w r l :
  keeps node_inv (prepare_ip_packets cfg w r l : handler (Node N) SendError _).
Proof.
  intros n Hn. unfold prepare_ip_packets. unfold hbind at 1, hget. destruct l as [|p0 l0]; [done|].
  set (l := p0 :: l0). destruct (n_snapshot_expires_at n <=? w_unix w).
  { apply keeps_bind; [apply keeps_inv_invalidate | intros _; apply keeps_ret | done]. }
  destruct (ps_active (peer_at r n)) as [s|] eqn:Ha.
  - pose proof (seal_all_tx r (ps_node_id (peer_at r n)) s (as_tx_sequence s) l) as Htx.
    destruct (seal_all cfg r _ s (as_tx_sequence s) l) as [rs tx]. cbn [snd] in *.
    apply (inv_set_session r s); [done..|]. intros (? & ? & ?). split_and!; [apply Htx; lia..|done|done].
  - pose proof (queue_all_length (ps_queue (peer_at r n)) l) as Hq.
    destruct (queue_all cfg (ps_queue (peer_at r n)) l) as [rs q]. cbn [snd] in *.
    apply inv_update_at; [done|]. intros p Hp. pose proof (inv_peer _ _ _ Hn Hp) as (? & ? & ? & ?).
    unfold peer_at in Hq. rewrite (lookup_total_correct _ _ _ Hp) in Hq.
    split; [|done]. split_and!; [done|done|]. split_and!; cbn; first [done | lia | by apply Hq].
Qed.

Lemma keeps_inv_record_sent l : keeps node_inv (record_sent_batch l : handler (Node N) SendError unit).
Proof.
  destruct l as [|d l]; [apply keeps_ret|]. apply keeps_inv_update. intros p Hp.
  destruct (ps_active p) as [s|] eqn:Ha; [destruct (as_session_id s =? pd_session_id d) eqn:E|].
  - apply (tame_ext (set_ps_active (Some (add_tx_bytes (d :: l) s)))); [by rewrite Ha, E|].
    by eapply tame_active.
  - apply (tame_ext id); [by rewrite Ha, E | by apply tame_id].
  - apply (tame_ext id); [by rewrite Ha | by apply tame_id].
Qed.

Lemma keeps_inv_send_ip_packet w r p :
  keeps node_inv (send_ip_packet cfg w r p : handler (Node N) SendError unit).
Proof.
  unfold send_ip_packet, prepare_ip_packet. apply keeps_bind.
  - apply keeps_bind; [apply keeps_inv_prepare | intros rs; apply keeps_ret].
  - intros [[[d|]|e]|]; inv_steps; [apply keeps_inv_record_sent | apply keeps_inv_invalidate].
Qed.

Lemma keeps_inv_modify_sent {E} f :
  keeps node_inv (hmodify (fun n => set_n_sent (f n) n) : handler (Node N) E unit).
Proof. by intros n Hn. Qed.

Lemma keeps_inv_send_prepared w l :
  keeps node_inv (send_prepared_batch w l : handler (Node N) SendError _).
Proof.
  unfold send_prepared_batch. induction (group_runs same_flow l) as [|g gs IH]; cbn [send_groups].
  - apply keeps_ret.
  - apply keeps_bind; [|intros rs; apply keeps_bind; [done|intros ?; apply keeps_ret]].
    unfold send_group. inv_steps;
      auto using keeps_inv_modify_sent, keeps_inv_record_sent; apply keeps_inv_invalidate.
Qed.

Lemma keeps_inv_send_payload w r b :
  keeps node_inv (send_payload cfg w r b : handler (Node N) SendError unit).
Proof. unfold send_payload. inv_steps. apply keeps_inv_send_ip_packet. Qed.

Lemma keeps_inv_flush fuel w r :
  keeps node_inv (flush_queue cfg fuel w r : handler (Node N) SendError unit).
Proof.
  induction fuel as [|k IH]; [apply keeps_ret|]. intros n Hn. cbn [flush_queue].
  unfold hbind at 1, load. destruct (ps_queue (peer_at r n)) as [|b q] eqn:Eq; [done|].
  unfold hbind at 1, update, hmodify. apply keeps_bind.
  - apply keeps_try, keeps_inv_send_payload.
  - intros [u|e]; [exact IH | apply keeps_ret].
  - apply inv_update_at; [done|]. intros p Hp. pose proof (inv_peer _ _ _ Hn Hp) as (? & Hlen & ? & ?).
    unfold peer_at in Eq. rewrite (lookup_total_correct _ _ _ Hp) in Eq. rewrite Eq in Hlen. cbn in Hlen.
    split; [|done]. split_and!; [done|done|]. split_and!; cbn; first [done | lia].
Qed.

Lemma keeps_inv_after_send r id b res :
  keeps node_inv (after_send r id b res : handler (Node N) SendError unit).
Proof. unfold after_send. destruct res as [u|[]]; inv_steps. apply keeps_inv_schedule. Qed.

Lemma keeps_inv_send_ip w b : keeps node_inv (send_ip cfg w b : handler (Node N) SendError unit).
Proof.
  unfold send_ip. inv_steps; [apply keeps_inv_send_ip_packet | apply keeps_inv_after_send].
Qed.

Lemma keeps_inv_handle_send_ip w id b :
  keeps node_inv (handle_send_ip cfg w id b : handler (Node N) SendError unit).
Proof.
  unfold handle_send_ip. inv_steps; [apply keeps_inv_send_payload | apply keeps_inv_after_send].
Qed.

Lemma keeps_inv_prepare_groups w gs results :
  keeps node_inv (prepare_groups cfg w gs results : handler (Node N) SendError _).
Proof.
  revert results; induction gs as [|g gs IH]; intros results; cbn [prepare_groups]; [apply keeps_ret|].
  apply keeps_bind.
  - unfold prepare_group. destruct g as [|x g]; [apply keeps_ret|].
    apply keeps_bind; [apply keeps_get|intros n]. cbn zeta.
    apply keeps_bind; [apply keeps_inv_prepare | intros rs; apply keeps_ret].
  - intros [[sends connects] rs]. apply keeps_bind; [apply IH|]. intros [[? ?] ?]. apply keeps_ret.
Qed.

Lemma keeps_inv_record_results l results :
  keeps node_inv (record_results l results : handler (Node N) SendError _).
Proof.
  revert results; induction l as [|[[i d] res] l IH]; intros results; cbn [record_results].
  - apply keeps_ret.
  - apply keeps_bind; [|intros _; apply IH].
    destruct res as [u|[]]; try apply keeps_ret. apply keeps_inv_schedule.
Qed.

Lemma keeps_inv_for_each {E A} (f : A -> handler (Node N) E unit) l :
  (forall x, keeps node_inv (f x)) -> keeps node_inv (for_each f l).
Proof.
  intros Hf. induction l as [|x l IH]; cbn [for_each]; [apply keeps_ret|].
  apply keeps_bind; [apply Hf|]. by intros _.
Qed.

Lemma keeps_inv_send_ip_batch w l :
  keeps node_inv (send_ip_batch cfg w l : handler (Node N) SendError _).
Proof.
  unfold send_ip_batch. apply keeps_bind; [apply keeps_get|intros n].
  destruct (route_batch n 0 l _) as [routed results]. cbn zeta.
  apply keeps_bind; [apply keeps_inv_prepare_groups|intros [[sends connects] rs]].
  apply keeps_bind; [apply keeps_inv_send_prepared|intros outcomes].
  apply keeps_bind; [apply keeps_inv_record_results|intros rs'].
  apply keeps_bind; [|intros _; apply keeps_ret]. apply keeps_inv_for_each. intros id. inv_steps.
Qed.

(** ** Probes and handshakes *)

(** A change of the attempt, or none. *)
Lemma tame_attempt f p : f p = p \/ (exists a, f p = set_ps_attempt a p) -> peer_wf p -> tame f p.
Proof.
  intros [E|[a E]] Hp; [apply (tame_ext id); [exact E | by apply tame_id]|].
  apply (tame_ext (set_ps_attempt a)); [done|]. by split; [split_and!|].
Qed.

Lemma on_attempt_cases sid f (p : PeerState N) :
  on_attempt sid f p = p \/ exists a, on_attempt sid f p = set_ps_attempt a p.
Proof. unfold on_attempt. repeat case_match; eauto. Qed.

Lemma tame_record_path path cands now p : peer_wf p -> tame (record_path path cands now) p.
Proof.
  intros Hp. pose proof Hp as (Hs & Hq & Hr & Hh).
  assert (Hc : forall h, (length h <= 32)%nat -> tame (set_ps_path_history h) p).
  { intros h Hl. split; [|done]. split_and!; [done|done|]. split_and!; cbn; first [done | lia]. }
  unfold tame, named, record_path. destruct (rev (ps_path_history p)) as [|c l].
  - apply (Hc [mkPathChange path (candidate_type cands path) now]). cbn. lia.
  - case_bool_decide; [done|]. apply Hc.
    destruct (Nat.ltb_spec 32 (length (ps_path_history p ++ [mkPathChange path (candidate_type cands path) now]))) as [Hlt|];
      [|done].
    rewrite length_app in Hlt. cbn in Hlt.
    destruct (ps_path_history p) as [|x h]; cbn in *; [lia|]. rewrite length_app. cbn. lia.
Qed.

Lemma keeps_inv_start_initiator w r path sid :
  keeps node_inv (start_initiator me w r path sid).
Proof.
  unfold start_initiator, initiator_payload. inv_steps;
    auto using keeps_inv_send_packet, keeps_inv_connecting.
Qed.

Lemma keeps_inv_authenticate w payload :
  keeps node_inv (authenticate_probe parse_credential cfg me w payload).
Proof. unfold authenticate_probe. inv_steps. by intros n Hn. Qed.

Lemma keeps_inv_probe w payload source :
  keeps node_inv (handle_probe parse_credential cfg me w payload source).
Proof.
  unfold handle_probe. apply keeps_bind; [apply keeps_inv_authenticate|intros [probe r]]. cbn zeta.
  apply keeps_bind; [apply keeps_inv_send_packet|intros _].
  apply keeps_bind; [apply keeps_inv_connecting|intros _].
  destruct (bytes_ltb _ _); [|apply keeps_ret].
  apply keeps_bind; [|intros _; apply keeps_inv_start_initiator].
  apply keeps_inv_update. intros p Hp. apply tame_attempt; [|done].
  match goal with |- context [if ?b then _ else p] => destruct b end; eauto.
Qed.

Lemma keeps_inv_probe_response w payload source :
  keeps node_inv (handle_probe_response parse_credential cfg me w payload source).
Proof.
  unfold handle_probe_response. apply keeps_bind; [apply keeps_inv_authenticate|intros [probe r]].
  cbn zeta. inv_steps; auto using keeps_inv_start_initiator.
  apply keeps_inv_update. intros p Hp. apply tame_attempt; [apply on_attempt_cases | done].
Qed.

(** Opening a session: the session is put in place and indexed. *)
Lemma inv_open r sid s n p :
  node_inv n -> n_heap n !! r = Some p -> ps_active p = None -> as_session_id s = sid ->
  session_wf s ->
  node_inv (set_n_sessions (<[sid := r]> (n_sessions n)) (update_at r (set_ps_active (Some s)) n)).
Proof.
  intros [Hb Hs] Hp Ha Hid Hwf. split.
  - apply (base_update_at r (set_ps_active (Some s))); [done|]. intros q Hq.
    destruct Hb as (_ & Hpw & _). destruct (Hpw r q Hq) as (_ & ?).
    split_and!; [done|done|]. split; [|done]. by intros x [= <-].
  - intros sid' r' Hl. cbn in Hl |- *. apply lookup_insert_Some in Hl as [[<- <-]|[Hne Hl]].
    + exists (set_ps_active (Some s) p), s. by rewrite lookup_alter_eq, Hp.
    + destruct (Hs sid' r' Hl) as (q & x & Hq & Hx & ?). exists q, x.
      rewrite lookup_alter_ne; [done|]. intros <-. congruence.
Qed.

Lemma new_session_wf w sid path c : session_wf (new_session cfg w sid path c).
Proof.
  split; [done|]. split; [|exists []; apply represents_default].
  apply mtu_new_inv; [|done]. unfold safe_virtual_mtu, DEFAULT_VIRTUAL_MTU. lia.
Qed.

Lemma inv_establish w r sid path c expected n :
  node_inv n -> is_Some (n_heap n !! r) ->
  node_inv (snd (establish cfg w r sid path c expected n)).
Proof.
  intros Hn [p Hp]. unfold establish. unfold hbind at 1, load. unfold peer_at at 1 2 3.
  rewrite (lookup_total_correct _ _ _ Hp).
  destruct (ps_active p) as [s|] eqn:Ha; [done|]. cbn [orb].
  destruct (negb _); [done|].
  unfold hbind at 1, update at 1, hmodify at 1. unfold hbind at 1, hmodify at 1.
  match goal with |- node_inv (snd (?m ?x)) => assert (Hx : node_inv x) end.
  { exact (inv_open r sid (new_session cfg w sid path c) n p Hn Hp Ha eq_refl (new_session_wf w sid path c)). }
  revert Hx. match goal with |- node_inv ?x -> _ => generalize x end.
  match goal with |- forall x, node_inv x -> node_inv (snd (?m x)) => change (keeps node_inv m) end.
  inv_steps; try apply keeps_inv_flush. apply keeps_inv_update, tame_record_path.
Qed.

(** The peer a handshake is for stays in the heap. *)
Definition inv_at (r : Z) (n : Node N) : Prop := node_inv n /\ is_Some (n_heap n !! r).

Lemma at_send_packet r w t ty sid seq b :
  keeps (inv_at r) (send_packet w t ty sid seq b : handler (Node N) CoreError unit).
Proof.
  intros n [Hn Hr]. split; [by apply keeps_inv_send_packet|].
  unfold send_packet, hbind, hlift, udp_send.
  destruct (rmap_err _ (Header_new _ _ _ _)) as [h|]; [|done].
  destruct (rmap_err _ (WirePacket_encode _)) as [pkt|]; [|done]. by destruct (w_udp w t pkt).
Qed.

Lemma at_close_previous r : keeps (inv_at r) (close_previous r).
Proof.
  intros n [Hn [p Hp]]. unfold close_previous. unfold hbind at 1, load.
  destruct (ps_active (peer_at r n)); [|split; [done|by exists p]].
  split; [by apply keeps_inv_invalidate|].
  pose proof (frame_invalidate (E := CoreError) r n None false n (frame_refl r n))
    as (_ & _ & _ & _ & _ & _ & _ & F8). destruct (F8 p Hp) as (q & Hq & _). by exists q.
Qed.

Lemma at_update r r' f :
  (forall p, peer_wf p -> tame f p) -> keeps (inv_at r) (update r' f : handler (Node N) CoreError unit).
Proof.
  intros Hf n [Hn Hr]. split; [by apply inv_update_tame|]. cbn.
  destruct (decide (r = r')) as [->|]; [rewrite lookup_alter_eq; by apply fmap_is_Some|].
  by rewrite lookup_alter_ne.
Qed.

(** A handler that ends where only the invariant is known. *)
Definition ends (r : Z) (m : handler (Node N) CoreError unit) : Prop :=
  forall n, inv_at r n -> node_inv (snd (m n)).

Lemma ends_bind {A} r (m : handler (Node N) CoreError A) k :
  keeps (inv_at r) m -> (forall a, ends r (k a)) -> ends r (hbind m k).
Proof.
  intros Hm Hk n Hn. unfold hbind. specialize (Hm n Hn).
  destruct (m n) as [[a|e] n']; cbn in *; [by apply Hk | apply Hm].
Qed.

Lemma ends_ret r : ends r (hret tt).
Proof. by intros n [Hn _]. Qed.

Lemma ends_establish r w sid path c expected : ends r (establish cfg w r sid path c expected).
Proof. intros n [Hn Hr]. by apply inv_establish. Qed.

Lemma at_load r r' : keeps (inv_at r) (load r' : handler (Node N) CoreError _).
Proof. by intros n Hn. Qed.

Ltac ends_steps :=
  repeat match goal with
  | |- ends _ (hbind _ _) =>
      apply ends_bind; [keeps_walk; auto using at_load, at_send_packet, at_close_previous | intros ?]
  | |- ends _ (let '(_, _) := ?x in _) => destruct x
  | |- ends _ (if ?b then _ else _) => destruct b
  | |- ends _ (match ?o with Some _ => _ | None => _ end) => destruct o
  | |- ends _ (hret tt) => apply ends_ret
  | |- ends _ (establish _ _ _ _ _ _ _) => apply ends_establish
  end.

Lemma ends_respond r w sid sender payload source :
  ends r (respond cfg me w r sid sender payload source).
Proof. unfold respond. ends_steps. Qed.

Lemma ends_complete r w sid sender payload source :
  ends r (complete cfg w r sid sender payload source).
Proof. unfold complete. ends_steps. apply at_update. tame_steps. Qed.

Lemma inv_at_peer_for id n r :
  node_inv n -> n_peers n !! id = Some r -> inv_at r n.
Proof.
  intros Hn Hl. split; [done|]. destruct Hn as [((_ & Hw) & _) _].
  destruct (Hw id r Hl) as (p & Hp & _). by exists p.
Qed.

Lemma keeps_inv_handshake w sid payload source :
  keeps node_inv (handle_handshake parse_credential cfg me w sid payload source).
Proof.
  intros n Hn. unfold handle_handshake. destruct (_ <? _)%nat; [done|]. cbn zeta.
  unfold hbind at 1, node_peer_for. destruct (n_peers n !! _) as [r|] eqn:Hl; cbn [ok_or]; [|done].
  apply (inv_at_peer_for _ _ _ Hn) in Hl. revert Hl. generalize n. clear n Hn.
  match goal with |- forall n, inv_at r n -> node_inv (snd (?m n)) => change (ends r m) end.
  ends_steps; [apply ends_respond | apply ends_complete].
Qed.

(** ** Receiving *)

Lemma decrypt_bytes c seq ad b body : decrypt_in_place c seq ad b = Ok body -> bytes_ok body.
Proof.
  unfold decrypt_in_place. destruct (Nat.ltb_spec (length b) 16); [done|]. intros E.
  apply rbind_Ok in E as (m & Hm & [= <-]).
  destruct (aead_open _ _ _ _ _) as [m'|] eqn:Eo; [|done]. injection Hm as <-.
  apply aead_open_bytes in Eo as [Hl Hb]. rewrite length_take in Hl.
  rewrite take_app_le by lia. by apply Forall_take.
Qed.

Lemma keeps_inv_context d now :
  keeps node_inv (data_decrypt_context_at cfg d now : handler (Node N) CoreError _).
Proof. unfold data_decrypt_context_at. inv_steps. apply keeps_inv_invalidate. Qed.

Lemma observe_packet_tame w source k s p :
  ps_active p = Some s -> peer_wf p ->
  forall window, (exists seen, represents window seen) ->
  tame (fun _ => snd (observe_packet cfg w source k (set_as_replay window s) p)) p.
Proof.
  intros Ha Hp window Hw. unfold observe_packet.
  destruct (observe_data_source _ _ _ _) as [changed [path pending]].
  pose proof Hp as (Hs & _). destruct (Hs s Ha) as (Htx & Hm & _). destruct changed.
  - destruct (PathMtuState_reset _ _ _) as [reset mtu] eqn:Er. cbn [snd].
    assert (Hmtu' : mtu_inv (virtual_mtu cfg) mtu).
    { injection Er as _ <-. apply mtu_new_inv; [|done]. unfold safe_virtual_mtu, DEFAULT_VIRTUAL_MTU. lia. }
    destruct (tame_record_path source (candidates (ps_info p)) (w_unix w) p Hp) as [(E1 & E2 & E3) E4].
    assert (E5 : exists s', ps_active (record_path source (candidates (ps_info p)) (w_unix w) p) = Some s'
                            /\ as_session_id s' = as_session_id s).
    { rewrite Ha in E4. apply fmap_Some in E4 as (s' & ? & ?). eauto. }
    destruct E5 as (s' & Es' & Eid).
    match goal with |- tame (fun _ => set_ps_active (Some ?z) ?q) p =>
      destruct (tame_active s' z q Es') as [(F1 & F2 & F3) F4]; [by rewrite Eid|by intros _|done|] end.
    split; [split_and!; [congruence..|done]|]. by rewrite F4.
  - cbn [snd]. match goal with |- tame (fun _ => set_ps_active (Some ?z) p) p =>
      apply (tame_ext (set_ps_active (Some z))); [done|] end. by eapply tame_active.
Qed.

Lemma accept_window s seq :
  session_wf s -> 0 <= seq -> exists seen, represents (snd (accept (as_replay s) seq)) seen.
Proof. intros (_ & _ & seen & Hr) Hs. destruct (accept_refines _ _ _ Hr Hs) as [_ ?]. eauto. Qed.

Lemma keeps_inv_accept w r h source k :
  0 <= sequence h -> keeps node_inv (accept_packet cfg w r h source k : handler (Node N) CoreError _).
Proof.
  intros Hseq n Hn. unfold accept_packet. unfold hbind at 1, load.
  destruct (ps_active (peer_at r n)) as [s|] eqn:Ha; [|done].
  destruct (negb _); [done|].
  pose proof (accept_window s (sequence h) (session_wf_of r s n Hn Ha) Hseq) as Hw.
  destruct (accept (as_replay s) (sequence h)) as [fresh window].
  destruct fresh; cbn [negb].
  2: { apply keeps_bind; [apply keeps_inv_count_peer | intros _; apply keeps_ret | done]. }
  destruct (observe_packet cfg w source k (set_as_replay window s) (peer_at r n)) as [[changed reset] p'] eqn:Eo.
  unfold hbind, update, hmodify. cbn [snd hret]. apply inv_update_at; [done|]. intros p Hp.
  assert (Hpr : peer_at r n = p) by (unfold peer_at; by rewrite (lookup_total_correct _ _ _ Hp)).
  rewrite Hpr in *. pose proof (observe_packet_tame w source k s p Ha (inv_peer _ _ _ Hn Hp) window Hw) as Ht.
  by rewrite Eo in Ht.
Qed.

Lemma keeps_inv_deliver r source changed reset p :
  keeps node_inv (deliver cfg r source changed reset p : handler (Node N) CoreError unit).
Proof. unfold deliver. inv_steps. Qed.

Lemma keeps_inv_commit w r d :
  sequence_ok d -> keeps node_inv (commit_ip_data cfg w r d : handler (Node N) CoreError unit).
Proof.
  intros Hd. unfold commit_ip_data. inv_steps; auto using keeps_inv_accept, keeps_inv_deliver.
Qed.

Lemma open_packet_header c d d' : open_packet c d = Ok d' -> dp_header d' = dp_header d.
Proof. unfold open_packet. by destruct (decrypt_in_place _ _ _ _); intros [= <-]. Qed.

Lemma keeps_inv_inline w d :
  sequence_ok d -> keeps node_inv (decrypt_data_inline cfg w d : handler (Node N) CoreError unit).
Proof.
  intros Hd. unfold decrypt_data_inline. apply keeps_bind; [apply keeps_inv_context|].
  intros [[r c]|]; [|apply keeps_inv_count]. apply keeps_bind; [apply keeps_inv_count_peer|intros _].
  destruct (open_packet c d) as [d'|e] eqn:Eo; [|inv_steps].
  apply keeps_inv_commit. unfold sequence_ok. by rewrite (open_packet_header _ _ _ Eo).
Qed.

(** A handler all of whose results have a property, from states with the
    invariant. *)
Definition yields {A} (Q : A -> Prop) (m : handler (Node N) CoreError A) : Prop :=
  forall n a n', node_inv n -> m n = (Ok a, n') -> Q a.

Lemma keeps_bind_yields {A B} (Q : A -> Prop) (m : handler (Node N) CoreError A)
    (k : A -> handler (Node N) CoreError B) :
  keeps node_inv m -> yields Q m -> (forall a, Q a -> keeps node_inv (k a)) ->
  keeps node_inv (hbind m k).
Proof.
  intros Hm Hq Hk n Hn. unfold hbind. pose proof (Hm n Hn) as Hn'. destruct (m n) as [[a|e] n'] eqn:E; [|done].
  apply Hk; [by apply (Hq n a n') | done].
Qed.

Lemma parse_batch_ok l :
  Forall (fun x => sequence_ok x.2) l ->
  yields (Forall (fun x => 0 <= sequence (pp_header x))) (parse_batch l).
Proof.
  induction 1 as [|[r d] l Hd _ IH]; intros n a n' Hn E; cbn [parse_batch] in E.
  - injection E as <- <-. constructor.
  - destruct (ip_parse (dp_payload d)) as [p|e].
    + apply hbind_Ok in E as (rest & n1 & E1 & [= <- <-]). constructor; [done|]. by eapply IH.
    + apply hbind_Ok in E as ([] & n1 & [= <-] & E2). eapply IH; [|exact E2].
      by apply (keeps_inv_count_peer (E := CoreError) r pr_ip_parse_failures set_pr_ip_parse_failures n).
Qed.

Lemma keeps_inv_commit_batch w l :
  Forall (fun x => sequence_ok x.2) l ->
  keeps node_inv (commit_ip_data_batch cfg w l : handler (Node N) CoreError unit).
Proof.
  intros Hl. unfold commit_ip_data_batch.
  apply (keeps_bind_yields (Forall (fun x => 0 <= sequence (pp_header x)))); [|by apply parse_batch_ok|].
  { clear Hl. induction l as [|[r d] l IH]; cbn [parse_batch]; inv_steps. }
  intros parsed Hp. apply keeps_bind; [|intros committed].
  { induction Hp as [|x l' Hx _ IH]; cbn [accept_batch]; inv_steps. by apply keeps_inv_accept. }
  apply keeps_bind; [|intros accepted].
  { induction committed as [|x l' IH]; cbn [route_inbound]; inv_steps. }
  apply keeps_inv_for_each. intros x. apply keeps_inv_deliver.
Qed.

Lemma keeps_inv_queue_batch now contexts l :
  keeps node_inv (queue_batch cfg now contexts l : handler (Node N) CoreError _).
Proof.
  revert contexts; induction l as [|d l IH]; intros contexts; cbn [queue_batch]; inv_steps.
  all: first [apply keeps_inv_context | apply IH].
Qed.

Lemma queue_batch_ok now contexts l n jobs n' :
  queue_batch cfg now contexts l n = (Ok jobs, n') -> Forall sequence_ok l ->
  Forall (fun x => sequence_ok x.2) jobs.
Proof.
  revert contexts n jobs n'; induction l as [|d l IH]; intros contexts n jobs n' E Hl.
  - injection E as <- <-. constructor.
  - apply Forall_cons in Hl as [Hd Hl]. cbn [queue_batch] in E.
    apply hbind_Ok in E as (contexts' & n1 & _ & E).
    destruct (contexts' !! session_id (dp_header d)) as [[[r c]|]|].
    + apply hbind_Ok in E as ([] & n2 & _ & E). apply hbind_Ok in E as (rest & n3 & E & [= <- <-]).
      constructor; [done|]. by eapply IH.
    + apply hbind_Ok in E as ([] & n2 & _ & E). by eapply IH.
    + apply hbind_Ok in E as ([] & n2 & _ & E). by eapply IH.
Qed.

Lemma open_batch_ok jobs n opened n' :
  open_batch jobs n = (Ok opened, n') -> Forall (fun x => sequence_ok x.2) jobs ->
  Forall (fun x => sequence_ok x.2) opened.
Proof.
  revert n opened n'; induction jobs as [|[[r c] d] jobs IH]; intros n opened n' E Hj.
  - injection E as <- <-. constructor.
  - apply Forall_cons in Hj as [Hd Hj]. cbn [open_batch] in E.
    destruct (open_packet c d) as [d'|e] eqn:Eo.
    + apply hbind_Ok in E as (rest & n3 & E & [= <- <-]). constructor; [|by eapply IH].
      cbn in *. unfold sequence_ok in *. by rewrite (open_packet_header _ _ _ Eo).
    + apply hbind_Ok in E as ([] & n2 & _ & E). by eapply IH.
Qed.

Lemma keeps_inv_data_turn w l :
  Forall sequence_ok l -> keeps node_inv (data_turn cfg w l : handler (Node N) CoreError unit).
Proof.
  intros Hl. assert (Hb : keeps node_inv
    (let! jobs := queue_batch cfg (w_unix w) ∅ l in
     match jobs with
     | [] => hret tt
     | _ => let! opened := open_batch jobs in commit_ip_data_batch cfg w opened
     end : handler (Node N) CoreError unit)).
  { apply (keeps_bind_yields (Forall (fun x => sequence_ok x.2))); [apply keeps_inv_queue_batch| |].
    - intros n jobs n' _ E. by eapply queue_batch_ok.
    - intros jobs Hj. destruct jobs as [|j jobs]; [apply keeps_ret|].
      apply (keeps_bind_yields (Forall (fun x => sequence_ok x.2))).
      + clear. generalize (j :: jobs) as l'. induction l' as [|[[r c] d] l' IH]; cbn [open_batch]; inv_steps.
      + intros n opened n' _ E. by eapply open_batch_ok.
      + intros opened Ho. by apply keeps_inv_commit_batch. }
  unfold data_turn. apply keeps_bind; [apply keeps_inv_count|intros _].
  apply keeps_bind; [apply keeps_get|intros n]. destruct (_ <=? _); [apply keeps_ret|].
  destruct l as [|d [|d2 l]]; [exact Hb| |exact Hb].
  apply keeps_bind; [|intros _; apply keeps_ret]. apply keeps_try, keeps_inv_inline.
  by apply Forall_cons in Hl as [? _].
Qed.

(** ** Control packets *)

Definition same_session (s s' : ActiveSession) : Prop :=
  as_session_id s' = as_session_id s /\ session_wf s'.

Lemma control_step_wf w id ty source body s :
  bytes_ok body -> session_wf s -> same_session s (snd (control_step cfg w id ty source body s)).
Proof.
  intros Hb Hwf. pose proof Hwf as (Htx & Hm & Hr). assert (Hs : same_session s s) by done.
  assert (Ha : forall ty' t b, same_session s (snd (answer ty' t b s))).
  { intros ty' t b. split; [done|]. split; [apply fetch_add_range | done]. }
  unfold control_step. unfold hbind at 1, hget.
  destruct ty; try done;
    match goal with |- context [if ?c then hfail _ else _] => destruct c eqn:Ec end; try done;
    try apply Ha.
  - case_bool_decide; done.
  - destruct (as_pending_keepalive s) as [[nonce sent]|]; [|done]. by case_bool_decide.
  - destruct (negb (bool_decide _)); [done|].
    pose proof (acknowledge_inv_aux (virtual_mtu cfg) (as_path_mtu s) (take MTU_PROBE_NONCE_LEN body)
                  (be_value (drop MTU_PROBE_NONCE_LEN body))) as Hk.
    destruct (acknowledge _ _ _) as [changed mtu]. unfold hbind, hmodify. cbn [snd hret] in *.
    split; [done|]. split; [done|]. split; [|done]. apply Hk; [|done].
    destruct (be_value_is_u (drop MTU_PROBE_NONCE_LEN body) (8 * Z.of_nat (length (drop MTU_PROBE_NONCE_LEN body))));
      [by apply Forall_drop|done..].
Qed.

Lemma keeps_inv_perform w source e :
  keeps node_inv (perform_effect w source e : handler (Node N) CoreError unit).
Proof.
  unfold perform_effect. inv_steps.
  - by intros n Hn.
  - apply keeps_inv_for_each. intros ev. inv_steps.
  - apply keeps_inv_send_packet.
Qed.

Lemma inv_drop_expired r sid s n :
  node_inv n -> ps_active (peer_at r n) = Some s -> as_session_id s = sid ->
  node_inv (snd (drop_expired r sid n)).
Proof.
  intros Hn Ha <-. unfold drop_expired. unfold hbind at 1, load.
  apply (inv_close r n (Some s)); [done|done|]. inv_steps.
Qed.

Lemma session_wf_window s window rx :
  session_wf s -> (exists seen, represents window seen) ->
  session_wf (set_as_rx_bytes rx (set_as_replay window s)).
Proof. by intros (? & ? & _) Hw. Qed.

Lemma keeps_inv_control w h payload source :
  0 <= sequence h -> keeps node_inv (handle_control parse_credential cfg w h payload source).
Proof.
  intros Hseq n Hn. unfold handle_control. unfold hbind at 1, hget.
  destruct (session_peer (session_id h) n) as [r|]; [|done]. unfold hbind at 1, load.
  destruct (ps_active (peer_at r n)) as [s|] eqn:Ha; [|by apply keeps_inv_remove_session].
  destruct (as_session_id s =? session_id h) eqn:Es; cbn [negb]; [|by apply keeps_inv_remove_session].
  destruct (validate_peer_membership _ _ _ _); [|by eapply inv_drop_expired; [..|apply Z.eqb_eq]].
  unfold hbind at 1, hlift.
  destruct (decrypt_in_place _ _ _ _) as [body|e] eqn:Ed; cbn [rmap_err]; [|done].
  pose proof (session_wf_of r s n Hn Ha) as Hs.
  pose proof (accept_window s (sequence h) Hs Hseq) as Hw.
  destruct (accept (as_replay s) (sequence h)) as [fresh window]. cbn [snd] in Hw.
  destruct fresh; cbn [negb].
  2: { apply (inv_set_session r s); [done..|]. by intros (? & ? & _). }
  set (s1 := set_as_rx_bytes _ _).
  assert (Hs1 : session_wf s1) by by apply session_wf_window.
  unfold on_session. unfold hbind at 1.
  pose proof (control_step_wf w (node_id (ps_info (peer_at r n))) (packet_type h) source body s1
                (decrypt_bytes _ _ _ _ _ Ed) Hs1) as [Hid Hwf].
  destruct (control_step _ _ _ _ _ _ s1) as [res s2]. cbn [snd] in Hid, Hwf.
  assert (Hn2 : node_inv (update_at r (set_ps_active (Some s2)) n)).
  { by apply (inv_set_session r s). }
  destruct res as [effect|e]; [by apply keeps_inv_perform | done].
Qed.

Lemma decoded_sequence input h : bytes_ok input -> Header_decode input = Ok h -> 0 <= sequence h.
Proof. intros Hb E. apply Header_decode_sound in E as [(_ & _ & _ & Hq & _) _]; [|done]. apply Hq. Qed.

Lemma decoded_packet_header input h source d :
  decode_data_packet input h source = Ok d -> dp_header d = h.
Proof. unfold decode_data_packet. by repeat case_match; intros; simplify_eq. Qed.

Lemma keeps_inv_data w h payload source :
  0 <= sequence h -> keeps node_inv (handle_data parse_credential cfg w h payload source).
Proof.
  intros Hseq. unfold handle_data. destruct (packet_type h); try by apply keeps_inv_control.
  apply keeps_bind; [apply keeps_lift|intros encoded].
  destruct (decode_data_packet encoded h source) as [d|e] eqn:Ed; [|by intros n Hn].
  intros n Hn. apply (keeps_inv_inline w d); [|done].
  unfold sequence_ok. by rewrite (decoded_packet_header _ _ _ _ Ed).
Qed.

Lemma keeps_inv_packet w input source :
  bytes_ok input -> keeps node_inv (handle_packet parse_credential cfg me w input source).
Proof.
  intros Hb. unfold handle_packet. apply keeps_bind; [apply keeps_get|intros n0].
  destruct (_ <=? _); [apply keeps_fail|]. unfold WirePacket_decode_bytes.
  destruct (Header_decode input) as [h|e] eqn:Eh; [|by intros n Hn].
  pose proof (decoded_sequence _ _ Hb Eh) as Hseq. cbn [rbind].
  destruct (_ <? _)%nat; [by intros n Hn|]. destruct (negb _); [by intros n Hn|].
  unfold hlift, rmap_err. intros n Hn. unfold hbind.
  destruct (packet_type h); first
    [by apply keeps_inv_probe | by apply keeps_inv_probe_response | by apply keeps_inv_handshake
    | by apply keeps_inv_data].
Qed.

Lemma inv_set_queues n qs :
  node_inv n -> Forall queue_wf qs -> node_inv (set_n_data_queues qs n).
Proof. intros [(H1 & H2 & H3 & H4) H5] Hq. split; [|done]. by split_and!. Qed.

Lemma inv_queues n : node_inv n -> Forall queue_wf (n_data_queues n).
Proof. by intros [(_ & _ & _ & ?) _]. Qed.

Lemma keeps_inv_receive w input source :
  bytes_ok input -> keeps node_inv (receive_datagram parse_credential cfg me w input source).
Proof.
  intros Hb. unfold receive_datagram, ignore. apply keeps_bind; [apply keeps_inv_count|intros _].
  destruct (stun_transaction_id input) as [t|].
  { apply keeps_bind; [apply keeps_inv_count|intros _]. apply keeps_modify. intros n Hn.
    by case_bool_decide. }
  destruct (Header_decode input) as [h|e] eqn:Eh; [|inv_steps; by apply keeps_inv_packet].
  destruct (packet_type h); try (inv_steps; by apply keeps_inv_packet).
  apply keeps_bind; [apply keeps_inv_count|intros _].
  destruct (decode_data_packet input h source) as [d|e] eqn:Ed; [|apply keeps_ret].
  intros n Hn. unfold hbind at 1, hget. cbn zeta.
  destruct (n_data_queues n !! _) as [q|] eqn:Eq; [|done].
  destruct (Nat.ltb_spec (length q) DATA_WORKER_QUEUE_LIMIT); [|by apply keeps_inv_count].
  pose proof (inv_queues n Hn) as Hq. pose proof (Forall_lookup_1 _ _ _ _ Hq Eq) as [_ Hql].
  apply inv_set_queues; [done|]. apply Forall_insert; [done|]. split.
  - rewrite length_app. cbn [length]. lia.
  - apply Forall_app; split; [done|]. constructor; [|done].
    unfold sequence_ok. rewrite (decoded_packet_header _ _ _ _ Ed). by eapply decoded_sequence.
Qed.

Lemma keeps_inv_worker w k : keeps node_inv (worker_turn cfg w k : handler (Node N) CoreError unit).
Proof.
  intros n Hn. unfold worker_turn. unfold hbind at 1, hget.
  destruct (n_data_queues n !! k) as [[|d q]|] eqn:Eq; [done| |done].
  pose proof (inv_queues n Hn) as Hq. pose proof (Forall_lookup_1 _ _ _ _ Hq Eq) as [Hlen Hok].
  unfold hbind at 1, hmodify. apply keeps_inv_data_turn; [by apply Forall_take|].
  apply inv_set_queues; [done|]. apply Forall_insert; [done|]. split; [|by apply Forall_drop].
  rewrite length_drop. cbn [length] in *. lia.
Qed.

(** ** Timers and connections *)

Lemma keeps_inv_probes w r sid payload l :
  keeps node_inv (send_probes w r sid payload l : handler (Node N) ConnectError unit).
Proof.
  apply keeps_inv_for_each. intros c. unfold send_probe, record_candidate_probe. inv_steps.
  - apply keeps_inv_send_packet.
  - apply keeps_inv_update. intros p Hp. apply tame_attempt; [apply on_attempt_cases | done].
Qed.

Lemma keeps_inv_connect_begin w id nonce sid :
  keeps node_inv (connect_begin cfg me w id nonce sid).
Proof.
  unfold connect_begin. inv_steps; auto using keeps_inv_connecting, keeps_inv_probes.
Qed.

Lemma keeps_inv_connect_turn w c : keeps node_inv (connect_turn w c : handler (Node N) _ _).
Proof. unfold connect_turn, connect_expire. inv_steps; apply keeps_inv_probes. Qed.

Lemma keeps_inv_reconnect_next r : keeps node_inv (reconnect_next cfg r : handler (Node N) _ _).
Proof.
  intros n Hn. unfold reconnect_next. unfold hbind at 1, hget. cbn zeta.
  match goal with |- node_inv (snd ((if ?b then _ else _) n)) => destruct b eqn:Eb end.
  - apply (keeps_bind node_inv); [inv_steps | intros _; apply keeps_ret | done].
  - apply orb_false_iff in Eb as [_ Eb%Z.leb_gt]. apply inv_update_at; [done|]. intros p Hp.
    pose proof (inv_peer _ _ _ Hn Hp) as (? & ? & ? & ?). unfold peer_at in *.
    rewrite (lookup_total_correct _ _ _ Hp) in *. split; [|done]. split_and!; [done|done|].
    split_and!; cbn; unfold MAX_RECONNECT_ATTEMPTS in *; first [done | lia].
Qed.

Lemma keeps_inv_reconnect_ready r : keeps node_inv (reconnect_ready r : handler (Node N) _ _).
Proof. unfold reconnect_ready. inv_steps. Qed.

Lemma keeps_inv_reconnect_done w r res :
  keeps node_inv (reconnect_done w r res : handler (Node N) _ _).
Proof. unfold reconnect_done. inv_steps. Qed.

Lemma keeps_inv_keepalive w r nonce sid : keeps node_inv (keepalive_turn cfg me w r nonce sid).
Proof.
  intros n Hn. unfold keepalive_turn. unfold hbind at 1, hget. cbn zeta.
  destruct (_ || _); [by apply keeps_inv_invalidate|].
  destruct (ps_active (peer_at r n)) as [s|] eqn:Ha; [|done].
  destruct (_ <=? _).
  { apply (keeps_bind node_inv); [apply keeps_inv_invalidate | intros _; apply keeps_inv_schedule | done]. }
  destruct (needs_rekey w s).
  - unfold rekey. apply (inv_close r n (Some s)); [done|done|]. inv_steps. apply keeps_inv_start_initiator.
  - unfold send_keepalive. cbn zeta. destruct (encrypt_payload _ _ _ _ _) as [payload|e].
    + unfold hbind at 1, update, hmodify. apply (keeps_bind node_inv);
        [apply keeps_try, keeps_inv_send_packet | intros _; apply keeps_ret |].
      apply (inv_set_session r s); [done..|]. intros (_ & ? & ?). split; [apply fetch_add_range | done].
    + apply (inv_set_session r s); [done..|]. intros (_ & ? & ?). split; [apply fetch_add_range | done].
Qed.

Lemma keeps_inv_mtu_turn w r fresh : keeps node_inv (mtu_turn w r fresh : handler (Node N) CoreError unit).
Proof.
  intros n Hn. unfold mtu_turn. unfold hbind at 1, load.
  destruct (ps_active (peer_at r n)) as [s|] eqn:Ha; [|done].
  pose proof (poll_probe_inv (virtual_mtu cfg) (as_path_mtu s) (w_instant w) fresh) as Hm.
  destruct (poll_probe (as_path_mtu s) (w_instant w) fresh) as [probe mtu]. cbn [snd] in Hm.
  assert (Hwf : session_wf s -> session_wf (set_as_path_mtu mtu s)).
  { intros (? & ? & ?). split; [done|]. split; [by apply Hm | done]. }
  destruct probe as [[target nonce]|]; [|by apply (inv_set_session r s)].
  destruct (_ <? _); [by apply (inv_set_session r s)|]. cbn zeta.
  unfold hbind at 1, update, hmodify.
  match goal with |- node_inv (snd (?m ?x)) => assert (Hx : node_inv x) end.
  { apply (inv_set_session r s); [done..|]. intros Hs. split; [apply fetch_add_range|]. by apply Hwf. }
  destruct (encrypt_payload _ _ _ _ _); [|done].
  by apply (keeps_bind node_inv); [apply keeps_try, keeps_inv_send_packet | intros _; apply keeps_ret|].
Qed.

Lemma tame_forget nonce p : peer_wf p -> tame (forget_ping nonce) p.
Proof.
  intros Hp. destruct (ps_active p) as [s|] eqn:Ha.
  - apply (tame_ext (set_ps_active (Some (set_as_ping_waiters (as_ping_waiters s ∖ {[nonce]}) s))));
      [unfold forget_ping; by rewrite Ha | by eapply tame_active].
  - apply (tame_ext id); [unfold forget_ping; by rewrite Ha | by apply tame_id].
Qed.

Lemma keeps_inv_ping_begin w id nonce : keeps node_inv (ping_begin w id nonce : handler (Node N) _ _).
Proof.
  intros n Hn. unfold ping_begin. unfold hbind at 1, hget. unfold hbind at 1, hlift.
  destruct (n_peers n !! id) as [r|]; cbn [ok_or]; [|done]. unfold hbind at 1.
  destruct (ps_active (peer_at r n)) as [s|] eqn:Ha; cbn [ok_or]; [|done].
  unfold hbind at 1, update at 1, hmodify at 1.
  match goal with |- node_inv (snd (?m ?x)) => assert (Hx : node_inv x) end.
  { apply (inv_set_session r s); [done..|]. intros (_ & ? & ?). split; [apply fetch_add_range | done]. }
  revert Hx. match goal with |- node_inv ?x -> _ => generalize x end.
  match goal with |- forall x, node_inv x -> node_inv (snd (?m x)) => change (keeps node_inv m) end.
  apply keeps_bind; [apply keeps_lift|intros payload].
  apply keeps_bind; [apply keeps_try, keeps_inv_send_packet|intros [u|e]]; [apply keeps_ret|].
  apply keeps_bind; [|intros _; apply keeps_fail]. apply keeps_inv_update, tame_forget.
Qed.

Lemma keeps_inv_ping_end r nonce : keeps node_inv (ping_end r nonce : handler (Node N) _ _).
Proof. unfold ping_end. inv_steps. apply keeps_inv_update, tame_forget. Qed.

(** ** Reachable nodes *)

(** What a node does; the outcome of an operation goes to its caller. *)
Inductive node_step : Node N -> Node N -> Prop :=
| st_register n w info : node_step n (snd (register_peer parse_credential cfg w info n))
| st_remove n id : node_step n (snd (remove_peer id n))
| st_snapshot n w sn : node_step n (snd (apply_snapshot parse_credential cfg me w sn n))
| st_send_ip n w b : node_step n (snd (send_ip cfg w b n))
| st_handle_send n w id b : node_step n (snd (handle_send_ip cfg w id b n))
| st_send_batch n w l : node_step n (snd (send_ip_batch cfg w l n))
| st_datagram n w b source : bytes_ok b -> node_step n (snd (receive_datagram parse_credential cfg me w b source n))
| st_worker n w k : node_step n (snd (worker_turn cfg w k n))
| st_connect n w id nonce sid : node_step n (snd (connect_begin cfg me w id nonce sid n))
| st_connect_turn n w c : node_step n (snd (connect_turn w c n))
| st_reconnect_next n r : node_step n (snd (reconnect_next cfg r n))
| st_reconnect_ready n r : node_step n (snd (reconnect_ready r n))
| st_reconnect_done n w r res : node_step n (snd (reconnect_done w r res n))
| st_keepalive n w r nonce sid : node_step n (snd (keepalive_turn cfg me w r nonce sid n))
| st_mtu n w r fresh : node_step n (snd (mtu_turn w r fresh n))
| st_ping n w id nonce : node_step n (snd (ping_begin w id nonce n))
| st_ping_end n r nonce : node_step n (snd (ping_end r nonce n))
| st_start n : node_step n (start n)
| st_shutdown n : node_step n (shutdown n)
| st_events n limit : node_step n (snd (next_event_batch limit n)).

Definition node_reachable (n : Node N) : Prop :=
  exists parallelism, rtc node_step (node_new cfg parallelism) n.

Lemma node_new_inv parallelism : node_inv (node_new cfg parallelism).
Proof.
  split; [split_and!; [split| | |]|].
  - intros r p Hl. by destruct (lookup_empty_Some _ _ Hl).
  - intros id r Hl. by destruct (lookup_empty_Some _ _ Hl).
  - intros r p Hl. by destruct (lookup_empty_Some _ _ Hl).
  - apply Nat.le_0_l.
  - apply Forall_replicate. split; [apply Nat.le_0_l | constructor].
  - intros sid r Hl. by destruct (lookup_empty_Some _ _ Hl).
Qed.

Lemma inv_events limit n : node_inv n -> node_inv (snd (next_event_batch limit n)).
Proof.
  intros [(H1 & H2 & H3 & H4) H5]. split; [|done]. split_and!; try done.
  cbn [next_event_batch next_control_event_batch next_data_event_batch snd n_data_events set_n_data_events set_n_control_events].
  rewrite length_drop. lia.
Qed.

Lemma node_step_inv n n' : node_step n n' -> node_inv n -> node_inv n'.
Proof.
  destruct 1; intros Hn.
  - by apply keeps_inv_register.
  - by apply keeps_inv_remove_peer.
  - by apply inv_apply_snapshot.
  - by apply keeps_inv_send_ip.
  - by apply keeps_inv_handle_send_ip.
  - by apply keeps_inv_send_ip_batch.
  - by apply keeps_inv_receive.
  - by apply keeps_inv_worker.
  - by apply keeps_inv_connect_begin.
  - by apply keeps_inv_connect_turn.
  - by apply keeps_inv_reconnect_next.
  - by apply keeps_inv_reconnect_ready.
  - by apply keeps_inv_reconnect_done.
  - by apply keeps_inv_keepalive.
  - by apply keeps_inv_mtu_turn.
  - by apply keeps_inv_ping_begin.
  - by apply keeps_inv_ping_end.
  - done.
  - done.
  - by apply inv_events.
Qed.

Lemma node_reachable_inv n : node_reachable n -> node_inv n.
Proof.
  intros [parallelism Hr]. assert (H0 := node_new_inv parallelism). revert H0.
  induction Hr as [|x y z Hs _ IH]; [done|]. intros Hx. by apply IH, (node_step_inv x).
Qed.

End Invariant.
