(* ===== verification/NodeSample.v ===== *)
(** * Two nodes

    A run of the node model from start to session: two nodes with concrete
    primitives register each other, one connects, and the probes and handshake
    messages are carried by hand from one to the other.  The states reached are
    the concrete inputs of the witnesses. *)
From S2P Require Import Prelude Net Encoding Wire NodeId Snapshot SignedBytes Crypto Ip Replay Path Handshake NodeState NodePeers NodeSend NodeSession NodeData NodeTimers NodeInv.

(** An AEAD whose tag is the nonce and some of the key. *)
Definition sample_tag (k nonce : bytes) : bytes := take 16 (nonce ++ drop 9 k ++ replicate 16 0).

#[export] Instance sample_aead : AeadOps := {|
  aead_seal k nonce _ m := if bool_decide (bytes_ok m) then Some (m, sample_tag k nonce) else None;
  aead_open k nonce _ c t :=
    if bool_decide (bytes_ok c /\ t = sample_tag k nonce) then Some c else None
|}.

Lemma sample_aead_laws : AeadLaws sample_aead.
Proof.
  split; cbn.
  - intros k nonce ad m c t. case_bool_decide; [|done]. intros [= <- <-]. split; [done|].
    unfold sample_tag. rewrite length_take, !length_app, length_replicate. lia.
  - intros k nonce ad m c t. case_bool_decide; [|done]. intros [= <- <-].
    by rewrite bool_decide_eq_true_2.
  - intros k nonce ad m c t. case_bool_decide; [|done]. by intros [= <-].
Qed.

Lemma sample_aead_bytes : AeadBytes sample_aead.
Proof. intros k nonce ad c t m. cbn. case_bool_decide; [|done]. intros [= <-]. naive_solver. Qed.

#[export] Existing Instances toy_hash_ops toy_sig toy_hkdf toy_noise.

Definition no_credential (b : bytes) : option MembershipCredential := None.

(** Node [k] listens on port [k] and has the address 10.254.0.k. *)
Definition sample_local (k : Z) : Local := mkLocal (replicate 32 k) (replicate 32 k) (replicate 32 k) 1.
Definition sample_addr (k : Z) : SocketAddr := SockV4 0x0a000001 k.
Definition sample_ip (k : Z) : Z := 0x0afe0000 + k.

Definition sample_info (k : Z) : PeerInfo :=
  mkPeer (my_id (sample_local k)) 1 (replicate 32 k) (replicate 32 k) [Host (sample_addr k)]
    (Some (sample_ip k)) None [] [].

Definition sample_config (k : Z) : NodeConfig :=
  mkConfig 1500 4 (10 ^ 10) (10 ^ 10) (10 ^ 9) None (replicate 16 6) (Some (sample_ip k)) None 1400.

Definition sample_world : World := mkWorld 1000 (10 ^ 12) (fun _ _ => true) (fun l => Some (length l)).

Definition last_sent {N} (n : Node N) : bytes := default [] (snd <$> last (n_sent n)).

(** ** The run *)

Abbreviation SampleNode := (Node (@NState toy_noise)).

Definition a_registered : SampleNode := snd (register_peer no_credential (sample_config 1) sample_world (sample_info 2)
  (node_new (sample_config 1) None)).
Definition a_started : SampleNode := start a_registered.
Definition a_probing : SampleNode := snd (connect_begin (sample_config 1) (sample_local 1) sample_world
  (node_id (sample_info 2)) (replicate 16 9) 77 a_started).

Definition b_registered : SampleNode := snd (register_peer no_credential (sample_config 2) sample_world (sample_info 1)
  (node_new (sample_config 2) None)).
Definition b_started : SampleNode := start b_registered.
Definition b_probed : SampleNode := snd (receive_datagram no_credential (sample_config 2) (sample_local 2) sample_world
  (last_sent a_probing) (sample_addr 1) b_started).

Definition a_answered : SampleNode := snd (receive_datagram no_credential (sample_config 1) (sample_local 1) sample_world
  (last_sent b_probed) (sample_addr 2) a_probing).
Definition b_open : SampleNode := snd (receive_datagram no_credential (sample_config 2) (sample_local 2) sample_world
  (last_sent a_answered) (sample_addr 1) b_probed).
Definition a_open : SampleNode := snd (receive_datagram no_credential (sample_config 1) (sample_local 1) sample_world
  (last_sent b_open) (sample_addr 2) a_answered).

Definition sample_packet_bytes : bytes :=
  <[11%nat := checksum sample_v4 mod 256]> (<[10%nat := checksum sample_v4 / 256]> sample_v4) ++ [1; 2].
Definition a_sent : SampleNode := snd (send_ip (sample_config 1) sample_world sample_packet_bytes a_open).
Definition b_received : SampleNode := snd (receive_datagram no_credential (sample_config 2) (sample_local 2) sample_world
  (last_sent a_sent) (sample_addr 1) b_open).
Definition b_delivered : SampleNode := snd (worker_turn (sample_config 2) sample_world 1 b_received).

(** Both ends reach the session by the steps of the model. *)
#[local] Strategy expand [a_registered a_started a_probing a_answered a_open a_sent
                 b_registered b_started b_probed b_open b_received].

Lemma b_received_reachable :
  node_reachable no_credential (sample_config 2) (sample_local 2) b_received.
Proof.
  exists None.
  apply rtc_l with b_registered; [exact (st_register _ _ _ _ sample_world (sample_info 1))|].
  apply rtc_l with b_started; [exact (st_start _ _ _ b_registered)|].
  apply rtc_l with b_probed;
    [apply (st_datagram _ _ _ _ sample_world (last_sent a_probing) (sample_addr 1)); by_decide|].
  apply rtc_l with b_open;
    [apply (st_datagram _ _ _ _ sample_world (last_sent a_answered) (sample_addr 1)); by_decide|].
  apply rtc_once.
  apply (st_datagram _ _ _ _ sample_world (last_sent a_sent) (sample_addr 1)); by_decide.
Qed.

Lemma a_open_reachable :
  node_reachable no_credential (sample_config 1) (sample_local 1) a_open.
Proof.
  exists None.
  apply rtc_l with a_registered; [exact (st_register _ _ _ _ sample_world (sample_info 2))|].
  apply rtc_l with a_started; [exact (st_start _ _ _ a_registered)|].
  apply rtc_l with a_probing;
    [exact (st_connect _ _ _ a_started sample_world (node_id (sample_info 2)) (replicate 16 9) 77)|].
  apply rtc_l with a_answered;
    [apply (st_datagram _ _ _ _ sample_world (last_sent b_probed) (sample_addr 2)); by_decide|].
  apply rtc_once.
  apply (st_datagram _ _ _ _ sample_world (last_sent b_open) (sample_addr 2)); by_decide.
Qed.

#[local] Strategy opaque [a_registered a_started a_probing a_answered a_open a_sent
                 b_registered b_started b_probed b_open b_received].

(** The session is open at both ends, under matching keys. *)
Lemma sample_sessions :
  exists sa sb, ps_active (peer_at 0 a_open) = Some sa /\ ps_active (peer_at 0 b_open) = Some sb
    /\ as_session_id sa = 77 /\ as_session_id sb = 77
    /\ cipher_tx (as_cipher sa) = cipher_rx (as_cipher sb)
    /\ cipher_tx (as_cipher sb) = cipher_rx (as_cipher sa)
    /\ cipher_tx (as_cipher sa) <> cipher_tx (as_cipher sb).
Proof. eexists _, _. split_and!; try (vm_compute; reflexivity). vm_compute. discriminate. Qed.

(** ** Witnesses of the membership theorems *)

Lemma a_open_inv : node_inv (sample_config 1) a_open.
Proof.
  eapply node_reachable_inv; [apply sample_aead_bytes | by_decide | apply a_open_reachable].
Qed.

Lemma a_open_peers_wf : peers_wf a_open.
Proof. apply a_open_inv. Qed.

Lemma a_open_routes_wf : routes_wf a_open.
Proof.
  intros a id Ha. unfold peer_for in Ha.
  assert (E : routes (n_routes a_open) = {[ V4 (sample_ip 2) := node_id (sample_info 2) ]}) by (vm_compute; reflexivity).
  rewrite E in Ha. apply lookup_singleton_Some in Ha as [<- <-].
  exists 0. split; by_decide.
Qed.


(** The network after a third node joined. *)
Definition sample_network : NetworkSnapshot :=
  mkSnapshot (replicate 16 6) 4 (Some (mkCidr4 0x0afe0000 16)) None [] []
    [sample_info 1; sample_info 2; sample_info 3] [node_id (sample_info 2)] 5000 [].

Lemma outcome {A B} (m : A * B) r : fst m = r -> m = (r, snd m).
Proof. by destruct m; intros <-. Qed.

Abbreviation a_updated := (snd (apply_snapshot no_credential (sample_config 1) (sample_local 1)
  sample_world sample_network a_open)).

Lemma apply_snapshot_installs_witness :
  n_snapshot_generation a_updated = 4
  /\ forall a id, peer_for (n_routes a_updated) a = Some id <->
       exists p, p ∈ peers sample_network /\ node_id p = id /\ id <> my_id (sample_local 1)
                 /\ a ∈ peer_addresses p.
Proof.
  destruct (apply_snapshot_installs no_credential (sample_config 1) (sample_local 1) sample_world
              sample_network a_open a_updated) as ((_ & Hg & _) & _ & Hr & _);
    [apply a_open_peers_wf | apply outcome; vm_compute; reflexivity|].
  split; [exact Hg | exact Hr].
Defined.

Lemma register_peer_consistent_witness :
  let n' := snd (register_peer no_credential (sample_config 1) sample_world (sample_info 3) a_open) in
  peers_wf n' /\ routes_wf n'
  /\ exists r, n_peers n' !! node_id (sample_info 3) = Some r /\ ps_info (peer_at r n') = sample_info 3.
Proof.
  apply (register_peer_consistent no_credential (sample_config 1) sample_world (sample_info 3) a_open);
    [apply a_open_peers_wf | apply a_open_routes_wf | apply outcome; vm_compute; reflexivity].
Defined.

Lemma remove_peer_consistent_witness :
  let n' := snd (remove_peer (node_id (sample_info 2)) a_open) in
  n_peers n' = delete (node_id (sample_info 2)) (n_peers a_open)
  /\ forall a, peer_for (n_routes n') a <> Some (node_id (sample_info 2)).
Proof.
  destruct (remove_peer_consistent (node_id (sample_info 2)) a_open true
    (snd (remove_peer (node_id (sample_info 2)) a_open))) as (H1 & H2 & _);
    [apply a_open_peers_wf | apply a_open_routes_wf | apply outcome; vm_compute; reflexivity|].
  by split.
Defined.
