(* ===== verification/NodeDeliver.v ===== *)
(** * Delivery of IP packets

    What a worker delivers to the virtual interface ([data_loop], the batch and
    the single packet path of [vela-core/src/lib.rs]): in the order of the queue,
    only packets opened under the session they name, only numbers the session had
    not accepted, each once, and only packets addressed to this node. *)
From S2P Require Import Prelude Net Encoding Wire NodeId Snapshot SignedBytes Crypto Ip Replay Path Handshake NodeState NodePeers NodeSend NodeSession NodeData NodeTimers NodeInv NodeSample.

(** ** Windows that only grow *)

Definition window_more (w w' : ReplayWindow) : Prop :=
  forall seen, represents w seen -> exists new, represents w' (new ++ seen).

Lemma window_more_refl w : window_more w w.
Proof. intros seen Hr. by exists []. Qed.

Lemma window_more_trans w1 w2 w3 : window_more w1 w2 -> window_more w2 w3 -> window_more w1 w3.
Proof.
  intros H1 H2 seen Hr. destruct (H1 _ Hr) as [new1 Hr1]. destruct (H2 _ Hr1) as [new2 Hr2].
  exists (new2 ++ new1). by rewrite <- (assoc_L (++)).
Qed.

Lemma window_more_accept w s : 0 <= s -> window_more w (snd (accept w s)).
Proof.
  intros Hs seen Hr. destruct (accept_refines w seen s Hr Hs) as [_ Hr'].
  destruct (spec_accept seen s); [by exists [s] | by exists []].
Qed.

Lemma spec_accept_mono new seen s : spec_accept (new ++ seen) s = true -> spec_accept seen s = true.
Proof.
  unfold spec_accept. rewrite forallb_app, !andb_true_iff, !negb_true_iff, !bool_decide_eq_false.
  intros [[_ H1] H2]. split; [done|]. contradict H2. set_solver.
Qed.

(** A number fresh later was fresh before. *)
Lemma window_more_fresh w w' seen s :
  represents w seen -> window_more w w' -> 0 <= s ->
  fst (accept w' s) = true -> fst (accept w s) = true.
Proof.
  intros Hr Hm Hs Hf. destruct (Hm _ Hr) as [new Hr'].
  rewrite (proj1 (accept_refines _ _ _ Hr' Hs)) in Hf. rewrite (proj1 (accept_refines _ _ _ Hr Hs)).
  by eapply spec_accept_mono.
Qed.

(** A number accepted once is never fresh again. *)
Lemma window_more_used w w' seen s :
  represents w seen -> 0 <= s -> fst (accept w s) = true -> window_more (snd (accept w s)) w' ->
  fst (accept w' s) = false.
Proof.
  intros Hr Hs Hf Hm. destruct (accept_refines w seen s Hr Hs) as [Ha Hr1].
  rewrite Ha in Hf. rewrite Hf in Hr1. destruct (Hm _ Hr1) as [new Hr2].
  rewrite (proj1 (accept_refines _ _ _ Hr2 Hs)). unfold spec_accept.
  rewrite bool_decide_eq_true_2 by set_solver. apply andb_false_r.
Qed.

(** ** Sublists *)

Lemma Forall2_sublist_r {A B} (R : A -> B -> Prop) xs ys ys' :
  Forall2 R xs ys -> ys' `sublist_of` ys -> exists xs', xs' `sublist_of` xs /\ Forall2 R xs' ys'.
Proof.
  intros HF Hs. revert xs HF. induction Hs as [|y l1 l2 Hs IH|y l1 l2 Hs IH]; intros xs HF.
  - inv HF. exists []. by split.
  - inv HF. destruct (IH _ ltac:(eassumption)) as (xs' & ? & ?). exists (x :: xs').
    split; [by constructor | by constructor].
  - inv HF. destruct (IH _ ltac:(eassumption)) as (xs' & ? & ?). exists xs'. split; [by constructor | done].
Qed.

Lemma Forall_sublist {A} (P : A -> Prop) l l' : l' `sublist_of` l -> Forall P l -> Forall P l'.
Proof. induction 1; rewrite ?Forall_cons; naive_solver. Qed.

Section Deliver.
Context {HH : Hash} {HSg : SignatureOps} {HA : AeadOps} {HK : HkdfOps} {HN : NoiseOps}.
Context (parse_credential : bytes -> option MembershipCredential).
Context (cfg : NodeConfig) (me : Local) (Hmtu : 0 <= virtual_mtu cfg).

Abbreviation N := (@NState HN).
Abbreviation HC A := (handler (Node N) CoreError A).

(** ** Steps that open no session *)

Definition session_later (s s' : ActiveSession) : Prop :=
  as_session_id s' = as_session_id s /\ as_cipher s' = as_cipher s
  /\ window_more (as_replay s) (as_replay s').

Definition peer_later (p p' : PeerState N) : Prop :=
  ps_node_id p' = ps_node_id p
  /\ forall s', ps_active p' = Some s' -> exists s, ps_active p = Some s /\ session_later s s'.

(** Every session and every index entry of the later node was there before; the
    routes and the delivered packets are the same. *)
Definition calm (n n' : Node N) : Prop :=
  n_routes n' = n_routes n /\ n_data_events n' = n_data_events n
  /\ (forall sid r, n_sessions n' !! sid = Some r -> n_sessions n !! sid = Some r)
  /\ forall r, peer_later (peer_at r n) (peer_at r n').

Lemma session_later_refl s : session_later s s.
Proof. split_and!; [done..|apply window_more_refl]. Qed.

Lemma peer_later_refl p : peer_later p p.
Proof. split; [done|]. intros s' Hs. exists s'. split; [done | apply session_later_refl]. Qed.

Lemma peer_later_trans p1 p2 p3 : peer_later p1 p2 -> peer_later p2 p3 -> peer_later p1 p3.
Proof.
  intros [E1 H1] [E2 H2]. split; [congruence|]. intros s3 (s2 & Hs2 & a & b & c)%H2.
  destruct (H1 s2 Hs2) as (s1 & Hs1 & a' & b' & c'). exists s1. split; [done|].
  split_and!; [congruence..|by eapply window_more_trans].
Qed.

Lemma calm_refl n : calm n n.
Proof. split_and!; [done..|]. intros r. apply peer_later_refl. Qed.

Lemma calm_trans n1 n2 n3 : calm n1 n2 -> calm n2 n3 -> calm n1 n3.
Proof.
  intros (a1 & b1 & c1 & d1) (a2 & b2 & c2 & d2). split_and!; [congruence..|auto|].
  intros r. by eapply peer_later_trans.
Qed.

Lemma calm_update_at n0 r f n :
  calm n0 n -> peer_later (peer_at r n) (f (peer_at r n)) -> calm n0 (update_at r f n).
Proof.
  intros Hn Hf. eapply calm_trans; [exact Hn|]. split_and!; [done..|]. intros r'.
  destruct (peer_at_update r f n r') as [->|[-> ->]]; [apply peer_later_refl | done].
Qed.

Lemma keeps_calm_update {E} n0 r f :
  (forall p, peer_later p (f p)) -> keeps (calm n0) (update r f : handler (Node N) E unit).
Proof. intros Hf n Hn. by apply calm_update_at. Qed.

(** A change that keeps the session as it is, and one that drops it. *)
Lemma peer_later_same p p' :
  ps_node_id p' = ps_node_id p -> ps_active p' = ps_active p -> peer_later p p'.
Proof.
  intros E Ea. split; [done|]. rewrite Ea. intros s Hs. exists s. split; [done | apply session_later_refl].
Qed.

Lemma peer_later_drop p : peer_later p (set_ps_active None p).
Proof. by split. Qed.

Lemma keeps_calm_count {E} n0 g s k : keeps (calm n0) (count g s k : handler (Node N) E unit).
Proof. intros n Hn. eapply calm_trans; [exact Hn|]. split_and!; [done..|]. intros r. apply peer_later_refl. Qed.

Lemma keeps_calm_count_peer {E} n0 r g s : keeps (calm n0) (count_peer r g s : handler (Node N) E unit).
Proof. apply keeps_calm_update. intros p. by apply peer_later_same. Qed.

Lemma keeps_calm_remove {E} n0 r sid : keeps (calm n0) (remove_session r sid : handler (Node N) E unit).
Proof.
  intros n Hn. eapply calm_trans; [exact Hn|]. unfold remove_session, hmodify. cbn [snd].
  case_bool_decide; [|apply calm_refl]. split_and!; [done..| |intros r'; apply peer_later_refl].
  intros sid' r'. cbn. rewrite lookup_delete_Some. naive_solver.
Qed.

Lemma keeps_calm_disconnected {E} n0 id :
  keeps (calm n0) (emit (PeerDisconnected id) : handler (Node N) E bool).
Proof. intros n Hn. eapply calm_trans; [exact Hn|]. split_and!; [done..|]. intros r. apply peer_later_refl. Qed.

Lemma keeps_calm_invalidate {E} n0 r e b :
  keeps (calm n0) (invalidate_session_if r e b : handler (Node N) E unit).
Proof.
  unfold invalidate_session_if. apply keeps_bind; [by intros n Hn|intros p]. keeps_walk.
  all: first [apply keeps_calm_remove | apply keeps_calm_disconnected | apply keeps_calm_update;
              intros q; first [apply peer_later_drop | by apply peer_later_same]].
Qed.

Lemma keeps_calm_context n0 d now :
  keeps (calm n0) (data_decrypt_context_at cfg d now : HC _).
Proof.
  unfold data_decrypt_context_at. keeps_walk;
    first [apply keeps_calm_invalidate | apply keeps_calm_remove].
Qed.

(** ** Accepting a packet *)

Lemma record_path_node_id path cs now (p : PeerState N) :
  ps_node_id (record_path path cs now p) = ps_node_id p.
Proof. unfold record_path. by repeat case_match. Qed.

Lemma observe_packet_session w source k s (p : PeerState N) :
  exists s', ps_active (snd (observe_packet cfg w source k s p)) = Some s'
    /\ as_session_id s' = as_session_id s /\ as_cipher s' = as_cipher s /\ as_replay s' = as_replay s
    /\ ps_node_id (snd (observe_packet cfg w source k s p)) = ps_node_id p.
Proof.
  unfold observe_packet. destruct (observe_data_source _ _ _ _) as [changed [path pending]].
  destruct changed.
  - destruct (PathMtuState_reset _ _ _) as [reset mtu]. eexists. split_and!; try done. apply record_path_node_id.
  - eexists. by split_and!.
Qed.

(** The session a packet is for, and that it is fresh there. *)
Definition fresh_for (n : Node N) (r : Z) (h : Header) : Prop :=
  exists s, ps_active (peer_at r n) = Some s /\ as_session_id s = session_id h
    /\ fst (accept (as_replay s) (sequence h)) = true.

(** The number of a packet that was accepted is in the window of the session. *)
Definition used_for (n : Node N) (r : Z) (h : Header) : Prop :=
  forall s, ps_active (peer_at r n) = Some s -> as_session_id s = session_id h ->
    exists w seen, represents w seen /\ fst (accept w (sequence h)) = true
      /\ window_more (snd (accept w (sequence h))) (as_replay s).

Lemma fresh_for_calm n n' r h :
  node_inv cfg n -> calm n n' -> 0 <= sequence h -> fresh_for n' r h -> fresh_for n r h.
Proof.
  intros Hn (_ & _ & _ & Hp) Hs (s' & Ha & Hid & Hf). destruct (proj2 (Hp r) s' Ha) as (s & Hs' & Ei & _ & Hm).
  destruct (session_wf_of cfg r s n Hn Hs') as (_ & _ & seen & Hr).
  exists s. split_and!; [done|congruence|]. by eapply window_more_fresh.
Qed.

Lemma used_for_calm n n' r h : calm n n' -> used_for n r h -> used_for n' r h.
Proof.
  intros (_ & _ & _ & Hp) Hu s' Ha Hid. destruct (proj2 (Hp r) s' Ha) as (s & Hs' & Ei & _ & Hm).
  destruct (Hu s Hs') as (w & seen & Hr & Hf & Hw); [congruence|].
  exists w, seen. split_and!; [done..|by eapply window_more_trans].
Qed.

Lemma used_not_fresh n r h : 0 <= sequence h -> used_for n r h -> ~ fresh_for n r h.
Proof.
  intros Hs Hu (s & Ha & Hid & Hf). destruct (Hu s Ha Hid) as (w & seen & Hr & Hf' & Hw).
  by rewrite (window_more_used _ _ _ _ Hr Hs Hf' Hw) in Hf.
Qed.

Lemma accept_packet_spec w r h source k n res n' :
  node_inv cfg n -> 0 <= sequence h -> accept_packet cfg w r h source k n = (res, n') ->
  calm n n' /\ exists o, res = Ok o
    /\ (is_Some o -> fresh_for n r h /\ used_for n' r h).
Proof.
  intros Hn Hs E. unfold accept_packet in E. unfold hbind at 1, load in E.
  destruct (ps_active (peer_at r n)) as [s|] eqn:Ha.
  2: { injection E as <- <-. split; [apply calm_refl|]. exists None. by split; [|intros [? ?]]. }
  destruct (Z.eqb_spec (as_session_id s) (session_id h)) as [Hid|_]; cbn [negb] in E.
  2: { injection E as <- <-. split; [apply calm_refl|]. exists None. by split; [|intros [? ?]]. }
  destruct (accept (as_replay s) (sequence h)) as [fresh window] eqn:Ew. destruct fresh; cbn [negb] in E.
  2: { injection E as <- <-. split; [apply (keeps_calm_count_peer (E := CoreError)), calm_refl|]. exists None.
       by split; [|intros [? ?]]. }
  pose proof (observe_packet_session w source k (set_as_replay window s) (peer_at r n)) as (s' & Hs' & a & b & c & d).
  destruct (observe_packet _ _ _ _ _ _) as [[changed reset] p']. injection E as <- <-. cbn [snd] in *.
  cbn in a, b, c. assert (Hw : window = snd (accept (as_replay s) (sequence h))) by (by rewrite Ew).
  split.
  - apply calm_update_at; [apply calm_refl|]. split; [done|]. intros s'' E. rewrite Hs' in E.
    injection E as <-. exists s. split; [done|]. split_and!; [done..|]. rewrite c, Hw.
    by apply window_more_accept.
  - eexists. split; [done|]. intros _. split; [exists s; by rewrite Ew|].
    intros s'' E _. rewrite (peer_at_active r s) in E by done. rewrite Hs' in E. injection E as <-.
    destruct (session_wf_of cfg r s n Hn Ha) as (_ & _ & seen & Hr).
    exists (as_replay s), seen. split_and!; [done|by rewrite Ew|]. rewrite c, Hw. apply window_more_refl.
Qed.

(** ** The stages of a batch

    Each stage is described against the node [n0] the batch started at. *)

Definition job_ok (n0 : Node N) (sid r : Z) (c : SessionCipher) : Prop :=
  n_sessions n0 !! sid = Some r
  /\ exists s, ps_active (peer_at r n0) = Some s /\ as_session_id s = sid /\ as_cipher s = c.

Definition queued (n0 : Node N) (d : DataPacket) (j : Z * SessionCipher * DataPacket) : Prop :=
  j.2 = d /\ job_ok n0 (session_id (dp_header d)) j.1.1 j.1.2.

Definition opened (n0 : Node N) (d : DataPacket) (x : Z * DataPacket) : Prop :=
  exists c, job_ok n0 (session_id (dp_header d)) x.1 c /\ open_packet c d = Ok x.2.

Definition parsed (n0 : Node N) (d : DataPacket) (x : ParsedPacket) : Prop :=
  exists d', opened n0 d (pp_peer x, d') /\ ip_parse (dp_payload d') = Ok (pp_packet x)
    /\ pp_header x = dp_header d.

(** The stage: a sublist of the packets goes on, in order. *)
Definition stage {A} (R : DataPacket -> A -> Prop) (ds : list DataPacket) (ys : list A) : Prop :=
  exists ds', ds' `sublist_of` ds /\ Forall2 R ds' ys.

Lemma stage_skip {A} (R : DataPacket -> A -> Prop) d ds ys : stage R ds ys -> stage R (d :: ds) ys.
Proof. intros (ds' & ? & ?). exists ds'. split; [by constructor | done]. Qed.

Lemma stage_take {A} (R : DataPacket -> A -> Prop) d y ds ys :
  R d y -> stage R ds ys -> stage R (d :: ds) (y :: ys).
Proof. intros Hd (ds' & ? & ?). exists (d :: ds'). split; by constructor. Qed.

Lemma stage_trans {A B} (R : DataPacket -> A -> Prop) (R' : DataPacket -> B -> Prop) ds xs ys :
  stage R ds xs -> (forall ds', Forall2 R ds' xs -> stage R' ds' ys) -> stage R' ds ys.
Proof.
  intros (ds' & Hs & HF) Hk. destruct (Hk ds' HF) as (ds'' & Hs' & HF'). exists ds''. split; [by etrans | done].
Qed.

Lemma context_ok n0 d now n o n' :
  calm n0 n -> data_decrypt_context_at cfg d now n = (Ok o, n') ->
  match o with Some (r, c) => job_ok n0 (session_id (dp_header d)) r c | None => True end.
Proof.
  intros (_ & _ & Hse & Hp) E. unfold data_decrypt_context_at in E. unfold hbind at 1, hget in E.
  unfold session_peer in E. destruct (n_sessions n !! _) as [r|] eqn:Er; [|by injection E as <- <-].
  destruct (_ && _); [by apply hbind_Ok in E as (? & ? & ? & ?)|].
  destruct (ps_active (peer_at r n)) as [s|] eqn:Ea;
    [|by apply hbind_Ok in E as (? & ? & ? & [= <- <-])].
  destruct (Z.eqb_spec (as_session_id s) (session_id (dp_header d))) as [Hid|_];
    [|by apply hbind_Ok in E as (? & ? & ? & [= <- <-])].
  injection E as <- <-. split; [by apply Hse|].
  destruct (proj2 (Hp r) s Ea) as (s0 & Hs0 & Ei & Ec & _). exists s0. split_and!; congruence.
Qed.

Definition contexts_ok (n0 : Node N) (contexts : gmap Z (option (Z * SessionCipher))) : Prop :=
  forall sid r c, contexts !! sid = Some (Some (r, c)) -> job_ok n0 sid r c.

Lemma contexts_ok_empty n0 : contexts_ok n0 ∅.
Proof. intros sid r c Hl. by destruct (lookup_empty_Some _ _ Hl). Qed.

Lemma queue_batch_stage n0 now l contexts n res n' :
  contexts_ok n0 contexts -> calm n0 n -> queue_batch cfg now contexts l n = (res, n') ->
  calm n0 n' /\ exists jobs, res = Ok jobs /\ stage (queued n0) l jobs.
Proof.
  revert contexts n res n'; induction l as [|d l IH]; intros contexts n res n' Hc Hn E.
  { injection E as <- <-. split; [done|]. exists []. split; [done|]. by exists []. }
  cbn [queue_batch] in E.
  assert (exists contexts' n1, contexts_ok n0 contexts' /\ calm n0 n1 /\
    (match contexts' !! session_id (dp_header d) with
      | Some (Some (r, c)) =>
          let! _ := count_peer r pr_worker_data_packets set_pr_worker_data_packets in
          let! rest := queue_batch cfg now contexts' l in
          hret ((r, c, d) :: rest)
      | _ =>
          let! _ := count tr_unassociated_data_datagrams set_tr_unassociated_data_datagrams 1 in
          queue_batch cfg now contexts' l
      end : HC _) n1 = (res, n')) as (contexts' & n1 & Hc' & Hn1 & E').
  { unfold hbind at 1 in E. destruct (contexts !! session_id (dp_header d)) eqn:El.
    - exists contexts, n. by split_and!.
    - unfold hbind at 1, htry in E.
      pose proof (keeps_calm_context n0 d now n Hn) as Hn1.
      destruct (data_decrypt_context_at cfg d now n) as [o n1] eqn:Ed. cbn [snd] in Hn1.
      eexists _, n1. split_and!; [|done|exact E].
      intros sid r c. rewrite lookup_insert_Some. intros [[<- Eo]|[_ Eo]]; [|by apply Hc].
      destruct o as [o|e]; [|done]. subst o. apply (context_ok n0 d now n _ n1 Hn Ed). }
  clear E. destruct (contexts' !! session_id (dp_header d)) as [[[r c]|]|] eqn:El.
  - unfold hbind at 1 in E'.
    pose proof (keeps_calm_count_peer (E := CoreError) n0 r pr_worker_data_packets set_pr_worker_data_packets n1 Hn1) as Hn2.
    cbn [count_peer update hmodify] in E'. unfold hbind in E'.
    destruct (queue_batch cfg now contexts' l _) as [res2 n3] eqn:E2.
    destruct (IH _ _ _ _ Hc' Hn2 E2) as (Hn3 & jobs & -> & Hst). injection E' as <- <-.
    split; [done|]. eexists. split; [done|]. apply stage_take; [|done]. split; [done|]. by apply Hc'.
  - unfold hbind at 1 in E'. eapply IH in E' as (Hn3 & jobs & -> & Hst);
      [|exact Hc'|by apply (keeps_calm_count (E := CoreError))].
    split; [done|]. eexists. split; [done|]. by apply stage_skip.
  - unfold hbind at 1 in E'. eapply IH in E' as (Hn3 & jobs & -> & Hst);
      [|exact Hc'|by apply (keeps_calm_count (E := CoreError))].
    split; [done|]. eexists. split; [done|]. by apply stage_skip.
Qed.

Lemma open_batch_stage n0 ds jobs n res n' :
  Forall2 (queued n0) ds jobs -> calm n0 n -> open_batch jobs n = (res, n') ->
  calm n0 n' /\ exists xs, res = Ok xs /\ stage (opened n0) ds xs.
Proof.
  intros HF; revert n res n'; induction HF as [|d [[r c] d'] ds jobs [Hd Hj] _ IH]; intros n res n' Hn E.
  { injection E as <- <-. split; [done|]. exists []. split; [done|]. by exists []. }
  cbn in Hd; subst d'. cbn [open_batch] in E. destruct (open_packet c d) as [d'|e] eqn:Eo.
  - unfold hbind in E. destruct (open_batch jobs n) as [res2 n2] eqn:E2.
    destruct (IH _ _ _ Hn E2) as (Hn2 & xs & -> & Hst). injection E as <- <-.
    split; [done|]. eexists. split; [done|]. apply stage_take; [by exists c | done].
  - unfold hbind at 1 in E. eapply IH in E as (Hn2 & xs & -> & Hst);
      [|by apply (keeps_calm_count_peer (E := CoreError))].
    split; [done|]. eexists. split; [done|]. by apply stage_skip.
Qed.

Lemma parse_batch_stage n0 ds xs n res n' :
  Forall2 (opened n0) ds xs -> calm n0 n -> parse_batch xs n = (res, n') ->
  calm n0 n' /\ exists ys, res = Ok ys /\ stage (parsed n0) ds ys.
Proof.
  intros HF; revert n res n'; induction HF as [|d [r d'] ds xs Ho _ IH]; intros n res n' Hn E.
  { injection E as <- <-. split; [done|]. exists []. split; [done|]. by exists []. }
  cbn [parse_batch] in E. destruct (ip_parse (dp_payload d')) as [p|e] eqn:Ep.
  - unfold hbind in E. destruct (parse_batch xs n) as [res2 n2] eqn:E2.
    destruct (IH _ _ _ Hn E2) as (Hn2 & ys & -> & Hst). injection E as <- <-.
    split; [done|]. eexists. split; [done|]. apply stage_take; [|done]. exists d'. split_and!; [done..|].
    destruct Ho as (c & _ & Ho). by apply open_packet_header in Ho.
  - unfold hbind at 1 in E. eapply IH in E as (Hn2 & ys & -> & Hst);
      [|by apply (keeps_calm_count_peer (E := CoreError))].
    split; [done|]. eexists. split; [done|]. by apply stage_skip.
Qed.

(** What identifies a packet: its session and its number there. *)
Definition packet_key (d : DataPacket) : Z * Z := (session_id (dp_header d), sequence (dp_header d)).

Definition committed (n0 n : Node N) (d : DataPacket) (y : ParsedPacket * (bool * bool)) : Prop :=
  sequence_ok d /\ parsed n0 d y.1 /\ fresh_for n (pp_peer y.1) (dp_header d).

Lemma parsed_peer n0 d x d' x' :
  parsed n0 d x -> parsed n0 d' x' -> packet_key d = packet_key d' -> pp_peer x = pp_peer x'.
Proof. intros (? & (? & [H1 _] & _) & _) (? & (? & [H2 _] & _) & _) [= E _]. cbn in H1, H2. rewrite E in H1. congruence. Qed.

(** A packet accepted first is not among those accepted after it. *)
Lemma committed_distinct n0 n1 d x ds ys :
  parsed n0 d x -> sequence_ok d -> used_for n1 (pp_peer x) (dp_header d) ->
  Forall2 (committed n0 n1) ds ys -> packet_key d ∉ map packet_key ds.
Proof.
  intros Hp Hs Hu HF (d' & E & Hd')%list_elem_of_fmap.
  apply list_elem_of_lookup in Hd' as [i Hi]. destruct (Forall2_lookup_l _ _ _ _ _ HF Hi) as (y & _ & _ & Hp' & s & Ha & Hid & Hf).
  pose proof (parsed_peer _ _ _ _ _ Hp Hp' E) as Er. injection E as E1 E2.
  apply (used_not_fresh n1 (pp_peer x) (dp_header d) Hs Hu). exists s. rewrite E1, E2, Er. done.
Qed.

Lemma accept_batch_stage n0 w ds xs n res n' :
  Forall2 (parsed n0) ds xs -> Forall sequence_ok ds -> node_inv cfg n -> calm n0 n ->
  accept_batch cfg w xs n = (res, n') ->
  calm n0 n' /\ exists ys ds', res = Ok ys /\ ds' `sublist_of` ds
    /\ Forall2 (committed n0 n) ds' ys /\ NoDup (map packet_key ds').
Proof.
  intros HF; revert n res n'; induction HF as [|d x ds xs Hp HF IH]; intros n res n' Hs Hi Hn E.
  { injection E as <- <-. split; [done|]. exists [], []. split_and!; [done|constructor..]. }
  apply Forall_cons in Hs as [Hd Hs]. cbn [accept_batch] in E. unfold hbind at 1 in E.
  assert (Eh : pp_header x = dp_header d) by by destruct Hp as (? & _ & _ & ?).
  assert (Hd' : 0 <= sequence (pp_header x)) by (rewrite Eh; exact Hd).
  pose proof (keeps_inv_accept cfg Hmtu w (pp_peer x) (pp_header x) (pp_source x) (pp_encrypted_len x) Hd' n Hi) as Hi1.
  destruct (accept_packet _ _ _ _ _ _ n) as [o n1] eqn:Ea. cbn [snd] in Hi1.
  destruct (accept_packet_spec _ _ _ _ _ _ _ _ Hi Hd' Ea) as (Hc & o' & -> & Ho).
  unfold hbind in E. destruct (accept_batch cfg w xs n1) as [res2 n2] eqn:E2.
  destruct (IH n1 _ _ Hs Hi1 (calm_trans _ _ _ Hn Hc) E2) as (Hn2 & ys & ds' & -> & Hsub & HF' & Hnd).
  injection E as <- <-. split; [done|].
  assert (HF'' : Forall2 (committed n0 n) ds' ys).
  { eapply Forall2_impl; [exact HF'|]. intros d0 y (Hq & Hp0 & Hf0). split_and!; [done..|].
    by eapply fresh_for_calm. }
  destruct o' as [flags|].
  - destruct Ho as [Hf Hu]; [done|]. rewrite Eh in Hf, Hu.
    eexists _, (d :: ds'). split_and!; [done|by constructor|by constructor|].
    cbn [map]. constructor; [|done]. by eapply committed_distinct.
  - eexists _, ds'. split_and!; [done|by constructor|done|done].
Qed.

(** The event [ev] is the packet of [d], as node [n0] knows its sender: [d] opens
    under the session it names, its number is one the session has not accepted,
    and the IP packet is addressed to this node. *)
Definition authentic (n0 : Node N) (d : DataPacket) (ev : VelaEvent) : Prop :=
  let h := dp_header d in
  exists r s body packet,
    n_sessions n0 !! session_id h = Some r
    /\ ps_active (peer_at r n0) = Some s /\ as_session_id s = session_id h
    /\ fst (accept (as_replay s) (sequence h)) = true
    /\ decrypt_in_place (as_cipher s) (sequence h) (encoded_header h) (dp_payload d) = Ok body
    /\ ip_parse body = Ok packet
    /\ is_local (n_routes n0) (ip_destination packet) = true
    /\ ev = IpPacketEvent (ps_node_id (peer_at r n0)) packet.

Definition addressed (n0 : Node N) (d : DataPacket) (y : ParsedPacket * (bool * bool)) : Prop :=
  committed n0 n0 d y /\ is_local (n_routes n0) (ip_destination (pp_packet y.1)) = true.

Lemma addressed_authentic n0 d y :
  addressed n0 d y ->
  authentic n0 d (IpPacketEvent (ps_node_id (peer_at (pp_peer y.1) n0)) (pp_packet y.1)).
Proof.
  intros [(_ & (d' & (c & [Hse (s & Ha & Hid & Hc)] & Ho) & Hp & _) & Hf) Hl]. change (pp_peer y.1, d').1 with (pp_peer y.1) in *.
  destruct Hf as (s' & Ha' & _ & Hf). rewrite Ha in Ha'. injection Ha' as <-.
  unfold open_packet in Ho. cbn in Ho. subst c.
  destruct (decrypt_in_place _ _ _ _) as [body|e] eqn:Ed; [|done]. injection Ho as <-.
  exists (pp_peer y.1), s, body, (pp_packet y.1). by split_and!.
Qed.

Lemma route_inbound_stage n0 ds ys n res n' :
  Forall2 (committed n0 n0) ds ys -> calm n0 n -> route_inbound ys n = (res, n') ->
  calm n0 n' /\ exists zs, res = Ok zs /\ stage (addressed n0) ds zs.
Proof.
  intros HF; revert n res n'; induction HF as [|d y ds ys Hy _ IH]; intros n res n' Hn E.
  { injection E as <- <-. split; [done|]. exists []. split; [done|]. by exists []. }
  cbn [route_inbound] in E. unfold hbind at 1, hget in E. rewrite (proj1 Hn) in E.
  destruct (is_local _ _) eqn:El; cbn [negb] in E.
  - unfold hbind in E. destruct (route_inbound ys n) as [res2 n2] eqn:E2.
    destruct (IH _ _ _ Hn E2) as (Hn2 & zs & -> & Hst). injection E as <- <-.
    split; [done|]. eexists. split; [done|]. apply stage_take; [by split | done].
  - unfold hbind at 1 in E. eapply IH in E as (Hn2 & zs & -> & Hst);
      [|by apply (keeps_calm_count_peer (E := CoreError))].
    split; [done|]. eexists. split; [done|]. by apply stage_skip.
Qed.

(** ** Delivery *)

Definition names_kept (n n' : Node N) : Prop :=
  forall r, ps_node_id (peer_at r n') = ps_node_id (peer_at r n).

Lemma names_kept_count_peer r g s (n : Node N) :
  names_kept n (snd (count_peer (E := CoreError) r g s n)).
Proof.
  intros r'. unfold count_peer, update, hmodify. cbn [snd].
  match goal with |- context [update_at r ?f n] => destruct (peer_at_update r f n r') as [E|[-> E]] end;
    by rewrite E.
Qed.

Lemma deliver_spec r source changed reset p n :
  exists n' evs, deliver cfg r source changed reset p n = (Ok tt, n')
    /\ n_data_events n' = n_data_events n ++ evs /\ names_kept n n'
    /\ evs = if (length (n_data_events n) <? CORE_EVENT_QUEUE_LIMIT)%nat
              then [IpPacketEvent (ps_node_id (peer_at r n)) p] else [].
Proof.
  unfold deliver. unfold hbind at 1.
  pose proof (names_kept_count_peer r pr_accepted_ip_packets set_pr_accepted_ip_packets n) as Hk.
  assert (He : n_data_events (snd (count_peer (E := CoreError) r pr_accepted_ip_packets set_pr_accepted_ip_packets n))
               = n_data_events n) by done.
  cbn [count_peer update hmodify snd] in Hk, He |- *. revert Hk He.
  generalize (update_at r (fun p => set_ps_receive (set_pr_accepted_ip_packets
    (fetch_add (pr_accepted_ip_packets (ps_receive p)) 1) (ps_receive p)) p) n) as n1. intros n1 Hk He.
  unfold hbind at 1, hget.
  set (n2 := if changed then set_n_control_events (n_control_events n1 ++ [PathChanged (ps_node_id (peer_at r n1)) source]) n1 else n1).
  set (n3 := if reset then set_n_control_events (n_control_events n2 ++
     [PathMtuChanged (ps_node_id (peer_at r n1)) source (safe_virtual_mtu (virtual_mtu cfg))]) n2 else n2).
  assert (H3 : n_data_events n3 = n_data_events n /\ names_kept n n3) by (subst n2 n3; by destruct changed, reset).
  destruct H3 as [He3 Hk3].
  replace ((_ : HC unit) n1) with ((let! sent := emit (IpPacketEvent (ps_node_id (peer_at r n1)) p) in
    if sent then hret tt else count_peer r pr_event_queue_drops set_pr_event_queue_drops : HC unit) n3)
    by (subst n2 n3; by destruct changed, reset).
  rewrite (Hk r). unfold hbind, emit. rewrite He3. destruct (_ <? _)%nat.
  - eexists _, [_]. by split_and!.
  - eexists _, []. split_and!; [done| | |done].
    + cbn. by rewrite He3, app_nil_r.
    + intros r'. rewrite <- (Hk3 r'). apply names_kept_count_peer.
Qed.

Lemma deliver_all_stage n0 ds zs n :
  Forall2 (addressed n0) ds zs -> names_kept n0 n ->
  exists n' evs,
    for_each (fun x => deliver cfg (pp_peer x.1) (pp_source x.1) x.2.1 x.2.2 (pp_packet x.1)) zs n
      = (Ok tt, n')
    /\ n_data_events n' = n_data_events n ++ evs /\ stage (authentic n0) ds evs.
Proof.
  intros HF; revert n; induction HF as [|d y ds ys Hy _ IH]; intros n Hn.
  { exists n, []. split_and!; [done|by rewrite app_nil_r|by exists []]. }
  cbn [for_each].
  destruct (deliver_spec (pp_peer y.1) (pp_source y.1) y.2.1 y.2.2 (pp_packet y.1) n)
    as (n1 & evs & E1 & He1 & Hk1 & Hev).
  destruct (IH n1) as (n2 & evs2 & E2 & He2 & Hst). { intros r. by rewrite (Hk1 r). }
  exists n2, (evs ++ evs2). unfold hbind. rewrite E1. split_and!; [done|by rewrite He2, He1, (assoc_L (++))|].
  destruct (_ <? _)%nat; subst evs; [|by apply stage_skip]. rewrite (Hn _). apply stage_take; [|done].
  by apply addressed_authentic.
Qed.

(** ** A turn of a worker *)

(** What a turn on [ds] from [n0] leaves: some of the packets were delivered, in
    order, no two with the same key. *)
Definition delivers (n0 : Node N) (ds : list DataPacket) (n' : Node N) : Prop :=
  exists evs ds', n_data_events n' = n_data_events n0 ++ evs /\ ds' `sublist_of` ds
    /\ Forall2 (authentic n0) ds' evs /\ NoDup (map packet_key ds').

Lemma delivers_nothing n0 ds n' : n_data_events n' = n_data_events n0 -> delivers n0 ds n'.
Proof. intros He. exists [], []. split_and!; [by rewrite app_nil_r|apply sublist_nil_l|constructor..]. Qed.

Lemma commit_delivers n0 w r c d d' n :
  node_inv cfg n0 -> node_inv cfg n -> calm n0 n -> sequence_ok d ->
  job_ok n0 (session_id (dp_header d)) r c -> open_packet c d = Ok d' ->
  delivers n0 [d] (snd (commit_ip_data cfg w r d' n)).
Proof.
  intros Hi0 Hi Hn Hs Hj Ho. unfold commit_ip_data.
  destruct (ip_parse (dp_payload d')) as [p|e] eqn:Ep.
  2: { apply delivers_nothing. unfold hbind. cbn [snd hfail count_peer update hmodify]. apply Hn. }
  pose proof (open_packet_header _ _ _ Ho) as Eh. unfold hbind at 1.
  destruct (accept_packet cfg w r _ _ _ n) as [o n1] eqn:Ea.
  rewrite Eh in Ea. destruct (accept_packet_spec _ _ _ _ _ _ _ _ Hi Hs Ea) as (Hc & o' & -> & Ho').
  pose proof (calm_trans _ _ _ Hn Hc) as Hn1.
  destruct o' as [[changed reset]|]; [|apply delivers_nothing; apply Hn1].
  destruct Ho' as [Hf _]; [done|]. unfold hbind at 1, hget. rewrite (proj1 Hn1).
  destruct (is_local _ _) eqn:El; cbn [negb]; [|apply delivers_nothing; apply Hn1].
  destruct (deliver_spec r (dp_source d') changed reset p n1) as (n2 & evs & E2 & He2 & _ & Hev).
  rewrite E2. cbn [snd]. rewrite (proj1 (proj2 Hn1)) in He2.
  destruct (_ <? _)%nat; subst evs; [|apply delivers_nothing; by rewrite He2, app_nil_r].
  eexists _, [d]. split_and!; [exact He2|done| |apply NoDup_singleton].
  constructor; [|constructor]. rewrite (proj1 (proj2 (proj2 (proj2 Hn1)) r)).
  apply (addressed_authentic n0 d (mkParsed r (dp_header d) (dp_source d') 0 p, (changed, reset))).
  split; [|done]. split_and!; [done| |by apply (fresh_for_calm n0 n)]. exists d'. split_and!; [by exists c|done..].
Qed.

Lemma inline_delivers n0 w d n :
  node_inv cfg n0 -> node_inv cfg n -> calm n0 n -> sequence_ok d ->
  delivers n0 [d] (snd (decrypt_data_inline cfg w d n)).
Proof.
  intros Hi0 Hi Hn Hs. unfold decrypt_data_inline. unfold hbind at 1.
  pose proof (keeps_inv_context cfg d (w_unix w) n Hi) as Hi1.
  pose proof (keeps_calm_context n0 d (w_unix w) n Hn) as Hn1.
  destruct (data_decrypt_context_at cfg d (w_unix w) n) as [[o|e] n1] eqn:Ed; cbn [snd] in *;
    [|apply delivers_nothing; apply Hn1].
  pose proof (context_ok n0 d _ n o n1 Hn Ed) as Hj.
  destruct o as [[r c]|]; [|apply delivers_nothing; apply Hn1]. unfold hbind at 1.
  pose proof (keeps_inv_count_peer cfg (E := CoreError) r pr_worker_data_packets set_pr_worker_data_packets n1 Hi1) as Hi2.
  pose proof (keeps_calm_count_peer (E := CoreError) n0 r pr_worker_data_packets set_pr_worker_data_packets n1 Hn1) as Hn2.
  cbn [count_peer update hmodify] in *. destruct (open_packet c d) as [d'|e] eqn:Eo.
  - by eapply commit_delivers.
  - apply delivers_nothing. apply Hn2.
Qed.

Lemma commit_batch_delivers n0 w l ds n :
  node_inv cfg n0 -> node_inv cfg n -> calm n0 n -> Forall2 (opened n0) ds l -> Forall sequence_ok ds ->
  exists n', commit_ip_data_batch cfg w l n = (Ok tt, n') /\ delivers n0 ds n'.
Proof.
  intros Hi0 Hi Hn Ho Hs. unfold commit_ip_data_batch. unfold hbind at 1.
  assert (Hi1 : keeps (node_inv cfg) (parse_batch l)).
  { clear. induction l as [|[r d] l IH]; cbn [parse_batch]; keeps_walk; auto using keeps_inv_count_peer. }
  specialize (Hi1 n Hi). destruct (parse_batch l n) as [res1 n1] eqn:E1. cbn [snd] in Hi1.
  destruct (parse_batch_stage _ _ _ _ _ _ Ho Hn E1) as (Hn1 & ys & -> & ds1 & Hsub1 & HF1).
  unfold hbind at 1. destruct (accept_batch cfg w ys n1) as [res2 n2] eqn:E2.
  assert (Hs1 : Forall sequence_ok ds1) by (by eapply Forall_sublist).
  destruct (accept_batch_stage _ _ _ _ _ _ _ HF1 Hs1 Hi1 Hn1 E2) as (Hn2 & zs & ds2 & -> & Hsub2 & HF2 & Hnd).
  assert (HF2' : Forall2 (committed n0 n0) ds2 zs).
  { eapply Forall2_impl; [exact HF2|]. intros d y (Hq & Hp & Hf). split_and!; [done..|].
    by apply (fresh_for_calm n0 n1). }
  unfold hbind at 1. destruct (route_inbound zs n2) as [res3 n3] eqn:E3.
  destruct (route_inbound_stage _ _ _ _ _ _ HF2' Hn2 E3) as (Hn3 & as3 & -> & ds3 & Hsub3 & HF3).
  destruct (deliver_all_stage n0 ds3 as3 n3 HF3) as (n4 & evs & E4 & He4 & ds4 & Hsub4 & HF4).
  { intros r. apply Hn3. }
  exists n4. split; [done|]. exists evs, ds4. rewrite (proj1 (proj2 Hn3)) in He4.
  split_and!; [done|by do 3 (etrans; [eassumption|])|done|].
  eapply sublist_NoDup; [exact Hnd|]. apply (fmap_sublist packet_key). by etrans.
Qed.

Lemma queue_and_commit_delivers n0 w l n :
  node_inv cfg n0 -> node_inv cfg n -> calm n0 n -> Forall sequence_ok l ->
  exists n',
    (let! jobs := queue_batch cfg (w_unix w) ∅ l in
     match jobs with
     | [] => hret tt
     | _ => let! opened := open_batch jobs in commit_ip_data_batch cfg w opened
     end : HC unit) n = (Ok tt, n') /\ delivers n0 l n'.
Proof.
  intros Hi0 Hi Hn Hs. unfold hbind at 1.
  pose proof (keeps_inv_queue_batch cfg (w_unix w) ∅ l n Hi) as Hi1.
  destruct (queue_batch cfg (w_unix w) ∅ l n) as [res1 n1] eqn:E1. cbn [snd] in Hi1.
  destruct (queue_batch_stage n0 _ _ _ _ _ _ (contexts_ok_empty n0) Hn E1)
    as (Hn1 & jobs & -> & ds1 & Hsub1 & HF1).
  destruct jobs as [|j jobs]; [exists n1; split; [done | apply delivers_nothing; apply Hn1]|].
  revert HF1. generalize (j :: jobs). intros jobs' HF1. unfold hbind at 1.
  assert (Hi2 : keeps (node_inv cfg) (open_batch jobs')).
  { clear. induction jobs' as [|[[r c] d] l IH]; cbn [open_batch]; keeps_walk; auto using keeps_inv_count_peer. }
  specialize (Hi2 n1 Hi1). destruct (open_batch jobs' n1) as [res2 n2] eqn:E2. cbn [snd] in Hi2.
  destruct (open_batch_stage _ _ _ _ _ _ HF1 Hn1 E2) as (Hn2 & xs & -> & ds2 & Hsub2 & HF2).
  assert (Hsub : ds2 `sublist_of` l) by by etrans.
  destruct (commit_batch_delivers n0 w xs ds2 n2) as (n3 & E3 & evs & ds3 & He & Hsub3 & HF3 & Hnd);
    [done..|by eapply Forall_sublist|].
  exists n3. split; [done|]. exists evs, ds3. split_and!; [done|by etrans|done..].
Qed.

Lemma data_turn_delivers n0 w l n :
  node_inv cfg n0 -> node_inv cfg n -> calm n0 n -> Forall sequence_ok l ->
  exists n', data_turn cfg w l n = (Ok tt, n') /\ delivers n0 l n'.
Proof.
  intros Hi0 Hi Hn Hs. unfold data_turn. unfold hbind at 1.
  pose proof (keeps_inv_count cfg (E := CoreError) tr_worker_data_datagrams set_tr_worker_data_datagrams
                (Z.of_nat (length l)) n Hi) as Hi1.
  pose proof (keeps_calm_count (E := CoreError) n0 tr_worker_data_datagrams set_tr_worker_data_datagrams
                (Z.of_nat (length l)) n Hn) as Hn1.
  cbn [count hmodify snd] in *. revert Hi1 Hn1.
  match goal with |- node_inv cfg ?x -> _ => generalize x end.
  intros n1 Hi1 Hn1. unfold hbind at 1, hget.
  destruct (_ <=? _); [exists n1; split; [done | apply delivers_nothing; apply Hn1]|].
  destruct l as [|d [|d2 l]]; [by apply queue_and_commit_delivers| |by apply queue_and_commit_delivers].
  apply Forall_cons in Hs as [Hd _]. exists (snd (decrypt_data_inline cfg w d n1)).
  split; [|by apply inline_delivers]. unfold hbind, htry. by destruct (decrypt_data_inline cfg w d n1).
Qed.

(** The packets a turn takes. *)
Definition worker_batch (k : nat) (n : Node N) : list DataPacket :=
  take DATA_WORKER_BATCH_SIZE (default [] (n_data_queues n !! k)).

Lemma worker_turn_delivers w k n :
  node_inv cfg n ->
  exists n', worker_turn cfg w k n = (Ok tt, n') /\ delivers n (worker_batch k n) n'.
Proof.
  intros Hi. unfold worker_turn, worker_batch. unfold hbind at 1, hget.
  destruct (n_data_queues n !! k) as [[|d q]|] eqn:Eq;
    [exists n; split; [done | by apply delivers_nothing]| |exists n; split; [done | by apply delivers_nothing]].
  pose proof (inv_queues cfg n Hi) as Hq. pose proof (Forall_lookup_1 _ _ _ _ Hq Eq) as [Hlen Hok].
  unfold hbind at 1, hmodify. apply data_turn_delivers; [done| | |by apply Forall_take].
  - apply inv_set_queues; [done|]. apply Forall_insert; [done|]. split; [|by apply Forall_drop].
    rewrite length_drop. cbn [length] in *. lia.
  - split_and!; [done..|]. intros r. apply peer_later_refl.
Qed.

(** C3: a worker of a node in any state the node can reach delivers to the virtual
    interface, in the order of its queue, only packets that open under the session
    they name, with a number that session had not accepted, addressed to this
    node, under the id of the peer of that session; no two of them have the same
    session and number. *)
Theorem worker_delivers (HB : AeadBytes HA) w k n :
  node_reachable parse_credential cfg me n ->
  exists n', worker_turn cfg w k n = (Ok tt, n')
  /\ exists evs ds, n_data_events n' = n_data_events n ++ evs
    /\ ds `sublist_of` worker_batch k n
    /\ Forall2 (authentic n) ds evs /\ NoDup (map packet_key ds).
Proof.
  intros Hr. apply (worker_turn_delivers w k). by eapply node_reachable_inv.
Qed.
End Deliver.

Lemma worker_delivers_witness :
  exists n', worker_turn (sample_config 2) sample_world 1 b_received = (Ok tt, n')
  /\ exists evs ds, n_data_events n' = n_data_events b_received ++ evs
    /\ ds `sublist_of` worker_batch 1 b_received
    /\ Forall2 (authentic b_received) ds evs /\ NoDup (map packet_key ds).
Proof.
  apply (worker_delivers no_credential (sample_config 2) (sample_local 2));
    [by_decide | apply sample_aead_bytes | apply b_received_reachable].
Defined.
