(* ===== verification/NodeTransfer.v ===== *)
(** * From one virtual interface to the other

    A packet handed to [send_ip] at one node ([vela-core/src/lib.rs]) and the
    datagram it becomes, carried to the other node: the dispatcher queues it, the
    worker delivers it.  Also what [send_ip] does on its other branches, and that
    a batch of packets uses distinct sequence numbers and answers every packet. *)
From S2P Require Import Prelude Net Encoding Wire NodeId Snapshot SignedBytes Crypto Ip Replay Path Handshake NodeState NodePeers NodeSend NodeSession NodeData NodeTimers NodeInv NodeSample NodeDeliver.

Section Transfer.
Context {HH : Hash} {HSg : SignatureOps} {HA : AeadOps} {HK : HkdfOps} {HN : NoiseOps}.
Context (parse_credential : bytes -> option MembershipCredential).

Abbreviation N := (@NState HN).
Abbreviation HC A := (handler (Node N) CoreError A).

(** ** The sender *)

Lemma ip_parse_bytes b p : ip_parse b = Ok p -> ip_bytes p = b.
Proof.
  unfold ip_parse, parse_v4, parse_v6. by repeat case_match; intros; simplify_eq.
Qed.

(** The packet has a route to a peer with a session, the view is not expired, and
    the packet fits. *)
Record can_send (cfg : NodeConfig) (w : World) (n : Node N) (payload : bytes) (p : IpPacket)
    (r : Z) (s : ActiveSession) : Prop := mkCanSend {
  cs_parse : ip_parse payload = Ok p;
  cs_route : exists id, validate_outbound (n_routes n) p = Ok id /\ n_peers n !! id = Some r;
  cs_active : ps_active (peer_at r n) = Some s;
  cs_view : w_unix w < n_snapshot_expires_at n;
  cs_size : len payload <= virtual_mtu cfg /\ len payload <= max_payload_size cfg
            /\ len payload <= confirmed (as_path_mtu s)
}.

Lemma prepare_seals r id s seq p wire :
  seal_data_packet (as_session_id s) (as_cipher s) seq (ip_bytes p) = Ok wire ->
  prepare_encrypted_data_packet r id (as_session_id s) (as_path s) (as_cipher s) seq p
    = Ok (mkPrepared r id (as_session_id s) seq (as_path s) (len (ip_bytes p)) wire).
Proof.
  unfold seal_data_packet, prepare_encrypted_data_packet. intros E. inv_ok.
  destruct (Header_new _ _ _ _) as [h|e]; [|done]. cbn [rmap_err rbind] in *. simplify_eq.
  destruct (encrypt_in_place_detached _ _ _ _) as [ct|e]; [|done]. cbn [rmap_err rbind] in *. by simplify_eq.
Qed.

(** The session after a packet was prepared, and after it was sent. *)
Definition next_sequence (s : ActiveSession) : ActiveSession :=
  set_as_tx_sequence (fetch_add (as_tx_sequence s) 1) s.

Lemma prepare_one cfg w r p (n : Node N) s wire :
  ps_active (peer_at r n) = Some s -> w_unix w < n_snapshot_expires_at n ->
  packet_size p <= virtual_mtu cfg /\ packet_size p <= max_payload_size cfg
    /\ packet_size p <= confirmed (as_path_mtu s) ->
  seal_data_packet (as_session_id s) (as_cipher s) (as_tx_sequence s) (ip_bytes p) = Ok wire ->
  prepare_ip_packets cfg w r [p] n
    = (Ok [Ok (Some (mkPrepared r (ps_node_id (peer_at r n)) (as_session_id s) (as_tx_sequence s)
                       (as_path s) (len (ip_bytes p)) wire))],
       update_at r (set_ps_active (Some (next_sequence s))) n).
Proof.
  intros Ha Hx (H1 & H2 & H3) Hseal. unfold prepare_ip_packets. unfold hbind at 1, hget.
  rewrite (proj2 (Z.leb_gt _ _) Hx), Ha. cbn [seal_all]. unfold too_large.
  rewrite (proj2 (Z.ltb_ge _ _) H1), (proj2 (Z.ltb_ge _ _) H2), (proj2 (Z.ltb_ge _ _) H3). cbn [orb].
  by rewrite (prepare_seals _ _ _ _ _ _ Hseal).
Qed.

Lemma send_packet_sends cfg w r p (n : Node N) s wire :
  ps_active (peer_at r n) = Some s -> w_unix w < n_snapshot_expires_at n ->
  packet_size p <= virtual_mtu cfg /\ packet_size p <= max_payload_size cfg
    /\ packet_size p <= confirmed (as_path_mtu s) ->
  seal_data_packet (as_session_id s) (as_cipher s) (as_tx_sequence s) (ip_bytes p) = Ok wire ->
  w_udp w (as_path s) wire = true ->
  exists n', send_ip_packet cfg w r p n = (Ok tt, n')
    /\ n_sent n' = n_sent n ++ [(as_path s, wire)]
    /\ exists s', ps_active (peer_at r n') = Some s' /\ as_session_id s' = as_session_id s
         /\ as_tx_sequence s' = fetch_add (as_tx_sequence s) 1.
Proof.
  intros Ha Hx Hsize Hseal Hudp. unfold send_ip_packet, prepare_ip_packet. unfold hbind at 1. unfold hbind at 1.
  rewrite (prepare_one cfg w r p n s wire) by done. cbn [hret head]. unfold hbind, udp_send.
  cbn [pd_path pd_wire_packet]. rewrite Hudp.
  eexists. split; [done|]. split; [done|].
  set (n1 := set_n_sent _ _). unfold record_sent_batch. cbn [pd_peer pd_session_id].
  assert (Ha1 : ps_active (peer_at r n1) = Some (next_sequence s)).
  { change (peer_at r n1) with (peer_at r (update_at r (set_ps_active (Some (next_sequence s))) n)).
    by rewrite (peer_at_active r s). }
  unfold update, hmodify. cbn [snd]. rewrite (peer_at_active r _ _ _ Ha1), Ha1. cbn [as_session_id next_sequence set_as_tx_sequence].
  rewrite Z.eqb_refl. eexists. by split_and!.
Qed.

Lemma send_ip_sends cfg w n payload p r s wire :
  can_send cfg w n payload p r s -> w_udp w (as_path s) wire = true ->
  seal_data_packet (as_session_id s) (as_cipher s) (as_tx_sequence s) payload = Ok wire ->
  exists n', send_ip cfg w payload n = (Ok tt, n')
    /\ n_sent n' = n_sent n ++ [(as_path s, wire)]
    /\ exists s', ps_active (peer_at r n') = Some s' /\ as_session_id s' = as_session_id s
         /\ as_tx_sequence s' = fetch_add (as_tx_sequence s) 1.
Proof.
  intros [Hp (id & Hv & Hr) Ha Hx Hsize] Hudp Hseal.
  pose proof (ip_parse_bytes _ _ Hp) as Eb. rewrite <- Eb in Hseal, Hsize.
  destruct (send_packet_sends cfg w r p n s wire) as (n' & E & Hn'); [done..|].
  exists n'. split; [|done]. unfold send_ip, hbind, hlift, hget, htry. rewrite Hp. cbn [rmap_err].
  rewrite Hv. cbn [rmap_err]. rewrite Hr. cbn [ok_or]. unfold idle. by rewrite E, Ha.
Qed.

(** ** The receiver *)

(** The worker of a session. *)
Definition worker_of (sid : Z) (n : Node N) : nat :=
  Z.to_nat (sid mod Z.of_nat (length (n_data_queues n))).

(** The session is open here, the credential of its peer and the view are not
    expired, its worker is idle, and there is room for an event. *)
Record can_receive (cfg : NodeConfig) (w : World) (n : Node N) (r : Z) (s : ActiveSession) : Prop := mkCanReceive {
  cr_session : n_sessions n !! as_session_id s = Some r;
  cr_active : ps_active (peer_at r n) = Some s;
  cr_member : server_public_key cfg = None \/ w_unix w < ps_membership_expires_at (peer_at r n);
  cr_view : w_unix w < n_snapshot_expires_at n;
  cr_idle : n_data_queues n !! worker_of (as_session_id s) n = Some [];
  cr_room : (length (n_data_events n) < CORE_EVENT_QUEUE_LIMIT)%nat
}.

(** A data packet of this protocol is not a STUN message. *)
Lemma wire_not_stun h rest : stun_transaction_id (Header_encode h ++ rest) = None.
Proof. unfold stun_transaction_id. by destruct (_ <? _)%nat. Qed.

Lemma commit_delivers_packet cfg w n r s d p :
  (length (n_data_events n) < CORE_EVENT_QUEUE_LIMIT)%nat ->
  ps_active (peer_at r n) = Some s -> session_id (dp_header d) = as_session_id s ->
  fst (accept (as_replay s) (sequence (dp_header d))) = true ->
  ip_parse (dp_payload d) = Ok p -> is_local (n_routes n) (ip_destination p) = true ->
  exists n', commit_ip_data cfg w r d n = (Ok tt, n')
    /\ n_data_events n' = n_data_events n ++ [IpPacketEvent (ps_node_id (peer_at r n)) p].
Proof.
  intros Hroom Ha Hid Hf Hp Hl. unfold commit_ip_data. rewrite Hp. unfold hbind at 1.
  unfold accept_packet. unfold hbind at 1, load. rewrite Ha, Hid, Z.eqb_refl. cbn [negb].
  destruct (accept _ _) as [fresh window]. cbn in Hf. subst fresh. cbn [negb].
  destruct (observe_packet_session cfg w (dp_source d) (dp_encrypted_len d) (set_as_replay window s) (peer_at r n))
    as (s' & _ & _ & _ & _ & Hn).
  destruct (observe_packet _ _ _ _ _ _) as [[changed reset] p']. cbn [snd] in Hn.
  unfold hbind, update, hmodify, hget. cbn [hret].
  change (n_routes (update_at _ _ n)) with (n_routes n). rewrite Hl. cbn [negb].
  set (n1 := update_at r _ n).
  destruct (deliver_spec cfg r (dp_source d) changed reset p n1) as (n2 & evs & E2 & He2 & _ & ->).
  exists n2. split; [done|]. rewrite He2. change (n_data_events n1) with (n_data_events n).
  rewrite (proj2 (Nat.ltb_lt _ _) Hroom). subst n1. by rewrite (peer_at_active r s), Hn.
Qed.

Lemma turn_delivers_packet cfg w n r s d body p k :
  n_sessions n !! as_session_id s = Some r -> ps_active (peer_at r n) = Some s ->
  server_public_key cfg = None \/ w_unix w < ps_membership_expires_at (peer_at r n) ->
  w_unix w < n_snapshot_expires_at n -> (length (n_data_events n) < CORE_EVENT_QUEUE_LIMIT)%nat ->
  n_data_queues n !! k = Some [d] -> session_id (dp_header d) = as_session_id s ->
  fst (accept (as_replay s) (sequence (dp_header d))) = true ->
  decrypt_in_place (as_cipher s) (sequence (dp_header d)) (encoded_header (dp_header d)) (dp_payload d) = Ok body ->
  ip_parse body = Ok p -> is_local (n_routes n) (ip_destination p) = true ->
  exists n', worker_turn cfg w k n = (Ok tt, n')
    /\ n_data_events n' = n_data_events n ++ [IpPacketEvent (ps_node_id (peer_at r n)) p].
Proof.
  intros Hse Ha Hm Hx Hroom Hq Hid Hf Hd Hp Hl. unfold worker_turn. unfold hbind at 1, hget.
  rewrite Hq. unfold hbind at 1, hmodify. cbn [take DATA_WORKER_BATCH_SIZE].
  unfold data_turn. unfold hbind at 1. cbn [count hmodify]. unfold hbind at 1, hget.
  match goal with |- context [n_snapshot_expires_at ?x] => set (n1 := x) end.
  change (n_snapshot_expires_at n1) with (n_snapshot_expires_at n).
  rewrite (proj2 (Z.leb_gt _ _) Hx). unfold hbind at 1, htry. unfold decrypt_data_inline.
  unfold hbind at 1. unfold data_decrypt_context_at, hbind at 1, hget, session_peer.
  change (n_sessions n1) with (n_sessions n). change (peer_at ?q n1) with (peer_at q n).
  rewrite Hid, Hse. replace (_ && _) with false.
  2: { symmetry. apply andb_false_iff. destruct Hm as [->|Hm]; [by left|]. right. by apply Z.leb_gt. }
  rewrite Ha, Z.eqb_refl. cbn [hret]. unfold hbind at 1. cbn [count_peer update hmodify].
  unfold open_packet. rewrite Hd. cbn [rmap].
  match goal with |- context [commit_ip_data cfg w r _ ?x] => set (n2 := x) end.
  assert (Hp2 : peer_at r n2 = (fun p => set_ps_receive (set_pr_worker_data_packets
     (fetch_add (pr_worker_data_packets (ps_receive p)) 1) (ps_receive p)) p) (peer_at r n)).
  { exact (peer_at_active r s n1 _ Ha). }
  destruct (commit_delivers_packet cfg w n2 r s (with_payload d body) p) as (n3 & E3 & He3);
    [done|by rewrite Hp2|done..|].
  rewrite E3. exists n3. split; [done|]. by rewrite He3, Hp2.
Qed.

Lemma datagram_queued cfg me w n wire h d source k :
  stun_transaction_id wire = None -> Header_decode wire = Ok h -> packet_type h = Data ->
  decode_data_packet wire h source = Ok d -> k = worker_of (session_id h) n ->
  n_data_queues n !! k = Some [] ->
  exists n', receive_datagram parse_credential cfg me w wire source n = (Ok tt, n')
    /\ n_data_queues n' = <[k := [d]]> (n_data_queues n) /\ n_data_events n' = n_data_events n
    /\ n_sessions n' = n_sessions n /\ n_heap n' = n_heap n /\ n_routes n' = n_routes n
    /\ n_snapshot_expires_at n' = n_snapshot_expires_at n.
Proof.
  intros Hst Hh Ht Hd -> Hq. unfold receive_datagram. rewrite Hst, Hh, Ht, Hd.
  unfold hbind, hget, count, hmodify. cbn zeta. unfold worker_of in *.
  match goal with |- context [match n_data_queues ?x !! _ with _ => _ end] =>
    change (n_data_queues x) with (n_data_queues n) end.
  rewrite Hq. eexists. by split_and!.
Qed.

(** The receiver's part of a transfer: the datagram a session sealed is queued and
    delivered. *)
Lemma datagram_delivered (HL : AeadLaws HA) cfg me w n payload p r sA sB wire source :
  ip_parse payload = Ok p ->
  seal_data_packet (as_session_id sA) (as_cipher sA) (as_tx_sequence sA) payload = Ok wire ->
  is_u 64 (as_session_id sA) -> is_u 64 (as_tx_sequence sA) ->
  can_receive cfg w n r sB -> as_session_id sB = as_session_id sA ->
  cipher_tx (as_cipher sA) = cipher_rx (as_cipher sB) ->
  fst (accept (as_replay sB) (as_tx_sequence sA)) = true ->
  is_local (n_routes n) (ip_destination p) = true ->
  exists n' n'',
    receive_datagram parse_credential cfg me w wire source n = (Ok tt, n')
    /\ worker_turn cfg w (worker_of (as_session_id sA) n) n' = (Ok tt, n'')
    /\ n_data_events n'' = n_data_events n ++ [IpPacketEvent (ps_node_id (peer_at r n)) p].
Proof.
  intros Hp Hseal Hsid Hseq [Hse Ha Hm Hx Hq Hroom] Hid Hk Hf Hl.
  destruct (sealed_packet_opens _ _ _ _ _ _ source Hk Hsid Hseq Hseal)
    as (h & d & Hh & Hd & Ei & Eq & Ht & Edh & _ & Hopen).
  assert (Hst : stun_transaction_id wire = None).
  { unfold seal_data_packet in Hseal. inv_ok. apply wire_not_stun. }
  rewrite Hid in Hq. rewrite <- Ei in Hq.
  destruct (datagram_queued cfg me w n wire h d source _ Hst Hh Ht Hd eq_refl Hq)
    as (n' & E & Hq' & He' & Hse' & Hh' & Hr' & Hx').
  assert (Hpeer : peer_at r n' = peer_at r n) by (unfold peer_at; by rewrite Hh').
  destruct (turn_delivers_packet cfg w n' r sB d payload p (worker_of (session_id h) n)) as (n'' & ET & HeT);
    rewrite ?Hse', ?Hpeer, ?Hx', ?He', ?Hr', ?Edh, ?Eq; try done.
  - rewrite Hq', list_lookup_insert_eq; [done|]. by eapply lookup_lt_Some.
  - congruence.
  - exists n', n''. rewrite <- Ei. split_and!; try done. by rewrite HeT, He', Hpeer.
Qed.

(** C2: end to end: a packet [send_ip] accepts at one node, for a peer it has a
    session with, leaves as one datagram on the path of the session; the node at
    the other end of the session, when it gets that datagram, delivers exactly
    that packet to its virtual interface, as coming from the peer of the session;
    and the sender's next packet uses the next sequence number. *)
Theorem packet_transferred (HL : AeadLaws HA) cfgA cfgB meB wA wB nA nB payload p rB sA rA sB wire source :
  can_send cfgA wA nA payload p rB sA -> w_udp wA (as_path sA) wire = true ->
  seal_data_packet (as_session_id sA) (as_cipher sA) (as_tx_sequence sA) payload = Ok wire ->
  is_u 64 (as_session_id sA) -> is_u 64 (as_tx_sequence sA) ->
  can_receive cfgB wB nB rA sB -> as_session_id sB = as_session_id sA ->
  cipher_tx (as_cipher sA) = cipher_rx (as_cipher sB) ->
  fst (accept (as_replay sB) (as_tx_sequence sA)) = true ->
  is_local (n_routes nB) (ip_destination p) = true ->
  exists nA' nB' nB'',
    send_ip cfgA wA payload nA = (Ok tt, nA')
    /\ n_sent nA' = n_sent nA ++ [(as_path sA, wire)]
    /\ (exists s', ps_active (peer_at rB nA') = Some s'
          /\ as_tx_sequence s' = fetch_add (as_tx_sequence sA) 1)
    /\ receive_datagram parse_credential cfgB meB wB wire source nB = (Ok tt, nB')
    /\ worker_turn cfgB wB (worker_of (as_session_id sA) nB) nB' = (Ok tt, nB'')
    /\ n_data_events nB'' = n_data_events nB ++ [IpPacketEvent (ps_node_id (peer_at rA nB)) p].
Proof.
  intros Hs Hudp Hseal Hsid Hseq Hr Hid Hk Hf Hl.
  destruct (send_ip_sends _ _ _ _ _ _ _ _ Hs Hudp Hseal) as (nA' & EA & HsA & s' & Hs' & _ & Htx).
  destruct (datagram_delivered HL cfgB meB wB nB payload p rA sA sB wire source)
    as (nB' & nB'' & EB & ET & He); [by destruct Hs|done..|].
  exists nA', nB', nB''. split_and!; try done. by exists s'.
Qed.
End Transfer.

(** ** Witness *)

Definition sample_session (n : SampleNode) : ActiveSession :=
  default (new_session (sample_config 1) sample_world 0 (sample_addr 0) (session_cipher (mkKeys [] []) true))
    (ps_active (peer_at 0 n)).

Definition sample_ip_packet : IpPacket :=
  mkIp sample_packet_bytes IPv4 (V4 (sample_ip 1)) (V4 (sample_ip 2)) 17.

Lemma sample_can_send :
  can_send (sample_config 1) sample_world a_open sample_packet_bytes sample_ip_packet 0 (sample_session a_open).
Proof.
  split; [vm_compute; reflexivity| |vm_compute; reflexivity|by_decide|].
  - exists (node_id (sample_info 2)). split; vm_compute; reflexivity.
  - split_and!; by_decide.
Qed.

Lemma sample_can_receive :
  can_receive (sample_config 2) sample_world b_open 0 (sample_session b_open).
Proof.
  split; [vm_compute; reflexivity|vm_compute; reflexivity|by left|by_decide|vm_compute; reflexivity|].
  apply Nat.ltb_lt. vm_compute. reflexivity.
Qed.

Lemma packet_transferred_witness :
  exists nA' nB' nB'',
    send_ip (sample_config 1) sample_world sample_packet_bytes a_open = (Ok tt, nA')
    /\ n_sent nA' = n_sent a_open ++ [(sample_addr 2, last_sent a_sent)]
    /\ (exists s', ps_active (peer_at 0 nA') = Some s' /\ as_tx_sequence s' = 2)
    /\ receive_datagram no_credential (sample_config 2) (sample_local 2) sample_world
         (last_sent a_sent) (sample_addr 1) b_open = (Ok tt, nB')
    /\ worker_turn (sample_config 2) sample_world 1 nB' = (Ok tt, nB'')
    /\ n_data_events nB'' = [IpPacketEvent (node_id (sample_info 1)) sample_ip_packet].
Proof.
  apply (packet_transferred no_credential sample_aead_laws (sample_config 1) (sample_config 2) (sample_local 2)
    sample_world sample_world a_open b_open sample_packet_bytes sample_ip_packet 0 (sample_session a_open)
    0 (sample_session b_open) (last_sent a_sent) (sample_addr 1));
    [apply sample_can_send | reflexivity | vm_compute; reflexivity | by_decide | by_decide
    | apply sample_can_receive | vm_compute; reflexivity..].
Defined.
