(* ===== verification/NodeBatch.v ===== *)
(** * Batches of outgoing packets

    [send_ip_batch] of [vela-core/src/lib.rs] answers every packet it is given:
    the slots it fills in by index, from routing, from sealing and from the socket,
    are all filled when it returns, so its [expect] never fails.  The sequence
    numbers of a batch, and so the nonces it seals with, are distinct. *)
From S2P Require Import Prelude Net Encoding Wire NodeId Snapshot SignedBytes Crypto Ip Replay Path Handshake NodeState NodePeers NodeSend NodeSession NodeData NodeTimers NodeInv NodeSample NodeDeliver NodeTransfer.

(** ** Handlers that always return *)

Definition returns {S E A} (Q : A -> Prop) (m : handler S E A) : Prop :=
  forall s, exists a s', m s = (Ok a, s') /\ Q a.

Lemma returns_ret {S E A} (Q : A -> Prop) a : Q a -> returns Q (hret a : handler S E A).
Proof. intros Ha s. by exists a, s. Qed.

Lemma returns_bind {S E A B} (Q : A -> Prop) (R : B -> Prop) (m : handler S E A) k :
  returns Q m -> (forall a, Q a -> returns R (k a)) -> returns R (hbind m k).
Proof.
  intros Hm Hk s. destruct (Hm s) as (a & s' & Em & Ha). destruct (Hk a Ha s') as (b & s'' & Ek & Hb).
  exists b, s''. split; [|done]. unfold hbind. by rewrite Em.
Qed.

Definition always {S E A} (m : handler S E A) : Prop := returns (fun _ => True) m.

Lemma always_bind {S E A B} (R : B -> Prop) (m : handler S E A) k :
  always m -> (forall a, returns R (k a)) -> returns R (hbind m k).
Proof. intros Hm Hk. eapply returns_bind; [exact Hm | auto]. Qed.

Lemma always_modify {S E} f : always (hmodify f : handler S E unit).
Proof. intros s. by exists tt, (f s). Qed.

Lemma always_get {S E} : always (hget : handler S E S).
Proof. intros s. by exists s, s. Qed.

Ltac always_walk :=
  repeat match goal with
  | |- returns _ (hbind hget _) => apply always_bind; [apply always_get | intros ?]
  | |- always (hbind _ _) => apply always_bind; [|intros ?]
  | |- returns _ (hbind _ _) => apply always_bind; [|intros ?]
  | |- always (hret _) => by apply returns_ret
  | |- returns (fun _ => True) ?m => change (always m)
  | |- always (let _ := _ in _) => cbn zeta
  | |- always (hmodify _) => apply always_modify
  | |- always hget => apply always_get
  | |- always (if ?b then _ else _) => destruct b
  | |- returns _ (if ?b then _ else _) => destruct b
  | |- always (match ?o with Some _ => _ | None => _ end) => destruct o
  | |- returns _ (match ?o with Some _ => _ | None => _ end) => destruct o
  end.

Section Batch.
Context {HA : AeadOps} {N : Type} (cfg : NodeConfig).

Abbreviation HS A := (handler (Node N) SendError A).

Lemma always_update {E} r f : always (update r f : handler (Node N) E unit).
Proof. apply always_modify. Qed.

Lemma always_emit {E} ev : always (emit ev : handler (Node N) E bool).
Proof. intros n. unfold emit. destruct ev; try by eexists _, _. destruct (_ <? _)%nat; by eexists _, _. Qed.

Lemma always_load {E} r : always (load r : handler (Node N) E _).
Proof. intros n. by eexists _, _. Qed.

Lemma always_spawn {E} t : always (spawn t : handler (Node N) E unit).
Proof. apply always_modify. Qed.

Lemma always_remove {E} r sid : always (remove_session r sid : handler (Node N) E unit).
Proof. apply always_modify. Qed.

#[local] Hint Resolve always_update always_emit always_load always_spawn always_remove : core.

Lemma always_invalidate {E} r e b : always (invalidate_session_if r e b : handler (Node N) E unit).
Proof. unfold invalidate_session_if. always_walk; auto. Qed.

Lemma always_schedule {E} r : always (schedule_reconnect r : handler (Node N) E unit).
Proof. unfold schedule_reconnect. always_walk; auto. Qed.

Lemma always_for_each {E A} (f : A -> handler (Node N) E unit) l :
  (forall x, always (f x)) -> always (for_each f l).
Proof. intros Hf. induction l as [|x l IH]; cbn [for_each]; always_walk; auto. Qed.

(** ** Slots *)

Abbreviation Slots := (list (option (result unit SendError))).

(** Every slot is filled, or is one of the indices still to be answered. *)
Definition covered (k : nat) (results : Slots) (open : list nat) : Prop :=
  length results = k
  /\ forall i, (i < k)%nat -> i ∈ open \/ exists x, results !! i = Some (Some x).

Lemma covered_fill k results i open x :
  covered k results (i :: open) -> covered k (<[i := Some x]> results) open.
Proof.
  intros [Hl Hc]. split; [by rewrite length_insert|]. intros j Hj.
  destruct (decide (i = j)) as [->|Hne].
  - right. exists x. apply list_lookup_insert_eq. by rewrite Hl.
  - rewrite list_lookup_insert_ne by done. destruct (Hc j Hj) as [Hin|?]; [|by right].
    apply elem_of_cons in Hin as [->|?]; [done | by left].
Qed.

Lemma covered_more k results open open' :
  (forall i, i ∈ open -> i ∈ open') -> covered k results open -> covered k results open'.
Proof. intros Hi [Hl Hc]. split; [done|]. intros j Hj. destruct (Hc j Hj); auto. Qed.

Lemma covered_start k : covered k (replicate k None) (seq 0 k).
Proof.
  split; [apply length_replicate|]. intros i Hi. left. apply elem_of_seq. lia.
Qed.

Lemma route_batch_covers k n i l results open :
  covered k results (seq i (length l) ++ open) ->
  let '(routed, results') := route_batch (N := N) n i l results in
  covered k results' (map rp_index routed ++ open).
Proof.
  revert i results open; induction l as [|payload l IH]; intros i results open Hc; cbn [route_batch]; [done|].
  cbn [length seq app] in Hc.
  set (res := let? p := rmap_err Send_Ip (ip_parse payload) in
              let? id := rmap_err Send_Ip (validate_outbound (n_routes n) p) in
              let? r := ok_or (n_peers n !! id) Send_UnknownPeer in Ok (mkRouted i p r)).
  assert (Hi : forall x, res = Ok x -> rp_index x = i).
  { intros x Hx. unfold res in Hx. inv_ok. done. }
  destruct res as [x|e].
  - specialize (IH (S i) results (i :: open)). destruct (route_batch n (S i) l results) as [routed results'].
    cbn [map app]. rewrite (Hi x) by done. eapply covered_more; [|apply IH].
    + intros j. rewrite !elem_of_app, !elem_of_cons. rewrite elem_of_app. tauto.
    + eapply covered_more; [|exact Hc]. intros j. rewrite !elem_of_cons, !elem_of_app, !elem_of_cons. tauto.
  - specialize (IH (S i) (<[i := Some (Err e)]> results) open). destruct (route_batch n (S i) l _) as [routed results'].
    apply IH. by apply covered_fill.
Qed.

(** ** Preparing *)

Lemma length_seal_all r id s tx l : length (seal_all cfg r id s tx l).1 = length l.
Proof.
  revert tx; induction l as [|p l IH]; intros tx; cbn [seal_all]; [done|].
  destruct (_ || _).
  - specialize (IH tx). destruct (seal_all cfg r id s tx l). cbn in *. by f_equal.
  - specialize (IH (fetch_add tx 1)). destruct (seal_all cfg r id s (fetch_add tx 1) l). cbn in *. by f_equal.
Qed.

Lemma length_queue_all q l : length (queue_all cfg q l).1 = length l.
Proof.
  revert q; induction l as [|p l IH]; intros q; cbn [queue_all]; [done|].
  destruct (too_large cfg p); [|destruct (_ <=? _)%nat].
  - specialize (IH q). destruct (queue_all cfg q l). cbn in *. by f_equal.
  - specialize (IH q). destruct (queue_all cfg q l). cbn in *. by f_equal.
  - specialize (IH (q ++ [ip_bytes p])). destruct (queue_all cfg _ l). cbn in *. by f_equal.
Qed.

Lemma prepare_returns w r l :
  returns (fun rs => length rs = length l) (prepare_ip_packets cfg w r l : HS _).
Proof.
  unfold prepare_ip_packets. apply always_bind; [apply always_get|intros n].
  destruct l as [|p l]; [by apply returns_ret|]. generalize (p :: l) as l'. intros l'.
  destruct (_ <=? _).
  { apply always_bind; [apply always_invalidate|intros _]. apply returns_ret. apply length_map. }
  cbn zeta. destruct (ps_active _) as [s|].
  - pose proof (length_seal_all r (ps_node_id (peer_at r n)) s (as_tx_sequence s) l') as Hl.
    destruct (seal_all _ _ _ _ _ _). apply always_bind; [apply always_update|intros _]. by apply returns_ret.
  - pose proof (length_queue_all (ps_queue (peer_at r n)) l') as Hl.
    destruct (queue_all _ _ _). apply always_bind; [apply always_update|intros _]. by apply returns_ret.
Qed.

(** What is left to answer after a group was prepared is what it sends. *)
Definition prepared_ok (k : nat) (open : list nat)
    (x : list (nat * PreparedDataPacket) * list bytes * Slots) : Prop :=
  covered k x.2 (map fst x.1.1 ++ open).

Lemma prepare_group_returns k w g results open :
  covered k results (map rp_index g ++ open) ->
  returns (prepared_ok k open) (prepare_group cfg w g results : HS _).
Proof.
  intros Hc. unfold prepare_group. destruct g as [|first g]; [by apply returns_ret|].
  apply always_bind; [apply always_get|intros n]. cbn zeta.
  set (connect := idle _). generalize (ps_node_id (peer_at (rp_peer first) n)) as id. intros id.
  revert Hc. set (g' := first :: g). clearbody g'. intros Hc.
  eapply returns_bind; [apply prepare_returns|]. intros rs Hl. apply returns_ret. rewrite length_map in Hl.
  match goal with |- prepared_ok k open (fold_left ?f _ _) => set (step := f) end.
  assert (Hstep : forall xs sends connects results,
    covered k results (map (fun x => rp_index x.1) xs ++ map fst sends ++ open) ->
    prepared_ok k open (fold_left step xs (sends, connects, results))).
  { clear. induction xs as [|[x res] xs IH]; intros sends connects results Hc; [done|].
    cbn [fold_left]. destruct res as [[d|]|e]; cbn [step snd fst]; apply IH.
    - rewrite map_app. eapply covered_more; [|exact Hc]. intros j. cbn.
      rewrite !elem_of_cons, !elem_of_app, elem_of_cons. tauto.
    - by apply covered_fill.
    - by apply covered_fill. }
  apply Hstep. cbn [map app]. replace (map _ (zip g' rs)) with (map rp_index g'); [done|].
  rewrite <- (map_map fst rp_index). f_equal. symmetry. apply fst_zip. lia.
Qed.

Lemma prepare_groups_returns k w gs results open :
  covered k results (map rp_index (concat gs) ++ open) ->
  returns (prepared_ok k open) (prepare_groups cfg w gs results : HS _).
Proof.
  revert results open; induction gs as [|g gs IH]; intros results open Hc; cbn [prepare_groups].
  { by apply returns_ret. }
  cbn [concat] in Hc. rewrite map_app, <- (assoc_L (++)) in Hc.
  eapply returns_bind; [by apply prepare_group_returns|]. intros [[sends connects] results'] H1.
  eapply returns_bind; [apply (IH results' (map fst sends ++ open))|].
  - eapply covered_more; [|exact H1]. intros j. cbn. rewrite !elem_of_app. tauto.
  - intros [[sends' connects'] results''] H2. apply returns_ret. unfold prepared_ok in *. cbn in *.
    rewrite map_app. eapply covered_more; [|exact H2]. intros j. rewrite !elem_of_app. tauto.
Qed.

(** ** Sending *)

Lemma concat_group_runs {A} (same : A -> A -> bool) l : concat (group_runs same l) = l.
Proof.
  induction l as [|x l IH]; cbn [group_runs]; [done|].
  destruct (group_runs same l) as [|[|y g] gs]; cbn in *; [by subst|by rewrite IH|].
  destruct (same x y); cbn; by rewrite IH.
Qed.

Lemma always_record_sent l : always (record_sent_batch l : HS unit).
Proof. unfold record_sent_batch. destruct l; [by apply returns_ret | apply always_update]. Qed.

Lemma send_group_returns w g :
  returns (fun rs => length rs = length g) (send_group w g : HS _).
Proof.
  unfold send_group. destruct g as [|first g]; [by apply returns_ret|].
  generalize (first :: g) as g'. intros g'. cbn zeta. destruct (w_batch _ _) as [count|].
  - apply always_bind; [apply always_modify|intros _]. apply always_bind; [apply always_record_sent|intros _].
    apply always_bind; [|intros _].
    { destruct (_ =? _)%nat; [by apply returns_ret | apply always_invalidate]. }
    apply returns_ret. rewrite length_app, !length_replicate. lia.
  - apply always_bind; [apply always_invalidate|intros _]. apply returns_ret. apply length_replicate.
Qed.

Lemma send_groups_returns w gs :
  returns (fun rs => length rs = length (concat gs)) (send_groups w gs : HS _).
Proof.
  induction gs as [|g gs IH]; cbn [send_groups]; [by apply returns_ret|].
  eapply returns_bind; [apply send_group_returns|intros rs Hl].
  eapply returns_bind; [exact IH|intros rest Hr]. apply returns_ret. cbn [concat].
  by rewrite !length_app, Hl, Hr.
Qed.

Lemma send_prepared_returns w l :
  returns (fun rs => length rs = length l) (send_prepared_batch w l : HS _).
Proof.
  unfold send_prepared_batch. pose proof (send_groups_returns w (group_runs same_flow l)) as H.
  by rewrite concat_group_runs in H.
Qed.

Lemma record_results_returns k l results open :
  covered k results (map (fun x => x.1.1) l ++ open) ->
  returns (fun results' => covered k results' open) (record_results l results : HS _).
Proof.
  revert results; induction l as [|[[i d] res] l IH]; intros results Hc; cbn [record_results].
  { by apply returns_ret. }
  apply always_bind; [|intros _].
  { destruct res as [|[]]; first [by apply returns_ret | apply always_schedule]. }
  apply IH. by apply covered_fill.
Qed.

Lemma send_ip_batch_returns w packets :
  returns (fun results => covered (length packets) results []) (send_ip_batch cfg w packets : HS _).
Proof.
  unfold send_ip_batch. apply always_bind; [apply always_get|intros n].
  pose proof (route_batch_covers (length packets) n 0 packets (replicate (length packets) None) []) as Hr.
  rewrite app_nil_r in Hr. specialize (Hr (covered_start _)).
  destruct (route_batch n 0 packets _) as [routed results]. cbn zeta.
  eapply returns_bind; [apply (prepare_groups_returns (length packets)); by rewrite concat_group_runs|].
  intros [[sends connects] results'] Hp.
  eapply returns_bind; [apply send_prepared_returns|]. intros outcomes Hl. rewrite length_map in Hl.
  eapply returns_bind; [eapply (record_results_returns (length packets))|].
  { replace (map _ (zip sends outcomes)) with (map fst sends); [exact Hp|].
    rewrite <- (map_map fst fst). f_equal. symmetry. apply fst_zip. lia. }
  intros results'' Hc. apply always_bind; [|intros _; by apply returns_ret].
  apply always_for_each. intros id. always_walk; auto.
Qed.

(** [send_ip_batch] returns for every list of packets, with one answer for
    each: no slot is left empty, so the [expect] at its end cannot panic. *)
Theorem batch_answers_all w packets (n : Node N) :
  exists results n', send_ip_batch cfg w packets n = (Ok results, n')
    /\ length results = length packets
    /\ forall i, (i < length packets)%nat -> exists x, results !! i = Some (Some x).
Proof.
  destruct (send_ip_batch_returns w packets n) as (results & n' & E & Hl & Hc).
  exists results, n'. split_and!; [done..|]. intros i Hi. destruct (Hc i Hi) as [Hin|?]; [|done].
  by apply elem_of_nil in Hin.
Qed.

(** ** Sequence numbers *)

(** The packets of a batch that were sealed. *)
Definition sealed_packets (rs : list (result (option PreparedDataPacket) SendError))
    : list PreparedDataPacket :=
  omap (fun x => match x with Ok o => o | Err _ => None end) rs.

Lemma prepared_sequence r id sid path c seq p d :
  prepare_encrypted_data_packet r id sid path c seq p = Ok d -> pd_sequence d = seq.
Proof. unfold prepare_encrypted_data_packet. intros E. by inv_ok. Qed.

Lemma fetch_add_small c k : 0 <= c + k < 2 ^ 64 -> fetch_add c k = c + k.
Proof. intros H. unfold fetch_add, wrap. by apply Z.mod_small. Qed.

Lemma seal_all_sequences r id s l tx :
  0 <= tx -> tx + Z.of_nat (length l) < 2 ^ 64 ->
  let '(rs, tx') := seal_all cfg r id s tx l in
  tx <= tx' <= tx + Z.of_nat (length l)
  /\ (forall d, d ∈ sealed_packets rs -> tx <= pd_sequence d < tx')
  /\ NoDup (map pd_sequence (sealed_packets rs)).
Proof.
  revert tx; induction l as [|p l IH]; intros tx H0 Hb; cbn [seal_all].
  { split_and!; [lia|cbn; lia| |constructor]. intros d Hd. by apply elem_of_nil in Hd. }
  cbn [length] in *. rewrite Nat2Z.inj_succ in *. destruct (_ || _).
  - specialize (IH tx H0 ltac:(lia)). destruct (seal_all cfg r id s tx l) as [rs tx'].
    destruct IH as (H1 & H2 & H3). split_and!; [lia..|done|done].
  - rewrite fetch_add_small by lia. specialize (IH (tx + 1) ltac:(lia) ltac:(lia)).
    destruct (seal_all cfg r id s (tx + 1) l) as [rs tx']. destruct IH as (H1 & H2 & H3).
    destruct (prepare_encrypted_data_packet _ _ _ _ _ _ _) as [d|e] eqn:Ed; cbn [rmap sealed_packets omap list_omap].
    + apply prepared_sequence in Ed. split_and!; [lia..| |].
      * intros d' [->|Hd']%elem_of_cons; [lia|]. specialize (H2 d' Hd'). lia.
      * cbn [map]. constructor; [|done]. intros (d' & E & Hd')%list_elem_of_fmap.
        specialize (H2 d' Hd'). lia.
    + split_and!; [lia..| |done]. intros d' Hd'. specialize (H2 d' Hd'). lia.
Qed.

Lemma nodup_map_inj {A B C} (f : A -> B) (g : B -> C) (P : B -> Prop) l :
  (forall x y, P x -> P y -> g x = g y -> x = y) -> (forall a, a ∈ l -> P (f a)) ->
  NoDup (map f l) -> NoDup (map (fun a => g (f a)) l).
Proof.
  intros Hg. induction l as [|a l IH]; intros Hp Hn; [constructor|]. cbn [map] in *.
  apply NoDup_cons in Hn as [Ha Hn]. constructor; [|apply IH; [set_solver | done]].
  intros (b & E & Hb)%list_elem_of_fmap. apply Ha. apply Hg in E; [|set_solver..].
  rewrite E. by apply list_elem_of_fmap_2.
Qed.

(** no two packets of a batch are sealed with the same nonce: as long as the
    64-bit counter of the session does not wrap around, the packets prepared for a
    session have distinct sequence numbers, none below the counter and all below
    the counter the batch leaves, so also distinct from every later one. *)
Theorem batch_nonces_distinct w r l (n : Node N) s :
  ps_active (peer_at r n) = Some s -> w_unix w < n_snapshot_expires_at n ->
  0 <= as_tx_sequence s -> as_tx_sequence s + Z.of_nat (length l) < 2 ^ 64 ->
  exists rs n' s', prepare_ip_packets cfg w r l n = (Ok rs, n')
    /\ ps_active (peer_at r n') = Some s' /\ as_session_id s' = as_session_id s
    /\ (forall d, d ∈ sealed_packets rs ->
          as_tx_sequence s <= pd_sequence d < as_tx_sequence s')
    /\ NoDup (map (fun d => aead_nonce (pd_sequence d)) (sealed_packets rs)).
Proof.
  intros Ha Hx H0 Hb. unfold prepare_ip_packets. unfold hbind at 1, hget.
  destruct l as [|p l].
  { exists [], n, s. split_and!; [done..| |constructor]. intros d Hd. by apply elem_of_nil in Hd. }
  rewrite (proj2 (Z.leb_gt _ _) Hx), Ha. revert Hb. generalize (p :: l) as l'. intros l' Hb.
  pose proof (seal_all_sequences r (ps_node_id (peer_at r n)) s l' (as_tx_sequence s) H0 Hb) as Hs.
  destruct (seal_all _ _ _ _ _ _) as [rs tx]. destruct Hs as (H1 & H2 & H3).
  exists rs, (update_at r (set_ps_active (Some (set_as_tx_sequence tx s))) n), (set_as_tx_sequence tx s).
  split_and!; [done|by rewrite (peer_at_active r s)|done|done|].
  apply (nodup_map_inj pd_sequence aead_nonce (is_u 64)); [|intros d Hd; specialize (H2 d Hd); split; lia|done].
  intros x y Hx' Hy E. by apply aead_nonce_inj.
Qed.
End Batch.

(** ** Witness *)

Lemma batch_nonces_distinct_witness :
  exists rs n' s', prepare_ip_packets (sample_config 1) sample_world 0
                     [sample_ip_packet; sample_ip_packet] a_open = (Ok rs, n')
    /\ ps_active (peer_at 0 n') = Some s' /\ as_session_id s' = 77
    /\ (forall d, d ∈ sealed_packets rs -> 1 <= pd_sequence d < as_tx_sequence s')
    /\ NoDup (map (fun d => aead_nonce (pd_sequence d)) (sealed_packets rs)).
Proof.
  apply (batch_nonces_distinct (sample_config 1) sample_world 0 [sample_ip_packet; sample_ip_packet]
           a_open (sample_session a_open)); [vm_compute; reflexivity | by_decide..].
Defined.
