(* ===== verification/Text.v ===== *)
(** * Text

    The string operations of the Rust standard library the source uses, on the
    UTF-8 bytes of a string: searching and splitting ([str::contains],
    [split_once], [rsplit_once], [strip_prefix], [trim]), [u16::from_str] and
    the address parsers ([Ipv4Addr::from_str], [Ipv6Addr::from_str],
    [IpAddr::from_str]) with their [Display] for IPv4. *)
From S2P Require Import Prelude Net.

(** ** Searching and splitting *)

(** [value.strip_prefix(prefix)] *)
Fixpoint strip_prefix (p l : bytes) : option bytes :=
  match p, l with
  | [], _ => Some l
  | x :: p', y :: l' => if x =? y then strip_prefix p' l' else None
  | _ :: _, [] => None
  end.

(** [value.split_once(sep)]: at the first occurrence *)
Fixpoint split_once (sep l : bytes) : option (bytes * bytes) :=
  match strip_prefix sep l with
  | Some rest => Some ([], rest)
  | None =>
      match l with
      | [] => None
      | x :: l' =>
          match split_once sep l' with
          | Some (a, b) => Some (x :: a, b)
          | None => None
          end
      end
  end.

(** [value.rsplit_once(c)] for a one-byte character: at the last occurrence *)
Fixpoint rsplit_once (c : Z) (l : bytes) : option (bytes * bytes) :=
  match l with
  | [] => None
  | x :: l' =>
      match rsplit_once c l' with
      | Some (a, b) => Some (x :: a, b)
      | None => if x =? c then Some ([], l') else None
      end
  end.

(** [value.contains(c)] for a one-byte character *)
Definition contains_byte (c : Z) (l : bytes) : bool := existsb (Z.eqb c) l.

(** [value.contains(pattern)] *)
Definition contains_str (p l : bytes) : bool :=
  match split_once p l with Some _ => true | None => false end.

(** [eq_ignore_ascii_case] *)
Definition ascii_lower (c : Z) : Z := if (65 <=? c) && (c <=? 90) then c + 32 else c.
Definition eq_ignore_ascii_case (a b : bytes) : bool :=
  bool_decide (map ascii_lower a = map ascii_lower b).

(** The Unicode white space characters, in UTF-8. *)
Definition white_space : list bytes :=
  [[9]; [10]; [11]; [12]; [13]; [32]; [194; 133]; [194; 160]; [225; 154; 128]]
  ++ map (fun c => [226; 128; c]) [128; 129; 130; 131; 132; 133; 134; 135; 136; 137; 138]
  ++ [[226; 128; 168]; [226; 128; 169]; [226; 128; 175]; [226; 129; 159]; [227; 128; 128]].

(** One white space character at the front, given their encodings *)
Definition strip_any (ws : list bytes) (l : bytes) : option bytes :=
  foldr (fun w acc => match strip_prefix w l with Some r => Some r | None => acc end) None ws.

(** Each step removes at least one byte, so the length is enough fuel. *)
Fixpoint strip_all (fuel : nat) (ws : list bytes) (l : bytes) : bytes :=
  match fuel with
  | O => l
  | S fuel' => match strip_any ws l with Some r => strip_all fuel' ws r | None => l end
  end.

Definition trim_start (l : bytes) : bytes := strip_all (length l) white_space l.
Definition trim_end (l : bytes) : bytes :=
  reverse (strip_all (length l) (map reverse white_space) (reverse l)).
Definition trim (l : bytes) : bytes := trim_end (trim_start l).

(** ** Numbers *)

(** [char::to_digit(radix)] for a radix up to 16 *)
Definition to_digit (radix c : Z) : option Z :=
  let d := if (48 <=? c) && (c <=? 57) then c - 48
           else if (97 <=? c) && (c <=? 102) then c - 87
           else if (65 <=? c) && (c <=? 70) then c - 55
           else 16 in
  if d <? radix then Some d else None.

(** [u16::from_str]: an optional plus sign and at least one decimal digit *)
Fixpoint digits_value (max acc : Z) (l : bytes) : option Z :=
  match l with
  | [] => Some acc
  | c :: l' =>
      match to_digit 10 c with
      | Some d => if acc * 10 + d <=? max then digits_value max (acc * 10 + d) l' else None
      | None => None
      end
  end.

Definition parse_u16 (l : bytes) : option Z :=
  let digits := match l with 43 :: l' => l' | _ => l end in
  match digits with [] => None | _ => digits_value U16_MAX 0 digits end.

(** Decimal [Display] of an unsigned number below [10 ^ fuel] *)
Fixpoint show_digits (fuel : nat) (n : Z) : bytes :=
  match fuel with
  | O => []
  | S fuel' => if n <? 10 then [48 + n] else show_digits fuel' (n / 10) ++ [48 + n mod 10]
  end.
Definition show_u16 (n : Z) : bytes := show_digits 5 n.

(** ** Addresses: the parser of [core::net]

    A reader takes the remaining input and returns what it read and the rest;
    a reader that fails reads nothing ([read_atomically]). *)
Definition reader (A : Type) : Type := bytes -> option (A * bytes).

Definition read_given_char (c : Z) : reader unit := fun l =>
  match l with x :: l' => if x =? c then Some (tt, l') else None | [] => None end.

(** The digits of [read_number], at most [max_digits] of them: the loop stops
    in front of anything that is not a digit, and a digit too many or a value
    out of range fails. *)
Fixpoint number_digits (fuel : nat) (radix max : Z) (left : Z) (acc : Z) (count : Z) (l : bytes)
    : option (Z * Z * bytes) :=
  match fuel with
  | O => Some (acc, count, l)
  | S fuel' =>
      match l with
      | [] => Some (acc, count, l)
      | c :: l' =>
          match to_digit radix c with
          | None => Some (acc, count, l)
          | Some d =>
              if (left =? 0) || (max <? acc * radix + d) then None
              else number_digits fuel' radix max (left - 1) (acc * radix + d) (count + 1) l'
          end
      end
  end.

Definition read_number (radix max_digits max : Z) (allow_zero_prefix : bool) : reader Z :=
  fun l =>
    let leading_zero := match l with 48 :: _ => true | _ => false end in
    match number_digits (length l) radix max max_digits 0 0 l with
    | Some (v, count, rest) =>
        if count =? 0 then None
        else if negb allow_zero_prefix && leading_zero && (1 <? count) then None
        else Some (v, rest)
    | None => None
    end.

(** [read_separator(sep, index, inner)]: a separator in front of every element
    but the first *)
Definition read_separator {A} (sep : Z) (index : nat) (inner : reader A) : reader A := fun l =>
  match index with
  | O => inner l
  | S _ => match read_given_char sep l with Some (_, l') => inner l' | None => None end
  end.

Definition read_octet (index : nat) : reader Z :=
  read_separator 46 index (read_number 10 3 U8_MAX false).

Definition read_ipv4_addr : reader Z := fun l =>
  match read_octet 0 l with
  | Some (a, l1) =>
      match read_octet 1 l1 with
      | Some (b, l2) =>
          match read_octet 2 l2 with
          | Some (c, l3) =>
              match read_octet 3 l3 with
              | Some (d, l4) => Some (be_value [a; b; c; d], l4)
              | None => None
              end
          | None => None
          end
      | None => None
      end
  | None => None
  end.

(** [read_groups]: up to [limit] 16-bit groups, the last two possibly written
    as an IPv4 address; the groups and whether they ended in one *)
Fixpoint read_groups (todo i : nat) (l : bytes) : list Z * bool * bytes :=
  match todo with
  | O => ([], false, l)
  | S todo' =>
      let v4 := match todo' with
                | O => None
                | S _ => read_separator 58 i read_ipv4_addr l
                end in
      match v4 with
      | Some (a, rest) => ([a / 2 ^ 16; a mod 2 ^ 16], true, rest)
      | None =>
          match read_separator 58 i (read_number 16 4 U16_MAX true) l with
          | Some (g, rest) =>
              let '(gs, v4, rest') := read_groups todo' (S i) rest in (g :: gs, v4, rest')
          | None => ([], false, l)
          end
      end
  end.

Definition groups_value (gs : list Z) : Z := fold_left (fun acc g => acc * 2 ^ 16 + g) gs 0.

Definition read_ipv6_addr : reader Z := fun l =>
  let '(head, head_ipv4, l1) := read_groups 8 0 l in
  if (length head =? 8)%nat then Some (groups_value head, l1)
  else if head_ipv4 then None
  else
    match read_given_char 58 l1 with
    | Some (_, l2) =>
        match read_given_char 58 l2 with
        | Some (_, l3) =>
            let limit := (8 - (length head + 1))%nat in
            let '(tail, _, l4) := read_groups limit 0 l3 in
            Some (groups_value (head ++ replicate (8 - length head - length tail) 0 ++ tail), l4)
        | None => None
        end
    | None => None
    end.

(** [parse_with]: the whole input is read *)
Definition parse_with {A} (r : reader A) (l : bytes) : option A :=
  match r l with Some (a, []) => Some a | _ => None end.

Definition parse_ipv4 (l : bytes) : option Z :=
  if (15 <? length l)%nat then None else parse_with read_ipv4_addr l.
Definition parse_ipv6 (l : bytes) : option Z := parse_with read_ipv6_addr l.
Definition parse_ip (l : bytes) : option IpAddr :=
  parse_with (fun l =>
    match read_ipv4_addr l with
    | Some (a, r) => Some (V4 a, r)
    | None => match read_ipv6_addr l with Some (a, r) => Some (V6 a, r) | None => None end
    end) l.

(** [Display] of an IPv4 address *)
Definition show_ipv4 (a : Z) : bytes :=
  show_u16 (a / 2 ^ 24) ++ [46] ++ show_u16 (a / 2 ^ 16 mod 256) ++ [46]
  ++ show_u16 (a / 2 ^ 8 mod 256) ++ [46] ++ show_u16 (a mod 256).

(** ** Facts *)

Lemma strip_prefix_Some p l r : strip_prefix p l = Some r <-> l = p ++ r.
Proof.
  revert l; induction p as [|x p IH]; intros l; simpl; [naive_solver|].
  destruct l as [|y l]; simpl; [naive_solver|].
  destruct (Z.eqb_spec x y) as [->|]; [rewrite IH|]; naive_solver.
Qed.

Lemma split_once_app sep l a b : split_once sep l = Some (a, b) -> l = a ++ sep ++ b.
Proof.
  revert a; induction l as [|x l IH]; intros a; simpl.
  - destruct (strip_prefix sep []) eqn:E; [|done]. intros [= <- <-].
    by apply strip_prefix_Some in E.
  - destruct (strip_prefix sep (x :: l)) eqn:E.
    + intros [= <- <-]. by apply strip_prefix_Some in E.
    + destruct (split_once sep l) as [[a' b']|]; [|done]. intros [= <- <-].
      simpl. f_equal. by apply IH.
Qed.

Lemma rsplit_once_None c l : rsplit_once c l = None <-> contains_byte c l = false.
Proof.
  unfold contains_byte. induction l as [|x l IH]; simpl; [done|].
  destruct (rsplit_once c l) as [[u v]|].
  - destruct (existsb (Z.eqb c) l); [|naive_solver]. by rewrite orb_true_r.
  - destruct IH as [IH _]. rewrite IH, orb_false_r, (Z.eqb_sym c) by done.
    by destruct (x =? c).
Qed.

Lemma contains_byte_app c l1 l2 :
  contains_byte c (l1 ++ l2) = contains_byte c l1 || contains_byte c l2.
Proof. apply existsb_app. Qed.

Lemma rsplit_once_Some c a b :
  contains_byte c b = false -> rsplit_once c (a ++ c :: b) = Some (a, b).
Proof.
  intros Hb. induction a as [|x a IH]; simpl; [|by rewrite IH].
  apply rsplit_once_None in Hb as ->. by rewrite Z.eqb_refl.
Qed.

Lemma rsplit_once_app c l a b : rsplit_once c l = Some (a, b) -> l = a ++ c :: b.
Proof.
  revert a b; induction l as [|x l IH]; intros a b; simpl; [done|].
  destruct (rsplit_once c l) as [[u v]|].
  - intros [= <- <-]. simpl. f_equal. by apply IH.
  - destruct (Z.eqb_spec x c) as [->|]; [|done]. by intros [= <- <-].
Qed.

Lemma to_digit_bound radix c d : 0 <= radix <= 16 -> to_digit radix c = Some d -> 0 <= d < radix.
Proof.
  unfold to_digit. intros Hr E.
  destruct ((48 <=? c) && (c <=? 57)) eqn:E1; [|destruct ((97 <=? c) && (c <=? 102)) eqn:E2;
    [|destruct ((65 <=? c) && (c <=? 70)) eqn:E3]];
    (destruct (_ <? radix) eqn:El in E; [injection E as <-|done]); unbool; lia.
Qed.

Lemma digits_value_bound max acc l v :
  0 <= acc <= max -> digits_value max acc l = Some v -> 0 <= v <= max.
Proof.
  revert acc; induction l as [|c l IH]; intros acc Ha E; cbn [digits_value] in E; [by injection E as <-|].
  destruct (to_digit 10 c) as [d|] eqn:Ed; [|done]. apply to_digit_bound in Ed; [|lia].
  destruct (Z.leb_spec (acc * 10 + d) max); [|done]. apply IH in E; lia.
Qed.

Lemma parse_u16_bound l v : parse_u16 l = Some v -> 0 <= v <= U16_MAX.
Proof.
  unfold parse_u16. destruct (match l with 43 :: _ => _ | _ => _ end); [done|].
  apply digits_value_bound. unfold U16_MAX. lia.
Qed.
