(* ===== verification/Dns.v ===== *)
(** * The DNS-over-HTTPS resolver

    [vela-dns/src/lib.rs]: the parsers of the two answer formats
    ([parse_response] with [skip_name] for DNS messages, [parse_json_response]
    for JSON) and the queries on top of them up to [resolve].  The URL, HTTP
    and JSON libraries are the class [Http]: requests are answered by a network
    whose state changes with every request.  Offsets into a buffer are [nat];
    a buffer is far shorter than [usize::MAX], so the checked additions of the
    source do not overflow. *)
From S2P Require Import Prelude Net Text.

Inductive DnsError : Type :=
| InvalidHost
| InvalidEndpoint (server reason : bytes)
| DnsClient (why : bytes)
| Request (why : bytes)
| InvalidDnsResponse (why : bytes)
| NoRecords (host : bytes).

Definition DEFAULT_DOH_SERVER : bytes := str "https://doh.pub".
Definition DOH_PUB_BOOTSTRAP : list SocketAddr :=
  [SockV4 (be_value [1; 12; 12; 12]) 443; SockV4 (be_value [120; 53; 53; 53]) 443].
Definition default_servers : list bytes := [DEFAULT_DOH_SERVER].

Definition invalid (why : string) : DnsError := InvalidDnsResponse (str why).

(** ** DNS messages *)

(** The loop of [skip_name].  An iteration that goes on moves the offset by at
    least two bytes, so the bytes after the offset bound the iterations. *)
Fixpoint skip_name_loop (fuel : nat) (input : bytes) (offset : nat) : result nat DnsError :=
  match fuel with
  | O => Err (invalid "DNS name is truncated")
  | S fuel' =>
      let? length_ := ok_or (input !! offset) (invalid "DNS name is truncated") in
      if Z.land length_ 0xc0 =? 0xc0 then
        if (length input <=? offset + 1)%nat
        then Err (invalid "DNS name pointer is truncated")
        else Ok (offset + 2)%nat
      else if negb (Z.land length_ 0xc0 =? 0) || (63 <? length_)
      then Err (invalid "invalid DNS name label")
      else
        let offset := (offset + 1)%nat in
        if length_ =? 0 then Ok offset
        else
          let offset := (offset + Z.to_nat length_)%nat in
          if (length input <? offset)%nat
          then Err (invalid "DNS name label is truncated")
          else skip_name_loop fuel' input offset
  end.

Definition skip_name (input : bytes) (offset : nat) : result nat DnsError :=
  skip_name_loop (S (length input - offset)) input offset.

(** The body of the first loop of [parse_response], and the loop *)
Definition skip_question (input : bytes) (offset : nat) : result nat DnsError :=
  let? offset := skip_name input offset in
  if (length input <? offset + 4)%nat then Err (invalid "DNS question is truncated")
  else Ok (offset + 4)%nat.

Fixpoint skip_questions (n : nat) (input : bytes) (offset : nat) : result nat DnsError :=
  match n with
  | O => Ok offset
  | S n' => let? offset := skip_question input offset in skip_questions n' input offset
  end.

(** The address of an answer of the class and type asked for *)
Definition answer_address (record_type : Z) (length_ : nat) (input : bytes) (offset : nat)
    : option IpAddr :=
  if (record_type =? 1) && (length_ =? 4)%nat then
    Some (V4 (be_value [input !!! offset; input !!! (offset + 1)%nat;
                        input !!! (offset + 2)%nat; input !!! (offset + 3)%nat]))
  else if (record_type =? 28) && (length_ =? 16)%nat then
    Some (V6 (be_value (slice offset (offset + length_) input)))
  else None.

(** The body of the second loop: the address of one answer, if it has one, and
    the offset after it *)
Definition read_answer (input : bytes) (record_type : Z) (offset : nat)
    : result (option IpAddr * nat) DnsError :=
  let? offset := skip_name input offset in
  if (length input <? offset + 10)%nat then Err (invalid "DNS answer is truncated")
  else
    let answer_type := be16 input offset in
    let class := be16 input (offset + 2) in
    let length_ := Z.to_nat (be16 input (offset + 8)) in
    let offset := (offset + 10)%nat in
    let end_ := (offset + length_)%nat in
    if (length input <? end_)%nat then Err (invalid "DNS answer data is truncated")
    else
      Ok (if (class =? 1) && (answer_type =? record_type)
          then answer_address record_type length_ input offset else None, end_).

Fixpoint read_answers (n : nat) (input : bytes) (record_type : Z) (offset : nat)
    (addresses : list IpAddr) : result (list IpAddr) DnsError :=
  match n with
  | O => Ok addresses
  | S n' =>
      let? (address, offset) := read_answer input record_type offset in
      read_answers n' input record_type offset
        (match address with Some a => addresses ++ [a] | None => addresses end)
  end.

Definition parse_response (input : bytes) (record_type : Z) : result (list IpAddr) DnsError :=
  if (length input <? 12)%nat then Err (invalid "DNS header is truncated")
  else
    let flags := be16 input 2 in
    if Z.land flags 0x8000 =? 0 then Err (invalid "DNS response bit is not set")
    else
      let response_code := Z.land flags 0x000f in
      if negb (response_code =? 0) then
        Err (InvalidDnsResponse (str "DNS response code is " ++ show_u16 response_code))
      else
        let questions := Z.to_nat (be16 input 4) in
        let answers := Z.to_nat (be16 input 6) in
        let? offset := skip_questions questions input 12 in
        read_answers answers input record_type offset [].

(** ** JSON answers *)

#[local] Set Warnings "-register-all".
Inductive Json : Type :=
| JNull
| JBool (b : bool)
| JInt (n : Z)
| JFloat
| JStr (s : bytes)
| JArr (l : list Json)
| JObj (l : list (bytes * Json)).

(** What the derived [Deserialize] implementations can object to *)
Inductive DeError : Type :=
| InvalidType
| OutOfRange
| MissingField (name : string)
| DuplicateField (name : string)
| InvalidLength
| Syntax (why : bytes).

Definition de_u16 (j : Json) : result Z DeError :=
  match j with
  | JInt n => if (0 <=? n) && (n <=? U16_MAX) then Ok n else Err OutOfRange
  | _ => Err InvalidType
  end.
Definition de_string (j : Json) : result bytes DeError :=
  match j with JStr s => Ok s | _ => Err InvalidType end.
Definition de_vec {A} (de : Json -> result A DeError) (j : Json) : result (list A) DeError :=
  match j with JArr l => rmapM de l | _ => Err InvalidType end.

(** A field of a derived struct: its values in the object, in order; a second
    one is an error, other fields are ignored. *)
Definition de_field {A} (de : Json -> result A DeError) (name : string)
    (l : list (bytes * Json)) : result (option A) DeError :=
  match filter (fun f => f.1 = str name) l with
  | [] => Ok None
  | [(_, j)] => rmap Some (de j)
  | _ => Err (DuplicateField name)
  end.

Record JsonAnswer : Type := mkJsonAnswer { ja_record_type : Z; ja_data : bytes }.
Record JsonResponse : Type := mkJsonResponse { jr_status : Z; jr_answers : list JsonAnswer }.

(** [#[serde(rename = "type")] record_type], [data]; a struct is also read
    from an array of its fields in order. *)
Definition JsonAnswer_deserialize (j : Json) : result JsonAnswer DeError :=
  match j with
  | JObj l =>
      let? t := de_field de_u16 "type" l in
      let? d := de_field de_string "data" l in
      let? t := ok_or t (MissingField "type") in
      let? d := ok_or d (MissingField "data") in
      Ok (mkJsonAnswer t d)
  | JArr [t; d] => let? t := de_u16 t in let? d := de_string d in Ok (mkJsonAnswer t d)
  | JArr _ => Err InvalidLength
  | _ => Err InvalidType
  end.

(** [#[serde(default)] status], [#[serde(default, rename = "Answer")] answers] *)
Definition JsonResponse_deserialize (j : Json) : result JsonResponse DeError :=
  match j with
  | JObj l =>
      let? s := de_field de_u16 "status" l in
      let? a := de_field (de_vec JsonAnswer_deserialize) "Answer" l in
      Ok (mkJsonResponse (default 0 s) (default [] a))
  | JArr [] => Ok (mkJsonResponse 0 [])
  | JArr [s] => let? s := de_u16 s in Ok (mkJsonResponse s [])
  | JArr [s; a] =>
      let? s := de_u16 s in
      let? a := de_vec JsonAnswer_deserialize a in
      Ok (mkJsonResponse s a)
  | JArr _ => Err InvalidLength
  | _ => Err InvalidType
  end.

(** ** Requests *)

Record Url : Type := mkUrl {
  scheme : bytes;
  host_str : option bytes;
  url_port : option Z;
  path : bytes;
  query_pairs : list (bytes * bytes)
}.

(** [Url::port_or_known_default] *)
Definition port_or_known_default (u : Url) : option Z :=
  match url_port u with
  | Some p => Some p
  | None =>
      if bool_decide (scheme u = str "http") || bool_decide (scheme u = str "ws") then Some 80
      else if bool_decide (scheme u = str "https") || bool_decide (scheme u = str "wss")
      then Some 443
      else if bool_decide (scheme u = str "ftp") then Some 21
      else None
  end.

(** The libraries and the network behind the resolver.  A client is built with
    an optional pinning of one host name to addresses. *)
Class Http (W : Type) : Type := {
  Client : Type;
  url_parse : bytes -> result Url bytes;
  url_show : Url -> bytes;
  client_build : option (bytes * list SocketAddr) -> result Client bytes;
  http_get : Client -> Url -> handler W bytes (bytes * bytes);
  json_parse : bytes -> result Json DeError;
  show_de_error : DeError -> bytes
}.

Section resolver.
Context {W : Type} {H : Http W}.

Definition parse_json_response (input : bytes) (record_type : Z)
    : result (list IpAddr) DnsError :=
  let? response :=
    rmap_err (fun e => InvalidDnsResponse (str "invalid DNS JSON: " ++ show_de_error e))
      (rbind (json_parse input) JsonResponse_deserialize) in
  if negb (jr_status response =? 0) then
    Err (InvalidDnsResponse (str "DNS response code is " ++ show_u16 (jr_status response)))
  else
    Ok (omap (fun a => parse_ip (ja_data a))
          (filter (fun a => ja_record_type a = record_type) (jr_answers response))).

Definition endpoint (server host : bytes) (record_type : Z) : result Url DnsError :=
  let? u := rmap_err (InvalidEndpoint server) (url_parse server) in
  if negb (bool_decide (scheme u = str "https"))
  then Err (InvalidEndpoint server (str "DoH endpoint must use https"))
  else
    let p :=
      if bool_decide (path u = []) || bool_decide (path u = str "/") then
        if bool_decide (host_str u = Some (str "doh.pub"))
        then str "/resolve" else str "/dns-query"
      else path u in
    Ok (mkUrl (scheme u) (host_str u) (url_port u) p
          (query_pairs u
           ++ [(str "name", host);
               (str "type", if record_type =? 1 then str "A" else str "AAAA")])).

Definition query_with_client (client : Client) (endpoint : Url) (record_type : Z)
    : handler W DnsError (list IpAddr) :=
  let! response := htry (http_get client endpoint) in
  match response with
  | Err why => hfail (Request why)
  | Ok (content_type, bytes_) =>
      if contains_str (str "json") content_type || bool_decide (head bytes_ = Some 123)
      then hlift (parse_json_response bytes_ record_type)
      else hlift (parse_response bytes_ record_type)
  end.

Definition bootstrap_client : result Client DnsError :=
  rmap_err DnsClient (client_build (Some (str "doh.pub", DOH_PUB_BOOTSTRAP))).

(** The addresses not yet in the list, in order *)
Definition push_new (addresses values : list IpAddr) : list IpAddr :=
  fold_left (fun acc a => if bool_decide (a ∈ acc) then acc else acc ++ [a]) values addresses.

(** The loop of [resolve] over the record types of one server: the addresses,
    whether a query was answered and the last error *)
Fixpoint query_types (ask : Z -> handler W DnsError (list IpAddr)) (types : list Z)
    (addresses : list IpAddr) (responded : bool) (last_error : option DnsError)
    : handler W DnsError (list IpAddr * bool * option DnsError) :=
  match types with
  | [] => hret (addresses, responded, last_error)
  | t :: types' =>
      let! r := htry (ask t) in
      match r with
      | Ok values => query_types ask types' (push_new addresses values) true last_error
      | Err e => query_types ask types' addresses responded (Some e)
      end
  end.

Definition record_types : list Z := [1; 28].

(** The loop of [resolve_with_default_doh]: a request that cannot be formed
    ends it ([?]), a failed one does not. *)
Fixpoint default_doh_types (client : Client) (host : bytes) (types : list Z)
    (addresses : list IpAddr) (last_error : option DnsError)
    : handler W DnsError (list IpAddr * option DnsError) :=
  match types with
  | [] => hret (addresses, last_error)
  | t :: types' =>
      let! e := hlift (endpoint DEFAULT_DOH_SERVER host t) in
      let! r := htry (query_with_client client e t) in
      match r with
      | Ok values => default_doh_types client host types' (push_new addresses values) last_error
      | Err err => default_doh_types client host types' addresses (Some err)
      end
  end.

Definition resolve_with_default_doh (host : bytes) : handler W DnsError (list IpAddr) :=
  let! client := hlift bootstrap_client in
  let! (addresses, last_error) := default_doh_types client host record_types [] None in
  match addresses with
  | [] => hfail (default (NoRecords host) last_error)
  | _ => hret addresses
  end.

Definition client_for_endpoint (e : Url) : handler W DnsError Client :=
  let! host := hlift (ok_or (host_str e)
                 (InvalidEndpoint (url_show e) (str "endpoint has no host"))) in
  let! port := hlift (ok_or (port_or_known_default e)
                 (InvalidEndpoint (url_show e) (str "endpoint has no port"))) in
  let sock a := match a with V4 i => SockV4 i port | V6 i => SockV6 i port 0 0 end in
  let! addresses :=
    match parse_ip host with
    | Some a => hret [sock a]
    | None =>
        if eq_ignore_ascii_case host (str "doh.pub") && (port =? 443)
        then hret DOH_PUB_BOOTSTRAP
        else let! l := resolve_with_default_doh host in hret (map sock l)
    end in
  hlift (rmap_err DnsClient
    (client_build (match parse_ip host with Some _ => None | None => Some (host, addresses) end))).

Definition query (server host : bytes) (record_type : Z) : handler W DnsError (list IpAddr) :=
  let! e := hlift (endpoint server host record_type) in
  let! client := client_for_endpoint e in
  query_with_client client e record_type.

Fixpoint resolve_servers (host : bytes) (servers : list bytes) (addresses : list IpAddr)
    (last_error : option DnsError) : handler W DnsError (list IpAddr) :=
  match servers with
  | [] => hfail (default (NoRecords host) last_error)
  | server :: servers' =>
      let! (addresses, responded, last_error) :=
        query_types (query server host) record_types addresses false last_error in
      if responded && negb (bool_decide (addresses = []))
      then hret addresses
      else resolve_servers host servers' addresses last_error
  end.

Definition resolve (host : bytes) (servers : list bytes) : handler W DnsError (list IpAddr) :=
  match parse_ip host with
  | Some a => hret [a]
  | None =>
      if bool_decide (host = []) then hfail InvalidHost
      else
        let servers := match servers with [] => default_servers | _ => servers end in
        resolve_servers host servers [] None
  end.

End resolver.

(** ** DNS messages, as a grammar

    The reference the parser is compared with: names of labels that end in the
    root or in a compression pointer, questions, and resource records. *)

Record Name : Type := mkName { labels : list bytes; name_end : bytes }.

Definition wf_name (n : Name) : Prop :=
  Forall (fun l => 1 <= len l <= 63) (labels n)
  /\ (name_end n = [0] \/ exists p q, name_end n = [p; q] /\ 192 <= p).

Definition encode_label (l : bytes) : bytes := len l :: l.
Definition encode_name (n : Name) : bytes := concat (map encode_label (labels n)) ++ name_end n.

Definition Question : Type := Name * bytes.
Definition wf_question (q : Question) : Prop := wf_name q.1 /\ length q.2 = 4%nat.
Definition encode_question (q : Question) : bytes := encode_name q.1 ++ q.2.

Record Rr : Type := mkRr {
  rr_name : Name;
  rr_type : Z;
  rr_class : Z;
  rr_ttl : bytes;
  rr_data : bytes
}.

Definition wf_rr (r : Rr) : Prop :=
  wf_name (rr_name r) /\ is_u 16 (rr_type r) /\ is_u 16 (rr_class r)
  /\ length (rr_ttl r) = 4%nat /\ len (rr_data r) <= U16_MAX.

Definition encode_rr (r : Rr) : bytes :=
  encode_name (rr_name r) ++ be_bytes 2 (rr_type r) ++ be_bytes 2 (rr_class r)
  ++ rr_ttl r ++ be_bytes 2 (len (rr_data r)) ++ rr_data r.

Record Message : Type := mkMessage {
  msg_id : bytes;
  msg_flags : Z;
  msg_counts : bytes;
  msg_questions : list Question;
  msg_answers : list Rr
}.

(** A response without an error code; [msg_counts] are the counts of the
    sections the resolver does not read. *)
Definition wf_message (m : Message) : Prop :=
  length (msg_id m) = 2%nat /\ length (msg_counts m) = 4%nat
  /\ is_u 16 (msg_flags m) /\ Z.testbit (msg_flags m) 15 = true /\ msg_flags m mod 16 = 0
  /\ Z.of_nat (length (msg_questions m)) <= U16_MAX
  /\ Z.of_nat (length (msg_answers m)) <= U16_MAX
  /\ Forall wf_question (msg_questions m) /\ Forall wf_rr (msg_answers m).

Definition encode_message (m : Message) : bytes :=
  msg_id m ++ be_bytes 2 (msg_flags m)
  ++ be_bytes 2 (Z.of_nat (length (msg_questions m)))
  ++ be_bytes 2 (Z.of_nat (length (msg_answers m)))
  ++ msg_counts m
  ++ concat (map encode_question (msg_questions m))
  ++ concat (map encode_rr (msg_answers m)).

(** The address a record gives to a query: Internet class, the type asked for
    and data of the size of the address *)
Definition rr_address (record_type : Z) (r : Rr) : option IpAddr :=
  if (rr_class r =? 1) && (rr_type r =? record_type) then
    if (record_type =? 1) && (length (rr_data r) =? 4)%nat then Some (V4 (be_value (rr_data r)))
    else if (record_type =? 28) && (length (rr_data r) =? 16)%nat
    then Some (V6 (be_value (rr_data r)))
    else None
  else None.

(** ** The parser reads exactly the grammar *)

Lemma byte_pointer b : is_byte b -> (Z.land b 0xc0 =? 0xc0) = (192 <=? b).
Proof.
  intros Hb. assert (E : forallb (fun b => Bool.eqb (Z.land b 0xc0 =? 0xc0) (192 <=? b))
    (seqZ 0 256) = true) by (vm_compute; reflexivity).
  rewrite forallb_forall in E. apply eqb_prop, E, list_elem_of_In, elem_of_seqZ.
  unfold is_byte in Hb. lia.
Qed.

Lemma byte_label b :
  is_byte b -> b < 192 -> negb (Z.land b 0xc0 =? 0) || (63 <? b) = (63 <? b).
Proof.
  intros Hb Hlt. assert (E : forallb (fun b => Bool.eqb
    (negb (Z.land b 0xc0 =? 0) || (63 <? b)) (63 <? b)) (seqZ 0 192) = true)
    by (vm_compute; reflexivity).
  rewrite forallb_forall in E. apply eqb_prop, E, list_elem_of_In, elem_of_seqZ.
  unfold is_byte in Hb. lia.
Qed.

Lemma encode_name_cons l ls e :
  encode_name (mkName (l :: ls) e) = len l :: l ++ encode_name (mkName ls e).
Proof. unfold encode_name. cbn. by rewrite <- app_assoc. Qed.

Lemma skip_name_loop_sound fuel input offset o :
  bytes_ok input -> skip_name_loop fuel input offset = Ok o ->
  exists n, wf_name n /\ drop offset input = encode_name n ++ drop o input
            /\ (o <= length input)%nat.
Proof.
  intros Hok. revert offset; induction fuel as [|fuel IH]; intros offset E; [done|].
  cbn [skip_name_loop] in E. apply rbind_Ok in E as (b & Hb & E). apply ok_or_Ok in Hb.
  assert (Hbyte : is_byte b) by (by eapply Forall_lookup_1).
  pose proof (lookup_lt_Some _ _ _ Hb) as Hlt.
  rewrite byte_pointer in E by done. destruct (Z.leb_spec 192 b).
  { inv_ok. unbool. destruct (lookup_lt_is_Some_2 input (offset + 1)) as [q Hq]; [lia|].
    exists (mkName [] [b; q]). repeat split; cbn.
    - constructor.
    - right. by exists b, q.
    - rewrite (drop_cons _ _ b), (drop_cons _ _ q) by done. do 3 f_equal. lia.
    - lia. }
  rewrite byte_label in E by done. cbn zeta in E. inv_ok; unbool; subst.
  { exists (mkName [] [0]). repeat split; cbn; [constructor | by left | | lia].
    by rewrite (drop_cons _ _ 0). }
  apply IH in E as (n & [Hl He] & Hd & Ho). unfold is_byte in Hbyte.
  set (lab := slice (offset + 1) (offset + 1 + Z.to_nat b) input).
  assert (Hlab : length lab = Z.to_nat b) by (subst lab; rewrite length_slice; lia).
  exists (mkName (lab :: labels n) (name_end n)). repeat split; [|done| |done].
  - constructor; [|done]. unfold len. lia.
  - rewrite encode_name_cons. unfold len. rewrite Hlab, Z2Nat.id by lia. destruct n as [ls e].
    rewrite (drop_cons _ _ b) by done. cbn [app]. f_equal.
    rewrite <- app_assoc. cbn [labels name_end]. rewrite <- Hd. subst lab. unfold slice.
    replace (offset + 1 + Z.to_nat b - (offset + 1))%nat with (Z.to_nat b) by lia.
    rewrite <- (take_drop (Z.to_nat b) (drop (offset + 1) input)) at 1. by rewrite drop_drop.
Qed.

Lemma skip_name_loop_complete fuel input offset n rest :
  (length (labels n) < fuel)%nat -> bytes_ok input -> (offset <= length input)%nat ->
  wf_name n -> drop offset input = encode_name n ++ rest ->
  skip_name_loop fuel input offset = Ok (offset + length (encode_name n))%nat.
Proof.
  destruct n as [ls e]. revert fuel offset.
  induction ls as [|l ls IH]; intros fuel offset Hf Hok Ho [Hl He] Hd;
    (destruct fuel as [|fuel]; [cbn in Hf; lia|]); cbn [skip_name_loop].
  - assert (Hin : forall k b, e !! k = Some b -> input !! (offset + k)%nat = Some b).
    { intros k b Hk. rewrite <- lookup_drop, Hd. unfold encode_name. cbn.
      by apply lookup_app_l_Some. }
    destruct (drop_app_inv _ _ _ _ Hd Ho) as [Hlen _].
    destruct He as [He|(p & q & He & Hp)]; cbn in He; subst e; cbn in Hlen |- *.
    + pose proof (Hin 0%nat 0 eq_refl) as Hb. rewrite Nat.add_0_r in Hb. by rewrite Hb.
    + pose proof (Hin 0%nat p eq_refl) as Hb. rewrite Nat.add_0_r in Hb. rewrite Hb. cbn.
      assert (is_byte p) by (by eapply Forall_lookup_1).
      rewrite byte_pointer by done. destruct (Z.leb_spec 192 p); [|lia].
      destruct (Nat.leb_spec (length input) (offset + 1)); [lia|done].
  - apply Forall_cons in Hl as [Hlen Hl]. rewrite encode_name_cons in Hd |- *.
    cbn [app] in Hd.
    assert (Hb : input !! offset = Some (len l)).
    { rewrite <- (Nat.add_0_r offset), <- lookup_drop, Hd. done. }
    rewrite Hb. cbn [ok_or rbind].
    assert (is_byte (len l)) by (unfold is_byte; lia).
    rewrite byte_pointer, byte_label by (done || lia).
    destruct (Z.leb_spec 192 (len l)); [lia|]. destruct (Z.ltb_spec 63 (len l)); [lia|].
    destruct (Z.eqb_spec (len l) 0); [lia|]. cbn zeta.
    rewrite <- app_assoc in Hd. change (len l :: ?x) with ([len l] ++ x) in Hd.
    rewrite app_assoc in Hd. destruct (drop_app_inv _ _ _ _ Hd Ho) as [Hle Hd'].
    assert (Hpos : (offset + 1 + Z.to_nat (len l) = offset + length ([len l] ++ l))%nat)
      by (unfold len; cbn; lia).
    rewrite Hpos. destruct (Nat.ltb_spec (length input) (offset + length ([len l] ++ l))); [lia|].
    rewrite IH; [f_equal; cbn [length app]; rewrite length_app; lia | cbn in Hf |- *; lia | done | done | | done].
    by split.
Qed.

(** [skip_name] moves over one name of the grammar, and over nothing else; in
    particular the fuel is enough for every name. *)
Lemma skip_name_exact input offset o :
  bytes_ok input -> (offset <= length input)%nat ->
  skip_name input offset = Ok o <->
  exists n, wf_name n /\ drop offset input = encode_name n ++ drop o input
            /\ o = (offset + length (encode_name n))%nat.
Proof.
  intros Hok Ho. unfold skip_name. split.
  - intros E. apply skip_name_loop_sound in E as (n & Hn & Hd & Hle); [|done].
    exists n. split; [done|]. split; [done|]. apply (f_equal length) in Hd.
    rewrite length_app, !length_drop in Hd. lia.
  - intros (n & Hn & Hd & ->). eapply skip_name_loop_complete; [|done..|exact Hd].
    apply (f_equal length) in Hd. rewrite length_app, length_drop in Hd.
    assert (length (labels n) <= length (encode_name n))%nat; [|lia].
    unfold encode_name. rewrite length_app. clear.
    induction (labels n) as [|l ls IH]; cbn; [lia|]. rewrite length_app in *. lia.
Qed.

Lemma skip_question_exact input offset o :
  bytes_ok input -> (offset <= length input)%nat ->
  skip_question input offset = Ok o <->
  exists q, wf_question q /\ drop offset input = encode_question q ++ drop o input
            /\ o = (offset + length (encode_question q))%nat.
Proof.
  intros Hok Ho. unfold skip_question, encode_question. rewrite rbind_Ok.
  setoid_rewrite (skip_name_exact _ _ _ Hok Ho). split.
  - intros (o1 & (n & Hn & Hd & ->) & E). inv_ok. unbool.
    exists (n, slice (offset + length (encode_name n)) (offset + length (encode_name n) + 4) input).
    cbn. assert (Hl := length_slice (offset + length (encode_name n))
                         (offset + length (encode_name n) + 4) input).
    split_and!; [split; [done|cbn; lia]| |rewrite length_app; lia].
    rewrite Hd, <- app_assoc. f_equal. unfold slice.
    replace (_ + 4 - _)%nat with 4%nat by lia.
    rewrite <- (take_drop 4 (drop _ input)) at 1. by rewrite drop_drop.
  - intros ((n & t) & [Hn Ht] & Hd & ->). cbn [fst snd] in *. rewrite <- app_assoc in Hd.
    destruct (drop_app_inv _ _ _ _ Hd Ho) as [Hle Hd1].
    destruct (drop_app_inv _ _ _ _ Hd1 Hle) as [Hle2 _].
    exists (offset + length (encode_name n))%nat. split.
    + exists n. by rewrite Hd1.
    + rewrite length_app, Ht.
      destruct (Nat.ltb_spec (length input) (offset + length (encode_name n) + 4)); [lia|].
      by rewrite Nat.add_assoc.
Qed.

Lemma skip_questions_exact n input offset o :
  bytes_ok input -> (offset <= length input)%nat ->
  skip_questions n input offset = Ok o <->
  exists qs, length qs = n /\ Forall wf_question qs
    /\ drop offset input = concat (map encode_question qs) ++ drop o input
    /\ o = (offset + length (concat (map encode_question qs)))%nat.
Proof.
  intros Hok. revert offset o.
  induction n as [|n IH]; intros offset o Ho; cbn [skip_questions].
  - split.
    + intros [= <-]. exists []. cbn. by rewrite Nat.add_0_r.
    + intros (qs & Hn & _ & _ & ->). apply nil_length_inv in Hn as ->. cbn. f_equal. lia.
  - rewrite rbind_Ok. setoid_rewrite (skip_question_exact _ _ _ Hok Ho). split.
    + intros (o1 & (q & Hq & Hd & Ho1) & E).
      assert (Hle : (o1 <= length input)%nat).
      { rewrite Ho1. by destruct (drop_app_inv _ _ _ _ Hd Ho). }
      apply (IH _ _ Hle) in E as (qs & <- & Hqs & Hd2 & ->).
      exists (q :: qs). cbn. split_and!; [done | by constructor | | rewrite length_app; lia].
      by rewrite Hd, Hd2, <- app_assoc.
    + intros ([|q qs] & Hn & Hqs & Hd & ->); [done|]. apply Forall_cons in Hqs as [Hq Hqs].
      injection Hn as Hn. cbn in Hd |- *. rewrite <- app_assoc in Hd.
      destruct (drop_app_inv _ _ _ _ Hd Ho) as [Hle Hd1].
      exists (offset + length (encode_question q))%nat. split.
      * exists q. by rewrite Hd1.
      * rewrite length_app, Nat.add_assoc in *. apply IH; [done|]. by exists qs.
Qed.

(** The fixed part of a record, as the parser sees it *)
Definition rr_fixed (r : Rr) : bytes :=
  be_bytes 2 (rr_type r) ++ be_bytes 2 (rr_class r) ++ rr_ttl r ++ be_bytes 2 (len (rr_data r)).

Lemma encode_rr_fixed r : encode_rr r = encode_name (rr_name r) ++ rr_fixed r ++ rr_data r.
Proof. unfold encode_rr, rr_fixed. by rewrite <- !app_assoc. Qed.

Lemma length_rr_fixed r : wf_rr r -> length (rr_fixed r) = 10%nat.
Proof.
  intros (_ & _ & _ & Hl & _). unfold rr_fixed. autorewrite with vela. by rewrite Hl.
Qed.

Lemma rr_fields input o r rest :
  wf_rr r ->
  drop o input = rr_fixed r ++ rest ->
  be16 input o = rr_type r /\ be16 input (o + 2) = rr_class r
  /\ be16 input (o + 8) = len (rr_data r).
Proof.
  intros (_ & Ht & Hc & Hl & Hdat) Hd. unfold rr_fixed in Hd.
  destruct r as [n t c ttl dat]; cbn [rr_name rr_type rr_class rr_ttl rr_data] in *.
  explode ttl.
  assert (Hu : is_u 16 (len dat)) by (unfold is_u, len, U16_MAX in *; lia).
  rewrite <- (Nat.add_0_r o) at 1.
  rewrite !(be16_drop _ _ _ _ _ Hd) by (autorewrite with vela; cbn; lia).
  split_and!; [exact (be_value_be16 t Ht) | exact (be_value_be16 c Hc) | exact (be_value_be16 _ Hu)].
Qed.

Lemma answer_address_data record_type input o data rest :
  drop o input = data ++ rest ->
  answer_address record_type (length data) input o =
  if (record_type =? 1) && (length data =? 4)%nat then Some (V4 (be_value data))
  else if (record_type =? 28) && (length data =? 16)%nat then Some (V6 (be_value data))
  else None.
Proof.
  intros Hd. unfold answer_address.
  assert (Hk : forall k, (k < length data)%nat -> input !!! (o + k)%nat = data !!! k).
  { intros k Hk. rewrite <- lookup_total_drop, Hd. by rewrite lookup_total_app_l. }
  destruct ((record_type =? 1) && (length data =? 4)%nat) eqn:E4; unbool.
  - rewrite <- (Nat.add_0_r o) at 1. rewrite !Hk by lia. by explode data.
  - destruct ((record_type =? 28) && _); [|done]. do 3 f_equal. unfold slice.
    rewrite Hd. replace (o + length data - o)%nat with (length data) by lia.
    by rewrite take_app_length.
Qed.

Lemma read_answer_sound input record_type offset a o :
  bytes_ok input -> (offset <= length input)%nat ->
  read_answer input record_type offset = Ok (a, o) ->
  exists r, wf_rr r /\ drop offset input = encode_rr r ++ drop o input
    /\ (o <= length input)%nat /\ a = rr_address record_type r.
Proof.
  intros Hok Ho E. unfold read_answer in E. apply rbind_Ok in E as (o1 & E1 & E).
  apply (skip_name_exact _ _ _ Hok Ho) in E1 as (n & Hn & Hd & _).
  cbn zeta in E. destruct (length input <? o1 + 10)%nat eqn:?; [done|].
  destruct (length input <? o1 + 10 + _)%nat eqn:?; [done|]. unbool.
  injection E as Ea Eo. subst o.
  set (dl := be16 input (o1 + 8)) in *.
  assert (Hu : forall k, is_u 16 (be16 input k)) by (intros; by apply be16_is_u).
  pose proof (Hu (o1 + 8)%nat) as Hdl. fold dl in Hdl. unfold is_u in Hdl.
  set (data := slice (o1 + 10) (o1 + 10 + Z.to_nat dl) input).
  assert (Hdata : length data = Z.to_nat dl) by (subst data; rewrite length_slice; lia).
  assert (Hdd : drop (o1 + 10) input = data ++ drop (o1 + 10 + Z.to_nat dl) input)
    by (apply drop_slice; lia).
  exists (mkRr n (be16 input o1) (be16 input (o1 + 2)) (slice (o1 + 4) (o1 + 8) input) data).
  split_and!; [| |lia|].
  - split_and!; cbn [rr_name rr_type rr_class rr_ttl rr_data];
      [done | apply Hu | apply Hu | rewrite length_slice; lia |]. unfold len, U16_MAX. lia.
  - rewrite Hd, encode_rr_fixed. unfold rr_fixed.
    cbn [rr_name rr_type rr_class rr_ttl rr_data].
    unfold len. rewrite Hdata, Z2Nat.id, <- !app_assoc, <- Hdd by lia. f_equal.
    unfold dl. rewrite !be16_slice by (done || lia).
    rewrite <- !Nat.add_assoc. cbn [Nat.add].
    by rewrite <- (drop_slice (o1 + 8)), <- (drop_slice (o1 + 4)), <- (drop_slice (o1 + 2)),
      <- drop_slice by lia.
  - rewrite <- Ea. unfold rr_address. cbn [rr_class rr_type rr_data].
    destruct ((_ =? 1) && (_ =? record_type)); [|done].
    rewrite <- Hdata. by apply (answer_address_data _ _ _ _ _ Hdd).
Qed.

Lemma read_answer_complete input record_type offset r rest :
  bytes_ok input -> (offset <= length input)%nat ->
  wf_rr r -> drop offset input = encode_rr r ++ rest ->
  read_answer input record_type offset =
    Ok (rr_address record_type r, (offset + length (encode_rr r))%nat).
Proof.
  intros Hok Ho Hr Hd. rewrite encode_rr_fixed in Hd |- *. rewrite <- app_assoc in Hd.
  destruct (drop_app_inv _ _ _ _ Hd Ho) as [Hle Hd1].
  unfold read_answer.
  assert (skip_name input offset = Ok (offset + length (encode_name (rr_name r)))%nat) as ->.
  { apply skip_name_exact; [done..|]. exists (rr_name r). rewrite Hd1. split; [apply Hr|done]. }
  cbn [rbind]. rewrite !length_app, Nat.add_assoc, (length_rr_fixed r) by done.
  set (o1 := (offset + length (encode_name (rr_name r)))%nat) in *.
  rewrite <- app_assoc in Hd1. destruct (drop_app_inv _ _ _ _ Hd1 Hle) as [Hle2 Hd2].
  destruct (drop_app_inv _ _ _ _ Hd2 Hle2) as [Hle3 _].
  rewrite (length_rr_fixed r) in * by done.
  destruct (rr_fields input o1 r _ Hr Hd1) as (Ht & Hc & Hl). rewrite Ht, Hc, Hl.
  unfold len. rewrite Nat2Z.id. cbn zeta.
  destruct (Nat.ltb_spec (length input) (o1 + 10)); [lia|].
  destruct (Nat.ltb_spec (length input) (o1 + 10 + length (rr_data r))); [lia|].
  rewrite (answer_address_data _ _ _ _ _ Hd2). rewrite <- Nat.add_assoc. done.
Qed.

Lemma read_answers_exact n input record_type offset acc out :
  bytes_ok input -> (offset <= length input)%nat ->
  read_answers n input record_type offset acc = Ok out <->
  exists rs rest, length rs = n /\ Forall wf_rr rs
    /\ drop offset input = concat (map encode_rr rs) ++ rest
    /\ out = acc ++ omap (rr_address record_type) rs.
Proof.
  intros Hok. revert offset acc.
  induction n as [|n IH]; intros offset acc Ho; cbn [read_answers].
  - split.
    + intros [= <-]. exists [], (drop offset input). by rewrite app_nil_r.
    + intros (rs & rest & Hn & _ & _ & ->). apply nil_length_inv in Hn as ->.
      by rewrite app_nil_r.
  - rewrite rbind_Ok. split.
    + intros ([a o1] & E1 & E).
      apply read_answer_sound in E1 as (r & Hr & Hd & Hle & ->); [|done..].
      apply IH in E as (rs & rest & <- & Hrs & Hd2 & ->); [|done].
      exists (r :: rs), rest. cbn. split_and!; [done | by constructor | |].
      * by rewrite Hd, Hd2, <- app_assoc.
      * destruct (rr_address record_type r); [by rewrite <- app_assoc | done].
    + intros ([|r rs] & rest & Hn & Hrs & Hd & ->); [done|].
      apply Forall_cons in Hrs as [Hr Hrs]. injection Hn as Hn.
      cbn [concat map] in Hd. rewrite <- app_assoc in Hd.
      destruct (drop_app_inv _ _ _ _ Hd Ho) as [Hle Hd1].
      eexists. split; [by eapply read_answer_complete|]. cbn beta iota.
      apply IH; [done|]. exists rs, rest. split_and!; [done..|].
      cbn. destruct (rr_address record_type r); [by rewrite <- app_assoc | done].
Qed.

Lemma flags_tests f :
  is_u 16 f ->
  (Z.land f 0x8000 =? 0) = negb (Z.testbit f 15) /\ Z.land f 0x000f = f mod 16.
Proof.
  intros Hf. split.
  - destruct (Z.testbit f 15) eqn:E; cbn [negb].
    + apply Z.eqb_neq. intros Hz. apply (f_equal (fun x => Z.testbit x 15)) in Hz.
      rewrite Z.land_spec, E in Hz. done.
    + apply Z.eqb_eq, Z.bits_inj'. intros k Hk. rewrite Z.land_spec, Z.bits_0.
      change 0x8000 with (2 ^ 15). rewrite Z.pow2_bits_eqb by lia.
      destruct (Z.eqb_spec 15 k) as [<-|]; [by rewrite E | by rewrite andb_false_r].
  - change 0x000f with (Z.ones 4). by rewrite Z.land_ones by lia.
Qed.

Definition msg_header (m : Message) : bytes :=
  msg_id m ++ be_bytes 2 (msg_flags m)
  ++ be_bytes 2 (Z.of_nat (length (msg_questions m)))
  ++ be_bytes 2 (Z.of_nat (length (msg_answers m))) ++ msg_counts m.

Lemma encode_message_header m :
  encode_message m = msg_header m ++ concat (map encode_question (msg_questions m))
                     ++ concat (map encode_rr (msg_answers m)).
Proof. unfold encode_message, msg_header. by rewrite <- !app_assoc. Qed.

Lemma header_fields m rest :
  wf_message m ->
  let input := msg_header m ++ rest in
  be16 input 2 = msg_flags m
  /\ be16 input 4 = Z.of_nat (length (msg_questions m))
  /\ be16 input 6 = Z.of_nat (length (msg_answers m))
  /\ length (msg_header m) = 12%nat.
Proof.
  destruct m as [i f c qs rs]. intros (Hi & Hc & Hf & _ & _ & Hq & Ha & _).
  unfold U16_MAX in *. unfold msg_header. cbn [msg_id msg_flags msg_counts msg_questions msg_answers] in *.
  explode i. explode c. split_and!; try done.
  - exact (be_value_be16 f Hf).
  - exact (be_value_be16 (Z.of_nat (length qs)) ltac:(unfold is_u; lia)).
  - exact (be_value_be16 (Z.of_nat (length rs)) ltac:(unfold is_u; lia)).
Qed.

Lemma parse_response_sound input record_type addresses :
  bytes_ok input -> parse_response input record_type = Ok addresses ->
  exists m trailing, wf_message m /\ input = encode_message m ++ trailing
    /\ addresses = omap (rr_address record_type) (msg_answers m).
Proof.
  intros Hok E. assert (Hu : forall k, is_u 16 (be16 input k)) by (intros; by apply be16_is_u).
  unfold parse_response in E.
  destruct (length input <? 12)%nat eqn:Hlen; [done|]. unbool. cbn zeta in E.
  destruct (flags_tests _ (Hu 2%nat)) as [Ht Hm]. rewrite Ht, Hm in E.
  destruct (Z.testbit _ 15) eqn:Hbit; [|done]. cbn [negb] in E.
  destruct (Z.eqb_spec (be16 input 2 mod 16) 0) as [Hz|]; [|done]. cbn [negb] in E.
  apply rbind_Ok in E as (o & E1 & E).
  apply skip_questions_exact in E1 as (qs & Hqn & Hqs & Hd & Ho); [|done|lia].
  assert (Hle : (o <= length input)%nat).
  { rewrite Ho. destruct (drop_app_inv _ _ _ _ Hd); lia. }
  apply read_answers_exact in E as (rs & rest & Hrn & Hrs & Hd2 & ->); [|done..].
  pose proof (Hu 4%nat) as Hu4. pose proof (Hu 6%nat) as Hu6. unfold is_u in Hu4, Hu6.
  exists (mkMessage (slice 0 2 input) (be16 input 2) (slice 8 12 input) qs rs), rest.
  split_and!; [| |done].
  - split_and!; cbn [msg_id msg_flags msg_counts msg_questions msg_answers];
      try rewrite length_slice by lia; try done; unfold U16_MAX; lia.
  - rewrite encode_message_header. unfold msg_header.
    cbn [msg_id msg_flags msg_counts msg_questions msg_answers].
    rewrite Hqn, Hrn, !Z2Nat.id, !be16_slice by (done || lia). cbn [Nat.add].
    rewrite <- !app_assoc, <- Hd2, <- Hd.
    rewrite <- !(drop_slice _ _ input) by lia. by rewrite drop_0.
Qed.

Lemma parse_response_complete m trailing record_type :
  wf_message m -> bytes_ok (encode_message m ++ trailing) ->
  parse_response (encode_message m ++ trailing) record_type =
    Ok (omap (rr_address record_type) (msg_answers m)).
Proof.
  intros Hm Hok. rewrite encode_message_header, <- !app_assoc in Hok |- *.
  destruct (header_fields m (concat (map encode_question (msg_questions m))
    ++ concat (map encode_rr (msg_answers m)) ++ trailing) Hm) as (Hf & Hq & Ha & Hl).
  set (input := msg_header m ++ _) in *.
  destruct Hm as (_ & _ & Hfu & Hbit & Hz & _ & _ & Hqs & Hrs).
  assert (Hlen : (12 <= length input)%nat) by (unfold input; rewrite length_app; lia).
  unfold parse_response. destruct (Nat.ltb_spec (length input) 12); [lia|]. cbn zeta.
  rewrite Hf, Hq, Ha. destruct (flags_tests _ Hfu) as [-> ->].
  rewrite Hbit, Hz. cbn [negb Z.eqb]. rewrite !Nat2Z.id.
  assert (Hd : drop 12 input = concat (map encode_question (msg_questions m))
               ++ concat (map encode_rr (msg_answers m)) ++ trailing).
  { unfold input. rewrite <- Hl. by rewrite drop_app_length. }
  destruct (drop_app_inv _ _ _ _ Hd Hlen) as [Hle Hd2].
  rewrite (proj2 (skip_questions_exact _ _ _ _ Hok Hlen)
    (ex_intro _ (msg_questions m) (conj eq_refl (conj Hqs (conj
      (eq_trans Hd (f_equal _ (eq_sym Hd2))) eq_refl))))).
  cbn [rbind]. apply read_answers_exact; [done..|].
  by exists (msg_answers m), trailing.
Qed.

(** C38: [parse_response] accepts exactly the DNS responses without an error
    code, and returns the addresses of their records of the class and type asked
    for, in order; bytes after the answers are ignored. *)
Theorem parse_response_exact input record_type addresses :
  bytes_ok input ->
  parse_response input record_type = Ok addresses <->
  exists m trailing, wf_message m /\ input = encode_message m ++ trailing
    /\ addresses = omap (rr_address record_type) (msg_answers m).
Proof.
  intros Hok. split; [by apply parse_response_sound|].
  intros (m & trailing & Hm & -> & ->). by apply parse_response_complete.
Qed.

(** The response of a server to a query for [vela.example], with a compressed
    name, an alias and an address *)
Definition sample_message : Message :=
  let name := mkName [str "vela"; str "example"] [0] in
  mkMessage [18; 52] 0x8180 [0; 0; 0; 0] [(name, [0; 1; 0; 1])]
    [mkRr (mkName [] [192; 12]) 5 1 [0; 0; 0; 60] [1; 97; 0];
     mkRr (mkName [] [192; 12]) 1 1 [0; 0; 0; 60] [203; 0; 113; 7]].

Lemma parse_response_exact_witness :
  parse_response (encode_message sample_message) 1 = Ok [V4 (be_value [203; 0; 113; 7])].
Proof.
  apply (parse_response_exact (encode_message sample_message) 1 _ ltac:(by_decide)).
  exists sample_message, []. split_and!; [|by rewrite app_nil_r|reflexivity].
  assert (wf_name (mkName [] [192; 12])).
  { split; [constructor|]. right. exists 192, 12. split; [done|lia]. }
  assert (wf_name (mkName [str "vela"; str "example"] [0])).
  { split; [by_decide | by left]. }
  split_and!; try by_decide; repeat (apply Forall_cons; split); try apply Forall_nil; try done.
Defined.

(** ** Resolution *)

Lemma push_new_elem addresses values a :
  a ∈ push_new addresses values <-> a ∈ addresses \/ a ∈ values.
Proof.
  unfold push_new. revert addresses.
  induction values as [|v values IH]; intros addresses; cbn [fold_left]; [set_solver|].
  rewrite IH. case_bool_decide; set_solver.
Qed.

Lemma push_new_NoDup addresses values : NoDup addresses -> NoDup (push_new addresses values).
Proof.
  unfold push_new. revert addresses.
  induction values as [|v values IH]; intros addresses Hn; cbn [fold_left]; [done|].
  apply IH. case_bool_decide; [done|]. apply NoDup_app. split_and!; [done|set_solver|].
  apply NoDup_singleton.
Qed.

Section resolver_facts.
Context {W : Type} {H : Http W}.

(** An address some query of a server for one of the two record types gave *)
Definition answered (host server : bytes) (a : IpAddr) : Prop :=
  exists t w values w', t ∈ record_types
    /\ query server host t w = (Ok values, w') /\ a ∈ values.

Lemma query_types_sound host server types addresses responded last_error w out w' :
  (forall t, t ∈ types -> t ∈ record_types) ->
  query_types (query server host) types addresses responded last_error w = (Ok out, w') ->
  (NoDup addresses -> NoDup out.1.1)
  /\ (forall a, a ∈ out.1.1 -> a ∈ addresses \/ answered host server a).
Proof.
  revert addresses responded last_error w.
  induction types as [|t types IH]; intros addresses responded last_error w Ht E; cbn in E.
  { injection E as <- <-. cbn. auto. }
  unfold hbind, htry in E. destruct (query server host t w) as [[values|e] w1] eqn:Eq.
  - apply IH in E as [Hn Ha]; [|set_solver]. split; [eauto using push_new_NoDup|].
    intros a Hin. apply Ha in Hin as [Hin|]; [|by right].
    apply push_new_elem in Hin as [|Hin]; [by left|]. right.
    exists t, w, values, w1. set_solver.
  - apply IH in E; [done|set_solver].
Qed.

Lemma resolve_servers_sound host servers addresses last_error w out w' :
  NoDup addresses ->
  resolve_servers host servers addresses last_error w = (Ok out, w') ->
  out <> [] /\ NoDup out
  /\ forall a, a ∈ out -> a ∈ addresses \/ exists server, server ∈ servers /\ answered host server a.
Proof.
  revert addresses last_error w.
  induction servers as [|server servers IH]; intros addresses last_error w Hn E; [done|].
  cbn [resolve_servers] in E. apply hbind_Ok in E as (((l & r) & e) & w1 & E1 & E).
  apply query_types_sound in E1 as [Hn1 Ha1]; [|done]. cbn in Hn1, Ha1.
  destruct (r && negb (bool_decide (l = []))) eqn:Eb.
  - injection E as <- <-. unbool. split_and!; [done|auto|].
    intros a Ha. apply Ha1 in Ha as [|]; [by left|]. right. exists server. set_solver.
  - apply IH in E as (Hne & Hn2 & Ha2); [|auto]. split_and!; [done..|].
    intros a Ha. apply Ha2 in Ha as [Ha|(s & Hs & Ha)].
    + apply Ha1 in Ha as [|]; [by left|]. right. exists server. set_solver.
    + right. exists s. set_solver.
Qed.

Lemma query_types_answered ask t types addresses responded last_error w values w1 :
  ask t w = (Ok values, w1) ->
  query_types (W := W) ask (t :: types) addresses responded last_error w
  = query_types ask types (push_new addresses values) true last_error w1.
Proof. intros E. cbn [query_types]. unfold hbind at 1, htry. by rewrite E. Qed.

Lemma query_types_returns ask types addresses responded last_error w :
  exists l r e w', query_types (W := W) ask types addresses responded last_error w = (Ok (l, r, e), w')
    /\ (addresses <> [] -> l <> []) /\ (responded = true -> r = true).
Proof.
  revert addresses responded last_error w.
  induction types as [|t types IH]; intros addresses responded last_error w; cbn.
  { unfold hret. eauto 10. }
  unfold hbind, htry. destruct (ask t w) as [[values|e] w1].
  - destruct (IH (push_new addresses values) true last_error w1) as (l & r & e & w' & -> & Hl & Hr).
    exists l, r, e, w'. split_and!; [done| |auto]. intros Hne. apply Hl.
    destruct addresses as [|a addresses]; [done|]. intros E.
    assert (a ∈ @nil IpAddr) as Hin; [|by apply not_elem_of_nil in Hin].
    rewrite <- E. apply push_new_elem. left. left.
  - apply IH.
Qed.

(** A server that answers every query for an address record with at least one
    address *)
Definition reliable (host server : bytes) : Prop :=
  forall w, exists values w', query server host 1 w = (Ok values, w') /\ values <> [].

Lemma resolve_servers_available host servers addresses last_error w server :
  server ∈ servers -> reliable host server ->
  exists out w', resolve_servers host servers addresses last_error w = (Ok out, w').
Proof.
  intros Hin Hrel. revert addresses last_error w.
  induction servers as [|s servers IH]; intros addresses last_error w; [by apply not_elem_of_nil in Hin|].
  cbn [resolve_servers]. unfold hbind at 1.
  apply elem_of_cons in Hin as [<-|Hin].
  - destruct (Hrel w) as (values & w1 & Eq & Hv).
    change record_types with (1 :: [28]). rewrite (query_types_answered _ _ _ _ _ _ _ _ _ Eq).
    destruct (query_types_returns (query server host) [28] (push_new addresses values) true
                last_error w1) as (l & r & e & w' & -> & Hl & Hr).
    rewrite Hr by done. rewrite bool_decide_eq_false_2; [by eexists _, _|].
    apply Hl. destruct values as [|v values]; [done|]. intros E.
    assert (v ∈ @nil IpAddr) as Hin; [|by apply not_elem_of_nil in Hin].
    rewrite <- E. apply push_new_elem. right. left.
  - destruct (query_types_returns (query s host) record_types addresses false last_error w)
      as (l & r & e & w' & -> & _).
    destruct (r && negb (bool_decide (l = []))); [by eexists _, _|]. by apply IH.
Qed.

(** The servers asked: the configured ones, or the default one *)
Definition asked (servers : list bytes) : list bytes :=
  match servers with [] => default_servers | _ => servers end.

(** what [resolve] returns is never empty and has no duplicates; a literal
    address is returned without touching the network, and every other address was
    given by a query to one of the servers asked; and a configured server that
    answers is enough for [resolve] to succeed, whatever the servers before it
    did. *)
Theorem resolve_correct host servers w :
  (forall out w', resolve host servers w = (Ok out, w') ->
    out <> [] /\ NoDup out
    /\ (parse_ip host <> None -> w' = w /\ parse_ip host = head out /\ length out = 1%nat)
    /\ (parse_ip host = None ->
        forall a, a ∈ out -> exists server, server ∈ asked servers /\ answered host server a))
  /\ (forall server, host <> [] -> server ∈ asked servers -> reliable host server ->
      exists out w', resolve host servers w = (Ok out, w')).
Proof.
  unfold resolve. destruct (parse_ip host) as [a|] eqn:Ea; split.
  - intros out w' [= <- <-]. split_and!; [done|apply NoDup_singleton|done|done].
  - intros. by eexists _, _.
  - intros out w' E. case_bool_decide; [done|].
    apply resolve_servers_sound in E as (Hne & Hn & Ha); [|constructor].
    split_and!; [done..|]. intros _ a Hin. apply Ha in Hin as [Hin|]; [|done].
    by apply not_elem_of_nil in Hin.
  - intros server Hh Hin Hrel. rewrite bool_decide_eq_false_2 by done.
    by apply (resolve_servers_available _ _ _ _ _ server).
Qed.

(** A server failure reported by the JSON API is not seen: the field is read as
    [status], the API calls it [Status]. *)
Lemma json_status_ignored input code record_type :
  json_parse input = Ok (JObj [(str "Status", JInt code)]) ->
  parse_json_response input record_type = Ok [].
Proof. intros E. unfold parse_json_response. by rewrite E. Qed.

End resolver_facts.

(** Two servers, the first out of order: the answer is that of the second, a
    name of an address record. *)
Definition sample_http : Http unit := {|
  Client := unit;
  url_parse s := Ok (mkUrl (str "https") (Some s) None [] []);
  url_show u := default [] (host_str u);
  client_build _ := Ok tt;
  http_get _ u w :=
    if bool_decide (host_str u = Some (str "192.0.2.2"))
    then (Ok (str "application/dns-message", encode_message sample_message), w)
    else (Err (str "connection refused"), w);
  json_parse _ := Err InvalidLength;
  show_de_error _ := []
|}.

Lemma sample_query :
  query (H := sample_http) (str "192.0.2.2") (str "vela.example") 1 tt
  = (Ok [V4 (be_value [203; 0; 113; 7])], tt).
Proof. reflexivity. Qed.

Lemma resolve_correct_witness :
  exists out w', resolve (H := sample_http) (str "vela.example")
    [str "192.0.2.1"; str "192.0.2.2"] tt = (Ok out, w').
Proof.
  apply (resolve_correct (H := sample_http) (str "vela.example")
    [str "192.0.2.1"; str "192.0.2.2"] tt) with (server := str "192.0.2.2").
  - done.
  - by_decide.
  - intros []. eexists _, _. split; [apply sample_query | done].
Defined.
