(* ===== verification/Stun.v ===== *)
(** * The STUN binding client

    [vela-stun/src/lib.rs]: the endpoint syntax ([split_server]), the request
    and the parser of its response ([binding_request],
    [parse_binding_response], [parse_address]), the transaction with its
    retransmissions ([binding_address]) and the survey of all configured servers
    ([binding]).  The socket, the clock and the random numbers are the class
    [StunSocket]; times are in nanoseconds. *)
From S2P Require Import Prelude Net Text Dns.

Definition MAGIC_COOKIE : Z := 0x2112A442.
Definition BINDING_REQUEST : Z := 0x0001.
Definition BINDING_SUCCESS_RESPONSE : Z := 0x0101.
Definition XOR_MAPPED_ADDRESS : Z := 0x0020.
Definition MAPPED_ADDRESS : Z := 0x0001.
Definition INITIAL_RETRANSMISSION_TIMEOUT : Z := 500 * 10 ^ 6.

(** [Duration::MAX] *)
Definition DURATION_MAX : Z := (2 ^ 64 - 1) * 10 ^ 9 + 999999999.

Inductive IoError : Type :=
| InvalidInput (why : string)
| AddrNotAvailable (why : string)
| ConnectionAborted (why : string)
| InvalidDataError (why : string)
| OtherError (e : DnsError)
| OsError (code : Z).

Inductive StunError : Type :=
| StunIo (e : IoError)
| StunResolve (server : bytes) (source : IoError)
| StunTimeout
| StunInvalidResponse
| NoMappedAddress
| NoServersResponded.

Record StunConfig : Type := mkStunConfig {
  stun_endpoints : list bytes;
  stun_doh : list bytes;
  stun_timeout : Z
}.

Definition StunConfig_default : StunConfig := mkStunConfig [] default_servers (3 * 10 ^ 9).

(** ** Endpoints *)

Definition split_server (server : bytes) : result (bytes * Z) IoError :=
  let? (host, port) :=
    match strip_prefix (str "[") server with
    | Some value =>
        ok_or (split_once (str "]:") value) (InvalidInput "STUN endpoint must be host:port")
    | None =>
        let? (host, port) :=
          ok_or (rsplit_once 58 server) (InvalidInput "STUN endpoint must be host:port") in
        if contains_byte 58 host
        then Err (InvalidInput "IPv6 STUN endpoints must use [IPv6]:port")
        else Ok (host, port)
    end in
  if bool_decide (host = []) then Err (InvalidInput "STUN endpoint host is empty")
  else
    let? port := ok_or (parse_u16 port) (InvalidInput "STUN endpoint port is invalid") in
    if port =? 0 then Err (InvalidInput "STUN endpoint port must be non-zero")
    else Ok (host, port).

(** ** Messages *)

Definition binding_request (transaction : bytes) : bytes :=
  be_bytes 2 BINDING_REQUEST ++ be_bytes 2 0 ++ be_bytes 4 MAGIC_COOKIE ++ transaction.

Definition xor_bytes (l mask : bytes) : bytes := zip_with Z.lxor l mask.

Definition parse_address (attribute : Z) (value transaction : bytes) : option SocketAddr :=
  if (length value <? 4)%nat then None
  else
    let family := value !!! 1%nat in
    let xored := attribute =? XOR_MAPPED_ADDRESS in
    let port := Z.lxor (be16 value 2) (if xored then Z.shiftr MAGIC_COOKIE 16 else 0) in
    if (family =? 1) && (8 <=? length value)%nat then
      let l := slice 4 8 value in
      let l := if xored then xor_bytes l (be_bytes 4 MAGIC_COOKIE) else l in
      Some (SockV4 (be_value l) port)
    else if (family =? 2) && (20 <=? length value)%nat then
      let l := slice 4 20 value in
      let l := if xored then xor_bytes l (be_bytes 4 MAGIC_COOKIE ++ transaction) else l in
      Some (SockV6 (be_value l) port 0 0)
    else None.

(** [(length + 3) & !3] *)
Definition padded (length_ : Z) : Z := Z.land (length_ + 3) (Z.lnot 3).

(** The loop of [parse_binding_response]: an iteration moves the offset by at
    least four bytes. *)
Fixpoint parse_attributes (fuel : nat) (input : bytes) (message_end offset : nat)
    (transaction : bytes) : result SocketAddr StunError :=
  if (message_end <=? offset)%nat then Err NoMappedAddress
  else
    match fuel with
    | O => Err StunInvalidResponse
    | S fuel' =>
        if (message_end - offset <? 4)%nat then Err StunInvalidResponse
        else
          let attribute := be16 input offset in
          let length_ := be16 input (offset + 2) in
          let offset := (offset + 4)%nat in
          let padded_length := Z.to_nat (padded length_) in
          if (message_end <? offset + padded_length)%nat then Err StunInvalidResponse
          else
            let value := slice offset (offset + Z.to_nat length_) input in
            match (if (attribute =? XOR_MAPPED_ADDRESS) || (attribute =? MAPPED_ADDRESS)
                   then parse_address attribute value transaction else None) with
            | Some address => Ok address
            | None =>
                parse_attributes fuel' input message_end (offset + padded_length) transaction
            end
    end.

Definition parse_binding_response (input transaction : bytes) : result SocketAddr StunError :=
  if (length input <? 20)%nat
     || negb (Z.land (input !!! 0%nat) 0xc0 =? 0)
     || negb (be16 input 0 =? BINDING_SUCCESS_RESPONSE)
     || negb (be_value (slice 4 8 input) =? MAGIC_COOKIE)
     || negb (bool_decide (slice 8 20 input = transaction))
  then Err StunInvalidResponse
  else
    let message_len := Z.to_nat (be16 input 2) in
    let message_end := (20 + message_len)%nat in
    if (length input <? message_end)%nat then Err StunInvalidResponse
    else parse_attributes message_len input message_end 20 transaction.

(** ** Transactions *)

Definition ip_is_unspecified (a : IpAddr) : bool :=
  match a with V4 i | V6 i => i =? 0 end.

(** What the client uses of its environment.  [tick] reads the clock;
    [recv_timeout d] is [timeout(d, socket.recv_from(..))], with [None] when the
    time is up first and the bytes received otherwise. *)
Class StunSocket (W : Type) : Type := {
  tick : W -> Z * W;
  send_to : bytes -> SocketAddr -> W -> result Z IoError * W;
  recv_timeout : Z -> W -> option (result (bytes * SocketAddr) IoError) * W;
  fill_bytes : nat -> W -> bytes * W
}.

(** How the inner loop of [binding_address] ends *)
Inductive Attempt : Type :=
| Mapped (a : SocketAddr)
| Broken (e : IoError)
| Expired (last_error : StunError).

Section client.
Context {W : Type} {Sk : StunSocket W} {H : Http W}.

(** A response that counts: it came from the server and has a usable address of
    the server's family. *)
Definition usable_response (server : SocketAddr) (transaction response : bytes)
    (source : SocketAddr) : option SocketAddr :=
  if negb (bool_decide (source = server))
     || ip_is_unspecified (sock_ip source)
     || negb (Bool.eqb (sock_is_ipv4 source) (sock_is_ipv4 server))
  then None
  else
    match parse_binding_response response transaction with
    | Ok address =>
        if negb (ip_is_unspecified (sock_ip address))
           && Bool.eqb (sock_is_ipv4 address) (sock_is_ipv4 server)
        then Some address else None
    | Err _ => None
    end.

Fixpoint await_response (fuel : nat) (server : SocketAddr) (transaction : bytes)
    (attempt_deadline : Z) (invalid_response : bool) (w : W) : option (Attempt * W) :=
  match fuel with
  | O => None
  | S fuel' =>
      let '(now, w) := tick w in
      let remaining := sat_sub attempt_deadline now in
      if remaining =? 0 then
        Some (Expired (if invalid_response then StunInvalidResponse else StunTimeout), w)
      else
        match recv_timeout remaining w with
        | (None, w) => Some (Expired StunTimeout, w)
        | (Some (Err e), w) => Some (Broken e, w)
        | (Some (Ok (response, source)), w) =>
            match usable_response server transaction response source with
            | Some address => Some (Mapped address, w)
            | None => await_response fuel' server transaction attempt_deadline true w
            end
        end
  end.

Fixpoint binding_attempts (fuel : nat) (server : SocketAddr) (transaction : bytes)
    (deadline retransmission_timeout : Z) (last_error : StunError) (w : W)
    : option (result SocketAddr StunError * W) :=
  match fuel with
  | O => None
  | S fuel' =>
      let '(now, w) := tick w in
      let remaining := sat_sub deadline now in
      if remaining =? 0 then Some (Err last_error, w)
      else
        match send_to (binding_request transaction) server w with
        | (Err e, w) => Some (Err (StunIo e), w)
        | (Ok _, w) =>
            let '(now, w) := tick w in
            let attempt_deadline := now + Z.min retransmission_timeout remaining in
            match await_response fuel server transaction attempt_deadline false w with
            | None => None
            | Some (Mapped address, w) => Some (Ok address, w)
            | Some (Broken e, w) => Some (Err (StunIo e), w)
            | Some (Expired e, w) =>
                binding_attempts fuel' server transaction deadline
                  (Z.min (retransmission_timeout * 2) DURATION_MAX) e w
            end
        end
  end.

(** [transaction_id] draws the 12 bytes. *)
Definition binding_address (fuel : nat) (request_timeout : Z) (server : SocketAddr) (w : W)
    : option (result SocketAddr StunError * W) :=
  let '(transaction, w) := fill_bytes 12 w in
  let '(now, w) := tick w in
  binding_attempts fuel server transaction (now + request_timeout)
    INITIAL_RETRANSMISSION_TIMEOUT StunTimeout w.

(** The loop over the addresses of one server: the mapped addresses found so
    far and the last error of this server *)
Fixpoint bind_addresses (fuel : nat) (request_timeout : Z) (addresses : list SocketAddr)
    (results : list SocketAddr) (server_error : option StunError) (w : W)
    : option (list SocketAddr * option StunError * W) :=
  match addresses with
  | [] => Some (results, server_error, w)
  | address :: addresses' =>
      match binding_address fuel request_timeout address w with
      | None => None
      | Some (Ok mapped_address, w) =>
          bind_addresses fuel request_timeout addresses'
            (if bool_decide (mapped_address ∈ results) then results
             else results ++ [mapped_address]) server_error w
      | Some (Err error, w) =>
          bind_addresses fuel request_timeout addresses' results (Some error) w
      end
  end.

(** [SocketAddr::new] *)
Definition socket_addr_new (address : IpAddr) (port : Z) : SocketAddr :=
  match address with V4 i => SockV4 i port | V6 i => SockV6 i port 0 0 end.

Fixpoint bind_servers (fuel : nat) (config : StunConfig) (servers : list bytes)
    (results : list SocketAddr) (last_error : option StunError) (w : W)
    : option (list SocketAddr * option StunError * W) :=
  match servers with
  | [] => Some (results, last_error, w)
  | server :: servers' =>
      match split_server server with
      | Err source =>
          bind_servers fuel config servers' results (Some (StunResolve server source)) w
      | Ok (host, port) =>
          match resolve host (stun_doh config) w with
          | (Err error, w) =>
              bind_servers fuel config servers' results
                (Some (StunResolve server (OtherError error))) w
          | (Ok ips, w) =>
              let addresses := map (fun a => socket_addr_new a port) ips in
              match bind_addresses fuel (stun_timeout config) addresses results None w with
              | None => None
              | Some (results, server_error, w) =>
                  let last_error :=
                    match addresses with
                    | [] => Some (StunResolve server
                              (AddrNotAvailable "STUN hostname resolved to no addresses"))
                    | _ => match server_error with Some e => Some e | None => last_error end
                    end in
                  bind_servers fuel config servers' results last_error w
              end
          end
      end
  end.

Definition binding (fuel : nat) (config : StunConfig) (w : W)
    : option (result (list SocketAddr) StunError * W) :=
  match bind_servers fuel config (stun_endpoints config) [] None w with
  | None => None
  | Some (results, last_error, w) =>
      Some (if bool_decide (results = []) && negb (bool_decide (stun_endpoints config = []))
            then Err (default NoServersResponded last_error)
            else Ok results, w)
  end.

End client.

(** What [split_server] accepts names a host and a port. *)
Lemma split_server_ok server host port :
  split_server server = Ok (host, port) -> host <> [] /\ 1 <= port <= U16_MAX.
Proof.
  unfold split_server. intros E. apply rbind_Ok in E as ([h p] & _ & E).
  destruct (bool_decide (h = [])) eqn:Eh in E; [done|].
  apply rbind_Ok in E as (v & Ev & E). apply ok_or_Ok, parse_u16_bound in Ev.
  destruct (v =? 0) eqn:E0 in E; [done|]. injection E as -> ->. unbool. split; [done|lia].
Qed.

(** ** STUN messages, as a grammar *)

Record Attribute : Type := mkAttribute { attr_type : Z; attr_value : bytes; attr_padding : bytes }.

Definition wf_attribute (a : Attribute) : Prop :=
  is_u 16 (attr_type a) /\ len (attr_value a) <= U16_MAX
  /\ len (attr_padding a) = (- len (attr_value a)) mod 4.

Definition encode_attribute (a : Attribute) : bytes :=
  be_bytes 2 (attr_type a) ++ be_bytes 2 (len (attr_value a)) ++ attr_value a ++ attr_padding a.

Definition response_header (transaction : bytes) (body_len : Z) : bytes :=
  be_bytes 2 BINDING_SUCCESS_RESPONSE ++ be_bytes 2 body_len ++ be_bytes 4 MAGIC_COOKIE
  ++ transaction.

(** The address an attribute tells the client *)
Definition mapped (transaction : bytes) (a : Attribute) : option SocketAddr :=
  if (attr_type a =? XOR_MAPPED_ADDRESS) || (attr_type a =? MAPPED_ADDRESS)
  then parse_address (attr_type a) (attr_value a) transaction else None.

(** ** The parser reads exactly the grammar *)

Lemma padded_spec n : padded n = n + (- n) mod 4.
Proof.
  unfold padded. change (Z.lnot 3) with (Z.lnot (Z.ones 2)).
  rewrite <- Z.ldiff_land, Z.ldiff_ones_r, Z.shiftl_mul_pow2, Z.shiftr_div_pow2 by lia.
  change (2 ^ 2) with 4.
  pose proof (Z.div_mod (n + 3) 4). pose proof (Z.div_mod (- n) 4).
  pose proof (Z.mod_pos_bound (n + 3) 4). pose proof (Z.mod_pos_bound (- n) 4). lia.
Qed.

Lemma length_attribute a :
  wf_attribute a ->
  length (encode_attribute a) = (4 + Z.to_nat (padded (len (attr_value a))))%nat.
Proof.
  intros (_ & _ & Hp). unfold encode_attribute. autorewrite with vela.
  rewrite padded_spec, <- Hp. unfold len. lia.
Qed.

(** The parser at the start of an attribute *)
Lemma attribute_fields input o a rest :
  wf_attribute a -> drop o input = encode_attribute a ++ rest -> (o <= length input)%nat ->
  be16 input o = attr_type a /\ be16 input (o + 2) = len (attr_value a)
  /\ slice (o + 4) (o + 4 + length (attr_value a)) input = attr_value a.
Proof.
  intros (Ht & Hl & _) Hd Ho.
  assert (Hu : is_u 16 (len (attr_value a))) by (unfold is_u, len, U16_MAX in *; lia).
  split_and!.
  - rewrite <- (Nat.add_0_r o) at 1.
    rewrite (be16_drop _ _ _ _ _ Hd)
      by (unfold encode_attribute; autorewrite with vela; cbn; lia).
    exact (be_value_be16 _ Ht).
  - rewrite (be16_drop _ _ _ _ _ Hd)
      by (unfold encode_attribute; autorewrite with vela; cbn; lia).
    exact (be_value_be16 _ Hu).
  - unfold encode_attribute in Hd.
    change (be_bytes 2 (attr_type a) ++ be_bytes 2 (len (attr_value a)) ++ ?x)
      with ((be_bytes 2 (attr_type a) ++ be_bytes 2 (len (attr_value a))) ++ x) in Hd.
    rewrite <- !app_assoc, app_assoc in Hd.
    destruct (drop_app_inv _ _ _ _ Hd Ho) as [_ Hd2]. cbn in Hd2.
    unfold slice. rewrite Hd2. replace (_ + length _ - _)%nat with (length (attr_value a)) by lia.
    by rewrite take_app_length.
Qed.

(** One step of the parser over an attribute *)
Lemma parse_attributes_step fuel input message_end offset transaction a rest :
  wf_attribute a -> drop offset input = encode_attribute a ++ rest ->
  (offset + length (encode_attribute a) <= message_end <= length input)%nat ->
  parse_attributes (S fuel) input message_end offset transaction =
  match mapped transaction a with
  | Some address => Ok address
  | None => parse_attributes fuel input message_end
              (offset + length (encode_attribute a)) transaction
  end.
Proof.
  intros Ha Hd Hle. pose proof (length_attribute a Ha) as Hlen.
  destruct (attribute_fields input offset a rest Ha Hd ltac:(lia)) as (Ht & Hl & Hv).
  cbn [parse_attributes]. rewrite Ht, Hl. unfold len at 2. rewrite Nat2Z.id, Hv.
  rewrite Hlen, Nat.add_assoc in *.
  destruct (Nat.leb_spec message_end offset); [lia|].
  destruct (Nat.ltb_spec (message_end - offset) 4); [lia|]. cbn zeta.
  destruct (Nat.ltb_spec message_end (offset + 4 + Z.to_nat (padded (len (attr_value a))))); [lia|].
  done.
Qed.

Lemma parse_attributes_complete fuel input message_end offset transaction attrs a post rest address :
  (message_end <= offset + fuel)%nat -> (message_end <= length input)%nat ->
  Forall wf_attribute attrs -> wf_attribute a ->
  Forall (fun x => mapped transaction x = None) attrs -> mapped transaction a = Some address ->
  drop offset input = (concat (map encode_attribute attrs) ++ encode_attribute a ++ post) ++ rest ->
  (offset + length (concat (map encode_attribute attrs) ++ encode_attribute a ++ post)
   = message_end)%nat ->
  parse_attributes fuel input message_end offset transaction = Ok address.
Proof.
  intros Hf He Hattrs Ha Hnone Hsome. revert fuel offset Hf.
  induction attrs as [|x attrs IH]; intros fuel offset Hf Hd Hlen; cbn [map concat] in *.
  - rewrite <- !app_assoc in Hd. cbn [app] in *. rewrite !length_app in Hlen.
    pose proof (length_attribute a Ha). destruct fuel as [|fuel]; [lia|].
    rewrite (parse_attributes_step _ _ _ _ _ a _ Ha Hd) by lia. by rewrite Hsome.
  - apply Forall_cons in Hattrs as [Hx Hattrs]. apply Forall_cons in Hnone as [Hxn Hnone].
    rewrite <- !app_assoc in Hd. rewrite <- app_assoc, length_app in Hlen.
    pose proof (length_attribute x Hx). destruct fuel as [|fuel]; [lia|].
    rewrite (parse_attributes_step _ _ _ _ _ x _ Hx Hd) by lia. rewrite Hxn.
    apply IH; [done..|lia| |lia].
    destruct (drop_app_inv _ _ _ _ Hd) as [_ ->]; [lia|]. by rewrite <- !app_assoc.
Qed.

(** What the parser takes for an attribute is one. *)
Lemma attribute_at input message_end offset :
  bytes_ok input -> (offset + 4 <= message_end <= length input)%nat ->
  let length_ := be16 input (offset + 2) in
  (offset + 4 + Z.to_nat (padded length_) <= message_end)%nat ->
  let a := mkAttribute (be16 input offset)
             (slice (offset + 4) (offset + 4 + Z.to_nat length_) input)
             (slice (offset + 4 + Z.to_nat length_) (offset + 4 + Z.to_nat (padded length_)) input) in
  wf_attribute a
  /\ drop offset input
     = encode_attribute a ++ drop (offset + 4 + Z.to_nat (padded length_)) input.
Proof.
  intros Hok He length_ Hle a. pose proof (be16_is_u input (offset + 2) Hok) as Hu.
  fold length_ in Hu. unfold is_u in Hu.
  pose proof (padded_spec length_) as Hp. pose proof (Z.mod_pos_bound (- length_) 4).
  assert (Hv : len (attr_value a) = length_).
  { unfold len, a; cbn [attr_value]. rewrite length_slice; lia. }
  split.
  - split_and!.
    + by apply be16_is_u.
    + rewrite Hv. unfold U16_MAX. lia.
    + rewrite Hv. unfold len, a; cbn [attr_padding]. rewrite length_slice; lia.
  - unfold encode_attribute. rewrite Hv. unfold a, length_; cbn [attr_type attr_value attr_padding].
    rewrite !be16_slice, <- !app_assoc by (done || lia).
    replace (offset + 2 + 2)%nat with (offset + 4)%nat by lia. fold length_.
    by rewrite <- (drop_slice (offset + 4 + Z.to_nat length_)), <- (drop_slice (offset + 4)),
      <- (drop_slice (offset + 2)), <- drop_slice by lia.
Qed.

Lemma parse_attributes_sound fuel input message_end offset transaction address :
  bytes_ok input -> (offset <= message_end <= length input)%nat ->
  parse_attributes fuel input message_end offset transaction = Ok address ->
  exists attrs a post,
    drop offset input
      = (concat (map encode_attribute attrs) ++ encode_attribute a ++ post) ++ drop message_end input
    /\ Forall wf_attribute attrs /\ wf_attribute a
    /\ Forall (fun x => mapped transaction x = None) attrs /\ mapped transaction a = Some address.
Proof.
  intros Hok. revert offset; induction fuel as [|fuel IH]; intros offset He E;
    cbn [parse_attributes] in E; (destruct (message_end <=? offset)%nat eqn:E1; [done|]); [done|].
  destruct (message_end - offset <? 4)%nat eqn:E2; [done|]. cbn zeta in E.
  destruct (message_end <? _)%nat eqn:E3 in E; [done|]. unbool.
  destruct (attribute_at input message_end offset Hok ltac:(lia) E3) as [Hwf Hd].
  set (a := mkAttribute _ _ _) in *.
  change (match mapped transaction a with
          | Some x => Ok x
          | None => parse_attributes fuel input message_end
              (offset + 4 + Z.to_nat (padded (be16 input (offset + 2)))) transaction
          end = Ok address) in E.
  destruct (mapped transaction a) as [x|] eqn:Em.
  - injection E as ->.
    exists [], a, (slice (offset + 4 + Z.to_nat (padded (be16 input (offset + 2)))) message_end input).
    split_and!; [|done..]. cbn [map concat app]. rewrite Hd, <- app_assoc. f_equal.
    by apply drop_slice.
  - apply IH in E as (attrs & b & post & Hd2 & Hattrs & Hb & Hn & Hs); [|lia].
    exists (a :: attrs), b, post. split_and!; [|by constructor|done|by constructor|done].
    cbn [map concat]. rewrite Hd, Hd2. by rewrite <- !app_assoc.
Qed.

Lemma header_checks transaction body_len rest :
  length transaction = 12%nat -> is_u 16 body_len ->
  let input := response_header transaction body_len ++ rest in
  (20 <= length input)%nat /\ input !!! 0%nat = 1 /\ be16 input 0 = BINDING_SUCCESS_RESPONSE
  /\ be_value (slice 4 8 input) = MAGIC_COOKIE /\ slice 8 20 input = transaction
  /\ be16 input 2 = body_len /\ drop 20 input = rest.
Proof.
  intros Ht Hb input. unfold input, response_header. explode transaction.
  split_and!; try done.
  - rewrite length_app. cbn. lia.
  - exact (be_value_be16 body_len Hb).
Qed.

Lemma parse_binding_response_complete transaction attrs a post trailing address :
  let body := concat (map encode_attribute attrs) ++ encode_attribute a ++ post in
  length transaction = 12%nat -> len body <= U16_MAX ->
  Forall wf_attribute attrs -> wf_attribute a ->
  Forall (fun x => mapped transaction x = None) attrs -> mapped transaction a = Some address ->
  parse_binding_response (response_header transaction (len body) ++ body ++ trailing) transaction
  = Ok address.
Proof.
  intros body Ht Hb Hattrs Ha Hn Hs.
  assert (Hu : is_u 16 (len body)) by (unfold is_u, len, U16_MAX in *; lia).
  destruct (header_checks transaction (len body) (body ++ trailing) Ht Hu)
    as (Hl & H0 & H1 & H2 & H3 & H4 & Hd).
  unfold parse_binding_response. set (input := _ ++ body ++ trailing) in *.
  rewrite H0, H1, H2, H3, H4, !Z.eqb_refl, bool_decide_eq_true_2 by done.
  destruct (Nat.ltb_spec (length input) 20); [lia|]. cbn [orb negb Z.land Z.eqb Pos.land].
  unfold len. rewrite Nat2Z.id.
  assert (Hlen : (20 + length body <= length input)%nat).
  { apply (f_equal length) in Hd. rewrite length_drop, length_app in Hd. lia. }
  destruct (Nat.ltb_spec (length input) (20 + length body)); [lia|].
  by eapply (parse_attributes_complete _ _ _ _ _ attrs a post trailing).
Qed.

Lemma parse_binding_response_sound input transaction address :
  bytes_ok input -> parse_binding_response input transaction = Ok address ->
  exists attrs a post trailing,
    let body := concat (map encode_attribute attrs) ++ encode_attribute a ++ post in
    input = response_header transaction (len body) ++ body ++ trailing
    /\ len body <= U16_MAX /\ Forall wf_attribute attrs /\ wf_attribute a
    /\ Forall (fun x => mapped transaction x = None) attrs /\ mapped transaction a = Some address.
Proof.
  intros Hok E. unfold parse_binding_response in E.
  destruct (_ || _) eqn:Eh in E; [done|]. unbool. cbn zeta in E.
  destruct (length input <? _)%nat eqn:Ee in E; [done|]. unbool.
  pose proof (be16_is_u input 2 Hok) as Hu. unfold is_u in Hu.
  apply parse_attributes_sound in E as (attrs & a & post & Hd & H'); [|done|lia].
  exists attrs, a, post, (drop (20 + Z.to_nat (be16 input 2)) input). cbn zeta.
  set (body := concat _ ++ _) in *.
  assert (Hb : len body = be16 input 2).
  { apply (f_equal length) in Hd. rewrite length_app, !length_drop in Hd. unfold len. lia. }
  split_and!; [|unfold U16_MAX; lia|apply H'..].
  assert (Htx : slice 8 20 input = transaction) by done.
  assert (Hty : be16 input 0 = BINDING_SUCCESS_RESPONSE) by done.
  assert (Hck : be_value (slice 4 8 input) = MAGIC_COOKIE) by done.
  unfold response_header. rewrite Hb, <- Htx, <- Hty, <- Hck, !be16_slice by (done || lia).
  rewrite be_bytes_of_value by (rewrite ?length_slice; auto with vela; lia). cbn [Nat.add] in *.
  rewrite <- !app_assoc, <- Hd, <- !(drop_slice _ _ input) by lia. by rewrite drop_0.
Qed.

(** a datagram is accepted as the answer to a transaction exactly when it is
    a binding success response of that transaction whose attributes parse up to
    one that gives an address, and the address is that of the first such
    attribute. *)
Theorem parse_binding_response_exact input transaction address :
  bytes_ok input -> length transaction = 12%nat ->
  parse_binding_response input transaction = Ok address <->
  exists attrs a post trailing,
    let body := concat (map encode_attribute attrs) ++ encode_attribute a ++ post in
    input = response_header transaction (len body) ++ body ++ trailing
    /\ len body <= U16_MAX /\ Forall wf_attribute attrs /\ wf_attribute a
    /\ Forall (fun x => mapped transaction x = None) attrs /\ mapped transaction a = Some address.
Proof.
  intros Hok Ht. split; [by apply parse_binding_response_sound|].
  intros (attrs & a & post & trailing & -> & Hb & Hattrs & Ha & Hn & Hs).
  by apply parse_binding_response_complete.
Qed.

(** ** The address a server reports *)

Lemma xor_bytes_involutive l mask :
  length l = length mask -> xor_bytes (xor_bytes l mask) mask = l.
Proof.
  unfold xor_bytes. revert mask; induction l as [|b l IH]; intros [|m mask] Hl; try done.
  cbn. rewrite Z.lxor_assoc, Z.lxor_nilpotent, Z.lxor_0_r. f_equal. apply IH. by injection Hl.
Qed.

Lemma is_u_lxor n x y : 0 <= n -> is_u n x -> is_u n y -> is_u n (Z.lxor x y).
Proof.
  intros Hn Hx Hy. apply is_u_of_bits; [done| |].
  - apply Z.lxor_nonneg. unfold is_u in *. lia.
  - intros j Hj. by rewrite Z.lxor_spec, (testbit_high n x), (testbit_high n y).
Qed.

Lemma xor_bytes_ok l mask : bytes_ok l -> bytes_ok mask -> bytes_ok (xor_bytes l mask).
Proof.
  unfold xor_bytes. revert mask; induction l as [|b l IH]; intros [|m mask] Hl Hm; cbn;
    try constructor.
  - apply bytes_ok_cons in Hl as [Hb _], Hm as [Hc _]. by apply (is_u_lxor 8).
  - apply bytes_ok_cons in Hl as [_ Hl], Hm as [_ Hm]. by apply IH.
Qed.

(** A socket address a server can report: no flow label and no scope *)
Definition wf_address (a : SocketAddr) : Prop :=
  match a with
  | SockV4 ip port => is_u 32 ip /\ is_u 16 port
  | SockV6 ip port f s => is_u 128 ip /\ is_u 16 port /\ f = 0 /\ s = 0
  end.

(** The value of the XOR-MAPPED-ADDRESS attribute for an address *)
Definition xor_mapped_value (transaction : bytes) (a : SocketAddr) : bytes :=
  let port := be_bytes 2 (Z.lxor (sock_port a) (Z.shiftr MAGIC_COOKIE 16)) in
  match a with
  | SockV4 ip _ => [0; 1] ++ port ++ xor_bytes (ipv4_octets ip) (be_bytes 4 MAGIC_COOKIE)
  | SockV6 ip _ _ _ =>
      [0; 2] ++ port ++ xor_bytes (ipv6_octets ip) (be_bytes 4 MAGIC_COOKIE ++ transaction)
  end.

Definition success_response (transaction : bytes) (a : SocketAddr) : bytes :=
  let value := xor_mapped_value transaction a in
  let attribute := encode_attribute (mkAttribute XOR_MAPPED_ADDRESS value []) in
  response_header transaction (len attribute) ++ attribute.

Lemma xor_port port :
  is_u 16 port ->
  Z.lxor (be_value (be_bytes 2 (Z.lxor port (Z.shiftr MAGIC_COOKIE 16))))
    (Z.shiftr MAGIC_COOKIE 16) = port.
Proof.
  intros Hp. rewrite be_value_be16 by (apply is_u_lxor; [lia|done|by_decide]).
  by rewrite Z.lxor_assoc, Z.lxor_nilpotent, Z.lxor_0_r.
Qed.

Lemma length_xor_bytes l mask : length l = length mask -> length (xor_bytes l mask) = length l.
Proof. intros. unfold xor_bytes. rewrite length_zip_with. lia. Qed.

Lemma parse_xor_mapped_v4 transaction ip port :
  is_u 32 ip -> is_u 16 port ->
  parse_address XOR_MAPPED_ADDRESS (xor_mapped_value transaction (SockV4 ip port)) transaction
  = Some (SockV4 ip port).
Proof.
  intros Hip Hp. unfold parse_address, xor_mapped_value. cbn [sock_port].
  pose proof (xor_port port Hp) as Hport.
  assert (Hx : xor_bytes (xor_bytes (ipv4_octets ip) (be_bytes 4 MAGIC_COOKIE))
                 (be_bytes 4 MAGIC_COOKIE) = ipv4_octets ip)
    by (by apply xor_bytes_involutive).
  assert (Hl : length (xor_bytes (ipv4_octets ip) (be_bytes 4 MAGIC_COOKIE)) = 4%nat) by done.
  set (x := xor_bytes (ipv4_octets ip) _) in *.
  set (p := be_bytes 2 _) in *. assert (Hpl : length p = 2%nat) by done. clearbody x p.
  explode p. explode x. cbn in Hport |- *. unfold be16. cbn.
  rewrite Hport. f_equal. f_equal. change (be_value ?l) with (be_value l).
  transitivity (be_value (ipv4_octets ip)); [by rewrite <- Hx|].
  by apply (be_value_be_bytes_u 4 32).
Qed.

Lemma parse_xor_mapped_v6 transaction ip port :
  length transaction = 12%nat -> is_u 128 ip -> is_u 16 port ->
  parse_address XOR_MAPPED_ADDRESS (xor_mapped_value transaction (SockV6 ip port 0 0)) transaction
  = Some (SockV6 ip port 0 0).
Proof.
  intros Ht Hip Hp. unfold parse_address, xor_mapped_value. cbn [sock_port].
  pose proof (xor_port port Hp) as Hport.
  assert (Hm : length (be_bytes 4 MAGIC_COOKIE ++ transaction) = 16%nat)
    by (rewrite length_app, Ht; done).
  assert (Hx : xor_bytes (xor_bytes (ipv6_octets ip) (be_bytes 4 MAGIC_COOKIE ++ transaction))
                 (be_bytes 4 MAGIC_COOKIE ++ transaction) = ipv6_octets ip)
    by (apply xor_bytes_involutive; by rewrite Hm).
  assert (Hl : length (xor_bytes (ipv6_octets ip) (be_bytes 4 MAGIC_COOKIE ++ transaction))
               = 16%nat) by (rewrite length_xor_bytes; by rewrite ?Hm).
  set (mask := be_bytes 4 MAGIC_COOKIE ++ transaction) in *.
  set (x := xor_bytes (ipv6_octets ip) mask) in *.
  set (p := be_bytes 2 _) in *. assert (Hpl : length p = 2%nat) by done.
  clearbody x p mask. explode p.
  rewrite !length_app, Hl. cbn [length Nat.add Nat.ltb Nat.leb Z.eqb andb].
  assert (Hs : slice 4 20 ([0; 2] ++ [z; z0] ++ x) = x)
    by (unfold slice; cbn; by rewrite <- Hl, firstn_all).
  rewrite Hs. change (be16 ([0; 2] ++ [z; z0] ++ x) 2) with (be_value [z; z0]).
  change (([0; 2] ++ [z; z0] ++ x) !!! 1%nat) with 2.
  change (XOR_MAPPED_ADDRESS =? XOR_MAPPED_ADDRESS) with true.
  cbn [Z.eqb Pos.eqb andb]. cbn zeta. rewrite Hport, Hx.
  by rewrite (be_value_be_bytes_u 16 128).
Qed.

(** A server's response to a request gives back the address it reports. *)
Lemma success_response_roundtrip transaction a :
  length transaction = 12%nat -> wf_address a ->
  parse_binding_response (success_response transaction a) transaction = Ok a.
Proof.
  intros Ht Ha.
  assert (Hm : mapped transaction
    (mkAttribute XOR_MAPPED_ADDRESS (xor_mapped_value transaction a) []) = Some a).
  { unfold mapped; cbn [attr_type attr_value]. destruct a as [ip port|ip port f s].
    - destruct Ha. by apply parse_xor_mapped_v4.
    - destruct Ha as (? & ? & -> & ->). by apply parse_xor_mapped_v6. }
  assert (Hl : length (xor_mapped_value transaction a) = 8%nat
               \/ length (xor_mapped_value transaction a) = 20%nat).
  { unfold xor_mapped_value. destruct a; [by left|right].
    rewrite !length_app, length_xor_bytes by (rewrite length_app, Ht; done). done. }
  set (v := xor_mapped_value transaction a) in *.
  unfold success_response. fold v. set (at_ := mkAttribute XOR_MAPPED_ADDRESS v []) in *.
  assert (Hwf : wf_attribute at_).
  { split_and!; [by_decide|..]; unfold len; cbn [attr_value attr_padding at_];
      destruct Hl as [-> | ->]; by_decide. }
  pose proof (parse_binding_response_complete transaction [] at_ [] [] a Ht) as Hc.
  cbn [map concat app] in Hc. rewrite !app_nil_r in Hc. apply Hc; try done.
  unfold len. rewrite length_attribute by done. unfold len; cbn [attr_value at_].
  destruct Hl as [-> | ->]; by_decide.
Qed.

(** ** The transaction ends

    What the client relies on: clocks do not run backwards, a timeout does not
    fire early, receiving a datagram takes some time, and only [send_to] sends.
    [clock] is the time at a state and [requests] the number of datagrams sent. *)
Class StunSocketLaws (W : Type) {Sk : StunSocket W} : Type := {
  clock : W -> Z;
  requests : W -> nat;
  tick_law w t w' : tick w = (t, w') ->
    clock w <= t <= clock w' /\ requests w' = requests w;
  send_law b a w r w' : send_to b a w = (r, w') ->
    clock w <= clock w' /\ (requests w' <= S (requests w))%nat;
  recv_law d w r w' : recv_timeout d w = (r, w') ->
    clock w <= clock w' /\ requests w' = requests w
    /\ (r = None -> clock w + d <= clock w') /\ (forall v, r = Some (Ok v) -> clock w < clock w');
  fill_law n w b w' : fill_bytes n w = (b, w') ->
    clock w <= clock w' /\ requests w' = requests w /\ length b = n
}.

Section transaction.
Context {W : Type} {Sk : StunSocket W} {Laws : StunSocketLaws W} {H : Http W}.

(** The server reported the address: a usable response to a transaction came
    from it. *)
Definition reported (server a : SocketAddr) : Prop :=
  exists transaction response d w w', length transaction = 12%nat
    /\ recv_timeout d w = (Some (Ok (response, server)), w')
    /\ usable_response server transaction response server = Some a.

Lemma usable_response_source server transaction response source a :
  usable_response server transaction response source = Some a -> source = server.
Proof.
  unfold usable_response. destruct (negb (bool_decide (source = server))) eqn:E; [done|].
  by unbool.
Qed.

Lemma await_response_ends fuel server transaction attempt_deadline invalid w :
  (Z.to_nat (attempt_deadline - clock w) < fuel)%nat -> length transaction = 12%nat ->
  exists att w', await_response fuel server transaction attempt_deadline invalid w = Some (att, w')
    /\ clock w <= clock w' /\ requests w' = requests w
    /\ match att with
       | Mapped a => reported server a
       | Broken _ => True
       | Expired _ => attempt_deadline <= clock w'
       end.
Proof.
  intros Hf Ht. revert invalid w Hf. induction fuel as [|fuel IH]; intros invalid w Hf; [lia|].
  cbn [await_response]. destruct (tick w) as [t w1] eqn:Et. apply tick_law in Et as [Hc1 Hr1].
  destruct (Z.eqb_spec (sat_sub attempt_deadline t) 0) as [Hz|Hz]; unfold sat_sub in Hz.
  { eexists _, _. split; [done|]. split_and!; lia. }
  destruct (recv_timeout _ w1) as [r w2] eqn:Er.
  pose proof (recv_law _ _ _ _ Er) as (Hc2 & Hr2 & Hn & Hs). unfold sat_sub in Hn.
  destruct r as [[[response source]|e]|].
  - specialize (Hs _ eq_refl).
    destruct (usable_response server transaction response source) as [a|] eqn:Eu.
    + eexists _, _. split; [done|]. split_and!; [lia|congruence|].
      pose proof (usable_response_source _ _ _ _ _ Eu) as ->. by eexists _, _, _, _, _.
    + destruct (IH true w2 ltac:(lia)) as (att & w' & -> & Hc3 & Hr3 & Hatt).
      exists att, w'. split_and!; [done|lia|congruence|done].
  - eexists _, _. split; [done|]. split_and!; [lia|congruence|done].
  - specialize (Hn eq_refl). eexists _, _. split; [done|]. split_and!; [lia|congruence|lia].
Qed.

(** [k] requests are enough when the deadline leaves no time for one more: the
    waits before the [i]-th request add up to [2 ^ i - 1] initial timeouts. *)
Lemma binding_attempts_ends fuel server transaction deadline start i k last_error w :
  (Z.to_nat (deadline - clock w) < fuel)%nat -> length transaction = 12%nat ->
  (k <= 60)%nat -> deadline - start <= INITIAL_RETRANSMISSION_TIMEOUT * (2 ^ Z.of_nat k - 1) ->
  deadline <= clock w
  \/ (i <= k)%nat /\ start + INITIAL_RETRANSMISSION_TIMEOUT * (2 ^ Z.of_nat i - 1) <= clock w ->
  exists r w', binding_attempts fuel server transaction deadline
      (INITIAL_RETRANSMISSION_TIMEOUT * 2 ^ Z.of_nat i) last_error w = Some (r, w')
    /\ (requests w' <= requests w + (k - i))%nat
    /\ match r with Ok a => reported server a | Err _ => True end.
Proof.
  intros Hf Ht Hk Hd. revert i last_error w Hf.
  induction fuel as [|fuel IH]; intros i last_error w Hf Hi; [lia|].
  cbn [binding_attempts]. destruct (tick w) as [t w1] eqn:Et. apply tick_law in Et as [Hc1 Hr1].
  destruct (Z.eqb_spec (sat_sub deadline t) 0) as [Hz|Hz]; unfold sat_sub in Hz |- *.
  { eexists _, _. split_and!; [done|lia|done]. }
  destruct Hi as [Hi|[Hik Hi]]; [lia|].
  assert (Hlt : 2 ^ Z.of_nat i < 2 ^ Z.of_nat k) by (unfold INITIAL_RETRANSMISSION_TIMEOUT in *; lia).
  assert (i < k)%nat as Hik' by (apply Z.pow_lt_mono_r_iff in Hlt; lia).
  destruct (send_to _ server w1) as [[n|e] w2] eqn:Es;
    apply send_law in Es as [Hc2 Hr2]; [|eexists _, _; split_and!; [done|lia|done]].
  destruct (tick w2) as [t2 w3] eqn:Et2. apply tick_law in Et2 as [Hc3 Hr3].
  set (rt := INITIAL_RETRANSMISSION_TIMEOUT * 2 ^ Z.of_nat i) in *.
  assert (Hrt : 0 < rt).
  { unfold rt, INITIAL_RETRANSMISSION_TIMEOUT. pose proof (Z.pow_pos_nonneg 2 (Z.of_nat i)). lia. }
  destruct (await_response_ends (S fuel) server transaction
    (t2 + Z.min rt (Z.max 0 (deadline - t))) false w3 ltac:(lia) Ht)
    as (att & w4 & -> & Hc4 & Hr4 & Hatt).
  destruct att as [a|e|e]; [eexists _, _; split_and!; [done|lia|done]..|].
  assert (Hrt2 : Z.min (rt * 2) DURATION_MAX = INITIAL_RETRANSMISSION_TIMEOUT * 2 ^ Z.of_nat (S i)).
  { unfold rt. rewrite Nat2Z.inj_succ, Z.pow_succ_r by lia. apply Z.min_case_strong; [lia|].
    assert (2 ^ Z.of_nat i <= 2 ^ 59) by (apply Z.pow_le_mono_r; lia).
    unfold DURATION_MAX, INITIAL_RETRANSMISSION_TIMEOUT. lia. }
  rewrite Hrt2. destruct (IH (S i) e w4 ltac:(lia)) as (r & w' & -> & Hr & Hrep).
  - destruct (Z.le_gt_cases rt (deadline - t)); [right|left; lia].
    split; [lia|]. rewrite Nat2Z.inj_succ, Z.pow_succ_r by lia. unfold rt in *. lia.
  - exists r, w'. split_and!; [done|lia|done].
Qed.

(** a transaction with a server ends, whatever the network does: by the
    deadline the client stops receiving, after at most [k] requests when [k]
    retransmission intervals cover the timeout; and an address it returns was
    reported by that server in answer to this transaction. *)
Theorem binding_address_bounded fuel request_timeout server k w :
  0 <= request_timeout -> (Z.to_nat request_timeout < fuel)%nat -> (k <= 60)%nat ->
  request_timeout <= INITIAL_RETRANSMISSION_TIMEOUT * (2 ^ Z.of_nat k - 1) ->
  exists r w', binding_address fuel request_timeout server w = Some (r, w')
    /\ (requests w' <= requests w + k)%nat
    /\ match r with Ok a => reported server a | Err _ => True end.
Proof.
  intros HT Hf Hk Hd. unfold binding_address.
  destruct (fill_bytes 12 w) as [transaction w1] eqn:Ef. apply fill_law in Ef as (Hc1 & Hr1 & Ht).
  destruct (tick w1) as [t w2] eqn:Et. apply tick_law in Et as [Hc2 Hr2].
  destruct (binding_attempts_ends fuel server transaction (t + request_timeout) t 0 k StunTimeout w2)
    as (r & w' & E & Hr & Hrep); [lia|done|done|lia|right; cbn; lia|].
  exists r, w'. rewrite Nat.sub_0_r in Hr. split_and!; [exact E|lia|done].
Qed.

(** A mapped address some configured endpoint reported *)
Definition reported_by (servers : list bytes) (a : SocketAddr) : Prop :=
  exists endpoint host port ip, endpoint ∈ servers /\ split_server endpoint = Ok (host, port)
    /\ reported (socket_addr_new ip port) a.

(** Every timeout up to [Duration::MAX] is covered by 60 intervals. *)
Lemma intervals_cover request_timeout :
  request_timeout <= 10 ^ 26 ->
  request_timeout <= INITIAL_RETRANSMISSION_TIMEOUT * (2 ^ Z.of_nat 60 - 1).
Proof. unfold INITIAL_RETRANSMISSION_TIMEOUT. lia. Qed.

Lemma binding_address_returns fuel request_timeout server w :
  0 <= request_timeout <= 10 ^ 26 -> (Z.to_nat request_timeout < fuel)%nat ->
  exists r w', binding_address fuel request_timeout server w = Some (r, w')
    /\ match r with Ok a => reported server a | Err _ => True end.
Proof.
  intros HT Hf. unfold binding_address.
  destruct (fill_bytes 12 w) as [transaction w1] eqn:Ef. apply fill_law in Ef as (Hc1 & Hr1 & Ht).
  destruct (tick w1) as [t w2] eqn:Et. apply tick_law in Et as [Hc2 Hr2].
  pose proof (intervals_cover request_timeout ltac:(lia)).
  destruct (binding_attempts_ends fuel server transaction (t + request_timeout) t 0 60 StunTimeout w2)
    as (r & w' & E & _ & Hrep); [lia|done|done|lia|right; cbn; lia|]. by exists r, w'.
Qed.

Lemma bind_addresses_returns fuel request_timeout addresses results err w (P : SocketAddr -> Prop) :
  0 <= request_timeout <= 10 ^ 26 -> (Z.to_nat request_timeout < fuel)%nat ->
  (forall server a, server ∈ addresses -> reported server a -> P a) ->
  NoDup results -> Forall P results ->
  exists out e w', bind_addresses fuel request_timeout addresses results err w = Some (out, e, w')
    /\ NoDup out /\ Forall P out.
Proof.
  intros HT Hf HP. revert results err w.
  induction addresses as [|server addresses IH]; intros results err w Hn HR; cbn [bind_addresses].
  { by eexists _, _, _. }
  destruct (binding_address_returns fuel request_timeout server w HT Hf) as (r & w' & -> & Hr).
  assert (HP' : forall s a, s ∈ addresses -> reported s a -> P a) by (intros; eapply HP; set_solver).
  destruct r as [a|e]; [|by apply IH].
  apply IH; [done|..]; case_bool_decide; try done.
  - apply NoDup_app. split_and!; [done|set_solver|apply NoDup_singleton].
  - apply Forall_app. split; [done|]. apply Forall_singleton. eapply HP; [|exact Hr]. set_solver.
Qed.

Lemma bind_servers_returns fuel config servers results err w :
  0 <= stun_timeout config <= 10 ^ 26 -> (Z.to_nat (stun_timeout config) < fuel)%nat ->
  (forall s, s ∈ servers -> s ∈ stun_endpoints config) ->
  NoDup results -> Forall (reported_by (stun_endpoints config)) results ->
  exists out e w', bind_servers fuel config servers results err w = Some (out, e, w')
    /\ NoDup out /\ Forall (reported_by (stun_endpoints config)) out.
Proof.
  intros HT Hf. revert results err w.
  induction servers as [|s servers IH]; intros results err w Hin Hn HR; cbn [bind_servers].
  { by eexists _, _, _. }
  assert (Hin' : forall x, x ∈ servers -> x ∈ stun_endpoints config) by set_solver.
  destruct (split_server s) as [[host port]|e] eqn:Es; [|by apply IH].
  destruct (resolve host (stun_doh config) w) as [[ips|e] w1]; [|by apply IH].
  destruct (bind_addresses_returns fuel (stun_timeout config)
    (map (fun a => socket_addr_new a port) ips) results None w1
    (reported_by (stun_endpoints config))) as (out & e & w2 & -> & Hn2 & HR2); [done..| | | |].
  - intros server a Hs Ha. apply list_elem_of_fmap in Hs as (ip & -> & _).
    exists s, host, port, ip. split_and!; [set_solver|done|done].
  - done.
  - done.
  - by apply IH.
Qed.


End transaction.

(** A network that loses the first request: the client retransmits and the
    answer to the second request comes back 20 ms later. *)
Record SampleNet : Type := mkSampleNet { sn_time : Z; sn_sent : nat; sn_last : bytes }.

Definition sample_server : SocketAddr := SockV4 (be_value [192; 0; 2; 1]) 3478.
Definition sample_mapped : SocketAddr := SockV4 (be_value [203; 0; 113; 7]) 4567.

#[local] Instance sample_socket : StunSocket SampleNet := {|
  tick w := (sn_time w, w);
  send_to b _ w := (Ok (len b), mkSampleNet (sn_time w + 1000) (S (sn_sent w)) (drop 8 b));
  recv_timeout d w :=
    if (sn_sent w <? 2)%nat || (d <? 0)
    then (None, mkSampleNet (sn_time w + Z.max 0 d) (sn_sent w) (sn_last w))
    else (Some (Ok (success_response (sn_last w) sample_mapped, sample_server)),
          mkSampleNet (sn_time w + 20 * 10 ^ 6) (sn_sent w) (sn_last w));
  fill_bytes n w := (replicate n 7, w)
|}.

#[local] Instance sample_laws : StunSocketLaws SampleNet.
Proof.
  refine {| clock := sn_time; requests := sn_sent |}.
  - intros w t w' [= <- <-]. lia.
  - intros b a w r w' [= <- <-]. cbn. lia.
  - intros d w r w' E. cbn in E. destruct (_ || _) eqn:?; injection E as <- <-; cbn.
    + split_and!; [lia|done|lia|done].
    + split_and!; [lia|done|done|lia].
  - intros n w b w' [= <- <-]. rewrite length_replicate. lia.
Defined.

#[local] Instance sample_stun_http : Http SampleNet := {|
  Client := unit;
  url_parse s := Err [];
  url_show u := [];
  client_build _ := Ok tt;
  http_get _ u w := (Err [], w);
  json_parse _ := Err InvalidLength;
  show_de_error _ := []
|}.

Definition sample_stun_config : StunConfig :=
  mkStunConfig [str "stun.invalid"; str "192.0.2.1:3478"] default_servers (3 * 10 ^ 9).

(** The second endpoint answers after a retransmission. *)
Example sample_survey :
  rmap id (default (Err StunTimeout)
    (fst <$> binding 3 sample_stun_config (mkSampleNet 0 0 []))) = Ok [sample_mapped].
Proof. vm_compute. reflexivity. Qed.

(** With the default timeout of three seconds at most three requests are sent. *)
Lemma binding_address_bounded_witness :
  exists r w', binding_address (Z.to_nat (4 * 10 ^ 9)) (stun_timeout StunConfig_default)
      sample_server (mkSampleNet 0 0 []) = Some (r, w')
    /\ (requests w' <= requests (mkSampleNet 0 0 []) + 3)%nat
    /\ match r with Ok a => reported sample_server a | Err _ => True end.
Proof.
  apply (binding_address_bounded (Z.to_nat (4 * 10 ^ 9)) (stun_timeout StunConfig_default)
    sample_server 3 (mkSampleNet 0 0 [])).
  - cbn. lia.
  - apply Z2Nat.inj_lt; cbn; lia.
  - lia.
  - by_decide.
Defined.


Lemma parse_binding_response_exact_witness :
  exists attrs a post trailing,
    let body := concat (map encode_attribute attrs) ++ encode_attribute a ++ post in
    success_response (replicate 12 7) sample_mapped
      = response_header (replicate 12 7) (len body) ++ body ++ trailing
    /\ len body <= U16_MAX /\ Forall wf_attribute attrs /\ wf_attribute a
    /\ Forall (fun x => mapped (replicate 12 7) x = None) attrs
    /\ mapped (replicate 12 7) a = Some sample_mapped.
Proof.
  apply (parse_binding_response_exact (success_response (replicate 12 7) sample_mapped)).
  - by_decide.
  - reflexivity.
  - reflexivity.
Defined.
