(* ===== verification/Admin.v ===== *)
(** * The administration API of the coordinator

    [vela-coord/src/admin.rs]: the administrator's credentials and sessions
    ([AdminAuth]), the validation of the network configuration, the views of
    peers and invites, and the handler of every route of [router] except the
    static page.  The server state behind it is that of [Coord].  Password hashing
    is the class [PasswordOps]; random tokens are arguments, and a handler reads
    the clock once.  A handler that panics (an id that [hex_decode] slices off a
    character boundary) answers [Aborted]. *)
From S2P Require Import Prelude Net Encoding Wire NodeId Snapshot SignedBytes Crypto Control.
From S2P Require Import CoordDb Coord CoordInv Text Dns Stun.

Definition ADMIN_USERNAME : bytes := str "admin".
Definition SESSION_TTL_SECONDS : Z := 24 * 60 * 60.

(** Argon2: [hash_password salt password] is the encoded hash,
    [PasswordHash_new] whether a hash parses, and [verify_password password hash]
    whether the password is the right one. *)
Class PasswordOps : Type := {
  hash_password : bytes -> bytes -> option bytes;
  PasswordHash_new : bytes -> bool;
  verify_password : bytes -> bytes -> bool
}.

(** A hash parses and verifies the password it was made from. *)
Class PasswordLaws (P : PasswordOps) : Prop := {
  hash_verifies salt password h :
    hash_password salt password = Some h ->
    PasswordHash_new h = true /\ verify_password password h = true
}.

Record CredentialsFile : Type := mkCredentials { cf_username : bytes; cf_password_hash : bytes }.

Record AdminAuth : Type := mkAuth {
  au_username : bytes;
  au_password_hash : bytes;
  au_sessions : gmap bytes Z
}.

(** The request headers the handlers read. *)
Record Headers : Type := mkHeaders {
  authorization : option bytes;
  x_vela_download_token : option bytes
}.

(** [HeaderValue::to_str]: visible ASCII characters and tabs *)
Definition header_to_str (v : bytes) : option bytes :=
  if forallb (fun c => ((32 <=? c) && (c <? 127)) || (c =? 9)) v then Some v else None.

(** ** Sessions *)

Definition bearer_token (h : Headers) : option bytes :=
  v ← authorization h; s ← header_to_str v; strip_prefix (str "Bearer ") s.

Section sessions.
Context {P : PasswordOps}.

(** The file of the credentials: absent, unreadable as JSON, or the credentials *)
Abbreviation Store := (option (option CredentialsFile)).

Definition load_or_create (password salt : bytes) : handler Store CoordError (AdminAuth * option bytes) :=
  fun file =>
    match file with
    | Some None => (Err AdminCredentials, file)
    | Some (Some f) =>
        if negb (PasswordHash_new (cf_password_hash f)) then (Err AdminCredentials, file)
        else (Ok (mkAuth (cf_username f) (cf_password_hash f) ∅, None), file)
    | None =>
        match hash_password salt password with
        | None => (Err AdminCredentials, file)
        | Some h =>
            (Ok (mkAuth ADMIN_USERNAME h ∅, Some password),
             Some (Some (mkCredentials ADMIN_USERNAME h)))
        end
    end.

Definition reset_password (password : option bytes) (fresh salt : bytes)
    : handler Store CoordError bytes :=
  fun file =>
    let username :=
      match file with
      | Some (Some f) => if bool_decide (cf_username f = []) then ADMIN_USERNAME else cf_username f
      | _ => ADMIN_USERNAME
      end in
    let password := default fresh password in
    if (length password <? 8)%nat then (Err AdminCredentials, file)
    else
      match hash_password salt password with
      | None => (Err AdminCredentials, file)
      | Some h => (Ok password, Some (Some (mkCredentials username h)))
      end.

(** [AdminAuth::login]: the token and its expiry *)
Definition auth_login (username password token : bytes) (now : Z) (a : AdminAuth)
    : option (bytes * Z) * AdminAuth :=
  if negb (bool_decide (username = au_username a)) then (None, a)
  else if negb (PasswordHash_new (au_password_hash a)) then (None, a)
  else if negb (verify_password password (au_password_hash a)) then (None, a)
  else
    let expires_at := sat_add64 now SESSION_TTL_SECONDS in
    (Some (token, expires_at),
     mkAuth (au_username a) (au_password_hash a)
       (<[token := expires_at]> (filter (fun kv => now < kv.2) (au_sessions a)))).

Definition authorize (h : Headers) (now : Z) (a : AdminAuth) : option Z * AdminAuth :=
  match bearer_token h with
  | None => (None, a)
  | Some token =>
      match au_sessions a !! token with
      | None => (None, a)
      | Some expires_at =>
          if expires_at <=? now
          then (None, mkAuth (au_username a) (au_password_hash a) (delete token (au_sessions a)))
          else (Some expires_at, a)
      end
  end.

Definition auth_logout (h : Headers) (a : AdminAuth) : AdminAuth :=
  match bearer_token h with
  | None => a
  | Some token => mkAuth (au_username a) (au_password_hash a) (delete token (au_sessions a))
  end.

End sessions.

(** ** The network configuration *)

Definition valid_stun_endpoint (value : bytes) : bool :=
  let parts :=
    match strip_prefix (str "[") value with
    | Some value => split_once (str "]:") value
    | None =>
        match rsplit_once 58 value with
        | Some (host, port) => if contains_byte 58 host then None else Some (host, port)
        | None => None
        end
    end in
  match parts with
  | Some (host, port) =>
      negb (bool_decide (host = []))
      && match parse_u16 port with Some p => negb (p =? 0) | None => false end
  | None => false
  end.

Definition trim_servers (l : list bytes) : list bytes :=
  filter (fun s => s <> []) (map trim l).

Section config.
Context {W : Type} {Hp : Http W}.

Fixpoint check_doh (servers : list bytes) : result unit bytes :=
  match servers with
  | [] => Ok tt
  | server :: servers' =>
      let? endpoint :=
        rmap_err (fun _ => str "invalid DoH endpoint: " ++ server) (url_parse server) in
      if negb (bool_decide (scheme endpoint = str "https")) || bool_decide (host_str endpoint = None)
      then Err (str "DoH endpoint must be an https URL: " ++ server)
      else if (2048 <? length server)%nat then Err (str "DoH endpoint is too long")
      else check_doh servers'
  end.

Fixpoint check_stun (servers : list bytes) : result unit bytes :=
  match servers with
  | [] => Ok tt
  | server :: servers' =>
      if (256 <? length server)%nat || negb (valid_stun_endpoint server)
      then Err (str "invalid STUN endpoint: " ++ server)
      else check_stun servers'
  end.

Definition validate_network_config (doh stun : list bytes)
    : result (list bytes * list bytes) bytes :=
  let doh_servers := trim_servers doh in
  if bool_decide (doh_servers = []) then Err (str "at least one DoH endpoint is required")
  else if (8 <? length doh_servers)%nat then Err (str "at most 8 DoH endpoints are allowed")
  else
    let? _ := check_doh doh_servers in
    let stun_servers := trim_servers stun in
    if (16 <? length stun_servers)%nat then Err (str "at most 16 STUN endpoints are allowed")
    else
      let? _ := check_stun stun_servers in
      Ok (doh_servers, stun_servers).

End config.

(** ** Views *)

Inductive PeerStatus : Type := st_revoked | st_online | st_offline.
Inductive InviteStatus : Type := iv_revoked | iv_used | iv_expired | iv_pending.

#[export] Instance PeerStatus_eq_dec : EqDecision PeerStatus.
Proof. solve_decision. Defined.
#[export] Instance InviteStatus_eq_dec : EqDecision InviteStatus.
Proof. solve_decision. Defined.

Record PeerView : Type := mkPeerView {
  pv_node_id : bytes;
  pv_name : bytes;
  pv_notes : bytes;
  pv_status : PeerStatus;
  pv_candidates : list Candidate;
  pv_virtual_ipv4 : option Z;
  pv_virtual_ipv6 : option Z;
  pv_capabilities : list PeerCapability;
  pv_last_seen : option Z;
  pv_credential_expires_at : option Z;
  pv_mtu : option Z
}.

Record InviteView : Type := mkInviteView {
  iv_id : bytes;
  iv_name : bytes;
  iv_notes : bytes;
  iv_created_at : Z;
  iv_expires_at : Z;
  iv_status : InviteStatus
}.

(** [sessions.values().map(|status| status.virtual_mtu).min()] *)
Definition min_value (m : gmap Z Z) : option Z :=
  match map snd (map_to_list m) with
  | [] => None
  | x :: l => Some (fold_left Z.min l x)
  end.

Definition peer_view `{TextOps} (s : CoordState) (id : bytes) (r : PeerRow) : PeerView :=
  {| pv_node_id := NodeId_display id;
     pv_name := row_name r;
     pv_notes := row_notes r;
     pv_status := if row_revoked r then st_revoked
                  else if bool_decide (id ∈ dom (cs_online s)) then st_online else st_offline;
     pv_candidates := row_candidates r;
     pv_virtual_ipv4 := row_virtual_ipv4 r;
     pv_virtual_ipv6 := row_virtual_ipv6 r;
     pv_capabilities := row_capabilities r;
     pv_last_seen := if 0 <? row_last_seen r then Some (row_last_seen r) else None;
     pv_credential_expires_at := cred_expires_at <$> parse_credential (row_credential r);
     pv_mtu := cs_runtime s !! id ≫= min_value |}.

(** [ORDER BY name, node_id] *)
Definition row_le (a b : bytes * PeerRow) : Prop :=
  bytes_ltb (row_name a.2) (row_name b.2) = true
  \/ row_name a.2 = row_name b.2 /\ bytes_le a.1 b.1.

#[export] Instance row_le_dec a b : Decision (row_le a b).
Proof. unfold row_le; apply _. Defined.

(** Every row has an id of 32 bytes and address blobs of their sizes, so the
    conversions of the source do not fail on a table the server wrote. *)
Definition admin_peers `{TextOps} (s : CoordState) : list PeerView :=
  map (fun kv => peer_view s kv.1 kv.2) (merge_sort row_le (map_to_list (cs_peers s))).

Definition invite_status (r : InviteRow) (now : Z) : InviteStatus :=
  if inv_revoked r then iv_revoked
  else if inv_used r then iv_used
  else if inv_expires_at r <=? wrap_signed 64 now then iv_expired
  else iv_pending.

Definition invite_view (now : Z) (r : InviteRow) : InviteView :=
  {| iv_id := inv_id r;
     iv_name := inv_name r;
     iv_notes := inv_notes r;
     iv_created_at := wrap 64 (Z.max (inv_created_at r) 0);
     iv_expires_at := wrap 64 (Z.max (inv_expires_at r) 0);
     iv_status := invite_status r now |}.

(** [ORDER BY created_at DESC] *)
Definition newer (a b : InviteRow) : Prop := inv_created_at b <= inv_created_at a.

#[export] Instance newer_dec a b : Decision (newer a b).
Proof. unfold newer; apply _. Defined.

Definition admin_invites (s : CoordState) (now : Z) : list InviteView :=
  map (invite_view now) (merge_sort newer (map snd (map_to_list (cs_invites s)))).

(** ** Requests and responses *)

Inductive AdminRequest : Type :=
| ReqLogin (username password : bytes)
| ReqLogout (h : Headers)
| ReqMe (h : Headers)
| ReqConfig (h : Headers)
| ReqUpdateConfig (h : Headers) (doh stun : list bytes)
| ReqListPeers (h : Headers)
| ReqUpdatePeer (h : Headers) (node_id name notes : bytes)
| ReqRevokePeer (h : Headers) (node_id : bytes)
| ReqDeletePeer (h : Headers) (node_id : bytes)
| ReqListInvites (h : Headers)
| ReqCreateInvite (h : Headers) (name notes : bytes) (ttl_seconds : Z)
| ReqDeleteInvite (h : Headers) (id : bytes)
| ReqDownload (h : Headers).

Inductive AdminResponse : Type :=
| Failed (status : Z) (why : bytes)
| NoContent
| RspLogin (token : bytes) (expires_at : Z) (username : bytes)
| RspUser (username : bytes)
| RspConfig (tenant server_key : bytes) (session_ttl : Z) (doh stun : list bytes)
| RspPeers (l : list PeerView)
| RspPeer (p : PeerView)
| RspDone
| RspInvites (l : list InviteView)
| RspInvite (id token download name notes : bytes) (created_at expires_at : Z)
| RspExecutable
| Aborted.

Record AdminState : Type := mkAdmin { ad_auth : AdminAuth; ad_server : CoordState }.

Definition unauthorized : AdminResponse := Failed 401 (str "authentication required").
Definition internal_error : AdminResponse := Failed 500 (str "internal server error").

(** The random values drawn for a request *)
Record Fresh : Type := mkFresh { fr_session : bytes; fr_id : bytes; fr_token : bytes; fr_download : bytes }.

Section handlers.
Context {HH : Hash} {HSg : SignatureOps} {HT : TextOps} {P : PasswordOps} {W : Type} {Hp : Http W}.
Context (tenant signer : bytes).

Definition config_response (s : CoordState) : AdminResponse :=
  RspConfig tenant (b64_encode (ServerSigner_public signer)) SESSION_TTL_SECONDS
    (cs_doh s) (cs_stun s).

(** The handlers behind [require_admin], on the server state *)

Definition update_config_handler (doh stun : list bytes) (s : CoordState)
    : AdminResponse * CoordState :=
  match validate_network_config doh stun with
  | Err why => (Failed 400 why, s)
  | Ok (doh, stun) =>
      match update_network_config doh stun s with
      | (Ok _, s') => (config_response s', s')
      | (Err _, s') => (internal_error, s')
      end
  end.

Definition update_peer_handler (node_id name notes : bytes) (s : CoordState)
    : AdminResponse * CoordState :=
  if (200 <? length name)%nat || (2000 <? length notes)%nat
  then (Failed 400 (str "name or notes is too long"), s)
  else
    match NodeId_from_str node_id with
    | None => (Aborted, s)
    | Some (Err _) => (Failed 400 (str "invalid node id"), s)
    | Some (Ok id) =>
        let '(changed, t) := update_peer_metadata (cs_peers s) id name notes in
        let s' := set_peers t s in
        if changed then
          (match list_find (fun v => pv_node_id v = NodeId_display id) (admin_peers s') with
           | Some (_, v) => RspPeer v
           | None => Failed 404 (str "peer not found")
           end, s')
        else (Failed 404 (str "peer not found"), s')
    end.

Definition removal_handler (remove : bytes -> handler CoordState CoordError bool)
    (node_id : bytes) (s : CoordState) : AdminResponse * CoordState :=
  match NodeId_from_str node_id with
  | None => (Aborted, s)
  | Some (Err _) => (Failed 400 (str "invalid node id"), s)
  | Some (Ok id) =>
      match remove id s with
      | (Ok true, s') => (RspDone, s')
      | (Ok false, s') => (Failed 404 (str "peer not found"), s')
      | (Err _, s') => (internal_error, s')
      end
  end.

Definition create_invite_handler (fr : Fresh) (name notes : bytes) (ttl now : Z) (s : CoordState)
    : AdminResponse * CoordState :=
  if (200 <? length name)%nat || (2000 <? length notes)%nat
  then (Failed 400 (str "name or notes is too long"), s)
  else if (ttl =? 0) || (30 * 24 * 60 * 60 <? ttl)
  then (Failed 400 (str "ttl_seconds must be between 1 and 2592000"), s)
  else
    match create_invite (fr_id fr) (fr_token fr) (fr_download fr) name notes ttl now s with
    | (Ok expires, s') =>
        (RspInvite (fr_id fr) (fr_token fr) (fr_download fr) name notes now expires, s')
    | (Err _, s') => (internal_error, s')
    end.

Definition delete_invite_handler (id : bytes) (s : CoordState) : AdminResponse * CoordState :=
  match delete_invite id s with
  | (Ok true, s') => (RspDone, s')
  | (Ok false, s') => (Failed 404 (str "invite not found"), s')
  | (Err _, s') => (internal_error, s')
  end.

(** [download_cli]: not behind [require_admin]; [readable] is whether the running
    executable can be read. *)
Definition download_handler (readable : bool) (h : Headers) (now : Z) (s : CoordState)
    : AdminResponse * CoordState :=
  match x_vela_download_token h ≫= header_to_str with
  | None => (Failed 401 (str "download token required"), s)
  | Some token =>
      match consume_download_token token now s with
      | (Ok true, s') => (if readable then RspExecutable else internal_error, s')
      | (Ok false, s') => (Failed 401 (str "invalid or expired download token"), s')
      | (Err _, s') => (internal_error, s')
      end
  end.

(** What an authenticated request does *)
Definition admin_action (fr : Fresh) (req : AdminRequest) (now : Z) (auth : AdminAuth)
    (s : CoordState) : AdminResponse * CoordState :=
  match req with
  | ReqMe _ => (RspUser (au_username auth), s)
  | ReqConfig _ => (config_response s, s)
  | ReqUpdateConfig _ doh stun => update_config_handler doh stun s
  | ReqListPeers _ => (RspPeers (admin_peers s), s)
  | ReqUpdatePeer _ id name notes => update_peer_handler id name notes s
  | ReqRevokePeer _ id => removal_handler revoke_peer_inner id s
  | ReqDeletePeer _ id => removal_handler delete_peer_inner id s
  | ReqListInvites _ => (RspInvites (admin_invites s now), s)
  | ReqCreateInvite _ name notes ttl => create_invite_handler fr name notes ttl now s
  | ReqDeleteInvite _ id => delete_invite_handler id s
  | ReqLogin _ _ | ReqLogout _ | ReqDownload _ => (Aborted, s)
  end.

(** The headers of a request that must be authenticated *)
Definition gated (req : AdminRequest) : option Headers :=
  match req with
  | ReqMe h | ReqConfig h | ReqUpdateConfig h _ _ | ReqListPeers h | ReqUpdatePeer h _ _ _
  | ReqRevokePeer h _ | ReqDeletePeer h _ | ReqListInvites h | ReqCreateInvite h _ _ _
  | ReqDeleteInvite h _ => Some h
  | ReqLogin _ _ | ReqLogout _ | ReqDownload _ => None
  end.

(** The router *)
Definition handle_admin (readable : bool) (fr : Fresh) (req : AdminRequest) (now : Z)
    (st : AdminState) : AdminResponse * AdminState :=
  match gated req with
  | Some h =>
      let '(granted, auth) := authorize h now (ad_auth st) in
      match granted with
      | None => (unauthorized, mkAdmin auth (ad_server st))
      | Some _ =>
          let '(r, s) := admin_action fr req now auth (ad_server st) in (r, mkAdmin auth s)
      end
  | None =>
      match req with
      | ReqLogin username password =>
          match auth_login username password (fr_session fr) now (ad_auth st) with
          | (Some (token, expires), auth) =>
              (RspLogin token expires (au_username auth), mkAdmin auth (ad_server st))
          | (None, auth) =>
              (Failed 401 (str "invalid username or password"), mkAdmin auth (ad_server st))
          end
      | ReqLogout h => (NoContent, mkAdmin (auth_logout h (ad_auth st)) (ad_server st))
      | ReqDownload h =>
          let '(r, s) := download_handler readable h now (ad_server st) in
          (r, mkAdmin (ad_auth st) s)
      | _ => (Aborted, st)
      end
  end.

End handlers.

(** ** Only a logged-in administrator *)

Record AdminEvent : Type := mkEvent {
  ev_now : Z;
  ev_fresh : Fresh;
  ev_readable : bool;
  ev_req : AdminRequest
}.

Section gate.
Context {HH : Hash} {HSg : SignatureOps} {HT : TextOps} {P : PasswordOps} {W : Type} {Hp : Http W}.
Context (tenant signer : bytes).

Definition serve (e : AdminEvent) (st : AdminState) : AdminResponse * AdminState :=
  handle_admin tenant signer (ev_readable e) (ev_fresh e) (ev_req e) (ev_now e) st.

Definition serve_all (evs : list AdminEvent) (st : AdminState) : AdminState :=
  fold_left (fun st e => snd (serve e st)) evs st.

(** A login of the administrator that issued [token], with no logout since *)
Definition issued (a : AdminAuth) (evs : list AdminEvent) (token : bytes) (expires : Z) : Prop :=
  exists before login after password,
    evs = before ++ login :: after
    /\ ev_req login = ReqLogin (au_username a) password
    /\ verify_password password (au_password_hash a) = true
    /\ fr_session (ev_fresh login) = token
    /\ expires = sat_add64 (ev_now login) SESSION_TTL_SECONDS
    /\ Forall (fun e => match ev_req e with
                        | ReqLogout h => bearer_token h <> Some token
                        | _ => True
                        end) after.

Lemma issued_snoc a evs e token expires :
  issued a evs token expires ->
  (forall h, ev_req e = ReqLogout h -> bearer_token h <> Some token) ->
  issued a (evs ++ [e]) token expires.
Proof.
  intros (before & login & after & password & -> & H) He.
  exists before, login, (after ++ [e]), password. split_and!; try apply H.
  - by rewrite <- app_assoc.
  - apply Forall_app. split; [apply H|]. apply Forall_singleton.
    destruct (ev_req e); try done. by apply He.
Qed.

(** What a request does to the sessions *)
Lemma serve_auth e st :
  let a := ad_auth st in let a' := ad_auth (snd (serve e st)) in
  au_username a' = au_username a /\ au_password_hash a' = au_password_hash a
  /\ forall token expires, au_sessions a' !! token = Some expires ->
      (au_sessions a !! token = Some expires
       /\ forall h, ev_req e = ReqLogout h -> bearer_token h <> Some token)
      \/ issued a [e] token expires.
Proof.
  unfold serve, handle_admin. destruct (gated (ev_req e)) as [h|] eqn:Eg.
  - assert (Hno : forall h', ev_req e <> ReqLogout h') by (intros h' E; by rewrite E in Eg).
    unfold authorize. destruct (bearer_token h) as [tok|].
    2:{ cbn. split_and!; [done..|]. intros token expires E. left. split; [done|].
        intros h' E'. by apply Hno in E'. }
    destruct (au_sessions (ad_auth st) !! tok) as [x|]; [destruct (x <=? ev_now e)|].
    + cbn. split_and!; [done..|]. intros token expires [_ E]%lookup_delete_Some.
      left. split; [done|]. intros h' E'. by apply Hno in E'.
    + destruct (admin_action _ _ _ _ _ _ _) as [r s]. cbn. split_and!; [done..|].
      intros token expires E. left. split; [done|]. intros h' E'. by apply Hno in E'.
    + cbn. split_and!; [done..|]. intros token expires E. left. split; [done|].
      intros h' E'. by apply Hno in E'.
  - destruct (ev_req e) as [username password|h| | | | | | | | | | |h] eqn:Er; try done.
    + unfold auth_login. case_bool_decide as Eu; cbn [negb]; [|cbn; naive_solver].
      destruct (PasswordHash_new _); cbn [negb]; [|cbn; naive_solver].
      destruct (verify_password password _) eqn:Ev; cbn [negb]; [|cbn; naive_solver].
      cbn. split_and!; [done..|]. intros token expires [[<- <-]|[_ E]]%lookup_insert_Some.
      * right. exists [], e, [], password. split_and!; try done. by rewrite Er, Eu.
      * left. apply map_lookup_filter_Some in E as [E _]. naive_solver.
    + unfold auth_logout. cbn. destruct (bearer_token h) as [tok|] eqn:Eb; cbn.
      * split_and!; [done..|]. intros token expires [Hne E]%lookup_delete_Some.
        left. split; [done|]. intros h' [= <-]. rewrite Eb. congruence.
      * split_and!; [done..|]. intros token expires E. left. split; [done|].
        intros h' [= <-]. by rewrite Eb.
    + destruct (download_handler _ _ _ _). cbn. naive_solver.
Qed.

Lemma issued_auth a a' evs token expires :
  au_username a' = au_username a -> au_password_hash a' = au_password_hash a ->
  issued a' evs token expires -> issued a evs token expires.
Proof.
  intros Eu Eh (before & login & after & password & H). rewrite Eu, Eh in H.
  by exists before, login, after, password.
Qed.

Lemma sessions_issued evs st :
  au_sessions (ad_auth st) = ∅ ->
  let st' := serve_all evs st in
  au_username (ad_auth st') = au_username (ad_auth st)
  /\ au_password_hash (ad_auth st') = au_password_hash (ad_auth st)
  /\ forall token expires, au_sessions (ad_auth st') !! token = Some expires ->
      issued (ad_auth st) evs token expires.
Proof.
  intros H0. induction evs as [|e evs IH] using rev_ind; cbn.
  - split_and!; [done..|]. intros token expires E. by rewrite H0, lookup_empty in E.
  - unfold serve_all in *. rewrite fold_left_app. cbn. cbn in IH.
    set (st1 := fold_left _ evs st) in *. destruct IH as (Hu & Hh & Hs).
    destruct (serve_auth e st1) as (Hu1 & Hh1 & Hs1). split_and!; [congruence..|].
    intros token expires E. apply Hs1 in E as [[E Hl]|E].
    + apply issued_snoc; [by apply Hs|done].
    + apply (issued_auth (ad_auth st)) in E; [|done..].
      destruct E as (before & login & after & password & Ev & H).
      exists (evs ++ before), login, after, password. rewrite Ev, <- app_assoc. by split.
Qed.

(** C23: the administration API is closed to everyone else.  Whatever requests
    the server has served since it started, a protected route does anything but
    answer 401 only for a bearer token issued by an earlier login with the
    administrator's name and password, less than a day old and not logged out
    since; and the open routes change nothing on the server but the download marks
    of invites. *)
Theorem admin_gate evs e st :
  au_sessions (ad_auth st) = ∅ ->
  let st1 := serve_all evs st in
  let '(r, st2) := serve e st1 in
  match gated (ev_req e) with
  | Some h =>
      (r = unauthorized /\ ad_server st2 = ad_server st1)
      \/ exists token expires, bearer_token h = Some token
           /\ issued (ad_auth st) evs token expires /\ ev_now e < expires
  | None =>
      ad_server st2 = set_invites (cs_invites (ad_server st2)) (ad_server st1)
      /\ cs_peers (ad_server st2) = cs_peers (ad_server st1)
  end.
Proof.
  intros H0. destruct (sessions_issued evs st H0) as (_ & _ & Hs).
  cbn zeta. set (st1 := serve_all evs st) in *. unfold serve, handle_admin.
  destruct (gated (ev_req e)) as [h|] eqn:Eg.
  - unfold authorize. destruct (bearer_token h) as [token|]; [|by left].
    destruct (au_sessions (ad_auth st1) !! token) as [expires|] eqn:Et; [|by left].
    destruct (Z.leb_spec expires (ev_now e)); [by left|].
    destruct (admin_action _ _ _ _ _ _ _) as [r s]. right. exists token, expires.
    split_and!; [done|by apply Hs|done].
  - destruct (ev_req e) as [username password|h| | | | | | | | | | |h]; try done.
    + destruct (auth_login _ _ _ _ _) as [[[token expires]|] a]; by destruct (ad_server st1).
    + by destruct (ad_server st1).
    + unfold download_handler. destruct (_ ≫= _); [|by destruct (ad_server st1)].
      unfold consume_download_token. destruct (existsb _ _); by destruct (ad_server st1).
Qed.

End gate.

(** ** Requests are steps of the server *)

Section steps.
Context {HH : Hash} {HSg : SignatureOps} {HT : TextOps} {P : PasswordOps} {W : Type} {Hp : Http W}.
Context (tenant signer : bytes).

Lemma admin_action_step fr req now auth s :
  cs_generation s < 2 ^ 63 - 1 ->
  rtc (coord_step tenant signer) s (snd (admin_action tenant signer fr req now auth s)).
Proof.
  intros Hg. destruct req; cbn [admin_action snd]; try apply rtc_refl.
  - unfold update_config_handler. destruct (validate_network_config doh stun) as [[d t]|]; [|done].
    pose proof (step_config tenant signer s d t) as Hstep.
    destruct (update_network_config d t s) as [[] s']; by apply rtc_once.
  - unfold update_peer_handler. destruct (_ || _); [done|].
    destruct (NodeId_from_str node_id) as [[id|]|]; [|done..].
    pose proof (step_metadata tenant signer s id name notes) as Hstep.
    unfold update_peer_metadata in *. destruct (bool_decide _); by apply rtc_once.
  - unfold removal_handler. destruct (NodeId_from_str node_id) as [[id|]|]; [|done..].
    pose proof (step_revoke tenant signer s id Hg) as Hstep.
    destruct (revoke_peer_inner id s) as [[[]|] s']; by apply rtc_once.
  - unfold removal_handler. destruct (NodeId_from_str node_id) as [[id|]|]; [|done..].
    pose proof (step_delete tenant signer s id Hg) as Hstep.
    destruct (delete_peer_inner id s) as [[[]|] s']; by apply rtc_once.
  - unfold create_invite_handler. destruct (_ || _); [done|]. destruct (_ || _); [done|].
    pose proof (step_invite tenant signer s (fr_id fr) (fr_token fr) (fr_download fr) name notes
                  ttl_seconds now) as Hstep.
    destruct (create_invite _ _ _ _ _ _ _ _) as [[] s']; by apply rtc_once.
  - unfold delete_invite_handler. pose proof (step_delete_invite tenant signer s id) as Hstep.
    destruct (delete_invite id s) as [[[]|] s']; by apply rtc_once.
Qed.

(** what the administration API does to the server are steps of the server:
    a request of any kind, authorised or not, leaves a reachable server
    reachable, so the server's invariants (distinct addresses in the network,
    online peers registered, signed snapshots accepted) hold under
    administration. *)
Theorem admin_requests_reachable e st :
  cs_generation (ad_server st) < 2 ^ 63 - 1 ->
  reachable tenant signer (ad_server st) ->
  reachable tenant signer (ad_server (snd (serve tenant signer e st))).
Proof.
  intros Hg (s0 & Hinit & Hsteps). exists s0. split; [done|]. etransitivity; [exact Hsteps|].
  unfold serve, handle_admin. destruct (gated (ev_req e)) as [h|] eqn:Eg.
  - destruct (authorize _ _ _) as [[x|] auth]; [|apply rtc_refl].
    pose proof (admin_action_step (ev_fresh e) (ev_req e) (ev_now e) auth (ad_server st) Hg) as Hs.
    by destruct (admin_action _ _ _ _ _ _ _).
  - destruct (ev_req e) as [username password|h| | | | | | | | | | |h]; try apply rtc_refl.
    + destruct (auth_login _ _ _ _ _) as [[[]|] a]; apply rtc_refl.
    + unfold download_handler. destruct (_ ≫= _) as [token|]; [|apply rtc_refl].
      pose proof (step_download tenant signer (ad_server st) token (ev_now e)) as Hstep.
      destruct (consume_download_token _ _ _) as [[[]|] s']; by apply rtc_once.
Qed.

End steps.

(** ** A validated configuration is usable *)

(** The server accepts a STUN endpoint exactly when the client can use it. *)
Lemma valid_stun_endpoint_split value : valid_stun_endpoint value = is_ok (split_server value).
Proof.
  unfold valid_stun_endpoint, split_server.
  destruct (strip_prefix (str "[") value) as [v|].
  - destruct (split_once (str "]:") v) as [[host port]|]; [|done]. cbn.
    case_bool_decide; [done|]. cbn. destruct (parse_u16 port) as [p|]; [|done]. cbn.
    by destruct (p =? 0).
  - destruct (rsplit_once 58 value) as [[host port]|]; [|done]. cbn.
    destruct (contains_byte 58 host); [done|]. cbn.
    case_bool_decide; [done|]. cbn. destruct (parse_u16 port) as [p|]; [|done]. cbn.
    by destruct (p =? 0).
Qed.

Section usable.
Context {W : Type} {Hp : Http W}.

Lemma check_doh_ok servers :
  check_doh servers = Ok tt <->
  Forall (fun s => exists u, url_parse s = Ok u /\ scheme u = str "https" /\ host_str u <> None
                             /\ (length s <= 2048)%nat) servers.
Proof.
  induction servers as [|s servers IH]; cbn [check_doh]; [by split|].
  rewrite Forall_cons, <- IH. clear IH.
  destruct (url_parse s) as [u|e]; cbn [rmap_err rbind];
    [|split; [by intros [=]|by intros [(u & [=] & _) _]]].
  case_bool_decide as Es; cbn [negb orb];
    [|split; [by intros [=]|by intros [(u' & [= <-] & Es' & _) _]]].
  case_bool_decide as Eh; [split; [by intros [=]|by intros [(u' & [= <-] & _ & Eh' & _) _]]|].
  destruct (Nat.ltb_spec 2048 (length s)); split.
  - by intros [=].
  - intros [(u' & [= <-] & _ & _ & Hl) _]. lia.
  - intros ->. split; [|done]. by exists u.
  - by intros [_ ?].
Qed.

Lemma check_stun_ok servers :
  check_stun servers = Ok tt <->
  Forall (fun s => (length s <= 256)%nat /\ is_ok (split_server s) = true) servers.
Proof.
  induction servers as [|s servers IH]; cbn [check_stun]; [by split|].
  rewrite Forall_cons, <- IH, <- valid_stun_endpoint_split. clear IH.
  destruct (Nat.ltb_spec 256 (length s)); cbn [orb]; [naive_solver lia|].
  destruct (valid_stun_endpoint s); cbn [negb]; naive_solver.
Qed.

(** a configuration the server accepts can be used by the clients it is sent
    to: it names between one and eight DNS-over-HTTPS servers, for each of which
    the resolver can form a request for any host and record type, and at most
    sixteen STUN servers, each of which the STUN client splits into a host and a
    port; and it is what was sent, without blanks. *)
Theorem network_config_usable doh stun doh' stun' :
  validate_network_config doh stun = Ok (doh', stun') ->
  doh' = trim_servers doh /\ stun' = trim_servers stun
  /\ (1 <= length doh' <= 8)%nat /\ (length stun' <= 16)%nat
  /\ Forall (fun s => forall host t, is_ok (endpoint s host t) = true) doh'
  /\ Forall (fun s => exists host port, split_server s = Ok (host, port)
                      /\ host <> [] /\ 1 <= port <= U16_MAX) stun'.
Proof.
  unfold validate_network_config. cbn zeta. intros E.
  destruct (bool_decide _) eqn:E1 in E; [done|]. destruct (8 <? _)%nat eqn:E2 in E; [done|].
  apply rbind_unit in E as [Hd%check_doh_ok E]. destruct (16 <? _)%nat eqn:E3 in E; [done|].
  apply rbind_unit in E as [Ht%check_stun_ok E]. injection E as <- <-. unbool.
  split_and!; try done; try lia.
  - destruct (trim_servers doh); [done|]. cbn. lia.
  - eapply Forall_impl; [exact Hd|]. intros s (u & Eu & Es & _ & _) host t.
    unfold endpoint. rewrite Eu. cbn. by rewrite bool_decide_eq_true_2.
  - eapply Forall_impl; [exact Ht|]. intros s [_ Hs].
    destruct (split_server s) as [[host port]|] eqn:Esp; [|done].
    exists host, port. split; [done|]. by eapply split_server_ok.
Qed.

End usable.

(** ** Credentials *)

Section credentials.
Context {P : PasswordOps} {PL : PasswordLaws P}.

Lemma login_with_hash salt password h username token now :
  hash_password salt password = Some h ->
  fst (auth_login username password token now (mkAuth username h ∅))
  = Some (token, sat_add64 now SESSION_TTL_SECONDS).
Proof.
  intros Hh. destruct (hash_verifies _ _ _ Hh) as [Hp Hv].
  unfold auth_login; cbn. by rewrite bool_decide_eq_true_2, Hp, Hv.
Qed.

(** a password that was set logs in: after [reset_password] the server that
    loads the credentials has no sessions, keeps the administrator's name, and
    accepts the new password; so does the server that created the credentials with
    the password it printed. *)
Theorem reset_password_login password fresh salt file new file' token now other osalt :
  reset_password password fresh salt file = (Ok new, file') ->
  exists auth, load_or_create other osalt file' = (Ok (auth, None), file')
    /\ au_sessions auth = ∅
    /\ (forall f, file = Some (Some f) -> cf_username f <> [] -> au_username auth = cf_username f)
    /\ fst (auth_login (au_username auth) new token now auth)
       = Some (token, sat_add64 now SESSION_TTL_SECONDS).
Proof.
  unfold reset_password. cbn zeta. intros E.
  destruct (_ <? 8)%nat; [done|]. destruct (hash_password _ _) as [h|] eqn:Eh; [|done].
  injection E as <- <-. destruct (hash_verifies _ _ _ Eh) as [Hn _].
  eexists. split; [cbn; by rewrite Hn|]. split_and!; [done| |].
  - intros f -> Hf. cbn. by rewrite bool_decide_eq_false_2.
  - cbn. by apply (login_with_hash salt).
Qed.

End credentials.

(** ** Invites *)

(** An invite is accepted by a registration exactly when it is shown as pending,
    and at the second it expires, when it is shown as expired. *)
Lemma invite_accepted_iff {HH : Hash} {HSg : SignatureOps} (tenant signer id sp np token : bytes) now s r :
  cs_invites s !! blake3 token = Some r ->
  is_ok (fst (register_with_invite tenant signer id sp np token now s)) = true <->
  invite_status r now = iv_pending
  \/ inv_revoked r = false /\ inv_used r = false /\ inv_expires_at r = wrap_signed 64 now.
Proof.
  intros Hr. unfold register_with_invite, invite_status. rewrite Hr.
  destruct (inv_revoked r); cbn [orb]; [naive_solver|]. destruct (inv_used r); cbn [orb]; [naive_solver|].
  destruct (Z.ltb_spec (inv_expires_at r) (wrap_signed 64 now)),
    (Z.leb_spec (inv_expires_at r) (wrap_signed 64 now)); cbn; naive_solver lia.
Qed.

(** ** A sample server *)

Definition toy_passwords : PasswordOps := {|
  hash_password salt password := Some (salt ++ password);
  PasswordHash_new _ := true;
  verify_password password h := bool_decide (drop (length h - length password) h = password)
|}.

Lemma toy_password_laws : PasswordLaws toy_passwords.
Proof.
  split. intros salt password h [= <-]. cbn. split; [done|].
  rewrite length_app. replace (_ + _ - _)%nat with (length salt) by lia.
  rewrite drop_app_length. by apply bool_decide_eq_true_2.
Qed.

Lemma reset_password_login_witness :
  exists auth, load_or_create (P := toy_passwords) [] []
      (Some (Some (mkCredentials (str "root") (str "saltcorrect horse")))) =
      (Ok (auth, None), Some (Some (mkCredentials (str "root") (str "saltcorrect horse"))))
    /\ au_sessions auth = ∅
    /\ (forall f, Some (Some (mkCredentials (str "root") (str "old"))) = Some (Some f) ->
        cf_username f <> [] -> au_username auth = cf_username f)
    /\ fst (auth_login (P := toy_passwords) (au_username auth) (str "correct horse") [1] 100 auth)
       = Some ([1], sat_add64 100 SESSION_TTL_SECONDS).
Proof.
  apply (reset_password_login (PL := toy_password_laws) (Some (str "correct horse")) [] (str "salt")
    (Some (Some (mkCredentials (str "root") (str "old")))) (str "correct horse")).
  reflexivity.
Defined.

Lemma network_config_usable_witness :
  [str "https://doh.pub"] = trim_servers [str " https://doh.pub "]
  /\ [str "[2001:db8::1]:3478"] = trim_servers [str "[2001:db8::1]:3478"; str " "]
  /\ (1 <= 1 <= 8)%nat /\ (1 <= 16)%nat
  /\ Forall (fun s => forall host t, is_ok (endpoint (H := sample_http) s host t) = true)
       [str "https://doh.pub"]
  /\ Forall (fun s => exists host port, split_server s = Ok (host, port)
                      /\ host <> [] /\ 1 <= port <= U16_MAX) [str "[2001:db8::1]:3478"].
Proof.
  apply (network_config_usable (Hp := sample_http) [str " https://doh.pub "]
    [str "[2001:db8::1]:3478"; str " "]).
  vm_compute. reflexivity.
Defined.

(** An administrator logs in and revokes a peer of the server of two nodes. *)
Definition sample_admin : AdminState :=
  mkAdmin (mkAuth ADMIN_USERNAME (str "saltcorrect horse") ∅) server_of_two.

Definition sample_login : AdminEvent :=
  mkEvent 1000 (mkFresh (str "session") [] [] []) true (ReqLogin ADMIN_USERNAME (str "correct horse")).

Definition sample_revoke : AdminEvent :=
  mkEvent 2000 (mkFresh [] [] [] []) true
    (ReqRevokePeer (mkHeaders (Some (str "Bearer session")) None) (NodeId_display (toy_node 2))).

Abbreviation toy_serve := (serve (HH := toy_hash) (HSg := toy_sig) (HT := toy_text)
  (P := toy_passwords) (Hp := sample_http) (str "tenant") [3]).
Abbreviation toy_serve_all := (serve_all (HH := toy_hash) (HSg := toy_sig) (HT := toy_text)
  (P := toy_passwords) (Hp := sample_http) (str "tenant") [3]).

(** Without the login the request is refused, with it the peer is gone. *)
Example sample_revocation :
  fst (toy_serve sample_revoke sample_admin) = unauthorized
  /\ fst (toy_serve sample_revoke (toy_serve_all [sample_login] sample_admin)) = RspDone
  /\ online_peer_ids (ad_server (toy_serve_all [sample_login; sample_revoke] sample_admin))
     = [toy_node 1].
Proof. split_and!; vm_compute; reflexivity. Qed.

Lemma admin_gate_witness :
  let st1 := toy_serve_all [sample_login] sample_admin in
  let '(r, st2) := toy_serve sample_revoke st1 in
  (r = unauthorized /\ ad_server st2 = ad_server st1)
  \/ exists token expires,
       bearer_token (mkHeaders (Some (str "Bearer session")) None) = Some token
       /\ issued (P := toy_passwords) (ad_auth sample_admin) [sample_login] token expires
       /\ 2000 < expires.
Proof.
  apply (admin_gate (HH := toy_hash) (HSg := toy_sig) (HT := toy_text) (P := toy_passwords)
    (Hp := sample_http) (str "tenant") [3] [sample_login] sample_revoke sample_admin).
  reflexivity.
Defined.

Lemma admin_requests_reachable_witness :
  reachable (HH := toy_hash) (HSg := toy_sig) (HT := toy_text) (str "tenant") [3]
    (ad_server (snd (toy_serve sample_revoke sample_admin))).
Proof.
  apply (admin_requests_reachable (HH := toy_hash) (HSg := toy_sig) (HT := toy_text)
    (P := toy_passwords) (Hp := sample_http) (str "tenant") [3] sample_revoke sample_admin).
  - by_decide.
  - apply run_reachable.
Defined.
