(* ===== verification/CoordClient.v ===== *)
(** * The coordination client

    [vela-coord-client/src/lib.rs]: connecting, registration, the requests and
    the queue of messages that arrive while a request waits ([pending]), and the
    verification of what the server says.  A connection is the list of WebSocket
    frames that have arrived and not been read ([cl_stream]) and the list of
    messages written; when no more frames arrive a request runs into its timeout,
    and the frames that arrive later stay for the next request.  JSON text and
    base64 are the classes [ControlJson] and [TextOps]. *)
From S2P Require Import Prelude Net Encoding Wire NodeId Snapshot SignedBytes Crypto Control.
From S2P Require Import CoordDb Coord CoordInv Text Dns Stun.

Inductive CoordClientError : Type :=
| Client_InvalidEndpoint
| Client_WebSocket (why : bytes)
| Client_Serialization
| Client_Protocol (e : ProtoError)
| Client_InvalidCredential
| Client_InvalidSnapshot
| ServerKeyRequired
| Client_Server (code message : bytes)
| UnexpectedMessage
| InvalidRuntimeStatus
| Client_Closed
| Client_Timeout (what : string).

(** [serde_json] on control messages *)
Class ControlJson : Type := {
  message_to_string : ControlMessage -> bytes;
  message_from_str : bytes -> option ControlMessage
}.

Class ControlJsonLaws (J : ControlJson) : Prop := {
  message_roundtrip m : message_from_str (message_to_string m) = Some m
}.

Inductive Frame : Type :=
| FrameText (text : bytes)
| FrameBinary (data : bytes)
| FramePing (payload : bytes)
| FrameClose
| FrameOther
| FrameError (why : bytes).

Inductive Written : Type :=
| WrittenText (text : bytes)
| WrittenPong (payload : bytes).

Record Client : Type := mkClient {
  cl_endpoint : bytes;
  cl_server_key : option bytes;
  cl_pending : list ControlMessage;
  cl_stream : list Frame;
  cl_written : list Written;
  cl_broken : option bytes
}.

Definition set_pending (p : list ControlMessage) (c : Client) : Client :=
  mkClient (cl_endpoint c) (cl_server_key c) p (cl_stream c) (cl_written c) (cl_broken c).
Definition set_stream (l : list Frame) (c : Client) : Client :=
  mkClient (cl_endpoint c) (cl_server_key c) (cl_pending c) l (cl_written c) (cl_broken c).

(** [writer.send(..)]: [cl_broken] is the error of a writer that fails. *)
Definition write (w : Written) (c : Client) : result unit CoordClientError * Client :=
  match cl_broken c with
  | Some why => (Err (Client_WebSocket why), c)
  | None =>
      (Ok tt, mkClient (cl_endpoint c) (cl_server_key c) (cl_pending c) (cl_stream c)
                (cl_written c ++ [w]) None)
  end.

Definition is_snapshot (m : ControlMessage) : bool :=
  match m with SnapshotMsg _ => true | _ => false end.

Record Registration : Type := mkRegistration {
  reg_credential : MembershipCredential;
  reg_peers : list PeerInfo;
  reg_snapshot : NetworkSnapshot
}.

(** What a request loop does with a message: answer, queue it with
    [enqueue_pending], push it on the queue, or drop it *)
Inductive Reply (A : Type) : Type :=
| Answer (r : result A CoordClientError)
| Enqueue
| PushBack
| Ignore.
Arguments Answer {A} r.
Arguments Enqueue {A}.
Arguments PushBack {A}.
Arguments Ignore {A}.

Definition trust_server_key (key : bytes) (c : Client) : Client :=
  mkClient (cl_endpoint c) (Some key) (cl_pending c) (cl_stream c) (cl_written c) (cl_broken c).

(** Replace the first snapshot of the queue and remove the others after it. *)
Fixpoint replace_snapshot (m : ControlMessage) (l : list ControlMessage)
    : option (list ControlMessage) :=
  match l with
  | [] => None
  | x :: l' =>
      if is_snapshot x then Some (m :: List.filter (fun y => negb (is_snapshot y)) l')
      else match replace_snapshot m l' with Some r => Some (x :: r) | None => None end
  end.

Definition enqueue (m : ControlMessage) (pending : list ControlMessage) : list ControlMessage :=
  if is_snapshot m then
    match replace_snapshot m pending with
    | Some p => p
    | None => pending ++ [m]
    end
  else pending ++ [m].

Definition enqueue_pending (m : ControlMessage) (c : Client) : Client :=
  set_pending (enqueue m (cl_pending c)) c.

Section client.
Context {HH : Hash} {HSg : SignatureOps} {HT : TextOps} {J : ControlJson}.

Abbreviation C A := (handler Client CoordClientError A).

Definition client_send (m : ControlMessage) : C unit := write (WrittenText (message_to_string m)).

(** [recv_wire]: the frames are read in order; a [Ping] message is answered.
    [Client_Timeout] stands for waiting: no more frames have arrived. *)
Fixpoint read_frames (frames : list Frame) (c : Client)
    : result ControlMessage CoordClientError * Client :=
  match frames with
  | [] => (Err (Client_Timeout "waiting"), set_stream [] c)
  | FrameText text :: rest | FrameBinary text :: rest =>
      match message_from_str text with
      | None => (Err Client_Serialization, set_stream rest c)
      | Some (Ping nonce) =>
          match client_send (Pong nonce) c with
          | (Ok _, c) => read_frames rest c
          | (Err e, c) => (Err e, set_stream rest c)
          end
      | Some m => (Ok m, set_stream rest c)
      end
  | FramePing payload :: rest =>
      match write (WrittenPong payload) c with
      | (Ok _, c) => read_frames rest c
      | (Err e, c) => (Err e, set_stream rest c)
      end
  | FrameClose :: rest => (Err Client_Closed, set_stream rest c)
  | FrameOther :: rest => read_frames rest c
  | FrameError why :: rest => (Err (Client_WebSocket why), set_stream rest c)
  end.

Definition recv_wire : C ControlMessage := fun c => read_frames (cl_stream c) c.

Definition recv : C ControlMessage := fun c =>
  match cl_pending c with
  | m :: rest => (Ok m, set_pending rest c)
  | [] => recv_wire c
  end.

(** The loop of a request.  Every message it goes on from has been read off the
    stream, so the length of the stream bounds the iterations. *)
Fixpoint await_loop {A} (fuel : nat) (step : ControlMessage -> Reply A) : C A := fun c =>
  match fuel with
  | O => (Err (Client_Timeout "waiting"), c)
  | S fuel' =>
      match recv_wire c with
      | (Err e, c) => (Err e, c)
      | (Ok m, c) =>
          match step m with
          | Answer r => (r, c)
          | Enqueue => await_loop fuel' step (enqueue_pending m c)
          | PushBack => await_loop fuel' step (set_pending (cl_pending c ++ [m]) c)
          | Ignore => await_loop fuel' step c
          end
      end
  end.

Definition await_reply {A} (step : ControlMessage -> Reply A) : C A := fun c =>
  await_loop (S (length (cl_stream c))) step c.

(** [timeout(CONTROL_REQUEST_TIMEOUT, ..)]: a request that waits for ever fails. *)
Definition request_timeout {A} (what : string) (m : C A) : C A := fun c =>
  match m c with
  | (Err (Client_Timeout _), c) => (Err (Client_Timeout what), c)
  | r => r
  end.

(** ** Verification *)

Definition verify_peer_credential (c : Client) (now : Z) (peer : PeerInfo)
    : result unit CoordClientError :=
  let? server_key := ok_or (cl_server_key c) ServerKeyRequired in
  let? cred := ok_or (parse_credential (credential peer)) Client_InvalidCredential in
  let? _ := rmap_err (fun _ => Client_InvalidCredential) (Credential_verify cred server_key now) in
  if negb (bool_decide (cred_node_id cred = node_id peer))
     || negb (bool_decide (cred_signing_public cred = signing_public peer))
     || negb (bool_decide (cred_noise_public cred = noise_public peer))
  then Err Client_InvalidCredential
  else Ok tt.

Definition verify_public_peer (c : Client) (now : Z) (peer : PublicPeerInfo)
    : result PeerInfo CoordClientError :=
  let? peer := rmap_err Client_Protocol (PeerInfo_try_from b64_decode peer) in
  let? _ := verify_peer_credential c now peer in
  Ok peer.

(** The [RegisterOk] branch *)
Definition check_registration (c : Client) (now : Z) (cred64 : bytes)
    (peers_ : list PublicPeerInfo) (snapshot : NetworkSnapshot)
    : result Registration CoordClientError :=
  let? data := ok_or (b64_decode cred64) Client_InvalidCredential in
  let? cred := ok_or (parse_credential data) Client_Serialization in
  let? server_key := ok_or (cl_server_key c) ServerKeyRequired in
  let? _ := rmap_err (fun _ => Client_InvalidSnapshot) (verify_snapshot snapshot server_key now) in
  let? _ := rmap_err Client_Protocol (validate blake3 snapshot) in
  let? _ := rmapM (verify_peer_credential c now) (peers snapshot) in
  let? _ := rmap_err (fun _ => Client_InvalidCredential) (Credential_verify cred server_key now) in
  let? verified := rmapM (verify_public_peer c now) peers_ in
  Ok (mkRegistration cred verified snapshot).

(** ** Requests *)

Definition register_message (identity : PublicIdentity) (inc : Z) (token : option bytes)
    (cred : option MembershipCredential) (candidates : list Candidate) : ControlMessage :=
  Register (pid_node_id identity) inc (b64_encode (pid_signing_public identity))
    (b64_encode (pid_noise_public identity))
    (match cred with Some v => b64_encode (json_credential v) | None => [] end)
    token candidates [CapDiagnosticPing].

Definition register_with_incarnation_inner (identity : PublicIdentity) (inc : Z)
    (token : option bytes) (cred : option MembershipCredential) (candidates : list Candidate)
    (now : Z) : C Registration :=
  let! _ := client_send (register_message identity inc token cred candidates) in
  let! m := recv in
  match m with
  | RegisterOk cred64 peers_ snapshot =>
      fun c => (check_registration c now cred64 peers_ snapshot, c)
  | ErrorMsg code message => hfail (Client_Server code message)
  | _ => hfail UnexpectedMessage
  end.

Definition register_with_incarnation identity inc token cred candidates now : C Registration :=
  request_timeout "register"
    (register_with_incarnation_inner identity inc token cred candidates now).

(** [register] draws incarnations until one is not zero. *)
Fixpoint draw_incarnation (draws : list Z) : option Z :=
  match draws with
  | [] => None
  | x :: rest => if x =? 0 then draw_incarnation rest else Some x
  end.

Definition update_candidates (candidates : list Candidate) : C unit :=
  client_send (UpdateCandidates candidates).

Definition update_runtime_status (virtual_mtu : Z) : C unit :=
  if (0 <=? virtual_mtu) && (virtual_mtu <=? U16_MAX) then client_send (RuntimeStatus virtual_mtu)
  else hfail InvalidRuntimeStatus.

Definition on_request_snapshot (m : ControlMessage) : Reply NetworkSnapshot :=
  match m with
  | SnapshotResponse s => Answer (Ok s)
  | ConnectSignal _ _ | SnapshotMsg _ => Enqueue
  | ErrorMsg code message => Answer (Err (Client_Server code message))
  | _ => Answer (Err UnexpectedMessage)
  end.

Definition request_snapshot : C NetworkSnapshot :=
  request_timeout "request snapshot"
    (let! _ := client_send RequestSnapshot in await_reply on_request_snapshot).

Definition on_update_candidates (m : ControlMessage) : Reply NetworkSnapshot :=
  match m with
  | SnapshotMsg s => Answer (Ok s)
  | ConnectSignal _ _ => PushBack
  | ErrorMsg code message => Answer (Err (Client_Server code message))
  | _ => Answer (Err UnexpectedMessage)
  end.

Definition update_candidates_and_get_snapshot (candidates : list Candidate) : C NetworkSnapshot :=
  request_timeout "update candidates"
    (let! _ := client_send (UpdateCandidates candidates) in await_reply on_update_candidates).

Definition on_lookup_peer (m : ControlMessage) : Reply PublicPeerInfo :=
  match m with
  | PeerInfoMsg peer => Answer (Ok peer)
  | ErrorMsg code message => Answer (Err (Client_Server code message))
  | ConnectSignal _ _ => Ignore
  | SnapshotMsg _ => Enqueue
  | _ => Answer (Err UnexpectedMessage)
  end.

Definition lookup_peer (id : bytes) (now : Z) : C PeerInfo :=
  request_timeout "lookup peer"
    (let! _ := client_send (LookupPeer id) in
     let! peer := await_reply on_lookup_peer in
     fun c => (verify_public_peer c now peer, c)).

Definition on_list_peers (m : ControlMessage) : Reply (list PeerSummary) :=
  match m with
  | ListPeersOk l => Answer (Ok l)
  | ErrorMsg code message => Answer (Err (Client_Server code message))
  | ConnectSignal _ _ => Ignore
  | SnapshotMsg _ => Enqueue
  | _ => Answer (Err UnexpectedMessage)
  end.

Definition client_list_peers : C (list PeerSummary) :=
  request_timeout "list peers"
    (let! _ := client_send ListPeers in await_reply on_list_peers).

(** ** Connecting *)

Inductive Outcome : Type :=
| Connected
| Refused (why : bytes)
| TimedOut.

End client.

(** The TCP connection to an address and the WebSocket handshake over it, each
    with its timeout; [show_timeout] is the text of the errors. *)
Class Transport (W : Type) : Type := {
  tcp_connect : SocketAddr -> W -> Outcome * W;
  ws_handshake : bytes -> SocketAddr -> W -> Outcome * W;
  show_timeout : string -> SocketAddr -> bytes;
  show_dns_error : DnsError -> bytes
}.

Section connecting.
Context {HH : Hash} {HSg : SignatureOps} {HT : TextOps} {J : ControlJson}.
Context {W : Type} {Hp : Http W} {Tr : Transport W}.

Definition new_client (endpoint : bytes) : Client := mkClient endpoint None [] [] [] None.

Fixpoint try_addresses (endpoint : bytes) (port : Z) (addresses : list IpAddr)
    (last_error : option bytes) (w : W) : result Client CoordClientError * W :=
  match addresses with
  | [] => (Err (Client_WebSocket (default (str "no resolved coordination address") last_error)), w)
  | address :: addresses' =>
      let address := socket_addr_new address port in
      match tcp_connect address w with
      | (Refused why, w) => try_addresses endpoint port addresses' (Some why) w
      | (TimedOut, w) =>
          try_addresses endpoint port addresses' (Some (show_timeout "TCP connection" address)) w
      | (Connected, w) =>
          match ws_handshake endpoint address w with
          | (Connected, w) => (Ok (new_client endpoint), w)
          | (Refused why, w) => try_addresses endpoint port addresses' (Some why) w
          | (TimedOut, w) =>
              try_addresses endpoint port addresses'
                (Some (show_timeout "WebSocket handshake" address)) w
          end
      end
  end.

Definition connect_with_doh (endpoint : bytes) (doh_servers : list bytes) (w : W)
    : result Client CoordClientError * W :=
  match url_parse endpoint with
  | Err _ => (Err Client_InvalidEndpoint, w)
  | Ok url =>
      if negb (bool_decide (scheme url = str "ws") || bool_decide (scheme url = str "wss"))
      then (Err Client_InvalidEndpoint, w)
      else
        match host_str url, port_or_known_default url with
        | Some host, Some port =>
            match parse_ip host with
            | Some a => try_addresses endpoint port [a] None w
            | None =>
                match resolve host doh_servers w with
                | (Ok addresses, w) => try_addresses endpoint port addresses None w
                | (Err e, w) => (Err (Client_WebSocket (show_dns_error e)), w)
                end
            end
        | _, _ => (Err Client_InvalidEndpoint, w)
        end
  end.

(** [reconnect]; [arriving] are the frames the server sends on the new
    connection. *)
Definition reconnect (identity : PublicIdentity) (inc : Z) (cred : option MembershipCredential)
    (candidates : list Candidate) (doh_servers : list bytes) (now : Z) (arriving : list Frame)
    (c : Client) (w : W) : result Registration CoordClientError * Client * W :=
  match connect_with_doh (cl_endpoint c) doh_servers w with
  | (Err e, w) => (Err e, c, w)
  | (Ok replacement, w) =>
      let replacement :=
        match cl_server_key c with
        | Some key => trust_server_key key replacement
        | None => replacement
        end in
      match register_with_incarnation identity inc None cred candidates now
              (set_stream arriving replacement) with
      | (Ok registration, replacement) => (Ok registration, replacement, w)
      | (Err e, _) => (Err e, c, w)
      end
  end.

End connecting.

(** ** The queue *)

Definition is_signal (m : ControlMessage) : bool :=
  match m with ConnectSignal _ _ => true | _ => false end.

(** Only connect signals and snapshots wait in the queue, and at most one
    snapshot. *)
Definition queue_ok (l : list ControlMessage) : Prop :=
  forallb (fun m => is_signal m || is_snapshot m) l = true
  /\ (length (List.filter is_snapshot l) <= 1)%nat.

Abbreviation signals := (List.filter is_signal).
Abbreviation snapshots := (List.filter is_snapshot).

Lemma filter_app_nil {A} (f : A -> bool) l x :
  List.filter f (l ++ [x]) = List.filter f l ++ (if f x then [x] else []).
Proof. rewrite List.filter_app. done. Qed.

Lemma replace_snapshot_spec m l :
  is_snapshot m = true -> (length (snapshots l) <= 1)%nat ->
  match replace_snapshot m l with
  | Some l' => snapshots l' = [m] /\ signals l' = signals l
               /\ (forallb (fun m => is_signal m || is_snapshot m) l = true ->
                   forallb (fun m => is_signal m || is_snapshot m) l' = true)
  | None => snapshots l = []
  end.
Proof.
  intros Hm. assert (Hms : is_signal m = false) by (by destruct m).
  induction l as [|x l IH]; intros Hl; cbn [replace_snapshot]; [done|].
  cbn [List.filter] in Hl. destruct (is_snapshot x) eqn:Ex.
  - assert (is_signal x = false) as Exs by (by destruct x).
    cbn in Hl. assert (Hnone : snapshots l = []) by (destruct (snapshots l); cbn in *; [done|lia]).
    assert (Hfl : List.filter (fun y => negb (is_snapshot y)) l = l).
    { clear -Hnone. induction l as [|y l IH]; [done|]. cbn in *.
      destruct (is_snapshot y); [done|]. cbn. by rewrite IH. }
    rewrite Hfl. cbn. rewrite Hm, Hms, Ex, Exs, Hnone. cbn.
    split_and!; [done..|]. by intros ->.
  - specialize (IH Hl). destruct (replace_snapshot m l) as [l'|]; cbn; rewrite Ex; [|done].
    destruct IH as (Hs & Hg & Hf). rewrite Hs, Hg. split_and!; [done..|].
    intros [-> H]%andb_true_iff. by rewrite Hf.
Qed.

Lemma enqueue_spec m l :
  queue_ok l -> is_signal m || is_snapshot m = true ->
  queue_ok (enqueue m l)
  /\ signals (enqueue m l) = signals l ++ signals [m]
  /\ snapshots (enqueue m l) = if is_snapshot m then [m] else snapshots l.
Proof.
  intros [Hf Hl] Hm. unfold enqueue, queue_ok. destruct (is_snapshot m) eqn:Em.
  - assert (Hms : is_signal m = false) by (by destruct m).
    pose proof (replace_snapshot_spec m l Em Hl) as Hr. cbn. rewrite Hms.
    destruct (replace_snapshot m l) as [l'|].
    + destruct Hr as (Hs & Hg & Hok). rewrite Hs, Hg, app_nil_r. split_and!; auto.
    + rewrite !filter_app_nil, forallb_app, Hr, Em, Hms, Hf. cbn. rewrite Em, app_nil_r.
      by split_and!; [rewrite orb_true_r| | |].
  - rewrite orb_false_r in Hm.
    rewrite !filter_app_nil, forallb_app, Hf, Em, Hm, app_nil_r. cbn. rewrite Hm. by split_and!.
Qed.

Section requests.
Context {HH : Hash} {HSg : SignatureOps} {HT : TextOps} {J : ControlJson}.

Lemma write_frame w c r c' :
  write w c = (r, c') ->
  cl_pending c' = cl_pending c /\ cl_stream c' = cl_stream c /\ cl_server_key c' = cl_server_key c.
Proof. unfold write. destruct (cl_broken c); intros [= <- <-]; done. Qed.

(** Reading does not touch the queue, and a message read is off the stream. *)
Lemma read_frames_spec frames c r c' :
  read_frames frames c = (r, c') ->
  cl_pending c' = cl_pending c /\ cl_server_key c' = cl_server_key c
  /\ (is_ok r = true -> (length (cl_stream c') < length frames)%nat).
Proof.
  revert c; induction frames as [|f frames IH]; intros c E; cbn [read_frames] in E.
  { injection E as <- <-. done. }
  destruct f as [text|text|payload| | |why].
  3:{ destruct (write _ c) as [[[]|e] c1] eqn:Ew; apply write_frame in Ew as (Hp & Hs & Hk).
      - apply IH in E as (-> & -> & Hl). split_and!; [done..|]. intros. cbn. specialize (Hl ltac:(done)). lia.
      - injection E as <- <-. cbn. by split_and!. }
  3:{ injection E as <- <-. done. }
  3:{ apply IH in E as (-> & -> & Hl). split_and!; [done..|]. intros. cbn. specialize (Hl ltac:(done)). lia. }
  3:{ injection E as <- <-. done. }
  all: destruct (message_from_str text) as [m|]; [|injection E as <- <-; done].
  all: destruct m; try (injection E as <- <-; split_and!; [done..|cbn; lia]).
  all: unfold client_send in E; destruct (write _ c) as [[[]|e] c1] eqn:Ew;
    apply write_frame in Ew as (Hp & Hs & Hk).
  all: try (apply IH in E as (-> & -> & Hl); split_and!; [done..|]; intros; cbn;
            specialize (Hl ltac:(done)); lia).
  all: injection E as <- <-; cbn; by split_and!.
Qed.

(** The messages a step keeps are signals and snapshots. *)
Definition keeps_queue {A} (step : ControlMessage -> Reply A) : Prop :=
  forall m, match step m with
            | Enqueue => is_signal m || is_snapshot m = true
            | PushBack => is_signal m = true
            | _ => True
            end.

Lemma await_loop_queue {A} fuel (step : ControlMessage -> Reply A) c r c' :
  keeps_queue step -> await_loop fuel step c = (r, c') ->
  cl_server_key c' = cl_server_key c /\ (queue_ok (cl_pending c) -> queue_ok (cl_pending c')).
Proof.
  intros Hstep. revert c; induction fuel as [|fuel IH]; intros c E; cbn [await_loop] in E.
  { injection E as <- <-. done. }
  destruct (recv_wire c) as [[m|e] c1] eqn:Er; apply read_frames_spec in Er as (Hp & Hk & _).
  2:{ injection E as <- <-. by rewrite Hp, Hk. }
  specialize (Hstep m). destruct (step m) as [x| | |].
  - injection E as <- <-. by rewrite Hp, Hk.
  - apply IH in E as [Hk' Hq]. cbn in Hk'. rewrite Hk', Hk. split; [done|].
    intros H0. apply Hq. cbn. rewrite Hp. by apply enqueue_spec.
  - apply IH in E as [Hk' Hq]. cbn in Hk'. rewrite Hk', Hk. split; [done|].
    intros [Hf Hl]. apply Hq. cbn. rewrite Hp. assert (is_snapshot m = false) as Hs by (by destruct m).
    split; [by rewrite forallb_app, Hf; cbn; rewrite Hstep|].
    rewrite filter_app_nil, Hs, app_nil_r. done.
  - apply IH in E as [Hk' Hq]. rewrite Hk', Hk. split; [done|]. by rewrite <- Hp.
Qed.

Lemma request_queue {A} what m (step : ControlMessage -> Reply A) c r c' :
  keeps_queue step ->
  request_timeout what (let! _ := client_send m in await_reply step) c = (r, c') ->
  cl_server_key c' = cl_server_key c /\ (queue_ok (cl_pending c) -> queue_ok (cl_pending c')).
Proof.
  intros Hstep. unfold request_timeout, hbind at 1, client_send.
  destruct (write _ c) as [[[]|e] c1] eqn:Ew; apply write_frame in Ew as (Hp & _ & Hk).
  - destruct (await_reply step c1) as [x c2] eqn:Ea.
    apply (await_loop_queue _ _ _ _ _ Hstep) in Ea. rewrite Hk, Hp in Ea.
    destruct x as [a|[]]; intros [= <- <-]; done.
  - destruct e; intros [= <- <-]; by rewrite Hk, Hp.
Qed.

Lemma on_steps_keep :
  keeps_queue on_request_snapshot /\ keeps_queue on_update_candidates
  /\ keeps_queue on_lookup_peer /\ keeps_queue on_list_peers.
Proof. split_and!; intros []; done. Qed.

(** What a user of the client and the network can do to it *)
Inductive client_step : Client -> Client -> Prop :=
| client_deliver c l : client_step c (set_stream (cl_stream c ++ l) c)
| client_trust c key : client_step c (trust_server_key key c)
| client_recv c : client_step c (snd (recv c))
| client_register c identity inc token cred candidates now :
    client_step c (snd (register_with_incarnation identity inc token cred candidates now c))
| client_update c candidates : client_step c (snd (update_candidates candidates c))
| client_runtime c mtu : client_step c (snd (update_runtime_status mtu c))
| client_request c : client_step c (snd (request_snapshot c))
| client_update_get c candidates :
    client_step c (snd (update_candidates_and_get_snapshot candidates c))
| client_lookup c id now : client_step c (snd (lookup_peer id now c))
| client_list c : client_step c (snd (client_list_peers c)).

Lemma recv_queue c : queue_ok (cl_pending c) -> queue_ok (cl_pending (snd (recv c))).
Proof.
  unfold recv. destruct (cl_pending c) as [|m l] eqn:Ep; intros Hq.
  - destruct (recv_wire c) as [r c'] eqn:Er. apply read_frames_spec in Er as (Hp & _).
    cbn. by rewrite Hp, Ep.
  - destruct Hq as [Hf Hl]. cbn in Hf. apply andb_true_iff in Hf as [_ Hf].
    split; [done|]. cbn in *. destruct (is_snapshot m); cbn in Hl; lia.
Qed.

Lemma register_queue identity inc token cred candidates now c :
  queue_ok (cl_pending c) ->
  queue_ok (cl_pending (snd (register_with_incarnation identity inc token cred candidates now c))).
Proof.
  intros Hq. unfold register_with_incarnation, request_timeout, register_with_incarnation_inner.
  unfold hbind at 1, client_send.
  destruct (write _ c) as [[[]|e] c1] eqn:Ew; apply write_frame in Ew as (Hp & _ & _).
  2:{ destruct e; cbn; by rewrite Hp. }
  rewrite <- Hp in Hq. apply recv_queue in Hq. unfold hbind at 1.
  destruct (recv c1) as [[m|e] c2]; cbn in Hq.
  - destruct m; try done. by destruct (check_registration _ _ _ _ _) as [|[]].
  - by destruct e.
Qed.

Lemma client_step_queue c c' :
  client_step c c' -> queue_ok (cl_pending c) -> queue_ok (cl_pending c').
Proof.
  destruct on_steps_keep as (H1 & H2 & H3 & H4). destruct 1; intros Hq; try done.
  - by apply recv_queue.
  - by apply register_queue.
  - unfold update_candidates, client_send. destruct (write _ c) as [r c'] eqn:Ew.
    cbn [snd]. by apply write_frame in Ew as (-> & _).
  - unfold update_runtime_status. destruct (_ && _); [|done].
    unfold client_send. destruct (write _ c) as [r c'] eqn:Ew.
    cbn [snd]. by apply write_frame in Ew as (-> & _).
  - destruct (request_snapshot c) as [r c'] eqn:E. eapply request_queue in E; [|done]. by apply E.
  - destruct (update_candidates_and_get_snapshot candidates c) as [r c'] eqn:E.
    eapply request_queue in E; [|done]. by apply E.
  - unfold lookup_peer, request_timeout. unfold hbind at 1, client_send.
    destruct (write _ c) as [[[]|e] c1] eqn:Ew; apply write_frame in Ew as (Hp & _ & _).
    2:{ destruct e; cbn; by rewrite Hp. }
    unfold hbind. destruct (await_reply on_lookup_peer c1) as [[peer|e] c2] eqn:Ea;
      apply await_loop_queue in Ea as [_ Hq2]; try done; rewrite Hp in Hq2.
    + destruct (verify_public_peer c2 now peer) as [|[]]; by apply Hq2.
    + destruct e; by apply Hq2.
  - destruct (client_list_peers c) as [r c'] eqn:E. eapply request_queue in E; [|done]. by apply E.
Qed.

(** whatever messages arrive during whatever sequence of requests, only
    connect signals and snapshots wait in the client's queue, and never more than
    one snapshot. *)
Theorem client_queue_invariant endpoint c :
  rtc client_step (new_client endpoint) c -> queue_ok (cl_pending c).
Proof.
  intros Hs. assert (H0 : queue_ok (cl_pending (new_client endpoint))) by (split; [done|cbn; lia]).
  revert H0. induction Hs as [|c1 c2 c3 Hstep _ IH]; intros H0; [done|].
  apply IH. by eapply client_step_queue.
Qed.

(** ** Requests are answered *)

Context {JL : ControlJsonLaws J}.

(** The frames of messages *)
Definition frames_of (l : list ControlMessage) : list Frame :=
  map (fun m => FrameText (message_to_string m)) l.

(** What the client writes back for the messages it reads: a pong per ping *)
Definition pongs (l : list ControlMessage) : list Written :=
  omap (fun m => match m with
                 | Ping nonce => Some (WrittenText (message_to_string (Pong nonce)))
                 | _ => None
                 end) l.

Definition is_ping (m : ControlMessage) : bool := match m with Ping _ => true | _ => false end.
Definition drop_pings (l : list ControlMessage) : list ControlMessage :=
  List.filter (fun m => negb (is_ping m)) l.

Definition with_io (stream : list Frame) (written : list Written) (c : Client) : Client :=
  mkClient (cl_endpoint c) (cl_server_key c) (cl_pending c) stream written (cl_broken c).

(** The stream field is overwritten by reading. *)
Lemma read_frames_stream f c1 c2 :
  set_stream [] c1 = set_stream [] c2 -> read_frames f c1 = read_frames f c2.
Proof.
  revert c1 c2. induction f as [|x f IH]; intros c1 c2 E; cbn [read_frames]; [by rewrite E|].
  destruct c1 as [e1 k1 p1 s1 w1 b1], c2 as [e2 k2 p2 s2 w2 b2].
  unfold set_stream in E; cbn in E. injection E as -> -> -> -> ->.
  destruct x as [t|t|pl| | |why]; try done.
  3:{ unfold write; cbn. destruct b2; cbn; [done|]. by apply IH. }
  3:{ by apply IH. }
  all: destruct (message_from_str t) as [m|]; [|done]; destruct m; try done.
  all: unfold client_send, write; cbn; destruct b2; cbn; [done|]; by apply IH.
Qed.

Lemma recv_wire_ping nonce l w c :
  cl_broken c = None ->
  recv_wire (with_io (frames_of (Ping nonce :: l)) w c)
  = recv_wire (with_io (frames_of l) (w ++ [WrittenText (message_to_string (Pong nonce))]) c).
Proof.
  intros Hb. unfold recv_wire. cbn [frames_of map cl_stream with_io read_frames].
  rewrite message_roundtrip. unfold client_send, write. cbn [with_io cl_broken]. rewrite Hb.
  cbn beta iota. apply read_frames_stream. unfold set_stream, with_io; cbn. by rewrite Hb.
Qed.

Lemma recv_wire_message m l w c :
  is_ping m = false ->
  recv_wire (with_io (frames_of (m :: l)) w c) = (Ok m, with_io (frames_of l) w c).
Proof.
  intros Hm. unfold recv_wire. cbn [frames_of map cl_stream with_io read_frames].
  rewrite message_roundtrip. by destruct m.
Qed.

(** The queue after a message a request keeps *)
Definition keep_message {A} (step : ControlMessage -> Reply A) (p : list ControlMessage)
    (m : ControlMessage) : list ControlMessage :=
  match step m with Enqueue => enqueue m p | PushBack => p ++ [m] | _ => p end.

Definition not_answer {A} (step : ControlMessage -> Reply A) (m : ControlMessage) : Prop :=
  is_ping m = true \/ forall r, step m <> Answer r.

(** A request reads up to its answer, keeps or drops what comes before, answers
    the pings, and leaves what comes after for later. *)
Lemma await_loop_answered {A} fuel (step : ControlMessage -> Reply A) before m r rest w c :
  (length before < fuel)%nat -> cl_broken c = None ->
  Forall (not_answer step) before -> is_ping m = false -> step m = Answer r ->
  await_loop fuel step (with_io (frames_of (before ++ m :: rest)) w c)
  = (r, set_pending (fold_left (keep_message step) (drop_pings before) (cl_pending c))
          (with_io (frames_of rest) (w ++ pongs before) c)).
Proof.
  intros Hf Hb Hall Hm Hr. revert fuel w c Hf Hb.
  induction before as [|x before IH]; intros fuel w c Hf Hb; (destruct fuel as [|fuel]; [lia|]).
  - cbn [app await_loop]. rewrite recv_wire_message by done. rewrite Hr, app_nil_r. done.
  - apply Forall_cons in Hall as [Hx Hall]. cbn [app]. destruct (is_ping x) eqn:Ex.
    + destruct x; try done. cbn [await_loop]. rewrite recv_wire_ping by done.
      change (await_loop (S fuel) step
        (with_io (frames_of (before ++ m :: rest)) (w ++ [WrittenText (message_to_string (Pong nonce))]) c)
        = (r, set_pending (fold_left (keep_message step) (drop_pings before) (cl_pending c))
             (with_io (frames_of rest)
               (w ++ WrittenText (message_to_string (Pong nonce)) :: pongs before) c))).
      rewrite IH; [|done|cbn in Hf; lia|done]. by rewrite <- app_assoc.
    + destruct Hx as [|Hx]; [congruence|]. cbn [await_loop]. rewrite recv_wire_message by done.
      assert (Hp : pongs (x :: before) = pongs before) by (by destruct x). rewrite Hp.
      cbn [drop_pings List.filter]. rewrite Ex. cbn [negb fold_left]. fold (drop_pings before).
      unfold keep_message at 2. destruct (step x) as [y| | |] eqn:Es.
      * by destruct (Hx y).
      * set (c' := set_pending (enqueue x (cl_pending c)) c).
        change (enqueue_pending x (with_io ?l w c)) with (with_io l w c').
        rewrite IH; [done|done|cbn in Hf; lia|done].
      * set (c' := set_pending (cl_pending c ++ [x]) c).
        change (set_pending _ (with_io ?l w c)) with (with_io l w c') at 1.
        rewrite IH; [done|done|cbn in Hf; lia|done].
      * rewrite IH; [done|done|cbn in Hf; lia|done].
Qed.

Lemma request_answered {A} what req (step : ControlMessage -> Reply A) before m a rest w c :
  cl_broken c = None -> Forall (not_answer step) before -> is_ping m = false ->
  step m = Answer (Ok a) ->
  request_timeout what (let! _ := client_send req in await_reply step)
    (with_io (frames_of (before ++ m :: rest)) w c)
  = (Ok a, set_pending (fold_left (keep_message step) (drop_pings before) (cl_pending c))
             (with_io (frames_of rest) (w ++ [WrittenText (message_to_string req)] ++ pongs before) c)).
Proof.
  intros Hb Hall Hm Hr. unfold request_timeout, hbind at 1, client_send, write.
  cbn [with_io cl_broken]. rewrite Hb. cbn beta iota. unfold await_reply.
  change (mkClient _ _ _ _ _ None) with (mkClient (cl_endpoint c) (cl_server_key c) (cl_pending c)
    (frames_of (before ++ m :: rest)) (w ++ [WrittenText (message_to_string req)]) None).
  rewrite <- Hb.
  change (mkClient _ _ _ _ _ _) with (with_io (frames_of (before ++ m :: rest))
    (w ++ [WrittenText (message_to_string req)]) c).
  change (cl_stream (with_io ?l ?w' c)) with l.
  rewrite (await_loop_answered _ _ before m (Ok a) rest); try done; [by rewrite <- app_assoc|].
  unfold frames_of. rewrite length_map, length_app. lia.
Qed.

Lemma enqueue_all before p :
  queue_ok p -> forallb (fun m => is_ping m || is_signal m || is_snapshot m) before = true ->
  let p' := fold_left (fun p m => enqueue m p) (drop_pings before) p in
  queue_ok p' /\ signals p' = signals p ++ signals before
  /\ snapshots p' = match last (snapshots before) with Some s => [s] | None => snapshots p end.
Proof.
  intros Hp Hall. revert p Hp. induction before as [|m before IH]; intros p Hp; cbn zeta.
  { cbn. by rewrite app_nil_r. }
  cbn [forallb] in Hall. apply andb_true_iff in Hall as [Hm Hall].
  assert (Hd : drop_pings (m :: before) = if is_ping m then drop_pings before else m :: drop_pings before)
    by (cbn; by destruct (is_ping m)).
  rewrite Hd. cbn [List.filter]. destruct (is_ping m) eqn:Em.
  - destruct m; try done. by apply IH.
  - destruct (enqueue_spec m p Hp Hm) as (Hq & Hsg & Hsn). cbn [fold_left].
    destruct (IH Hall _ Hq) as (Hq' & Hsg' & Hsn'). split; [done|].
    rewrite Hsg', Hsn', Hsg, Hsn, <- app_assoc. cbn [List.filter].
    split; [by destruct (is_signal m)|]. destruct (is_snapshot m); [|done].
    destruct (snapshots before) as [|x l] using rev_ind; [done|].
    by rewrite last_snoc, app_comm_cons, last_snoc.
Qed.

(** A snapshot request is answered by the next snapshot response, whatever
    arrives before it: pings are answered, connect signals and broadcast
    snapshots are kept for later (all signals in order, the last snapshot), and
    what comes after the response stays on the connection. *)
Lemma request_snapshot_answers c w before sn rest :
  cl_broken c = None -> queue_ok (cl_pending c) ->
  forallb (fun m => is_ping m || is_signal m || is_snapshot m) before = true ->
  exists c', request_snapshot (with_io (frames_of (before ++ SnapshotResponse sn :: rest)) w c)
             = (Ok sn, c')
    /\ cl_stream c' = frames_of rest
    /\ cl_written c' = w ++ [WrittenText (message_to_string RequestSnapshot)] ++ pongs before
    /\ queue_ok (cl_pending c')
    /\ signals (cl_pending c') = signals (cl_pending c) ++ signals before
    /\ snapshots (cl_pending c')
       = match last (snapshots before) with Some s => [s] | None => snapshots (cl_pending c) end.
Proof.
  intros Hb Hq Hall. eexists. split.
  { apply request_answered; [done| |done|done]. apply Forall_forall. intros m Hm.
    rewrite forallb_forall in Hall. specialize (Hall m ltac:(by apply list_elem_of_In)).
    destruct m; try done; [by right|by right|by left]. }
  assert (Hk : forall l p, forallb (fun m => is_ping m || is_signal m || is_snapshot m) l = true ->
    fold_left (keep_message on_request_snapshot) (drop_pings l) p
    = fold_left (fun p m => enqueue m p) (drop_pings l) p).
  { clear. induction l as [|m l IH]; intros p Hl; [done|]. cbn in Hl.
    apply andb_true_iff in Hl as [Hm Hl]. destruct m; try done; cbn; by apply IH. }
  cbn [cl_stream cl_written cl_pending set_pending with_io]. rewrite Hk by done.
  split_and!; [done|done|by apply enqueue_all..].
Qed.

(** ** What the client trusts *)

(** A peer whose credential the server signed for its id and keys *)
Definition peer_authentic (key : bytes) (now : Z) (p : PeerInfo) : Prop :=
  exists cred, parse_credential (credential p) = Some cred
    /\ Credential_verify cred key now = Ok tt
    /\ cred_node_id cred = node_id p /\ cred_signing_public cred = signing_public p
    /\ cred_noise_public cred = noise_public p.

Lemma verify_peer_credential_iff c now p :
  verify_peer_credential c now p = Ok tt <->
  exists key, cl_server_key c = Some key /\ peer_authentic key now p.
Proof.
  unfold verify_peer_credential, peer_authentic. split.
  - intros E. inv_ok. unbool. destruct x1. eexists. split; [done|]. eexists. split_and!; done.
  - intros (key & Hk & cred & Hc & Hv & H1 & H2 & H3). rewrite Hk, Hc. cbn. rewrite Hv. cbn.
    by rewrite !bool_decide_eq_true_2.
Qed.

Lemma rmapM_unit {A E} (f : A -> result unit E) l ys :
  rmapM f l = Ok ys -> Forall (fun x => f x = Ok tt) l.
Proof.
  intros H%rmapM_Ok. induction H as [|x [] l ys]; constructor; done.
Qed.

(** C27: a registration the client reports is authentic: the snapshot is signed
    by the trusted server key, unexpired and valid, every peer in it and every
    peer listed has an unexpired credential of the server for its own id and
    keys, and so has the node itself. *)
Theorem registration_authentic identity inc token cred candidates now c reg c' :
  register_with_incarnation identity inc token cred candidates now c = (Ok reg, c') ->
  exists key, cl_server_key c = Some key
    /\ verify_snapshot (reg_snapshot reg) key now = Ok tt
    /\ validate blake3 (reg_snapshot reg) = Ok tt
    /\ Forall (peer_authentic key now) (peers (reg_snapshot reg))
    /\ Forall (peer_authentic key now) (reg_peers reg)
    /\ Credential_verify (reg_credential reg) key now = Ok tt.
Proof.
  unfold register_with_incarnation, request_timeout.
  destruct (register_with_incarnation_inner identity inc token cred candidates now c)
    as [[r|e] c1] eqn:E; [|by destruct e]. intros [= <- <-].
  unfold register_with_incarnation_inner in E. apply hbind_Ok in E as (? & c2 & Ew & E).
  apply write_frame in Ew as (_ & _ & Hk2). apply hbind_Ok in E as (m & c3 & Er & E).
  assert (Hk3 : cl_server_key c3 = cl_server_key c2).
  { unfold recv in Er. destruct (cl_pending c2); [by apply read_frames_spec in Er as (_ & ? & _)|].
    by injection Er as <- <-. }
  destruct m; try done. injection E as E _. unfold check_registration in E.
  apply rbind_Ok in E as (data & _ & E). apply rbind_Ok in E as (cr & _ & E).
  apply rbind_Ok in E as (key & Hkey & E). apply ok_or_Ok in Hkey.
  apply rbind_unit in E as [Hsn E]. apply rbind_unit in E as [Hv E].
  apply rbind_Ok in E as (us & Hps & E). apply rbind_unit in E as [Hcr E].
  apply rbind_Ok in E as (vs & Hvs & E). injection E as <-.
  apply rmap_err_Ok in Hsn, Hv, Hcr. exists key. cbn.
  assert (Hkey' : cl_server_key c = Some key) by congruence.
  split_and!; try done.
  - apply rmapM_unit in Hps. eapply Forall_impl; [exact Hps|]. intros p Hp. cbn in Hp.
    apply verify_peer_credential_iff in Hp as (key' & Hk' & Hp). congruence.
  - apply rmapM_Ok in Hvs. clear Er. induction Hvs as [|pub q0 l l' Hxy _ IH]; [constructor|].
    constructor; [|exact IH].
    unfold verify_public_peer in Hxy. apply rbind_Ok in Hxy as (q & _ & Hxy).
    apply rbind_unit in Hxy as [Hp Hxy]. injection Hxy as <-.
    apply verify_peer_credential_iff in Hp as (key' & Hk' & Hp). congruence.
Qed.

End requests.
