(* ===== verification/Codec.v ===== *)
(** * A text form for messages and credentials

    The JSON text of a control message and of a credential comes from a library,
    of which the development only uses that what is written can be read back
    ([ControlJsonLaws], [TextLaws]).  This file gives a text form with that
    property, so that the theorems that assume it have instances: self-delimiting
    codecs, composed along the data types. *)
From S2P Require Import Prelude Net Encoding Wire NodeId Snapshot SignedBytes Crypto Control.
From S2P Require Import CoordDb Coord CoordInv Text Dns Stun CoordClient.

(** Writing, and reading from the front of a text *)
Record codec (A : Type) : Type := mkCodec {
  enc : A -> list Z;
  dec : list Z -> option (A * list Z);
  dec_enc : forall a r, dec (enc a ++ r) = Some (a, r)
}.
Arguments mkCodec {A} enc dec dec_enc.
Arguments enc {A} c a.
Arguments dec {A} c l.
Arguments dec_enc {A} c a r.

Definition z_codec : codec Z :=
  mkCodec (fun z => [z]) (fun l => match l with z :: r => Some (z, r) | [] => None end)
    (fun a r => eq_refl).

Definition unit_codec : codec unit :=
  mkCodec (fun _ => []) (fun l => Some (tt, l))
    (fun a r => match a with tt => eq_refl end).

Definition pair_dec {A B} (a : codec A) (b : codec B) (l : list Z) : option (A * B * list Z) :=
  match dec a l with
  | Some (x, l1) => match dec b l1 with Some (y, l2) => Some (x, y, l2) | None => None end
  | None => None
  end.

Definition pair_codec {A B} (a : codec A) (b : codec B) : codec (A * B).
Proof.
  refine (mkCodec (fun p => enc a p.1 ++ enc b p.2) (pair_dec a b) _).
  intros [x y] r. unfold pair_dec. cbn. by rewrite <- app_assoc, dec_enc, dec_enc.
Defined.

Definition option_codec {A} (a : codec A) : codec (option A).
Proof.
  refine (mkCodec (fun o => match o with Some x => 1 :: enc a x | None => [0] end)
    (fun l => match l with
              | 0 :: r => Some (None, r)
              | 1 :: r => match dec a r with Some (x, r') => Some (Some x, r') | None => None end
              | _ => None
              end) _).
  intros [x|] r; cbn; [by rewrite dec_enc | done].
Defined.

Fixpoint dec_list {A} (a : codec A) (n : nat) (l : list Z) : option (list A * list Z) :=
  match n with
  | O => Some ([], l)
  | S n' =>
      match dec a l with
      | Some (x, l1) =>
          match dec_list a n' l1 with Some (xs, l2) => Some (x :: xs, l2) | None => None end
      | None => None
      end
  end.

Lemma dec_list_enc {A} (a : codec A) l r :
  dec_list a (length l) (concat (map (enc a) l) ++ r) = Some (l, r).
Proof.
  induction l as [|x l IH]; [done|]. cbn. by rewrite <- app_assoc, dec_enc, IH.
Qed.

Definition list_codec {A} (a : codec A) : codec (list A).
Proof.
  refine (mkCodec (fun l => Z.of_nat (length l) :: concat (map (enc a) l))
    (fun l => match l with n :: r => dec_list a (Z.to_nat n) r | [] => None end) _).
  intros l r. cbn. rewrite Nat2Z.id. apply dec_list_enc.
Defined.

(** A codec along an injection *)
Definition iso_codec {A B} (a : codec A) (f : B -> A) (g : A -> B) (H : forall b, g (f b) = b)
    : codec B.
Proof.
  refine (mkCodec (fun b => enc a (f b))
    (fun l => match dec a l with Some (x, r) => Some (g x, r) | None => None end) _).
  intros b r. by rewrite dec_enc, H.
Defined.

Abbreviation b_codec := (list_codec z_codec).
Infix "**" := pair_codec (at level 36, right associativity) : vela_scope.

Definition sock_codec : codec SocketAddr.
Proof.
  refine (iso_codec (z_codec ** z_codec ** option_codec (z_codec ** z_codec))
    (fun a => match a with
              | SockV4 i p => (i, (p, None))
              | SockV6 i p f s => (i, (p, Some (f, s)))
              end)
    (fun t => match t with
              | (i, (p, None)) => SockV4 i p
              | (i, (p, Some (f, s))) => SockV6 i p f s
              end) _).
  by intros [].
Defined.

Definition candidate_codec : codec Candidate.
Proof.
  refine (iso_codec (z_codec ** sock_codec)
    (fun c => match c with
              | Host a => (0, a) | ServerReflexive a => (1, a) | PeerReflexive a => (2, a)
              end)
    (fun t => match t with (0, a) => Host a | (1, a) => ServerReflexive a | (_, a) => PeerReflexive a end)
    _).
  by intros [].
Defined.

Definition capability_codec : codec PeerCapability.
Proof.
  refine (iso_codec unit_codec (fun _ => tt) (fun _ => CapDiagnosticPing) _). by intros [].
Defined.

Definition public_peer_codec : codec PublicPeerInfo.
Proof.
  refine (iso_codec (b_codec ** z_codec ** b_codec ** b_codec ** list_codec candidate_codec
      ** option_codec z_codec ** option_codec z_codec ** b_codec ** list_codec capability_codec)
    (fun p => (pub_node_id p, (pub_incarnation p, (pub_signing_public p, (pub_noise_public p,
       (pub_candidates p, (pub_virtual_ipv4 p, (pub_virtual_ipv6 p, (pub_credential p,
        pub_capabilities p)))))))))
    (fun '(a, (b, (c, (d, (e, (f, (g, (h, i)))))))) => mkPublicPeer a b c d e f g h i) _).
  by intros [].
Defined.

Definition peer_codec : codec PeerInfo.
Proof.
  refine (iso_codec (b_codec ** z_codec ** b_codec ** b_codec ** list_codec candidate_codec
      ** option_codec z_codec ** option_codec z_codec ** b_codec ** list_codec capability_codec)
    (fun p => (node_id p, (incarnation p, (signing_public p, (noise_public p,
       (candidates p, (virtual_ipv4 p, (virtual_ipv6 p, (credential p, capabilities p)))))))))
    (fun '(a, (b, (c, (d, (e, (f, (g, (h, i)))))))) => mkPeer a b c d e f g h i) _).
  by intros [].
Defined.

Definition summary_codec : codec PeerSummary.
Proof.
  refine (iso_codec (b_codec ** b_codec ** z_codec ** option_codec z_codec ** option_codec z_codec
      ** option_codec z_codec ** list_codec capability_codec)
    (fun p => (sum_node_id p, (sum_name p, (if sum_online p then 1 else 0, (sum_last_seen p,
       (sum_virtual_ipv4 p, (sum_virtual_ipv6 p, sum_capabilities p)))))))
    (fun '(a, (b, (c, (d, (e, (f, g)))))) => mkSummary a b (c =? 1) d e f g) _).
  by intros [? ? [] ? ? ? ?].
Defined.

Definition cidr4_codec : codec Ipv4Cidr.
Proof.
  refine (iso_codec (z_codec ** z_codec) (fun c => (cidr4_address c, cidr4_prefix c))
    (fun '(a, p) => mkCidr4 a p) _). by intros [].
Defined.

Definition cidr6_codec : codec Ipv6Cidr.
Proof.
  refine (iso_codec (z_codec ** z_codec) (fun c => (cidr6_address c, cidr6_prefix c))
    (fun '(a, p) => mkCidr6 a p) _). by intros [].
Defined.

Definition snapshot_codec : codec NetworkSnapshot.
Proof.
  refine (iso_codec (b_codec ** z_codec ** option_codec cidr4_codec ** option_codec cidr6_codec
      ** list_codec b_codec ** list_codec b_codec ** list_codec peer_codec ** list_codec b_codec
      ** z_codec ** b_codec)
    (fun s => (network_id s, (generation s, (snap_ipv4 s, (snap_ipv6 s, (doh_servers s,
       (stun_servers s, (peers s, (online_peers s, (expires_at s, signature s))))))))))
    (fun '(a, (b, (c, (d, (e, (f, (g, (h, (i, j))))))))) => mkSnapshot a b c d e f g h i j) _).
  by intros [].
Defined.

Definition credential_codec : codec MembershipCredential.
Proof.
  refine (iso_codec (b_codec ** b_codec ** b_codec ** b_codec ** z_codec ** z_codec ** b_codec
      ** b_codec)
    (fun c => (cred_node_id c, (cred_signing_public c, (cred_noise_public c, (cred_tenant c,
       (cred_issued_at c, (cred_expires_at c, (cred_server_key_id c, cred_signature c))))))))
    (fun '(a, (b, (c, (d, (e, (f, (g, h))))))) => mkCredential a b c d e f g h) _).
  by intros [].
Defined.

Definition register_codec :=
  b_codec ** z_codec ** b_codec ** b_codec ** b_codec ** option_codec b_codec
  ** list_codec candidate_codec ** list_codec capability_codec.
Definition register_ok_codec := b_codec ** list_codec public_peer_codec ** snapshot_codec.

(** A message is a tag and its fields. *)
Definition enc_message (m : ControlMessage) : list Z :=
  match m with
  | Register a b c d e f g h => 0 :: enc register_codec (a, (b, (c, (d, (e, (f, (g, h)))))))
  | RegisterOk a b c => 1 :: enc register_ok_codec (a, (b, c))
  | UpdateCandidates l => 2 :: enc (list_codec candidate_codec) l
  | RuntimeStatus n => 3 :: enc z_codec n
  | RequestSnapshot => [4]
  | LookupPeer i => 5 :: enc b_codec i
  | PeerInfoMsg p => 6 :: enc public_peer_codec p
  | ListPeers => [7]
  | ListPeersOk l => 8 :: enc (list_codec summary_codec) l
  | ConnectSignal p i => 9 :: enc (public_peer_codec ** b_codec) (p, i)
  | Revoke i => 10 :: enc b_codec i
  | SnapshotMsg s => 11 :: enc snapshot_codec s
  | SnapshotResponse s => 12 :: enc snapshot_codec s
  | ErrorMsg a b => 13 :: enc (b_codec ** b_codec) (a, b)
  | Ping n => 14 :: enc z_codec n
  | Pong n => 15 :: enc z_codec n
  end.

Definition dec_with {A} (c : codec A) (f : A -> ControlMessage) (l : list Z)
    : option ControlMessage :=
  match dec c l with Some (x, []) => Some (f x) | _ => None end.

Definition dec_message (l : list Z) : option ControlMessage :=
  match l with
  | tag :: r =>
      match tag with
      | 0 => dec_with register_codec
               (fun '(a, (b, (c, (d, (e, (f, (g, h))))))) => Register a b c d e f g h) r
      | 1 => dec_with register_ok_codec (fun '(a, (b, c)) => RegisterOk a b c) r
      | 2 => dec_with (list_codec candidate_codec) UpdateCandidates r
      | 3 => dec_with z_codec RuntimeStatus r
      | 4 => Some RequestSnapshot
      | 5 => dec_with b_codec LookupPeer r
      | 6 => dec_with public_peer_codec PeerInfoMsg r
      | 7 => Some ListPeers
      | 8 => dec_with (list_codec summary_codec) ListPeersOk r
      | 9 => dec_with (public_peer_codec ** b_codec) (fun '(p, i) => ConnectSignal p i) r
      | 10 => dec_with b_codec Revoke r
      | 11 => dec_with snapshot_codec SnapshotMsg r
      | 12 => dec_with snapshot_codec SnapshotResponse r
      | 13 => dec_with (b_codec ** b_codec) (fun '(a, b) => ErrorMsg a b) r
      | 14 => dec_with z_codec Ping r
      | 15 => dec_with z_codec Pong r
      | _ => None
      end
  | [] => None
  end.

Lemma dec_with_enc {A} (c : codec A) f a : dec_with c f (enc c a) = Some (f a).
Proof. unfold dec_with. by rewrite <- (app_nil_r (enc c a)), dec_enc. Qed.

#[export] Instance message_json : ControlJson :=
  {| message_to_string := enc_message; message_from_str := dec_message |}.

#[export] Instance message_json_laws : ControlJsonLaws message_json.
Proof.
  split. intros m. cbn [message_from_str message_to_string message_json].
  destruct m; cbn [enc_message dec_message]; try done; by rewrite dec_with_enc.
Qed.

(** Base64 is the identity, and a credential is read back. *)
Definition sample_text : TextOps := {|
  b64_encode x := x;
  b64_decode x := Some x;
  json_credential c := enc credential_codec c;
  parse_credential l := match dec credential_codec l with Some (c, []) => Some c | _ => None end
|}.

#[export] Instance sample_text_laws : TextLaws sample_text.
Proof.
  split; [done|]. intros c. cbn [parse_credential json_credential sample_text].
  by rewrite <- (app_nil_r (enc credential_codec c)), dec_enc.
Qed.
