(* ===== verification/ClientServer.v ===== *)
(** * The coordination client against the server

    The client of [vela-coord-client/src/lib.rs] ([CoordClient]) connected to the
    server of [vela-coord/src/lib.rs] ([Coord]): what the server answers to a
    registration by invite and to a snapshot request passes the client's checks,
    and the interleavings and states in which it does not. *)
From S2P Require Import Prelude Net Encoding Wire NodeId Snapshot SignedBytes Crypto Control.
From S2P Require Import CoordDb Coord CoordInv CoordSafety CoordRaces Text Dns Stun CoordClient Codec.

Section compose.
Context {HH : Hash} {HSg : SignatureOps} {HT : TextOps} {J : ControlJson}.
Context {HS : SignatureLaws HSg} {HTL : TextLaws HT} {JL : ControlJsonLaws J}.
Context (tenant signer : bytes).

(** The credential stored for a peer is the server's, unexpired, and names the
    peer's id and keys. *)
Definition row_authentic (now : Z) (id : bytes) (r : PeerRow) : Prop :=
  length (row_signing_public r) = 32%nat /\ length (row_noise_public r) = 32%nat
  /\ exists cred, parse_credential (row_credential r) = Some cred
     /\ Credential_verify cred (ServerSigner_public signer) now = Ok tt
     /\ cred_node_id cred = id /\ cred_signing_public cred = row_signing_public r
     /\ cred_noise_public cred = row_noise_public r.

Definition rows_authentic (now : Z) (t : PeerTable) : Prop :=
  forall id r, t !! id = Some r -> row_revoked r = false -> row_authentic now id r.

(** The credential an invite gives *)
Definition issued_credential (id sp np : bytes) (now : Z) : MembershipCredential :=
  Credential_sign
    (Credential_unsigned (mkIdentity id sp np) tenant (sat_add64 now (365 * 24 * 3600)) now
       (ServerSigner_key_id signer)) signer.

Lemma issued_credential_verifies id sp np now later :
  blake3 sp = id -> 0 <= now <= U64_MAX -> now <= later <= now + 3600 -> later <= U64_MAX ->
  Credential_verify (issued_credential id sp np now) (ServerSigner_public signer) later = Ok tt.
Proof.
  intros Hid Hn Hl Hu. apply credential_verify_iff_aux. unfold credential_valid; cbn.
  unfold sat_add64, U64_MAX in *.
  split_and!; try lia; try done; [apply sig_public_ok | apply sig_sign_length | apply sig_correct].
Qed.

(** ** What the server answers *)

(** Columns of a row the registration's later statements do not change *)
Definition same_identity (r r' : PeerRow) : Prop :=
  row_credential r' = row_credential r /\ row_signing_public r' = row_signing_public r
  /\ row_noise_public r' = row_noise_public r /\ row_revoked r' = row_revoked r.

Lemma finish_register_reply conn id stored reg changed now s r s' :
  finish_register tenant signer conn id stored reg changed now s = (Ok r, s') ->
  cs_sent s' = cs_sent s ++ [(conn, Control (RegisterOk (b64_encode stored)
     (map public_peer (List.filter (fun p => negb (bool_decide (sp_node_id p = id)))
        (load_peers (cs_peers s'))))
     (network_snapshot tenant signer s' (online_peer_ids s') now)))]
  /\ (forall i, i <> id -> cs_peers s' !! i = cs_peers s !! i)
  /\ (forall row, cs_peers s !! id = Some row ->
      exists row', cs_peers s' !! id = Some row' /\ same_identity row row').
Proof.
  intros E. unfold finish_register in E. apply hbind_Ok in E as ([] & s1 & E1 & E).
  unfold register_store in E1. apply hbind_Ok in E1 as ([] & s2 & E2 & E1).
  apply hbind_Ok in E1 as ([] & s3 & E3 & E1). injection E3 as <-.
  assert (Hs1 : cs_sent s1 = cs_sent s2
                /\ cs_peers s1 = touch_peer (cs_peers s2) id now).
  { unfold bump_snapshot in E1. do 2 (destruct (_ <? _); [done|]). by injection E1 as <-. }
  destruct Hs1 as [Hsent1 Hp1].
  assert (Hs2 : cs_sent s2 = cs_sent s
    /\ (forall i, i <> id -> cs_peers s2 !! i = cs_peers s !! i)
    /\ (forall row, cs_peers s !! id = Some row ->
        exists row', cs_peers s2 !! id = Some row' /\ same_identity row row')).
  { destruct reg as [reg|]; injection E2 as <-; cbn;
      [|split_and!; [done|done|intros row Hr; by exists row]].
    split_and!; [done| |].
    - intros i Hi. by rewrite lookup_alter_ne.
    - intros row Hrow. rewrite lookup_alter_eq, Hrow. by eexists. }
  destruct Hs2 as (Hsent2 & Hother2 & Hrow2).
  unfold register_online in E. apply hbind_Ok in E as (x & s4 & E4 & E). injection E4 as <- <-.
  apply hbind_Ok in E as ([] & s5 & E5 & E). injection E5 as <-.
  apply hbind_Ok in E as (y & s6 & E6 & E). injection E6 as <- <-.
  apply hbind_Ok in E as ([] & s7 & E7 & E). unfold send in E7.
  destruct (bool_decide _) in E7; [done|]. injection E7 as <-.
  assert (Hs' : exists p q, s' = set_broadcast p q (push_sent conn (Control (RegisterOk (b64_encode stored)
     (map public_peer (List.filter (fun p => negb (bool_decide (sp_node_id p = id)))
        (load_peers (cs_peers s1))))
     (network_snapshot tenant signer s1 (online_peer_ids (set_online
        (<[id := {[conn]} ∪ default ∅ (cs_online s1 !! id)]> (cs_online s1)) s1)) now)))
     (set_online (<[id := {[conn]} ∪ default ∅ (cs_online s1 !! id)]> (cs_online s1)) s1))).
  { destruct (_ || _); injection E as _ <-; [by eexists _, _|].
    exists (cs_pending s1), (cs_running s1). by destruct s1. }
  destruct Hs' as (p & q & ->). cbn. rewrite Hsent1, Hsent2. split_and!; [done| |].
  - intros i Hi. rewrite Hp1. unfold touch_peer. rewrite lookup_alter_ne by done. by apply Hother2.
  - intros row Hrow. destruct (Hrow2 row Hrow) as (row' & Hl & Hsame).
    rewrite Hp1. unfold touch_peer. rewrite lookup_alter_eq, Hl. cbn. eexists. split; [done|].
    exact Hsame.
Qed.

Lemma register_reply conn id inc signing noise token cands caps now s r s' :
  handle_register tenant signer conn id inc signing noise [] (Some token) cands caps now s
    = (Ok r, s') ->
  exists sp np, decode_key signing = Ok sp /\ decode_key noise = Ok np /\ blake3 sp = id
  /\ cs_sent s' = cs_sent s ++ [(conn, Control (RegisterOk
       (b64_encode (json_credential (issued_credential id sp np now)))
       (map public_peer (List.filter (fun p => negb (bool_decide (sp_node_id p = id)))
          (load_peers (cs_peers s'))))
       (network_snapshot tenant signer s' (online_peer_ids s') now)))]
  /\ (forall i, i <> id -> cs_peers s' !! i = cs_peers s !! i)
  /\ exists row, cs_peers s' !! id = Some row
     /\ row_credential row = json_credential (issued_credential id sp np now)
     /\ row_signing_public row = sp /\ row_noise_public row = np.
Proof.
  intros E. apply handle_register_stages in E
    as (sp & np & stored & reg & s1 & Hsp & Hnp & Hid & Ho & fresh & _ & Hf).
  exists sp, np. do 3 (split; [done|]). unfold obtain_credential in Ho.
  apply hbind_Ok in Ho as (ir & s1' & Hi & [= <- <- <-]).
  assert (Hsent : cs_sent s1' = cs_sent s).
  { unfold register_with_invite in Hi. destruct (cs_invites s !! blake3 token); [|done].
    destruct (_ || _); [done|]. by injection Hi as _ <-. }
  apply register_with_invite_Ok in Hi as (_ & _ & Hp & Hc).
  apply finish_register_reply in Hf as (Hs & Hother & Hrow). cbn in Hs, Hother, Hrow.
  rewrite Hs, Hsent, Hc. split; [done|]. split.
  - intros i Hi. rewrite Hother by done. unfold update_peer. cbn. by rewrite lookup_insert_ne, Hp.
  - edestruct Hrow as (row & Hl & H1 & H2 & H3 & _).
    { unfold update_peer. cbn. by rewrite lookup_insert_eq. }
    cbn in *. exists row. split_and!; [done| |done|done]. by rewrite H1, Hc.
Qed.

(** ** The client accepts it *)

(** The peer a client reads is the one the server has. *)
Lemma try_from_public p :
  length (sp_signing_public p) = 32%nat -> length (sp_noise_public p) = 32%nat ->
  PeerInfo_try_from b64_decode (public_peer p) = Ok (private_peer p).
Proof.
  intros Hs Hn. unfold PeerInfo_try_from. cbn. rewrite !b64_roundtrip. cbn.
  by rewrite Hs, Hn.
Qed.

Lemma stored_peer_verifies c now t p :
  cl_server_key c = Some (ServerSigner_public signer) -> rows_authentic now t ->
  p ∈ load_peers t ->
  verify_peer_credential c now (private_peer p) = Ok tt
  /\ verify_public_peer c now (public_peer p) = Ok (private_peer p).
Proof.
  intros Hk Hrows (id & r & Hl & Hr & ->)%elem_of_load_peers.
  destruct (Hrows id r Hl Hr) as (Hs & Hn & cred & Hp & Hv & H1 & H2 & H3).
  assert (Hc : verify_peer_credential c now (private_peer (stored_of_row id r)) = Ok tt).
  { apply verify_peer_credential_iff. exists (ServerSigner_public signer). split; [done|].
    by exists cred. }
  split; [done|]. unfold verify_public_peer. rewrite try_from_public by done.
  cbn [rmap_err rbind]. by rewrite Hc.
Qed.

Lemma rmapM_map {A B E} (f : A -> result B E) (g : A -> B) l :
  (forall x, x ∈ l -> f x = Ok (g x)) -> rmapM f l = Ok (map g l).
Proof.
  intros H. induction l as [|x l IH]; [done|]. cbn. rewrite (H x) by by left. cbn.
  rewrite IH; [done|]. intros y Hy. apply H. by right.
Qed.

(** The client's check of the server's answer *)
Lemma check_registration_ok c now later id sp np s :
  cl_server_key c = Some (ServerSigner_public signer) -> coord_inv s ->
  rows_authentic later (cs_peers s) -> blake3 sp = id ->
  0 <= now <= U64_MAX -> now <= later <= now + 3600 -> later <= U64_MAX ->
  let others := List.filter (fun p => negb (bool_decide (sp_node_id p = id))) (load_peers (cs_peers s)) in
  let sn := network_snapshot tenant signer s (online_peer_ids s) now in
  let cred := issued_credential id sp np now in
  check_registration c later (b64_encode (json_credential cred)) (map public_peer others) sn
  = Ok (mkRegistration cred (map private_peer others) sn).
Proof.
  intros Hk Hinv Hrows Hid Hn Hl Hu others sn cred.
  assert (Hin : forall p, p ∈ others -> p ∈ load_peers (cs_peers s)).
  { intros p Hp. by apply list_elem_of_In, List.filter_In in Hp as [Hp%list_elem_of_In _]. }
  unfold check_registration. rewrite b64_roundtrip. cbn [ok_or rbind].
  rewrite json_roundtrip. cbn [ok_or rbind]. rewrite Hk. cbn [ok_or rbind].
  assert (Hsn : verify_snapshot sn (ServerSigner_public signer) later = Ok tt).
  { apply sign_snapshot_verifies. cbn. unfold sat_add64. lia. }
  rewrite Hsn. cbn [rmap_err rbind].
  assert (Hv : validate blake3 sn = Ok tt).
  { destruct (online_ids_ok s) as [Hnd Hf].
    destruct (network_snapshot_valid tenant signer s Hinv (online_peer_ids s) now Hnd Hf) as [Ht Hv].
    by apply validate_iff_aux. }
  rewrite Hv. cbn [rmap_err rbind].
  rewrite (rmapM_map _ (fun _ => tt)).
  2:{ intros p (q & -> & Hq)%list_elem_of_fmap. by apply (stored_peer_verifies _ _ (cs_peers s)). }
  assert (Hcr : Credential_verify cred (ServerSigner_public signer) later = Ok tt)
    by (by apply issued_credential_verifies).
  cbn [rbind]. rewrite Hcr. cbn [rmap_err rbind].
  assert (Hps : rmapM (verify_public_peer c later) (map public_peer others) = Ok (map private_peer others)).
  { apply rmapM_Ok, Forall2_fmap, Forall_Forall2_diag, Forall_forall. intros p Hp.
    by apply (stored_peer_verifies _ _ (cs_peers s)), Hin. }
  by rewrite Hps.
Qed.

(** The server keeps the credentials of its peers authentic when it registers one
    by invite. *)
Lemma register_rows_authentic conn id inc signing noise token cands caps now later s r s' :
  handle_register tenant signer conn id inc signing noise [] (Some token) cands caps now s
    = (Ok r, s') ->
  rows_authentic later (cs_peers s) ->
  0 <= now <= U64_MAX -> now <= later <= now + 3600 -> later <= U64_MAX ->
  rows_authentic later (cs_peers s').
Proof.
  intros E Hrows Hn Hl Hu.
  apply register_reply in E as (sp & np & Hsp & Hnp & Hid & _ & Hother & row & Hrow & Hc & Hs & Hno).
  intros i r' Hi Hrev. destruct (decide (i = id)) as [->|Hne].
  - rewrite Hrow in Hi. injection Hi as <-. unfold decode_key in Hsp, Hnp.
    destruct (b64_decode signing) as [b|]; [|done]. destruct (b64_decode noise) as [b'|]; [|done].
    destruct (length b =? 32)%nat eqn:Eb; [|done]. destruct (length b' =? 32)%nat eqn:Eb'; [|done].
    injection Hsp as ->. injection Hnp as ->. unbool.
    split_and!; [congruence..|]. exists (issued_credential id sp np now).
    rewrite Hc, json_roundtrip. split_and!; try done. by apply issued_credential_verifies.
  - rewrite Hother in Hi by done. by apply (Hrows i r').
Qed.

(** A client fresh on a connection to this server, with its key *)
Definition fresh_client (c : Client) : Prop :=
  cl_server_key c = Some (ServerSigner_public signer) /\ cl_pending c = [] /\ cl_broken c = None.

Definition sound_identity (i : PublicIdentity) : Prop :=
  pid_node_id i = blake3 (pid_signing_public i)
  /\ length (pid_signing_public i) = 32%nat /\ length (pid_noise_public i) = 32%nat.

(** The checks of an answer do not wait. *)
Definition no_timeout {A} (r : result A CoordClientError) : Prop :=
  forall what, r <> Err (Client_Timeout what).

Lemma no_timeout_bind {A B} (m : result A CoordClientError) (k : A -> result B CoordClientError) :
  no_timeout m -> (forall a, no_timeout (k a)) -> no_timeout (rbind m k).
Proof.
  intros Hm Hk. destruct m as [a|e]; [apply Hk|]. intros what [= ->]. by apply (Hm what).
Qed.

Lemma no_timeout_rmapM {A B} (f : A -> result B CoordClientError) l :
  (forall x, no_timeout (f x)) -> no_timeout (rmapM f l).
Proof.
  intros Hf. induction l as [|x l IH]; [by intros what|]. cbn.
  apply no_timeout_bind; [done|]. intros y. apply no_timeout_bind; [done|]. by intros ys what.
Qed.

Lemma no_timeout_verify c now p : no_timeout (verify_peer_credential c now p).
Proof.
  unfold verify_peer_credential. repeat (apply no_timeout_bind; [|intros ?]).
  - by destruct (cl_server_key c).
  - by destruct (parse_credential (credential p)).
  - intros what. by destruct (Credential_verify _ _ _).
  - by destruct (_ || _).
Qed.

Lemma check_registration_no_timeout c now c64 ps sn : no_timeout (check_registration c now c64 ps sn).
Proof.
  unfold check_registration. repeat (apply no_timeout_bind; [|intros ?]).
  - by destruct (b64_decode c64).
  - by destruct (parse_credential _).
  - by destruct (cl_server_key c).
  - intros what. by destruct (verify_snapshot _ _ _).
  - intros what. by destruct (validate _ _).
  - apply no_timeout_rmapM. intros p. apply no_timeout_verify.
  - intros what. by destruct (Credential_verify _ _ _).
  - apply no_timeout_rmapM. intros p. unfold verify_public_peer.
    apply no_timeout_bind; [intros what; by destruct (PeerInfo_try_from _ _)|]. intros q.
    apply no_timeout_bind; [apply no_timeout_verify|]. by intros ? ?.
  - by intros ?.
Qed.

(** The client reads a reply to its registration. *)
Lemma register_reads identity inc token cred candidates now w c pings m rest :
  cl_pending c = [] -> cl_broken c = None -> forallb is_ping pings = true -> is_ping m = false ->
  register_with_incarnation identity inc token cred candidates now
    (with_io (frames_of (pings ++ m :: rest)) w c)
  = let c' := with_io (frames_of rest)
      (w ++ [WrittenText (message_to_string (register_message identity inc token cred candidates))]
         ++ pongs pings) c in
    (match m with
     | RegisterOk c64 ps sn => check_registration c' now c64 ps sn
     | ErrorMsg code why => Err (Client_Server code why)
     | _ => Err UnexpectedMessage
     end, c').
Proof.
  intros Hp Hb Hpi Hm.
  assert (E : forall w', recv (with_io (frames_of (pings ++ m :: rest)) w' c)
    = (Ok m, with_io (frames_of rest) (w' ++ pongs pings) c)).
  { intros w'. unfold recv. cbn [with_io cl_pending]. rewrite Hp. revert w'.
    induction pings as [|x pings IH]; intros w'.
    - rewrite app_nil_r. by apply recv_wire_message.
    - cbn in Hpi. apply andb_true_iff in Hpi as [Hx Hpi]. destruct x; try done.
      cbn [app]. rewrite recv_wire_ping by done. rewrite IH by done. by rewrite <- app_assoc. }
  unfold register_with_incarnation, request_timeout, register_with_incarnation_inner.
  unfold hbind, client_send, write. destruct c as [e k p st wr b]. cbn in Hp, Hb. subst p b.
  unfold with_io in *.
  cbn [cl_endpoint cl_server_key cl_pending cl_stream cl_written cl_broken].
  specialize (E (w ++ [WrittenText (message_to_string
    (register_message identity inc token cred candidates))])).
  cbn [cl_endpoint cl_server_key cl_pending cl_stream cl_written cl_broken] in E.
  rewrite E, <- app_assoc. destruct m; try done. cbn beta iota zeta.
  match goal with |- context [check_registration ?x ?n ?a ?b ?d] =>
    pose proof (check_registration_no_timeout x n a b d) as Hnt end.
  destruct (check_registration _ _ _ _ _) as [|[]]; try done. by destruct (Hnt what).
Qed.


(** The snapshot a server sends on request *)
Lemma request_snapshot_reply conn id now s r s' :
  handle_request_snapshot tenant signer conn (Some id) now s = (Ok r, s') ->
  cs_sent s' = cs_sent s ++ [(conn, Control (SnapshotResponse
                 (network_snapshot tenant signer s (online_peer_ids s) now)))].
Proof.
  unfold handle_request_snapshot, hbind, require_registered, hlift, hget, send, hret. cbn [ok_or].
  destruct (bool_decide _); [done|]. by intros [= _ <-].
Qed.

(** a snapshot request is answered by the server's snapshot of that moment:
    the client gets exactly the snapshot the server signed, it verifies under the
    server's key and is valid, and no connect signal that arrives first is lost. *)
Theorem snapshot_request_roundtrip conn id now later s r s' c w before :
  reachable tenant signer s -> later <= sat_add64 now 3600 ->
  cl_broken c = None -> queue_ok (cl_pending c) ->
  forallb (fun m => is_ping m || is_signal m || is_snapshot m) before = true ->
  handle_message tenant signer conn (Some id) RequestSnapshot now s = (Ok r, s') ->
  exists m sn c', cs_sent s' = cs_sent s ++ [(conn, Control m)]
    /\ request_snapshot (with_io (frames_of (before ++ [m])) w c) = (Ok sn, c')
    /\ sn = network_snapshot tenant signer s (online_peer_ids s) now
    /\ verify_snapshot sn (ServerSigner_public signer) later = Ok tt
    /\ validate blake3 sn = Ok tt
    /\ signals (cl_pending c') = signals (cl_pending c) ++ signals before.
Proof.
  intros Hr Hl Hb Hq Hall E. apply reachable_inv in Hr. apply request_snapshot_reply in E.
  set (sn := network_snapshot tenant signer s (online_peer_ids s) now) in *.
  destruct (request_snapshot_answers c w before sn [] Hb Hq Hall)
    as (c' & Ec & _ & _ & _ & Hs & _).
  exists (SnapshotResponse sn), sn, c'. split_and!; try done.
  - by apply sign_snapshot_verifies.
  - destruct (online_ids_ok s) as [Hn Hf].
    destruct (network_snapshot_valid tenant signer s Hr (online_peer_ids s) now Hn Hf) as [Ht Hv].
    by apply validate_iff_aux.
Qed.

(** ** Where they do not agree *)

(** A snapshot broadcast to the connection between its entry in the online table
    and the answer makes the registration fail on the client. *)
Lemma registration_interrupted identity inc token cred candidates now w c sn rest :
  cl_pending c = [] -> cl_broken c = None ->
  fst (register_with_incarnation identity inc token cred candidates now
         (with_io (frames_of (SnapshotMsg sn :: rest)) w c)) = Err UnexpectedMessage.
Proof.
  intros Hp Hb. change (SnapshotMsg sn :: rest) with ([] ++ SnapshotMsg sn :: rest).
  by rewrite register_reads.
Qed.

(** A signal that waits in the queue does the same to a second registration. *)
Lemma registration_after_signal identity inc token cred candidates now c m p :
  cl_pending c = m :: p -> is_signal m = true -> cl_broken c = None ->
  fst (register_with_incarnation identity inc token cred candidates now c) = Err UnexpectedMessage.
Proof.
  intros Hp Hm Hb. unfold register_with_incarnation, request_timeout.
  unfold register_with_incarnation_inner, hbind, client_send, write. rewrite Hb.
  unfold recv. cbn [cl_pending]. rewrite Hp. by destruct m.
Qed.

(** The answer to an update of the candidates is whatever snapshot comes next,
    also one signed before the update. *)
Lemma update_candidates_stale candidates old rest w c :
  cl_broken c = None ->
  fst (update_candidates_and_get_snapshot candidates
         (with_io (frames_of (SnapshotMsg old :: rest)) w c)) = Ok old.
Proof.
  intros Hb. unfold update_candidates_and_get_snapshot.
  change (SnapshotMsg old :: rest) with ([] ++ SnapshotMsg old :: rest).
  by rewrite (request_answered _ _ _ [] (SnapshotMsg old) old).
Qed.

(** A peer lookup loses the connect signals that arrive before its answer. *)
Lemma list_peers_drops_signals from to l rest w c :
  cl_broken c = None ->
  signals (cl_pending (snd (client_list_peers
    (with_io (frames_of (ConnectSignal from to :: ListPeersOk l :: rest)) w c))))
  = signals (cl_pending c).
Proof.
  intros Hb. unfold client_list_peers.
  change (ConnectSignal from to :: ListPeersOk l :: rest)
    with ([ConnectSignal from to] ++ ListPeersOk l :: rest).
  rewrite (request_answered _ _ _ [ConnectSignal from to] (ListPeersOk l) l); try done.
  apply Forall_singleton. by right.
Qed.

(** A peer that registers with an older credential of its own, for another noise
    key, gets a row whose keys its stored credential does not name: every client
    then refuses the server's snapshots. *)
Lemma older_credential_breaks_row conn id inc signing noise cred inv cands caps now later s r s' old c0 :
  cred <> [] ->
  handle_register tenant signer conn id inc signing noise cred inv cands caps now s = (Ok r, s') ->
  cs_peers s !! id = Some old -> parse_credential (row_credential old) = Some c0 ->
  decode_key noise <> Ok (cred_noise_public c0) ->
  exists row, cs_peers s' !! id = Some row /\ ~ row_authentic later id row.
Proof.
  intros Hc E Hold Hp Hn. apply handle_register_stages in E
    as (sp & np & stored & reg & s1 & Hsp & Hnp & Hid & Ho & fresh & _ & Hf).
  unfold obtain_credential in Ho. destruct cred as [|x cred]; [done|].
  apply hbind_Ok in Ho as (sx & s1' & [= <- <-] & Ho). apply hbind_Ok in Ho as (st & s2 & Hck & Ho).
  injection Ho as <- <- <-. injection Hck as Hck <-.
  assert (st = row_credential old) as ->.
  { unfold check_credential in Hck. inv_ok. match goal with E : _ <$> load_peer _ _ = Some _ |- _ =>
      apply fmap_Some in E as (q & Hq & ->) end.
    apply load_peer_Some in Hq as (r0 & Hr0 & _ & ->). rewrite Hold in Hr0. by injection Hr0 as <-. }
  apply finish_register_reply in Hf as (_ & _ & Hrow). edestruct Hrow as (row & Hl & H1 & H2 & H3 & _).
  { unfold update_peer. cbn. by rewrite lookup_insert_eq. }
  cbn in *. exists row. split; [done|]. intros (_ & _ & cred' & Hp' & _ & _ & _ & Hno).
  rewrite H1, Hp in Hp'. injection Hp' as <-. rewrite H3 in Hno. congruence.
Qed.

End compose.

(** ** A sample network

    The server of [CoordInv] with the text form of [Codec]: an invite for each of
    two nodes, both of which register over their connections. *)

Abbreviation sample_handle := (handle_message (HH := toy_hash) (HSg := toy_sig)
  (HT := sample_text) (str "tenant") [3]).
Abbreviation sample_reachable := (reachable (HH := toy_hash) (HSg := toy_sig)
  (HT := sample_text) (str "tenant") [3]).

Definition sample_identity (k : Z) : PublicIdentity :=
  mkIdentity (toy_node k) (toy_node k) (toy_node (k + 100)).

Definition sample_registration (k : Z) : ControlMessage :=
  register_message (HT := sample_text) (sample_identity k) 1 (Some [k]) None
    [Host (SockV4 (0x0a000000 + k) 4000)].

Definition sample_start : CoordState :=
  let invite k s := snd (create_invite (HH := toy_hash) [k] [k] [0; k] [] [] 600 100 s) in
  invite 2 (invite 1 empty_server).

Definition sample_first : CoordState := snd (sample_handle 1 None (sample_registration 1) 200 sample_start).
Definition sample_second : CoordState := snd (sample_handle 2 None (sample_registration 2) 200 sample_first).

Definition sample_client : Client :=
  mkClient (str "ws://coord") (Some [3]) [] [] [] None.

Lemma sample_start_reachable : sample_reachable sample_start.
Proof.
  exists empty_server. split; [by split_and!|].
  eapply rtc_l; [apply (step_invite _ _ empty_server [1] [1] [0; 1] [] [] 600 100)|].
  eapply rtc_once, (step_invite _ _ _ [2] [2] [0; 2] [] [] 600 100).
Qed.

Lemma sample_first_ok :
  sample_handle 1 None (sample_registration 1) 200 sample_start
  = (Ok (Some (toy_node 1)), sample_first).
Proof. vm_compute. reflexivity. Qed.

Lemma sample_second_ok :
  sample_handle 2 None (sample_registration 2) 200 sample_first
  = (Ok (Some (toy_node 2)), sample_second).
Proof. vm_compute. reflexivity. Qed.

Lemma sample_first_inv : coord_inv (HH := toy_hash) sample_first.
Proof.
  apply (keeps_handle_message (HH := toy_hash) (HSg := toy_sig) (HT := sample_text)).
  eapply reachable_inv, sample_start_reachable.
Qed.

Lemma sample_first_authentic :
  rows_authentic (HH := toy_hash) (HSg := toy_sig) (HT := sample_text) [3] 300 (cs_peers sample_first).
Proof.
  pose proof sample_first_ok as E.
  eapply (register_rows_authentic (HS := toy_sig_laws) (str "tenant") [3] _ _ _ _ _ _ _ _ 200 300);
    [exact E| |by_decide..].
  intros id r Hl. exfalso. by apply (lookup_empty_Some (M := gmap bytes) id r).
Qed.

#[local] Strategy opaque [sample_first sample_second sample_start].

Abbreviation sample_register := (register_with_incarnation (HH := toy_hash) (HSg := toy_sig)
  (HT := sample_text) (J := message_json)).


(** What the registered node reads next: a broadcast, a connect signal and the
    answer to its request *)
Definition sample_signal : ControlMessage :=
  ConnectSignal (mkPublicPeer (toy_node 1) 1 (toy_node 1) (toy_node 101) [] None None [] [])
    (toy_node 2).

Lemma sample_first_reachable : sample_reachable (set_conns {[1 := Some (toy_node 1)]} sample_first).
Proof.
  destruct sample_start_reachable as (s0 & H0 & Hs). exists s0. split; [done|].
  etransitivity; [exact Hs|].
  eapply rtc_l; [apply (step_open _ _ sample_start 1); [by_decide | by_decide]|].
  eapply rtc_l; [apply (step_receive _ _ _ (fun _ => []) 1 (sample_registration 1) 200)|].
  assert (E : receive (HH := toy_hash) (HSg := toy_sig) (HT := sample_text) (str "tenant") [3]
    (fun _ => []) 1 (sample_registration 1) 200
    (set_conns (<[1 := None]> (cs_conns sample_start)) sample_start)
    = set_conns {[1 := Some (toy_node 1)]} sample_first) by (vm_compute; reflexivity).
  rewrite E. apply rtc_refl.
Qed.

Lemma snapshot_request_roundtrip_witness :
  let s := set_conns {[1 := Some (toy_node 1)]} sample_first in
  exists m sn c', cs_sent (snd (sample_handle 1 (Some (toy_node 1)) RequestSnapshot 400 s))
      = cs_sent s ++ [(1, Control m)]
    /\ request_snapshot (J := message_json)
         (with_io (frames_of (J := message_json) ([sample_signal] ++ [m])) [] sample_client) = (Ok sn, c')
    /\ sn = network_snapshot (HH := toy_hash) (HSg := toy_sig) (str "tenant") [3] s
              (online_peer_ids s) 400
    /\ verify_snapshot (H0 := toy_sig) sn
         (ServerSigner_public (H0 := toy_sig) [3]) 1000 = Ok tt
    /\ validate toy_hash sn = Ok tt
    /\ signals (cl_pending c') = signals (cl_pending sample_client) ++ signals [sample_signal].
Proof.
  intros s.
  apply (snapshot_request_roundtrip (HH := toy_hash) (HSg := toy_sig) (HT := sample_text)
    (J := message_json) (HS := toy_sig_laws) (JL := message_json_laws)
    (str "tenant") [3] 1 (toy_node 1) 400 1000 s (Some (toy_node 1))
    (snd (sample_handle 1 (Some (toy_node 1)) RequestSnapshot 400 s)) sample_client [] [sample_signal]).
  - apply sample_first_reachable.
  - by_decide.
  - reflexivity.
  - split; [reflexivity | cbn; lia].
  - reflexivity.
  - vm_compute. reflexivity.
Defined.

Lemma registration_authentic_witness :
  exists key, cl_server_key (with_io (frames_of (J := message_json)
      [RegisterOk (json_credential (TextOps := sample_text)
         (issued_credential (HH := toy_hash) (HSg := toy_sig) (str "tenant") [3]
            (toy_node 1) (toy_node 1) (toy_node 101) 200)) []
         (network_snapshot (HH := toy_hash) (HSg := toy_sig) (str "tenant") [3]
            sample_first (online_peer_ids sample_first) 200)]) [] sample_client) = Some key.
Proof.
  edestruct (registration_authentic (HH := toy_hash) (HSg := toy_sig) (HT := sample_text)
    (J := message_json) (sample_identity 1) 1 (Some [1]) None [] 300
    (with_io (frames_of (J := message_json)
      [RegisterOk (json_credential (TextOps := sample_text)
         (issued_credential (HH := toy_hash) (HSg := toy_sig) (str "tenant") [3]
            (toy_node 1) (toy_node 1) (toy_node 101) 200)) []
         (network_snapshot (HH := toy_hash) (HSg := toy_sig) (str "tenant") [3]
            sample_first (online_peer_ids sample_first) 200)]) [] sample_client))
    as (key & Hk & _).
  - vm_compute. reflexivity.
  - exists key. exact Hk.
Defined.

Lemma client_queue_invariant_witness :
  queue_ok (cl_pending (snd (request_snapshot (J := message_json)
    (set_stream (frames_of (J := message_json) [sample_signal]) (new_client (str "ws://coord")))))).
Proof.
  apply (client_queue_invariant (HH := toy_hash) (HSg := toy_sig) (HT := sample_text)
    (J := message_json) (str "ws://coord")).
  eapply rtc_l; [apply (client_deliver _ (frames_of (J := message_json) [sample_signal]))|].
  eapply rtc_once, client_request.
Defined.
