(* ===== verification/TunRoutes.v ===== *)
(** * Host routes of the TUN interface

    [RouteManager] and [RouteLease] of [vela-tun/src/lib.rs], and
    [install_snapshot_routes] there; [apply_tun_snapshot] and
    [release_route_leases] of [vela-cli/src/main.rs], which keep the routes of the
    interface equal to the addresses of the members of the current snapshot.

    The kernel is a parameter: adding or deleting a route succeeds or fails and
    changes the table.  A lease that is dropped hands its key to a task the
    runtime runs later; the state keeps the keys of these tasks.  The iteration
    order of a hash table is a parameter as well. *)
From stdpp Require Import gmultiset.
From S2P Require Import Prelude Net Encoding Wire NodeId Snapshot.

Inductive TunError : Type :=
| TunIo (e : bytes) | InvalidName | InvalidMtu | TunPacketTooLarge | TunClosed | Unsupported
| InterfaceNotFound (name : bytes) | Netlink (e : bytes) | TunCore (e : bytes)
| TunSnapshot (e : ProtoError).

(** Adding and deleting a host route, and setting an address of the interface *)
Class RouteKernel (K : Type) : Type := {
  route_add : IpAddr -> K -> result unit bytes * K;
  route_del : IpAddr -> K -> result unit bytes * K;
  address_add : IpAddr -> Z -> K -> result unit bytes * K;
  kernel_routes : K -> gset IpAddr
}.

(** What netlink documents: a request that fails changes nothing, an added route is
    in the table and was not there (the request does not replace), a deleted one
    is not, and a route that is there can be deleted. *)
Class RouteKernelLaws (K : Type) {RK : RouteKernel K} : Prop := {
  route_add_ok : forall a k k', route_add a k = (Ok tt, k') ->
    a ∉ kernel_routes k /\ kernel_routes k' = {[a]} ∪ kernel_routes k;
  route_add_err : forall a k e k', route_add a k = (Err e, k') -> kernel_routes k' = kernel_routes k;
  route_del_present : forall a k, a ∈ kernel_routes k -> exists k',
    route_del a k = (Ok tt, k') /\ kernel_routes k' = kernel_routes k ∖ {[a]};
  address_add_routes : forall a p k, kernel_routes (snd (address_add a p k)) = kernel_routes k
}.

Record RouteLease : Type := mkLease { lease_key : IpAddr; lease_released : bool }.

(** The manager's count of leases per route, the kernel, and the keys that
    dropped leases left for the runtime to release. *)
Record Routes (K : Type) : Type := mkRoutes {
  ro_owned : gmap IpAddr nat;
  ro_kernel : K;
  ro_spawned : list IpAddr
}.
Arguments mkRoutes {K}.
Arguments ro_owned {K}.
Arguments ro_kernel {K}.
Arguments ro_spawned {K}.

Section manager.
Context {K : Type} {RK : RouteKernel K}.
Local Notation R := (handler (Routes K) TunError).

Definition set_owned (o : gmap IpAddr nat) (r : Routes K) : Routes K :=
  mkRoutes o (ro_kernel r) (ro_spawned r).
Definition set_spawned (l : list IpAddr) (r : Routes K) : Routes K :=
  mkRoutes (ro_owned r) (ro_kernel r) l.

(** A request to the kernel *)
Definition netlink (request : K -> result unit bytes * K) : R unit := fun r =>
  let '(res, k) := request (ro_kernel r) in
  (rmap_err Netlink res, mkRoutes (ro_owned r) k (ro_spawned r)).

Definition add_local_address (a : IpAddr) (prefix_len : Z) : R unit :=
  netlink (address_add a prefix_len).

Definition claim_host_route (key : IpAddr) : R RouteLease := fun r =>
  match ro_owned r !! key with
  | Some count => (Ok (mkLease key false), set_owned (<[key := S count]> (ro_owned r)) r)
  | None =>
      let r := set_owned (<[key := 1%nat]> (ro_owned r)) r in
      match netlink (route_add key) r with
      | (Err e, r) => (Err e, set_owned (delete key (ro_owned r)) r)
      | (Ok _, r) => (Ok (mkLease key false), r)
      end
  end.

(** [RouteManager::release] *)
Definition release_key (key : IpAddr) : R unit := fun r =>
  let last :=
    let '(res, r) := netlink (route_del key) r in (res, set_owned (delete key (ro_owned r)) r) in
  match ro_owned r !! key with
  | Some count =>
      if (1 <? count)%nat then (Ok tt, set_owned (<[key := Nat.pred count]> (ro_owned r)) r)
      else last
  | None => last
  end.

(** [Drop for RouteLease] *)
Definition lease_drop (l : RouteLease) (r : Routes K) : Routes K :=
  if lease_released l then r else set_spawned (ro_spawned r ++ [lease_key l]) r.

(** [RouteLease::release]: the lease is dropped when the function returns *)
Definition lease_release (l : RouteLease) : R unit := fun r =>
  if lease_released l then (Ok tt, r)
  else
    match release_key (lease_key l) r with
    | (Ok _, r) => (Ok tt, lease_drop (mkLease (lease_key l) true) r)
    | (Err e, r) => (Err e, lease_drop l r)
    end.

(** The runtime runs a task that a dropped lease left. *)
Definition run_spawned (i : nat) (r : Routes K) : Routes K :=
  match ro_spawned r !! i with
  | Some key => snd (release_key key (set_spawned (delete i (ro_spawned r)) r))
  | None => r
  end.

Context (blake3 : bytes -> bytes).

Definition snapshot_route_addresses (s : NetworkSnapshot) (local : bytes)
    : result (list IpAddr) TunError :=
  let? _ := rmap_err TunSnapshot (validate blake3 s) in
  Ok (concat (map (fun p =>
    if bool_decide (node_id p = local) then []
    else option_list (V4 <$> virtual_ipv4 p) ++ option_list (V6 <$> virtual_ipv6 p)) (peers s))).

(** The loop of [install_snapshot_routes]; the leases are dropped when it fails *)
Fixpoint claim_all (addresses : list IpAddr) (leases : list RouteLease) : R (list RouteLease) :=
  match addresses with
  | [] => hret leases
  | a :: rest => fun r =>
      match claim_host_route a r with
      | (Ok l, r) => claim_all rest (leases ++ [l]) r
      | (Err e, r) => (Err e, foldl (fun r l => lease_drop l r) r leases)
      end
  end.

Definition install_snapshot_routes (s : NetworkSnapshot) (local : bytes) : R (list RouteLease) :=
  let! addresses := hlift (snapshot_route_addresses s local) in
  claim_all addresses [].

(** ** The command-line client *)

Inductive CliError : Type :=
| InvalidInput (why : bytes)
| InvalidSnapshotInput (e : ProtoError)
| CliTun (e : TunError).

(** The manager and the leases by address *)
Record TunPeer : Type := mkTunPeer {
  tp_routes : Routes K;
  tp_leases : gmap IpAddr RouteLease
}.
Local Notation T := (handler TunPeer CliError).

Definition on_routes {A} (m : R A) : T A := fun t =>
  let '(res, r) := m (tp_routes t) in (rmap_err CliTun res, mkTunPeer r (tp_leases t)).

Definition set_leases (m : gmap IpAddr RouteLease) (t : TunPeer) : TunPeer :=
  mkTunPeer (tp_routes t) m.

(** The order in which a hash table or a hash set lists its keys *)
Context (order : list IpAddr -> list IpAddr).

Fixpoint claim_missing (l : list IpAddr) : T unit :=
  match l with
  | [] => hret tt
  | a :: rest =>
      let! lease := on_routes (claim_host_route a) in
      let! _ := hmodify (fun t => set_leases (<[a := lease]> (tp_leases t)) t) in
      claim_missing rest
  end.

Fixpoint release_stale (l : list IpAddr) : T unit :=
  match l with
  | [] => hret tt
  | a :: rest =>
      let! t := hget in
      let! _ := match tp_leases t !! a with
                | Some lease =>
                    let! _ := hmodify (set_leases (delete a (tp_leases t))) in
                    let! _ := (htry (on_routes (lease_release lease)) : T (result unit CliError)) in
                    hret tt
                | None => hret tt
                end in
      release_stale rest
  end.

Definition set_local_address (o : option (IpAddr * Z)) : T unit :=
  match o with
  | Some (a, prefix_len) => on_routes (add_local_address a prefix_len)
  | None => hret tt
  end.

Definition local_ipv4 (s : NetworkSnapshot) (local : PeerInfo) : option (IpAddr * Z) :=
  match virtual_ipv4 local, snap_ipv4 s with
  | Some a, Some c => Some (V4 a, cidr4_prefix c)
  | _, _ => None
  end.

Definition local_ipv6 (s : NetworkSnapshot) (local : PeerInfo) : option (IpAddr * Z) :=
  match virtual_ipv6 local, snap_ipv6 s with
  | Some a, Some c => Some (V6 a, cidr6_prefix c)
  | _, _ => None
  end.

Definition apply_tun_snapshot (id : bytes) (s : NetworkSnapshot) : T unit :=
  let! _ := hlift (rmap_err InvalidSnapshotInput (validate blake3 s)) in
  let! local := hlift (ok_or (list_find (fun p => node_id p = id) (peers s))
                         (InvalidInput (str "snapshot does not contain this node"))) in
  let! _ := set_local_address (local_ipv4 s local.2) in
  let! _ := set_local_address (local_ipv6 s local.2) in
  let! addresses := hlift (rmap_err CliTun (snapshot_route_addresses s id)) in
  let desired : gset IpAddr := list_to_set addresses in
  let! t := hget in
  let! _ := claim_missing (filter (fun a => tp_leases t !! a = None) (order (elements desired))) in
  let! t := hget in
  release_stale (filter (fun a => a ∉ desired) (order (elements (dom (tp_leases t))))).

(** [release_route_leases]; the timeout that may cut it short drops the leases
    that are left (it is taken to fall between two releases). *)
Fixpoint release_leases (n : nat) (l : list RouteLease) {struct l} : R unit :=
  match l with
  | [] => hret tt
  | lease :: rest =>
      match n with
      | O => fun r => (Ok tt, foldl (fun r l => lease_drop l r) r (lease :: rest))
      | S n => let! _ := (htry (lease_release lease) : R (result unit TunError)) in
               release_leases n rest
      end
  end.

Definition release_route_leases (n : nat) : T unit := fun t =>
  on_routes (release_leases n (omap (fun a => tp_leases t !! a)
                                 (order (elements (dom (tp_leases t))))))
    (set_leases ∅ t).
End manager.
Arguments TunPeer : clear implicits.

(** ** Every lease is counted *)

Section counting.
Context {K : Type} {RK : RouteKernel K} {RL : RouteKernelLaws K}.

(** The routes in the kernel that the manager did not add *)
Definition foreign (r : Routes K) : gset IpAddr := kernel_routes (ro_kernel r) ∖ dom (ro_owned r).

(** The manager counts the leases that are [held] and those left to the runtime,
    and every route it counts is in the kernel. *)
Definition routes_ok (held : gmultiset IpAddr) (r : Routes K) : Prop :=
  (forall k, default 0%nat (ro_owned r !! k)
             = multiplicity k (held ⊎ list_to_set_disj (ro_spawned r)))
  /\ (forall k n, ro_owned r !! k = Some n -> (1 <= n)%nat /\ k ∈ kernel_routes (ro_kernel r)).

Lemma default_insert (m : gmap IpAddr nat) a n k :
  default 0%nat (<[a := n]> m !! k) = if decide (k = a) then n else default 0%nat (m !! k).
Proof. case_decide; [subst; by rewrite lookup_insert_eq | by rewrite lookup_insert_ne]. Qed.

Lemma default_delete (m : gmap IpAddr nat) a k :
  default 0%nat (delete a m !! k) = if decide (k = a) then 0%nat else default 0%nat (m !! k).
Proof. case_decide; [subst; by rewrite lookup_delete_eq | by rewrite lookup_delete_ne]. Qed.

Ltac proj := cbn [ro_owned ro_kernel ro_spawned set_owned set_spawned lease_key lease_released fst snd rmap_err] in *.

Ltac counts := rewrite ?default_insert, ?default_delete, ?list_to_set_disj_app, ?list_to_set_disj_cons,
  ?list_to_set_disj_nil, ?multiplicity_disj_union, ?multiplicity_difference, ?multiplicity_singleton,
  ?multiplicity_empty in *.

Lemma claim_host_route_spec held a r res r' :
  routes_ok held r -> claim_host_route a r = (res, r') ->
  foreign r' = foreign r /\ ro_spawned r' = ro_spawned r
  /\ match res with
     | Ok l => l = mkLease a false /\ routes_ok ({[+ a +]} ⊎ held) r' /\ a ∉ foreign r
     | Err _ => r' = set_owned (ro_owned r) r' /\ routes_ok held r'
     end.
Proof.
  intros [Hc Hk]. unfold claim_host_route, netlink, foreign.
  pose proof (Hc a) as Ha. destruct (ro_owned r !! a) as [count|] eqn:Eo.
  - intros [= <- <-]. proj. destruct (Hk a count Eo) as [? Hin].
    split_and!; [|done..| |].
    + rewrite dom_insert_L. apply elem_of_dom_2 in Eo. set_solver.
    + split; proj.
      * intros k. specialize (Hc k). counts. case_decide; [subst; rewrite Eo in *; cbn in *; lia | lia].
      * intros k n. rewrite lookup_insert_Some. naive_solver lia.
    + apply elem_of_dom_2 in Eo. set_solver.
  - assert (Hd : a ∉ dom (ro_owned r)) by by apply not_elem_of_dom.
    destruct (route_add a (ro_kernel (set_owned (<[a:=1%nat]> (ro_owned r)) r))) as [[[]|e] k'] eqn:Ea;
      proj; intros [= <- <-]; proj.
    + destruct (route_add_ok _ _ _ Ea) as [Hn Hr]. rewrite Hr.
      split_and!; [rewrite dom_insert_L; set_solver | done..| | set_solver].
      split; proj.
      * intros k. specialize (Hc k). counts. case_decide; [subst; rewrite Eo in *; cbn in *; lia | lia].
      * intros k n. rewrite lookup_insert_Some, Hr. intros [[<- <-]|[? Ho]]; [set_solver by lia|].
        destruct (Hk _ _ Ho). set_solver.
    + pose proof (route_add_err _ _ _ _ Ea) as Hr. rewrite Hr.
      rewrite delete_insert_id by done. split_and!; [done..|]. split; proj; [done|].
      intros k n Ho. rewrite Hr. by apply Hk.
Qed.

(** Releasing a key one of whose leases is held takes that lease off the count;
    it cannot fail. *)
Lemma release_key_spec held a r :
  routes_ok ({[+ a +]} ⊎ held) r -> exists r',
  release_key a r = (Ok tt, r') /\ foreign r' = foreign r /\ ro_spawned r' = ro_spawned r
  /\ routes_ok held r'.
Proof.
  intros [Hc Hk]. pose proof (Hc a) as Ha. unfold release_key, netlink, foreign. counts.
  rewrite decide_True in Ha by done.
  destruct (ro_owned r !! a) as [count|] eqn:Eo; cbn in Ha; [|lia].
  destruct (Hk a count Eo) as [_ Hin]. destruct (Nat.ltb_spec 1 count) as [H1|H1].
  - eexists; split; [done|]. proj. split_and!; [|done|].
    + rewrite dom_insert_L. apply elem_of_dom_2 in Eo. set_solver.
    + split; proj.
      * intros k. specialize (Hc k). counts. repeat case_decide; subst; rewrite ?Eo in *; cbn in *; lia.
      * intros k n. rewrite lookup_insert_Some. naive_solver lia.
  - destruct (route_del_present a (ro_kernel r) Hin) as (k' & Ed & Hr). rewrite Ed.
    eexists; split; [done|]. proj. rewrite Hr. split_and!; [rewrite dom_delete_L|done|].
    + apply elem_of_dom_2 in Eo. apply leibniz_equiv. intros x. rewrite !elem_of_difference.
      destruct (decide (x = a)); set_solver.
    + split; proj.
      * intros k. specialize (Hc k). counts. repeat case_decide; subst; rewrite ?Eo in *; cbn in *; lia.
      * intros k n. rewrite lookup_delete_Some, Hr. intros [Hne Ho].
        destruct (Hk _ _ Ho). set_solver.
Qed.

Lemma lease_drop_ok held a r :
  routes_ok ({[+ a +]} ⊎ held) r -> routes_ok held (lease_drop (mkLease a false) r).
Proof.
  intros [Hc Hk]. split; [|done]. intros k. specialize (Hc k). unfold lease_drop. proj. counts. lia.
Qed.

Lemma lease_release_spec held a r :
  routes_ok ({[+ a +]} ⊎ held) r -> exists r',
  lease_release (mkLease a false) r = (Ok tt, r') /\ foreign r' = foreign r
  /\ ro_spawned r' = ro_spawned r /\ routes_ok held r'.
Proof.
  intros Hok. destruct (release_key_spec held a r Hok) as (r' & E & H).
  exists r'. split; [|done]. unfold lease_release. proj. by rewrite E.
Qed.

Lemma run_spawned_spec held i r :
  routes_ok held r -> routes_ok held (run_spawned i r) /\ foreign (run_spawned i r) = foreign r.
Proof.
  intros Hok. unfold run_spawned. destruct (ro_spawned r !! i) as [a|] eqn:Ei; [|done].
  assert (Hok' : routes_ok ({[+ a +]} ⊎ held) (set_spawned (delete i (ro_spawned r)) r)).
  { destruct Hok as [Hc Hk]. split; [|done]. intros k. specialize (Hc k). proj.
    rewrite (list_to_set_disj_perm _ _ (delete_Permutation _ _ _ Ei)) in Hc. counts. lia. }
  destruct (release_key_spec held a _ Hok') as (r' & E & Hf & _ & H). rewrite E. done.
Qed.

Lemma netlink_address_spec held a p r :
  routes_ok held r ->
  let r' := snd (add_local_address a p r) in
  routes_ok held r' /\ foreign r' = foreign r /\ ro_spawned r' = ro_spawned r.
Proof.
  intros [Hc Hk]. unfold add_local_address, netlink, foreign.
  pose proof (address_add_routes a p (ro_kernel r)) as Hr.
  destruct (address_add a p (ro_kernel r)) as [res k']. proj. rewrite Hr.
  split_and!; [|done..]. split; proj; [done|]. rewrite Hr. apply Hk.
Qed.
End counting.

(** ** The routes of the current snapshot *)

Section snapshot.
Context {K : Type} {RK : RouteKernel K} {RL : RouteKernelLaws K}.
Context (blake3 : bytes -> bytes).
Context (order : list IpAddr -> list IpAddr) (order_perm : forall l, order l ≡ₚ l).

(** One lease for each address in the table *)
Definition held (m : gmap IpAddr RouteLease) : gmultiset IpAddr :=
  list_to_set_disj (elements (dom m)).

Lemma held_insert m a l : m !! a = None -> held (<[a := l]> m) = {[+ a +]} ⊎ held m.
Proof.
  intros Hn. unfold held. rewrite dom_insert_L, <-list_to_set_disj_cons.
  apply list_to_set_disj_perm, elements_union_singleton. by apply not_elem_of_dom.
Qed.

Lemma held_delete m a l : m !! a = Some l -> held m = {[+ a +]} ⊎ held (delete a m).
Proof.
  intros Ha. rewrite <-(insert_delete_id m a l Ha) at 1. apply held_insert, lookup_delete_eq.
Qed.

Lemma multiplicity_held m k :
  multiplicity k (held m) = if decide (k ∈ dom m) then 1%nat else 0%nat.
Proof.
  induction m as [|a l m Ha IH] using map_ind.
  - unfold held. rewrite dom_empty_L, elements_empty, decide_False by set_solver. done.
  - rewrite held_insert, multiplicity_disj_union, multiplicity_singleton, IH, dom_insert_L by done.
    apply not_elem_of_dom in Ha. repeat case_decide; set_solver.
Qed.

Definition peer_ok (t : TunPeer K) : Prop :=
  map_Forall (fun k l => l = mkLease k false) (tp_leases t)
  /\ routes_ok (held (tp_leases t)) (tp_routes t).

(** What every operation of the client keeps *)
Definition same_world (t t' : TunPeer K) : Prop :=
  foreign (tp_routes t') = foreign (tp_routes t)
  /\ ro_spawned (tp_routes t') = ro_spawned (tp_routes t).

(** The routes in the kernel: others' routes, one for each lease, and those that
    wait to be deleted. *)
Lemma peer_ok_routes t :
  peer_ok t ->
  kernel_routes (ro_kernel (tp_routes t))
  = foreign (tp_routes t) ∪ dom (tp_leases t) ∪ list_to_set (ro_spawned (tp_routes t)).
Proof.
  intros [_ [Hc Hk]].
  assert (Hd : forall k, k ∈ dom (ro_owned (tp_routes t))
               <-> k ∈ dom (tp_leases t) \/ k ∈ ro_spawned (tp_routes t)).
  { intros k. specialize (Hc k). specialize (Hk k).
    rewrite multiplicity_disj_union, multiplicity_held in Hc.
    rewrite <-(elem_of_list_to_set_disj k (ro_spawned (tp_routes t))), elem_of_multiplicity,
      (elem_of_dom (ro_owned (tp_routes t))).
    destruct (ro_owned (tp_routes t) !! k) as [n|]; cbn in Hc.
    - destruct (Hk n eq_refl) as [? _]. case_decide; split; intros; [by left|done| |done]. right. lia.
    - case_decide; [lia|]. split; [by intros []|]. intros [|]; [done|lia]. }
  assert (Hin : dom (ro_owned (tp_routes t)) ⊆ kernel_routes (ro_kernel (tp_routes t))).
  { intros k [n Hn]%elem_of_dom. by apply (Hk k n). }
  apply leibniz_equiv. intros k. unfold foreign.
  rewrite !elem_of_union, elem_of_difference, Hd, elem_of_list_to_set.
  specialize (Hd k). destruct (decide (k ∈ dom (ro_owned (tp_routes t)))); set_solver.
Qed.

Lemma claim_missing_spec l t res t' :
  peer_ok t -> NoDup l -> Forall (fun a => tp_leases t !! a = None) l ->
  claim_missing l t = (res, t') ->
  peer_ok t' /\ same_world t t'
  /\ (res = Ok tt -> dom (tp_leases t') = list_to_set l ∪ dom (tp_leases t)
                     /\ Forall (fun a => a ∉ foreign (tp_routes t)) l).
Proof.
  revert t. induction l as [|a l IH]; intros t Hok Hnd Hn.
  { intros [= <- <-]. split_and!; [done..|]. intros _. split; [set_solver|done]. }
  apply NoDup_cons in Hnd as [Hal Hnd]. apply Forall_cons in Hn as [Ha Hn]. cbn [claim_missing].
  unfold hbind, on_routes, hmodify, set_leases.
  destruct (claim_host_route a (tp_routes t)) as [r1 ro1] eqn:E.
  destruct (claim_host_route_spec _ _ _ _ _ (proj2 Hok) E) as (Hf & Hs & H1).
  destruct r1 as [le|e]; cbn [rmap_err tp_routes tp_leases fst snd].
  - destruct H1 as (-> & Hr & Hnf). intros Et.
    apply IH in Et as (Hok' & [Hf' Hs'] & Hd);
      [..|done|rewrite Forall_forall in Hn |- *; intros x Hx; cbn; rewrite lookup_insert_ne by set_solver; auto].
    + cbn in *. split_and!; [done| by split; etrans|]. intros Hres. destruct (Hd Hres) as [Hd1 Hd2].
      rewrite Hd1, dom_insert_L. split; [set_solver|]. rewrite Hf in Hd2. by constructor.
    + split; cbn; [|by rewrite held_insert].
      apply map_Forall_insert; [done|]. split; [done|apply Hok].
  - intros [= <- <-]. split_and!; [|by split|done]. split; [apply Hok|apply H1].
Qed.

Lemma release_stale_spec l t :
  peer_ok t -> exists t', release_stale l t = (Ok tt, t')
  /\ peer_ok t' /\ same_world t t' /\ dom (tp_leases t') = dom (tp_leases t) ∖ list_to_set l.
Proof.
  revert t. induction l as [|a l IH]; intros t Hok.
  { exists t. split_and!; [done..|set_solver]. }
  cbn [release_stale]. unfold hbind, hget. destruct (tp_leases t !! a) as [le|] eqn:Ea.
  - pose proof (proj1 Hok a le Ea) as ->.
    unfold hmodify, htry, on_routes, set_leases. cbn [tp_routes tp_leases].
    destruct (lease_release_spec (held (delete a (tp_leases t))) a (tp_routes t)) as (r & -> & Hf & Hs & Hr).
    { rewrite <-(held_delete _ _ _ Ea). apply Hok. }
    cbn [rmap_err hret tp_routes tp_leases].
    destruct (IH (mkTunPeer r (delete a (tp_leases t)))) as (t' & -> & Hok' & [Hf' Hs'] & Hd).
    { split; cbn; [|done]. apply map_Forall_delete, Hok. }
    exists t'. cbn in *. split_and!; [done|done|split; congruence|].
    rewrite Hd, dom_delete_L. set_solver.
  - cbn [hret]. destruct (IH t Hok) as (t' & -> & Hok' & Hw & Hd).
    exists t'. split_and!; [done..|]. rewrite Hd. apply not_elem_of_dom in Ea. set_solver.
Qed.

Lemma set_local_address_spec o t res t' :
  peer_ok t -> set_local_address o t = (res, t') ->
  peer_ok t' /\ same_world t t' /\ tp_leases t' = tp_leases t.
Proof.
  intros [Hl Hr]. destruct o as [[a p]|]; cbn [set_local_address]; [|by intros [= <- <-]].
  unfold on_routes. pose proof (netlink_address_spec _ a p _ Hr) as Hn.
  destruct (add_local_address a p (tp_routes t)) as [r1 ro1]. intros [= <- <-].
  cbn in *. unfold peer_ok, same_world. naive_solver.
Qed.

Lemma elem_of_option_list {A} (o : option A) a : a ∈ option_list o <-> o = Some a.
Proof. destruct o; cbn; [rewrite list_elem_of_singleton; naive_solver | split; [by intros ?%elem_of_nil|done]]. Qed.

(** The addresses of the other members, whether they are online or not *)
Definition member_address (s : NetworkSnapshot) (id : bytes) (a : IpAddr) : Prop :=
  exists p, p ∈ peers s /\ node_id p <> id
    /\ (V4 <$> virtual_ipv4 p = Some a \/ V6 <$> virtual_ipv6 p = Some a).

Lemma snapshot_route_addresses_spec s id l :
  snapshot_route_addresses blake3 s id = Ok l ->
  validate blake3 s = Ok tt /\ forall a, a ∈ l <-> member_address s id a.
Proof.
  unfold snapshot_route_addresses. rewrite rbind_unit, rmap_err_Ok. intros [Hv [= <-]].
  split; [done|]. intros a. rewrite list_elem_of_In, in_concat. setoid_rewrite in_map_iff.
  setoid_rewrite <-list_elem_of_In. unfold member_address. split.
  - intros (x & (p & <- & Hp) & Ha). exists p. case_bool_decide; [set_solver|].
    split_and!; [done..|]. apply elem_of_app in Ha. by rewrite !elem_of_option_list in Ha.
  - intros (p & Hp & Hne & Ha). eexists. split; [by exists p|]. rewrite bool_decide_false by done.
    by rewrite elem_of_app, !elem_of_option_list.
Qed.

Lemma apply_tun_snapshot_spec id s t res t' :
  peer_ok t -> apply_tun_snapshot blake3 order id s t = (res, t') ->
  peer_ok t' /\ same_world t t'
  /\ (res = Ok tt -> exists addresses, snapshot_route_addresses blake3 s id = Ok addresses
                     /\ dom (tp_leases t') = list_to_set addresses).
Proof.
  intros Hok. unfold apply_tun_snapshot. unfold hbind at 1, hlift at 1.
  destruct (rmap_err _ (validate blake3 s)); [|by intros [= <- <-]].
  unfold hbind at 1, hlift at 1. destruct (ok_or _ _) as [local|]; [|by intros [= <- <-]].
  unfold hbind at 1. destruct (set_local_address _ t) as [r1 t1] eqn:E1.
  destruct (set_local_address_spec _ _ _ _ Hok E1) as (Hok1 & [Hf1 Hs1] & Hl1).
  destruct r1 as [[]|]; [|by intros [= <- <-]].
  unfold hbind at 1. destruct (set_local_address _ t1) as [r2 t2] eqn:E2.
  destruct (set_local_address_spec _ _ _ _ Hok1 E2) as (Hok2 & [Hf2 Hs2] & Hl2).
  assert (W2 : same_world t t2) by (split; congruence).
  destruct r2 as [[]|]; [|by intros [= <- <-]].
  unfold hbind at 1, hlift. destruct (snapshot_route_addresses blake3 s id) as [addresses|]; [|by intros [= <- <-]].
  cbn [rmap_err]. unfold hbind, hget.
  set (desired := list_to_set addresses : gset IpAddr).
  destruct (claim_missing _ t2) as [r3 t3] eqn:E3.
  apply claim_missing_spec in E3 as (Hok3 & [Hf3 Hs3] & Hd3); [|done| |].
  2: { apply NoDup_filter. rewrite order_perm. apply NoDup_elements. }
  2: { rewrite Forall_forall. intros x [? _]%list_elem_of_filter. done. }
  assert (W3 : same_world t t3) by (destruct W2; split; congruence).
  destruct r3 as [[]|]; [|by intros [= <- <-]].
  destruct (release_stale_spec (filter (fun a => a ∉ desired) (order (elements (dom (tp_leases t3))))) t3 Hok3)
    as (t4 & -> & Hok4 & [Hf4 Hs4] & Hd4).
  intros [= <- <-]. split_and!; [done|destruct W3; split; congruence|].
  intros _. exists addresses. split; [done|]. destruct (Hd3 eq_refl) as [Hd3' _].
  rewrite Hd4, Hd3'. apply leibniz_equiv. intros x.
  rewrite elem_of_difference, elem_of_union, !elem_of_list_to_set, !list_elem_of_filter, !order_perm,
    !elem_of_elements, elem_of_union, elem_of_list_to_set, list_elem_of_filter, elem_of_elements.
  assert (Hx : x ∈ addresses <-> x ∈ desired) by (subst desired; by rewrite elem_of_list_to_set).
  rewrite Hx.
  destruct (decide (x ∈ desired)), (tp_leases t2 !! x) eqn:Ex;
    rewrite ?elem_of_dom, ?Ex; rewrite ?is_Some_alt; naive_solver.
Qed.

Lemma drop_leases_ok l h r :
  routes_ok (list_to_set_disj (map lease_key l) ⊎ h) r -> Forall (fun x => lease_released x = false) l ->
  let r' := foldl (fun r x => lease_drop x r) r l in
  routes_ok h r' /\ foreign r' = foreign r.
Proof.
  revert r. induction l as [|[a b] l IH]; intros r Hok Hl; cbn [foldl map].
  { split; [|done]. cbn [map] in Hok. by rewrite list_to_set_disj_nil, (left_id_L ∅ (⊎)) in Hok. }
  apply Forall_cons in Hl as [Hb Hl]. cbn in Hb. subst b.
  cbn [map lease_key] in Hok. rewrite list_to_set_disj_cons, <-(assoc_L (⊎)) in Hok.
  by apply lease_drop_ok, IH in Hok.
Qed.

Lemma release_leases_spec n l h r :
  routes_ok (list_to_set_disj (map lease_key l) ⊎ h) r -> Forall (fun x => lease_released x = false) l ->
  let r' := snd (release_leases n l r) in
  routes_ok h r' /\ foreign r' = foreign r.
Proof.
  revert n r. induction l as [|[a b] l IH]; intros n r Hok Hl; cbn [release_leases].
  { split; [|done]. cbn [map] in Hok. by rewrite list_to_set_disj_nil, (left_id_L ∅ (⊎)) in Hok. }
  destruct n as [|n]; [by apply drop_leases_ok|].
  apply Forall_cons in Hl as [Hb Hl]. cbn in Hb. subst b.
  cbn [map lease_key] in Hok. rewrite list_to_set_disj_cons, <-(assoc_L (⊎)) in Hok.
  destruct (lease_release_spec _ a r Hok) as (r1 & E & Hf & _ & Hok1).
  unfold hbind, htry. rewrite E. cbn. destruct (IH n r1 Hok1 Hl) as [? Hf']. split; [done|congruence].
Qed.

Lemma leases_listed (m : gmap IpAddr RouteLease) :
  map_Forall (fun k l => l = mkLease k false) m ->
  omap (fun a => m !! a) (order (elements (dom m))) = map (fun a => mkLease a false) (order (elements (dom m))).
Proof.
  intros Hm. assert (Hin : forall a, a ∈ order (elements (dom m)) -> m !! a = Some (mkLease a false)).
  { intros a. rewrite order_perm, elem_of_elements, elem_of_dom. intros [l Hl].
    by rewrite Hl, (Hm a l Hl). }
  induction (order _) as [|a l IH]; [done|]. cbn. rewrite Hin by set_solver.
  rewrite IH by set_solver. done.
Qed.

Lemma release_route_leases_spec n t res t' :
  peer_ok t -> release_route_leases order n t = (res, t') ->
  peer_ok t' /\ foreign (tp_routes t') = foreign (tp_routes t) /\ tp_leases t' = ∅.
Proof.
  intros [Hl Hr]. unfold release_route_leases, on_routes, set_leases. rewrite (leases_listed _ Hl).
  cbn [tp_routes tp_leases].
  destruct (release_leases_spec n (map (fun a => mkLease a false) (order (elements (dom (tp_leases t))))) ∅
              (tp_routes t)) as [Hok Hf].
  - rewrite map_map, map_id. cbn [lease_key]. rewrite order_perm. by rewrite (right_id_L ∅ (⊎)).
  - by apply Forall_map, Forall_true.
  - destruct (release_leases _ _ _) as [x r]. intros [= <- <-]. cbn in *. split_and!; [|done..].
    split; [done|]. cbn. unfold held. by rewrite dom_empty_L, elements_empty.
Qed.

(** What happens to the routes while the peer runs *)
Inductive tun_step : TunPeer K -> TunPeer K -> Prop :=
| step_snapshot id s t res t' : apply_tun_snapshot blake3 order id s t = (res, t') -> tun_step t t'
| step_shutdown n t res t' : release_route_leases order n t = (res, t') -> tun_step t t'
| step_task i t : tun_step t (mkTunPeer (run_spawned i (tp_routes t)) (tp_leases t)).

Definition fresh_tun (k : K) : TunPeer K := mkTunPeer (mkRoutes ∅ k []) ∅.

Lemma reachable_peer_ok k t :
  rtc tun_step (fresh_tun k) t -> peer_ok t /\ foreign (tp_routes t) = kernel_routes k.
Proof.
  intros H. assert (H0 : peer_ok (fresh_tun k) /\ foreign (tp_routes (fresh_tun k)) = kernel_routes k).
  { split; [split; [done|]|].
    - split; [|done]. intros x. cbn. unfold held. by rewrite dom_empty_L, elements_empty.
    - unfold foreign. cbn. rewrite dom_empty_L. set_solver. }
  revert H0. induction H as [|t t1 t2 Hs _ IH]; [done|]. intros [Hok Hf]. apply IH.
  destruct Hs as [id s t res t' E|n t res t' E|i t].
  - apply apply_tun_snapshot_spec in E as (? & [? _] & _); [|done]. split; [done|congruence].
  - apply release_route_leases_spec in E as (? & ? & _); [|done]. split; [done|congruence].
  - destruct Hok as [Hl Hr]. destruct (run_spawned_spec _ i _ Hr). cbn. split; [done|congruence].
Qed.

End snapshot.

(** [install_snapshot_routes] takes a lease for every address, or leaves the
    leases it took to the runtime. *)
Lemma install_snapshot_routes_spec {K} {RK : RouteKernel K} {RL : RouteKernelLaws K} blake3 s id h r res r' :
  routes_ok h r -> install_snapshot_routes blake3 s id r = (res, r') ->
  foreign r' = foreign r
  /\ match res with
     | Ok l => snapshot_route_addresses blake3 s id = Ok (map lease_key l)
               /\ routes_ok (list_to_set_disj (map lease_key l) ⊎ h) r'
     | Err _ => routes_ok h r'
     end.
Proof.
  intros Hok. unfold install_snapshot_routes, hbind, hlift.
  destruct (snapshot_route_addresses blake3 s id) as [l|]; [|by intros [= <- <-]].
  assert (Hgen : forall leases r, Forall (fun x => lease_released x = false) leases ->
    routes_ok (list_to_set_disj (map lease_key leases) ⊎ h) r ->
    claim_all l leases r = (res, r') ->
    foreign r' = foreign r
    /\ match res with
       | Ok out => map lease_key out = map lease_key leases ++ l
                   /\ routes_ok (list_to_set_disj (map lease_key out) ⊎ h) r'
       | Err _ => routes_ok h r'
       end).
  { clear r Hok. induction l as [|a l IH]; intros leases r Hl Hok; cbn [claim_all].
    { intros [= <- <-]. by rewrite app_nil_r. }
    destruct (claim_host_route a r) as [r1 ro1] eqn:E.
    destruct (claim_host_route_spec _ _ _ _ _ Hok E) as (Hf & _ & H1).
    destruct r1 as [le|e].
    - destruct H1 as (-> & Hr & _). intros Ec. apply IH in Ec as [Hf' H2].
      + split; [congruence|]. destruct res; [|done]. rewrite map_app in H2. cbn [map lease_key] in H2.
        by rewrite <-app_assoc in H2.
      + by apply Forall_app; repeat constructor.
      + rewrite map_app, list_to_set_disj_app. cbn [map lease_key].
        rewrite list_to_set_disj_cons, list_to_set_disj_nil, (right_id_L ∅ (⊎)),
          (comm_L (⊎) _ {[+ a +]}), <-(assoc_L (⊎)). done.
    - intros [= <- <-]. destruct (drop_leases_ok leases h ro1 (proj2 H1) Hl) as [? ?].
      split; [congruence|done]. }
  intros E. apply Hgen in E as [? H]; [|done|cbn [map]; by rewrite list_to_set_disj_nil, (left_id_L ∅ (⊎))].
  split; [done|]. destruct res as [out|]; [|done]. destruct H as [-> ?]. done.
Qed.

(** ** A kernel, for the witness *)

#[local] Instance table_kernel : RouteKernel (gset IpAddr) := {|
  route_add a k := if decide (a ∈ k) then (Err (str "File exists"), k) else (Ok tt, {[a]} ∪ k);
  route_del a k := if decide (a ∈ k) then (Ok tt, k ∖ {[a]}) else (Err (str "No such process"), k);
  address_add _ _ k := (Ok tt, k);
  kernel_routes k := k
|}.

#[local] Instance table_kernel_laws : RouteKernelLaws (gset IpAddr).
Proof.
  split; cbn.
  - intros a k k'. case_decide; naive_solver.
  - intros a k e k'. case_decide; naive_solver.
  - intros a k Ha. rewrite decide_True by done. eauto.
  - done.
Qed.

(** Peer 2 leaves and peer 3 joins; the route to 192.0.2.1 is somebody else's. *)
Definition later_snapshot : NetworkSnapshot :=
  mkSnapshot (replicate 16 9) 4 (Some (mkCidr4 (0x0afe0000) 16)) None [] []
    [sample_peer 1 0x0afe0001; sample_peer 3 0x0afe0003] [] 1000 [].

Definition sample_tun : TunPeer (gset IpAddr) := fresh_tun {[V4 0xc0000201]}.

Definition tun_after (s : NetworkSnapshot) (t : TunPeer (gset IpAddr)) : TunPeer (gset IpAddr) :=
  snd (apply_tun_snapshot toy_hash (fun l => l) (toy_hash [1]) s t).


(** A route that vanished from the kernel: its release fails, the lease is dropped
    with the flag [released] still unset and the task releases the key a second
    time.  When the address was claimed again in between, the task deletes the
    route of the new lease. *)
Lemma failed_release_removes_new_route :
  let a := V4 0x0afe0002 in
  let first := claim_host_route a (mkRoutes ∅ (∅ : gset IpAddr) []) in
  let vanished := mkRoutes (ro_owned first.2) ∅ (ro_spawned first.2) in
  let released := lease_release (mkLease a false) vanished in
  let second := claim_host_route a released.2 in
  let last := run_spawned 0 second.2 in
  first.1 = Ok (mkLease a false) /\ is_ok released.1 = false /\ second.1 = Ok (mkLease a false)
  /\ kernel_routes (ro_kernel second.2) = {[a]} /\ kernel_routes (ro_kernel last) = ∅
  /\ ro_owned last = ∅.
Proof. cbv zeta. split_and!; first [by_decide | by vm_compute]. Qed.
