(* ===== verification/TunBridge.v ===== *)
(** * The TUN device and the bridge

    [TunDevice] (the Linux one) and [run_bridge] of [vela-tun/src/lib.rs]: packets
    read from the device go to [send_ip_batch] of the node, and the packets a node
    delivers are written to the device.  [run_tun_peer_once] of
    [vela-cli/src/main.rs] runs the same two loops.

    The file descriptor is a parameter.  A loop that waits for the descriptor gets
    fuel; [None] is a task that still waits. *)
From S2P Require Import Prelude Net Encoding Wire NodeId Snapshot SignedBytes Crypto Ip Replay Path Handshake NodeState NodePeers NodeSend NodeSession NodeData NodeTimers NodeInv NodeSample NodeDeliver NodeTransfer NodeBatch TunRoutes.

Record TunConfig : Type := mkTunConfig { tun_name : bytes; tun_mtu : Z }.
Definition TunConfig_default : TunConfig := mkTunConfig (str "vela0") 1200.
Definition IFNAMSIZ : Z := 16.

(** What [read] and [write] on the descriptor do; a packet fills the buffer from
    its start and is cut at its end. *)
Inductive ReadResult : Type := ReadBytes (b : bytes) | ReadBlock | ReadError (e : bytes).
Inductive WriteResult : Type := WroteBytes (n : nat) | WriteBlock | WriteError (e : bytes).

Class TunFile (W : Type) : Type := {
  tun_open : bytes -> W -> result unit bytes * W;
  tun_read : Z -> W -> ReadResult * W;
  tun_write : bytes -> W -> WriteResult * W;
  tun_out : W -> list bytes
}.

(** A TUN device takes each write as one packet, and gives at most what fits the
    buffer. *)
Class TunFileLaws (W : Type) {TF : TunFile W} : Prop := {
  tun_write_whole : forall p w n w', tun_write p w = (WroteBytes n, w') ->
    n = length p /\ tun_out w' = tun_out w ++ [p];
  tun_write_other : forall p w r w', tun_write p w = (r, w') ->
    (forall n, r <> WroteBytes n) -> tun_out w' = tun_out w;
  tun_read_fits : forall m w b w', 0 <= m -> tun_read m w = (ReadBytes b, w') ->
    len b <= m /\ tun_out w' = tun_out w
}.

Section device.
Context {W : Type} {TF : TunFile W}.
Context (mtu : Z).

(** [TunDevice::open] *)
Definition TunDevice_open (c : TunConfig) : handler W TunError TunConfig := fun w =>
  if (len (tun_name c) =? 0) || (IFNAMSIZ <=? len (tun_name c)) then (Err InvalidName, w)
  else if tun_mtu c <? 576 then (Err InvalidMtu, w)
  else let '(r, w) := tun_open (tun_name c) w in (rmap_err TunIo r ;? Ok c, w).

(** [TunDevice::recv] *)
Fixpoint tun_recv (fuel : nat) (w : W) : option (result bytes TunError * W) :=
  match fuel with
  | O => None
  | S k =>
      match tun_read mtu w with
      | (ReadBytes b, w) => Some (if len b =? 0 then Err TunClosed else Ok b, w)
      | (ReadBlock, w) => tun_recv k w
      | (ReadError e, w) => Some (Err (TunIo e), w)
      end
  end.

Definition try_recv : handler W TunError (option bytes) := fun w =>
  match tun_read mtu w with
  | (ReadBytes b, w) => (if len b =? 0 then Err TunClosed else Ok (Some b), w)
  | (ReadBlock, w) => (Ok None, w)
  | (ReadError e, w) => (Err (TunIo e), w)
  end.

(** The packets that are ready, up to [room] *)
Fixpoint recv_ready (room : nat) (packets : list bytes) : handler W TunError (list bytes) :=
  match room with
  | O => hret packets
  | S k =>
      let! r := try_recv in
      match r with
      | None => hret packets
      | Some b => recv_ready k (packets ++ [b])
      end
  end.

Definition recv_many (fuel limit : nat) (w : W) : option (result (list bytes) TunError * W) :=
  match limit with
  | O => Some (Ok [], w)
  | S room =>
      match tun_recv fuel w with
      | None => None
      | Some (Err e, w) => Some (Err e, w)
      | Some (Ok b, w) => Some (recv_ready room [b] w)
      end
  end.

(** [TunDevice::send], from [offset] on *)
Fixpoint send_rest (fuel : nat) (packet : bytes) (offset : nat) (w : W)
    : option (result unit TunError * W) :=
  if (length packet <=? offset)%nat then Some (Ok tt, w)
  else
    match fuel with
    | O => None
    | S k =>
        match tun_write (drop offset packet) w with
        | (WroteBytes n, w) =>
            if (0 <? n)%nat then send_rest k packet (offset + n) w else Some (Err TunClosed, w)
        | (WriteBlock, w) => send_rest k packet offset w
        | (WriteError e, w) => Some (Err (TunIo e), w)
        end
    end.

Definition tun_send (fuel : nat) (packet : bytes) (w : W) : option (result unit TunError * W) :=
  if (len packet =? 0) || (mtu <? len packet) then Some (Err TunPacketTooLarge, w)
  else send_rest fuel packet 0 w.

(** ** The bridge *)

(** The writer's loop over the events of a batch: an error ends the task, and the
    events that are left are dropped. *)
Fixpoint write_events (fuel : nat) (events : list VelaEvent) (w : W)
    : option (result unit TunError * W) :=
  match events with
  | [] => Some (Ok tt, w)
  | IpPacketEvent _ p :: rest =>
      match tun_send fuel (ip_bytes p) w with
      | Some (Ok _, w) => write_events fuel rest w
      | other => other
      end
  | _ :: rest => write_events fuel rest w
  end.
End device.

Section bridge.
Context {W : Type} {TF : TunFile W}.
Context {HH : Hash} {HSg : SignatureOps} {HA : AeadOps} {HK : HkdfOps} {HN : NoiseOps}.
Context (cfg : NodeConfig).
Abbreviation ND := (Node (@NState HN)).

(** [next_data_event_batch] as a wait: nothing from a node that was shut down ([shut]);
    [None] waits for an event. *)
Definition await_data_events (shut : bool) (limit : nat) (n : ND) : option (list VelaEvent * ND) :=
  if (limit =? 0)%nat || shut then Some ([], n)
  else match n_data_events n with
       | [] => None
       | events => Some (take limit events, set_n_data_events (drop limit events) n)
       end.

(** One turn of the task from the node to the device *)
Definition writer_turn (shut : bool) (mtu : Z) (fuel : nat) (n : ND) (w : W)
    : option (result unit TunError * W * ND) :=
  match await_data_events shut 64 n with
  | None => None
  | Some ([], n) => Some (Err TunClosed, w, n)
  | Some (events, n) =>
      match write_events mtu fuel events w with
      | Some (r, w) => Some (r, w, n)
      | None => None
      end
  end.

(** One turn of the task from the device to the node: what a send answers is only
    logged. *)
Definition reader_turn (mtu : Z) (fuel : nat) (world : World) (n : ND) (w : W)
    : option (result unit TunError * W * ND) :=
  match recv_many mtu fuel 64 w with
  | None => None
  | Some (Err e, w) => Some (Err e, w, n)
  | Some (Ok packets, w) => Some (Ok tt, w, snd (send_ip_batch cfg world packets n))
  end.
End bridge.

(** ** What the device does *)

Section device_spec.
Context {W : Type} {TF : TunFile W} {TL : TunFileLaws W}.
Context (mtu : Z).

Lemma tun_send_spec fuel p w r w' :
  tun_send mtu fuel p w = Some (r, w') ->
  match r with
  | Ok _ => 1 <= len p <= mtu /\ tun_out w' = tun_out w ++ [p]
  | Err _ => tun_out w' = tun_out w
  end.
Proof.
  unfold tun_send. destruct (Z.eqb_spec (len p) 0) as [|H0]; [by intros [= <- <-]|].
  destruct (Z.ltb_spec mtu (len p)) as [|H1]; [by intros [= <- <-]|]. cbn [orb].
  assert (Hlen : (0 < length p)%nat) by (unfold len in *; lia).
  revert w. induction fuel as [|k IH]; intros w; cbn [send_rest];
    rewrite (proj2 (Nat.leb_gt _ _) Hlen); [done|]. rewrite drop_0.
  destruct (tun_write p w) as [[n| |e] w1] eqn:E.
  - destruct (tun_write_whole _ _ _ _ E) as [-> Ho].
    rewrite (proj2 (Nat.ltb_lt _ _) Hlen).
    destruct k; cbn [send_rest]; rewrite Nat.leb_refl; intros [= <- <-]; (split; [unfold len in *; lia|done]).
  - intros Hk. apply IH in Hk. rewrite (tun_write_other _ _ _ _ E) in Hk by done. done.
  - intros [= <- <-]. by apply (tun_write_other _ _ _ _ E).
Qed.

(** The packets among the events *)
Definition packets_of (events : list VelaEvent) : list bytes :=
  omap (fun e => match e with IpPacketEvent _ p => Some (ip_bytes p) | _ => None end) events.

(** A batch is written in order, one write for each packet; an error leaves a
    beginning of it written. *)
Lemma write_events_spec fuel events w r w' :
  write_events mtu fuel events w = Some (r, w') ->
  exists written, tun_out w' = tun_out w ++ written /\ written `prefix_of` packets_of events
    /\ (r = Ok tt -> written = packets_of events).
Proof.
  revert w. induction events as [|e events IH]; intros w; cbn [write_events].
  { intros [= <- <-]. exists []. rewrite app_nil_r. by split_and!. }
  destruct e; try exact (IH w).
  destruct (tun_send mtu fuel (ip_bytes packet) w) as [[[[]|e] w1]|] eqn:E; [| |done].
  - apply tun_send_spec in E as [_ Ho]. intros (written & Hw & Hp & Hr)%IH.
    exists (ip_bytes packet :: written). rewrite Hw, Ho, <-app_assoc. split_and!; [done|by apply prefix_cons|].
    intros Hok. cbn. by rewrite (Hr Hok).
  - apply tun_send_spec in E. intros [= <- <-]. exists []. rewrite app_nil_r, E.
    split_and!; [done|apply prefix_nil|done].
Qed.

Lemma recv_ready_spec room packets w r w' :
  0 <= mtu -> recv_ready mtu room packets w = (Ok r, w') ->
  exists more, r = packets ++ more /\ (length more <= room)%nat /\ Forall (fun b => 1 <= len b <= mtu) more.
Proof.
  intros Hmtu. revert packets w. induction room as [|k IH]; intros packets w; cbn [recv_ready].
  { intros [= <- <-]. exists []. by rewrite app_nil_r. }
  unfold hbind, try_recv. destruct (tun_read mtu w) as [[b| |e] w1] eqn:E; [| |done].
  - destruct (tun_read_fits _ _ _ _ Hmtu E) as [Hb _].
    destruct (Z.eqb_spec (len b) 0) as [|H0]; [done|]. intros (more & -> & Hl & Hf)%IH.
    exists (b :: more). rewrite <-app_assoc. split_and!; [done|cbn; lia|].
    constructor; [unfold len in *; lia|done].
  - intros [= <- <-]. exists []. rewrite app_nil_r. split_and!; [done|cbn; lia|done].
Qed.

(** What [recv_many] returns fits the batch, and every packet fits the MTU. *)
Lemma recv_many_spec fuel limit w r w' :
  0 <= mtu -> (0 < limit)%nat -> recv_many mtu fuel limit w = Some (Ok r, w') ->
  (1 <= length r <= limit)%nat /\ Forall (fun b => 1 <= len b <= mtu) r.
Proof.
  intros Hmtu. destruct limit as [|room]; [lia|]. intros _. unfold recv_many.
  destruct (tun_recv mtu fuel w) as [[[b|] w1]|] eqn:E; [|done..].
  assert (Hb : 1 <= len b <= mtu).
  { revert w E. induction fuel as [|k IH]; intros w; cbn [tun_recv]; [done|].
    destruct (tun_read mtu w) as [[x| |e] w2] eqn:Er; [|apply IH|done].
    destruct (tun_read_fits _ _ _ _ Hmtu Er) as [Hx _].
    destruct (Z.eqb_spec (len x) 0); [done|]. intros [= <- <-]. unfold len in *; lia. }
  intros [= (more & -> & Hl & Hf)%recv_ready_spec]; [|done]. rewrite length_app. cbn.
  split; [lia|by constructor].
Qed.
End device_spec.

(** ** From one TUN device to the other *)

Section end_to_end.
Context {W : Type} {TF : TunFile W} {TL : TunFileLaws W}.
Context {HH : Hash} {HSg : SignatureOps} {HA : AeadOps} {HK : HkdfOps} {HN : NoiseOps}.
Context (parse_credential : bytes -> option MembershipCredential).

(** A batch of one packet leaves as the datagram [send_ip] would send. *)
Lemma send_batch_sends cfg world (n : Node (@NState HN)) payload p r s wire :
  can_send cfg world n payload p r s -> w_batch world [(as_path s, wire)] = Some 1%nat ->
  seal_data_packet (as_session_id s) (as_cipher s) (as_tx_sequence s) payload = Ok wire ->
  exists n', send_ip_batch cfg world [payload] n = (Ok [Some (Ok tt)], n')
    /\ n_sent n' = n_sent n ++ [(as_path s, wire)].
Proof.
  intros [Hp (id & Hv & Hr) Ha Hx Hsize] Hbatch Hseal.
  pose proof (ip_parse_bytes _ _ Hp) as Eb. rewrite <- Eb in Hseal, Hsize.
  set (d := mkPrepared r (ps_node_id (peer_at r n)) (as_session_id s) (as_tx_sequence s)
              (as_path s) (len (ip_bytes p)) wire).
  set (n1 := update_at r (set_ps_active (Some (next_sequence s))) n).
  assert (EP : prepare_groups cfg world [[mkRouted 0 p r]] [None] n = (Ok ([(0%nat, d)], [], [None]), n1)).
  { unfold prepare_groups, prepare_group, hbind, hget. cbn [rp_peer map rp_packet].
    rewrite (prepare_one cfg world r p n s wire) by done. unfold idle. rewrite Ha. done. }
  assert (ES : exists n2, send_prepared_batch world [d] n1 = (Ok [Ok tt], n2)
                 /\ n_sent n2 = n_sent n ++ [(as_path s, wire)]).
  { unfold send_prepared_batch. cbn [group_runs send_groups]. unfold send_group, hbind.
    cbn [map pd_path pd_wire_packet d]. rewrite Hbatch. by eexists. }
  destruct ES as (n2 & ES & Hn2). exists n2. split; [|done].
  unfold send_ip_batch. unfold hbind at 1, hget at 1. cbn [route_batch]. rewrite Hp. cbn [rmap_err rbind].
  rewrite Hv. cbn [rmap_err rbind]. rewrite Hr. cbn [ok_or rbind length replicate group_runs].
  unfold hbind at 1. rewrite EP. unfold hbind at 1. cbn [map snd]. by rewrite ES.
Qed.

Lemma reader_sends cfg mtu fuel world (n : Node (@NState HN)) w payload p r s wire w' :
  recv_many mtu fuel 64 w = Some (Ok [payload], w') ->
  can_send cfg world n payload p r s -> w_batch world [(as_path s, wire)] = Some 1%nat ->
  seal_data_packet (as_session_id s) (as_cipher s) (as_tx_sequence s) payload = Ok wire ->
  exists n', reader_turn cfg mtu fuel world n w = Some (Ok tt, w', n')
    /\ n_sent n' = n_sent n ++ [(as_path s, wire)].
Proof.
  intros Hrecv Hs Hb Hseal. destruct (send_batch_sends _ _ _ _ _ _ _ _ Hs Hb Hseal) as (n' & E & Hn).
  exists n'. unfold reader_turn. by rewrite Hrecv, E.
Qed.

Lemma ip_parse_nonempty b p : ip_parse b = Ok p -> 1 <= len b.
Proof. destruct b; [done|]. intros _. unfold len. cbn. lia. Qed.

Lemma writer_writes mtu fuel (n : Node (@NState HN)) w id p w' :
  n_data_events n = [IpPacketEvent id p] -> 1 <= len (ip_bytes p) <= mtu ->
  tun_write (ip_bytes p) w = (WroteBytes (length (ip_bytes p)), w') ->
  exists n', writer_turn false mtu (S fuel) n w = Some (Ok tt, w', n')
    /\ tun_out w' = tun_out w ++ [ip_bytes p] /\ n_data_events n' = [].
Proof.
  intros He [H0 H1] Hw. unfold writer_turn, await_data_events. rewrite He. cbn [Nat.eqb orb take drop].
  cbn [write_events]. unfold tun_send. rewrite (proj2 (Z.eqb_neq _ _)) by lia.
  rewrite (proj2 (Z.ltb_ge _ _)) by lia. cbn [orb send_rest].
  assert (Hlen : (0 < length (ip_bytes p))%nat) by (unfold len in *; lia).
  rewrite (proj2 (Nat.leb_gt _ _) Hlen), drop_0, Hw, (proj2 (Nat.ltb_lt _ _) Hlen). rewrite Nat.add_0_l.
  assert (Hdone : forall k, send_rest k (ip_bytes p) (length (ip_bytes p)) w' = Some (Ok tt, w')).
  { intros []; cbn [send_rest]; by rewrite Nat.leb_refl. }
  rewrite Hdone. destruct (tun_write_whole _ _ _ _ Hw) as [_ Ho]. eexists. by split_and!.
Qed.


(** Whatever the node answers to the packets of a batch, the reader goes on. *)
Lemma reader_survives cfg mtu fuel world (n : Node (@NState HN)) w r w' n' :
  reader_turn cfg mtu fuel world n w = Some (r, w', n') ->
  (exists e, r = Err e /\ recv_many mtu fuel 64 w = Some (Err e, w'))
  \/ exists packets results, r = Ok tt /\ recv_many mtu fuel 64 w = Some (Ok packets, w')
       /\ send_ip_batch cfg world packets n = (Ok results, n') /\ length results = length packets.
Proof.
  unfold reader_turn. destruct (recv_many mtu fuel 64 w) as [[[packets|e] w1]|]; [| |done].
  - destruct (send_ip_batch_returns cfg world packets n) as (results & n1 & E & Hl & _).
    rewrite E. intros [= <- <- <-]. right. by exists packets, results.
  - intros [= <- <- <-]. left. by exists e.
Qed.

(** A packet larger than the device's MTU ends the writer, and the packets behind
    it are lost: a member that sends one stops the bridge of the other. *)
Lemma oversize_packet_stops_bridge mtu fuel (n : Node (@NState HN)) w id p rest :
  n_data_events n = IpPacketEvent id p :: rest -> mtu < len (ip_bytes p) ->
  exists n', writer_turn false mtu fuel n w = Some (Err TunPacketTooLarge, w, n')
    /\ n_data_events n' = drop 63 rest.
Proof.
  intros He Hm. unfold writer_turn, await_data_events. rewrite He. cbn [Nat.eqb orb take drop].
  cbn [write_events]. unfold tun_send. rewrite (proj2 (Z.ltb_lt _ _) Hm), orb_true_r. by eexists.
Qed.
End end_to_end.

(** ** Witness *)

(** A device with packets to read and the packets written to it *)
Record SampleTun : Type := mkSampleTun { st_in : list bytes; st_out : list bytes }.

#[local] Instance sample_file : TunFile SampleTun := {|
  tun_open _ w := (Ok tt, w);
  tun_read m w :=
    match st_in w with
    | [] => (ReadBlock, w)
    | b :: rest => (ReadBytes (take (Z.to_nat m) b), mkSampleTun rest (st_out w))
    end;
  tun_write p w := (WroteBytes (length p), mkSampleTun (st_in w) (st_out w ++ [p]));
  tun_out := st_out
|}.

#[local] Instance sample_file_laws : TunFileLaws SampleTun.
Proof.
  split; cbn.
  - by intros p w n w' [= <- <-].
  - intros p w r w' [= <- <-] H. by destruct (H (length p)).
  - intros m w b w' Hm. destruct (st_in w) as [|x l]; intros [= <- <-]; cbn.
    unfold len. rewrite length_take. split; [lia|done].
Qed.

