(* ===== verification/Stack.v ===== *)
(** * The userspace stack

    [vela-stack/src/lib.rs]: TCP, UDP, raw and ICMP sockets over a node without a
    TUN device.  A task owns the sockets; the handles the application holds send it
    commands, each with a channel for the answer, and operations that cannot
    complete yet are kept with their channel until a later turn of the task.

    The TCP/IP implementation (smoltcp) is a parameter: its sockets, its socket set
    and [Interface::poll].  A socket set panics when a handle does not name a
    socket of the kind asked for; the model returns an error there.  An answer
    channel is a number; the channels that were answered are in a log. *)
From stdpp Require Import gmultiset.
From S2P Require Import Prelude Net Encoding Wire NodeId Snapshot SignedBytes Crypto Ip Replay Path Handshake NodeState NodeSend.

Definition DEFAULT_SOCKET_BUFFER : Z := 64 * 1024.
Definition DEVICE_QUEUE_LIMIT : nat := 256.
Definition EPHEMERAL_PORT_START : Z := 49152.
Definition EPHEMERAL_PORT_END : Z := 65535.
Definition STACK_POLL_MIN_INTERVAL : Z := 1.
Definition STACK_POLL_IDLE_INTERVAL : Z := 100.

Inductive StackError : Type :=
| StackClosed | InvalidConfig (why : bytes) | StackSocket (e : bytes) | StackPacketTooLarge
| StackQueueFull | UnknownSocket | NoEphemeralPort | OperationPending | StackCore (e : CoreError).

Record StackConfig : Type := mkStackConfig {
  sc_ipv4 : option (Z * Z);
  sc_ipv6 : option (Z * Z);
  sc_mtu : Z;
  sc_socket_buffer : Z
}.

Definition StackConfig_default : StackConfig := mkStackConfig None None DEFAULT_VIRTUAL_MTU DEFAULT_SOCKET_BUFFER.
Definition StackConfig_ipv4 (address : Z) : StackConfig :=
  mkStackConfig (Some (address, 10)) None DEFAULT_VIRTUAL_MTU DEFAULT_SOCKET_BUFFER.

Definition prefix_above (limit : Z) (o : option (Z * Z)) : bool :=
  match o with Some (_, prefix_len) => limit <? prefix_len | None => false end.

(** The checks of [VelaStack::attach] *)
Definition attach (c : StackConfig) : result unit StackError :=
  if sc_mtu c <? 576 then Err (InvalidConfig (str "MTU must be at least 576"))
  else if prefix_above 32 (sc_ipv4 c) || prefix_above 128 (sc_ipv6 c)
  then Err (InvalidConfig (str "invalid IP prefix length"))
  else match sc_ipv4 c, sc_ipv6 c with
       | None, None => Err (InvalidConfig (str "at least one local IP is required"))
       | _, _ => Ok tt
       end.

(** ** The virtual device *)

Record VirtualDevice : Type := mkDevice { dev_rx : list bytes; dev_tx : list bytes; dev_mtu : Z }.

Definition VirtualDevice_new (mtu : Z) : VirtualDevice := mkDevice [] [] mtu.

Definition push_rx (packet : bytes) (d : VirtualDevice) : result unit StackError * VirtualDevice :=
  if dev_mtu d <? len packet then (Err StackPacketTooLarge, d)
  else if (DEVICE_QUEUE_LIMIT <=? length (dev_rx d))%nat then (Err StackQueueFull, d)
  else (Ok tt, mkDevice (dev_rx d ++ [packet]) (dev_tx d) (dev_mtu d)).

(** [Device::receive] *)
Definition device_receive (d : VirtualDevice) : option (bytes * VirtualDevice) :=
  match dev_rx d with
  | [] => None
  | packet :: rx => Some (packet, mkDevice rx (dev_tx d) (dev_mtu d))
  end.

(** [TxToken::consume] with the packet that was written *)
Definition tx_consume (packet : bytes) (d : VirtualDevice) : VirtualDevice :=
  if (len packet <=? dev_mtu d) && (length (dev_tx d) <? DEVICE_QUEUE_LIMIT)%nat
  then mkDevice (dev_rx d) (dev_tx d ++ [packet]) (dev_mtu d) else d.

(** What the interface can do to the device *)
Inductive device_step : VirtualDevice -> VirtualDevice -> Prop :=
| step_receive packet d d' : device_receive d = Some (packet, d') -> device_step d d'
| step_transmit packet d : device_step d (tx_consume packet d).

(** ** smoltcp *)

Inductive TcpSocketState : Type := TcpClosed | TcpEstablished | TcpOther.

#[export] Instance TcpSocketState_eq_dec : EqDecision TcpSocketState.
Proof. solve_decision. Defined.

(** A socket of a set *)
Inductive AnySocket (T U R I : Type) : Type :=
| STcp (s : T) | SUdp (s : U) | SRaw (s : R) | SIcmp (s : I).
Arguments STcp {T U R I} s.
Arguments SUdp {T U R I} s.
Arguments SRaw {T U R I} s.
Arguments SIcmp {T U R I} s.

Class Smoltcp : Type := {
  TcpSocket : Type; UdpSocket : Type; RawSocket : Type; IcmpSocket : Type;
  Interface : Type; SocketSet : Type;
  tcp_new : Z -> TcpSocket;
  tcp_connect : Interface -> SocketAddr -> Z -> TcpSocket -> result TcpSocket bytes * Interface;
  tcp_listen : SocketAddr -> TcpSocket -> result TcpSocket bytes;
  tcp_can_send : TcpSocket -> bool;
  tcp_can_recv : TcpSocket -> bool;
  tcp_may_recv : TcpSocket -> bool;
  tcp_send_slice : bytes -> TcpSocket -> result Z bytes * TcpSocket;
  tcp_recv_slice : Z -> TcpSocket -> result bytes bytes * TcpSocket;
  tcp_close : TcpSocket -> TcpSocket;
  tcp_state : TcpSocket -> TcpSocketState;
  tcp_local_port : TcpSocket -> option Z;
  tcp_remote : TcpSocket -> option (IpAddr * Z);
  udp_new : Z -> UdpSocket;
  udp_bind : SocketAddr -> UdpSocket -> result UdpSocket bytes;
  udp_can_recv : UdpSocket -> bool;
  udp_send_slice : bytes -> SocketAddr -> UdpSocket -> result unit bytes * UdpSocket;
  udp_recv_slice : Z -> UdpSocket -> result (bytes * (IpAddr * Z)) bytes * UdpSocket;
  raw_new : IpVersion -> Z -> Z -> RawSocket;
  raw_can_recv : RawSocket -> bool;
  raw_send_slice : bytes -> RawSocket -> result unit bytes * RawSocket;
  raw_recv_slice : Z -> RawSocket -> result bytes bytes * RawSocket;
  icmp_new : Z -> IcmpSocket;
  icmp_bind : Z -> IcmpSocket -> result IcmpSocket bytes;
  icmp_recv_queue : IcmpSocket -> Z;
  icmp_send_slice : bytes -> IpAddr -> IcmpSocket -> result unit bytes * IcmpSocket;
  icmp_recv_slice : Z -> IcmpSocket -> result (bytes * IpAddr) bytes * IcmpSocket;
  set_empty : SocketSet;
  set_add : AnySocket TcpSocket UdpSocket RawSocket IcmpSocket -> SocketSet -> nat * SocketSet;
  set_get : nat -> SocketSet -> option (AnySocket TcpSocket UdpSocket RawSocket IcmpSocket);
  set_put : nat -> AnySocket TcpSocket UdpSocket RawSocket IcmpSocket -> SocketSet -> SocketSet;
  iface_poll : Z -> VirtualDevice -> Interface * SocketSet -> VirtualDevice * (Interface * SocketSet);
  iface_poll_delay : Z -> Interface * SocketSet -> option Z
}.

(** ** Commands *)

Inductive Command : Type :=
| Shutdown
| Inject (packet : bytes)
| DialTcp (remote : SocketAddr)
| ListenTcp (local : SocketAddr)
| BindUdp (local : SocketAddr)
| BindRaw (version : IpVersion) (protocol : Z)
| BindIcmp (identifier : Z)
| TcpSend (id : Z) (data : bytes)
| TcpRecv (id max_len : Z)
| TcpShutdown (id : Z)
| TcpAccept (id : Z)
| UdpSend (id : Z) (data : bytes) (target : SocketAddr)
| UdpRecv (id max_len : Z)
| RawSend (id : Z) (packet : bytes)
| RawRecv (id max_len : Z)
| IcmpSend (id : Z) (payload : bytes) (target : IpAddr)
| IcmpRecv (id max_len : Z).

(** The answers; a socket of the application is its id. *)
Inductive Answer : Type :=
| AnsUnit (r : result unit StackError)
| AnsId (r : result Z StackError)
| AnsSize (r : result Z StackError)
| AnsBytes (r : result bytes StackError)
| AnsAccept (r : result (Z * SocketAddr) StackError)
| AnsFrom (r : result (bytes * SocketAddr) StackError)
| AnsFromIp (r : result (bytes * IpAddr) StackError).

Definition socket_addr (endpoint : IpAddr * Z) : option SocketAddr :=
  match endpoint with
  | (V4 a, port) => Some (SockV4 a port)
  | (V6 a, port) => Some (SockV6 a port 0 0)
  end.

(** ** The task *)

Record TcpState : Type := mkTcp {
  tcp_handle : nat;
  pending_connect : option nat;
  pending_send : option (bytes * nat);
  pending_recv : option (Z * nat)
}.

Record ListenerState : Type := mkListener {
  lst_handle : nat;
  lst_local : SocketAddr;
  pending_accept : option nat;
  accepted : list (Z * SocketAddr)
}.

(** [UdpState], [RawState] and [IcmpState] *)
Record PacketState : Type := mkPacket { pk_handle : nat; pk_pending : option (Z * nat) }.

Section runtime.
Context {Sm : Smoltcp}.

Record Runtime : Type := mkRuntime {
  rt_interface : Interface;
  rt_device : VirtualDevice;
  rt_sockets : SocketSet;
  rt_next_id : Z;
  rt_tcp : gmap Z TcpState;
  rt_listeners : gmap Z ListenerState;
  rt_udp : gmap Z PacketState;
  rt_raw : gmap Z PacketState;
  rt_icmp : gmap Z PacketState;
  rt_next_port : Z;
  rt_socket_buffer : Z;
  rt_answers : list (nat * Answer)
}.

Definition set_interface x r := mkRuntime x (rt_device r) (rt_sockets r) (rt_next_id r) (rt_tcp r) (rt_listeners r) (rt_udp r) (rt_raw r) (rt_icmp r) (rt_next_port r) (rt_socket_buffer r) (rt_answers r).
Definition set_device x r := mkRuntime (rt_interface r) x (rt_sockets r) (rt_next_id r) (rt_tcp r) (rt_listeners r) (rt_udp r) (rt_raw r) (rt_icmp r) (rt_next_port r) (rt_socket_buffer r) (rt_answers r).
Definition set_sockets x r := mkRuntime (rt_interface r) (rt_device r) x (rt_next_id r) (rt_tcp r) (rt_listeners r) (rt_udp r) (rt_raw r) (rt_icmp r) (rt_next_port r) (rt_socket_buffer r) (rt_answers r).
Definition set_next_id x r := mkRuntime (rt_interface r) (rt_device r) (rt_sockets r) x (rt_tcp r) (rt_listeners r) (rt_udp r) (rt_raw r) (rt_icmp r) (rt_next_port r) (rt_socket_buffer r) (rt_answers r).
Definition set_tcp x r := mkRuntime (rt_interface r) (rt_device r) (rt_sockets r) (rt_next_id r) x (rt_listeners r) (rt_udp r) (rt_raw r) (rt_icmp r) (rt_next_port r) (rt_socket_buffer r) (rt_answers r).
Definition set_listeners x r := mkRuntime (rt_interface r) (rt_device r) (rt_sockets r) (rt_next_id r) (rt_tcp r) x (rt_udp r) (rt_raw r) (rt_icmp r) (rt_next_port r) (rt_socket_buffer r) (rt_answers r).
Definition set_udp x r := mkRuntime (rt_interface r) (rt_device r) (rt_sockets r) (rt_next_id r) (rt_tcp r) (rt_listeners r) x (rt_raw r) (rt_icmp r) (rt_next_port r) (rt_socket_buffer r) (rt_answers r).
Definition set_raw x r := mkRuntime (rt_interface r) (rt_device r) (rt_sockets r) (rt_next_id r) (rt_tcp r) (rt_listeners r) (rt_udp r) x (rt_icmp r) (rt_next_port r) (rt_socket_buffer r) (rt_answers r).
Definition set_icmp x r := mkRuntime (rt_interface r) (rt_device r) (rt_sockets r) (rt_next_id r) (rt_tcp r) (rt_listeners r) (rt_udp r) (rt_raw r) x (rt_next_port r) (rt_socket_buffer r) (rt_answers r).
Definition set_next_port x r := mkRuntime (rt_interface r) (rt_device r) (rt_sockets r) (rt_next_id r) (rt_tcp r) (rt_listeners r) (rt_udp r) (rt_raw r) (rt_icmp r) x (rt_socket_buffer r) (rt_answers r).
Definition set_answers x r := mkRuntime (rt_interface r) (rt_device r) (rt_sockets r) (rt_next_id r) (rt_tcp r) (rt_listeners r) (rt_udp r) (rt_raw r) (rt_icmp r) (rt_next_port r) (rt_socket_buffer r) x.

(** A handle without a socket of its kind: the socket set panics. *)
Inductive Panic : Type := BadHandle.
Local Notation RT := (handler Runtime Panic).

(** [response.send]; the receiver may be gone *)
Definition answer (t : nat) (a : Answer) : RT unit :=
  hmodify (fun r => set_answers (rt_answers r ++ [(t, a)]) r).

Definition get_tcp (h : nat) : RT TcpSocket := fun r =>
  match set_get h (rt_sockets r) with Some (STcp s) => (Ok s, r) | _ => (Err BadHandle, r) end.
Definition get_udp (h : nat) : RT UdpSocket := fun r =>
  match set_get h (rt_sockets r) with Some (SUdp s) => (Ok s, r) | _ => (Err BadHandle, r) end.
Definition get_raw (h : nat) : RT RawSocket := fun r =>
  match set_get h (rt_sockets r) with Some (SRaw s) => (Ok s, r) | _ => (Err BadHandle, r) end.
Definition get_icmp (h : nat) : RT IcmpSocket := fun r =>
  match set_get h (rt_sockets r) with Some (SIcmp s) => (Ok s, r) | _ => (Err BadHandle, r) end.

Definition put_socket (h : nat) s : RT unit :=
  hmodify (fun r => set_sockets (set_put h s (rt_sockets r)) r).
Definition add_socket s : RT nat := fun r =>
  let '(h, ss) := set_add s (rt_sockets r) in (Ok h, set_sockets ss r).

Definition next_id : RT Z := fun r =>
  (Ok (rt_next_id r), set_next_id (Z.max ((rt_next_id r + 1) mod 2 ^ 64) 1) r).

(** Whether a listener or an open connection uses the port *)
Definition port_used (candidate : Z) (r : Runtime) : bool :=
  existsb (fun x => sock_port (lst_local x.2) =? candidate) (map_to_list (rt_listeners r))
  || existsb (fun x =>
       match set_get (tcp_handle x.2) (rt_sockets r) with
       | Some (STcp s) => negb (bool_decide (tcp_state s = TcpClosed))
                          && bool_decide (tcp_local_port s = Some candidate)
       | _ => false
       end) (map_to_list (rt_tcp r)).

Fixpoint allocate_loop (n : nat) : RT (result Z StackError) := fun r =>
  match n with
  | O => (Ok (Err NoEphemeralPort), r)
  | S k =>
      let candidate := rt_next_port r in
      let r := set_next_port (if candidate =? EPHEMERAL_PORT_END then EPHEMERAL_PORT_START
                              else candidate + 1) r in
      if port_used candidate r then allocate_loop k r else (Ok (Ok candidate), r)
  end.

Definition allocate_tcp_port : RT (result Z StackError) :=
  allocate_loop (Z.to_nat (EPHEMERAL_PORT_END - EPHEMERAL_PORT_START) + 1).

(** ** Operations that may be kept *)

Definition sock_err {A} (r : result A bytes) : result A StackError := rmap_err StackSocket r.

(** A TCP send, now or later: [None] keeps it *)
Definition try_tcp_send (h : nat) (data : bytes) (t : nat) : RT (option (bytes * nat)) :=
  let! s := get_tcp h in
  if tcp_can_send s then
    let '(res, s) := tcp_send_slice data s in
    let! _ := put_socket h (STcp s) in
    let! _ := answer t (AnsSize (sock_err res)) in hret None
  else hret (Some (data, t)).

Definition try_tcp_recv (h : nat) (max_len : Z) (t : nat) : RT (option (Z * nat)) :=
  let! s := get_tcp h in
  if tcp_can_recv s then
    let '(res, s) := tcp_recv_slice max_len s in
    let! _ := put_socket h (STcp s) in
    let! _ := answer t (AnsBytes (sock_err res)) in hret None
  else if negb (tcp_may_recv s) then let! _ := answer t (AnsBytes (Ok [])) in hret None
  else hret (Some (max_len, t)).

Definition try_udp_recv (h : nat) (max_len : Z) (t : nat) : RT (option (Z * nat)) :=
  let! s := get_udp h in
  if udp_can_recv s then
    let '(res, s) := udp_recv_slice max_len s in
    let! _ := put_socket h (SUdp s) in
    let! _ := answer t (AnsFrom (let? (data, endpoint) := sock_err res in
                let? a := ok_or (socket_addr endpoint) (StackSocket (str "invalid UDP endpoint")) in
                Ok (data, a))) in
    hret None
  else hret (Some (max_len, t)).

Definition try_raw_recv (h : nat) (max_len : Z) (t : nat) : RT (option (Z * nat)) :=
  let! s := get_raw h in
  if raw_can_recv s then
    let '(res, s) := raw_recv_slice max_len s in
    let! _ := put_socket h (SRaw s) in
    let! _ := answer t (AnsBytes (sock_err res)) in hret None
  else hret (Some (max_len, t)).

Definition try_icmp_recv (h : nat) (max_len : Z) (t : nat) : RT (option (Z * nat)) :=
  let! s := get_icmp h in
  if negb (icmp_recv_queue s =? 0) then
    let '(res, s) := icmp_recv_slice max_len s in
    let! _ := put_socket h (SIcmp s) in
    let! _ := answer t (AnsFromIp (sock_err res)) in hret None
  else hret (Some (max_len, t)).

(** ** Commands *)

Definition dial_tcp (remote : SocketAddr) (t : nat) : RT unit :=
  let! id := next_id in
  let! port := allocate_tcp_port in
  match port with
  | Err e => answer t (AnsId (Err e))
  | Ok local_port =>
      let! r := hget in
      let '(res, iface) := tcp_connect (rt_interface r) remote local_port (tcp_new (rt_socket_buffer r)) in
      let! _ := hmodify (set_interface iface) in
      match res with
      | Err e => answer t (AnsId (Err (StackSocket e)))
      | Ok s =>
          let! h := add_socket (STcp s) in
          hmodify (fun r => set_tcp (<[id := mkTcp h (Some t) None None]> (rt_tcp r)) r)
      end
  end.

Definition listen_tcp (local : SocketAddr) (t : nat) : RT unit :=
  let! id := next_id in
  let! r := hget in
  match tcp_listen local (tcp_new (rt_socket_buffer r)) with
  | Err e => answer t (AnsId (Err (StackSocket e)))
  | Ok s =>
      let! h := add_socket (STcp s) in
      let! _ := hmodify (fun r => set_listeners (<[id := mkListener h local None []]> (rt_listeners r)) r) in
      answer t (AnsId (Ok id))
  end.

Definition bind_udp (local : SocketAddr) (t : nat) : RT unit :=
  let! id := next_id in
  let! r := hget in
  match udp_bind local (udp_new (rt_socket_buffer r)) with
  | Err e => answer t (AnsId (Err (StackSocket e)))
  | Ok s =>
      let! h := add_socket (SUdp s) in
      let! _ := hmodify (fun r => set_udp (<[id := mkPacket h None]> (rt_udp r)) r) in
      answer t (AnsId (Ok id))
  end.

Definition bind_raw (version : IpVersion) (protocol : Z) (t : nat) : RT unit :=
  let! id := next_id in
  let! r := hget in
  let! h := add_socket (SRaw (raw_new version protocol (rt_socket_buffer r))) in
  let! _ := hmodify (fun r => set_raw (<[id := mkPacket h None]> (rt_raw r)) r) in
  answer t (AnsId (Ok id)).

Definition bind_icmp (identifier : Z) (t : nat) : RT unit :=
  let! id := next_id in
  let! r := hget in
  match icmp_bind identifier (icmp_new (rt_socket_buffer r)) with
  | Err e => answer t (AnsId (Err (StackSocket e)))
  | Ok s =>
      let! h := add_socket (SIcmp s) in
      let! _ := hmodify (fun r => set_icmp (<[id := mkPacket h None]> (rt_icmp r)) r) in
      answer t (AnsId (Ok id))
  end.

Definition tcp_send (id : Z) (data : bytes) (t : nat) : RT unit :=
  let! r := hget in
  match rt_tcp r !! id with
  | None => answer t (AnsSize (Err UnknownSocket))
  | Some st =>
      match pending_send st with
      | Some _ => answer t (AnsSize (Err OperationPending))
      | None =>
          let! kept := try_tcp_send (tcp_handle st) data t in
          hmodify (fun r => set_tcp (<[id := mkTcp (tcp_handle st) (pending_connect st) kept (pending_recv st)]> (rt_tcp r)) r)
      end
  end.

Definition tcp_recv (id max_len : Z) (t : nat) : RT unit :=
  let! r := hget in
  match rt_tcp r !! id with
  | None => answer t (AnsBytes (Err UnknownSocket))
  | Some st =>
      match pending_recv st with
      | Some _ => answer t (AnsBytes (Err OperationPending))
      | None =>
          let! kept := try_tcp_recv (tcp_handle st) max_len t in
          hmodify (fun r => set_tcp (<[id := mkTcp (tcp_handle st) (pending_connect st) (pending_send st) kept]> (rt_tcp r)) r)
      end
  end.

Definition tcp_shutdown (id : Z) (t : nat) : RT unit :=
  let! r := hget in
  match rt_tcp r !! id with
  | None => answer t (AnsUnit (Err UnknownSocket))
  | Some st =>
      let! s := get_tcp (tcp_handle st) in
      let! _ := put_socket (tcp_handle st) (STcp (tcp_close s)) in
      answer t (AnsUnit (Ok tt))
  end.

Definition tcp_accept (id : Z) (t : nat) : RT unit :=
  let! r := hget in
  match rt_listeners r !! id with
  | None => answer t (AnsAccept (Err UnknownSocket))
  | Some st =>
      match pending_accept st, accepted st with
      | Some _, _ => answer t (AnsAccept (Err OperationPending))
      | None, first :: rest =>
          let! _ := hmodify (set_listeners (<[id := mkListener (lst_handle st) (lst_local st) None rest]> (rt_listeners r))) in
          answer t (AnsAccept (Ok first))
      | None, [] =>
          hmodify (set_listeners (<[id := mkListener (lst_handle st) (lst_local st) (Some t) []]> (rt_listeners r)))
      end
  end.

Definition udp_send (id : Z) (data : bytes) (target : SocketAddr) (t : nat) : RT unit :=
  let! r := hget in
  match rt_udp r !! id with
  | None => answer t (AnsSize (Err UnknownSocket))
  | Some st =>
      let! s := get_udp (pk_handle st) in
      let '(res, s) := udp_send_slice data target s in
      let! _ := put_socket (pk_handle st) (SUdp s) in
      answer t (AnsSize (let? _ := sock_err res in Ok (len data)))
  end.

Definition raw_send (id : Z) (packet : bytes) (t : nat) : RT unit :=
  let! r := hget in
  match rt_raw r !! id with
  | None => answer t (AnsUnit (Err UnknownSocket))
  | Some st =>
      let! s := get_raw (pk_handle st) in
      let '(res, s) := raw_send_slice packet s in
      let! _ := put_socket (pk_handle st) (SRaw s) in
      answer t (AnsUnit (sock_err res))
  end.

Definition icmp_send (id : Z) (payload : bytes) (target : IpAddr) (t : nat) : RT unit :=
  let! r := hget in
  match rt_icmp r !! id with
  | None => answer t (AnsUnit (Err UnknownSocket))
  | Some st =>
      let! s := get_icmp (pk_handle st) in
      let '(res, s) := icmp_send_slice payload target s in
      let! _ := put_socket (pk_handle st) (SIcmp s) in
      answer t (AnsUnit (sock_err res))
  end.

Definition udp_recv (id max_len : Z) (t : nat) : RT unit :=
  let! r := hget in
  match rt_udp r !! id with
  | None => answer t (AnsFrom (Err UnknownSocket))
  | Some st =>
      match pk_pending st with
      | Some _ => answer t (AnsFrom (Err OperationPending))
      | None =>
          let! kept := try_udp_recv (pk_handle st) max_len t in
          hmodify (fun r => set_udp (<[id := mkPacket (pk_handle st) kept]> (rt_udp r)) r)
      end
  end.

Definition raw_recv (id max_len : Z) (t : nat) : RT unit :=
  let! r := hget in
  match rt_raw r !! id with
  | None => answer t (AnsBytes (Err UnknownSocket))
  | Some st =>
      match pk_pending st with
      | Some _ => answer t (AnsBytes (Err OperationPending))
      | None =>
          let! kept := try_raw_recv (pk_handle st) max_len t in
          hmodify (fun r => set_raw (<[id := mkPacket (pk_handle st) kept]> (rt_raw r)) r)
      end
  end.

Definition icmp_recv (id max_len : Z) (t : nat) : RT unit :=
  let! r := hget in
  match rt_icmp r !! id with
  | None => answer t (AnsFromIp (Err UnknownSocket))
  | Some st =>
      match pk_pending st with
      | Some _ => answer t (AnsFromIp (Err OperationPending))
      | None =>
          let! kept := try_icmp_recv (pk_handle st) max_len t in
          hmodify (fun r => set_icmp (<[id := mkPacket (pk_handle st) kept]> (rt_icmp r)) r)
      end
  end.

(** [handle_command]: whether the task stops *)
Definition handle_command (t : nat) (c : Command) : RT bool :=
  match c with
  | Shutdown => let! _ := answer t (AnsUnit (Ok tt)) in hret true
  | Inject packet =>
      let! r := hget in
      let '(res, d) := push_rx packet (rt_device r) in
      let! _ := hmodify (set_device d) in
      let! _ := answer t (AnsUnit res) in hret false
  | DialTcp remote => let! _ := dial_tcp remote t in hret false
  | ListenTcp local => let! _ := listen_tcp local t in hret false
  | BindUdp local => let! _ := bind_udp local t in hret false
  | BindRaw version protocol => let! _ := bind_raw version protocol t in hret false
  | BindIcmp identifier => let! _ := bind_icmp identifier t in hret false
  | TcpSend id data => let! _ := tcp_send id data t in hret false
  | TcpRecv id max_len => let! _ := tcp_recv id max_len t in hret false
  | TcpShutdown id => let! _ := tcp_shutdown id t in hret false
  | TcpAccept id => let! _ := tcp_accept id t in hret false
  | UdpSend id data target => let! _ := udp_send id data target t in hret false
  | UdpRecv id max_len => let! _ := udp_recv id max_len t in hret false
  | RawSend id packet => let! _ := raw_send id packet t in hret false
  | RawRecv id max_len => let! _ := raw_recv id max_len t in hret false
  | IcmpSend id payload target => let! _ := icmp_send id payload target t in hret false
  | IcmpRecv id max_len => let! _ := icmp_recv id max_len t in hret false
  end.

(** ** Kept operations *)

Definition retry {A} (f : A -> nat -> RT (option (A * nat))) (o : option (A * nat)) : RT (option (A * nat)) :=
  match o with Some (x, t) => f x t | None => hret None end.

Definition complete_connect (id : Z) (h : nat) (o : option nat) : RT (option nat) :=
  match o with
  | None => hret None
  | Some t =>
      let! s := get_tcp h in
      if bool_decide (tcp_state s = TcpEstablished)
      then let! _ := answer t (AnsId (Ok id)) in hret None
      else hret (Some t)
  end.

Definition complete_tcp (id : Z) : RT unit :=
  let! r := hget in
  match rt_tcp r !! id with
  | None => hret tt
  | Some st =>
      let h := tcp_handle st in
      let! _ := get_tcp h in
      let! c := complete_connect id h (pending_connect st) in
      let! s := retry (try_tcp_send h) (pending_send st) in
      let! v := retry (try_tcp_recv h) (pending_recv st) in
      hmodify (fun r => set_tcp (<[id := mkTcp h c s v]> (rt_tcp r)) r)
  end.

(** A connection a listener has: the listener goes on with a new socket, and the
    connection becomes a stream.  An id is drawn whether there is one or not. *)
Definition complete_listener (id : Z) : RT unit :=
  let! stream_id := next_id in
  let! r := hget in
  match rt_listeners r !! id with
  | None => hret tt
  | Some st =>
      let! s := get_tcp (lst_handle st) in
      if negb (bool_decide (tcp_state s = TcpEstablished)) then hret tt
      else
        match (e ← tcp_remote s; socket_addr e), tcp_listen (lst_local st) (tcp_new (rt_socket_buffer r)) with
        | Some remote, Ok replacement =>
            let! h := add_socket (STcp replacement) in
            let! _ := hmodify (fun r => set_tcp (<[stream_id := mkTcp (lst_handle st) None None None]> (rt_tcp r)) r) in
            match pending_accept st with
            | Some t =>
                let! _ := hmodify (fun r => set_listeners (<[id := mkListener h (lst_local st) None (accepted st)]> (rt_listeners r)) r) in
                answer t (AnsAccept (Ok (stream_id, remote)))
            | None =>
                hmodify (fun r => set_listeners
                  (<[id := mkListener h (lst_local st) None (accepted st ++ [(stream_id, remote)])]> (rt_listeners r)) r)
            end
        | _, _ => hret tt
        end
  end.

Definition complete_udp (id : Z) : RT unit :=
  let! r := hget in
  match rt_udp r !! id with
  | None => hret tt
  | Some st =>
      let! kept := retry (try_udp_recv (pk_handle st)) (pk_pending st) in
      hmodify (fun r => set_udp (<[id := mkPacket (pk_handle st) kept]> (rt_udp r)) r)
  end.

Definition complete_raw (id : Z) : RT unit :=
  let! r := hget in
  match rt_raw r !! id with
  | None => hret tt
  | Some st =>
      let! kept := retry (try_raw_recv (pk_handle st)) (pk_pending st) in
      hmodify (fun r => set_raw (<[id := mkPacket (pk_handle st) kept]> (rt_raw r)) r)
  end.

Definition complete_icmp (id : Z) : RT unit :=
  let! r := hget in
  match rt_icmp r !! id with
  | None => hret tt
  | Some st =>
      let! kept := retry (try_icmp_recv (pk_handle st)) (pk_pending st) in
      hmodify (fun r => set_icmp (<[id := mkPacket (pk_handle st) kept]> (rt_icmp r)) r)
  end.

Fixpoint each (f : Z -> RT unit) (l : list Z) : RT unit :=
  match l with [] => hret tt | x :: l => let! _ := f x in each f l end.

(** The order in which a hash table lists its keys *)
Context (order : list Z -> list Z).

Definition keys {A} (m : gmap Z A) : list Z := order (elements (dom m)).

Definition complete_pending : RT unit :=
  let! r := hget in
  let! _ := each complete_tcp (keys (rt_tcp r)) in
  let! r := hget in
  let! _ := each complete_listener (keys (rt_listeners r)) in
  let! r := hget in
  let! _ := each complete_udp (keys (rt_udp r)) in
  let! r := hget in
  let! _ := each complete_raw (keys (rt_raw r)) in
  let! r := hget in
  each complete_icmp (keys (rt_icmp r)).

(** ** The loop *)

Definition poll (now : Z) : RT unit := hmodify (fun r =>
  let '(d, (i, ss)) := iface_poll now (rt_device r) (rt_interface r, rt_sockets r) in
  set_device d (set_interface i (set_sockets ss r))).

Definition poll_delay (now : Z) (r : Runtime) : Z :=
  match dev_rx (rt_device r), dev_tx (rt_device r) with
  | [], [] =>
      Z.max STACK_POLL_MIN_INTERVAL (Z.min STACK_POLL_IDLE_INTERVAL
        (default STACK_POLL_IDLE_INTERVAL (iface_poll_delay now (rt_interface r, rt_sockets r))))
  | _, _ => STACK_POLL_MIN_INTERVAL
  end.

(** What wakes the task: a command, an event of the node (or its end), the timer *)
Inductive Wake : Type :=
| OnCommand (t : nat) (c : Command)
| OnEvent (e : option VelaEvent)
| OnTimer (now : Z).

Definition on_wake (k : Wake) : RT bool :=
  match k with
  | OnCommand t c => handle_command t c
  | OnEvent (Some (IpPacketEvent _ p)) =>
      let! _ := hmodify (fun r => set_device (snd (push_rx (ip_bytes p) (rt_device r))) r) in hret false
  | OnEvent (Some TransportFailed) | OnEvent None => hret true
  | OnEvent (Some _) => hret false
  | OnTimer now => let! _ := poll now in hret false
  end.

(** [flush_device]: the packets for the node, in order *)
Definition flush_device : RT (list bytes) := fun r =>
  (Ok (dev_tx (rt_device r)), set_device (mkDevice (dev_rx (rt_device r)) [] (dev_mtu (rt_device r))) r).

(** One turn of [run]: whether it stops, and the packets handed to [send_ip] *)
Definition turn (k : Wake) : RT (bool * list bytes) :=
  let! stop := on_wake k in
  if stop : bool then hret (true, [])
  else
    let! _ := complete_pending in
    let! packets := flush_device in
    hret (false, packets).

Definition new_runtime (i : Interface) (c : StackConfig) : Runtime :=
  mkRuntime i (VirtualDevice_new (sc_mtu c)) set_empty 1 ∅ ∅ ∅ ∅ ∅ EPHEMERAL_PORT_START (sc_socket_buffer c) [].
End runtime.
Arguments Runtime {Sm}.
