(* ===== verification/StackInv.v ===== *)
(** * The userspace stack: every request is answered once

    The invariant of [Stack]: every channel the task was given was answered once or
    is kept with exactly one operation; every handle names a socket of its kind, so
    the socket set never panics; the device queues stay within their bounds.  And
    the port of a connection is free when it is allocated. *)
From stdpp Require Import gmultiset.
From S2P Require Import Prelude Net Encoding Wire NodeId Snapshot SignedBytes Crypto Ip Replay Path Handshake NodeState NodeSend Stack.

Inductive Kind : Type := KTcp | KUdp | KRaw | KIcmp.

Definition kind {T U R I} (s : AnySocket T U R I) : Kind :=
  match s with STcp _ => KTcp | SUdp _ => KUdp | SRaw _ => KRaw | SIcmp _ => KIcmp end.

Definition kind_of {Sm : Smoltcp} (h : nat) (ss : SocketSet) : option Kind := kind <$> set_get h ss.

(** The sockets that were there are there, with the kind they had. *)
Definition kinds_kept {Sm : Smoltcp} (ss ss' : SocketSet) : Prop :=
  forall h k, kind_of h ss = Some k -> kind_of h ss' = Some k.

(** What smoltcp documents: adding a socket gives a handle to it and leaves the
    others, replacing one leaves the others, and polling works on the sockets and
    uses the device through its tokens. *)
Class SmoltcpLaws (Sm : Smoltcp) : Prop := {
  set_add_get : forall s ss h ss', set_add s ss = (h, ss') ->
    set_get h ss' = Some s /\ forall h' x, set_get h' ss = Some x -> set_get h' ss' = Some x;
  set_put_same : forall h s ss x, set_get h ss = Some x -> set_get h (set_put h s ss) = Some s;
  set_put_other : forall h s ss h', h' <> h -> set_get h' (set_put h s ss) = set_get h' ss;
  iface_poll_spec : forall now d i ss d' i' ss', iface_poll now d (i, ss) = (d', (i', ss')) ->
    rtc device_step d d' /\ kinds_kept ss ss'
}.

(** ** The device *)

Definition device_ok (d : VirtualDevice) : Prop :=
  (length (dev_rx d) <= DEVICE_QUEUE_LIMIT)%nat /\ (length (dev_tx d) <= DEVICE_QUEUE_LIMIT)%nat
  /\ Forall (fun p => len p <= dev_mtu d) (dev_rx d) /\ Forall (fun p => len p <= dev_mtu d) (dev_tx d).

Lemma push_rx_ok p d : device_ok d -> device_ok (snd (push_rx p d)).
Proof.
  intros (H1 & H2 & H3 & H4). unfold push_rx. destruct (Z.ltb_spec (dev_mtu d) (len p)); [done|].
  destruct (Nat.leb_spec DEVICE_QUEUE_LIMIT (length (dev_rx d))); [done|].
  split_and!; cbn [snd dev_rx dev_tx dev_mtu]; [|done| |done].
  - rewrite length_app. cbn. lia.
  - by apply Forall_app_2, Forall_singleton.
Qed.

Lemma device_step_ok d d' : device_step d d' -> device_ok d -> device_ok d'.
Proof.
  intros [packet x x' E|packet x] (H1 & H2 & H3 & H4).
  - unfold device_receive in E. destruct (dev_rx x) as [|p rx] eqn:Er; [done|]. injection E as <- <-.
    apply Forall_cons in H3 as [_ H3]. cbn in H1. split_and!; cbn [dev_rx dev_tx dev_mtu]; [lia|done..].
  - unfold tx_consume. destruct (Z.leb_spec (len packet) (dev_mtu x)); [|done].
    destruct (Nat.ltb_spec (length (dev_tx x)) DEVICE_QUEUE_LIMIT); [|done].
    cbn [andb]. split_and!; cbn [dev_rx dev_tx dev_mtu]; [done| |done|].
    + rewrite length_app. cbn. lia.
    + by apply Forall_app_2, Forall_singleton.
Qed.

Lemma device_steps_ok d d' : rtc device_step d d' -> device_ok d -> device_ok d'.
Proof. induction 1; eauto using device_step_ok. Qed.

(** ** The channels kept in a table *)

Section pending.
Context {V : Type} (tok : V -> list nat).

Definition chans (l : list nat) : gmultiset nat := list_to_set_disj l.

Definition pend (m : gmap Z V) : gmultiset nat := chans (concat (map (fun x => tok x.2) (map_to_list m))).

Lemma chans_app l l' : chans (l ++ l') = chans l ⊎ chans l'.
Proof. apply list_to_set_disj_app. Qed.

Lemma chans_nil : chans [] = ∅.
Proof. apply list_to_set_disj_nil. Qed.

Lemma pend_empty : pend ∅ = ∅.
Proof. unfold pend. by rewrite map_to_list_empty. Qed.

Lemma pend_new m k v : m !! k = None -> pend (<[k := v]> m) = chans (tok v) ⊎ pend m.
Proof.
  intros Hk. unfold pend. rewrite <-chans_app. apply list_to_set_disj_perm.
  rewrite (map_to_list_insert m k v Hk). done.
Qed.

Lemma pend_update m k v v' :
  m !! k = Some v -> pend (<[k := v']> m) ⊎ chans (tok v) = pend m ⊎ chans (tok v').
Proof.
  intros Hk. rewrite <-(insert_delete_id m k v Hk) at 2. rewrite <-insert_delete_eq.
  rewrite !pend_new by apply lookup_delete_eq. multiset_solver.
Qed.
End pending.

(** Equalities of multisets by counting *)
Ltac count_chans :=
  apply gmultiset_eq; intros ?x;
  repeat match goal with H : @eq (gmultiset nat) _ _ |- _ => apply (f_equal (multiplicity x)) in H end;
  rewrite ?chans_nil, ?multiplicity_disj_union, ?multiplicity_empty in *; lia.

Section invariant.
Context {Sm : Smoltcp} {SL : SmoltcpLaws Sm}.
Local Notation RT := (handler Runtime Panic).

Definition toks_tcp (st : TcpState) : list nat :=
  option_list (pending_connect st) ++ option_list (snd <$> pending_send st) ++ option_list (snd <$> pending_recv st).
Definition toks_listener (st : ListenerState) : list nat := option_list (pending_accept st).
Definition toks_packet (st : PacketState) : list nat := option_list (snd <$> pk_pending st).

Definition answered (r : Runtime) : gmultiset nat := chans (map fst (rt_answers r)).

Definition kept_channels (r : Runtime) : gmultiset nat :=
  pend toks_tcp (rt_tcp r) ⊎ pend toks_listener (rt_listeners r) ⊎ pend toks_packet (rt_udp r)
  ⊎ pend toks_packet (rt_raw r) ⊎ pend toks_packet (rt_icmp r).

(** The handles of a runtime name sockets of their kind. *)
Definition handles_ok (r : Runtime) : Prop :=
  map_Forall (fun _ st => kind_of (tcp_handle st) (rt_sockets r) = Some KTcp) (rt_tcp r)
  /\ map_Forall (fun _ st => kind_of (lst_handle st) (rt_sockets r) = Some KTcp) (rt_listeners r)
  /\ map_Forall (fun _ st => kind_of (pk_handle st) (rt_sockets r) = Some KUdp) (rt_udp r)
  /\ map_Forall (fun _ st => kind_of (pk_handle st) (rt_sockets r) = Some KRaw) (rt_raw r)
  /\ map_Forall (fun _ st => kind_of (pk_handle st) (rt_sockets r) = Some KIcmp) (rt_icmp r).

(** The ids that are used were drawn. *)
Definition ids_ok (r : Runtime) : Prop :=
  1 <= rt_next_id r
  /\ map_Forall (fun id _ => id < rt_next_id r) (rt_tcp r)
  /\ map_Forall (fun id _ => id < rt_next_id r) (rt_listeners r)
  /\ map_Forall (fun id _ => id < rt_next_id r) (rt_udp r)
  /\ map_Forall (fun id _ => id < rt_next_id r) (rt_raw r)
  /\ map_Forall (fun id _ => id < rt_next_id r) (rt_icmp r).

Definition port_ok (r : Runtime) : Prop := EPHEMERAL_PORT_START <= rt_next_port r <= EPHEMERAL_PORT_END.

Definition wf (r : Runtime) : Prop := handles_ok r /\ ids_ok r /\ port_ok r /\ device_ok (rt_device r).

(** ** Work on the sockets and answers, which leaves the tables alone *)

Definition sockets_frame (r r' : Runtime) : Prop :=
  kinds_kept (rt_sockets r) (rt_sockets r')
  /\ rt_tcp r' = rt_tcp r /\ rt_listeners r' = rt_listeners r /\ rt_udp r' = rt_udp r
  /\ rt_raw r' = rt_raw r /\ rt_icmp r' = rt_icmp r /\ rt_next_id r' = rt_next_id r
  /\ rt_next_port r' = rt_next_port r /\ rt_device r' = rt_device r.

Lemma kinds_kept_refl ss : kinds_kept ss ss.
Proof. by intros h k. Qed.

Lemma kinds_kept_trans ss1 ss2 ss3 : kinds_kept ss1 ss2 -> kinds_kept ss2 ss3 -> kinds_kept ss1 ss3.
Proof. intros H1 H2 h k Hk. by apply H2, H1. Qed.

Lemma sockets_frame_refl r : sockets_frame r r.
Proof. split; [apply kinds_kept_refl|by split_and!]. Qed.

Lemma frame_trans r1 r2 r3 : sockets_frame r1 r2 -> sockets_frame r2 r3 -> sockets_frame r1 r3.
Proof.
  intros (H1 & H) (H1' & H'). split; [by eapply kinds_kept_trans|]. destruct_and!. split_and!; congruence.
Qed.

Lemma handles_ok_kinds r ss : kinds_kept (rt_sockets r) ss -> handles_ok r -> handles_ok (set_sockets ss r).
Proof.
  intros Hk (H1 & H2 & H3 & H4 & H5).
  split_and!; (eapply map_Forall_impl; [eassumption|]); cbn; intros; by apply Hk.
Qed.

Lemma wf_frame r r' : sockets_frame r r' -> wf r -> wf r'.
Proof.
  intros (Hk & E1 & E2 & E3 & E4 & E5 & E6 & E7 & E8) (H1 & H2 & H3 & H4).
  pose proof (handles_ok_kinds _ _ Hk H1) as H1'.
  unfold wf, handles_ok, ids_ok, port_ok in *. cbn in H1'. rewrite E1, E2, E3, E4, E5, E6, E7, E8. done.
Qed.

Lemma kept_frame r r' : sockets_frame r r' -> kept_channels r' = kept_channels r.
Proof. intros (_ & E1 & E2 & E3 & E4 & E5 & _). unfold kept_channels. by rewrite E1, E2, E3, E4, E5. Qed.

(** [m] works on a socket; the channels [inp] it is given are answered, but for
    those it gives back. *)
Definition settles {A} (h : nat) (k : Kind) (m : RT A) (inp : list nat) (out : A -> list nat) : Prop :=
  forall r, kind_of h (rt_sockets r) = Some k -> exists a r',
    m r = (Ok a, r') /\ sockets_frame r r' /\ answered r' ⊎ chans (out a) = chans inp ⊎ answered r.

Lemma answered_answer t a r :
  answered (set_answers (rt_answers r ++ [(t, a)]) r) = chans [t] ⊎ answered r.
Proof. unfold answered. cbn [rt_answers set_answers]. rewrite map_app, chans_app. multiset_solver. Qed.

Lemma frame_answer x r : sockets_frame r (set_answers x r).
Proof. split; [apply kinds_kept_refl|by split_and!]. Qed.

Lemma frame_put h s r : kind_of h (rt_sockets r) = Some (kind s) -> sockets_frame r (set_sockets (set_put h s (rt_sockets r)) r).
Proof.
  intros Hk. split; [|by split_and!]. intros h' k'. cbn [rt_sockets set_sockets]. unfold kind_of in *.
  destruct (decide (h' = h)) as [->|Hne]; [|by rewrite set_put_other].
  destruct (set_get h (rt_sockets r)) as [x|] eqn:E; [|done]. rewrite (set_put_same _ _ _ _ E). cbn in *. congruence.
Qed.

Lemma settles_answer h k t a : settles h k (answer t a) [t] (fun _ => []).
Proof.
  intros r _. exists tt. eexists. split; [reflexivity|]. split; [apply frame_answer|].
  rewrite answered_answer. count_chans.
Qed.

Lemma settles_ret {A} h k (a : A) inp out : out a = inp -> settles h k (hret a) inp out.
Proof. intros <- r _. exists a, r. split_and!; [done|apply sockets_frame_refl|]. count_chans. Qed.

Lemma settles_put h k s : kind s = k -> settles h k (put_socket h s) [] (fun _ => []).
Proof.
  intros <- r Hk. exists tt. eexists. split; [reflexivity|]. split; [by apply frame_put|].
  unfold answered. cbn [rt_answers set_sockets]. count_chans.
Qed.

Lemma settles_bind {A B} h k (m : RT A) (f : A -> RT B) inp mid out :
  settles h k m inp mid -> (forall a, settles h k (f a) (mid a) out) -> settles h k (hbind m f) inp out.
Proof.
  intros Hm Hf r Hr. destruct (Hm r Hr) as (a & r1 & E1 & F1 & C1).
  destruct (Hf a r1) as (b & r2 & E2 & F2 & C2); [by apply F1|].
  exists b, r2. unfold hbind. rewrite E1. split_and!; [done|by eapply frame_trans|]. count_chans.
Qed.

(** Channels that are set aside meanwhile *)
Lemma settles_frame {A} h k (m : RT A) inp out extra :
  settles h k m inp out -> settles h k m (inp ++ extra) (fun a => out a ++ extra).
Proof.
  intros Hm r Hr. destruct (Hm r Hr) as (a & r1 & E1 & F1 & C1). exists a, r1. split_and!; [done..|].
  rewrite !chans_app. count_chans.
Qed.

Lemma settles_get h (k : Kind) {T} (m : RT T) inp :
  (forall r, kind_of h (rt_sockets r) = Some k -> exists s, m r = (Ok s, r)) ->
  settles h k m inp (fun _ => inp).
Proof. intros Hm r Hr. destruct (Hm r Hr) as [s E]. exists s, r. split_and!; [done|apply sockets_frame_refl|count_chans]. Qed.

Lemma settles_get_tcp h inp : settles h KTcp (get_tcp h) inp (fun _ => inp).
Proof.
  apply settles_get. intros r. unfold kind_of, get_tcp. destruct (set_get h (rt_sockets r)) as [[]|]; [|done..].
  intros _. by eexists.
Qed.

Lemma settles_get_udp h inp : settles h KUdp (get_udp h) inp (fun _ => inp).
Proof.
  apply settles_get. intros r. unfold kind_of, get_udp. destruct (set_get h (rt_sockets r)) as [[]|]; [done| |done..].
  intros _. by eexists.
Qed.

Lemma settles_get_raw h inp : settles h KRaw (get_raw h) inp (fun _ => inp).
Proof.
  apply settles_get. intros r. unfold kind_of, get_raw. destruct (set_get h (rt_sockets r)) as [[]|]; [done|done| |done..].
  intros _. by eexists.
Qed.

Lemma settles_get_icmp h inp : settles h KIcmp (get_icmp h) inp (fun _ => inp).
Proof.
  apply settles_get. intros r. unfold kind_of, get_icmp. destruct (set_get h (rt_sockets r)) as [[]|]; [done|done|done| |done].
  intros _. by eexists.
Qed.

(** The operations that may be kept: answered, or given back *)
Definition toks {A} (o : option (A * nat)) : list nat := option_list (snd <$> o).

Lemma settles_done {A} h k t a : settles h k (answer t a ;! hret None) [t] (@toks A).
Proof. eapply settles_bind; [apply settles_answer|]. intros ?; by apply settles_ret. Qed.

Lemma settles_put_done {A} h k s t a :
  kind s = k -> settles h k (put_socket h s ;! answer t a ;! hret None) [t] (@toks A).
Proof.
  intros Hk. eapply settles_bind; [apply (settles_frame h k _ [] (fun _ => []) [t]), settles_put; done|].
  intros ?; apply settles_done.
Qed.

Lemma settles_tcp_send h data t : settles h KTcp (try_tcp_send h data t) [t] toks.
Proof.
  eapply settles_bind; [apply settles_get_tcp|]. intros s.
  destruct (tcp_can_send s); [|by apply settles_ret]. destruct (tcp_send_slice data s) as [res s'].
  by apply settles_put_done.
Qed.

Lemma settles_tcp_recv h n t : settles h KTcp (try_tcp_recv h n t) [t] toks.
Proof.
  eapply settles_bind; [apply settles_get_tcp|]. intros s.
  destruct (tcp_can_recv s).
  - destruct (tcp_recv_slice n s) as [res s']. by apply settles_put_done.
  - destruct (negb (tcp_may_recv s)); [apply settles_done|by apply settles_ret].
Qed.

Lemma settles_udp_recv h n t : settles h KUdp (try_udp_recv h n t) [t] toks.
Proof.
  eapply settles_bind; [apply settles_get_udp|]. intros s.
  destruct (udp_can_recv s); [|by apply settles_ret]. destruct (udp_recv_slice n s) as [res s'].
  by apply settles_put_done.
Qed.

Lemma settles_raw_recv h n t : settles h KRaw (try_raw_recv h n t) [t] toks.
Proof.
  eapply settles_bind; [apply settles_get_raw|]. intros s.
  destruct (raw_can_recv s); [|by apply settles_ret]. destruct (raw_recv_slice n s) as [res s'].
  by apply settles_put_done.
Qed.

Lemma settles_icmp_recv h n t : settles h KIcmp (try_icmp_recv h n t) [t] toks.
Proof.
  eapply settles_bind; [apply settles_get_icmp|]. intros s.
  destruct (negb (icmp_recv_queue s =? 0)); [|by apply settles_ret]. destruct (icmp_recv_slice n s) as [res s'].
  by apply settles_put_done.
Qed.

Lemma settles_retry {A} h k (f : A -> nat -> RT (option (A * nat))) o :
  (forall x t, settles h k (f x t) [t] toks) -> settles h k (retry f o) (toks o) toks.
Proof. intros Hf. destruct o as [[x t]|]; [apply Hf|by apply settles_ret]. Qed.

Lemma settles_connect id h o :
  settles h KTcp (complete_connect id h o) (option_list o) option_list.
Proof.
  destruct o as [t|]; [|by apply settles_ret]. cbn [complete_connect].
  eapply settles_bind; [apply settles_get_tcp|]. intros s. case_bool_decide; [|by apply settles_ret].
  eapply settles_bind; [apply settles_answer|]. intros ?; by apply settles_ret.
Qed.

(** ** The steps of the task *)

(** A step succeeds, keeps the runtime well formed, and accounts for the channels
    it was given. *)
Definition channels (r : Runtime) : gmultiset nat := answered r ⊎ kept_channels r.

(** At most [n] ids were drawn and [n] listeners opened. *)
Definition grow (n : nat) (r r' : Runtime) : Prop :=
  rt_next_id r' <= rt_next_id r + Z.of_nat n
  /\ (size (rt_listeners r') <= size (rt_listeners r) + n)%nat.

Definition after (n : nat) (inp : list nat) (r r' : Runtime) : Prop :=
  wf r' /\ channels r' = chans inp ⊎ channels r /\ grow n r r'.

Definition sound {A} (n : nat) (P : Runtime -> Prop) (m : RT A) (inp : list nat) : Prop :=
  forall r, wf r -> P r -> exists a r', m r = (Ok a, r') /\ after n inp r r'.

(** [n] more ids can be drawn before the counter wraps. *)
Definition room (n : nat) (r : Runtime) : Prop := rt_next_id r + Z.of_nat n < 2 ^ 64.

Lemma grow_same n r r' :
  rt_next_id r' = rt_next_id r -> rt_listeners r' = rt_listeners r -> grow n r r'.
Proof. unfold grow. intros -> ->. lia. Qed.

Lemma grow_frame n r r' : sockets_frame r r' -> grow n r r'.
Proof. intros (_ & _ & ? & _ & _ & _ & ? & _). by apply grow_same. Qed.

Lemma sound_settles {A} h k (m : RT A) inp n :
  settles h k m inp (fun _ => []) -> sound n (fun r => kind_of h (rt_sockets r) = Some k) m inp.
Proof.
  intros Hm r Hwf Hk. destruct (Hm r Hk) as (a & r' & E & F & C). exists a, r'.
  split; [done|]. split_and!; [by eapply wf_frame| |by apply grow_frame].
  unfold channels. rewrite (kept_frame _ _ F). count_chans.
Qed.

(** The answer that ends an operation, from a state with the channels of the first *)
Lemma answer_use t a n r0 r :
  wf r -> channels r = channels r0 -> grow n r0 r ->
  exists u r', answer t a r = (Ok u, r') /\ after n [t] r0 r'.
Proof.
  intros Hwf E Hg. exists tt. eexists. split; [reflexivity|].
  split_and!; [eapply wf_frame; [apply frame_answer|done]| |done]. rewrite <-E.
  unfold channels. rewrite answered_answer, (kept_frame r _ (frame_answer _ r)). count_chans.
Qed.

Lemma grow_refl n r : grow n r r.
Proof. by apply grow_same. Qed.

Lemma answer_now t a n r : wf r -> exists u r', answer t a r = (Ok u, r') /\ after n [t] r r'.
Proof. intros Hwf. apply answer_use; [done..|apply grow_refl]. Qed.

Lemma sound_then {A B} n P (m : RT A) (b : B) inp : sound n P m inp -> sound n P (m ;! hret b) inp.
Proof.
  intros Hm r Hwf HP. destruct (Hm r Hwf HP) as (a & r' & E & H). exists b, r'.
  unfold hbind. by rewrite E.
Qed.

(** *** The tables *)

Ltac solve_wf_table :=
  intros (Hh & Hi & Hp & Hd) Hk Hid; unfold wf, handles_ok, ids_ok in *;
  destruct_and!; split_and!; try done; cbn; by apply map_Forall_insert_2.

Ltac solve_kept H :=
  pose proof H; unfold kept_channels;
  cbn [rt_tcp rt_listeners rt_udp rt_raw rt_icmp set_tcp set_listeners set_udp set_raw set_icmp]; count_chans.

Lemma wf_tcp id st r :
  wf r -> kind_of (tcp_handle st) (rt_sockets r) = Some KTcp -> id < rt_next_id r ->
  wf (set_tcp (<[id := st]> (rt_tcp r)) r).
Proof. solve_wf_table. Qed.

Lemma kept_tcp_update id st st' r :
  rt_tcp r !! id = Some st ->
  kept_channels (set_tcp (<[id := st']> (rt_tcp r)) r) ⊎ chans (toks_tcp st)
  = kept_channels r ⊎ chans (toks_tcp st').
Proof. intros Hl. solve_kept (pend_update toks_tcp _ _ _ st' Hl). Qed.

Lemma kept_tcp_new id st r :
  rt_tcp r !! id = None ->
  kept_channels (set_tcp (<[id := st]> (rt_tcp r)) r) = chans (toks_tcp st) ⊎ kept_channels r.
Proof. intros Hl. solve_kept (pend_new toks_tcp _ _ st Hl). Qed.

Lemma wf_listeners id st r :
  wf r -> kind_of (lst_handle st) (rt_sockets r) = Some KTcp -> id < rt_next_id r ->
  wf (set_listeners (<[id := st]> (rt_listeners r)) r).
Proof. solve_wf_table. Qed.

Lemma kept_listeners_update id st st' r :
  rt_listeners r !! id = Some st ->
  kept_channels (set_listeners (<[id := st']> (rt_listeners r)) r) ⊎ chans (toks_listener st)
  = kept_channels r ⊎ chans (toks_listener st').
Proof. intros Hl. solve_kept (pend_update toks_listener _ _ _ st' Hl). Qed.

Lemma kept_listeners_new id st r :
  rt_listeners r !! id = None ->
  kept_channels (set_listeners (<[id := st]> (rt_listeners r)) r) = chans (toks_listener st) ⊎ kept_channels r.
Proof. intros Hl. solve_kept (pend_new toks_listener _ _ st Hl). Qed.

Lemma wf_udp id st r :
  wf r -> kind_of (pk_handle st) (rt_sockets r) = Some KUdp -> id < rt_next_id r ->
  wf (set_udp (<[id := st]> (rt_udp r)) r).
Proof. solve_wf_table. Qed.

Lemma kept_udp_update id st st' r :
  rt_udp r !! id = Some st ->
  kept_channels (set_udp (<[id := st']> (rt_udp r)) r) ⊎ chans (toks_packet st)
  = kept_channels r ⊎ chans (toks_packet st').
Proof. intros Hl. solve_kept (pend_update toks_packet _ _ _ st' Hl). Qed.

Lemma kept_udp_new id st r :
  rt_udp r !! id = None ->
  kept_channels (set_udp (<[id := st]> (rt_udp r)) r) = chans (toks_packet st) ⊎ kept_channels r.
Proof. intros Hl. solve_kept (pend_new toks_packet _ _ st Hl). Qed.

Lemma wf_raw id st r :
  wf r -> kind_of (pk_handle st) (rt_sockets r) = Some KRaw -> id < rt_next_id r ->
  wf (set_raw (<[id := st]> (rt_raw r)) r).
Proof. solve_wf_table. Qed.

Lemma kept_raw_update id st st' r :
  rt_raw r !! id = Some st ->
  kept_channels (set_raw (<[id := st']> (rt_raw r)) r) ⊎ chans (toks_packet st)
  = kept_channels r ⊎ chans (toks_packet st').
Proof. intros Hl. solve_kept (pend_update toks_packet _ _ _ st' Hl). Qed.

Lemma kept_raw_new id st r :
  rt_raw r !! id = None ->
  kept_channels (set_raw (<[id := st]> (rt_raw r)) r) = chans (toks_packet st) ⊎ kept_channels r.
Proof. intros Hl. solve_kept (pend_new toks_packet _ _ st Hl). Qed.

Lemma wf_icmp id st r :
  wf r -> kind_of (pk_handle st) (rt_sockets r) = Some KIcmp -> id < rt_next_id r ->
  wf (set_icmp (<[id := st]> (rt_icmp r)) r).
Proof. solve_wf_table. Qed.

Lemma kept_icmp_update id st st' r :
  rt_icmp r !! id = Some st ->
  kept_channels (set_icmp (<[id := st']> (rt_icmp r)) r) ⊎ chans (toks_packet st)
  = kept_channels r ⊎ chans (toks_packet st').
Proof. intros Hl. solve_kept (pend_update toks_packet _ _ _ st' Hl). Qed.

Lemma kept_icmp_new id st r :
  rt_icmp r !! id = None ->
  kept_channels (set_icmp (<[id := st]> (rt_icmp r)) r) = chans (toks_packet st) ⊎ kept_channels r.
Proof. intros Hl. solve_kept (pend_new toks_packet _ _ st Hl). Qed.

Lemma map_below {A} (m : gmap Z A) b : map_Forall (fun id _ => id < b) m -> m !! b = None.
Proof. intros Hm. destruct (m !! b) eqn:E; [|done]. specialize (Hm _ _ E). cbn in Hm. lia. Qed.

(** Drawing an id: it is used nowhere. *)
Lemma next_id_spec r :
  wf r -> room 1 r ->
  next_id r = (Ok (rt_next_id r), set_next_id (rt_next_id r + 1) r)
  /\ wf (set_next_id (rt_next_id r + 1) r)
  /\ rt_tcp r !! rt_next_id r = None /\ rt_listeners r !! rt_next_id r = None
  /\ rt_udp r !! rt_next_id r = None /\ rt_raw r !! rt_next_id r = None
  /\ rt_icmp r !! rt_next_id r = None.
Proof.
  intros (Hh & Hi & Hp & Hd) Hroom. unfold room in Hroom. unfold ids_ok in Hi. destruct_and!.
  unfold next_id. rewrite Z.mod_small, Z.max_l by lia.
  split_and!; [done| |by apply map_below..].
  unfold wf, ids_ok. split_and!; try done; cbn [rt_next_id set_next_id rt_tcp rt_listeners rt_udp rt_raw rt_icmp];
    first [lia | (eapply map_Forall_impl; [eassumption|]); cbn beta; lia].
Qed.

Lemma add_socket_spec s r : exists h r', add_socket s r = (Ok h, r')
  /\ sockets_frame r r' /\ kind_of h (rt_sockets r') = Some (kind s) /\ answered r' = answered r
  /\ rt_socket_buffer r' = rt_socket_buffer r.
Proof.
  unfold add_socket. destruct (set_add s (rt_sockets r)) as [h ss] eqn:E.
  destruct (set_add_get _ _ _ _ E) as [Hg Ho]. exists h. eexists. split; [reflexivity|].
  split_and!; try done.
  - split; [|by split_and!]. intros h' k. unfold kind_of. cbn.
    destruct (set_get h' (rt_sockets r)) as [x|] eqn:Ex; [|done]. by rewrite (Ho _ _ Ex).
  - unfold kind_of. cbn. by rewrite Hg.
Qed.

(** *** Ports *)

Definition PORT_COUNT : Z := EPHEMERAL_PORT_END - EPHEMERAL_PORT_START + 1.

(** The [i]-th port from [p] on, around the range *)
Definition port_after (p i : Z) : Z :=
  EPHEMERAL_PORT_START + (p - EPHEMERAL_PORT_START + i) mod PORT_COUNT.

Lemma port_after_0 p : EPHEMERAL_PORT_START <= p <= EPHEMERAL_PORT_END -> port_after p 0 = p.
Proof.
  unfold port_after, PORT_COUNT, EPHEMERAL_PORT_START, EPHEMERAL_PORT_END. intros.
  rewrite Z.mod_small; lia.
Qed.

Lemma port_after_next p i :
  EPHEMERAL_PORT_START <= p <= EPHEMERAL_PORT_END ->
  port_after (if p =? EPHEMERAL_PORT_END then EPHEMERAL_PORT_START else p + 1) i = port_after p (i + 1).
Proof.
  unfold port_after, PORT_COUNT. intros Hp. f_equal. destruct (Z.eqb_spec p EPHEMERAL_PORT_END) as [->|].
  - replace (EPHEMERAL_PORT_END - EPHEMERAL_PORT_START + (i + 1))
      with (EPHEMERAL_PORT_START - EPHEMERAL_PORT_START + i + 1 * (EPHEMERAL_PORT_END - EPHEMERAL_PORT_START + 1)) by lia.
    by rewrite Z.mod_add.
  - f_equal. lia.
Qed.

Lemma port_after_onto p c :
  EPHEMERAL_PORT_START <= c <= EPHEMERAL_PORT_END ->
  exists i, 0 <= i < PORT_COUNT /\ port_after p i = c.
Proof.
  intros Hc. exists ((c - p) mod PORT_COUNT). split; [apply Z.mod_pos_bound; done|].
  unfold port_after. rewrite Zplus_mod_idemp_r, Z.mod_small; [lia|].
  unfold PORT_COUNT. lia.
Qed.

Lemma allocate_loop_spec n r :
  port_ok r -> exists res p, allocate_loop n r = (Ok res, set_next_port p r)
  /\ EPHEMERAL_PORT_START <= p <= EPHEMERAL_PORT_END
  /\ match res with
     | Ok c => EPHEMERAL_PORT_START <= c <= EPHEMERAL_PORT_END /\ port_used c r = false
     | Err e => e = NoEphemeralPort
                /\ forall i, 0 <= i < Z.of_nat n -> port_used (port_after (rt_next_port r) i) r = true
     end.
Proof.
  revert r. induction n as [|n IH]; intros r Hp; cbn [allocate_loop].
  { exists (Err NoEphemeralPort), (rt_next_port r). split_and!; try apply Hp; [by destruct r|done|lia]. }
  set (q := if rt_next_port r =? EPHEMERAL_PORT_END then EPHEMERAL_PORT_START else rt_next_port r + 1).
  assert (Hq : EPHEMERAL_PORT_START <= q <= EPHEMERAL_PORT_END).
  { unfold port_ok in Hp. subst q. destruct (Z.eqb_spec (rt_next_port r) EPHEMERAL_PORT_END); [done|lia]. }
  change (port_used (rt_next_port r) (set_next_port q r)) with (port_used (rt_next_port r) r).
  destruct (port_used (rt_next_port r) r) eqn:Eu.
  - destruct (IH (set_next_port q r) Hq) as (res & p & E & Hr & Hm). exists res, p. rewrite E.
    split_and!; [done|apply Hr|apply Hr|]. destruct res as [c|e]; [done|]. destruct Hm as [He Hm].
    split; [done|]. intros i Hi. destruct (Z.eqb_spec i 0) as [->|].
    + by rewrite port_after_0.
    + specialize (Hm (i - 1) ltac:(lia)). cbn [rt_next_port set_next_port] in Hm. subst q.
      rewrite port_after_next in Hm by done. replace (i - 1 + 1) with i in Hm by lia. done.
  - exists (Ok (rt_next_port r)), q. split_and!; try done; apply Hq || apply Hp.
Qed.

(** a dialled connection gets a port of the ephemeral range that no listener
    and no open connection uses, and dialling fails for want of a port only when
    each of the 16384 ports is in use, wherever the search starts. *)
Theorem allocate_tcp_port_exact r :
  EPHEMERAL_PORT_START <= rt_next_port r <= EPHEMERAL_PORT_END ->
  exists res p, allocate_tcp_port r = (Ok res, set_next_port p r)
    /\ EPHEMERAL_PORT_START <= p <= EPHEMERAL_PORT_END
    /\ match res with
       | Ok c => EPHEMERAL_PORT_START <= c <= EPHEMERAL_PORT_END /\ port_used c r = false
       | Err e => e = NoEphemeralPort
                  /\ forall c, EPHEMERAL_PORT_START <= c <= EPHEMERAL_PORT_END -> port_used c r = true
       end.
Proof.
  intros Hp. unfold allocate_tcp_port.
  destruct (allocate_loop_spec (Z.to_nat (EPHEMERAL_PORT_END - EPHEMERAL_PORT_START) + 1) r Hp)
    as (res & p & E & Hr & Hm).
  exists res, p. split_and!; [done|apply Hr|apply Hr|]. destruct res as [c|e]; [done|].
  destruct Hm as [He Hm]. split; [done|]. intros c Hc.
  destruct (port_after_onto (rt_next_port r) c Hc) as (i & Hi & <-). apply Hm.
  unfold PORT_COUNT, EPHEMERAL_PORT_START, EPHEMERAL_PORT_END in *. lia.
Qed.

(** *** Opening sockets *)

Ltac drew := unfold grow; repeat match goal with x := _ |- _ => subst x end; cbn [rt_next_id rt_listeners set_next_id set_next_port set_interface]; lia.

Lemma wf_next_port p r :
  wf r -> EPHEMERAL_PORT_START <= p <= EPHEMERAL_PORT_END -> wf (set_next_port p r).
Proof. by intros (Hh & Hi & _ & Hd) Hp. Qed.

Lemma frame_id r r' : sockets_frame r r' -> rt_next_id r' = rt_next_id r.
Proof. by intros (_ & _ & _ & _ & _ & _ & ? & _). Qed.

Lemma frame_tcp r r' : sockets_frame r r' -> rt_tcp r' = rt_tcp r.
Proof. by intros (_ & ? & _). Qed.

Lemma dial_tcp_sound remote t : sound 1 (room 1) (dial_tcp remote t) [t].
Proof.
  intros r Hwf Hroom. destruct (next_id_spec r Hwf Hroom) as (E & Hwf1 & Ht & _).
  unfold dial_tcp. unfold hbind at 1. rewrite E. set (id := rt_next_id r) in *.
  set (r1 := set_next_id (id + 1) r) in *.
  destruct (allocate_loop_spec (Z.to_nat (EPHEMERAL_PORT_END - EPHEMERAL_PORT_START) + 1) r1)
    as (res & p & E2 & Hp & _); [apply Hwf1|].
  unfold hbind at 1, allocate_tcp_port. rewrite E2.
  pose proof (wf_next_port p r1 Hwf1 Hp) as Hwf2.
  destruct res as [port|e]; [|apply answer_use; [done..|drew]]. unfold hbind at 1, hget at 1.
  destruct (tcp_connect _ _ _ _) as [res iface]. unfold hbind at 1, hmodify at 1.
  set (r3 := set_interface iface (set_next_port p r1)). assert (Hwf3 : wf r3) by done.
  destruct res as [s|e]; [|apply answer_use; [done..|drew]].
  unfold hbind at 1. destruct (add_socket_spec (STcp s) r3) as (h & r4 & E4 & F4 & Hk & Ha & _). rewrite E4.
  eexists tt, _. split; [reflexivity|]. split_and!.
  - apply wf_tcp; [by eapply wf_frame|done|]. rewrite (frame_id _ _ F4). cbn. lia.
  - unfold channels. rewrite kept_tcp_new by (rewrite (frame_tcp _ _ F4); exact Ht).
    rewrite (kept_frame _ _ F4). change (kept_channels r3) with (kept_channels r).
    change (answered (set_tcp _ r4)) with (answered r4). rewrite Ha. change (answered r3) with (answered r).
    change (toks_tcp (mkTcp h (Some t) None None)) with [t]. count_chans.
  - destruct F4 as (_ & _ & Hl & _ & _ & _ & Hn & _). unfold grow. cbn [rt_next_id rt_listeners set_tcp].
    rewrite Hl, Hn. drew.
Qed.

(** An id is drawn and a socket is added. *)
Lemma opened sk r :
  wf r -> room 1 r -> exists h r', add_socket sk (set_next_id (rt_next_id r + 1) r) = (Ok h, r')
  /\ wf r' /\ channels r' = channels r /\ kind_of h (rt_sockets r') = Some (kind sk)
  /\ rt_next_id r < rt_next_id r' /\ rt_next_id r' = rt_next_id r + 1 /\ rt_listeners r' = rt_listeners r
  /\ rt_tcp r' !! rt_next_id r = None /\ rt_listeners r' !! rt_next_id r = None
  /\ rt_udp r' !! rt_next_id r = None /\ rt_raw r' !! rt_next_id r = None
  /\ rt_icmp r' !! rt_next_id r = None.
Proof.
  intros Hwf Hroom. destruct (next_id_spec r Hwf Hroom) as (_ & Hwf1 & Hf).
  destruct (add_socket_spec sk (set_next_id (rt_next_id r + 1) r)) as (h & r' & E & F & Hk & Ha & _).
  exists h, r'. split; [done|]. split; [by eapply wf_frame|].
  split; [unfold channels; rewrite (kept_frame _ _ F), Ha; done|].
  destruct F as (_ & -> & -> & -> & -> & -> & -> & _). cbn. split_and!; try lia; try done; apply Hf.
Qed.

(** Entering a state without channels in a table *)
Ltac enter wf_table kept_new :=
  apply answer_use; [by apply wf_table| |];
  [ match goal with H : channels ?r' = channels ?r |- _ => rewrite <-H end;
    unfold channels; rewrite kept_new by done;
    match goal with |- context [chans (?f ?st)] => change (chans (f st)) with (chans []) end;
    unfold answered; cbn [rt_answers set_listeners set_udp set_raw set_icmp]; count_chans
  | unfold grow; cbn [rt_next_id rt_listeners set_listeners set_udp set_raw set_icmp];
    match goal with H : rt_listeners ?r' = _ |- _ => rewrite H in * end;
    rewrite ?map_size_insert_None by done; lia ].

Lemma listen_tcp_sound local t : sound 1 (room 1) (listen_tcp local t) [t].
Proof.
  intros r Hwf Hroom. destruct (next_id_spec r Hwf Hroom) as (E & Hwf1 & _).
  unfold listen_tcp. unfold hbind at 1. rewrite E. unfold hbind at 1, hget at 1.
  destruct (tcp_listen _ _) as [s|e]; [|apply answer_use; [done..|drew]].
  destruct (opened (STcp s) r Hwf Hroom) as (h & r' & E' & Hwf' & Hc & Hk & Hid & Hn & Hls & Hf).
  unfold hbind at 1. rewrite E'. unfold hbind at 1, hmodify at 1. destruct_and!.
  enter wf_listeners kept_listeners_new.
Qed.

Lemma bind_udp_sound local t : sound 1 (room 1) (bind_udp local t) [t].
Proof.
  intros r Hwf Hroom. destruct (next_id_spec r Hwf Hroom) as (E & Hwf1 & _).
  unfold bind_udp. unfold hbind at 1. rewrite E. unfold hbind at 1, hget at 1.
  destruct (udp_bind _ _) as [s|e]; [|apply answer_use; [done..|drew]].
  destruct (opened (SUdp s) r Hwf Hroom) as (h & r' & E' & Hwf' & Hc & Hk & Hid & Hn & Hls & Hf).
  unfold hbind at 1. rewrite E'. unfold hbind at 1, hmodify at 1. destruct_and!.
  enter wf_udp kept_udp_new.
Qed.

Lemma bind_raw_sound version protocol t : sound 1 (room 1) (bind_raw version protocol t) [t].
Proof.
  intros r Hwf Hroom. destruct (next_id_spec r Hwf Hroom) as (E & Hwf1 & _).
  unfold bind_raw. unfold hbind at 1. rewrite E. unfold hbind at 1, hget at 1.
  destruct (opened (SRaw (raw_new version protocol (rt_socket_buffer r))) r Hwf Hroom)
    as (h & r' & E' & Hwf' & Hc & Hk & Hid & Hn & Hls & Hf).
  unfold hbind at 1. cbn [rt_socket_buffer set_next_id]. rewrite E'. unfold hbind at 1, hmodify at 1. destruct_and!.
  enter wf_raw kept_raw_new.
Qed.

Lemma bind_icmp_sound identifier t : sound 1 (room 1) (bind_icmp identifier t) [t].
Proof.
  intros r Hwf Hroom. destruct (next_id_spec r Hwf Hroom) as (E & Hwf1 & _).
  unfold bind_icmp. unfold hbind at 1. rewrite E. unfold hbind at 1, hget at 1.
  destruct (icmp_bind _ _) as [s|e]; [|apply answer_use; [done..|drew]].
  destruct (opened (SIcmp s) r Hwf Hroom) as (h & r' & E' & Hwf' & Hc & Hk & Hid & Hn & Hls & Hf).
  unfold hbind at 1. rewrite E'. unfold hbind at 1, hmodify at 1. destruct_and!.
  enter wf_icmp kept_icmp_new.
Qed.
(** *** Operations on a socket *)

Ltac solve_entry wf_table kept_update k f :=
  intros Hwf Hl Hm Hh Hb;
  assert (Hk := proj1 Hwf); unfold handles_ok in Hk; destruct_and!;
  destruct (Hm _ ltac:(eauto)) as (a & r1 & E & F & C);
  assert (Hwf1 := wf_frame _ _ F Hwf); pose proof (Hb a) as Hba;
  unfold hbind; rewrite E; eexists tt, _; split; [reflexivity|]; split_and!;
  [ apply wf_table; [done|rewrite Hh; apply F; eauto|];
    rewrite (frame_id _ _ F); destruct Hwf as (_ & Hids & _); unfold ids_ok in Hids; destruct_and!; eauto
  | unfold channels;
    match goal with |- answered ?r2 ⊎ _ = _ => change (answered r2) with (answered r1) end;
    assert (Hkept := fun st' Hl' => kept_update k st' (f a) r1 Hl');
    specialize (Hkept _ ltac:(destruct F as (_ & ? & ? & ? & ? & ? & _); etrans; [|exact Hl]; congruence));
    rewrite (kept_frame _ _ F) in Hkept; count_chans
  | by apply (grow_frame 0) in F ].

(** Work on the socket of a table entry, and the entry it leaves *)

Lemma entry_tcp {A} id st (m : RT A) (f : A -> TcpState) inp new out r :
  wf r -> rt_tcp r !! id = Some st -> settles (tcp_handle st) KTcp m inp out ->
  (forall a, tcp_handle (f a) = tcp_handle st) ->
  (forall a, chans inp ⊎ chans (toks_tcp (f a)) = chans new ⊎ chans (out a) ⊎ chans (toks_tcp st)) ->
  exists u r', (let! a := m in hmodify (fun r => set_tcp (<[id := f a]> (rt_tcp r)) r)) r = (Ok u, r')
    /\ after 0 new r r'.
Proof. solve_entry wf_tcp kept_tcp_update id f. Qed.

Lemma entry_udp {A} id st (m : RT A) (f : A -> PacketState) inp new out r :
  wf r -> rt_udp r !! id = Some st -> settles (pk_handle st) KUdp m inp out ->
  (forall a, pk_handle (f a) = pk_handle st) ->
  (forall a, chans inp ⊎ chans (toks_packet (f a)) = chans new ⊎ chans (out a) ⊎ chans (toks_packet st)) ->
  exists u r', (let! a := m in hmodify (fun r => set_udp (<[id := f a]> (rt_udp r)) r)) r = (Ok u, r')
    /\ after 0 new r r'.
Proof. solve_entry wf_udp kept_udp_update id f. Qed.

Lemma entry_raw {A} id st (m : RT A) (f : A -> PacketState) inp new out r :
  wf r -> rt_raw r !! id = Some st -> settles (pk_handle st) KRaw m inp out ->
  (forall a, pk_handle (f a) = pk_handle st) ->
  (forall a, chans inp ⊎ chans (toks_packet (f a)) = chans new ⊎ chans (out a) ⊎ chans (toks_packet st)) ->
  exists u r', (let! a := m in hmodify (fun r => set_raw (<[id := f a]> (rt_raw r)) r)) r = (Ok u, r')
    /\ after 0 new r r'.
Proof. solve_entry wf_raw kept_raw_update id f. Qed.

Lemma entry_icmp {A} id st (m : RT A) (f : A -> PacketState) inp new out r :
  wf r -> rt_icmp r !! id = Some st -> settles (pk_handle st) KIcmp m inp out ->
  (forall a, pk_handle (f a) = pk_handle st) ->
  (forall a, chans inp ⊎ chans (toks_packet (f a)) = chans new ⊎ chans (out a) ⊎ chans (toks_packet st)) ->
  exists u r', (let! a := m in hmodify (fun r => set_icmp (<[id := f a]> (rt_icmp r)) r)) r = (Ok u, r')
    /\ after 0 new r r'.
Proof. solve_entry wf_icmp kept_icmp_update id f. Qed.

(** The channels of the entries the operations leave, by computation *)
Ltac show_toks :=
  unfold toks_tcp, toks_packet, toks_listener, toks;
  cbn [pending_connect pending_send pending_recv pending_accept pk_pending fmap option_fmap option_map app];
  rewrite ?chans_app; change (@option_list nat None) with (@nil nat); count_chans.

Local Notation always := (fun _ : Runtime => True).

(** An operation on an entry: without it, or while another is kept, it answers. *)
Ltac on_entry :=
  let r := fresh "r" in let Hwf := fresh "Hwf" in
  intros r Hwf _; unfold hbind at 1, hget at 1;
  match goal with |- context [match ?m !! ?k with _ => _ end] =>
    destruct (m !! k) as [st|] eqn:Hl; [|by apply answer_now] end.

Lemma tcp_send_sound id data t : sound 0 always (tcp_send id data t) [t].
Proof.
  unfold tcp_send. on_entry. destruct st as [h c [x|] v]; [by apply answer_now|].
  apply (entry_tcp id (mkTcp h c None v) _ (fun kept => mkTcp h c kept v) [t] [t] toks); [done..|apply settles_tcp_send|done|].
  intros a. show_toks.
Qed.

Lemma tcp_recv_sound id n t : sound 0 always (tcp_recv id n t) [t].
Proof.
  unfold tcp_recv. on_entry. destruct st as [h c x [v|]]; [by apply answer_now|].
  apply (entry_tcp id (mkTcp h c x None) _ (fun kept => mkTcp h c x kept) [t] [t] toks); [done..|apply settles_tcp_recv|done|].
  intros a. show_toks.
Qed.

Lemma udp_recv_sound id n t : sound 0 always (udp_recv id n t) [t].
Proof.
  unfold udp_recv. on_entry. destruct st as [h [x|]]; [by apply answer_now|].
  apply (entry_udp id (mkPacket h None) _ (mkPacket h) [t] [t] toks); [done..|apply settles_udp_recv|done|]. intros a. show_toks.
Qed.

Lemma raw_recv_sound id n t : sound 0 always (raw_recv id n t) [t].
Proof.
  unfold raw_recv. on_entry. destruct st as [h [x|]]; [by apply answer_now|].
  apply (entry_raw id (mkPacket h None) _ (mkPacket h) [t] [t] toks); [done..|apply settles_raw_recv|done|]. intros a. show_toks.
Qed.

Lemma icmp_recv_sound id n t : sound 0 always (icmp_recv id n t) [t].
Proof.
  unfold icmp_recv. on_entry. destruct st as [h [x|]]; [by apply answer_now|].
  apply (entry_icmp id (mkPacket h None) _ (mkPacket h) [t] [t] toks); [done..|apply settles_icmp_recv|done|]. intros a. show_toks.
Qed.

Lemma settles_put_answer h k s t a : kind s = k -> settles h k (put_socket h s ;! answer t a) [t] (fun _ => []).
Proof.
  intros Hk. eapply settles_bind; [apply (settles_frame h k _ [] (fun _ => []) [t]), settles_put; done|].
  intros ?; apply settles_answer.
Qed.

Lemma tcp_shutdown_sound id t : sound 0 always (tcp_shutdown id t) [t].
Proof.
  unfold tcp_shutdown. on_entry. refine (sound_settles (tcp_handle st) KTcp _ _ 0 _ r Hwf _); [|by apply (proj1 Hwf) in Hl].
  eapply settles_bind; [apply settles_get_tcp|]. intros s. by apply settles_put_answer.
Qed.

Lemma udp_send_sound id data target t : sound 0 always (udp_send id data target t) [t].
Proof.
  unfold udp_send. on_entry. refine (sound_settles (pk_handle st) KUdp _ _ 0 _ r Hwf _); [|by apply (proj1 Hwf) in Hl].
  eapply settles_bind; [apply settles_get_udp|]. intros s.
  destruct (udp_send_slice data target s). by apply settles_put_answer.
Qed.

Lemma raw_send_sound id packet t : sound 0 always (raw_send id packet t) [t].
Proof.
  unfold raw_send. on_entry. refine (sound_settles (pk_handle st) KRaw _ _ 0 _ r Hwf _); [|by apply (proj1 Hwf) in Hl].
  eapply settles_bind; [apply settles_get_raw|]. intros s.
  destruct (raw_send_slice packet s). by apply settles_put_answer.
Qed.

Lemma icmp_send_sound id payload target t : sound 0 always (icmp_send id payload target t) [t].
Proof.
  unfold icmp_send. on_entry. refine (sound_settles (pk_handle st) KIcmp _ _ 0 _ r Hwf _); [|by apply (proj1 Hwf) in Hl].
  eapply settles_bind; [apply settles_get_icmp|]. intros s.
  destruct (icmp_send_slice payload target s). by apply settles_put_answer.
Qed.

Lemma wf_id_listener r id st : wf r -> rt_listeners r !! id = Some st ->
  kind_of (lst_handle st) (rt_sockets r) = Some KTcp /\ id < rt_next_id r.
Proof. intros ((_ & H1 & _) & (_ & _ & H2 & _) & _) Hl. split; [by eapply H1|by eapply H2]. Qed.

Lemma grow_listener n r id st st' :
  rt_listeners r !! id = Some st -> grow n r (set_listeners (<[id := st']> (rt_listeners r)) r).
Proof.
  intros Hl. unfold grow. cbn [rt_next_id rt_listeners set_listeners].
  rewrite map_size_insert_Some by (by rewrite Hl). lia.
Qed.

Lemma tcp_accept_sound id t : sound 0 always (tcp_accept id t) [t].
Proof.
  unfold tcp_accept. on_entry. destruct (wf_id_listener _ _ _ Hwf Hl) as [Hk Hid]. destruct st as [h local [x|] [|first rest]];
    cbn [pending_accept accepted lst_handle lst_local] in *; try by apply answer_now.
  - eexists tt, _. split; [reflexivity|]. split_and!; [by apply wf_listeners| |by eapply grow_listener]. unfold channels.
    pose proof (kept_listeners_update id _ (mkListener h local (Some t) []) r Hl) as Hu.
    change (answered (set_listeners _ r)) with (answered r). change (toks_listener (mkListener h local None [])) with (@nil nat) in Hu.
    change (toks_listener (mkListener h local (Some t) [])) with [t] in Hu.
    count_chans.
  - unfold hbind, hmodify. apply answer_use; [by apply wf_listeners| |by eapply grow_listener]. unfold channels.
    pose proof (kept_listeners_update id _ (mkListener h local None rest) r Hl) as Hu.
    change (answered (set_listeners _ r)) with (answered r).
    change (toks_listener (mkListener h local None rest)) with (@nil nat) in Hu.
    change (toks_listener (mkListener h local None (first :: rest))) with (@nil nat) in Hu.
    count_chans.
Qed.

Lemma sound_weaken {A} n P (m : RT A) inp : sound 0 always m inp -> sound n P m inp.
Proof.
  intros Hm r Hwf _. destruct (Hm r Hwf I) as (a & r' & E & Hw & Hc & Hg). exists a, r'.
  split; [done|]. split; [done|]. split; [done|]. destruct Hg. split; lia.
Qed.

Lemma handle_command_sound t c : sound 1 (room 1) (handle_command t c) [t].
Proof.
  destruct c; cbn [handle_command].
  2: { intros r Hwf _. unfold hbind at 1, hget at 1. pose proof (push_rx_ok packet (rt_device r)) as Hd.
       destruct (push_rx packet (rt_device r)) as [res d]. unfold hbind at 1, hmodify at 1.
       destruct (answer_use t (AnsUnit res) 1 r (set_device d r)) as (u & r' & E & H).
       - destruct Hwf as (H1 & H2 & H3 & H4). split_and!; try done; by apply Hd.
       - done.
       - by apply grow_same.
       - exists false, r'. unfold hbind. by rewrite E. }
  all: apply sound_then.
  all: auto using dial_tcp_sound, listen_tcp_sound, bind_udp_sound, bind_raw_sound, bind_icmp_sound.
  1: intros r Hwf _; by apply answer_now.
  all: apply sound_weaken.
  all: auto using tcp_send_sound, tcp_recv_sound, tcp_shutdown_sound, tcp_accept_sound, udp_send_sound,
    udp_recv_sound, raw_send_sound, raw_recv_sound, icmp_send_sound, icmp_recv_sound.
Qed.

(** *** Kept operations *)

Lemma settles_within {A} h k (m : RT A) pre inp out post :
  settles h k m inp out -> settles h k m (pre ++ inp ++ post) (fun a => pre ++ out a ++ post).
Proof.
  intros Hm r Hr. destruct (Hm r Hr) as (a & r1 & E1 & F1 & C1). exists a, r1. split_and!; [done..|].
  rewrite !chans_app. count_chans.
Qed.

(** The three operations a connection may keep *)
Definition complete_ops (id : Z) (st : TcpState) : RT (option nat * option (bytes * nat) * option (Z * nat)) :=
  let! _ := get_tcp (tcp_handle st) in
  let! c := complete_connect id (tcp_handle st) (pending_connect st) in
  let! s := retry (try_tcp_send (tcp_handle st)) (pending_send st) in
  let! v := retry (try_tcp_recv (tcp_handle st)) (pending_recv st) in
  hret (c, s, v).

Lemma settles_complete_ops id st :
  settles (tcp_handle st) KTcp (complete_ops id st) (toks_tcp st)
    (fun x => option_list x.1.1 ++ toks x.1.2 ++ toks x.2).
Proof.
  eapply settles_bind; [apply settles_get_tcp|]. intros ?; cbn beta.
  eapply settles_bind; [apply (settles_within _ _ _ []), settles_connect|]. intros c. cbn beta. rewrite app_nil_l.
  eapply settles_bind; [apply settles_within, settles_retry; intros; apply settles_tcp_send|]. intros s. cbn beta.
  eapply settles_bind.
  { rewrite (app_assoc (option_list c)), <-(app_nil_r (option_list (snd <$> pending_recv st))).
    apply settles_within, settles_retry. intros; apply settles_tcp_recv. }
  intros v. apply settles_ret. cbn. by rewrite app_nil_r, app_assoc.
Qed.

Lemma complete_tcp_sound id : sound 0 always (complete_tcp id) [].
Proof.
  unfold complete_tcp. intros r Hwf _. unfold hbind at 1, hget at 1.
  destruct (rt_tcp r !! id) as [st|] eqn:Hl.
  2: { exists tt, r. split; [done|]. split; [done|]. split; [count_chans|apply grow_refl]. }
  destruct (entry_tcp id st (complete_ops id st) (fun x => mkTcp (tcp_handle st) x.1.1 x.1.2 x.2)
              (toks_tcp st) [] (fun x => option_list x.1.1 ++ toks x.1.2 ++ toks x.2) r Hwf Hl)
    as (u & r' & E & H).
  - apply settles_complete_ops.
  - done.
  - intros [[c x] v]. unfold toks_tcp, toks. cbn [pending_connect pending_send pending_recv fst snd]. count_chans.
  - exists u, r'. split; [|done]. rewrite <-E. unfold complete_ops. cbn zeta.
    unfold hbind. destruct (get_tcp (tcp_handle st) r) as [[]]; [|done].
    destruct (complete_connect _ _ _ _) as [[]]; [|done].
    destruct (retry _ _ _) as [[]]; [|done]. by destruct (retry _ _ _) as [[]].
Qed.

(** The packet sockets *)
Ltac complete_packet entry settles_recv :=
  let r := fresh "r" in let Hwf := fresh "Hwf" in
  intros r Hwf _; unfold hbind at 1, hget at 1;
  match goal with |- context [match ?m !! ?k with _ => _ end] =>
    destruct (m !! k) eqn:Hl end;
  [ match goal with Hl : _ !! ?k = Some ?x |- _ =>
      apply (entry k x _ (mkPacket (pk_handle x)) (toks_packet x) [] toks);
      [done..| apply settles_retry; intros; apply settles_recv | done | intros a; show_toks] end
  | exists tt, r; split; [done|]; split; [done|]; split; [count_chans|apply grow_refl] ].

Lemma complete_udp_sound id : sound 0 always (complete_udp id) [].
Proof. unfold complete_udp. complete_packet (@entry_udp (option (Z * nat))) settles_udp_recv. Qed.

Lemma complete_raw_sound id : sound 0 always (complete_raw id) [].
Proof. unfold complete_raw. complete_packet (@entry_raw (option (Z * nat))) settles_raw_recv. Qed.

Lemma complete_icmp_sound id : sound 0 always (complete_icmp id) [].
Proof. unfold complete_icmp. complete_packet (@entry_icmp (option (Z * nat))) settles_icmp_recv. Qed.

Lemma nothing_done n r : wf r -> after n [] r r.
Proof. intros Hwf. split; [done|]. split; [count_chans|apply grow_refl]. Qed.

(** A listener's connection becomes a stream with the id that was drawn. *)
Lemma complete_listener_sound id : sound 1 (room 1) (complete_listener id) [].
Proof.
  intros r Hwf Hroom. destruct (next_id_spec r Hwf Hroom) as (E & Hwf1 & _). unfold complete_listener.
  unfold hbind at 1. rewrite E. unfold hbind at 1, hget at 1.
  assert (Hnone : after 1 [] r (set_next_id (rt_next_id r + 1) r)).
  { split; [done|]. split; [|drew]. change (channels (set_next_id _ r)) with (channels r). count_chans. }
  cbn [rt_listeners set_next_id]. destruct (rt_listeners r !! id) as [st|] eqn:Hl; [|by eexists tt, _].
  destruct (wf_id_listener _ _ _ Hwf Hl) as [Hk Hid].
  unfold hbind at 1, get_tcp. cbn [rt_sockets set_next_id]. unfold kind_of in Hk.
  destruct (set_get (lst_handle st) (rt_sockets r)) as [[s| | |]|] eqn:Eg; try done.
  destruct (negb _); [by eexists tt, _|].
  destruct (tcp_remote s ≫= socket_addr) as [remote|]; [|by eexists tt, _].
  cbn [rt_socket_buffer set_next_id].
  destruct (tcp_listen (lst_local st) _) as [repl|e]; [|by eexists tt, _].
  destruct (opened (STcp repl) r Hwf Hroom) as (h & r' & E' & Hwf' & Hc & Hkh & Hlt & Hn & Hls & Hft & _).
  destruct (add_socket_spec (STcp repl) (set_next_id (rt_next_id r + 1) r)) as (h2 & r2 & E2 & F2 & _).
  rewrite E' in E2. injection E2 as <- <-.
  unfold hbind at 1. rewrite E'. unfold hbind at 1, hmodify at 1.
  set (r3 := set_tcp (<[rt_next_id r := mkTcp (lst_handle st) None None None]> (rt_tcp r')) r').
  assert (Hwf3 : wf r3).
  { apply wf_tcp; [done| |done]. apply F2. unfold kind_of. cbn [rt_sockets set_next_id tcp_handle]. by rewrite Eg. }
  assert (Hc3 : channels r3 = channels r).
  { rewrite <-Hc. unfold channels. subst r3. rewrite kept_tcp_new by done.
    change (toks_tcp (mkTcp (lst_handle st) None None None)) with (@nil nat).
    change (answered (set_tcp _ r')) with (answered r'). count_chans. }
  assert (Hl3 : rt_listeners r3 !! id = Some st) by (subst r3; cbn; by rewrite Hls).
  assert (Hid3 : id < rt_next_id r3) by (subst r3; cbn; lia).
  assert (Hg : forall st', grow 1 r (set_listeners (<[id := st']> (rt_listeners r3)) r3)).
  { intros st'. unfold grow. cbn [rt_next_id rt_listeners set_listeners].
    rewrite map_size_insert_Some by (by rewrite Hl3). subst r3. cbn [rt_next_id rt_listeners set_tcp].
    rewrite Hls, Hn. lia. }
  destruct (pending_accept st) as [t|] eqn:Ep.
  - unfold hbind at 1, hmodify at 1.
    pose proof (kept_listeners_update id st (mkListener h (lst_local st) None (accepted st)) r3 Hl3) as Hu.
    unfold toks_listener in Hu. rewrite Ep in Hu. cbn [pending_accept] in Hu.
    change (option_list (Some t)) with [t] in Hu. change (@option_list nat None) with (@nil nat) in Hu.
    set (r4 := set_listeners _ r3) in *. eexists tt, _. split; [reflexivity|].
    split; [eapply wf_frame; [apply frame_answer|by apply wf_listeners]|]. split; [|apply Hg].
    unfold channels in *. rewrite answered_answer, (kept_frame r4 _ (frame_answer _ r4)).
    change (answered r4) with (answered r3). count_chans.
  - eexists tt, _. split; [reflexivity|]. split; [by apply wf_listeners|]. split; [|apply Hg].
    pose proof (kept_listeners_update id st (mkListener h (lst_local st) None
                  (accepted st ++ [(rt_next_id r, remote)])) r3 Hl3) as Hu.
    unfold toks_listener in Hu. rewrite Ep in Hu. cbn [pending_accept] in Hu.
    unfold channels in *. set (r4 := set_listeners _ r3) in *. change (answered r4) with (answered r3). count_chans.
Qed.

(** *** A turn of the task *)

Lemma after_trans n m inp r1 r2 r3 : after n inp r1 r2 -> after m [] r2 r3 -> after (n + m) inp r1 r3.
Proof.
  intros (_ & C1 & G1) (W2 & C2 & G2). split; [done|]. split; [count_chans|].
  destruct G1, G2. split; lia.
Qed.

Lemma each_sound n f l :
  (forall x, sound n (room n) (f x) []) -> sound (n * length l) (room (n * length l)) (each f l) [].
Proof.
  intros Hf. induction l as [|x l IH]; intros r Hwf Hroom; cbn [each].
  { exists tt, r. split; [done|]. by apply nothing_done. }
  unfold room in Hroom. cbn [length] in *. destruct (Hf x r Hwf) as (u & r1 & E & H1); [unfold room; lia|].
  destruct (IH r1) as (v & r2 & E2 & H2); [apply H1|destruct H1 as (_ & _ & G & _); unfold room; lia|].
  exists v, r2. unfold hbind. rewrite E. split; [done|].
  replace (n * S (length l))%nat with (n + n * length l)%nat by lia. by eapply after_trans.
Qed.

Context (order : list Z -> list Z) (order_perm : forall l, order l ≡ₚ l).

Lemma length_keys {A} (m : gmap Z A) : length (keys order m) = size m.
Proof. unfold keys. by rewrite order_perm, <-size_dom. Qed.

Lemma complete_pending_sound r :
  wf r -> room (size (rt_listeners r)) r -> exists u r', complete_pending order r = (Ok u, r')
  /\ after (size (rt_listeners r)) [] r r'.
Proof.
  intros Hwf Hroom. unfold complete_pending.
  assert (H0 : forall f l r, (forall x, sound 0 always (f x) []) -> wf r -> room 0 r ->
             exists u r', each f l r = (Ok u, r') /\ after 0 [] r r').
  { intros f l x Hf Hx Hr. apply (each_sound 0 f l); [intros; by apply sound_weaken|done|done]. }
  unfold hbind at 1, hget at 1. unfold hbind at 1.
  destruct (H0 complete_tcp (keys order (rt_tcp r)) r) as (u1 & r1 & E1 & A1);
    [apply complete_tcp_sound|done|unfold room in *; lia|]. rewrite E1.
  unfold hbind at 1, hget at 1. unfold hbind at 1. pose proof A1 as (W1 & _ & G1 & G1').
  destruct (each_sound 1 complete_listener (keys order (rt_listeners r1))) with (r := r1) as (u2 & r2 & E2 & A2);
    [apply complete_listener_sound|done|unfold room in *; rewrite length_keys; lia|]. rewrite E2.
  rewrite length_keys in A2. pose proof A2 as (W2 & _ & G2 & G2').
  unfold hbind at 1, hget at 1. unfold hbind at 1.
  destruct (H0 complete_udp (keys order (rt_udp r2)) r2) as (u3 & r3 & E3 & A3);
    [apply complete_udp_sound|done|unfold room in *; lia|]. rewrite E3. pose proof A3 as (W3 & _ & G3 & _).
  unfold hbind at 1, hget at 1. unfold hbind at 1.
  destruct (H0 complete_raw (keys order (rt_raw r3)) r3) as (u4 & r4 & E4 & A4);
    [apply complete_raw_sound|done|unfold room in *; lia|]. rewrite E4. pose proof A4 as (W4 & _ & G4 & _).
  unfold hbind at 1, hget at 1.
  destruct (H0 complete_icmp (keys order (rt_icmp r4)) r4) as (u5 & r5 & E5 & A5);
    [apply complete_icmp_sound|done|unfold room in *; lia|].
  exists u5, r5. split; [done|].
  pose proof (after_trans _ _ _ _ _ _ (after_trans _ _ _ _ _ _ (after_trans _ _ _ _ _ _
    (after_trans _ _ _ _ _ _ A1 A2) A3) A4) A5) as (W & C & G & G').
  split; [done|]. split; [done|]. split; lia.
Qed.

(** The channel that comes with what wakes the task *)
Definition channel_of (k : Wake) : list nat := match k with OnCommand t _ => [t] | _ => [] end.

Lemma on_wake_sound k : sound 1 (room 1) (on_wake k) (channel_of k).
Proof.
  destruct k as [t c|e|now]; cbn [on_wake channel_of]; [apply handle_command_sound| |].
  - destruct e as [e|]; [|intros r Hwf _; exists true, r; split; [done|]; by apply nothing_done].
    destruct e; intros r Hwf _; try (eexists _, r; split; [reflexivity|]; by apply nothing_done).
    eexists false, _. split; [reflexivity|]. split.
    + destruct Hwf as (H1 & H2 & H3 & H4). split_and!; try done. by apply push_rx_ok.
    + split; [|by apply grow_same]. change (channels (set_device _ r)) with (channels r). count_chans.
  - intros r Hwf _. unfold hbind, poll, hmodify.
    destruct (iface_poll now (rt_device r) (rt_interface r, rt_sockets r)) as [d [i ss]] eqn:E.
    destruct (iface_poll_spec _ _ _ _ _ _ _ E) as [Hd Hk]. eexists false, _. split; [reflexivity|]. split.
    + destruct Hwf as (H1 & H2 & H3 & H4). pose proof (handles_ok_kinds _ _ Hk H1).
      split_and!; try done. by eapply device_steps_ok.
    + split; [|by apply grow_same].
      change (channels (set_device d (set_interface i (set_sockets ss r)))) with (channels r). count_chans.
Qed.

(** The states of the task between turns, with the channels it was given.  Fewer
    than [2 ^ 64] ids are drawn: one for a socket, and one for every listener in
    every turn. *)
Inductive running : Runtime -> list nat -> Prop :=
| running_new i c : attach c = Ok tt -> running (new_runtime i c) []
| running_turn r l k packets r' :
    running r l -> room (2 + size (rt_listeners r)) r ->
    turn order k r = (Ok (false, packets), r') -> running r' (l ++ channel_of k).

Lemma turn_sound k r :
  wf r -> room (2 + size (rt_listeners r)) r ->
  exists stop packets r', turn order k r = (Ok (stop, packets), r') /\ wf r'
    /\ channels r' = chans (channel_of k) ⊎ channels r
    /\ (length packets <= DEVICE_QUEUE_LIMIT)%nat.
Proof.
  intros Hwf Hroom. unfold turn. unfold hbind at 1.
  destruct (on_wake_sound k r Hwf) as (stop & r1 & E1 & A1); [unfold room in *; lia|]. rewrite E1.
  pose proof A1 as (W1 & C1 & G1 & G1'). destruct stop; cbn [hret].
  { exists true, [], r1. split_and!; try done; try apply W1. cbn. lia. }
  unfold hbind at 1. destruct (complete_pending_sound r1 W1) as (u & r2 & E2 & A2); [unfold room in *; lia|].
  rewrite E2. unfold hbind, flush_device. destruct A2 as (W2 & C2 & _).
  eexists false, _, _. split; [reflexivity|]. destruct W2 as (H1 & H2 & H3 & H4). split.
  - split; [exact H1|]. split; [exact H2|]. split; [exact H3|]. destruct H4 as (? & ? & ? & ?).
    split_and!; cbn [dev_rx dev_tx dev_mtu rt_device set_device]; [done|cbn; lia|done|constructor].
  - split; [|apply H4]. change (channels (set_device _ r2)) with (channels r2). rewrite C2, C1. count_chans.
Qed.

Lemma running_inv r l : running r l -> wf r /\ channels r = chans l.
Proof.
  induction 1 as [i c Hc|r l k packets r' Hr [Hwf Hch] Hroom Et].
  - split; [|unfold channels, kept_channels, answered; cbn [rt_answers rt_tcp rt_listeners rt_udp rt_raw rt_icmp new_runtime];
             rewrite !pend_empty; cbn [map]; count_chans].
    unfold wf, handles_ok, ids_ok, port_ok, device_ok. cbn. split_and!; try done; by (lia || constructor).
  - destruct (turn_sound k r Hwf Hroom) as (stop & p & r1 & E & W & C & _). rewrite Et in E.
    injection E as <- <- <-. split; [done|]. rewrite C, Hch, chans_app. count_chans.
Qed.


(** A connection that could not be opened: the request to dial is kept in every
    turn, since only an established connection is answered. *)
Lemma failed_dial_waits id h t r s :
  set_get h (rt_sockets r) = Some (STcp s) -> tcp_state s <> TcpEstablished ->
  complete_connect id h (Some t) r = (Ok (Some t), r).
Proof.
  intros Hs Hne. unfold complete_connect, hbind, get_tcp. rewrite Hs. by rewrite bool_decide_false.
Qed.

(** A send on a connection that was closed is kept as well. *)
Lemma closed_send_waits h data t r s :
  set_get h (rt_sockets r) = Some (STcp s) -> tcp_can_send s = false ->
  try_tcp_send h data t r = (Ok (Some (data, t)), r).
Proof. intros Hs Hc. unfold try_tcp_send, hbind, get_tcp. by rewrite Hs, Hc. Qed.
End invariant.

(** ** Witnesses *)

(** Sockets that loop back: what is sent can be received. *)
Definition loop_send (data : bytes) (s : list bytes) : result unit bytes * list bytes := (Ok tt, s ++ [data]).
Definition loop_recv (n : Z) (s : list bytes) : result bytes bytes * list bytes :=
  match s with [] => (Err (str "exhausted"), []) | d :: rest => (Ok (take (Z.to_nat n) d), rest) end.
Definition loop_ready (s : list bytes) : bool := negb (bool_decide (s = [])).

#[local] Instance loopback : Smoltcp := {|
  TcpSocket := option Z * list bytes; UdpSocket := list bytes; RawSocket := list bytes; IcmpSocket := list bytes;
  Interface := unit;
  SocketSet := list (AnySocket (option Z * list bytes) (list bytes) (list bytes) (list bytes));
  tcp_new _ := (None, []);
  tcp_connect i _ port s := (Ok (Some port, s.2), i);
  tcp_listen a s := Ok (Some (sock_port a), s.2);
  tcp_can_send s := bool_decide (is_Some s.1);
  tcp_can_recv s := loop_ready s.2;
  tcp_may_recv _ := true;
  tcp_send_slice d s := (Ok (len d), (s.1, s.2 ++ [d]));
  tcp_recv_slice n s := let '(r, l) := loop_recv n s.2 in (r, (s.1, l));
  tcp_close s := (None, s.2);
  tcp_state s := match s.1 with Some _ => TcpOther | None => TcpClosed end;
  tcp_local_port s := s.1;
  tcp_remote _ := None;
  udp_new _ := []; udp_bind _ s := Ok s; udp_can_recv := loop_ready;
  udp_send_slice d _ := loop_send d;
  udp_recv_slice n s := let '(r, l) := loop_recv n s in (rbind r (fun d => Ok (d, (V4 1, 53))), l);
  raw_new _ _ _ := []; raw_can_recv := loop_ready; raw_send_slice := loop_send; raw_recv_slice := loop_recv;
  icmp_new _ := []; icmp_bind _ s := Ok s; icmp_recv_queue s := Z.of_nat (length s);
  icmp_send_slice d _ := loop_send d;
  icmp_recv_slice n s := let '(r, l) := loop_recv n s in (rbind r (fun d => Ok (d, V4 1)), l);
  set_empty := [];
  set_add s ss := (length ss, ss ++ [s]);
  set_get h ss := ss !! h;
  set_put h s ss := <[h := s]> ss;
  iface_poll _ d x := (d, x);
  iface_poll_delay _ _ := None
|}.

#[local] Instance loopback_laws : SmoltcpLaws loopback.
Proof.
  split; cbn.
  - intros s ss h ss' [= <- <-]. split; [apply list_lookup_middle; done|].
    intros h' x Hx. by apply lookup_app_l_Some.
  - intros h s ss x Hx. apply list_lookup_insert_eq. by eapply lookup_lt_Some.
  - intros h s ss h' Hne. by apply list_lookup_insert_ne.
  - intros now d i ss d' i' ss' [= <- <- <-]. split; [done|apply kinds_kept_refl].
Qed.

Definition same_order (l : list Z) : list Z := l.

Definition stack_new : Runtime := new_runtime tt (StackConfig_ipv4 0x0afe0001).
Definition stack_after (k : Wake) (r : Runtime) : Runtime := snd (turn same_order k r).

Definition stack_bound : Runtime :=
  stack_after (OnCommand 8 (DialTcp (SockV4 0x0afe0002 80))) (stack_after (OnCommand 7 (BindUdp (SockV4 0 53))) stack_new).


Lemma allocate_tcp_port_exact_witness :
  exists res p, allocate_tcp_port stack_bound = (Ok res, set_next_port p stack_bound)
    /\ EPHEMERAL_PORT_START <= p <= EPHEMERAL_PORT_END
    /\ match res with
       | Ok c => EPHEMERAL_PORT_START <= c <= EPHEMERAL_PORT_END /\ port_used c stack_bound = false
       | Err e => e = NoEphemeralPort
                  /\ forall c, EPHEMERAL_PORT_START <= c <= EPHEMERAL_PORT_END -> port_used c stack_bound = true
       end.
Proof. apply (allocate_tcp_port_exact stack_bound). by_decide. Defined.
