(* ===== verification/NodeView.v ===== *)
(** * The membership view of a node

    What a node takes from the snapshots: the network, the generation, the expiry
    and its own addresses.  Only [apply_snapshot] changes it, and only to a
    snapshot that verifies under the server key and is not older than the view;
    an operation that fails leaves it alone.  Whatever datagrams, packets and
    timers a node handles, its view is the one of the last snapshot applied. *)
From S2P Require Import Prelude Net Encoding Wire NodeId Snapshot SignedBytes Crypto Ip Replay Path Handshake NodeState NodePeers NodeSend NodeSession NodeData NodeTimers NodeInv NodeSample NodeBatch.

Create HintDb view.

Record View : Type := mkView {
  v_network_id : bytes;
  v_generation : Z;
  v_expires_at : Z;
  v_ipv4 : option Z;
  v_ipv6 : option Z
}.

Section View.
Context {HH : Hash} {HSg : SignatureOps} {HA : AeadOps} {HK : HkdfOps} {HN : NoiseOps}.
Context (parse_credential : bytes -> option MembershipCredential).
Context (cfg : NodeConfig) (me : Local).

Abbreviation N := (@NState HN).

Definition view (n : Node N) : View :=
  mkView (n_network_id n) (n_snapshot_generation n) (n_snapshot_expires_at n)
    (n_local_ipv4 n) (n_local_ipv6 n).

Definition sees (v : View) (n : Node N) : Prop := view n = v.

Section fixed.
Context (v : View).

(** Walk through an operation: what it calls is in the hints, and what it writes
    is not part of the view. *)
Ltac view_step :=
  match goal with
  | |- keeps _ (hbind _ _) => apply keeps_bind; [|intros ?]
  | |- keeps _ (hret _) => apply keeps_ret
  | |- keeps _ (hfail _) => apply keeps_fail
  | |- keeps _ (hlift _) => apply keeps_lift
  | |- keeps _ hget => apply keeps_get
  | |- keeps _ (htry _) => apply keeps_try
  | |- keeps _ (hmodify _) => apply keeps_modify; intros ? ?; unfold install_peer, uninstall_peer; repeat case_match; done
  | |- keeps _ (let _ := _ in _) => cbn zeta
  | |- keeps _ (match ?x with _ => _ end) => destruct x
  end.
Ltac view_walk := repeat first [solve [auto with view nocore] | view_step].

Lemma view_update {E} r f : keeps (sees v) (update r f : handler (Node N) E unit).
Proof. by intros n Hn. Qed.
Lemma view_emit {E} ev : keeps (sees v) (emit ev : handler (Node N) E bool).
Proof. intros n Hn. unfold emit. repeat case_match; done. Qed.
Lemma view_spawn {E} t : keeps (sees v) (spawn t : handler (Node N) E unit).
Proof. by intros n Hn. Qed.
Lemma view_load {E} r : keeps (sees v) (load r : handler (Node N) E _).
Proof. by intros n Hn. Qed.
Lemma view_count {E} g s k : keeps (sees v) (count g s k : handler (Node N) E unit).
Proof. by intros n Hn. Qed.
Lemma view_count_peer {E} r g s : keeps (sees v) (count_peer r g s : handler (Node N) E unit).
Proof. by intros n Hn. Qed.
Lemma view_udp {E} w t b : keeps (sees v) (udp_send w t b : handler (Node N) E bool).
Proof. intros n Hn. unfold udp_send. by destruct (w_udp w t b). Qed.
Lemma view_remove_session {E} r sid : keeps (sees v) (remove_session r sid : handler (Node N) E unit).
Proof. intros n Hn. cbn. by case_bool_decide. Qed.
Lemma view_alloc {E} p : keeps (sees v) (alloc p : handler (Node N) E Z).
Proof. by intros n Hn. Qed.
#[local] Hint Resolve view_update view_emit view_spawn view_load view_count view_count_peer view_udp
  view_remove_session view_alloc : view.

Lemma view_for_each {E A} (f : A -> handler (Node N) E unit) l :
  (forall x, keeps (sees v) (f x)) -> keeps (sees v) (for_each f l).
Proof. intros Hf. induction l as [|x l IH]; cbn [for_each]; view_walk. Qed.
Lemma view_invalidate {E} r e b : keeps (sees v) (invalidate_session_if r e b : handler (Node N) E unit).
Proof. unfold invalidate_session_if. view_walk. Qed.
Lemma view_connecting {E} r : keeps (sees v) (emit_peer_connecting r : handler (Node N) E unit).
Proof. unfold emit_peer_connecting. view_walk. Qed.
Lemma view_schedule {E} r : keeps (sees v) (schedule_reconnect r : handler (Node N) E unit).
Proof. unfold schedule_reconnect. view_walk. Qed.
#[local] Hint Resolve view_invalidate view_connecting view_schedule : view.
Lemma view_invalidate_all {E} r b : keeps (sees v) (invalidate_session r b : handler (Node N) E unit).
Proof. apply view_invalidate. Qed.
#[local] Hint Resolve view_invalidate_all : view.

Lemma view_retire r who b : keeps (sees v) (retire r who b : handler (Node N) CoreError unit).
Proof. unfold retire. view_walk. Qed.
#[local] Hint Resolve view_retire : view.
Lemma view_register w info : keeps (sees v) (register_peer parse_credential cfg w info : handler (Node N) _ _).
Proof. unfold register_peer. view_walk. Qed.
Lemma view_remove id : keeps (sees v) (remove_peer id : handler (Node N) _ _).
Proof. unfold remove_peer. view_walk. Qed.
Lemma view_refresh_peer r info a b :
  keeps (sees v) (refresh_peer parse_credential cfg r info a b : handler (Node N) _ _).
Proof. unfold refresh_peer. view_walk. Qed.
Lemma view_drop_member r : keeps (sees v) (drop_member r : handler (Node N) _ _).
Proof. unfold drop_member. view_walk. Qed.
#[local] Hint Resolve view_refresh_peer view_drop_member : view.
Lemma view_apply_peer w online old info rep rc :
  keeps (sees v) (apply_peer parse_credential cfg me w online old info rep rc : handler (Node N) _ _).
Proof. unfold apply_peer. view_walk. Qed.
#[local] Hint Resolve view_apply_peer : view.
Lemma view_apply_peers w online old infos rep rc :
  keeps (sees v) (apply_peers parse_credential cfg me w online old infos rep rc : handler (Node N) _ _).
Proof.
  revert rep rc; induction infos as [|i infos IH]; intros rep rc; cbn [apply_peers]; view_walk.
Qed.

(** *** Sending *)

Lemma view_prepare w r l : keeps (sees v) (prepare_ip_packets cfg w r l : handler (Node N) SendError _).
Proof. unfold prepare_ip_packets. view_walk. Qed.
#[local] Hint Resolve view_prepare : view.
Lemma view_record_sent l : keeps (sees v) (record_sent_batch l : handler (Node N) SendError unit).
Proof. unfold record_sent_batch. view_walk. Qed.
#[local] Hint Resolve view_record_sent : view.
Lemma view_send_ip_packet w r p : keeps (sees v) (send_ip_packet cfg w r p : handler (Node N) SendError unit).
Proof. unfold send_ip_packet, prepare_ip_packet. view_walk. Qed.
#[local] Hint Resolve view_send_ip_packet : view.
Lemma view_send_group w g : keeps (sees v) (send_group w g : handler (Node N) SendError _).
Proof. unfold send_group. view_walk. Qed.
#[local] Hint Resolve view_send_group : view.
Lemma view_send_prepared w l : keeps (sees v) (send_prepared_batch w l : handler (Node N) SendError _).
Proof.
  unfold send_prepared_batch. induction (group_runs same_flow l) as [|g gs IH]; cbn [send_groups]; view_walk.
Qed.
Lemma view_send_payload w r b : keeps (sees v) (send_payload cfg w r b : handler (Node N) SendError unit).
Proof. unfold send_payload. view_walk. Qed.
#[local] Hint Resolve view_send_prepared view_send_payload : view.
Lemma view_flush fuel w r : keeps (sees v) (flush_queue cfg fuel w r : handler (Node N) SendError unit).
Proof. induction fuel as [|k IH]; cbn [flush_queue]; view_walk. Qed.
Lemma view_after_send r id b res : keeps (sees v) (after_send r id b res : handler (Node N) SendError unit).
Proof. unfold after_send. view_walk. Qed.
#[local] Hint Resolve view_flush view_after_send : view.
Lemma view_send_ip w b : keeps (sees v) (send_ip cfg w b : handler (Node N) SendError unit).
Proof. unfold send_ip. view_walk. Qed.
Lemma view_handle_send w id b : keeps (sees v) (handle_send_ip cfg w id b : handler (Node N) SendError unit).
Proof. unfold handle_send_ip. view_walk. Qed.
Lemma view_prepare_groups w gs results :
  keeps (sees v) (prepare_groups cfg w gs results : handler (Node N) SendError _).
Proof.
  revert results; induction gs as [|g gs IH]; intros results; cbn [prepare_groups]; unfold prepare_group; view_walk.
Qed.
Lemma view_record_results l results :
  keeps (sees v) (record_results l results : handler (Node N) SendError _).
Proof. revert results; induction l as [|x l IH]; intros results; cbn [record_results]; view_walk. Qed.
#[local] Hint Resolve view_prepare_groups view_record_results : view.
Lemma view_send_batch w l : keeps (sees v) (send_ip_batch cfg w l : handler (Node N) SendError _).
Proof. unfold send_ip_batch. view_walk. apply view_for_each. intros x. view_walk. Qed.

(** *** Sessions *)

Lemma view_send_packet w t ty sid seq b : keeps (sees v) (send_packet w t ty sid seq b : handler (Node N) CoreError unit).
Proof. unfold send_packet. view_walk. Qed.
#[local] Hint Resolve view_send_packet : view.
Lemma view_start_initiator w r path sid : keeps (sees v) (start_initiator me w r path sid).
Proof. unfold start_initiator, initiator_payload. view_walk. Qed.
Lemma view_authenticate w payload : keeps (sees v) (authenticate_probe parse_credential cfg me w payload).
Proof. unfold authenticate_probe. view_walk. all: by intros n Hn. Qed.
#[local] Hint Resolve view_start_initiator view_authenticate : view.
Lemma view_probe w payload source : keeps (sees v) (handle_probe parse_credential cfg me w payload source).
Proof. unfold handle_probe. view_walk. Qed.
Lemma view_probe_response w payload source :
  keeps (sees v) (handle_probe_response parse_credential cfg me w payload source).
Proof. unfold handle_probe_response, record_candidate_response. view_walk. Qed.
Lemma view_establish w r sid path c e : keeps (sees v) (establish cfg w r sid path c e : handler (Node N) _ _).
Proof. unfold establish. view_walk. Qed.
Lemma view_close_previous r : keeps (sees v) (close_previous r : handler (Node N) _ _).
Proof. unfold close_previous. view_walk. Qed.
#[local] Hint Resolve view_probe view_probe_response view_establish view_close_previous : view.
Lemma view_respond w r sid sender payload source :
  keeps (sees v) (respond cfg me w r sid sender payload source).
Proof. unfold respond. view_walk. Qed.
Lemma view_complete w r sid sender payload source :
  keeps (sees v) (complete cfg w r sid sender payload source).
Proof. unfold complete. view_walk. Qed.
#[local] Hint Resolve view_respond view_complete : view.
Lemma view_handshake w sid payload source : keeps (sees v) (handle_handshake parse_credential cfg me w sid payload source).
Proof. unfold handle_handshake. view_walk. all: by intros n Hn. Qed.
#[local] Hint Resolve view_handshake : view.

(** *** Receiving *)

Lemma view_context d now : keeps (sees v) (data_decrypt_context_at cfg d now : handler (Node N) CoreError _).
Proof. unfold data_decrypt_context_at. view_walk. Qed.
Lemma view_accept w r h source k : keeps (sees v) (accept_packet cfg w r h source k : handler (Node N) CoreError _).
Proof. unfold accept_packet. view_walk. Qed.
Lemma view_deliver r source a b p : keeps (sees v) (deliver cfg r source a b p : handler (Node N) CoreError _).
Proof. unfold deliver. view_walk. Qed.
#[local] Hint Resolve view_context view_accept view_deliver : view.
Lemma view_commit w r d : keeps (sees v) (commit_ip_data cfg w r d : handler (Node N) CoreError _).
Proof. unfold commit_ip_data. view_walk. Qed.
#[local] Hint Resolve view_commit : view.
Lemma view_inline w d : keeps (sees v) (decrypt_data_inline cfg w d : handler (Node N) CoreError _).
Proof. unfold decrypt_data_inline. view_walk. Qed.
Lemma view_parse_batch l : keeps (sees v) (parse_batch l : handler (Node N) CoreError _).
Proof. induction l as [|x l IH]; cbn [parse_batch]; view_walk. Qed.
Lemma view_accept_batch w l : keeps (sees v) (accept_batch cfg w l : handler (Node N) CoreError _).
Proof. induction l as [|x l IH]; cbn [accept_batch]; view_walk. Qed.
Lemma view_route_inbound l : keeps (sees v) (route_inbound l : handler (Node N) CoreError _).
Proof. induction l as [|x l IH]; cbn [route_inbound]; view_walk. Qed.
#[local] Hint Resolve view_inline view_parse_batch view_accept_batch view_route_inbound : view.
Lemma view_commit_batch w l : keeps (sees v) (commit_ip_data_batch cfg w l : handler (Node N) CoreError _).
Proof. unfold commit_ip_data_batch. view_walk; apply view_for_each; intros ?; view_walk. Qed.
Lemma view_queue_batch now contexts l : keeps (sees v) (queue_batch cfg now contexts l : handler (Node N) CoreError _).
Proof. revert contexts; induction l as [|x l IH]; intros contexts; cbn [queue_batch]; view_walk. Qed.
Lemma view_open_batch l : keeps (sees v) (open_batch l : handler (Node N) CoreError _).
Proof. induction l as [|x l IH]; cbn [open_batch]; view_walk. Qed.
#[local] Hint Resolve view_commit_batch view_queue_batch view_open_batch : view.
Lemma view_data_turn w l : keeps (sees v) (data_turn cfg w l : handler (Node N) CoreError _).
Proof. unfold data_turn. view_walk. Qed.
#[local] Hint Resolve view_data_turn : view.
Lemma view_on_session {A} r s (m : handler ActiveSession CoreError A) :
  keeps (sees v) (on_session r s m : handler (Node N) CoreError A).
Proof. intros n Hn. unfold on_session. by destruct (m s). Qed.
Lemma view_drop_expired r sid : keeps (sees v) (drop_expired r sid : handler (Node N) CoreError _).
Proof. unfold drop_expired. view_walk. Qed.
Lemma view_perform w source e : keeps (sees v) (perform_effect w source e : handler (Node N) CoreError _).
Proof. unfold perform_effect. view_walk. apply view_for_each. intros ev. view_walk. Qed.
#[local] Hint Resolve view_on_session view_drop_expired view_perform : view.
Lemma view_control w h payload source : keeps (sees v) (handle_control parse_credential cfg w h payload source).
Proof. unfold handle_control. view_walk. Qed.
#[local] Hint Resolve view_control : view.
Lemma view_data w h payload source : keeps (sees v) (handle_data parse_credential cfg w h payload source).
Proof. unfold handle_data. view_walk. Qed.
#[local] Hint Resolve view_data : view.
Lemma view_packet w input source : keeps (sees v) (handle_packet parse_credential cfg me w input source).
Proof. unfold handle_packet. view_walk. Qed.
#[local] Hint Resolve view_packet : view.
Lemma view_receive w input source : keeps (sees v) (receive_datagram parse_credential cfg me w input source).
Proof. unfold receive_datagram, ignore. view_walk. Qed.
Lemma view_worker w k : keeps (sees v) (worker_turn cfg w k : handler (Node N) CoreError _).
Proof. unfold worker_turn. view_walk. Qed.

(** *** Timers *)

Lemma view_probes w r sid payload l : keeps (sees v) (send_probes w r sid payload l : handler (Node N) ConnectError _).
Proof. apply view_for_each. intros c. unfold send_probe, record_candidate_probe. view_walk. Qed.
#[local] Hint Resolve view_probes : view.
Lemma view_connect_begin w id nonce sid : keeps (sees v) (connect_begin cfg me w id nonce sid).
Proof. unfold connect_begin. view_walk. Qed.
Lemma view_connect_turn w c : keeps (sees v) (connect_turn w c : handler (Node N) _ _).
Proof. unfold connect_turn, connect_expire. view_walk. Qed.
Lemma view_reconnect_next r : keeps (sees v) (reconnect_next cfg r : handler (Node N) _ _).
Proof. unfold reconnect_next. view_walk. Qed.
Lemma view_reconnect_ready r : keeps (sees v) (reconnect_ready r : handler (Node N) _ _).
Proof. unfold reconnect_ready. view_walk. Qed.
Lemma view_reconnect_done w r res : keeps (sees v) (reconnect_done w r res : handler (Node N) _ _).
Proof. unfold reconnect_done. view_walk. Qed.
Lemma view_keepalive w r nonce sid : keeps (sees v) (keepalive_turn cfg me w r nonce sid).
Proof. unfold keepalive_turn, rekey, send_keepalive. view_walk. Qed.
Lemma view_mtu w r fresh : keeps (sees v) (mtu_turn w r fresh : handler (Node N) CoreError unit).
Proof. unfold mtu_turn. view_walk. Qed.
Lemma view_ping_begin w id nonce : keeps (sees v) (ping_begin w id nonce : handler (Node N) _ _).
Proof. unfold ping_begin. view_walk. Qed.
Lemma view_ping_end r nonce : keeps (sees v) (ping_end r nonce : handler (Node N) _ _).
Proof. unfold ping_end. view_walk. Qed.

End fixed.

(** ** Snapshots *)

Definition snapshot_view (sn : NetworkSnapshot) (local : PeerInfo) : View :=
  mkView (network_id sn) (generation sn) (expires_at sn) (virtual_ipv4 local) (virtual_ipv6 local).

(** A snapshot whose checks pass at this node, and the node's own record in it *)
Definition accepted (w : World) (sn : NetworkSnapshot) (local : PeerInfo) (v : View) : Prop :=
  (forall key, server_public_key cfg = Some key -> verify_snapshot sn key (w_unix w) = Ok tt)
  /\ validate blake3 sn = Ok tt /\ w_unix w < expires_at sn
  /\ v_generation v <= generation sn
  /\ local ∈ peers sn /\ node_id local = my_id me.

Lemma check_snapshot_accepted w sn n local :
  check_snapshot cfg me w sn n = Ok local -> accepted w sn local (view n).
Proof.
  intros E. pose proof (check_snapshot_Ok _ _ _ _ _ _ E) as (Hv & Hin & Hid & Hg & He).
  split_and!; try done. intros key Hk. unfold check_snapshot in E. rewrite Hk in E.
  apply rbind_Ok in E as ([] & E & _). by apply rmap_err_Ok in E.
Qed.

(** [apply_snapshot] replaces the view or leaves it. *)
Lemma apply_snapshot_view w sn n r n' :
  apply_snapshot parse_credential cfg me w sn n = (r, n') ->
  match r with
  | Ok _ => exists local, accepted w sn local (view n) /\ view n' = snapshot_view sn local
  | Err _ => view n' = view n
  end.
Proof.
  unfold apply_snapshot. unfold hbind at 1, hget at 1. unfold hbind at 1, hlift.
  destruct (check_snapshot cfg me w sn n) as [local|e] eqn:Ec; [|by intros [= <- <-]].
  apply check_snapshot_accepted in Ec. unfold hbind at 1.
  pose proof (view_apply_peers (view n) w (online_peers sn) (n_peers n) (peers sn) ∅ [] n eq_refl) as Hp.
  destruct (apply_peers _ _ _ _ _ _ _ _ _ n) as [[[rep rc]|e] n1]; [|by intros [= <- <-]].
  cbn beta iota.
  match goal with |- ?m n1 = _ -> _ => set (rest := m) end.
  assert (Hrest : always rest).
  { unfold rest. always_walk; try apply always_for_each; intros.
    - unfold drop_member. always_walk; first [apply always_update | apply always_invalidate].
    - apply always_schedule. }
  assert (Hv : view (snd (rest n1)) = snapshot_view sn local).
  { unfold rest. unfold hbind at 1, hget. cbn zeta. unfold hbind at 1, hmodify.
    apply (keeps_bind (sees (snapshot_view sn local))); [| |done].
    - apply view_for_each. intros x. apply view_drop_member.
    - intros []. apply view_for_each. intros x. apply view_schedule. }
  destruct (Hrest n1) as (a & n2 & E & _). rewrite E in Hv. cbn [snd] in Hv.
  cbn beta iota. intros E'. rewrite E in E'. injection E' as <- <-. eauto.
Qed.

(** A step of the node: the view stays, or it is that of an accepted snapshot. *)
Lemma node_step_view n n' :
  node_step parse_credential cfg me n n' ->
  view n' = view n
  \/ exists w sn local, accepted w sn local (view n) /\ view n' = snapshot_view sn local.
Proof.
  destruct 1.
  3:{ pose proof (apply_snapshot_view w sn n) as H.
      destruct (apply_snapshot _ _ _ w sn n) as [[u|e] n'']; specialize (H _ _ eq_refl); cbn [snd]; eauto.
      destruct H as (local & H). eauto 10. }
  all: left.
  - by apply (view_register (view n)).
  - by apply (view_remove (view n)).
  - by apply (view_send_ip (view n)).
  - by apply (view_handle_send (view n)).
  - by apply (view_send_batch (view n)).
  - by apply (view_receive (view n)).
  - by apply (view_worker (view n)).
  - by apply (view_connect_begin (view n)).
  - by apply (view_connect_turn (view n)).
  - by apply (view_reconnect_next (view n)).
  - by apply (view_reconnect_ready (view n)).
  - by apply (view_reconnect_done (view n)).
  - by apply (view_keepalive (view n)).
  - by apply (view_mtu (view n)).
  - by apply (view_ping_begin (view n)).
  - by apply (view_ping_end (view n)).
  - done.
  - done.
  - done.
Qed.

End View.

