(* ===== verification/NodeAuth.v ===== *)
(** * Who a session is with

    The responder's half of the handshake ([Inner::handle_handshake] in
    [vela-core/src/lib.rs]) takes the name of the initiator from the packet and
    checks the handshake context against the record of that peer, but never
    compares the static key of the Noise handshake with the key in the record. *)
From S2P Require Import Prelude Net Encoding Wire NodeId Snapshot SignedBytes Crypto Ip Replay Path Handshake NodeState NodePeers NodeSend NodeSession NodeData NodeTimers NodeInv NodeSample.

(** The documented behaviour of Noise IK: an initiator with any key pair that
    knows the public key of the responder completes the handshake, both sides end
    with one handshake hash, and messages fit the buffer of 2048 bytes.  [pub]
    gives the public key of a private key. *)
Class NoiseComplete {HN : NoiseOps} (pub : bytes -> bytes) : Prop :=
  noise_complete priv rp st0 p1 m1 st1 :
    noise_initiator priv (pub rp) = Some st0 -> noise_write st0 p1 = Some (m1, st1) ->
    exists r0 r1, noise_responder rp = Some r0 /\ noise_read r0 m1 = Some (p1, r1)
      /\ forall p2, (length p2 <= 128)%nat ->
           exists m2 r2 st2, noise_write r1 p2 = Some (m2, r2) /\ noise_read st1 m2 = Some (p2, st2)
             /\ noise_finished r2 = true /\ noise_finished st2 = true
             /\ noise_hash st2 = noise_hash r2 /\ (length m2 <= 2048)%nat.

(** HKDF-SHA256 gives 32 bytes for any input. *)
Class HkdfTotal {HK : HkdfOps} : Prop := hkdf_total salt key info : is_Some (hkdf_expand salt key info).

Section Auth.
Context {HH : Hash} {HSg : SignatureOps} {HA : AeadOps} {HK : HkdfOps} {HN : NoiseOps}.
Context (parse_credential : bytes -> option MembershipCredential).
Context (cfg : NodeConfig) (me : Local).
Context (pub : bytes -> bytes) {HC : NoiseComplete pub} {HT : HkdfTotal}.

Abbreviation N := (@NState HN).

(** What a member publishes: the handshake context of a peer, which anybody who
    has seen a snapshot can write down. *)
Definition public_context (n : Node N) (info : PeerInfo) (gen : Z) : bytes :=
  encode_handshake_context
    (mkContext (n_network_id n) gen (node_id info) (incarnation info) (virtual_ipv4 info) (virtual_ipv6 info)).

Lemma keys_agree (st1 st2 : N) :
  noise_finished st1 = true -> noise_finished st2 = true -> noise_hash st1 = noise_hash st2 ->
  exists keys, into_session st1 = Ok keys /\ into_session st2 = Ok keys.
Proof.
  intros F1 F2 Hh. unfold into_session, derive_keys. rewrite F1, F2, Hh.
  destruct (hkdf_total session_salt (noise_hash st2) (str "initiator")) as [i ->].
  destruct (hkdf_total session_salt (noise_hash st2) (str "responder")) as [r ->]. by eexists.
Qed.

Lemma handshake_context_length (n : Node N) :
  length (n_network_id n) = 16%nat -> length (my_id me) = 32%nat -> length (handshake_context me n) = 96%nat.
Proof.
  intros Hn Hi. unfold handshake_context, encode_handshake_context. cbn [hs_network_id hs_generation hs_node_id
    hs_incarnation hs_virtual_ipv4 hs_virtual_ipv6].
  rewrite !length_app, !length_encode_padded, !length_be_bytes, Hn, Hi. done.
Qed.

Lemma send_packet_ok w t ty sid seq b (n : Node N) :
  len b <= U16_MAX -> (forall packet, w_udp w t packet = true) ->
  exists h packet, Header_new ty sid seq (length b) = Ok h /\ WirePacket_encode (mkWirePacket h b) = Ok packet
    /\ send_packet w t ty sid seq b n = (Ok tt, set_n_sent (n_sent n ++ [(t, packet)]) n).
Proof.
  intros Hl Hu. unfold send_packet, Header_new, WirePacket_encode, hbind, hlift, udp_send.
  fold (len b). rewrite (proj2 (Z.leb_le _ _) Hl). cbn [rmap_err header payload payload_len].
  rewrite Z.eqb_refl. cbn [negb rmap_err]. rewrite Hu.
  eexists _, _. split; [reflexivity|]. cbn [payload_len]. by rewrite Z.eqb_refl.
Qed.

(** The peer of a reference after its session was closed, if it had one *)
Lemma close_previous_spec r (n : Node N) p :
  n_heap n !! r = Some p -> (ps_active p = None -> ps_queue p = []) ->
  exists n' p', close_previous r n = (Ok tt, n') /\ n_heap n' !! r = Some p'
    /\ ps_active p' = None /\ ps_queue p' = [] /\ ps_info p' = ps_info p /\ n_sent n' = n_sent n.
Proof.
  intros Hp Hq. unfold close_previous. unfold hbind at 1, load. unfold peer_at.
  rewrite (lookup_total_correct _ _ _ Hp). destruct (ps_active p) as [s|] eqn:Ha; [|exists n, p; split_and!; auto].
  eexists _, _. split; [|split; [|split; [|split; [|split]]]].
  - unfold invalidate_session, invalidate_session_if, hbind, load, update, remove_session, hmodify, hret, emit.
    unfold peer_at. rewrite (lookup_total_correct _ _ _ Hp), Ha, bool_decide_eq_true_2 by done. reflexivity.
  - cbn. case_bool_decide; cbn; rewrite !lookup_alter_eq, Hp; reflexivity.
  - done.
  - done.
  - done.
  - cbn. by case_bool_decide.
Qed.

Lemma establish_opens w r sid path c (n : Node N) p :
  n_heap n !! r = Some p -> ps_active p = None -> ps_queue p = [] ->
  exists n', establish cfg w r sid path c (ps_info p) n = (Ok tt, n')
    /\ ps_active (peer_at r n') = Some (new_session cfg w sid path c)
    /\ n_sessions n' !! sid = Some r /\ n_sent n' = n_sent n.
Proof.
  intros Hp Ha Hq. eexists. split.
  - unfold establish, hbind, load, update, hmodify, htry, hret, emit, peer_at.
    rewrite (lookup_total_correct _ _ _ Hp), Ha, Hq, bool_decide_eq_true_2 by done. reflexivity.
  - split_and!.
    + unfold peer_at. erewrite lookup_total_correct; [|cbn; rewrite !lookup_alter_eq, Hp; reflexivity].
      cbn. unfold record_path. by repeat case_match.
    + cbn. apply lookup_insert_eq.
    + done.
Qed.

(** The responder's half on a first message that carries the context *)
Lemma respond_opens attacker w n r p sid source gen st0 m1 st1 :
  n_heap n !! r = Some p -> (ps_active p = None -> ps_queue p = []) -> length (my_id me) = 32%nat ->
  context_typed (mkContext (n_network_id n) gen (node_id (ps_info p)) (incarnation (ps_info p))
                   (virtual_ipv4 (ps_info p)) (virtual_ipv6 (ps_info p))) ->
  (forall packet, w_udp w source packet = true) ->
  noise_initiator attacker (pub (noise_private me)) = Some st0 ->
  noise_write st0 (public_context n (ps_info p) gen) = Some (m1, st1) ->
  exists n' m2 p2 st2 keys s,
    respond cfg me w r sid (node_id (ps_info p)) (1 :: node_id (ps_info p) ++ m1) source n = (Ok tt, n')
    /\ noise_read st1 m2 = Some (p2, st2) /\ into_session st2 = Ok keys
    /\ (exists h packet, WirePacket_encode (mkWirePacket h (2 :: my_id me ++ m2)) = Ok packet
          /\ n_sent n' = n_sent n ++ [(source, packet)])
    /\ n_sessions n' !! sid = Some r /\ ps_active (peer_at r n') = Some s
    /\ as_path s = source /\ as_cipher s = session_cipher keys false.
Proof.
  intros Hp Hq Hme Hc Hu Hi Hw. pose proof Hc as (Hnet & _ & Hid & _). cbn in Hnet, Hid.
  destruct (noise_complete _ _ _ _ _ _ Hi Hw) as (r0 & r1 & Er & Em & Hresp).
  destruct (Hresp (handshake_context me n)) as (m2 & r2 & st2 & Ew & Em2 & F1 & F2 & Hh & Hl);
    [rewrite handshake_context_length by done; lia|].
  destruct (keys_agree r2 st2 F1 F2 (eq_sym Hh)) as (keys & K1 & K2).
  destruct (send_packet_ok w source Handshake sid 0 (2 :: my_id me ++ m2) n) as (h & packet & _ & Ep & Es);
    [unfold len, U16_MAX; cbn [length]; rewrite length_app, Hme; lia | done |].
  destruct (close_previous_spec r (set_n_sent (n_sent n ++ [(source, packet)]) n) p Hp Hq)
    as (n2 & p' & E2 & Hp' & Ha' & Hq' & Hi' & Hs').
  destruct (establish_opens w r sid source (session_cipher keys false) n2 p' Hp' Ha' Hq')
    as (n3 & E3 & Ha3 & Hs3 & Hn3).
  exists n3, m2, (handshake_context me n), st2, keys, (new_session cfg w sid source (session_cipher keys false)).
  split; [|split_and!; try done; exists h, packet; split; [done | by rewrite Hn3, Hs']].
  unfold respond. unfold hbind at 1, load, peer_at. rewrite (lookup_total_correct _ _ _ Hp).
  unfold hbind at 1, hlift, NoiseHandshake_responder. rewrite Er. cbn [ok_or rmap_err].
  assert (Hd : drop 33 (1 :: node_id (ps_info p) ++ m1) = m1) by (cbn [drop]; by rewrite drop_app_length').
  rewrite Hd. unfold hbind at 1, read_message. rewrite Em. cbn [ok_or rmap_err]. unfold hbind at 1, hget.
  unfold hbind at 1. rewrite (proj2 (handshake_context_checked _ _ _ _ Hc)) by done.
  unfold hbind at 1, write_message. rewrite Ew. cbn [ok_or rmap_err].
  unfold hbind at 1. rewrite K1. cbn [rmap_err]. unfold hbind at 1. rewrite Es. unfold hbind. by rewrite E2, <- Hi'.
Qed.

(** C8: the responder does not authenticate the initiator: anybody who knows the
    public record of a member that comes before this node in the order of ids can
    run the handshake with a key pair of its own in the name of that member.  The
    node answers, closes the session it has with the member, and opens a session
    for the member whose path is the sender's address and whose keys are the
    sender's. *)
Theorem initiator_not_authenticated attacker w n r p sid source gen st0 m1 st1 :
  n_peers n !! node_id (ps_info p) = Some r -> n_heap n !! r = Some p ->
  validate_peer_membership parse_credential (ps_info p) (server_public_key cfg) (w_unix w) = Ok tt ->
  (forall s, ps_active p = Some s -> as_session_id s <> sid) -> (ps_active p = None -> ps_queue p = []) ->
  bytes_ltb (my_id me) (node_id (ps_info p)) = false -> length (my_id me) = 32%nat ->
  context_typed (mkContext (n_network_id n) gen (node_id (ps_info p)) (incarnation (ps_info p))
                   (virtual_ipv4 (ps_info p)) (virtual_ipv6 (ps_info p))) ->
  (forall packet, w_udp w source packet = true) ->
  noise_initiator attacker (pub (noise_private me)) = Some st0 ->
  noise_write st0 (public_context n (ps_info p) gen) = Some (m1, st1) -> m1 <> [] ->
  exists n' m2 p2 st2 keys s,
    handle_handshake parse_credential cfg me w sid (1 :: node_id (ps_info p) ++ m1) source n = (Ok tt, n')
    /\ noise_read st1 m2 = Some (p2, st2) /\ into_session st2 = Ok keys
    /\ (exists h packet, WirePacket_encode (mkWirePacket h (2 :: my_id me ++ m2)) = Ok packet
          /\ n_sent n' = n_sent n ++ [(source, packet)])
    /\ n_sessions n' !! sid = Some r /\ ps_active (peer_at r n') = Some s
    /\ as_path s = source /\ as_cipher s = session_cipher keys false.
Proof.
  intros Hr Hp Hm Hs Hq Ho Hme Hc Hu Hi Hw Hne. pose proof Hc as (_ & _ & Hid & _). cbn in Hid.
  destruct (respond_opens attacker w n r p sid source gen st0 m1 st1) as (n' & m2 & p2 & st2 & keys & s & E & H);
    try done.
  exists n', m2, p2, st2, keys, s. split; [|done]. unfold handle_handshake.
  destruct (Nat.ltb_spec (length (1 :: node_id (ps_info p) ++ m1)) 34) as [Hlt|_].
  { cbn [length] in Hlt. rewrite length_app, Hid in Hlt. destruct m1; cbn [length] in Hlt; [done|lia]. }
  assert (Hslice : slice 1 33 (1 :: node_id (ps_info p) ++ m1) = node_id (ps_info p))
    by (unfold slice; rewrite skipn_cons, drop_0; by apply take_app_length').
  cbn zeta. rewrite Hslice. unfold hbind at 1, node_peer_for. rewrite Hr. cbn [ok_or].
  unfold hbind at 1, load, peer_at. rewrite (lookup_total_correct _ _ _ Hp).
  unfold hbind at 1, hlift. rewrite Hm.
  rewrite bool_decide_eq_false_2 by (destruct (ps_active p) as [s0|]; cbn; [intros [= Es]; by eapply Hs | done]).
  cbn [lookup_total list_lookup_total]. by rewrite Ho.
Qed.
End Auth.

(** ** Witness *)

Lemma toy_noise_complete : NoiseComplete (HN := toy_noise) id.
Proof.
  intros priv rp st0 p1 m1 st1 [= <-] [= <- <-]. eexists _, _. split; [reflexivity|]. split; [reflexivity|].
  intros p2 Hp. eexists _, _, _. split_and!; try reflexivity. lia.
Qed.

Lemma toy_hkdf_total : HkdfTotal (HK := toy_hkdf).
Proof. by intros salt key info. Qed.

(** Node 2 has a session with node 1; a stranger takes it over. *)
Definition victim : PeerState (@NState toy_noise) := peer_at 0 b_open.
Definition stranger : SocketAddr := sample_addr 66.

Lemma victim_context_typed :
  context_typed (mkContext (n_network_id b_open) 0 (node_id (ps_info victim)) (incarnation (ps_info victim))
                   (virtual_ipv4 (ps_info victim)) (virtual_ipv6 (ps_info victim))).
Proof.
  assert (E : ps_info victim = sample_info 1) by (vm_compute; reflexivity).
  rewrite E. split_and!; cbn [hs_network_id hs_generation hs_node_id hs_incarnation hs_virtual_ipv4 hs_virtual_ipv6].
  - vm_compute; reflexivity.
  - by_decide.
  - vm_compute; reflexivity.
  - by_decide.
  - intros a [= <-]. by_decide.
  - done.
Qed.

Lemma initiator_not_authenticated_witness :
  exists n' m2 p2 st2 keys s,
    handle_handshake no_credential (sample_config 2) (sample_local 2) sample_world 78
      (1 :: node_id (ps_info victim) ++ public_context b_open (ps_info victim) 0) stranger b_open = (Ok tt, n')
    /\ noise_read (mkToy (replicate 32 2) [public_context b_open (ps_info victim) 0]) m2 = Some (p2, st2)
    /\ into_session st2 = Ok keys
    /\ (exists h packet, WirePacket_encode (mkWirePacket h (2 :: my_id (sample_local 2) ++ m2)) = Ok packet
          /\ n_sent n' = n_sent b_open ++ [(stranger, packet)])
    /\ n_sessions n' !! 78 = Some 0 /\ ps_active (peer_at 0 n') = Some s
    /\ as_path s = stranger /\ as_cipher s = session_cipher keys false.
Proof.
  apply (initiator_not_authenticated no_credential (sample_config 2) (sample_local 2) id
           (HC := toy_noise_complete) (HT := toy_hkdf_total) (replicate 32 66) sample_world b_open 0 victim 78
           stranger 0 (mkToy (replicate 32 2) []));
    [vm_compute; reflexivity | vm_compute; reflexivity | vm_compute; reflexivity
    | vm_compute; by intros s [= <-] | by vm_compute | vm_compute; reflexivity | vm_compute; reflexivity
    | apply victim_context_typed | by intros packet | reflexivity | reflexivity | by vm_compute].
Defined.
