(* ===== verification/Diagnostic.v ===== *)
(** * The peer

    [vela-diagnostic/src/lib.rs]: a member of the network as the command line runs
    it: the node, the coordination client and the state it saves.  An operation
    runs on a [Peer], which holds the three and the world around them: the clock,
    the frames that arrive, the addresses of the host, the STUN socket and the
    file the state is saved to are the class [PeerHost] and the classes of the
    clients.  Here the file holds the state itself;
    its JSON and the way it is written are in [Serde] and [KeyFiles]. *)
From S2P Require Import Prelude Net Encoding Wire NodeId Snapshot SignedBytes Crypto Ip Replay Path Handshake.
From S2P Require Import NodeState NodePeers NodeSend NodeSession NodeData NodeTimers NodeInv.
From S2P Require Import Control Text CoordDb Coord CoordInv Dns Stun CoordClient NodeView.

Inductive DiagnosticError : Type :=
| Diag_Io
| Diag_Serialization
| Diag_Crypto (e : CryptoError)
| Coordination (e : CoordClientError)
| Diag_Core (e : CoreError)
| Diag_TransportFailed
| Diag_Connect (e : ConnectError)
| Diag_Ping (e : DiagnosticPingError)
| Diag_Revoked
| Diag_NoCandidates
| AlreadyRunning
| ServiceUnavailable
| ControlProtocol (why : bytes)
| ControlRequest (code message : bytes)
| InvalidPingRequest (why : bytes).

(** [PeerState], what is saved *)
Record SavedState : Type := mkSaved {
  sv_server : bytes;
  sv_server_key : bytes;
  sv_credential : option MembershipCredential;
  sv_last_local_addrs : list SocketAddr;
  sv_doh_servers : list bytes;
  sv_stun_servers : list bytes;
  sv_manual_stun_servers : list bytes;
  sv_candidates : list Candidate;
  sv_snapshot : option NetworkSnapshot
}.

Definition SavedState_new (server server_key : bytes) (stun_servers : list bytes) : SavedState :=
  mkSaved server server_key None [] default_servers stun_servers stun_servers [] None.

Definition set_sv_credential x s := mkSaved (sv_server s) (sv_server_key s) x (sv_last_local_addrs s) (sv_doh_servers s) (sv_stun_servers s) (sv_manual_stun_servers s) (sv_candidates s) (sv_snapshot s).
Definition set_sv_last_local_addrs x s := mkSaved (sv_server s) (sv_server_key s) (sv_credential s) x (sv_doh_servers s) (sv_stun_servers s) (sv_manual_stun_servers s) (sv_candidates s) (sv_snapshot s).
Definition set_sv_candidates x s := mkSaved (sv_server s) (sv_server_key s) (sv_credential s) (sv_last_local_addrs s) (sv_doh_servers s) (sv_stun_servers s) (sv_manual_stun_servers s) x (sv_snapshot s).
(** The fields a snapshot sets *)
Definition set_sv_network doh stun sn s := mkSaved (sv_server s) (sv_server_key s) (sv_credential s) (sv_last_local_addrs s) doh stun (sv_manual_stun_servers s) (sv_candidates s) sn.
(** The endpoints given on the command line *)
Definition set_sv_manual stun s := mkSaved (sv_server s) (sv_server_key s) (sv_credential s) (sv_last_local_addrs s) (sv_doh_servers s) stun stun (sv_candidates s) (sv_snapshot s).

(** ** Lists *)

Definition add_new {A} `{EqDecision A} (l : list A) (x : A) : list A :=
  if bool_decide (x ∈ l) then l else l ++ [x].

Definition merge_stun_servers (local remote : list bytes) : list bytes :=
  fold_left add_new remote local.

Definition effective_doh_servers (servers : list bytes) : list bytes :=
  match servers with [] => default_servers | _ => servers end.

Definition unique_candidates (l : list Candidate) : list Candidate := fold_left add_new l [].

Definition is_server_reflexive (c : Candidate) : bool :=
  match c with ServerReflexive _ => true | _ => false end.

Definition retain_server_reflexive_candidates (candidates previous : list Candidate) : list Candidate :=
  fold_left (fun l c => if is_server_reflexive c then add_new l c else l) previous candidates.

(** The ports the last sockets had, for the two families *)
Definition preferred_local_ports (local_addrs : list SocketAddr) : option (option Z * option Z) :=
  let port v4 := sock_port <$>
    List.find (fun a => Bool.eqb (sock_is_ipv4 a) v4 && negb (sock_port a =? 0)) local_addrs in
  match port true, port false with
  | None, None => None
  | a, b => Some (a, b)
  end.

(** ** Errors the peer recovers from *)

Definition is_retryable_control_error (e : DiagnosticError) : bool :=
  match e with
  | Coordination (Client_WebSocket _) | Coordination Client_Closed | Coordination (Client_Timeout _) => true
  | _ => false
  end.

Definition UNSUPPORTED_MESSAGE : bytes := str "unsupported_message".

Definition is_snapshot_request_unsupported (e : DiagnosticError) : bool :=
  match e with
  | Coordination (Client_Server code _) => bool_decide (code = UNSUPPORTED_MESSAGE)
  | _ => false
  end.

(** ** The world around a peer *)

(** [host_world]: the clocks, and what happens to the datagrams of a step of the
    node; [host_frames]: the frames that arrive on the connection to the server
    while a request waits; [host_candidates]: the candidates of the provider of
    datagram sockets; [host_save]: whether writing and renaming the state file
    succeeds. *)
Class PeerHost (W : Type) : Type := {
  host_world : W -> World * W;
  host_frames : W -> list Frame * W;
  host_candidates : W -> list Candidate * W;
  host_local_addrs : W -> result (list SocketAddr) unit * W;
  host_bind : W -> result unit CoreError * W;
  host_parallelism : option Z;
  host_save : W -> bool * W
}.

Section peer.
Context {HH : Hash} {HSg : SignatureOps} {HA : AeadOps} {HK : HkdfOps} {HN : NoiseOps}.
Context {HT : TextOps} {J : ControlJson}.
Context {W : Type} {Sk : StunSocket W} {Hp : Http W} {Tr : Transport W} {Ho : PeerHost W}.
(** The identity of the peer, and the bound of a STUN survey ([Stun.binding]) *)
Context (me : Local) (stun_fuel : nat).

Abbreviation N := (@NState HN).
Abbreviation identity := (Identity_public (signing_secret me) (local_noise_public me)).

(** ** Candidates *)

(** [gather_server_reflexive_candidates] of the node *)
Definition gather_server_reflexive_candidates (config : StunConfig) (w : W)
    : result (list Candidate) CoreError * W :=
  match binding stun_fuel config w with
  | Some (Ok l, w) => (Ok (map ServerReflexive l), w)
  | Some (Err _, w) => (Err Core_Stun, w)
  | None => (Err Core_Stun, w)
  end.

Definition stun_config (s : SavedState) : StunConfig :=
  mkStunConfig (sv_stun_servers s) (sv_doh_servers s) (stun_timeout StunConfig_default).

(** The candidates of the host and what STUN adds; [cached] is kept when it
    fails. *)
Definition survey_candidates (s : SavedState) (cached : list Candidate)
    : handler W DiagnosticError (list Candidate) := fun w =>
  let '(hosts, w) := host_candidates w in
  let '(found, w) :=
    match sv_stun_servers s with
    | [] => (Ok hosts, w)
    | _ =>
        match gather_server_reflexive_candidates (stun_config s) w with
        | (Ok l, w) => (Ok (hosts ++ l), w)
        | (Err e, w) => (match hosts with
                         | [] => Err (Diag_Core e)
                         | _ => Ok (retain_server_reflexive_candidates hosts cached)
                         end, w)
        end
    end in
  (let? l := found in
   match unique_candidates l with [] => Err Diag_NoCandidates | l => Ok l end, w).

(** ** The peer *)

(** [DiagnosticPeer], with the configuration of its node, the state file and the
    world *)
Record Peer : Type := mkDiagnosticPeer {
  dp_config : NodeConfig;
  dp_node : Node N;
  dp_client : Client;
  dp_state : SavedState;
  dp_candidates : list Candidate;
  dp_manual : list bytes;
  dp_disk : option SavedState;
  dp_world : W
}.

Definition set_dp_node x d := mkDiagnosticPeer (dp_config d) x (dp_client d) (dp_state d) (dp_candidates d) (dp_manual d) (dp_disk d) (dp_world d).
Definition set_dp_client x d := mkDiagnosticPeer (dp_config d) (dp_node d) x (dp_state d) (dp_candidates d) (dp_manual d) (dp_disk d) (dp_world d).
Definition set_dp_state x d := mkDiagnosticPeer (dp_config d) (dp_node d) (dp_client d) x (dp_candidates d) (dp_manual d) (dp_disk d) (dp_world d).
Definition set_dp_candidates x d := mkDiagnosticPeer (dp_config d) (dp_node d) (dp_client d) (dp_state d) x (dp_manual d) (dp_disk d) (dp_world d).
Definition set_dp_disk x d := mkDiagnosticPeer (dp_config d) (dp_node d) (dp_client d) (dp_state d) (dp_candidates d) (dp_manual d) x (dp_world d).
Definition set_dp_world x d := mkDiagnosticPeer (dp_config d) (dp_node d) (dp_client d) (dp_state d) (dp_candidates d) (dp_manual d) (dp_disk d) x.

Abbreviation D A := (handler Peer DiagnosticError A).

(** Something the world does *)
Definition in_world {A} (m : handler W DiagnosticError A) : D A := fun d =>
  let '(r, w) := m (dp_world d) in (r, set_dp_world w d).
Definition on_world {A} (f : W -> A * W) : D A :=
  in_world (fun w => let '(a, w) := f w in (Ok a, w)).

(** A request of the client, while frames arrive *)
Definition on_client {A} (m : handler Client CoordClientError A) : D A :=
  let! frames := on_world host_frames in
  fun d =>
    let '(r, c) := m (set_stream (cl_stream (dp_client d) ++ frames) (dp_client d)) in
    (rmap_err Coordination r, set_dp_client c d).

(** An operation of the node *)
Definition on_node {E A} (wrap : E -> DiagnosticError) (m : NodeConfig -> World -> handler (Node N) E A) : D A :=
  let! w := on_world host_world in
  fun d => let '(r, n) := m (dp_config d) w (dp_node d) in (rmap_err wrap r, set_dp_node n d).

(** [PeerState::save], which replaces the file at once *)
Definition save : D unit := fun d =>
  match host_save (dp_world d) with
  | (true, w) => (Ok tt, set_dp_disk (Some (dp_state d)) (set_dp_world w d))
  | (false, w) => (Err Diag_Io, set_dp_world w d)
  end.

Definition change_state (f : SavedState -> SavedState) : D unit :=
  hmodify (fun d => set_dp_state (f (dp_state d)) d).

(** ** Snapshots *)

(** [apply_snapshot]: whether the configuration changed *)
Definition peer_apply_snapshot (sn : NetworkSnapshot) : D bool :=
  let! d := hget in
  let! _ := on_node Diag_Core (fun cfg w => apply_snapshot parse_credential cfg me w sn) in
  let doh := effective_doh_servers (Snapshot.doh_servers sn) in
  let stun := merge_stun_servers (dp_manual d) (Snapshot.stun_servers sn) in
  let! _ := change_state (set_sv_network doh stun (Some sn)) in
  let! _ := save in
  hret (negb (bool_decide (doh = sv_doh_servers (dp_state d)))
        || negb (bool_decide (stun = sv_stun_servers (dp_state d)))).

Definition peer_request_snapshot : D (NetworkSnapshot * bool) :=
  let! sn := on_client request_snapshot in
  let! changed := peer_apply_snapshot sn in
  hret (sn, changed).

(** ** Refreshing the candidates *)

Definition collect_candidates : D (list Candidate) :=
  let! d := hget in
  in_world (survey_candidates (dp_state d) (dp_candidates d)).

(** The snapshot a refresh asks for: candidates that changed are uploaded, and
    also those that did not when the server does not know the request. *)
Definition refreshed_snapshot (candidates : list Candidate) (unchanged : bool) : D NetworkSnapshot :=
  if unchanged then
    let! answer := (htry (on_client request_snapshot) : D (result NetworkSnapshot DiagnosticError)) in
    match answer with
    | Ok sn => hret sn
    | Err e => if is_snapshot_request_unsupported e
               then on_client (update_candidates_and_get_snapshot candidates)
               else hfail e
    end
  else on_client (update_candidates_and_get_snapshot candidates).

Definition set_candidates (l : list Candidate) : D unit :=
  hmodify (fun d => set_dp_state (set_sv_candidates l (dp_state d)) (set_dp_candidates l d)).

Definition refresh_candidates : D unit :=
  let! d := hget in
  let! collected := (htry collect_candidates : D (result (list Candidate) DiagnosticError)) in
  match collected with
  | Err e => match dp_candidates d with [] => hfail e | _ => hret tt end
  | Ok candidates =>
      let! sn := refreshed_snapshot candidates (bool_decide (candidates = dp_candidates d)) in
      let! _ := peer_apply_snapshot sn in
      let! _ := set_candidates candidates in
      save
  end.

(** ** The connection to the server *)

(** [reconnect]: a new connection, registered with the candidates known *)
Definition peer_reconnect : D NetworkSnapshot :=
  let! hosts := on_world host_candidates in
  let! w := on_world host_world in
  let! frames := on_world host_frames in
  let! d := hget in
  let candidates := unique_candidates (retain_server_reflexive_candidates hosts (dp_candidates d)) in
  let! registration := fun d =>
    let '(r, c, w') := reconnect identity (local_incarnation me) (sv_credential (dp_state d)) candidates
                         (sv_doh_servers (dp_state d)) (w_unix w) frames (dp_client d) (dp_world d) in
    (rmap_err Coordination r, set_dp_client c (set_dp_world w' d)) in
  let! _ := change_state (set_sv_credential (Some (reg_credential registration))) in
  let! _ := set_candidates candidates in
  let! _ := peer_apply_snapshot (reg_snapshot registration) in
  let! _ := refresh_candidates in
  let! d := hget in
  let! _ := save in
  hret (default (reg_snapshot registration) (sv_snapshot (dp_state d))).

Definition request_peer_connection (id : bytes) : D unit :=
  let! w := on_world host_world in
  let! _ := on_client (lookup_peer id (w_unix w)) in
  hret tt.

Definition peer_list_peers : D (list PeerSummary) := on_client client_list_peers.

(** ** Opening *)

Definition NodeConfig_default : NodeConfig :=
  mkConfig DEFAULT_MAX_VIRTUAL_MTU 256 (20 * 10 ^ 9) (8 * 10 ^ 9) (10 ^ 9) None (replicate 16 0) None None
    DEFAULT_MAX_VIRTUAL_MTU.

(** The configuration of the node: its network and addresses are those of the
    saved snapshot. *)
Definition node_config (s : SavedState) (mtu : Z) : NodeConfig :=
  let local := sv_snapshot s ≫= (fun sn =>
    List.find (fun p => bool_decide (node_id p = pid_node_id identity)) (peers sn)) in
  mkConfig mtu (per_peer_queue_limit NodeConfig_default) (keepalive_interval NodeConfig_default)
    (connect_timeout NodeConfig_default) (reconnect_backoff NodeConfig_default) (Some (sv_server_key s))
    (match sv_snapshot s with Some sn => network_id sn | None => replicate 16 0 end)
    (local ≫= virtual_ipv4) (local ≫= virtual_ipv6) mtu.

Definition build_with_provider (s : SavedState) (manual : list bytes) (mtu : Z) (disk : option SavedState) (w : W)
    : result Peer DiagnosticError :=
  let '(bound, w) := host_bind w in
  let? _ := rmap_err Diag_Core bound in
  let cfg := node_config s mtu in
  let '(found, w) := survey_candidates s [] w in
  let? candidates := found in
  let '(connected, w) := connect_with_doh (sv_server s) (sv_doh_servers s) w in
  let? c := rmap_err Coordination connected in
  Ok (mkDiagnosticPeer cfg (node_new cfg host_parallelism) (trust_server_key (sv_server_key s) c) s
        candidates manual disk w).

(** What [open_with_mtu] and [register] do with the peer they built *)
Definition enter (token : option bytes) (cred : option MembershipCredential) : D unit :=
  let! w := on_world host_world in
  let! d := hget in
  let! registration := on_client (register_with_incarnation identity (local_incarnation me) token cred
                                    (dp_candidates d) (w_unix w)) in
  let! _ := change_state (fun s => set_sv_candidates (dp_candidates d)
                                     (set_sv_credential (Some (reg_credential registration)) s)) in
  let! _ := peer_apply_snapshot (reg_snapshot registration) in
  let! _ := refresh_candidates in
  let! addrs := on_world host_local_addrs in
  let! addrs := hlift (rmap_err (fun _ => Diag_Io) addrs) in
  change_state (set_sv_last_local_addrs addrs).

(** [open_with_mtu] on the state that was loaded *)
Definition open_with_mtu (s : SavedState) (stun : option (list bytes)) (mtu : Z) (w : W)
    : result Peer DiagnosticError :=
  let manual := default (sv_manual_stun_servers s) stun in
  let state := match manual with [] => s | _ => set_sv_manual manual s end in
  let? d := build_with_provider state manual mtu (Some s) w in
  let '(r, d) := (let! _ := enter None (sv_credential (dp_state d)) in
                  let! _ := hmodify (fun d => set_dp_node (start (dp_node d)) d) in save) d in
  let? _ := r in Ok d.

(** [register] *)
Definition register (server server_key : bytes) (invite : bytes) (stun : list bytes) (w : W)
    : result Peer DiagnosticError :=
  let? d := build_with_provider (SavedState_new server server_key stun) stun
              (virtual_mtu NodeConfig_default) None w in
  let '(r, d) := (let! _ := enter (Some invite) None in save) d in
  let? _ := r in Ok d.
End peer.
