(* ===== verification/DiagnosticInv.v ===== *)
(** * What a peer keeps

    The saved state and the node agree through every operation of the peer and
    whatever fails, and a peer that is connected has told the server exactly the
    candidates it holds. *)
From S2P Require Import Prelude Net Encoding Wire NodeId Snapshot SignedBytes Crypto Ip Replay Path Handshake.
From S2P Require Import NodeState NodePeers NodeSend NodeSession NodeData NodeTimers NodeInv.
From S2P Require Import Control Text CoordDb Coord CoordInv Dns Stun CoordClient NodeView Diagnostic.

(** ** Lists *)

Lemma add_new_elem {A} `{EqDecision A} (l : list A) x y : y ∈ add_new l x <-> y ∈ l \/ y = x.
Proof. unfold add_new. case_bool_decide; set_solver. Qed.

Lemma add_new_NoDup {A} `{EqDecision A} (l : list A) x : NoDup l -> NoDup (add_new l x).
Proof.
  intros Hl. unfold add_new. case_bool_decide; [done|]. apply NoDup_app. split_and!; [done| |apply NoDup_singleton].
  set_solver.
Qed.

Lemma unique_candidates_spec l :
  NoDup (unique_candidates l) /\ forall c, c ∈ unique_candidates l <-> c ∈ l.
Proof.
  unfold unique_candidates. assert (H : forall acc, NoDup acc ->
    NoDup (fold_left add_new l acc) /\ forall c, c ∈ fold_left add_new l acc <-> c ∈ acc \/ c ∈ l).
  { induction l as [|x l IH]; intros acc Ha; cbn [fold_left]; [set_solver|].
    destruct (IH _ (add_new_NoDup acc x Ha)) as [Hn He]. split; [done|]. intros c.
    rewrite He, add_new_elem. set_solver. }
  destruct (H [] ltac:(constructor)) as [Hn He]. split; [done|]. intros c. rewrite He. set_solver.
Qed.

(** The merged list has the endpoints given by hand first and none twice among
    those the server adds. *)
Lemma merge_stun_servers_spec local remote :
  (exists more, merge_stun_servers local remote = local ++ more /\ NoDup more /\ forall s, s ∈ more -> s ∉ local)
  /\ forall s, s ∈ merge_stun_servers local remote <-> s ∈ local \/ s ∈ remote.
Proof.
  unfold merge_stun_servers. revert local; induction remote as [|x remote IH]; intros local; cbn [fold_left].
  { split; [|set_solver]. exists []. rewrite app_nil_r. split_and!; [done|constructor|set_solver]. }
  destruct (IH (add_new local x)) as [(more & E & Hn & Hd) He]. split.
  - unfold add_new in *. case_bool_decide; [by exists more|].
    exists (x :: more). rewrite E, <- app_assoc. split_and!; [done| |set_solver].
    constructor; [|done]. intros Hx. specialize (Hd x Hx). set_solver.
  - intros s. rewrite He, add_new_elem. set_solver.
Qed.

(** ** What the server was told *)

Definition told_by (m : ControlMessage) : option (list Candidate) :=
  match m with
  | Register _ _ _ _ _ _ candidates _ => Some candidates
  | UpdateCandidates candidates => Some candidates
  | _ => None
  end.

Section told.
Context {HH : Hash} {HSg : SignatureOps} {HT : TextOps} {J : ControlJson} {JL : ControlJsonLaws J}.

Definition told_written (x : Written) : option (list Candidate) :=
  match x with WrittenText text => message_from_str text ≫= told_by | WrittenPong _ => None end.

(** The candidates in the last message of a connection that has some *)
Definition told (c : Client) : option (list Candidate) := last (omap told_written (cl_written c)).

(** An operation that tells the server nothing about candidates *)
Definition hushed (c c' : Client) : Prop :=
  exists l, cl_written c' = cl_written c ++ l /\ omap told_written l = [].

Lemma hushed_refl c : hushed c c.
Proof. exists []. by rewrite app_nil_r. Qed.

Lemma hushed_trans c1 c2 c3 : hushed c1 c2 -> hushed c2 c3 -> hushed c1 c3.
Proof.
  intros (l & E & H) (l' & E' & H'). exists (l ++ l'). rewrite E', E, app_assoc. split; [done|].
  by rewrite omap_app, H, H'.
Qed.

Lemma hushed_same c c' : cl_written c' = cl_written c -> hushed c c'.
Proof. intros E. exists []. by rewrite app_nil_r. Qed.

Lemma hushed_told c c' : hushed c c' -> told c' = told c.
Proof. intros (l & E & H). unfold told. by rewrite E, omap_app, H, app_nil_r. Qed.

Lemma write_hushed x c r c' : told_written x = None -> write x c = (r, c') -> hushed c c'.
Proof.
  intros Hx. unfold write. destruct (cl_broken c); intros [= <- <-]; [apply hushed_refl|].
  exists [x]. cbn. by rewrite Hx.
Qed.

Lemma told_message m : told_written (WrittenText (message_to_string m)) = told_by m.
Proof. cbn. by rewrite message_roundtrip. Qed.

Lemma send_hushed m c r c' : told_by m = None -> client_send m c = (r, c') -> hushed c c'.
Proof. intros Hm. apply write_hushed. by rewrite told_message. Qed.

Lemma send_tells m l c c' : told_by m = Some l -> client_send m c = (Ok tt, c') -> told c' = Some l.
Proof.
  intros Hm. unfold client_send, write. destruct (cl_broken c); intros [= <-]. unfold told.
  cbn [cl_written]. rewrite omap_app. cbn [omap list_omap]. rewrite told_message, Hm. apply last_snoc.
Qed.

Lemma read_frames_hushed frames c r c' : read_frames frames c = (r, c') -> hushed c c'.
Proof.
  revert c; induction frames as [|f frames IH]; intros c; cbn [read_frames].
  { intros [= <- <-]. by apply hushed_same. }
  destruct f as [text|text|payload| | |why].
  1,2: destruct (message_from_str text) as [m|]; [|by intros [= <- <-]; apply hushed_same].
  1,2: destruct m; try (by intros [= <- <-]; apply hushed_same).
  1,2: destruct (client_send _ c) as [[[]|e] c1] eqn:Es; apply send_hushed in Es; try done;
       [intros E; apply IH in E; by eapply hushed_trans|].
  1,2: intros [= <- <-]; by apply (hushed_trans _ c1), hushed_same.
  - destruct (write _ c) as [[[]|e] c1] eqn:Ew; apply write_hushed in Ew; try done.
    + intros E. apply IH in E. by eapply hushed_trans.
    + intros [= <- <-]. by apply (hushed_trans _ c1), hushed_same.
  - intros [= <- <-]. by apply hushed_same.
  - apply IH.
  - intros [= <- <-]. by apply hushed_same.
Qed.

Lemma recv_hushed c r c' : recv c = (r, c') -> hushed c c'.
Proof.
  unfold recv. destruct (cl_pending c); [apply read_frames_hushed|]. intros [= <- <-]. by apply hushed_same.
Qed.

Lemma await_loop_hushed {A} fuel (step : ControlMessage -> Reply A) c r c' :
  await_loop fuel step c = (r, c') -> hushed c c'.
Proof.
  revert c; induction fuel as [|fuel IH]; intros c; cbn [await_loop]; [by intros [= <- <-]; apply hushed_refl|].
  destruct (recv_wire c) as [[m|e] c1] eqn:Er; apply read_frames_hushed in Er; [|by intros [= <- <-]].
  destruct (step m); [by intros [= <- <-]|..]; intros E; apply IH in E;
    (eapply hushed_trans; [exact Er|]); (eapply hushed_trans; [|exact E]); by apply hushed_same.
Qed.

Lemma request_timeout_snd {A} what (m : handler Client CoordClientError A) c :
  snd (request_timeout what m c) = snd (m c).
Proof. unfold request_timeout. by destruct (m c) as [[a|[]] c']. Qed.

(** A request after its message was sent: what it tells is what the message tells. *)
Lemma await_after {A} m (step : ControlMessage -> Reply A) what c r c' :
  request_timeout what (let! _ := client_send m in await_reply step) c = (r, c') ->
  (told_by m = None -> hushed c c')
  /\ forall l, told_by m = Some l -> is_ok r = true -> told c' = Some l.
Proof.
  intros E. pose proof (request_timeout_snd what (let! _ := client_send m in await_reply step) c) as Hs.
  rewrite E in Hs. cbn [snd] in Hs. unfold hbind in Hs.
  unfold request_timeout, hbind in E. destruct (client_send m c) as [[[]|e] c1] eqn:Es; cbn [snd] in Hs; subst c'.
  - destruct (await_reply step c1) as [r1 c2] eqn:Ea. pose proof (await_loop_hushed _ _ _ _ _ Ea) as Hq.
    cbn [snd]. split.
    + intros Hm. by apply (hushed_trans _ c1); [eapply send_hushed|].
    + intros l Hm _. rewrite (hushed_told _ _ Hq). by eapply send_tells.
  - split; [intros Hm; by eapply send_hushed|]. intros l _ Hr. by destruct e; simplify_eq.
Qed.

Lemma request_snapshot_hushed c r c' : request_snapshot c = (r, c') -> hushed c c'.
Proof. intros E. by apply (await_after RequestSnapshot) in E as [Hq _]; apply Hq. Qed.

Lemma list_peers_hushed c r c' : client_list_peers c = (r, c') -> hushed c c'.
Proof. intros E. by apply (await_after ListPeers) in E as [Hq _]; apply Hq. Qed.

Lemma update_candidates_tells l c sn c' :
  update_candidates_and_get_snapshot l c = (Ok sn, c') -> told c' = Some l.
Proof. intros E. apply (await_after (UpdateCandidates l)) in E as [_ Ht]. by apply Ht. Qed.

Lemma runtime_status_hushed mtu c r c' : update_runtime_status mtu c = (r, c') -> hushed c c'.
Proof.
  unfold update_runtime_status. destruct (_ && _); [by apply send_hushed|].
  intros [= <- <-]. apply hushed_refl.
Qed.

Lemma lookup_peer_hushed id now c r c' : lookup_peer id now c = (r, c') -> hushed c c'.
Proof.
  intros E. pose proof (f_equal snd E) as Hs. unfold lookup_peer in Hs. rewrite request_timeout_snd in Hs.
  unfold hbind in Hs. cbn [snd] in Hs. destruct (client_send (LookupPeer id) c) as [[[]|e] c1] eqn:Es;
    apply send_hushed in Es; try done; cbn [snd] in Hs; [|by subst c'].
  destruct (await_reply on_lookup_peer c1) as [[p|e] c2] eqn:Ea; apply await_loop_hushed in Ea; cbn [snd] in Hs;
    subst c'; by eapply hushed_trans.
Qed.

Lemma register_tells id inc token cred l now c reg c' :
  register_with_incarnation id inc token cred l now c = (Ok reg, c') -> told c' = Some l.
Proof.
  intros E. unfold register_with_incarnation, request_timeout in E.
  destruct (register_with_incarnation_inner id inc token cred l now c) as [[reg'|e] c1] eqn:Ei;
    [|by destruct e; simplify_eq]. injection E as <- <-.
  unfold register_with_incarnation_inner in Ei. apply hbind_Ok in Ei as ([] & c2 & Es & Ei).
  apply hbind_Ok in Ei as (m & c3 & Er & Ei). apply recv_hushed, hushed_told in Er.
  assert (c1 = c3) as -> by (unfold hfail in Ei; destruct m; simplify_eq; done). rewrite Er. by eapply send_tells; [|exact Es].
Qed.
End told.

Section reconnecting.
Context {HH : Hash} {HSg : SignatureOps} {HT : TextOps} {J : ControlJson} {JL : ControlJsonLaws J}.
Context {W : Type} {Hp : Http W} {Tr : Transport W}.

Lemma reconnect_tells id inc cred l doh now frames c (w : W) reg c' w' :
  reconnect id inc cred l doh now frames c w = (Ok reg, c', w') -> told c' = Some l.
Proof.
  unfold reconnect. destruct (connect_with_doh _ _ w) as [[c0|e] w1]; [|done].
  destruct (register_with_incarnation _ _ _ _ _ _ _) as [[reg'|e] c1] eqn:Er; [|done].
  intros [= <- <- <-]. by eapply register_tells.
Qed.
End reconnecting.

(** ** The peer *)

Section peer.
Context {HH : Hash} {HSg : SignatureOps} {HA : AeadOps} {HK : HkdfOps} {HN : NoiseOps}.
Context {HT : TextOps} {J : ControlJson} {JL : ControlJsonLaws J}.
Context {W : Type} {Sk : StunSocket W} {Hp : Http W} {Tr : Transport W} {Ho : PeerHost W}.
Context (me : Local) (stun_fuel : nat).

Abbreviation Peer := (@Peer HN W).
Abbreviation D A := (handler Peer DiagnosticError A).

(** The snapshot of the saved state is the view of the node, and the servers of
    the state are those of that snapshot. *)
Definition coherent (d : Peer) : Prop :=
  exists sn local, sv_snapshot (dp_state d) = Some sn
    /\ view (dp_node d) = snapshot_view sn local
    /\ sv_doh_servers (dp_state d) = effective_doh_servers (Snapshot.doh_servers sn)
    /\ sv_stun_servers (dp_state d) = merge_stun_servers (dp_manual d) (Snapshot.stun_servers sn).

Definition peer_generation (d : Peer) : Z := v_generation (view (dp_node d)).

(** What every operation keeps, whatever its outcome *)
Definition kept (d d' : Peer) : Prop :=
  dp_config d' = dp_config d /\ dp_manual d' = dp_manual d
  /\ peer_generation d <= peer_generation d' /\ (coherent d -> coherent d').

Lemma kept_refl d : kept d d.
Proof. by split_and!; [..|lia|]. Qed.

Lemma kept_trans d1 d2 d3 : kept d1 d2 -> kept d2 d3 -> kept d1 d3.
Proof.
  intros (A1 & B1 & C1 & D1) (A2 & B2 & C2 & D2). split_and!; [congruence|congruence|lia|auto].
Qed.

(** A change of what [kept] does not speak of *)
Lemma kept_parts d d' :
  dp_config d' = dp_config d -> dp_manual d' = dp_manual d -> view (dp_node d') = view (dp_node d) ->
  sv_snapshot (dp_state d') = sv_snapshot (dp_state d) ->
  sv_doh_servers (dp_state d') = sv_doh_servers (dp_state d) ->
  sv_stun_servers (dp_state d') = sv_stun_servers (dp_state d) -> kept d d'.
Proof.
  intros H1 H2 H3 H4 H5 H6. unfold kept, peer_generation. rewrite H3. split_and!; [done..|lia|].
  intros (sn & local & A & B & C & E). exists sn, local. by rewrite H2, H3, H4, H5, H6.
Qed.

Section fixed.
Context (d0 : Peer).

Lemma keeps_kept {A} (m : D A) : (forall d, kept d (snd (m d))) -> keeps (kept d0) m.
Proof. intros Hm d Hd. eapply kept_trans; [exact Hd|apply Hm]. Qed.

Lemma kept_in_world {A} (m : handler W DiagnosticError A) : keeps (kept d0) (in_world m : D A).
Proof. apply keeps_kept. intros d. unfold in_world. destruct (m (dp_world d)). by apply kept_parts. Qed.

Lemma kept_on_world {A} (f : W -> A * W) : keeps (kept d0) (on_world f : D A).
Proof. apply kept_in_world. Qed.

Lemma kept_on_client {A} (m : handler Client CoordClientError A) : keeps (kept d0) (on_client m : D A).
Proof.
  apply keeps_bind; [apply kept_on_world|]. intros frames. apply keeps_kept. intros d. cbn.
  destruct (m _). by apply kept_parts.
Qed.

Lemma kept_on_node {E A} wrap (m : NodeConfig -> World -> handler (Node (@NState HN)) E A) :
  (forall v cfg w, keeps (sees v) (m cfg w)) -> keeps (kept d0) (on_node wrap m : D A).
Proof.
  intros Hm. apply keeps_bind; [apply kept_on_world|]. intros w. apply keeps_kept. intros d.
  pose proof (Hm (view (dp_node d)) (dp_config d) w (dp_node d) eq_refl) as Hv.
  destruct (m (dp_config d) w (dp_node d)) as [r n]. by apply kept_parts.
Qed.

Lemma kept_save : keeps (kept d0) (save : D unit).
Proof. apply keeps_kept. intros d. unfold save. destruct (host_save _) as [[] w]; by apply kept_parts. Qed.

Lemma kept_set_candidates l : keeps (kept d0) (set_candidates l : D unit).
Proof. apply keeps_kept. intros d. by apply kept_parts. Qed.

Lemma kept_change_state f :
  (forall s, sv_snapshot (f s) = sv_snapshot s /\ sv_doh_servers (f s) = sv_doh_servers s
             /\ sv_stun_servers (f s) = sv_stun_servers s) ->
  keeps (kept d0) (change_state f : D unit).
Proof. intros Hf. apply keeps_kept. intros d. destruct (Hf (dp_state d)) as (? & ? & ?). by apply kept_parts. Qed.
End fixed.

(** [apply_snapshot]: the node and the saved state take the snapshot together;
    also when the state cannot be written. *)
Lemma peer_apply_snapshot_spec sn d r d' :
  peer_apply_snapshot me sn d = (r, d') ->
  kept d d' /\ dp_client d' = dp_client d /\ dp_candidates d' = dp_candidates d
  /\ sv_candidates (dp_state d') = sv_candidates (dp_state d)
  /\ match r with
     | Ok _ => coherent d' /\ sv_snapshot (dp_state d') = Some sn /\ dp_disk d' = Some (dp_state d')
     | Err e => True
     end.
Proof.
  unfold peer_apply_snapshot. unfold hbind at 1, hget.
  unfold on_node, on_world, in_world, hbind.
  destruct (host_world (dp_world d)) as [w world]. cbn [dp_config dp_node set_dp_world].
  pose proof (apply_snapshot_view parse_credential (dp_config d) me w sn (dp_node d)) as Hv.
  destruct (apply_snapshot parse_credential (dp_config d) me w sn (dp_node d)) as [[u|e] n] eqn:Ea;
    specialize (Hv _ _ eq_refl); cbn [rmap_err].
  2:{ intros [= <- <-]. split_and!; try done. by apply kept_parts. }
  destruct Hv as (local & (_ & _ & _ & Hg & _) & Hview).
  unfold change_state, hmodify, save. cbn [dp_world set_dp_state set_dp_node set_dp_world].
  set (st := set_sv_network _ _ _ _).
  assert (Hk : forall disk w', kept d (mkDiagnosticPeer (dp_config d) n (dp_client d) st (dp_candidates d) (dp_manual d) disk w')
                 /\ coherent (mkDiagnosticPeer (dp_config d) n (dp_client d) st (dp_candidates d) (dp_manual d) disk w')).
  { intros disk w'. assert (Hc : coherent (mkDiagnosticPeer (dp_config d) n (dp_client d) st (dp_candidates d) (dp_manual d) disk w')).
    { exists sn, local. by split_and!. }
    split; [|done]. split_and!; try done. unfold peer_generation. cbn [dp_node]. rewrite Hview. exact Hg. }
  destruct (host_save world) as [[] w']; intros [= <- <-]; cbn; (split_and!; try done); by apply Hk.
Qed.

(** *** Candidates *)

Definition told_ok (d : Peer) : Prop := told (dp_client d) = Some (dp_candidates d).
Definition candidates_ok (d : Peer) : Prop :=
  NoDup (dp_candidates d) /\ sv_candidates (dp_state d) = dp_candidates d.

(** A peer at rest: what it saved, what its node uses and what the server was
    told agree. *)
Definition settled (d : Peer) : Prop :=
  coherent d /\ told_ok d /\ candidates_ok d /\ dp_candidates d <> [].

Lemma survey_candidates_ok s cached (w w' : W) l :
  survey_candidates stun_fuel s cached w = (Ok l, w') -> NoDup l /\ l <> [].
Proof.
  unfold survey_candidates. destruct (host_candidates w) as [hosts w1].
  match goal with |- context [let '(_, _) := ?x in _] => destruct x as [[l0|e] w2] end; [|done].
  cbn [rbind]. pose proof (proj1 (unique_candidates_spec l0)) as Hn.
  destruct (unique_candidates l0) as [|c u]; [done|]. by intros [= <- <-].
Qed.

Lemma on_client_spec {A} (m : handler Client CoordClientError A) (d d' : Peer) r :
  on_client m d = (r, d') ->
  exists c c' r', cl_written c = cl_written (dp_client d) /\ m c = (r', c') /\ dp_client d' = c'
    /\ rmap_err Coordination r' = r
    /\ dp_candidates d' = dp_candidates d /\ dp_state d' = dp_state d /\ dp_node d' = dp_node d
    /\ dp_manual d' = dp_manual d /\ dp_config d' = dp_config d.
Proof.
  unfold on_client, on_world, in_world, hbind. destruct (host_frames (dp_world d)) as [frames w].
  cbn [dp_client set_dp_world]. destruct (m _) as [r' c'] eqn:Em. intros [= <- <-].
  eexists _, c', r'. split_and!; [|exact Em|done..]. done.
Qed.

(** A request that tells the server nothing *)
Lemma on_client_hushed {A} (m : handler Client CoordClientError A) (d d' : Peer) r :
  (forall c r c', m c = (r, c') -> hushed c c') -> on_client m d = (r, d') ->
  told (dp_client d') = told (dp_client d) /\ dp_candidates d' = dp_candidates d
  /\ dp_state d' = dp_state d /\ dp_node d' = dp_node d.
Proof.
  intros Hm E. apply on_client_spec in E as (c & c' & r' & Hw & E & <- & _ & -> & -> & -> & _).
  split; [|done]. apply Hm, hushed_told in E. rewrite E. unfold told. by rewrite Hw.
Qed.

Lemma refreshed_snapshot_spec l unchanged (d d' : Peer) sn :
  refreshed_snapshot l unchanged d = (Ok sn, d') ->
  (unchanged = true -> l = dp_candidates d) -> (told_ok d \/ unchanged = false) ->
  told (dp_client d') = Some l /\ dp_candidates d' = dp_candidates d /\ dp_state d' = dp_state d
  /\ dp_node d' = dp_node d.
Proof.
  intros E Hl Ht. unfold refreshed_snapshot in E.
  assert (Hup : forall d1 d2, on_client (update_candidates_and_get_snapshot l) d1 = (Ok sn, d2) ->
    told (dp_client d2) = Some l /\ dp_candidates d2 = dp_candidates d1 /\ dp_state d2 = dp_state d1
    /\ dp_node d2 = dp_node d1).
  { intros d1 d2 E1. apply on_client_spec in E1 as (c & c' & r' & _ & E1 & <- & Hr & -> & -> & -> & _).
    apply rmap_err_Ok in Hr as ->. split; [|done]. by eapply update_candidates_tells. }
  destruct unchanged; [|by apply Hup].
  unfold hbind, htry in E. destruct (on_client request_snapshot d) as [ans d1] eqn:Eq.
  apply on_client_hushed in Eq as (T1 & C1 & S1 & N1); [|apply request_snapshot_hushed].
  destruct ans as [sn'|e].
  - injection E as <- <-. rewrite T1, C1, S1, N1. split; [|done]. destruct Ht as [Ht|]; [|done].
    rewrite Ht. by rewrite Hl.
  - destruct (is_snapshot_request_unsupported e); [|done].
    apply Hup in E as (T & C & S & Nd). by rewrite C, S, Nd.
Qed.

Lemma refresh_candidates_ok d d' :
  refresh_candidates me stun_fuel d = (Ok tt, d') -> candidates_ok d -> told_ok d -> coherent d ->
  settled d'.
Proof.
  unfold refresh_candidates. unfold hbind at 1, hget. unfold collect_candidates. intros E [Hn Hs] Ht Hc.
  unfold hbind at 1, htry in E. unfold hbind at 1, hget, in_world in E.
  destruct (survey_candidates stun_fuel (dp_state d) (dp_candidates d) (dp_world d)) as [[l|e] w] eqn:Es.
  - apply survey_candidates_ok in Es as [Hl Hne].
    apply hbind_Ok in E as (sn & d1 & E1 & E). apply hbind_Ok in E as (changed & d2 & E2 & E).
    apply hbind_Ok in E as ([] & d3 & [= <-] & E).
    apply refreshed_snapshot_spec in E1 as (T1 & C1 & S1 & N1).
    2:{ intros Hb. by unbool. }
    2:{ by left. }
    apply peer_apply_snapshot_spec in E2 as (_ & Hcl & _ & _ & (sn' & local & Q1 & Q2 & Q3 & Q4) & _).
    unfold save in E. destruct (host_save _) as [[] w2]; [|done]. injection E as <-.
    split_and!; [|unfold told_ok; cbn; by rewrite Hcl| |done].
    + by exists sn', local.
    + by split.
  - destruct (dp_candidates d) as [|c l] eqn:Ed; [done|]. injection E as <-.
    split_and!; [|by unfold told_ok in *; cbn; rewrite Ed in *|split; cbn; by rewrite Ed|cbn; by rewrite Ed].
    destruct Hc as (sn & local & Q). by exists sn, local.
Qed.

(** *** What the operations keep *)

Lemma kept_apply_snapshot d0 sn : keeps (kept d0) (peer_apply_snapshot me sn : D bool).
Proof.
  apply keeps_kept. intros d. destruct (peer_apply_snapshot me sn d) as [r d'] eqn:E.
  by apply peer_apply_snapshot_spec in E as [Hk _].
Qed.

Lemma kept_refresh d0 : keeps (kept d0) (refresh_candidates me stun_fuel : D unit).
Proof.
  unfold refresh_candidates, collect_candidates, refreshed_snapshot. keeps_walk;
    auto using kept_in_world, kept_on_client, kept_apply_snapshot, kept_set_candidates, kept_save.
Qed.

Lemma kept_request_snapshot d0 : keeps (kept d0) (peer_request_snapshot me : D _).
Proof. unfold peer_request_snapshot. keeps_walk; auto using kept_on_client, kept_apply_snapshot. Qed.

Lemma kept_request_connection d0 id : keeps (kept d0) (request_peer_connection id : D unit).
Proof. unfold request_peer_connection. keeps_walk; auto using kept_on_client, kept_on_world. Qed.

Lemma kept_list_peers d0 : keeps (kept d0) (peer_list_peers : D _).
Proof. apply kept_on_client. Qed.

Lemma kept_register_peer d0 info :
  keeps (kept d0) (on_node Diag_Core (fun cfg w => register_peer parse_credential cfg w info) : D unit).
Proof. apply kept_on_node. intros v cfg w. apply view_register. Qed.

Lemma kept_reconnect d0 : keeps (kept d0) (peer_reconnect me stun_fuel : D NetworkSnapshot).
Proof.
  unfold peer_reconnect. keeps_walk;
    auto using kept_on_world, kept_set_candidates, kept_apply_snapshot, kept_refresh, kept_save.
  - apply keeps_kept. intros d. destruct (reconnect _ _ _ _ _ _ _ _ _) as [[r c] w']. by apply kept_parts.
  - by apply kept_change_state.
Qed.

(** A successful reconnect leaves the peer settled; it returns the snapshot the
    peer ends with. *)
Lemma peer_reconnect_ok d d' sn :
  peer_reconnect me stun_fuel d = (Ok sn, d') -> settled d' /\ sv_snapshot (dp_state d') = Some sn.
Proof.
  unfold peer_reconnect. intros E. apply hbind_Ok in E as (hosts & d1 & _ & E).
  apply hbind_Ok in E as (w & d2 & _ & E). apply hbind_Ok in E as (frames & d3 & _ & E).
  apply hbind_Ok in E as (? & d4 & [= <- <-] & E). cbn zeta in E.
  apply hbind_Ok in E as (reg & d5 & Er & E).
  destruct (reconnect _ _ _ _ _ _ _ _ _) as [[r c] w'] eqn:Ec. injection Er as Er <-.
  apply rmap_err_Ok in Er as ->. apply reconnect_tells in Ec.
  apply hbind_Ok in E as ([] & d6 & [= <-] & E). apply hbind_Ok in E as ([] & d7 & [= <-] & E).
  apply hbind_Ok in E as (changed & d8 & Ea & E).
  apply peer_apply_snapshot_spec in Ea as (_ & Hcl & Hca & Hsv & Hco & _).
  apply hbind_Ok in E as ([] & d9 & Ef & E). apply refresh_candidates_ok in Ef.
  - apply hbind_Ok in E as (? & d10 & [= <- <-] & E). apply hbind_Ok in E as ([] & d11 & Es & [= <- <-]).
    unfold save in Es. destruct (host_save _) as [[] w2]; [|done]. injection Es as <-.
    destruct Ef as ((sn & local & Q1 & Q2) & F). split; [|cbn; by rewrite Q1].
    split; [|exact F]. by exists sn, local.
  - split; [|by rewrite Hca, Hsv]. rewrite Hca. apply (unique_candidates_spec _).
  - unfold told_ok. by rewrite Hcl, Hca.
  - done.
Qed.

Lemma enter_ok token cred d d' :
  enter me stun_fuel token cred d = (Ok tt, d') -> NoDup (dp_candidates d) -> settled d'.
Proof.
  unfold enter. intros E Hn. apply hbind_Ok in E as (w & d1 & E1 & E).
  assert (dp_candidates d1 = dp_candidates d) as Hc1.
  { unfold on_world, in_world in E1. destruct (host_world _). by injection E1 as _ <-. }
  apply hbind_Ok in E as (? & d2 & [= <- <-] & E). apply hbind_Ok in E as (reg & d3 & E3 & E).
  apply on_client_spec in E3 as (c & c' & r' & _ & E3 & Hc' & Hr & Hc3 & _). apply rmap_err_Ok in Hr as ->.
  apply register_tells in E3. apply hbind_Ok in E as ([] & d4 & [= <-] & E).
  apply hbind_Ok in E as (changed & d5 & Ea & E).
  apply peer_apply_snapshot_spec in Ea as (_ & Hcl & Hca & Hsv & Hco & _). cbn in Hcl, Hca, Hsv.
  apply hbind_Ok in E as ([] & d6 & Ef & E). apply refresh_candidates_ok in Ef.
  - apply hbind_Ok in E as (addrs & d7 & E7 & E). apply hbind_Ok in E as (l & d8 & E8 & [= <-]).
    injection E8 as _ <-. unfold on_world, in_world in E7. destruct (host_local_addrs _). injection E7 as _ <-.
    destruct Ef as ((sn & local & Q) & F). split; [by exists sn, local|exact F].
  - split; [by rewrite Hca, Hc3, Hc1 | by rewrite Hca, Hsv, Hc3].
  - unfold told_ok. by rewrite Hcl, Hca, Hc', E3, Hc3.
  - done.
Qed.

Lemma build_candidates s manual mtu disk w d :
  build_with_provider me stun_fuel s manual mtu disk w = Ok d -> NoDup (dp_candidates d) /\ dp_manual d = manual.
Proof.
  unfold build_with_provider. destruct (host_bind w) as [b w1]. intros E. apply rbind_Ok in E as ([] & _ & E).
  destruct (survey_candidates _ _ _ _) as [[l|e] w2] eqn:Es; [|done]. apply survey_candidates_ok in Es as [Hn _].
  cbn [rbind] in E. destruct (connect_with_doh _ _ _) as [[c|e] w3]; [|done]. by injection E as <-.
Qed.

(** A peer that was opened is settled, its node runs and its state is saved. *)
Lemma open_with_mtu_ok s stun mtu w d :
  open_with_mtu me stun_fuel s stun mtu w = Ok d ->
  settled d /\ n_started (dp_node d) = true /\ dp_disk d = Some (dp_state d).
Proof.
  unfold open_with_mtu. intros E. apply rbind_Ok in E as (d1 & Eb & E).
  apply build_candidates in Eb as [Hn _].
  destruct (hbind _ _ d1) as [[u|e] d2] eqn:E2; [|done]. injection E as <-. destruct u.
  apply hbind_Ok in E2 as ([] & d3 & E3 & E2). apply hbind_Ok in E2 as ([] & d4 & [= <-] & E4).
  apply enter_ok in E3; [|done]. unfold save in E4. destruct (host_save _) as [[] w2]; [|done].
  injection E4 as <-. by split_and!.
Qed.
End peer.
