(* ===== verification/Runtime.v ===== *)
(** * The runtime of a peer

    [vela-diagnostic/src/runtime.rs]: the task that keeps a peer in the network,
    the handle through which packets are sent, and the tasks that forward the
    events of the node.  A turn of [run_loop] is one branch of its [select], with
    the guard of the branch; every turn runs to its end, since the source awaits
    inside a branch.  How the loop of [lib.rs] treats waiting requests is modelled
    beside it; the rest of that loop is in [PeerLoop]. *)
From S2P Require Import Prelude Net Encoding Wire NodeId Snapshot SignedBytes Crypto Ip Replay Path Handshake.
From S2P Require Import NodeState NodePeers NodeSend NodeSession NodeData NodeTimers NodeInv.
From S2P Require Import Control Text CoordDb Coord CoordInv Dns Stun CoordClient NodeView Diagnostic.

Definition MAX_PING_COUNT : Z := 32.
Definition MIN_PING_TIMEOUT : Z := 100 * 10 ^ 6.
Definition MAX_PING_TIMEOUT : Z := 60 * 10 ^ 9.
Definition MAX_CONCURRENT_PINGS : nat := 8.
Definition COMMAND_QUEUE_CAPACITY : nat := 256.
Definition PACKET_QUEUE_CAPACITY : nat := 4096.

Inductive RuntimeCommand : Type :=
| SnapshotExpired
| PingPeer (target : bytes) (count timeout : Z) (reply : nat).

(** [DiagnosticPingResult] and the report made from it; durations in nanoseconds *)
Record PingResult : Type := mkPingResult { pg_path : SocketAddr; pg_rtts : list Z }.

Record PingReport : Type := mkReport {
  rp_target : bytes;
  rp_local_addrs : list SocketAddr;
  rp_path : SocketAddr;
  rp_candidate_type : bytes;
  rp_connect_ms : Z;
  rp_rtts_ms : list Z;
  rp_min_rtt_ms : Z;
  rp_max_rtt_ms : Z;
  rp_avg_rtt_ms : Z
}.

Definition list_min (l : list Z) : option Z :=
  match l with [] => None | x :: l => Some (fold_left Z.min l x) end.
Definition list_max (l : list Z) : option Z :=
  match l with [] => None | x :: l => Some (fold_left Z.max l x) end.

(** [PingReport::from_result]: without round trips the average divides by zero *)
Definition PingReport_from_result (target : bytes) (peer : PeerInfo) (connect_ms : Z)
    (local_addrs : list SocketAddr) (r : PingResult) : option PingReport :=
  let rtts := map (fun d => d / 10 ^ 6) (pg_rtts r) in
  match rtts with
  | [] => None
  | _ =>
      let kind := match List.find (fun c => bool_decide (Candidate_address c = pg_path r)) (candidates peer) with
                  | Some (Host _) => str "host"
                  | Some (ServerReflexive _) => str "server_reflexive"
                  | Some (PeerReflexive _) => str "peer_reflexive"
                  | None => str "observed"
                  end in
      Some (mkReport target local_addrs (pg_path r) kind connect_ms rtts (default 0 (list_min rtts))
              (default 0 (list_max rtts)) (fold_left Z.add rtts 0 / Z.of_nat (length rtts)))
  end.

Definition validate_ping (count timeout : Z) : result unit DiagnosticError :=
  if negb ((1 <=? count) && (count <=? MAX_PING_COUNT)) then Err (InvalidPingRequest (str "count"))
  else if negb ((MIN_PING_TIMEOUT <=? timeout) && (timeout <=? MAX_PING_TIMEOUT))
  then Err (InvalidPingRequest (str "timeout"))
  else Ok tt.

(** [PeerStatus] *)
Record PeerStatus : Type := mkStatus {
  st_server : bytes;
  st_local_addrs : list SocketAddr;
  st_doh_servers : list bytes;
  st_stun_servers : list bytes;
  st_candidates : list Candidate;
  st_credential_expires_at : option Z;
  st_peers : list PeerSummary
}.

(** A ping task: what it was asked, and whether it has a permit *)
Record PingTask : Type := mkPingTask {
  pt_peer : PeerInfo; pt_count : Z; pt_timeout : Z; pt_reply : nat; pt_running : bool
}.

Section runtime.
Context {HH : Hash} {HSg : SignatureOps} {HA : AeadOps} {HK : HkdfOps} {HN : NoiseOps}.
Context {HT : TextOps} {J : ControlJson}.
Context {W : Type} {Sk : StunSocket W} {Hp : Http W} {Tr : Transport W} {Ho : PeerHost W}.
Context (me : Local) (stun_fuel : nat).
(** The next element of a hash set *)
Context (first : gset bytes -> option bytes).

Abbreviation N := (@NState HN).
Abbreviation Peer := (@Peer HN W).

(** [DiagnosticRuntime] with the channels it shares with the handle, and the
    variables of [run_loop] *)
Record Runtime : Type := mkRun {
  ru_peer : Peer;
  ru_commands : list RuntimeCommand;
  ru_published : option NetworkSnapshot;
  ru_mtu : Z;
  ru_connected : bool;
  ru_error : option DiagnosticError;
  ru_pending : gset bytes;
  ru_peers : list PeerSummary;
  ru_backoff : Z;
  ru_wakeup : Z;
  ru_last_mtu : option Z;
  ru_notified : bool;
  ru_connections : list bytes;
  ru_pings : list PingTask;
  ru_replies : list (nat * result PingReport DiagnosticError);
  ru_events : list VelaEvent;
  ru_packets : list (bytes * IpPacket);
  ru_drops : Z;
  ru_status : option (PeerStatus * bool * option DiagnosticError)
}.

Definition set_ru_peer x r := mkRun x (ru_commands r) (ru_published r) (ru_mtu r) (ru_connected r) (ru_error r) (ru_pending r) (ru_peers r) (ru_backoff r) (ru_wakeup r) (ru_last_mtu r) (ru_notified r) (ru_connections r) (ru_pings r) (ru_replies r) (ru_events r) (ru_packets r) (ru_drops r) (ru_status r).
Definition set_ru_commands x r := mkRun (ru_peer r) x (ru_published r) (ru_mtu r) (ru_connected r) (ru_error r) (ru_pending r) (ru_peers r) (ru_backoff r) (ru_wakeup r) (ru_last_mtu r) (ru_notified r) (ru_connections r) (ru_pings r) (ru_replies r) (ru_events r) (ru_packets r) (ru_drops r) (ru_status r).
Definition set_ru_published x r := mkRun (ru_peer r) (ru_commands r) x (ru_mtu r) (ru_connected r) (ru_error r) (ru_pending r) (ru_peers r) (ru_backoff r) (ru_wakeup r) (ru_last_mtu r) (ru_notified r) (ru_connections r) (ru_pings r) (ru_replies r) (ru_events r) (ru_packets r) (ru_drops r) (ru_status r).
Definition set_ru_mtu x r := mkRun (ru_peer r) (ru_commands r) (ru_published r) x (ru_connected r) (ru_error r) (ru_pending r) (ru_peers r) (ru_backoff r) (ru_wakeup r) (ru_last_mtu r) (ru_notified r) (ru_connections r) (ru_pings r) (ru_replies r) (ru_events r) (ru_packets r) (ru_drops r) (ru_status r).
Definition set_ru_connected x r := mkRun (ru_peer r) (ru_commands r) (ru_published r) (ru_mtu r) x (ru_error r) (ru_pending r) (ru_peers r) (ru_backoff r) (ru_wakeup r) (ru_last_mtu r) (ru_notified r) (ru_connections r) (ru_pings r) (ru_replies r) (ru_events r) (ru_packets r) (ru_drops r) (ru_status r).
Definition set_ru_error x r := mkRun (ru_peer r) (ru_commands r) (ru_published r) (ru_mtu r) (ru_connected r) x (ru_pending r) (ru_peers r) (ru_backoff r) (ru_wakeup r) (ru_last_mtu r) (ru_notified r) (ru_connections r) (ru_pings r) (ru_replies r) (ru_events r) (ru_packets r) (ru_drops r) (ru_status r).
Definition set_ru_pending x r := mkRun (ru_peer r) (ru_commands r) (ru_published r) (ru_mtu r) (ru_connected r) (ru_error r) x (ru_peers r) (ru_backoff r) (ru_wakeup r) (ru_last_mtu r) (ru_notified r) (ru_connections r) (ru_pings r) (ru_replies r) (ru_events r) (ru_packets r) (ru_drops r) (ru_status r).
Definition set_ru_peers x r := mkRun (ru_peer r) (ru_commands r) (ru_published r) (ru_mtu r) (ru_connected r) (ru_error r) (ru_pending r) x (ru_backoff r) (ru_wakeup r) (ru_last_mtu r) (ru_notified r) (ru_connections r) (ru_pings r) (ru_replies r) (ru_events r) (ru_packets r) (ru_drops r) (ru_status r).
Definition set_ru_backoff x r := mkRun (ru_peer r) (ru_commands r) (ru_published r) (ru_mtu r) (ru_connected r) (ru_error r) (ru_pending r) (ru_peers r) x (ru_wakeup r) (ru_last_mtu r) (ru_notified r) (ru_connections r) (ru_pings r) (ru_replies r) (ru_events r) (ru_packets r) (ru_drops r) (ru_status r).
Definition set_ru_wakeup x r := mkRun (ru_peer r) (ru_commands r) (ru_published r) (ru_mtu r) (ru_connected r) (ru_error r) (ru_pending r) (ru_peers r) (ru_backoff r) x (ru_last_mtu r) (ru_notified r) (ru_connections r) (ru_pings r) (ru_replies r) (ru_events r) (ru_packets r) (ru_drops r) (ru_status r).
Definition set_ru_last_mtu x r := mkRun (ru_peer r) (ru_commands r) (ru_published r) (ru_mtu r) (ru_connected r) (ru_error r) (ru_pending r) (ru_peers r) (ru_backoff r) (ru_wakeup r) x (ru_notified r) (ru_connections r) (ru_pings r) (ru_replies r) (ru_events r) (ru_packets r) (ru_drops r) (ru_status r).
Definition set_ru_notified x r := mkRun (ru_peer r) (ru_commands r) (ru_published r) (ru_mtu r) (ru_connected r) (ru_error r) (ru_pending r) (ru_peers r) (ru_backoff r) (ru_wakeup r) (ru_last_mtu r) x (ru_connections r) (ru_pings r) (ru_replies r) (ru_events r) (ru_packets r) (ru_drops r) (ru_status r).
Definition set_ru_connections x r := mkRun (ru_peer r) (ru_commands r) (ru_published r) (ru_mtu r) (ru_connected r) (ru_error r) (ru_pending r) (ru_peers r) (ru_backoff r) (ru_wakeup r) (ru_last_mtu r) (ru_notified r) x (ru_pings r) (ru_replies r) (ru_events r) (ru_packets r) (ru_drops r) (ru_status r).
Definition set_ru_pings x r := mkRun (ru_peer r) (ru_commands r) (ru_published r) (ru_mtu r) (ru_connected r) (ru_error r) (ru_pending r) (ru_peers r) (ru_backoff r) (ru_wakeup r) (ru_last_mtu r) (ru_notified r) (ru_connections r) x (ru_replies r) (ru_events r) (ru_packets r) (ru_drops r) (ru_status r).
Definition set_ru_replies x r := mkRun (ru_peer r) (ru_commands r) (ru_published r) (ru_mtu r) (ru_connected r) (ru_error r) (ru_pending r) (ru_peers r) (ru_backoff r) (ru_wakeup r) (ru_last_mtu r) (ru_notified r) (ru_connections r) (ru_pings r) x (ru_events r) (ru_packets r) (ru_drops r) (ru_status r).
Definition set_ru_events x r := mkRun (ru_peer r) (ru_commands r) (ru_published r) (ru_mtu r) (ru_connected r) (ru_error r) (ru_pending r) (ru_peers r) (ru_backoff r) (ru_wakeup r) (ru_last_mtu r) (ru_notified r) (ru_connections r) (ru_pings r) (ru_replies r) x (ru_packets r) (ru_drops r) (ru_status r).
Definition set_ru_packets x r := mkRun (ru_peer r) (ru_commands r) (ru_published r) (ru_mtu r) (ru_connected r) (ru_error r) (ru_pending r) (ru_peers r) (ru_backoff r) (ru_wakeup r) (ru_last_mtu r) (ru_notified r) (ru_connections r) (ru_pings r) (ru_replies r) (ru_events r) x (ru_drops r) (ru_status r).
Definition set_ru_drops x r := mkRun (ru_peer r) (ru_commands r) (ru_published r) (ru_mtu r) (ru_connected r) (ru_error r) (ru_pending r) (ru_peers r) (ru_backoff r) (ru_wakeup r) (ru_last_mtu r) (ru_notified r) (ru_connections r) (ru_pings r) (ru_replies r) (ru_events r) (ru_packets r) x (ru_status r).
Definition set_ru_status x r := mkRun (ru_peer r) (ru_commands r) (ru_published r) (ru_mtu r) (ru_connected r) (ru_error r) (ru_pending r) (ru_peers r) (ru_backoff r) (ru_wakeup r) (ru_last_mtu r) (ru_notified r) (ru_connections r) (ru_pings r) (ru_replies r) (ru_events r) (ru_packets r) (ru_drops r) x.

Abbreviation R A := (handler Runtime DiagnosticError A).
Abbreviation on_world := (Diagnostic.on_world (HN := HN)).

(** ** Steps of a turn *)

Definition on_peer {A} (m : handler Peer DiagnosticError A) : R A := fun r =>
  let '(a, d) := m (ru_peer r) in (a, set_ru_peer d r).

(** [snapshot_tx.send_replace] *)
Definition publish_snapshot (sn : NetworkSnapshot) : R unit :=
  let! _ := hmodify (set_ru_published (Some sn)) in hmodify (set_ru_notified false).

(** The connection is given up: try again after the backoff. *)
Definition disconnect (e : DiagnosticError) : R unit :=
  let! w := on_peer (on_world host_world) in
  hmodify (fun r => set_ru_wakeup (w_instant w + ru_backoff r * 10 ^ 9)
                      (set_ru_connected false (set_ru_error (Some e) r))).

(** An error of a request: the loop ends with it unless it is retryable. *)
Definition lost (e : DiagnosticError) : R unit :=
  if is_retryable_control_error e then disconnect e else hfail e.

(** A request whose failure may be retried; [Some] what it gave *)
Definition attempt {A} (m : handler Peer DiagnosticError A) : R (option A) :=
  let! res := (htry (on_peer m) : R (result A DiagnosticError)) in
  match res with
  | Ok a => hret (Some a)
  | Err e => let! _ := lost e in hret None
  end.

Definition refresh_after_config_change : R unit :=
  let! _ := attempt (refresh_candidates me stun_fuel) in hret tt.

(** [publish_state] *)
Definition publish_state : R unit :=
  let! addrs := on_peer (on_world host_local_addrs) in
  hmodify (fun r =>
    let d := ru_peer r in let s := dp_state d in
    set_ru_status (Some (mkStatus (sv_server s) (match addrs with Ok l => l | Err _ => [] end) (sv_doh_servers s)
        (sv_stun_servers s) (dp_candidates d) (cred_expires_at <$> sv_credential s) (ru_peers r),
      ru_connected r, ru_error r)) r).

(** [effective_virtual_mtu] over the peers of the node *)
Definition node_mtu (d : Peer) : Z :=
  effective_virtual_mtu (virtual_mtu (dp_config d))
    (omap (fun kv => as_path_mtu <$> ps_active (peer_at kv.2 (dp_node d))) (map_to_list (n_peers (dp_node d)))).

(** ** The branches *)

(** [RuntimeCommand::SnapshotExpired] *)
Definition on_snapshot_expired : R unit :=
  let! r := hget in
  if ru_connected r && ru_notified r then
    let! res := (htry (on_peer (peer_request_snapshot me)) : R (result _ DiagnosticError)) in
    match res with
    | Ok (sn, changed) =>
        let! _ := publish_snapshot sn in
        let! _ := hmodify (set_ru_error None) in
        if changed then refresh_after_config_change else hret tt
    | Err e =>
        if is_retryable_control_error e || is_snapshot_request_unsupported e then disconnect e else hfail e
    end
  else hret tt.

Definition reply (to_ : nat) (x : result PingReport DiagnosticError) : R unit :=
  hmodify (fun r => set_ru_replies (ru_replies r ++ [(to_, x)]) r).

Definition start_ping (target : bytes) (count timeout : Z) (to_ : nat) : R unit :=
  match validate_ping count timeout with
  | Err e => reply to_ (Err e)
  | Ok _ =>
      let! r := hget in
      match sv_snapshot (dp_state (ru_peer r)) ≫= (fun sn =>
              List.find (fun p => bool_decide (node_id p = target)) (peers sn)) with
      | None => reply to_ (Err (InvalidPingRequest (str "target peer is not present in the active snapshot")))
      | Some peer =>
          let! res := (htry (on_peer (on_node Diag_Core (fun cfg w => register_peer parse_credential cfg w peer)))
                       : R (result unit DiagnosticError)) in
          match res with
          | Err e => reply to_ (Err e)
          | Ok _ => hmodify (fun r => set_ru_pings (ru_pings r ++ [mkPingTask peer count timeout to_ false]) r)
          end
      end
  end.

Definition on_command : R bool :=
  let! r := hget in
  match ru_commands r with
  | [] => hret false
  | c :: rest =>
      let! _ := hmodify (set_ru_commands rest) in
      let! _ := match c with
                | SnapshotExpired => on_snapshot_expired
                | PingPeer target count timeout to_ => start_ping target count timeout to_
                end in
      hret false
  end.

(** A message of the server *)
Definition on_message (m : ControlMessage) : R unit :=
  match m with
  | ConnectSignal from to_ =>
      if bool_decide (to_ = my_id me) then
        let! w := on_peer (on_world host_world) in
        let! r := hget in
        let! remote := hlift (rmap_err Coordination
                         (verify_public_peer (dp_client (ru_peer r)) (w_unix w) from)) in
        let! _ := on_peer (on_node Diag_Core (fun cfg w => register_peer parse_credential cfg w remote)) in
        hmodify (fun r => set_ru_connections (ru_connections r ++ [node_id remote]) r)
      else hret tt
  | SnapshotMsg sn =>
      let! changed := on_peer (peer_apply_snapshot me sn) in
      let! _ := publish_snapshot sn in
      if changed then refresh_after_config_change else hret tt
  | Revoke id => if bool_decide (id = my_id me) then hfail Diag_Revoked else hret tt
  | _ => hret tt
  end.

(** [client.recv()]; [Client_Timeout] is waiting, and the branch is not taken. *)
Definition on_receive : R unit :=
  let! res := (htry (on_peer (on_client recv)) : R (result ControlMessage DiagnosticError)) in
  match res with
  | Ok m => on_message m
  | Err (Coordination (Client_Timeout _)) => hret tt
  | Err e => lost e
  end.

(** The requests that waited for a connection; the number of them bounds the loop. *)
Fixpoint flush_pending (fuel : nat) : R unit :=
  match fuel with
  | O => hret tt
  | S fuel =>
      let! r := hget in
      match first (ru_pending r) with
      | None => hret tt
      | Some id =>
          let! done := attempt (request_peer_connection id) in
          match done with
          | None => hret tt
          | Some _ =>
              let! _ := hmodify (fun r => set_ru_pending (ru_pending r ∖ {[id]}) r) in
              flush_pending fuel
          end
      end
  end.

Definition report_mtu (mtu : Z) : R unit :=
  let! _ := on_peer (on_client (update_runtime_status mtu)) in
  hmodify (set_ru_last_mtu (Some mtu)).

Definition on_reconnect : R unit :=
  let! res := (htry (on_peer (peer_reconnect me stun_fuel)) : R (result NetworkSnapshot DiagnosticError)) in
  match res with
  | Ok sn =>
      let! _ := publish_snapshot sn in
      let! _ := hmodify (fun r => set_ru_backoff 1 (set_ru_error None (set_ru_connected true r))) in
      let! r := hget in
      let! _ := report_mtu (node_mtu (ru_peer r)) in
      flush_pending (size (ru_pending r))
  | Err e =>
      if is_retryable_control_error e then
        let! _ := disconnect e in
        hmodify (fun r => set_ru_backoff (Z.min (ru_backoff r * 2) 30) r)
      else hfail e
  end.

Definition on_peers_tick : R unit :=
  let! res := attempt peer_list_peers in
  match res with
  | Some l => hmodify (fun r => set_ru_error None (set_ru_peers l r))
  | None => hret tt
  end.

(** One event of the node: whether the state is to be published *)
Definition on_event (ev : VelaEvent) : R bool :=
  match ev with
  | PeerConnectionRequested id | PeerReconnectRequested id =>
      let! r := hget in
      if negb (ru_connected r) then
        let! _ := hmodify (fun r => set_ru_pending ({[id]} ∪ ru_pending r) r) in hret false
      else
        let! done := attempt (request_peer_connection id) in
        match done with
        | Some _ => hret true
        | None => let! _ := hmodify (fun r => set_ru_pending ({[id]} ∪ ru_pending r) r) in hret true
        end
  | TransportFailed => hfail Diag_TransportFailed
  | _ => hret true
  end.

Fixpoint on_events (l : list VelaEvent) : R bool :=
  match l with
  | [] => hret false
  | ev :: l => let! a := on_event ev in let! b := on_events l in hret (a || b)
  end.

(** The tail of the branch of the events *)
Definition after_events : R unit :=
  let! r := hget in
  let mtu := node_mtu (ru_peer r) in
  let! _ := hmodify (set_ru_mtu mtu) in
  let! _ := (if ru_connected r && negb (bool_decide (ru_last_mtu r = Some mtu)) then
               let! told := attempt (on_client (update_runtime_status mtu)) in
               match told with
               | Some _ => hmodify (set_ru_last_mtu (Some mtu))
               | None => hret tt
               end
             else hret tt) in
  publish_state.

Definition on_event_batch : R unit :=
  let! r := hget in
  match ru_events r with
  | [] => hret tt
  | _ =>
      let! _ := hmodify (set_ru_events (drop 64 (ru_events r))) in
      let! publish := on_events (take 64 (ru_events r)) in
      if publish then after_events else hret tt
  end.

(** ** The loop *)

Inductive Wake : Type :=
| WakeStop | WakeCommand | WakeMessage | WakeRefresh | WakeReconnect | WakeDashboard | WakePeers | WakeEvents.

(** One turn of [run_loop], with the guards of its branches: whether it returns *)
Definition turn (k : Wake) : R bool :=
  let! r := hget in
  let connected := ru_connected r in
  match k with
  | WakeStop => hret true
  | WakeCommand => on_command
  | WakeMessage => if connected then let! _ := on_receive in hret false else hret false
  | WakeRefresh => if connected
                   then let! _ := attempt (refresh_candidates me stun_fuel) in hret false else hret false
  | WakeReconnect => if connected then hret false else let! _ := on_reconnect in hret false
  | WakeDashboard => let! _ := publish_state in hret false
  | WakePeers => if connected then let! _ := on_peers_tick in hret false else hret false
  | WakeEvents => let! _ := on_event_batch in hret false
  end.

(** The start of [run_loop] *)
Definition begin_loop : R unit :=
  let! l := on_peer peer_list_peers in
  let! _ := hmodify (set_ru_peers l) in
  let! _ := publish_state in
  let! r := hget in
  report_mtu (node_mtu (ru_peer r)).

Definition new_runtime (l : list PeerSummary) (d : Peer) : Runtime :=
  mkRun d [] (sv_snapshot (dp_state d)) (node_mtu d) true None ∅ l 1 0 None false [] [] [] [] [] 0 None.

(** [start_with_lock], apart from the local control service *)
Definition start_with_lock (d : Peer) : result Runtime DiagnosticError :=
  match peer_list_peers d with
  | (Ok l, d) => Ok (new_runtime l d)
  | (Err e, _) => Err e
  end.

(** ** The tasks beside the loop *)

(** [forward_runtime_data_events]: a full queue drops the packet and counts it *)
Definition forward_packet (ev : VelaEvent) (r : Runtime) : Runtime :=
  match ev with
  | IpPacketEvent peer packet =>
      if (length (ru_packets r) <? PACKET_QUEUE_CAPACITY)%nat
      then set_ru_packets (ru_packets r ++ [(peer, packet)]) r
      else set_ru_drops (wrap 64 (ru_drops r + 1)) r
  | _ => r
  end.

Definition forward_data (r : Runtime) : Runtime :=
  let '(batch, n) := next_data_event_batch 64 (dp_node (ru_peer r)) in
  fold_left (fun r ev => forward_packet ev r) batch (set_ru_peer (set_dp_node n (ru_peer r)) r).

(** [forward_runtime_control_events] *)
Definition forward_control (r : Runtime) : Runtime :=
  let '(batch, n) := next_control_event_batch 16 (dp_node (ru_peer r)) in
  set_ru_events (ru_events r ++ batch) (set_ru_peer (set_dp_node n (ru_peer r)) r).

(** [RuntimeHandle]: the answer to a packet of an expired snapshot wakes the
    loop, once until a packet is sent again. *)
Definition note_result (res : result unit SendError) (r : Runtime) : Runtime :=
  match res with
  | Err Send_SnapshotExpired =>
      if ru_notified r then r
      else if (length (ru_commands r) <? COMMAND_QUEUE_CAPACITY)%nat
           then set_ru_notified true (set_ru_commands (ru_commands r ++ [SnapshotExpired]) r)
           else r
  | Ok _ => set_ru_notified false r
  | Err _ => r
  end.

Definition handle_send (packet : bytes) (r : Runtime) : result unit SendError * Runtime :=
  let d := ru_peer r in
  let '(w, world) := host_world (dp_world d) in
  let '(res, n) := send_ip (dp_config d) w packet (dp_node d) in
  (res, note_result res (set_ru_peer (set_dp_node n (set_dp_world world d)) r)).

Definition handle_send_batch (packets : list bytes) (r : Runtime) : list (result unit SendError) * Runtime :=
  let d := ru_peer r in
  let '(w, world) := host_world (dp_world d) in
  let '(res, n) := send_ip_batch (dp_config d) w packets (dp_node d) in
  let results := match res with Ok slots => omap id slots | Err _ => [] end in
  (results, fold_left (fun r x => note_result x r) results (set_ru_peer (set_dp_node n (set_dp_world world d)) r)).

(** [commands.send] of the local control service, which waits for room *)
Definition queue_command (c : RuntimeCommand) (r : Runtime) : Runtime :=
  if (length (ru_commands r) <? COMMAND_QUEUE_CAPACITY)%nat
  then set_ru_commands (ru_commands r ++ [c]) r else r.

(** A ping task gets a permit, and ends with what connecting and pinging gave; a
    task that panics sends no reply. *)
Definition ping_admitted (i : nat) (r : Runtime) : Runtime :=
  if (length (List.filter pt_running (ru_pings r)) <? MAX_CONCURRENT_PINGS)%nat
  then set_ru_pings (alter (fun t => mkPingTask (pt_peer t) (pt_count t) (pt_timeout t) (pt_reply t) true) i
                       (ru_pings r)) r
  else r.

Definition ping_ended (i : nat) (outcome : result (Z * list SocketAddr * PingResult) DiagnosticError) (r : Runtime)
    : Runtime :=
  match ru_pings r !! i with
  | Some t =>
      let report :=
        match outcome with
        | Err e => Some (Err e)
        | Ok (connect_ms, addrs, result) =>
            Ok <$> PingReport_from_result (node_id (pt_peer t)) (pt_peer t) connect_ms addrs result
        end in
      set_ru_replies (ru_replies r ++ match report with Some x => [(pt_reply t, x)] | None => [] end)
        (set_ru_pings (delete i (ru_pings r)) r)
  | None => r
  end.

(** ** The loop of [lib.rs] *)

(** After a reconnect [DiagnosticPeer::run_loop] takes the waiting requests out
    of the set first; [ids] are they, in the order of the set. *)
Fixpoint flush_taken (ids : list bytes) : R unit :=
  match ids with
  | [] => hret tt
  | id :: ids =>
      let! done := attempt (request_peer_connection id) in
      match done with
      | Some _ => flush_taken ids
      | None => hmodify (fun r => set_ru_pending ({[id]} ∪ ru_pending r) r)
      end
  end.

Definition flush_pending_lib (order : list bytes -> list bytes) : R unit :=
  let! r := hget in
  let! _ := hmodify (set_ru_pending ∅) in
  flush_taken (order (elements (ru_pending r))).

End runtime.
