(* ===== verification/RuntimeInv.v ===== *)
(** * The runtime keeps the peer in the network

    The invariant of the loop of [runtime.rs] between its turns, interleaved with
    the tasks that share its state: the node and the saved state agree, a peer
    that counts as connected has told the server the candidates it holds, a
    packet that met an expired snapshot is never forgotten, and no request for a
    connection is lost. *)
From S2P Require Import Prelude Net Encoding Wire NodeId Snapshot SignedBytes Crypto Ip Replay Path Handshake.
From S2P Require Import NodeState NodePeers NodeSend NodeSession NodeData NodeTimers NodeInv.
From S2P Require Import Control Text CoordDb Coord CoordInv Dns Stun CoordClient NodeView Diagnostic DiagnosticInv Runtime.

Section runtime.
Context {HH : Hash} {HSg : SignatureOps} {HA : AeadOps} {HK : HkdfOps} {HN : NoiseOps}.
Context {HT : TextOps} {J : ControlJson} {JL : ControlJsonLaws J}.
Context {W : Type} {Sk : StunSocket W} {Hp : Http W} {Tr : Transport W} {Ho : PeerHost W}.
Context (me : Local) (stun_fuel : nat) (first : gset bytes -> option bytes).

Abbreviation Peer := (@Peer HN W).
Abbreviation Runtime := (@Runtime HN W).
Abbreviation D A := (handler Peer DiagnosticError A).
Abbreviation R A := (handler Runtime DiagnosticError A).

(** ** Operations that leave a peer settled *)

Definition still (d d' : Peer) : Prop :=
  told (dp_client d') = told (dp_client d) /\ dp_candidates d' = dp_candidates d
  /\ dp_state d' = dp_state d /\ view (dp_node d') = view (dp_node d)
  /\ dp_manual d' = dp_manual d /\ dp_config d' = dp_config d.

Lemma still_refl d : still d d.
Proof. by split_and!. Qed.

Lemma still_trans d1 d2 d3 : still d1 d2 -> still d2 d3 -> still d1 d3.
Proof. intros (?&?&?&?&?&?) (?&?&?&?&?&?). split_and!; congruence. Qed.

Lemma still_kept d d' : still d d' -> kept d d'.
Proof. intros (_ & _ & Hs & Hv & Hm & Hc). apply kept_parts; try done; by rewrite Hs. Qed.

Lemma still_settled d d' : still d d' -> settled d -> settled d'.
Proof.
  intros Hst (Hc & Ht & [Hn Hsv] & Hne). pose proof (still_kept _ _ Hst) as (_ & _ & _ & Hk).
  destruct Hst as (T & C & S & _). split_and!; [by apply Hk|unfold told_ok; congruence| |by rewrite C].
  split; [by rewrite C | by rewrite C, S].
Qed.

Section fixed.
Context (d0 : Peer).

Lemma keeps_still {A} (m : D A) : (forall d, still d (snd (m d))) -> keeps (still d0) m.
Proof. intros Hm d Hd. eapply still_trans; [exact Hd|apply Hm]. Qed.

Lemma still_on_world {A} (f : W -> A * W) : keeps (still d0) (on_world f : D A).
Proof. apply keeps_still. intros d. unfold on_world, in_world. destruct (f (dp_world d)). by split_and!. Qed.

Lemma still_on_client {A} (m : handler Client CoordClientError A) :
  (forall c r c', m c = (r, c') -> hushed c c') -> keeps (still d0) (on_client m : D A).
Proof.
  intros Hm. apply keeps_still. intros d. destruct (on_client m d) as [r d'] eqn:E. cbn [snd].
  pose proof (on_client_hushed m d d' r Hm E) as (T & C & S & Nd).
  apply on_client_spec in E as (c & c' & r' & _ & _ & _ & _ & _ & _ & _ & M & G). split_and!; try done. by rewrite Nd.
Qed.

Lemma still_on_node {E A} wrap (m : NodeConfig -> World -> handler (Node (@NState HN)) E A) :
  (forall v cfg w, keeps (sees v) (m cfg w)) -> keeps (still d0) (on_node wrap m : D A).
Proof.
  intros Hm. apply keeps_bind; [apply still_on_world|]. intros w. apply keeps_still. intros d.
  pose proof (Hm (view (dp_node d)) (dp_config d) w (dp_node d) eq_refl) as Hv.
  destruct (m (dp_config d) w (dp_node d)) as [r n]. by split_and!.
Qed.

Lemma still_request_connection id : keeps (still d0) (request_peer_connection id : D unit).
Proof.
  unfold request_peer_connection. keeps_walk; [apply still_on_world|].
  apply still_on_client. intros c r c'. apply lookup_peer_hushed.
Qed.

Lemma still_list_peers : keeps (still d0) (peer_list_peers : D _).
Proof. apply still_on_client. intros c r c'. apply list_peers_hushed. Qed.

Lemma still_runtime_status mtu : keeps (still d0) (on_client (update_runtime_status mtu) : D unit).
Proof. apply still_on_client. intros c r c'. apply runtime_status_hushed. Qed.

Lemma still_recv : keeps (still d0) (on_client recv : D _).
Proof. apply still_on_client. intros c r c'. apply recv_hushed. Qed.

Lemma still_register_peer info :
  keeps (still d0) (on_node Diag_Core (fun cfg w => register_peer parse_credential cfg w info) : D unit).
Proof. apply still_on_node. intros v cfg w. apply view_register. Qed.
End fixed.

(** ** The invariant *)

Definition base (r : Runtime) : Prop :=
  coherent (ru_peer r) /\ 1 <= ru_backoff r <= 30
  /\ (forall sn, ru_published r = Some sn -> generation sn <= peer_generation (ru_peer r))
  /\ (length (ru_commands r) <= COMMAND_QUEUE_CAPACITY)%nat
  /\ (length (ru_packets r) <= PACKET_QUEUE_CAPACITY)%nat
  /\ (length (List.filter pt_running (ru_pings r)) <= MAX_CONCURRENT_PINGS)%nat.

(** A peer that counts as connected is settled. *)
Definition online (r : Runtime) : Prop := ru_connected r = true -> settled (ru_peer r).

(** A packet that met an expired snapshot: the loop has the command to ask for a
    new one, or is about to reconnect. *)
Definition awake (r : Runtime) : Prop :=
  ru_notified r = true -> SnapshotExpired ∈ ru_commands r \/ ru_connected r = false.

Definition runtime_inv (r : Runtime) : Prop := base r /\ online r /\ awake r.

(** What steps inside a turn leave alone *)
Definition steady (r r' : Runtime) : Prop :=
  kept (ru_peer r) (ru_peer r') /\ ru_backoff r' = ru_backoff r /\ ru_published r' = ru_published r
  /\ ru_commands r' = ru_commands r /\ ru_packets r' = ru_packets r /\ ru_pings r' = ru_pings r
  /\ ru_notified r' = ru_notified r.

Lemma steady_base r r' : steady r r' -> base r -> base r'.
Proof.
  intros ((_ & _ & Hg & Hk) & E1 & E2 & E3 & E4 & E5 & _) (H1 & H2 & H3 & H4 & H5 & H6).
  unfold base. rewrite E1, E2, E3, E4, E5. split_and!; try done; try apply H2; [by apply Hk|].
  intros sn Hs. specialize (H3 sn Hs). lia.
Qed.

Lemma steady_refl r : steady r r.
Proof. split; [apply kept_refl|]. by split_and!. Qed.

Lemma steady_trans r1 r2 r3 : steady r1 r2 -> steady r2 r3 -> steady r1 r3.
Proof. intros (K1 & ?&?&?&?&?&?) (K2 & ?&?&?&?&?&?). split; [by eapply kept_trans|]. split_and!; congruence. Qed.

(** ** Steps *)

Lemma on_peer_run {A} (m : D A) r a r' :
  on_peer m r = (a, r') -> exists d, m (ru_peer r) = (a, d) /\ r' = set_ru_peer d r.
Proof. unfold on_peer. destruct (m (ru_peer r)) as [x d]. intros [= <- <-]. eauto. Qed.

Lemma steady_peer d r : kept (ru_peer r) d -> steady r (set_ru_peer d r).
Proof. intros Hk. split; [done|]. by split_and!. Qed.

Lemma keeps_run {A} (P : Peer -> Peer -> Prop) (m : D A) d a d' :
  (forall d, P d d) -> (forall d0, keeps (P d0) m) -> m d = (a, d') -> P d d'.
Proof. intros Hr Hm E. specialize (Hm d d (Hr d)). by rewrite E in Hm. Qed.

Lemma disconnect_spec e r a r' :
  disconnect e r = (Ok a, r') -> steady r r' /\ ru_connected r' = false /\ ru_pending r' = ru_pending r
    /\ ru_events r' = ru_events r /\ dp_client (ru_peer r') = dp_client (ru_peer r)
    /\ ru_replies r' = ru_replies r /\ ru_error r' = Some e.
Proof.
  intros E. apply hbind_Ok in E as (w & r1 & E1 & [= _ <-]). apply on_peer_run in E1 as (d & E1 & ->).
  assert (Hc : dp_client d = dp_client (ru_peer r)).
  { unfold on_world, in_world in E1. destruct (host_world _). by injection E1 as _ <-. }
  eapply (keeps_run still), still_kept in E1; [|apply still_refl|intros; apply still_on_world].
  split; [|by split_and!]. split; [done|]. by split_and!.
Qed.

(** A request whose failure is retried: it succeeds, or the connection is given up. *)
Lemma attempt_spec {A} (m : D A) r o r' :
  (forall d0, keeps (kept d0) m) -> attempt m r = (Ok o, r') ->
  steady r r' /\ ru_pending r' = ru_pending r /\ ru_events r' = ru_events r /\ ru_replies r' = ru_replies r
  /\ match o with
     | Some a => exists d, m (ru_peer r) = (Ok a, d) /\ r' = set_ru_peer d r
     | None => ru_connected r' = false
     end.
Proof.
  intros Hk E. unfold attempt in E. apply hbind_Ok in E as (res & r1 & E1 & E).
  unfold htry in E1. destruct (on_peer m r) as [x r2] eqn:E2. injection E1 as <- <-.
  apply on_peer_run in E2 as (d & E2 & ->). pose proof E2 as Hm. apply (keeps_run kept) in Hm; [|apply kept_refl|done].
  destruct x as [a|e].
  - injection E as <- <-. split; [by apply steady_peer|]. split_and!; eauto.
  - apply hbind_Ok in E as ([] & r3 & E3 & [= <- <-]). unfold lost in E3.
    destruct (is_retryable_control_error e); [|done].
    apply disconnect_spec in E3 as (Hc & Hf & Hpe & Hev & _ & Hre & _). split_and!; try done.
    eapply steady_trans; [by apply (steady_peer d)|exact Hc].
Qed.

(** The same for a request after which a settled peer is settled *)
Lemma attempt_online {A} (m : D A) r o r' :
  (forall d0, keeps (kept d0) m) ->
  (forall a d, m (ru_peer r) = (Ok a, d) -> settled (ru_peer r) -> settled d) ->
  attempt m r = (Ok o, r') -> online r -> online r'.
Proof.
  intros Hk Hs E Hon Hc. apply attempt_spec in E as (_ & _ & _ & _ & E); [|done].
  destruct o as [a|]; [|congruence]. destruct E as (d & E & ->). by apply (Hs a d), Hon.
Qed.

Lemma still_settles {A} (m : D A) r a d :
  (forall d0, keeps (still d0) m) -> m (ru_peer r) = (Ok a, d) -> settled (ru_peer r) -> settled d.
Proof. intros Hm E. eapply still_settled, (keeps_run still); [apply still_refl|exact Hm|exact E]. Qed.

Lemma refresh_settles d d' u :
  refresh_candidates me stun_fuel d = (Ok u, d') -> settled d -> settled d'.
Proof. destruct u. intros E (Hc & Ht & Hn & _). by eapply refresh_candidates_ok. Qed.

Lemma refresh_after_online r u r' :
  refresh_after_config_change me stun_fuel r = (Ok u, r') -> online r ->
  steady r r' /\ online r' /\ ru_pending r' = ru_pending r /\ ru_events r' = ru_events r /\ ru_replies r' = ru_replies r.
Proof.
  unfold refresh_after_config_change. intros E Hon. apply hbind_Ok in E as (o & r1 & E & [= _ <-]).
  pose proof E as E'. apply attempt_spec in E as (Hc & Hpe & Hev & Hre & _); [|intros; apply kept_refresh].
  split_and!; try done. eapply attempt_online; [..|exact E'|done]; [intros; apply kept_refresh|].
  intros a d. apply refresh_settles.
Qed.

Lemma coherent_generation (d : Peer) sn :
  coherent d -> sv_snapshot (dp_state d) = Some sn -> peer_generation d = generation sn.
Proof. intros (sn' & local & E & Hv & _) E'. unfold peer_generation. rewrite Hv. by simplify_eq. Qed.

(** A snapshot that was applied *)
Lemma apply_settles sn d b d' :
  peer_apply_snapshot me sn d = (Ok b, d') -> settled d ->
  settled d' /\ sv_snapshot (dp_state d') = Some sn.
Proof.
  intros E (_ & Ht & [Hn Hs] & Hne). apply peer_apply_snapshot_spec in E as (_ & Hcl & Hca & Hsv & Hc & Hsn & _).
  split; [|done]. split_and!; [done|unfold told_ok; congruence| |by rewrite Hca]. split; [by rewrite Hca|congruence].
Qed.

Lemma request_settles d sn b d' :
  peer_request_snapshot me d = (Ok (sn, b), d') -> settled d ->
  settled d' /\ sv_snapshot (dp_state d') = Some sn.
Proof.
  intros E Hs. apply hbind_Ok in E as (sn' & d1 & E1 & E). apply hbind_Ok in E as (b' & d2 & E2 & [= <- <- <-]).
  eapply apply_settles; [exact E2|]. eapply still_settled; [|exact Hs].
  eapply (keeps_run still); [apply still_refl|intros d0|exact E1].
  apply still_on_client. intros c r c'. apply request_snapshot_hushed.
Qed.

(** The peer took a snapshot and the loop publishes it. *)
Lemma publish_taken d sn r u r' :
  kept (ru_peer r) d -> settled d -> sv_snapshot (dp_state d) = Some sn ->
  publish_snapshot sn (set_ru_peer d r) = (Ok u, r') -> base r ->
  base r' /\ online r' /\ ru_notified r' = false /\ ru_commands r' = ru_commands r
  /\ ru_pending r' = ru_pending r /\ ru_events r' = ru_events r /\ ru_replies r' = ru_replies r /\ ru_peer r' = d
  /\ ru_pings r' = ru_pings r.
Proof.
  intros Hk Hs Hsn [= _ <-] Hb. pose proof (steady_base _ _ (steady_peer d r Hk) Hb) as (H1 & H2 & _ & H4).
  split; [|split; [by intros _|by split_and!]]. split_and!; try done; try apply H4; try apply H2.
  intros sn' [= <-]. change (generation sn <= peer_generation d).
  rewrite (coherent_generation d sn); [lia|apply Hs|done].
Qed.

(** The end of a branch that published: nothing waits for the loop. *)
Definition answered (r r' : Runtime) : Prop :=
  base r' /\ online r' /\ (ru_notified r' = true -> ru_connected r' = false) /\ ru_commands r' = ru_commands r
  /\ ru_pending r' = ru_pending r /\ ru_events r' = ru_events r /\ ru_replies r' = ru_replies r
  /\ ru_pings r' = ru_pings r.

Lemma refresh_if_answered (changed : bool) r0 r u r' :
  (if changed then refresh_after_config_change me stun_fuel else hret tt) r = (Ok u, r') ->
  answered r0 r -> ru_notified r = false -> answered r0 r'.
Proof.
  intros E (Hb & Hon & _ & Hc & Hpe & Hev & Hre & Hpi) Hn. destruct changed.
  - apply refresh_after_online in E as (Hcalm & Hon' & E1 & E2 & E3); [|done].
    pose proof Hcalm as (_ & _ & _ & C1 & _ & C2 & C3).
    split_and!; try congruence; [by eapply steady_base|done].
  - injection E as _ <-. split_and!; try done. by rewrite Hn.
Qed.

Lemma on_snapshot_expired_ok r u r' :
  on_snapshot_expired me stun_fuel r = (Ok u, r') -> base r -> online r -> answered r r'.
Proof.
  unfold on_snapshot_expired. unfold hbind at 1, hget. intros E Hb Hon.
  destruct (ru_connected r && ru_notified r) eqn:Eg.
  2:{ injection E as _ <-. split_and!; try done. intros Hn. rewrite Hn in Eg. by destruct (ru_connected r). }
  apply andb_true_iff in Eg as [Ec En]. apply hbind_Ok in E as (res & r1 & E1 & E). unfold htry in E1.
  destruct (on_peer _ r) as [x r2] eqn:E2. injection E1 as <- <-. apply on_peer_run in E2 as (d & E2 & ->).
  pose proof E2 as Hk. apply (keeps_run kept) in Hk; [|apply kept_refl|intros; apply kept_request_snapshot].
  destruct x as [[sn changed]|e].
  - apply request_settles in E2 as [Hs Hsn]; [|by apply Hon].
    apply hbind_Ok in E as ([] & r3 & E3 & E). apply hbind_Ok in E as ([] & r4 & [= <-] & E).
    apply (publish_taken d sn r) in E3 as (P1 & P2 & P3 & P4 & P5 & P6 & P7 & P8 & P9); try done.
    eapply refresh_if_answered; [exact E| |done]. split_and!; try done. cbn. by rewrite P3.
  - destruct (_ || _); [|done]. apply disconnect_spec in E as (Hc & Hf & Hpe & Hev & _ & Hre & _).
    pose proof Hc as (_ & _ & _ & C1 & _ & C2 & C3). split_and!; try done.
    + eapply steady_base; [|exact Hb]. eapply steady_trans; [by apply (steady_peer d)|exact Hc].
    + intros Hx. congruence.
Qed.

Lemma on_message_snapshot sn r u r' :
  on_message me stun_fuel (SnapshotMsg sn) r = (Ok u, r') -> base r -> settled (ru_peer r) -> answered r r'.
Proof.
  intros E Hb Hs. cbn [on_message] in E. apply hbind_Ok in E as (changed & r1 & E1 & E).
  apply on_peer_run in E1 as (d & E1 & ->). pose proof E1 as Hk.
  apply (keeps_run kept) in Hk; [|apply kept_refl|intros; apply kept_apply_snapshot].
  apply apply_settles in E1 as [Hs' Hsn]; [|done]. apply hbind_Ok in E as ([] & r3 & E3 & E).
  apply (publish_taken d sn r) in E3 as (P1 & P2 & P3 & P4 & P5 & P6 & P7 & P8 & P9); try done.
  eapply refresh_if_answered; [exact E| |done]. split_and!; try done. by rewrite P3.
Qed.

(** ** Steps that keep the invariant *)

Definition fine (r r' : Runtime) : Prop :=
  kept (ru_peer r) (ru_peer r') /\ ru_backoff r' = ru_backoff r /\ ru_published r' = ru_published r
  /\ ru_commands r' = ru_commands r /\ ru_packets r' = ru_packets r
  /\ List.filter pt_running (ru_pings r') = List.filter pt_running (ru_pings r)
  /\ ru_notified r' = ru_notified r /\ (online r -> online r')
  /\ (ru_connected r' = true -> ru_connected r = true).

Lemma fine_refl r : fine r r.
Proof. split; [apply kept_refl|]. by split_and!. Qed.

Lemma fine_trans r1 r2 r3 : fine r1 r2 -> fine r2 r3 -> fine r1 r3.
Proof.
  intros (K1 & A1 & B1 & C1 & D1 & E1 & F1 & G1 & H1) (K2 & A2 & B2 & C2 & D2 & E2 & F2 & G2 & H2).
  split; [by eapply kept_trans|]. split_and!; try congruence; auto.
Qed.

Lemma fine_inv r r' : fine r r' -> runtime_inv r -> runtime_inv r'.
Proof.
  intros ((_ & _ & Hg & Hk) & E1 & E2 & E3 & E4 & E5 & E6 & Hon & Hcon) ((H1 & H2 & H3 & H4 & H5 & H6) & Ho' & Ha).
  split; [|split; [by apply Hon|]].
  - unfold base. rewrite E1, E2, E3, E4, E5. split_and!; try done; try apply H2; [by apply Hk|].
    intros sn Hs. specialize (H3 sn Hs). lia.
  - unfold awake. rewrite E3, E6. intros Hn. destruct (Ha Hn) as [|Hf]; [by left|right].
    destruct (ru_connected r') eqn:Ec; [|done]. by rewrite Hcon in Hf.
Qed.

(** What holds between the states before and after a handler that succeeds *)
Definition oks {A} (P : Runtime -> Runtime -> Prop) (m : R A) : Prop :=
  forall r a r', m r = (Ok a, r') -> P r r'.

Lemma oks_bind {A B} (m : R A) (k : A -> R B) :
  oks fine m -> (forall a, oks fine (k a)) -> oks fine (hbind m k).
Proof. intros Hm Hk r b r' E. apply hbind_Ok in E as (a & r1 & E1 & E2). eapply fine_trans; [by eapply Hm|by eapply Hk]. Qed.

Lemma oks_ret {A} (a : A) : oks fine (hret a).
Proof. intros r b r' [= _ <-]. apply fine_refl. Qed.

Lemma oks_fail {A} e : oks fine (hfail e : R A).
Proof. by intros r b r'. Qed.

Lemma oks_get : oks fine (hget : R Runtime).
Proof. intros r b r' [= _ <-]. apply fine_refl. Qed.

Lemma oks_lift {A} (x : result A DiagnosticError) : oks fine (hlift x : R A).
Proof. intros r b r' [= _ <-]. apply fine_refl. Qed.

Lemma oks_modify f :
  (forall r, ru_peer (f r) = ru_peer r /\ ru_backoff (f r) = ru_backoff r /\ ru_published (f r) = ru_published r
     /\ ru_commands (f r) = ru_commands r /\ ru_packets (f r) = ru_packets r
     /\ List.filter pt_running (ru_pings (f r)) = List.filter pt_running (ru_pings r)
     /\ ru_notified (f r) = ru_notified r /\ ru_connected (f r) = ru_connected r) ->
  oks fine (hmodify f : R unit).
Proof.
  intros Hf r a r' [= _ <-]. destruct (Hf r) as (H1 & H2 & H3 & H4 & H5 & H6 & H7 & H8).
  split; [rewrite H1; apply kept_refl|]. split_and!; try done; [unfold online|]; rewrite ?H1, H8; auto.
Qed.

Ltac oks_walk :=
  repeat match goal with
  | |- oks _ (hbind _ _) => apply oks_bind; [|intros ?]
  | |- oks _ (hret _) => apply oks_ret
  | |- oks _ (hfail _) => apply oks_fail
  | |- oks _ hget => apply oks_get
  | |- oks _ (hlift _) => apply oks_lift
  | |- oks _ (hmodify _) => apply oks_modify; by intros ?
  | |- oks _ (let _ := _ in _) => cbn zeta
  | |- oks _ (match ?x with _ => _ end) => destruct x
  end.

Lemma oks_on_peer {A} (m : D A) : (forall d0, keeps (still d0) m) -> oks fine (on_peer m).
Proof.
  intros Hm r a r' E. apply on_peer_run in E as (d & E & ->).
  pose proof (keeps_run still m _ _ _ still_refl Hm E) as Hs. split; [by apply still_kept|].
  split_and!; try done. intros Hon Hc. by eapply still_settled, Hon.
Qed.

Lemma oks_attempt {A} (m : D A) :
  (forall d0, keeps (kept d0) m) -> (forall a d d', m d = (Ok a, d') -> settled d -> settled d') ->
  oks fine (attempt m).
Proof.
  intros Hk Hs r o r' E. pose proof E as E'.
  apply attempt_spec in E as ((K & A1 & A2 & A3 & A4 & A5 & A6) & _ & _ & _ & E); [|done].
  split; [done|]. split_and!; try done.
  - by rewrite A5.
  - eapply attempt_online; [done| |exact E']. intros a d. apply Hs.
  - destruct o; [|congruence]. by destruct E as (d & _ & ->).
Qed.

Lemma oks_attempt_still {A} (m : D A) : (forall d0, keeps (still d0) m) -> oks fine (attempt m).
Proof.
  intros Hm. apply oks_attempt.
  - intros d0. apply keeps_kept. intros d. by apply still_kept, (Hm d), still_refl.
  - intros a d d' E. eapply still_settled, (keeps_run still); [apply still_refl|exact Hm|exact E].
Qed.

Lemma oks_try {A} (m : D A) :
  (forall d0, keeps (still d0) m) -> oks fine (htry (on_peer m) : R (result A DiagnosticError)).
Proof.
  intros Hm r a r' E. unfold htry in E. destruct (on_peer m r) as [x r1] eqn:E1. injection E as _ <-.
  apply on_peer_run in E1 as (d & E1 & ->). pose proof (keeps_run still m _ _ _ still_refl Hm E1) as Hs.
  split; [by apply still_kept|]. split_and!; try done. intros Hon Hc. by eapply still_settled, Hon.
Qed.

Lemma answered_inv r r' : answered r r' -> runtime_inv r'.
Proof. intros (Hb & Hon & Hn & _). split_and!; [done..|]. intros H. right. by apply Hn. Qed.

(** ** The branches *)

Lemma fine_start_ping target count timeout to_ : oks fine (start_ping target count timeout to_ : R unit).
Proof.
  unfold start_ping, reply. oks_walk; [apply oks_try; intros; apply still_register_peer|].
  apply oks_modify. intros r. split_and!; try done. cbn [ru_pings set_ru_pings].
  by rewrite List.filter_app, app_nil_r.
Qed.

Lemma inv_on_command r b r' : on_command me stun_fuel r = (Ok b, r') -> runtime_inv r -> runtime_inv r'.
Proof.
  unfold on_command. unfold hbind at 1, hget. intros E Hi.
  destruct (ru_commands r) as [|c rest] eqn:Ec; [by injection E as _ <-|].
  apply hbind_Ok in E as ([] & r1 & [= <-] & E). apply hbind_Ok in E as ([] & r2 & E & [= _ <-]).
  destruct Hi as ((H1 & H2 & H3 & H4 & H5) & Hon & Ha).
  assert (Hb : base (set_ru_commands rest r)).
  { split_and!; try done; try apply H2; try apply H5. cbn. rewrite Ec in H4. cbn in H4. lia. }
  destruct c as [|target count timeout to_].
  - by eapply answered_inv, on_snapshot_expired_ok.
  - eapply fine_inv; [by eapply fine_start_ping|]. split_and!; [done..|]. intros Hn.
    destruct (Ha Hn) as [Hin|]; [|by right]. rewrite Ec in Hin. left. cbn. set_solver.
Qed.

Lemma fine_on_message m : is_snapshot m = false -> oks fine (on_message me stun_fuel m : R unit).
Proof.
  intros Hm. destruct m; try done; cbn [on_message]; oks_walk.
  - apply oks_on_peer. intros. apply still_on_world.
  - apply oks_on_peer. intros. apply still_register_peer.
Qed.

Lemma inv_on_receive r u r' :
  ru_connected r = true -> on_receive me stun_fuel r = (Ok u, r') -> runtime_inv r -> runtime_inv r'.
Proof.
  intros Hc E Hi. unfold on_receive in E. apply hbind_Ok in E as (res & r1 & E1 & E).
  pose proof E1 as Hf. apply (oks_try (on_client recv)) in Hf; [|intros; apply still_recv].
  pose proof (fine_inv _ _ Hf Hi) as Hi1. destruct res as [m|e].
  - destruct (is_snapshot m) eqn:Em.
    + destruct m; try done. eapply answered_inv, on_message_snapshot; [exact E|apply Hi1|].
      apply Hi1. unfold htry in E1. destruct (on_peer _ r) as [x r2] eqn:E2. injection E1 as _ <-.
      by apply on_peer_run in E2 as (d & _ & ->).
    + eapply fine_inv; [by eapply fine_on_message|done].
  - assert (Hl : forall e, lost e r1 = (Ok u, r') -> runtime_inv r').
    { intros e' E'. unfold lost in E'. destruct (is_retryable_control_error e'); [|done].
      apply disconnect_spec in E' as (Hcalm & Hcon & _). pose proof Hcalm as (_ & _ & _ & C1 & _ & C2 & C3).
      split_and!; [by eapply steady_base, Hi1|by intros H; congruence|]. intros _. by right. }
    destruct e as [ | | |ce| | | | | | | | | | | ]; try (by eapply Hl).
    destruct ce; try (by eapply Hl). by injection E as _ <-.
Qed.

Lemma fine_flush fuel : oks fine (flush_pending first fuel : R unit).
Proof.
  induction fuel as [|fuel IH]; cbn [flush_pending]; oks_walk.
  - apply oks_attempt_still. intros. apply still_request_connection.
  - apply IH.
Qed.

Lemma fine_report_mtu mtu : oks fine (report_mtu mtu : R unit).
Proof. unfold report_mtu. oks_walk. apply oks_on_peer. intros. apply still_runtime_status. Qed.

(** The state right after a successful reconnect *)
Lemma reconnected_inv r d sn r1 u :
  peer_reconnect me stun_fuel (ru_peer r) = (Ok sn, d) -> runtime_inv r ->
  publish_snapshot sn (set_ru_peer d r) = (Ok u, r1) ->
  runtime_inv (set_ru_backoff 1 (set_ru_error None (set_ru_connected true r1))).
Proof.
  intros E (Hb & _) Ep. pose proof E as Hk.
  apply (keeps_run kept) in Hk; [|apply kept_refl|intros; apply kept_reconnect].
  apply peer_reconnect_ok in E as [Hs Hsn].
  apply (publish_taken d sn r) in Ep as ((H1 & H2 & H3 & H4) & _ & Hn & _ & _ & _ & _ & Hpeer & _); try done.
  split_and!; try done; try apply H4; [by intros _; cbn; rewrite Hpeer|]. intros Hx. cbn in Hx. congruence.
Qed.

Lemma inv_on_reconnect r u r' :
  on_reconnect me stun_fuel first r = (Ok u, r') -> runtime_inv r -> runtime_inv r'.
Proof.
  intros E Hi. unfold on_reconnect in E. apply hbind_Ok in E as (res & r1 & E1 & E). unfold htry in E1.
  destruct (on_peer _ r) as [x r2] eqn:E2. injection E1 as <- <-. apply on_peer_run in E2 as (d & E2 & ->).
  destruct x as [sn|e].
  - apply hbind_Ok in E as ([] & r3 & E3 & E). pose proof (reconnected_inv _ _ _ _ _ E2 Hi E3) as Hi3.
    apply hbind_Ok in E as ([] & r4 & [= <-] & E). apply hbind_Ok in E as (? & r5 & [= <- <-] & E).
    apply hbind_Ok in E as ([] & r6 & E6 & E). eapply fine_inv; [by eapply fine_flush|].
    by eapply fine_inv; [by eapply fine_report_mtu|].
  - destruct (is_retryable_control_error e); [|done]. apply hbind_Ok in E as ([] & r3 & E3 & [= _ <-]).
    apply disconnect_spec in E3 as (Hcalm & Hcon & _).
    apply (keeps_run kept) in E2; [|apply kept_refl|intros; apply kept_reconnect].
    assert (Hb : base r3) by (eapply steady_base; [eapply steady_trans; [by apply (steady_peer d)|exact Hcalm]|apply Hi]).
    destruct Hb as (H1 & H2 & H3 & H4). split; [|split].
    + split_and!; try done; try apply H4; cbn; lia.
    + intros Hx. cbn in Hx. congruence.
    + intros _. by right.
Qed.

Lemma fine_publish_state : oks fine (publish_state : R unit).
Proof. unfold publish_state. oks_walk. apply oks_on_peer. intros. apply still_on_world. Qed.

Lemma fine_on_event ev : oks fine (on_event ev : R bool).
Proof. unfold on_event. oks_walk; apply oks_attempt_still; intros; apply still_request_connection. Qed.

Lemma fine_on_events l : oks fine (on_events l : R bool).
Proof. induction l as [|ev l IH]; cbn [on_events]; oks_walk; [apply fine_on_event|apply IH]. Qed.

Lemma fine_after_events : oks fine (after_events : R unit).
Proof.
  unfold after_events. oks_walk; try apply fine_publish_state.
  apply oks_attempt_still. intros. apply still_runtime_status.
Qed.

Lemma fine_event_batch : oks fine (on_event_batch : R unit).
Proof. unfold on_event_batch. oks_walk; [apply fine_on_events|apply fine_after_events]. Qed.

Lemma fine_peers_tick : oks fine (on_peers_tick : R unit).
Proof. unfold on_peers_tick. oks_walk. apply oks_attempt_still. intros. apply still_list_peers. Qed.

Lemma fine_refresh : oks fine (attempt (refresh_candidates me stun_fuel)).
Proof. apply oks_attempt; [intros; apply kept_refresh|]. intros a d d'. apply refresh_settles. Qed.

Lemma inv_turn k r b r' :
  turn me stun_fuel first k r = (Ok b, r') -> runtime_inv r -> runtime_inv r'.
Proof.
  unfold turn. unfold hbind at 1, hget. cbn zeta. intros E Hi.
  assert (Hfine : forall m : R bool, oks fine m -> m r = (Ok b, r') -> runtime_inv r')
    by (intros m Hm Em; eapply fine_inv; [by eapply Hm|done]).
  destruct k.
  - by injection E as _ <-.
  - by eapply inv_on_command.
  - destruct (ru_connected r) eqn:Ec; [|by injection E as _ <-].
    apply hbind_Ok in E as ([] & r1 & E & [= _ <-]). by eapply inv_on_receive.
  - eapply Hfine, E. oks_walk. apply fine_refresh.
  - destruct (ru_connected r); [by injection E as _ <-|].
    apply hbind_Ok in E as ([] & r1 & E & [= _ <-]). by eapply inv_on_reconnect.
  - eapply Hfine, E. oks_walk. apply fine_publish_state.
  - eapply Hfine, E. oks_walk. apply fine_peers_tick.
  - eapply Hfine, E. oks_walk. apply fine_event_batch.
Qed.

(** ** The other tasks *)

(** A step of the node by one of its tasks, none of which applies a snapshot *)
Definition node_moves (d d' : Peer) : Prop :=
  exists n, node_step parse_credential (dp_config d) me (dp_node d) n /\ view n = view (dp_node d)
            /\ d' = set_dp_node n d.

Inductive runtime_step : Runtime -> Runtime -> Prop :=
| rs_turn k r r' : turn me stun_fuel first k r = (Ok false, r') -> runtime_step r r'
| rs_node r d : node_moves (ru_peer r) d -> runtime_step r (set_ru_peer d r)
| rs_forward_data r : runtime_step r (forward_data r)
| rs_forward_control r : runtime_step r (forward_control r)
| rs_send packet r : runtime_step r (snd (handle_send packet r))
| rs_send_batch packets r : runtime_step r (snd (handle_send_batch packets r))
| rs_command c r : runtime_step r (queue_command c r)
| rs_ping_admitted i r : runtime_step r (ping_admitted i r)
| rs_ping_ended i outcome r : runtime_step r (ping_ended i outcome r).

(** A runtime that was opened from a saved state and has run for a while *)
Definition runtime_reachable (r : Runtime) : Prop :=
  exists s stun mtu w d r0 r1, open_with_mtu me stun_fuel s stun mtu w = Ok d
    /\ start_with_lock d = Ok r0 /\ begin_loop r0 = (Ok tt, r1) /\ rtc runtime_step r1 r.

Lemma inv_move r d : still (ru_peer r) d -> runtime_inv r -> runtime_inv (set_ru_peer d r).
Proof.
  intros Hs. apply fine_inv. split; [by apply still_kept|]. split_and!; try done.
  intros Hon Hc. by eapply still_settled, Hon.
Qed.

Lemma still_node (d : Peer) n w : view n = view (dp_node d) -> still d (set_dp_node n (set_dp_world w d)).
Proof. intros Hv. by split_and!. Qed.

Lemma inv_note_result res r : runtime_inv r -> runtime_inv (note_result res r).
Proof.
  intros (Hb & Hon & Ha). unfold note_result.
  assert (Hf : runtime_inv (set_ru_notified false r)) by (split_and!; try done; apply Hb).
  destruct res as [u|[]]; try done.
  destruct (ru_notified r) eqn:En; [done|]. destruct (Nat.ltb_spec (length (ru_commands r)) COMMAND_QUEUE_CAPACITY); [|done].
  destruct Hb as (H1 & H2 & H3 & H4 & H5). split; [|split; [done|]].
  - split_and!; try done; try apply H5; try apply H2. cbn. rewrite length_app. cbn. lia.
  - intros _. left. cbn. set_solver.
Qed.

Lemma inv_forward_packet ev r : runtime_inv r -> runtime_inv (forward_packet ev r).
Proof.
  intros ((H1 & H2 & H3 & H4 & H5 & H6) & Hon & Ha). unfold forward_packet. destruct ev; try by split.
  destruct (Nat.ltb_spec (length (ru_packets r)) PACKET_QUEUE_CAPACITY); [|by split].
  split; [|by split]. split_and!; try done; try apply H2. cbn. rewrite length_app. cbn. lia.
Qed.

Lemma inv_fold {A} (f : Runtime -> A -> Runtime) l r :
  (forall x r, runtime_inv r -> runtime_inv (f r x)) -> runtime_inv r -> runtime_inv (fold_left f l r).
Proof. intros Hf. revert r; induction l as [|x l IH]; intros r Hr; [done|]. cbn. by apply IH, Hf. Qed.

Lemma inv_queue_command c r : runtime_inv r -> runtime_inv (queue_command c r).
Proof.
  intros ((H1 & H2 & H3 & H4 & H5) & Hon & Ha). unfold queue_command.
  destruct (Nat.ltb_spec (length (ru_commands r)) COMMAND_QUEUE_CAPACITY); [|by split].
  split; [|split; [done|]].
  - split_and!; try done; try apply H5; try apply H2. cbn. rewrite length_app. cbn. lia.
  - intros Hn. cbn. destruct (Ha Hn); [left; set_solver|by right].
Qed.

Lemma running_alter f i l :
  (length (List.filter pt_running (alter f i l)) <= S (length (List.filter pt_running l)))%nat.
Proof.
  revert i; induction l as [|t l IH]; intros [|i]; cbn; try lia.
  - destruct (pt_running (f t)), (pt_running t); cbn; lia.
  - specialize (IH i). destruct (pt_running t); cbn; unfold alter in *; lia.
Qed.

Lemma running_delete i l :
  (length (List.filter pt_running (delete i l)) <= length (List.filter pt_running l))%nat.
Proof.
  revert i; induction l as [|t l IH]; intros [|i]; cbn; try lia.
  - destruct (pt_running t); cbn; lia.
  - specialize (IH i). destruct (pt_running t); cbn; unfold delete in *; lia.
Qed.

Lemma inv_set_pings l r :
  (length (List.filter pt_running l) <= MAX_CONCURRENT_PINGS)%nat -> runtime_inv r -> runtime_inv (set_ru_pings l r).
Proof. intros Hl ((H1 & H2 & H3 & H4 & H5 & H6) & Hon & Ha). split; [|by split]. split_and!; try done; apply H2. Qed.

Lemma inv_step r r' : runtime_step r r' -> runtime_inv r -> runtime_inv r'.
Proof.
  intros Hstep Hi. pose proof Hi as ((_ & _ & _ & _ & _ & Hrun) & _). destruct Hstep.
  - by eapply inv_turn.
  - destruct H as (n & _ & Hv & ->). apply inv_move; [|done]. by split_and!.
  - unfold forward_data. apply inv_fold; [intros; by apply inv_forward_packet|].
    apply inv_move; [by split_and!|done].
  - unfold forward_control. apply (fine_inv r); [|done].
    split; [by apply still_kept; split_and!|]. by split_and!.
  - unfold handle_send. destruct (host_world _) as [w world].
    pose proof (view_send_ip (dp_config (ru_peer r)) (view (dp_node (ru_peer r))) w packet (dp_node (ru_peer r)) eq_refl) as Hv.
    destruct (send_ip _ _ _ _) as [res n]. apply inv_note_result, inv_move; [by apply still_node|done].
  - unfold handle_send_batch. destruct (host_world _) as [w world].
    pose proof (view_send_batch (dp_config (ru_peer r)) (view (dp_node (ru_peer r))) w packets (dp_node (ru_peer r)) eq_refl) as Hv.
    destruct (send_ip_batch _ _ _ _) as [res n]. apply inv_fold; [intros; by apply inv_note_result|].
    apply inv_move; [by apply still_node|done].
  - by apply inv_queue_command.
  - unfold ping_admitted. destruct (Nat.ltb_spec (length (List.filter pt_running (ru_pings r))) MAX_CONCURRENT_PINGS) as [Hlt|]; [|done].
    apply inv_set_pings; [|done].
    pose proof (running_alter (fun t => mkPingTask (pt_peer t) (pt_count t) (pt_timeout t) (pt_reply t) true) i (ru_pings r)). lia.
  - unfold ping_ended. destruct (ru_pings r !! i) as [t|]; [|done].
    apply (fine_inv (set_ru_pings (delete i (ru_pings r)) r)).
    + split; [apply kept_refl|]. by split_and!.
    + apply inv_set_pings; [|done]. pose proof (running_delete i (ru_pings r)). lia.
Qed.

Lemma inv_new l d : settled d -> runtime_inv (new_runtime l d).
Proof.
  intros Hs. split; [|split].
  - split_and!; try (cbn; lia); [apply Hs|]. intros sn Hsn. change (generation sn <= peer_generation d).
    rewrite (coherent_generation d sn); [lia|apply Hs|done].
  - by intros _.
  - by intros.
Qed.

Lemma inv_start d r : start_with_lock d = Ok r -> settled d -> runtime_inv r.
Proof.
  unfold start_with_lock. destruct (peer_list_peers d) as [[l|e] d'] eqn:E; [|done]. intros [= <-] Hs.
  apply inv_new. eapply still_settled, Hs.
  eapply (keeps_run still); [apply still_refl|intros; apply still_list_peers|exact E].
Qed.

Lemma fine_begin : oks fine (begin_loop : R unit).
Proof.
  unfold begin_loop. oks_walk; [|apply fine_publish_state|apply fine_report_mtu].
  apply oks_on_peer. intros. apply still_list_peers.
Qed.

(** C9: in every state a running peer reaches, whatever the server sends, the
    network does and the application asks: the snapshot it saved, the view of its
    node and the servers it uses agree; while it counts as connected it has told
    the server exactly the candidates it holds, which are distinct and not none;
    a packet that met an expired snapshot has the loop ask for a new one or
    reconnect; the snapshot given to the TUN interface is not newer than the
    node's; the backoff stays between 1 and 30 seconds, the queues within their
    capacities, and at most eight pings run at once. *)
Theorem runtime_invariant r : runtime_reachable r -> runtime_inv r.
Proof.
  intros (s & stun & mtu & w & d & r0 & r1 & Eo & Es & Eb & Hr). apply open_with_mtu_ok in Eo as [Hs _].
  apply inv_start in Es; [|done].
  assert (H1 : runtime_inv r1) by (eapply fine_inv; [by eapply fine_begin|done]).
  clear Eb. induction Hr as [r|r r2 r3 Hstep _ IH]; [done|]. apply IH. by eapply inv_step.
Qed.
End runtime.
