(* ===== verification/RuntimeSample.v ===== *)
(** * A peer and its server

    A run of the runtime from a saved state: the server of [ClientServer] with one
    member, which opens its peer, registers, refreshes and starts its loop.  The
    states reached are the concrete inputs of the witnesses. *)
From S2P Require Import Prelude Net Encoding Wire NodeId Snapshot SignedBytes Crypto Ip Replay Path Handshake.
From S2P Require Import NodeState NodePeers NodeSend NodeSession NodeData NodeTimers NodeInv NodeSample.
From S2P Require Import Control Text CoordDb Coord CoordInv Dns Stun CoordClient NodeView Codec ClientServer.
From S2P Require Import Diagnostic DiagnosticInv Runtime RuntimeInv.

(** The world is the script of the frames that arrive while each request waits. *)
Abbreviation Script := (list (list Frame)).

#[export] Instance script_http : Http Script := {|
  Dns.Client := unit;
  url_parse s := Ok (mkUrl (str "ws") (Some (str "10.0.0.9")) (Some 80) [] []);
  url_show u := [];
  client_build _ := Ok tt;
  http_get _ u w := (Err [], w);
  json_parse _ := Err InvalidLength;
  show_de_error _ := []
|}.

#[export] Instance script_socket : StunSocket Script := {|
  tick w := (0, w);
  send_to b _ w := (Ok (len b), w);
  recv_timeout d w := (None, w);
  fill_bytes n w := (replicate n 7, w)
|}.

#[export] Instance script_transport : Transport Script := {|
  tcp_connect _ w := (Connected, w);
  ws_handshake _ _ w := (Connected, w);
  show_timeout _ _ := [];
  show_dns_error _ := []
|}.

Definition script_world : World := mkWorld 300 (10 ^ 12) (fun _ _ => true) (fun l => Some (length l)).
Definition script_candidates : list Candidate := [Host (SockV4 0x0a000001 4000)].

#[export] Instance script_host : PeerHost Script := {|
  host_world w := (script_world, w);
  host_frames w := match w with [] => ([], []) | frames :: w => (frames, w) end;
  host_candidates w := (script_candidates, w);
  host_local_addrs w := (Ok [], w);
  host_bind w := (Ok tt, w);
  host_parallelism := None;
  host_save w := (true, w)
|}.

Definition member : Local := mkLocal (toy_node 1) (toy_node 1) (toy_node 101) 1.
Definition saved : SavedState := SavedState_new (str "ws://coord") [3] [].

Definition member_snapshot (s : CoordState) : NetworkSnapshot :=
  network_snapshot (HH := toy_hash) (HSg := toy_sig) (str "tenant") [3] s (online_peer_ids s) 200.

Definition text (m : ControlMessage) : Frame := FrameText (message_to_string (ControlJson := message_json) m).

Definition registered : Frame :=
  text (RegisterOk (json_credential (TextOps := sample_text)
          (issued_credential (HH := toy_hash) (HSg := toy_sig) (str "tenant") [3]
             (toy_node 1) (toy_node 1) (toy_node 101) 200)) [] (member_snapshot sample_first)).

Definition script : Script :=
  [[registered]; [text (SnapshotResponse (member_snapshot sample_first))]; [text (ListPeersOk [])];
   [text (ListPeersOk [])]; []].

Abbreviation SampleRuntime := (@Runtime toy_noise Script).

#[export] Existing Instance sample_text.
Definition nobody : @Peer toy_noise Script :=
  mkDiagnosticPeer NodeConfig_default (node_new NodeConfig_default None) (new_client []) saved [] [] None [].

Abbreviation opening frames := (open_with_mtu (HH := toy_hash) member 0 saved None 1400 (script ++ frames)).

(** The peer, with the frames that arrive from then on *)
Definition opened (frames : Script) : @Peer toy_noise Script :=
  match opening frames with Ok d => d | Err _ => nobody end.

(** The loop has started. *)
Definition starting (frames : Script) : SampleRuntime :=
  match start_with_lock (J := message_json) (opened frames) with Ok r => r | Err _ => new_runtime [] nobody end.
Definition started (frames : Script) : SampleRuntime :=
  snd (begin_loop (J := message_json) (starting frames)).

Definition next (ids : gset bytes) : option bytes := head (elements ids).
Abbreviation sample_turn := (turn (HH := toy_hash) (HT := sample_text) (J := message_json) member 0 next).

Lemma opened_ok frames : is_ok (opening frames) = true -> opening frames = Ok (opened frames).
Proof. unfold opened. by destruct (opening frames). Qed.

(** A second member registered: the server sends its snapshot, and the runtime
    gives it to the node and to the TUN interface. *)
Definition second_joins : Script := [[text (SnapshotMsg (member_snapshot sample_second))]].
Definition told_of_second : SampleRuntime := snd (sample_turn WakeMessage (started second_joins)).

Lemma starting_ok frames :
  is_ok (start_with_lock (J := message_json) (opened frames)) = true ->
  start_with_lock (opened frames) = Ok (starting frames).
Proof. unfold starting. by destruct (start_with_lock _). Qed.

Lemma told_of_second_reachable :
  runtime_reachable (HH := toy_hash) (HT := sample_text) (J := message_json) member 0 next told_of_second.
Proof.
  exists saved, None, 1400, (script ++ second_joins), (opened second_joins), (starting second_joins), (started second_joins).
  split; [apply opened_ok; vm_compute; reflexivity|]. split; [apply starting_ok; vm_compute; reflexivity|].
  split; [unfold started; apply outcome; vm_compute; reflexivity|].
  apply rtc_once, (rs_turn _ _ _ WakeMessage). unfold told_of_second. apply outcome. vm_compute. reflexivity.
Qed.

Lemma runtime_invariant_witness :
  generation <$> ru_published told_of_second = Some (generation (member_snapshot sample_second))
  /\ runtime_inv (J := message_json) told_of_second.
Proof.
  split; [vm_compute; reflexivity|].
  apply (runtime_invariant (HH := toy_hash) (HT := sample_text) (J := message_json) (JL := message_json_laws)
           member 0 next), told_of_second_reachable.
Defined.
