(* ===== verification/RuntimeServe.v ===== *)
(** * What the runtime does with requests

    A request to connect to a peer waits until the server was asked for that peer;
    a ping gets one answer; the report of a ping is consistent.  Then what the
    loop gets wrong: a snapshot that a refresh brings is not given to the TUN
    interface, a snapshot left in the queue ends the loop when a newer one
    overtakes it, and the loop of [lib.rs] forgets requests. *)
From S2P Require Import Prelude Net Encoding Wire NodeId Snapshot SignedBytes Crypto Ip Replay Path Handshake.
From S2P Require Import NodeState NodePeers NodeSend NodeSession NodeData NodeTimers NodeInv NodeSample.
From S2P Require Import Control Text CoordDb Coord CoordInv Dns Stun CoordClient NodeView Codec ClientServer.
From S2P Require Import Diagnostic DiagnosticInv Runtime RuntimeInv RuntimeSample.
From stdpp Require Import gmultiset.

(** The peer an event asks to be connected to *)
Definition wanted (ev : VelaEvent) : option bytes :=
  match ev with
  | PeerConnectionRequested id | PeerReconnectRequested id => Some id
  | _ => None
  end.

#[export] Instance Wake_eq_dec : EqDecision Wake.
Proof. solve_decision. Defined.

(** A channel moves from a command to a task or a reply. *)
Lemma ledger_answered (A B C : gmultiset nat) x : A ⊎ B ⊎ (C ⊎ ({[+ x +]} ⊎ ∅)) = A ⊎ B ⊎ C ⊎ {[+ x +]}.
Proof. multiset_solver. Qed.
Lemma ledger_running (A B C : gmultiset nat) x : A ⊎ (B ⊎ ({[+ x +]} ⊎ ∅)) ⊎ C = A ⊎ B ⊎ C ⊎ {[+ x +]}.
Proof. multiset_solver. Qed.
Lemma ledger_taken (A B C : gmultiset nat) x : A ⊎ B ⊎ C ⊎ {[+ x +]} = {[+ x +]} ⊎ A ⊎ B ⊎ C.
Proof. multiset_solver. Qed.
Lemma ledger_moved (A B C : gmultiset nat) x : A ⊎ B ⊎ (C ⊎ ({[+ x +]} ⊎ ∅)) = A ⊎ ({[+ x +]} ⊎ B) ⊎ C.
Proof. multiset_solver. Qed.

Section serve.
Context {HH : Hash} {HSg : SignatureOps} {HA : AeadOps} {HK : HkdfOps} {HN : NoiseOps}.
Context {HT : TextOps} {J : ControlJson} {JL : ControlJsonLaws J}.
Context {W : Type} {Sk : StunSocket W} {Hp : Http W} {Tr : Transport W} {Ho : PeerHost W}.
Context (me : Local) (stun_fuel : nat) (first : gset bytes -> option bytes).

Abbreviation Peer := (@Peer HN W).
Abbreviation Runtime := (@Runtime HN W).
Abbreviation D A := (handler Peer DiagnosticError A).
Abbreviation R A := (handler Runtime DiagnosticError A).

(** ** Requests to connect *)

Definition question (id : bytes) : Written := WrittenText (message_to_string (LookupPeer id)).

(** The messages a step writes on one connection *)
Definition writes (d d' : Peer) (l : list Written) : Prop :=
  cl_written (dp_client d') = cl_written (dp_client d) ++ l.

Lemma writes_trans d1 d2 d3 l l' : writes d1 d2 l -> writes d2 d3 l' -> writes d1 d3 (l ++ l').
Proof. unfold writes. intros E E'. by rewrite E', E, app_assoc. Qed.

Lemma writes_refl d : writes d d [].
Proof. unfold writes. by rewrite app_nil_r. Qed.

Lemma on_client_writes {A} (m : handler Client CoordClientError A) (d d' : Peer) r :
  (forall c r c', m c = (r, c') -> hushed c c') -> on_client m d = (r, d') -> exists l, writes d d' l.
Proof.
  intros Hm E. apply on_client_spec in E as (c & c' & r' & Hw & E & <- & _).
  apply Hm in E as (l & E & _). exists l. unfold writes. by rewrite E, Hw.
Qed.

(** [request_peer_connection] asks the server. *)
Lemma request_connection_writes id (d d' : Peer) r :
  request_peer_connection id d = (r, d') ->
  exists l, writes d d' l /\ (is_ok r = true -> question id ∈ l).
Proof.
  unfold request_peer_connection. unfold hbind at 1, on_world, in_world. destruct (host_world _) as [w world].
  unfold hbind. destruct (on_client (lookup_peer id (w_unix w)) (set_dp_world world d)) as [res d1] eqn:E.
  intros E'. assert (is_ok r = is_ok res /\ d' = d1) as [-> ->] by (destruct res; by injection E' as <- <-). clear E'.
  apply on_client_spec in E as (c & c' & r' & Hw & E & Hc & <- & _). cbn in Hw.
  unfold lookup_peer, request_timeout, hbind in E.
  destruct (client_send (LookupPeer id) c) as [[[]|e] c1] eqn:Es.
  - unfold client_send, write in Es. destruct (cl_broken c); [done|]. injection Es as <-.
    match type of E with context [await_reply ?s ?c0] => destruct (await_reply s c0) as [[p|e] c2] eqn:Ea end;
      apply await_loop_hushed in Ea as (l & El & _).
    all: assert (c' = c2) as -> by (repeat case_match; by simplify_eq).
    all: exists (question id :: l); unfold writes; rewrite Hc, El; cbn [cl_written]; rewrite Hw, <- app_assoc.
    all: split; [done|]; intros _; left.
  - assert (c' = c1 /\ is_ok r' = false) as [-> Hr] by (destruct e; by simplify_eq).
    apply send_hushed in Es as (l & El & _); [|done]. exists l. unfold writes. rewrite Hc, El, Hw. split; [done|].
    destruct r'; done.
Qed.

Lemma disconnect_client e (r r' : Runtime) u :
  disconnect e r = (Ok u, r') -> dp_client (ru_peer r') = dp_client (ru_peer r).
Proof. intros E. by apply disconnect_spec in E as (_ & _ & _ & _ & Hc & _). Qed.

Lemma attempt_writes {A} (m : D A) (r r' : Runtime) o :
  (forall d a d', m d = (a, d') -> exists l, writes d d' l) -> attempt m r = (Ok o, r') ->
  exists l, writes (ru_peer r) (ru_peer r') l.
Proof.
  intros Hm E. unfold attempt in E. apply hbind_Ok in E as (res & r1 & E1 & E).
  unfold htry in E1. destruct (on_peer m r) as [x r2] eqn:E2. injection E1 as <- <-.
  apply on_peer_run in E2 as (d & E2 & ->). apply Hm in E2 as (l & El). exists l.
  destruct x as [a|e]; [by injection E as _ <-|]. apply hbind_Ok in E as ([] & r3 & E3 & [= _ <-]).
  unfold lost in E3. destruct (is_retryable_control_error e); [|done].
  unfold writes. by rewrite (disconnect_client _ _ _ _ E3).
Qed.

(** A request of the loop: asked, or the connection is given up *)
Lemma attempt_request id (r r' : Runtime) o :
  attempt (request_peer_connection id) r = (Ok o, r') ->
  ru_pending r' = ru_pending r
  /\ exists l, writes (ru_peer r) (ru_peer r') l
       /\ match o with Some _ => question id ∈ l | None => ru_connected r' = false end.
Proof.
  intros E. pose proof E as E'. apply attempt_spec in E as (_ & Hpe & _ & _ & E); [|intros; apply kept_request_connection].
  split; [done|]. destruct o as [u|].
  - destruct E as (d & E & ->). apply request_connection_writes in E as (l & El & Hq). exists l. by auto.
  - apply attempt_writes in E' as (l & El); [by exists l|]. intros d a d' Ed.
    apply request_connection_writes in Ed as (l & El & _). by exists l.
Qed.

Lemma on_event_kept ev (r r' : Runtime) b :
  on_event ev r = (Ok b, r') ->
  ru_pending r ⊆ ru_pending r'
  /\ exists l, writes (ru_peer r) (ru_peer r') l
       /\ forall id, wanted ev = Some id -> id ∈ ru_pending r' \/ question id ∈ l.
Proof.
  assert (Hw : forall id,
    (let! r := hget in
     if negb (ru_connected r)
     then let! _ := hmodify (fun r => set_ru_pending ({[id]} ∪ ru_pending r) r) in hret false
     else let! done := attempt (request_peer_connection id) in
          match done with
          | Some _ => hret true
          | None => let! _ := hmodify (fun r => set_ru_pending ({[id]} ∪ ru_pending r) r) in hret true
          end) r = (Ok b, r') ->
    ru_pending r ⊆ ru_pending r'
    /\ exists l, writes (ru_peer r) (ru_peer r') l /\ (id ∈ ru_pending r' \/ question id ∈ l)).
  { intros id E. unfold hbind at 1, hget in E. destruct (ru_connected r); cbn [negb] in E.
    - apply hbind_Ok in E as (o & r1 & E1 & E). apply attempt_request in E1 as (Hpe & l & Hl & Ho').
      destruct o as [u|].
      + injection E as _ <-. split; [by rewrite Hpe|]. exists l. by auto.
      + injection E as _ <-. split; [cbn; set_solver|]. exists l. split; [done|]. left. cbn. set_solver.
    - injection E as _ <-. split; [cbn; set_solver|]. exists []. split; [apply writes_refl|]. left. cbn. set_solver. }
  intros E. destruct ev; cbn [on_event wanted] in *;
    try (injection E as _ <-; split; [done|]; exists []; split; [apply writes_refl|done]); try done.
  all: apply Hw in E as (Hs & l & Hl & Hq); split; [done|]; exists l; split; [done|]; by intros id' [= <-].
Qed.

Lemma on_events_kept l (r r' : Runtime) b :
  on_events l r = (Ok b, r') ->
  ru_pending r ⊆ ru_pending r'
  /\ exists ws, writes (ru_peer r) (ru_peer r') ws
       /\ forall id, id ∈ omap wanted l -> id ∈ ru_pending r' \/ question id ∈ ws.
Proof.
  revert r b; induction l as [|ev l IH]; intros r b E; cbn [on_events] in E.
  - injection E as _ <-. split; [done|]. exists []. split; [apply writes_refl|]. intros id Hid. by apply elem_of_nil in Hid.
  - apply hbind_Ok in E as (a & r1 & E1 & E). apply hbind_Ok in E as (b' & r2 & E2 & [= _ <-]).
    apply on_event_kept in E1 as (H1 & l1 & W1 & Q1). apply IH in E2 as (H2 & l2 & W2 & Q2).
    split; [set_solver|]. exists (l1 ++ l2). split; [by eapply writes_trans|]. intros id Hid.
    cbn [omap list_omap] in Hid. destruct (wanted ev) as [x|].
    + apply elem_of_cons in Hid as [->|Hid]; [destruct (Q1 x eq_refl)|destruct (Q2 id Hid)]; set_solver.
    + destruct (Q2 id Hid); set_solver.
Qed.

Lemma status_writes mtu (d d' : Peer) r :
  on_client (update_runtime_status mtu) d = (r, d') -> exists l, writes d d' l.
Proof. apply on_client_writes. intros c x c'. apply runtime_status_hushed. Qed.

Lemma publish_state_kept (r r' : Runtime) u :
  publish_state r = (Ok u, r') -> ru_pending r' = ru_pending r /\ dp_client (ru_peer r') = dp_client (ru_peer r).
Proof.
  unfold publish_state. intros E. apply hbind_Ok in E as (a & r1 & E1 & [= _ <-]).
  apply on_peer_run in E1 as (d & E1 & ->). unfold on_world, in_world in E1. destruct (host_local_addrs _).
  by injection E1 as _ <-.
Qed.

Lemma after_events_kept (r r' : Runtime) u :
  after_events r = (Ok u, r') -> ru_pending r' = ru_pending r /\ exists l, writes (ru_peer r) (ru_peer r') l.
Proof.
  unfold after_events. unfold hbind at 1, hget. cbn zeta. intros E.
  apply hbind_Ok in E as ([] & r1 & [= <-] & E). apply hbind_Ok in E as ([] & r2 & E2 & E).
  apply publish_state_kept in E as [-> Hc]. unfold writes. rewrite Hc.
  destruct (_ && _); [|injection E2 as <-; split; [done|]; exists []; apply writes_refl].
  apply hbind_Ok in E2 as (o & r3 & E3 & E2). pose proof E3 as E3'.
  apply attempt_spec in E3 as (_ & Hpe & _); [|intros; apply kept_on_client].
  apply attempt_writes in E3' as (l & Hl); [|intros d a d'; apply status_writes].
  destruct o; injection E2 as <-; (split; [done|]); by exists l.
Qed.

Lemma on_event_batch_kept (r r' : Runtime) u :
  on_event_batch r = (Ok u, r') ->
  ru_pending r ⊆ ru_pending r'
  /\ exists l, writes (ru_peer r) (ru_peer r') l
       /\ forall id, id ∈ omap wanted (take 64 (ru_events r)) -> id ∈ ru_pending r' \/ question id ∈ l.
Proof.
  unfold on_event_batch. unfold hbind at 1, hget. intros E. destruct (ru_events r) as [|ev evs] eqn:Ee.
  { injection E as _ <-. split; [done|]. exists []. split; [apply writes_refl|]. intros id Hid. by apply elem_of_nil in Hid. }
  apply hbind_Ok in E as ([] & r1 & [= <-] & E). apply hbind_Ok in E as (b & r2 & E2 & E).
  apply on_events_kept in E2 as (H2 & l2 & W2 & Q2). destruct b.
  - apply after_events_kept in E as (Hpe & l3 & W3). rewrite Hpe. split; [done|]. exists (l2 ++ l3).
    split; [by eapply writes_trans|]. intros id Hid. destruct (Q2 id Hid); set_solver.
  - injection E as _ <-. split; [done|]. by exists l2.
Qed.

Lemma flush_kept fuel (r r' : Runtime) u :
  flush_pending first fuel r = (Ok u, r') ->
  exists l, writes (ru_peer r) (ru_peer r') l
    /\ forall id, id ∈ ru_pending r -> id ∈ ru_pending r' \/ question id ∈ l.
Proof.
  revert r; induction fuel as [|fuel IH]; intros r E; cbn [flush_pending] in E.
  { injection E as _ <-. exists []. split; [apply writes_refl|auto]. }
  unfold hbind at 1, hget in E. destruct (first (ru_pending r)) as [x|].
  2:{ injection E as _ <-. exists []. split; [apply writes_refl|auto]. }
  apply hbind_Ok in E as (o & r1 & E1 & E). apply attempt_request in E1 as (Hpe & l & Hl & Ho').
  destruct o as [v|].
  - apply hbind_Ok in E as ([] & r2 & [= <-] & E). apply IH in E as (l' & Hl' & Hq).
    exists (l ++ l'). split; [by eapply writes_trans|]. intros id Hid. cbn in Hq. rewrite Hpe in Hq.
    destruct (decide (id = x)) as [->|Hne]; [right; set_solver|].
    destruct (Hq id ltac:(set_solver)); set_solver.
  - injection E as _ <-. exists l. split; [done|]. rewrite Hpe. auto.
Qed.

Lemma on_reconnect_kept (r r' : Runtime) u :
  on_reconnect me stun_fuel first r = (Ok u, r') ->
  forall id, id ∈ ru_pending r -> id ∈ ru_pending r' \/ question id ∈ cl_written (dp_client (ru_peer r')).
Proof.
  unfold on_reconnect. intros E id Hid. apply hbind_Ok in E as (res & r1 & E1 & E). unfold htry in E1.
  destruct (on_peer _ r) as [x r2] eqn:E2. injection E1 as <- <-. apply on_peer_run in E2 as (d & _ & ->).
  destruct x as [sn|e].
  - apply hbind_Ok in E as ([] & r3 & [= <-] & E). apply hbind_Ok in E as ([] & r4 & [= <-] & E).
    apply hbind_Ok in E as (? & r5 & [= <- <-] & E). apply hbind_Ok in E as ([] & r6 & E6 & E).
    assert (Hpe : ru_pending r6 = ru_pending r).
    { unfold report_mtu in E6. apply hbind_Ok in E6 as ([] & r7 & E7 & [= <-]).
      by apply on_peer_run in E7 as (d' & _ & ->). }
    apply flush_kept in E as (l & Hl & Hq). destruct (Hq id) as [|Hin]; [by rewrite Hpe|by left|right].
    rewrite Hl. set_solver.
  - destruct (is_retryable_control_error e); [|done]. apply hbind_Ok in E as ([] & r3 & E3 & [= _ <-]).
    apply disconnect_spec in E3 as (_ & _ & Hpe & _). left. cbn. by rewrite Hpe.
Qed.

(** *** The other branches *)

Definition waiting (p : gset bytes) (r : Runtime) : Prop := ru_pending r = p.

Lemma waiting_on_peer {A} p (m : D A) : keeps (waiting p) (on_peer m).
Proof. intros r Hr. unfold on_peer. by destruct (m (ru_peer r)). Qed.

(** Walk a branch; what the peer does leaves the fact alone, as [on_peer] says. *)
Ltac branch_walk on_peer_keeps :=
  unfold attempt, lost, disconnect; keeps_walk;
  repeat match goal with
  | |- keeps _ (on_peer _) => apply on_peer_keeps
  | |- keeps _ (hmodify _) => by apply keeps_modify
  | |- keeps _ (match ?x with _ => _ end) => destruct x; keeps_walk
  end.
Ltac waiting_walk := branch_walk @waiting_on_peer.

Lemma waiting_refresh p : keeps (waiting p) (refresh_after_config_change me stun_fuel).
Proof. unfold refresh_after_config_change. waiting_walk. Qed.

Lemma waiting_on_message p m : keeps (waiting p) (on_message me stun_fuel m : R unit).
Proof.
  unfold on_message, publish_snapshot. waiting_walk; try apply waiting_refresh.
Qed.

Lemma waiting_on_receive p : keeps (waiting p) (on_receive me stun_fuel : R unit).
Proof. unfold on_receive. waiting_walk; apply waiting_on_message. Qed.

Lemma waiting_on_command p : keeps (waiting p) (on_command me stun_fuel : R bool).
Proof.
  unfold on_command, on_snapshot_expired, start_ping, reply, publish_snapshot. waiting_walk; apply waiting_refresh.
Qed.

Lemma keeps_ok {A} (P : Runtime -> Prop) (m : R A) r a r' : keeps P m -> m r = (a, r') -> P r -> P r'.
Proof. intros Hm E Hr. specialize (Hm r Hr). by rewrite E in Hm. Qed.

(** The requests a turn has to serve: those that wait and those of the events it takes *)
Definition requested (k : Wake) (r : Runtime) (id : bytes) : Prop :=
  id ∈ ru_pending r \/ k = WakeEvents /\ id ∈ omap wanted (take 64 (ru_events r)).

(** The turn asked for the peer, on the connection it had or on the one it opened. *)
Definition asked (k : Wake) (r r' : Runtime) (id : bytes) : Prop :=
  match k with
  | WakeReconnect => question id ∈ cl_written (dp_client (ru_peer r'))
  | _ => exists l, writes (ru_peer r) (ru_peer r') l /\ question id ∈ l
  end.

Lemma turn_waiting k r b r' :
  k <> WakeReconnect -> k <> WakeEvents ->
  turn me stun_fuel first k r = (Ok b, r') -> ru_pending r' = ru_pending r.
Proof.
  intros H1 H2 E. apply (keeps_ok (waiting (ru_pending r))) in E; [done| |done].
  unfold turn, on_peers_tick, publish_state. keeps_walk. destruct k; try done; waiting_walk.
  all: apply waiting_on_command || apply waiting_on_receive.
Qed.

Lemma flush_empties fuel (r r' : Runtime) u :
  (forall s, first s = None -> s = ∅) -> (forall s x, first s = Some x -> x ∈ s) ->
  (size (ru_pending r) <= fuel)%nat ->
  flush_pending first fuel r = (Ok u, r') -> ru_connected r' = true -> ru_pending r' = ∅.
Proof.
  intros Hn Hs. revert r; induction fuel as [|fuel IH]; intros r Hf E Hc; cbn [flush_pending] in E.
  { injection E as _ <-. apply leibniz_equiv, size_empty_iff. lia. }
  unfold hbind at 1, hget in E. destruct (first (ru_pending r)) as [x|] eqn:Ex.
  2:{ injection E as _ <-. by apply Hn. }
  apply hbind_Ok in E as (o & r1 & E1 & E). apply attempt_request in E1 as (Hpe & l & _ & Ho').
  destruct o as [v|]; [|injection E as _ <-; congruence].
  apply hbind_Ok in E as ([] & r2 & [= <-] & E). apply IH in E; [done| |done]. cbn. rewrite Hpe.
  apply Hs in Ex. rewrite size_difference, size_singleton by set_solver. lia.
Qed.

Lemma reconnect_empties (r r' : Runtime) u :
  (forall s, first s = None -> s = ∅) -> (forall s x, first s = Some x -> x ∈ s) ->
  on_reconnect me stun_fuel first r = (Ok u, r') -> ru_connected r' = true -> ru_pending r' = ∅.
Proof.
  intros Hn Hs. unfold on_reconnect. intros E Hc. apply hbind_Ok in E as (res & r1 & E1 & E). unfold htry in E1.
  destruct (on_peer _ r) as [x r2] eqn:E2. injection E1 as <- <-. destruct x as [sn|e].
  - apply hbind_Ok in E as ([] & r3 & [= <-] & E). apply hbind_Ok in E as ([] & r4 & [= <-] & E).
    apply hbind_Ok in E as (r5 & r5' & [= <- <-] & E). apply hbind_Ok in E as ([] & r6 & E6 & E).
    eapply flush_empties; [done..| |exact E|done].
    unfold report_mtu in E6. apply hbind_Ok in E6 as ([] & r7 & E7 & [= <-]).
    by apply on_peer_run in E7 as (d' & _ & ->).
  - destruct (is_retryable_control_error e); [|done]. apply hbind_Ok in E as ([] & r3 & E3 & [= _ <-]).
    apply disconnect_spec in E3 as (_ & Hf & _). cbn in Hc. congruence.
Qed.

(** C10: A turn of the loop forgets no request to connect.  A peer the node asked for,
    earlier or in the events of this turn, still waits afterwards, or the server
    was sent a lookup of it; and a reconnect after which the runtime is connected
    leaves none waiting. *)
Theorem requests_kept (k : Wake) (r r' : Runtime) (b : bool) :
  (forall s, first s = None -> s = ∅) -> (forall s x, first s = Some x -> x ∈ s) ->
  turn me stun_fuel first k r = (Ok b, r') ->
  (forall id, requested k r id -> id ∈ ru_pending r' \/ asked k r r' id)
  /\ (k = WakeReconnect -> ru_connected r = false -> ru_connected r' = true -> ru_pending r' = ∅).
Proof.
  intros Hn Hs E.
  destruct (decide (k = WakeReconnect)) as [->|Hk]; [|destruct (decide (k = WakeEvents)) as [->|Hk']].
  - unfold turn in E. unfold hbind at 1, hget in E. destruct (ru_connected r).
    { injection E as _ <-. split; [|done]. intros id [|[? _]]; [by left|done]. }
    apply hbind_Ok in E as ([] & r1 & E & [= _ <-]). split; [|intros _ _; by eapply reconnect_empties].
    intros id [Hid|[? _]]; [|done]. by eapply on_reconnect_kept.
  - split; [|done]. unfold turn in E. unfold hbind at 1, hget in E.
    apply hbind_Ok in E as ([] & r1 & E & [= _ <-]). apply on_event_batch_kept in E as (Hp' & l & Hl & Hq).
    intros id [|[_ Hid]]; [left; set_solver|]. destruct (Hq id Hid); [by left|right; by exists l].
  - apply turn_waiting in E; [|done..]. split; [|done]. intros id [|[? _]]; [left; by rewrite E|done].
Qed.

(** ** Pings *)

Definition ping_channels (l : list RuntimeCommand) : gmultiset nat :=
  list_to_set_disj (omap (fun c => match c with PingPeer _ _ _ to_ => Some to_ | _ => None end) l).

(** The reply channels of pings: asked for, running or answered *)
Definition channels (r : Runtime) : gmultiset nat :=
  ping_channels (ru_commands r) ⊎ list_to_set_disj (map pt_reply (ru_pings r))
  ⊎ list_to_set_disj (map fst (ru_replies r)).

Definition ledger (c : gmultiset nat) (r : Runtime) : Prop := channels r = c.

Lemma ledger_on_peer {A} c (m : D A) : keeps (ledger c) (on_peer m).
Proof. intros r Hr. unfold on_peer. by destruct (m (ru_peer r)). Qed.

Ltac ledger_walk := branch_walk @ledger_on_peer.

Lemma ledger_refresh c : keeps (ledger c) (refresh_after_config_change me stun_fuel).
Proof. unfold refresh_after_config_change. ledger_walk. Qed.

Lemma ledger_publish c : keeps (ledger c) (publish_state : R unit).
Proof. unfold publish_state. ledger_walk. Qed.

Lemma ledger_on_message c m : keeps (ledger c) (on_message me stun_fuel m : R unit).
Proof. unfold on_message, publish_snapshot. ledger_walk; apply ledger_refresh. Qed.

Lemma ledger_on_receive c : keeps (ledger c) (on_receive me stun_fuel : R unit).
Proof. unfold on_receive. ledger_walk; apply ledger_on_message. Qed.

Lemma ledger_flush c fuel : keeps (ledger c) (flush_pending first fuel : R unit).
Proof. induction fuel; cbn [flush_pending]; ledger_walk; apply IHfuel. Qed.

Lemma ledger_on_reconnect c : keeps (ledger c) (on_reconnect me stun_fuel first : R unit).
Proof. unfold on_reconnect, publish_snapshot, report_mtu. ledger_walk; apply ledger_flush. Qed.

Lemma ledger_on_event c ev : keeps (ledger c) (on_event ev : R bool).
Proof. unfold on_event. ledger_walk. Qed.

Lemma ledger_on_event_batch c : keeps (ledger c) (on_event_batch : R unit).
Proof.
  assert (Hes : forall l, keeps (ledger c) (on_events l : R _)).
  { induction l; cbn [on_events]; ledger_walk; apply ledger_on_event || apply IHl. }
  unfold on_event_batch, after_events, report_mtu. ledger_walk; first [apply Hes|apply ledger_publish|idtac].
Qed.

(** A reply or a task takes the channel of the command. *)
Lemma ledger_start_ping c target count timeout to_ (r : Runtime) :
  channels r ⊎ {[+ to_ +]} = c -> ledger c (snd (start_ping target count timeout to_ r)).
Proof.
  intros Hc.
  assert (Hreply : forall x (r1 : Runtime), channels r1 ⊎ {[+ to_ +]} = c -> ledger c (snd (reply to_ x r1))).
  { intros x r1 H1. unfold ledger, channels, reply, hmodify. cbn. rewrite map_app, list_to_set_disj_app, <- H1.
    apply ledger_answered. }
  unfold start_ping. destruct (validate_ping count timeout); [|by apply Hreply].
  unfold hbind at 1, hget. destruct (_ ≫= _) as [peer|]; [|by apply Hreply].
  unfold hbind at 1, htry. destruct (on_peer _ r) as [x r1] eqn:E. apply on_peer_run in E as (d & _ & ->).
  destruct x; [|by apply Hreply]. unfold ledger, channels, hmodify. cbn.
  rewrite map_app, list_to_set_disj_app, <- Hc. apply ledger_running.
Qed.

Lemma ledger_on_command c : keeps (ledger c) (on_command me stun_fuel : R bool).
Proof.
  intros r Hr. unfold on_command. unfold hbind at 1, hget. destruct (ru_commands r) as [|cmd rest] eqn:Ec; [done|].
  unfold hbind at 1, hmodify. destruct cmd as [|target count timeout to_].
  - assert (Hm : keeps (ledger c) (let! _ := on_snapshot_expired me stun_fuel in hret false : R bool)).
    { unfold on_snapshot_expired, publish_snapshot. ledger_walk; apply ledger_refresh. }
    apply Hm. unfold ledger, channels in *. cbn. rewrite Ec in Hr. done.
  - assert (Hs : ledger c (snd (start_ping target count timeout to_ (set_ru_commands rest r)))).
    { apply ledger_start_ping. unfold ledger, channels, ping_channels in *. rewrite Ec in Hr. cbn in *.
      rewrite <- Hr. apply ledger_taken. }
    unfold hbind. by destruct (start_ping _ _ _ _ _) as [[]].
Qed.

Lemma ledger_turn c k : keeps (ledger c) (turn me stun_fuel first k : R bool).
Proof.
  unfold turn, on_peers_tick. keeps_walk. destruct k; ledger_walk.
  all: first [apply ledger_on_command|apply ledger_on_receive|apply ledger_on_reconnect|apply ledger_publish
             |apply ledger_on_event_batch].
Qed.

(** A task gets a permit. *)
Lemma ledger_ping_admitted i (r : Runtime) : channels (ping_admitted i r) = channels r.
Proof.
  unfold ping_admitted. destruct (_ <? _)%nat; [|done]. unfold channels. cbn [set_ru_pings ru_commands ru_pings ru_replies].
  do 3 f_equal. generalize (ru_pings r). revert i. induction i as [|i IH]; intros [|t l]; cbn; [done..|].
  f_equal. apply IH.
Qed.

Lemma ledger_ping_ended i outcome (r : Runtime) :
  match outcome with Ok (_, _, result) => pg_rtts result <> [] | Err _ => True end ->
  channels (ping_ended i outcome r) = channels r.
Proof.
  intros Ho'. unfold ping_ended. destruct (ru_pings r !! i) as [t|] eqn:Et; [|done].
  assert (Hp' : list_to_set_disj (map pt_reply (ru_pings r)) =
            ({[+ pt_reply t +]} ⊎ list_to_set_disj (map pt_reply (delete i (ru_pings r))) : gmultiset nat)).
  { rewrite (delete_Permutation _ _ _ Et) at 1. done. }
  destruct outcome as [[[ms addrs] result]|e]; unfold channels; cbn; rewrite Hp'.
  - unfold PingReport_from_result. destruct (pg_rtts result); [done|]. cbn. rewrite map_app, list_to_set_disj_app.
    apply ledger_moved.
  - rewrite map_app, list_to_set_disj_app. apply ledger_moved.
Qed.


(** ** What a refresh leaves out *)

Definition published (p : option NetworkSnapshot) (r : Runtime) : Prop := ru_published r = p.

Lemma published_on_peer {A} p (m : D A) : keeps (published p) (on_peer m).
Proof. intros r Hr. unfold on_peer. by destruct (m (ru_peer r)). Qed.

(** The snapshot that a refresh brings is never given to the TUN interface. *)
Lemma refresh_not_published (r : Runtime) :
  ru_published (snd (turn me stun_fuel first WakeRefresh r)) = ru_published r.
Proof.
  cut (keeps (published (ru_published r)) (turn me stun_fuel first WakeRefresh)); [intros H; by apply H|].
  unfold turn. keeps_walk; branch_walk @published_on_peer.
Qed.

(** A snapshot older than the one in use ends the loop. *)
Lemma stale_snapshot_stops sn (r : Runtime) :
  fst (on_peer (peer_apply_snapshot me sn) r) = Err (Diag_Core StaleSnapshot) ->
  fst (on_message me stun_fuel (SnapshotMsg sn) r) = Err (Diag_Core StaleSnapshot).
Proof. unfold on_message. unfold hbind at 1. by destruct (on_peer _ r) as [x r1] eqn:E; cbn; intros ->. Qed.

(** [DiagnosticPeer::run_loop] takes all requests and, when one fails, puts back only that one. *)
Lemma flush_taken_forgets id ids (r r' : Runtime) :
  ru_pending r = ∅ -> attempt (request_peer_connection id) r = (Ok None, r') ->
  flush_taken (id :: ids) r = (Ok tt, set_ru_pending {[id]} r').
Proof.
  intros Hp' E. cbn [flush_taken]. unfold hbind. rewrite E. apply attempt_request in E as (Hpe & _).
  unfold hmodify. do 3 f_equal. rewrite Hpe, Hp'. set_solver.
Qed.
End serve.

(** ** The report of a ping *)

#[local] Open Scope Z_scope.

Lemma fold_min_spec l x : (fold_left Z.min l x ∈ x :: l) /\ Forall (Z.le (fold_left Z.min l x)) (x :: l).
Proof.
  revert x; induction l as [|y l IH]; intros x; cbn; [repeat constructor; lia|].
  destruct (IH (Z.min x y)) as [Hin Hall]. inversion_clear Hall. split.
  - destruct (Z.min_spec x y) as [[? E]|[? E]]; rewrite E in *; set_solver.
  - constructor; [lia|]. constructor; [lia|done].
Qed.

Lemma fold_max_spec l x : (fold_left Z.max l x ∈ x :: l) /\ Forall (fun y => (y <= fold_left Z.max l x)%Z) (x :: l).
Proof.
  revert x; induction l as [|y l IH]; intros x; cbn; [repeat constructor; lia|].
  destruct (IH (Z.max x y)) as [Hin Hall]. inversion_clear Hall. split.
  - destruct (Z.max_spec x y) as [[? E]|[? E]]; rewrite E in *; set_solver.
  - constructor; [lia|]. constructor; [lia|done].
Qed.

Lemma sum_between lo hi l s :
  Forall (fun y => lo <= y <= hi) l ->
  s + lo * Z.of_nat (length l) <= fold_left Z.add l s <= s + hi * Z.of_nat (length l).
Proof.
  revert s; induction l as [|x l IH]; intros s Hl; cbn; [lia|]. inversion_clear Hl.
  specialize (IH (s + x) ltac:(done)). lia.
Qed.

(** The report of a ping exists whenever a round trip was measured; its minimum and
    maximum are round trips of the list, every round trip lies between them, and so
    does the average. *)
Theorem ping_report_bounds target peer connect_ms addrs (res : PingResult) :
  match PingReport_from_result target peer connect_ms addrs res with
  | None => pg_rtts res = []
  | Some rp =>
      rp_rtts_ms rp = map (fun d => d / 10 ^ 6) (pg_rtts res)
      /\ rp_min_rtt_ms rp ∈ rp_rtts_ms rp /\ rp_max_rtt_ms rp ∈ rp_rtts_ms rp
      /\ Forall (fun d => rp_min_rtt_ms rp <= d <= rp_max_rtt_ms rp) (rp_rtts_ms rp)
      /\ rp_min_rtt_ms rp <= rp_avg_rtt_ms rp <= rp_max_rtt_ms rp
  end.
Proof.
  unfold PingReport_from_result. destruct (pg_rtts res) as [|d l]; [done|].
  cbn [map]. set (x := d / 10 ^ 6). set (xs := map _ l). cbn [list_min list_max default from_option id rp_rtts_ms rp_min_rtt_ms rp_max_rtt_ms rp_avg_rtt_ms].
  destruct (fold_min_spec xs x) as [Hmin Hlo]. destruct (fold_max_spec xs x) as [Hmax Hhi].
  assert (Hall : Forall (fun y => fold_left Z.min xs x <= y <= fold_left Z.max xs x) (x :: xs))
    by (apply List.Forall_and; done).
  pose proof (sum_between _ _ _ 0 Hall) as Hs.
  assert (Hn : 0 < Z.of_nat (length (x :: xs))) by (cbn; lia). revert Hs Hn.
  generalize (fold_left Z.add (x :: xs) 0), (Z.of_nat (length (x :: xs))). intros s n Hs Hn. split_and!; try done.
  - apply Z.div_le_lower_bound; nia.
  - apply Z.div_le_upper_bound; [done|]. rewrite Z.mul_comm. apply Hs.
Qed.

(** ** On the sample *)

Lemma next_none s : next s = None -> s = ∅.
Proof.
  unfold next. intros E. apply head_None in E. by apply elements_empty_inv, leibniz_equiv in E.
Qed.

Lemma next_some s x : next s = Some x -> x ∈ s.
Proof. unfold next. intros E. apply elem_of_elements. destruct (elements s); [done|]. injection E as ->. left. Qed.

(** A snapshot of the first member waits in the queue while the one of the second
    arrives with a refresh. *)
Definition overtaken : Script :=
  [[text (SnapshotMsg (member_snapshot sample_first)); text (ListPeersOk [])];
   [text (SnapshotResponse (member_snapshot sample_second))]; []].
Definition refreshed : SampleRuntime := snd (sample_turn WakeRefresh (snd (sample_turn WakePeers (started overtaken)))).

(** The TUN interface keeps the snapshot of the first, and the message that waits stops the loop. *)
Lemma overtaken_stops :
  generation <$> sv_snapshot (dp_state (ru_peer refreshed)) = Some (generation (member_snapshot sample_second))
  /\ generation <$> ru_published refreshed = Some (generation (member_snapshot sample_first))
  /\ (generation (member_snapshot sample_first) <? generation (member_snapshot sample_second)) = true
  /\ fst (sample_turn WakeMessage refreshed) = Err (Diag_Core StaleSnapshot).
Proof. vm_compute. done. Qed.

(** A request waits while the server is away; the runtime connects again and asks. *)
Definition answers : list (Z * Outgoing) :=
  List.filter (fun m => m.1 =? 1)
    (cs_sent (snd (sample_handle 1 (Some (toy_node 1)) (LookupPeer (toy_node 2)) 200 sample_second))).
Definition looked_up : list Frame :=
  match head (rev answers) with Some (_, Control m) => [text m] | _ => [] end.
Definition returns : Script :=
  [[registered]; [text (SnapshotResponse (member_snapshot sample_second))]; looked_up].
Definition away : SampleRuntime :=
  set_ru_pending {[toy_node 2]} (set_ru_connected false (started returns)).
Definition back : SampleRuntime := snd (sample_turn WakeReconnect away).

Lemma requests_kept_witness :
  ru_connected back = true /\ ru_pending back = ∅
  /\ question (J := message_json) (toy_node 2) ∈ cl_written (dp_client (ru_peer back)).
Proof.
  assert (Hc : ru_connected back = true) by (vm_compute; reflexivity).
  destruct (requests_kept (HH := toy_hash) (HT := sample_text) (J := message_json) member 0 next
              WakeReconnect away back false) as [Hk He].
  - apply next_none.
  - apply next_some.
  - unfold back. apply outcome. vm_compute. reflexivity.
  - assert (Hp : ru_pending back = ∅) by (apply He; [done|vm_compute; reflexivity|done]).
    split_and!; [done|done|].
    destruct (Hk (toy_node 2)) as [Hin|Ha].
    + left. unfold away. cbn [ru_pending set_ru_pending]. by apply elem_of_singleton.
    + rewrite Hp in Hin. destruct (not_elem_of_empty _ Hin).
    + unfold asked in Ha. exact Ha.
Defined.
