(* ===== verification/PeerLoop.v ===== *)
(** * The loop of a peer without a TUN interface

    [DiagnosticPeer::run_loop] of [vela-diagnostic/src/lib.rs], behind
    [DiagnosticPeer::run] and [run_with_dashboard].  It shares its variables and most of its steps with the
    runtime of [runtime.rs]: the state is that of [Runtime], of which it leaves
    the queues of commands, packets and pings, and the snapshot for the TUN
    interface, alone.  It reads the events of the node itself, one at a time, and
    takes the waiting requests out of their set before it makes them.  The
    theorem is that its peer stays as consistent as that of the runtime. *)
From S2P Require Import Prelude Net Encoding Wire NodeId Snapshot SignedBytes Crypto Ip Replay Path Handshake.
From S2P Require Import NodeState NodePeers NodeSend NodeSession NodeData NodeTimers NodeInv NodeSample.
From S2P Require Import Control Text CoordDb Coord CoordInv Dns Stun CoordClient NodeView Codec ClientServer.
From S2P Require Import Diagnostic DiagnosticInv Runtime RuntimeInv RuntimeSample.

Section loop.
Context {HH : Hash} {HSg : SignatureOps} {HA : AeadOps} {HK : HkdfOps} {HN : NoiseOps}.
Context {HT : TextOps} {J : ControlJson}.
Context {W : Type} {Sk : StunSocket W} {Hp : Http W} {Tr : Transport W} {Ho : PeerHost W}.
(** The order of a hash set, and whether there is a dashboard *)
Context (me : Local) (stun_fuel : nat) (order : list bytes -> list bytes) (dashboard : bool).

Abbreviation Peer := (@Peer HN W).
Abbreviation Runtime := (@Runtime HN W).
Abbreviation R A := (handler Runtime DiagnosticError A).

(** The dashboard shows the status that the runtime publishes, and values that are
    only displayed. *)
Definition publish_dashboard : R unit := if dashboard then publish_state else hret tt.

(** A message of the server: that of the runtime, without a TUN interface to tell *)
Definition peer_on_message (m : ControlMessage) : R unit :=
  match m with
  | SnapshotMsg sn =>
      let! changed := on_peer (peer_apply_snapshot me sn) in
      if changed then refresh_after_config_change me stun_fuel else hret tt
  | m => on_message me stun_fuel m
  end.

Definition peer_on_receive : R unit :=
  let! res := (htry (on_peer (on_client recv)) : R (result ControlMessage DiagnosticError)) in
  match res with
  | Ok m => peer_on_message m
  | Err (Coordination (Client_Timeout _)) => hret tt
  | Err e => lost e
  end.

Definition peer_on_reconnect : R unit :=
  let! res := (htry (on_peer (peer_reconnect me stun_fuel)) : R (result NetworkSnapshot DiagnosticError)) in
  match res with
  | Ok _ =>
      let! _ := hmodify (fun r => set_ru_backoff 1 (set_ru_error None (set_ru_connected true r))) in
      flush_pending_lib order
  | Err e =>
      if is_retryable_control_error e then
        let! _ := disconnect e in
        hmodify (fun r => set_ru_backoff (Z.min (ru_backoff r * 2) 30) r)
      else hfail e
  end.

(** [VelaNode::next_event]: the control events first *)
Definition next_event : R (option VelaEvent) := fun r =>
  let '(batch, n) := next_event_batch 1 (dp_node (ru_peer r)) in
  (Ok (head batch), set_ru_peer (set_dp_node n (ru_peer r)) r).

Definition peer_on_event : R unit :=
  let! ev := next_event in
  match ev with
  | None => hret tt
  | Some ev =>
      let! publish := on_event ev in
      if publish then publish_dashboard else hret tt
  end.

Inductive PeerWake : Type :=
| PeerMessage | PeerRefresh | PeerReconnect | PeerDashboard | PeerPeers | PeerEvent | PeerStopped.

(** One turn of the loop, which only an error ends; [PeerStopped] is the end of
    the events of a node that was shut down. *)
Definition peer_turn (k : PeerWake) : R unit :=
  let! r := hget in
  let connected := ru_connected r in
  match k with
  | PeerMessage => if connected then peer_on_receive else hret tt
  | PeerRefresh => if connected then refresh_after_config_change me stun_fuel else hret tt
  | PeerReconnect => if connected then hret tt else peer_on_reconnect
  | PeerDashboard => publish_dashboard
  | PeerPeers => if dashboard && connected then on_peers_tick else hret tt
  | PeerEvent => peer_on_event
  | PeerStopped => hfail Diag_TransportFailed
  end.

(** The variables at the start of the loop *)
Definition peer_variables (d : Peer) : Runtime :=
  mkRun d [] None (node_mtu d) true None ∅ [] 1 0 None false [] [] [] [] [] 0 None.

Definition peer_begin : R unit :=
  if dashboard then
    let! l := on_peer peer_list_peers in
    let! _ := hmodify (set_ru_peers l) in
    publish_state
  else hret tt.

(** The loop interleaved with the tasks of the node *)
Inductive peer_step : Runtime -> Runtime -> Prop :=
| ps_turn k r r' : peer_turn k r = (Ok tt, r') -> peer_step r r'
| ps_node r d : node_moves me (ru_peer r) d -> peer_step r (set_ru_peer d r).

Definition peer_reachable (r : Runtime) : Prop :=
  exists s stun mtu w d r1, open_with_mtu me stun_fuel s stun mtu w = Ok d
    /\ peer_begin (peer_variables d) = (Ok tt, r1) /\ rtc peer_step r1 r.

(** ** The invariant *)

Context {JL : ControlJsonLaws J}.

Ltac oks_walk :=
  repeat match goal with
  | |- oks _ (hbind _ _) => apply oks_bind; [|intros ?]
  | |- oks _ (hret _) => apply oks_ret
  | |- oks _ (hfail _) => apply oks_fail
  | |- oks _ hget => apply oks_get
  | |- oks _ (hmodify _) => apply oks_modify; by intros ?
  | |- oks _ (let _ := _ in _) => cbn zeta
  | |- oks _ (match ?x with _ => _ end) => destruct x
  end.

Lemma fine_publish_dashboard : oks fine (publish_dashboard : R unit).
Proof. unfold publish_dashboard. oks_walk. apply fine_publish_state. Qed.

Lemma fine_flush_taken ids : oks fine (flush_taken ids : R unit).
Proof.
  induction ids as [|id ids IH]; cbn [flush_taken]; oks_walk; [|apply IH].
  apply oks_attempt_still. intros. apply still_request_connection.
Qed.

Lemma fine_next_event : oks fine next_event.
Proof.
  intros r a r'. unfold next_event. unfold next_event_batch, next_control_event_batch, next_data_event_batch.
  cbn zeta. intros [= _ <-].
  match goal with |- fine r (set_ru_peer ?d r) => assert (Hs : still (ru_peer r) d) by (by split_and!) end.
  split; [by apply still_kept|]. by split_and!.
Qed.

Lemma fine_peer_event : oks fine (peer_on_event : R unit).
Proof.
  unfold peer_on_event. oks_walk; [apply fine_next_event|apply fine_on_event|apply fine_publish_dashboard].
Qed.

Lemma fine_config_change : oks fine (refresh_after_config_change me stun_fuel : R unit).
Proof. unfold refresh_after_config_change. oks_walk. apply fine_refresh. Qed.

Lemma oks_settles {A} (m : handler Peer DiagnosticError A) :
  (forall d0, keeps (kept d0) m) -> (forall a d d', m d = (Ok a, d') -> settled d -> settled d') ->
  oks fine (on_peer m).
Proof.
  intros Hk Hs r a r' E. apply on_peer_run in E as (d & E & ->). pose proof E as Hd.
  apply (keeps_run kept) in Hd; [|apply kept_refl|exact Hk].
  split; [done|]. split_and!; try done. intros Hon Hc. by eapply Hs, Hon.
Qed.

Lemma fine_peer_message m : oks fine (peer_on_message m : R unit).
Proof.
  destruct (is_snapshot m) eqn:Em; [destruct m; try done|destruct m; try done; by apply fine_on_message].
  cbn [peer_on_message]. oks_walk; [|apply fine_config_change].
  apply oks_settles; [intros; apply kept_apply_snapshot|]. intros a d d' E Hs. by apply apply_settles in E as [? _].
Qed.

Definition peer_inv (r : Runtime) : Prop := runtime_inv r /\ ru_notified r = false.

Lemma fine_peer_inv r r' : fine r r' -> peer_inv r -> peer_inv r'.
Proof. intros Hf [Hi Hn]. split; [by eapply fine_inv|]. destruct Hf as (_ & _ & _ & _ & _ & _ & E & _). congruence. Qed.

Lemma peer_inv_disconnect e r u r' : disconnect e r = (Ok u, r') -> base r -> ru_notified r = false -> peer_inv r'.
Proof.
  intros E Hb Hn. apply disconnect_spec in E as (Hst & Hc & _). pose proof Hst as (_ & _ & _ & _ & _ & _ & En).
  split; [|congruence]. split_and!; [by eapply steady_base|intros H; congruence|]. intros _. by right.
Qed.

Lemma inv_peer_receive r u r' : peer_on_receive r = (Ok u, r') -> peer_inv r -> peer_inv r'.
Proof.
  intros E Hi. unfold peer_on_receive in E. apply hbind_Ok in E as (res & r1 & E1 & E).
  apply (oks_try (on_client recv)) in E1; [|intros; apply still_recv].
  pose proof (fine_peer_inv _ _ E1 Hi) as Hi1. destruct res as [m|e].
  - by eapply fine_peer_inv; [eapply fine_peer_message|].
  - assert (Hl : forall e, lost e r1 = (Ok u, r') -> peer_inv r').
    { intros e' E'. unfold lost in E'. destruct (is_retryable_control_error e'); [|done].
      eapply peer_inv_disconnect; [done|apply Hi1..]. }
    destruct e as [ | | |ce| | | | | | | | | | | ]; try (by eapply Hl).
    destruct ce; try (by eapply Hl). by injection E as _ <-.
Qed.

(** What a reconnect leaves, whether it succeeds or not *)
Lemma peer_inv_reconnected r d res :
  peer_reconnect me stun_fuel (ru_peer r) = (res, d) -> peer_inv r ->
  base (set_ru_peer d r) /\ (is_ok res = true ->
    peer_inv (set_ru_backoff 1 (set_ru_error None (set_ru_connected true (set_ru_peer d r))))).
Proof.
  intros E [(Hb & _) Hn]. pose proof E as Hk.
  apply (keeps_run kept) in Hk; [|apply kept_refl|intros; apply kept_reconnect].
  assert (Hb' : base (set_ru_peer d r)) by (eapply steady_base; [by apply steady_peer|done]).
  split; [done|]. destruct res as [sn|]; [|done]. intros _. apply peer_reconnect_ok in E as [Hs _].
  destruct Hb' as (H1 & H2 & H3 & H4). split; [|done]. split_and!; try done; try apply H4; [by intros _|].
  intros Hx. cbn in Hx. congruence.
Qed.

Lemma inv_peer_reconnect r u r' : peer_on_reconnect r = (Ok u, r') -> peer_inv r -> peer_inv r'.
Proof.
  intros E Hi. unfold peer_on_reconnect in E. apply hbind_Ok in E as (res & r1 & E1 & E). unfold htry in E1.
  destruct (on_peer _ r) as [x r2] eqn:E2. injection E1 as <- <-. apply on_peer_run in E2 as (d & E2 & ->).
  apply peer_inv_reconnected in E2 as [Hb Hok]; [|done]. destruct x as [sn|e].
  - apply hbind_Ok in E as ([] & r3 & [= <-] & E). unfold flush_pending_lib in E.
    apply hbind_Ok in E as (? & r4 & [= <- <-] & E). apply hbind_Ok in E as ([] & r5 & [= <-] & E).
    eapply fine_peer_inv; [by eapply fine_flush_taken|]. by apply Hok.
  - destruct (is_retryable_control_error e); [|done]. apply hbind_Ok in E as ([] & r3 & E3 & [= _ <-]).
    eapply peer_inv_disconnect in E3 as [((H1 & H2 & H3 & H4) & Hon & Ha) Hn]; [|done|apply Hi].
    split; [|done]. split; [|done]. split_and!; try done; try apply H4; cbn; lia.
Qed.

Lemma inv_peer_turn k r u r' : peer_turn k r = (Ok u, r') -> peer_inv r -> peer_inv r'.
Proof.
  unfold peer_turn. unfold hbind at 1, hget. cbn zeta. intros E Hi.
  assert (Hfine : forall m : R unit, oks fine m -> m r = (Ok u, r') -> peer_inv r')
    by (intros m Hm Em; eapply fine_peer_inv; [by eapply Hm|done]).
  destruct k.
  - destruct (ru_connected r); [by eapply inv_peer_receive|by injection E as _ <-].
  - eapply Hfine, E. oks_walk. apply fine_config_change.
  - destruct (ru_connected r); [by injection E as _ <-|by eapply inv_peer_reconnect].
  - eapply Hfine, E. apply fine_publish_dashboard.
  - eapply Hfine, E. oks_walk. apply fine_peers_tick.
  - eapply Hfine, E. apply fine_peer_event.
  - done.
Qed.

Lemma inv_peer_begin r1 d : peer_begin (peer_variables d) = (Ok tt, r1) -> settled d -> peer_inv r1.
Proof.
  intros E Hs. eapply (fine_peer_inv (peer_variables d)).
  - eapply (_ : oks fine peer_begin), E. Unshelve. unfold peer_begin.
    oks_walk; [|apply fine_publish_state]. apply oks_on_peer. intros. apply still_list_peers.
  - split; [|done]. split; [|by split; [intros _|]]. split_and!; try (cbn; lia); [apply Hs|done].
Qed.

(** In every state the loop reaches, whatever the server sends and the tasks of
    the node do, the snapshot it saved, the view of its node and the servers it
    uses agree; while it counts as connected it has told the server exactly the
    candidates it holds; and the backoff stays between 1 and 30 seconds. *)
Theorem peer_loop_invariant r : peer_reachable r -> peer_inv r.
Proof.
  intros (s & stun & mtu & w & d & r1 & Eo & Eb & Hr). apply open_with_mtu_ok in Eo as [Hs _].
  apply inv_peer_begin in Eb; [|done]. induction Hr as [r|r r2 r3 Hstep _ IH]; [done|]. apply IH.
  destruct Hstep as [k r r' E|r d' (n & _ & Hv & ->)]; [by eapply inv_peer_turn|].
  destruct Eb as [Hi Hn]. split; [|done]. apply inv_move; [by split_and!|done].
Qed.
End loop.

(** A second member registers: the loop, which has asked for the peers twice,
    takes the snapshot to its node. *)
Abbreviation sample_peer_turn := (peer_turn (HH := toy_hash) (HT := sample_text) (J := message_json) member 0 id true).

Definition peer_started : SampleRuntime :=
  snd (peer_begin (J := message_json) true (peer_variables (opened second_joins))).
Definition peer_listed : SampleRuntime := snd (sample_peer_turn PeerPeers peer_started).
Definition peer_waited : SampleRuntime := snd (sample_peer_turn PeerMessage peer_listed).
Definition peer_told : SampleRuntime := snd (sample_peer_turn PeerMessage peer_waited).

Lemma peer_told_reachable :
  peer_reachable (HH := toy_hash) (HT := sample_text) (J := message_json) member 0 id true peer_told.
Proof.
  exists saved, None, 1400, (script ++ second_joins), (opened second_joins), peer_started.
  split; [apply opened_ok; vm_compute; reflexivity|].
  split; [unfold peer_started; apply outcome; vm_compute; reflexivity|].
  apply (rtc_l _ _ peer_listed); [|apply (rtc_l _ _ peer_waited); [|apply rtc_once]].
  - apply (ps_turn _ _ _ _ PeerPeers). unfold peer_listed. apply outcome. vm_compute. reflexivity.
  - apply (ps_turn _ _ _ _ PeerMessage). unfold peer_waited. apply outcome. vm_compute. reflexivity.
  - apply (ps_turn _ _ _ _ PeerMessage). unfold peer_told. apply outcome. vm_compute. reflexivity.
Qed.

Lemma peer_loop_follows :
  peer_generation (ru_peer peer_told) = generation (member_snapshot sample_second)
  /\ peer_inv (J := message_json) peer_told.
Proof.
  split; [vm_compute; reflexivity|].
  apply (peer_loop_invariant (HH := toy_hash) (HT := sample_text) (J := message_json) member 0 id true
           (JL := message_json_laws)), peer_told_reachable.
Qed.
