(* ===== verification/LocalControl.v ===== *)
(** * Local control

    [vela-diagnostic/src/local_control.rs]: the HTTP service a running peer offers
    on a Unix socket and on the port of the dashboard, and the client of the
    command line.  A stream is the list of what its reads give; the JSON of the
    values and the dashboard page are the class [LocalJson]. *)
From S2P Require Import Prelude Net Encoding Wire NodeId Snapshot SignedBytes Crypto Ip Replay Path Handshake.
From S2P Require Import NodeState NodePeers NodeSend NodeSession NodeData NodeTimers NodeInv.
From S2P Require Import Control Text CoordDb Coord CoordInv Dns Stun CoordClient NodeView Diagnostic Runtime.

Definition CONTROL_VERSION : Z := 1.
Definition MAX_REQUEST_BYTES : Z := 128 * 1024.
Definition MAX_RESPONSE_BYTES : Z := 1024 * 1024.
Definition USIZE_MAX : Z := 2 ^ 64 - 1.

(** ** Strings *)

(** [std::str::from_utf8]: the well-formed sequences of the Unicode standard *)
Definition between (lo hi c : Z) : bool := (lo <=? c) && (c <=? hi).
Definition continuation (c : Z) : bool := between 128 191 c.

Fixpoint utf8_valid (l : bytes) : bool :=
  match l with
  | [] => true
  | a :: l1 =>
      if between 0 127 a then utf8_valid l1 else
      match l1 with
      | [] => false
      | b :: l2 =>
          if between 0xC2 0xDF a then continuation b && utf8_valid l2 else
          match l2 with
          | [] => false
          | c :: l3 =>
              if between 0xE0 0xEF a then
                between (if a =? 0xE0 then 0xA0 else 128) (if a =? 0xED then 0x9F else 191) b
                && continuation c && utf8_valid l3
              else
              match l3 with
              | [] => false
              | d :: l4 =>
                  between 0xF0 0xF4 a
                  && between (if a =? 0xF0 then 0x90 else 128) (if a =? 0xF4 then 0x8F else 191) b
                  && continuation c && continuation d && utf8_valid l4
              end
          end
      end
  end.

(** [value.split(sep)]; a separator is not empty, so the length is enough fuel. *)
Fixpoint split_loop (fuel : nat) (sep l : bytes) : list bytes :=
  match fuel with
  | O => [l]
  | S fuel' => match split_once sep l with Some (a, b) => a :: split_loop fuel' sep b | None => [l] end
  end.
Definition split_str (sep l : bytes) : list bytes := split_loop (length l) sep l.

(** [value.split_whitespace()]; [word] is what was read of the current word. *)
Fixpoint words_loop (fuel : nat) (word l : bytes) : list bytes :=
  let flush := match word with [] => [] | _ => [word] end in
  match fuel with
  | O => flush
  | S fuel' =>
      match strip_any white_space l with
      | Some rest => flush ++ words_loop fuel' [] rest
      | None => match l with [] => flush | c :: l => words_loop fuel' (word ++ [c]) l end
      end
  end.
Definition split_whitespace (l : bytes) : list bytes := words_loop (length l) [] l.

Definition to_ascii_lowercase (l : bytes) : bytes := map ascii_lower l.

(** [value.parse::<usize>()] and [Display] of a [usize] *)
Definition parse_usize (l : bytes) : option Z :=
  let digits := match l with 43 :: l' => l' | _ => l end in
  match digits with [] => None | _ => digits_value USIZE_MAX 0 digits end.
Definition show_usize (n : Z) : bytes := show_digits 20 n.

Definition CRLF : bytes := [13; 10].
(** [bytes.windows(4).position(..)] *)
Definition header_position (l : bytes) : option nat := (fun ab => length ab.1) <$> split_once [13; 10; 13; 10] l.

(** ** Requests *)

(** What a read of the stream gives; no bytes is its end. *)
Inductive Read : Type :=
| Chunk (b : bytes)
| ReadFailed (error : bytes).

(** Why reading stopped: the stream gives no more for now, or an error *)
Inductive ReadStop : Type :=
| Waiting
| Refused (error : bytes).

Record HttpRequest : Type := mkRequest {
  hr_method : bytes;
  hr_path : bytes;
  hr_headers : gmap bytes bytes;
  hr_body : bytes
}.

(** The first loop of [read_request]: the bytes so far and where the headers end *)
Fixpoint read_headers (reads : list Read) (got : bytes) : result (bytes * nat) ReadStop * list Read :=
  match reads with
  | [] => (Err Waiting, [])
  | ReadFailed e :: reads => (Err (Refused e), reads)
  | Chunk [] :: reads => (Err (Refused (str "connection closed before request headers")), reads)
  | Chunk chunk :: reads =>
      let got := got ++ chunk in
      if MAX_REQUEST_BYTES <? len got then (Err (Refused (str "request is too large")), reads)
      else match header_position got with
           | Some position => (Ok (got, (position + 4)%nat), reads)
           | None => read_headers reads got
           end
  end.

(** The last loop of [read_request]: until there are [upto] bytes *)
Fixpoint read_body (upto : Z) (reads : list Read) (got : bytes) : result bytes ReadStop * list Read :=
  if upto <=? len got then (Ok got, reads)
  else
    match reads with
    | [] => (Err Waiting, [])
    | ReadFailed e :: reads => (Err (Refused e), reads)
    | Chunk [] :: reads => (Err (Refused (str "connection closed before request body")), reads)
    | Chunk chunk :: reads =>
        let got := got ++ chunk in
        if MAX_REQUEST_BYTES <? len got then (Err (Refused (str "request is too large")), reads)
        else read_body upto reads got
    end.

Fixpoint parse_fields (lines : list bytes) (headers : gmap bytes bytes) : result (gmap bytes bytes) bytes :=
  match lines with
  | [] => Ok headers
  | line :: lines =>
      match split_once [58] line with
      | Some (name, value) => parse_fields lines (<[to_ascii_lowercase (trim name) := trim value]> headers)
      | None => Err (str "malformed HTTP header")
      end
  end.

(** The request line and the headers *)
Definition parse_head (text : bytes) : result (bytes * bytes * gmap bytes bytes) bytes :=
  if negb (utf8_valid text) then Err (str "request headers are not UTF-8")
  else
    match split_str CRLF text with
    | [] => Err (str "missing request line")
    | request_line :: lines =>
        match split_whitespace request_line with
        | [] => Err (str "missing HTTP method")
        | [_] => Err (str "missing request path")
        | method :: path :: parts =>
            if negb (bool_decide (head parts = Some (str "HTTP/1.1"))) then Err (str "only HTTP/1.1 is supported")
            else let? headers := parse_fields lines ∅ in Ok (method, path, headers)
        end
    end.

(** The length of the body; [header_end] bytes come before it. *)
Definition body_length (headers : gmap bytes bytes) (header_end : nat) : result Z bytes :=
  if match headers !! str "transfer-encoding" with
     | Some value => negb (eq_ignore_ascii_case value (str "identity"))
     | None => false
     end
  then Err (str "chunked request bodies are not supported")
  else
    let? content_length :=
      match headers !! str "content-length" with
      | None => Ok 0
      | Some value => match parse_usize value with Some n => Ok n | None => Err (str "invalid content length") end
      end in
    if (MAX_REQUEST_BYTES <? content_length) || (MAX_REQUEST_BYTES <? Z.of_nat header_end + content_length)
    then Err (str "request body is too large")
    else Ok content_length.

Definition read_request (reads : list Read) : result HttpRequest ReadStop * list Read :=
  match read_headers reads [] with
  | (Err e, reads) => (Err e, reads)
  | (Ok (got, header_end), reads) =>
      match parse_head (take (header_end - 4) got) with
      | Err e => (Err (Refused e), reads)
      | Ok (method, path, headers) =>
          match body_length headers header_end with
          | Err e => (Err (Refused e), reads)
          | Ok content_length =>
              match read_body (Z.of_nat header_end + content_length) reads got with
              | (Err e, reads) => (Err e, reads)
              | (Ok got, reads) =>
                  (Ok (mkRequest method path headers (take (Z.to_nat content_length) (drop header_end got))), reads)
              end
          end
      end
  end.

(** ** Responses *)

Record HttpResponse : Type := mkResponse {
  rs_status : Z;
  rs_body : bytes;
  rs_content_type : bytes
}.

Definition reason (status : Z) : bytes :=
  match status with
  | 200 => str "OK"
  | 400 => str "Bad Request"
  | 401 => str "Unauthorized"
  | 404 => str "Not Found"
  | 409 => str "Conflict"
  | 500 => str "Internal Server Error"
  | 502 => str "Bad Gateway"
  | 503 => str "Service Unavailable"
  | 504 => str "Gateway Timeout"
  | _ => str "Error"
  end.

(** [write_response]: the bytes it writes *)
Definition response_bytes (r : HttpResponse) : bytes :=
  str "HTTP/1.1 " ++ show_u16 (rs_status r) ++ [32] ++ reason (rs_status r) ++ CRLF
  ++ str "Content-Type: " ++ rs_content_type r ++ CRLF
  ++ str "Content-Length: " ++ show_usize (len (rs_body r)) ++ CRLF
  ++ str "Connection: close" ++ CRLF ++ CRLF ++ rs_body r.

Record PingRequest : Type := mkPingRequest { pr_target : bytes; pr_count : Z; pr_timeout_ms : Z }.

(** [serde_json] on the values of the service, the text of errors, and the page *)
Class LocalJson (Dash : Type) : Type := {
  json_status : PeerStatus -> result bytes bytes;
  json_peers : list PeerSummary -> result bytes bytes;
  json_dashboard : Dash -> result bytes bytes;
  json_report : PingReport -> result bytes bytes;
  json_ping : PingRequest -> bytes;
  json_error : bytes -> bytes -> bytes;
  parse_status : bytes -> option PeerStatus;
  parse_peers : bytes -> option (list PeerSummary);
  parse_dashboard : bytes -> option Dash;
  parse_report : bytes -> option PingReport;
  parse_ping : bytes -> result PingRequest bytes;
  parse_error : bytes -> option (option bytes * option bytes);
  show_diagnostic : DiagnosticError -> bytes;
  dashboard_page : bytes
}.

Section service.
Context {Dash : Type} {LJ : LocalJson Dash}.

(** [RuntimeStore], which [publish_state] fills *)
Record Store : Type := mkStore { so_status : PeerStatus; so_peers : list PeerSummary; so_dashboard : Dash }.

Definition error_response (status : Z) (code message : bytes) : HttpResponse :=
  mkResponse status (json_error code message) (str "application/json").

Definition json_response (status : Z) (value : result bytes bytes) : HttpResponse :=
  match value with
  | Ok body => mkResponse status body (str "application/json")
  | Err error => error_response 500 (str "serialization_error") error
  end.

Definition diagnostic_error_code (e : DiagnosticError) : Z * bytes :=
  match e with
  | InvalidPingRequest _ => (400, str "invalid_ping_request")
  | ServiceUnavailable => (503, str "service_unavailable")
  | Diag_Connect Connect_Timeout | Diag_Ping Ping_Timeout => (504, str "timeout")
  | Diag_Connect Connect_UnknownPeer | Diag_Ping Ping_UnknownPeer => (404, str "unknown_peer")
  | Diag_Ping Ping_NotConnected => (409, str "not_connected")
  | _ => (502, str "runtime_error")
  end.

Definition diagnostic_error_response (e : DiagnosticError) : HttpResponse :=
  let '(status, code) := diagnostic_error_code e in error_response status code (show_diagnostic e).

(** ** The service *)

(** What a request leads to: an answer, or a command whose answer the runtime gives *)
Inductive Action : Type :=
| Respond (r : HttpResponse)
| AskRuntime (target : bytes) (count timeout : Z).

Definition authorized (request : HttpRequest) (token : option bytes) : bool :=
  match token with
  | None => false
  | Some token =>
      match hr_headers request !! str "authorization" ≫= strip_prefix (str "Bearer ") with
      | Some value => bool_decide (value = token)
      | None => false
      end
  end.

(** [handle_ping], up to sending the command *)
Definition handle_ping (body : bytes) : Action :=
  match parse_ping body with
  | Ok q => AskRuntime (pr_target q) (pr_count q) (pr_timeout_ms q * 10 ^ 6)
  | Err e => Respond (error_response 400 (str "invalid_json") e)
  end.

(** The rest of [handle_ping]; [None] when the runtime has stopped *)
Definition ping_response (outcome : option (result PingReport DiagnosticError)) : HttpResponse :=
  match outcome with
  | Some (Ok report) => json_response 200 (json_report report)
  | Some (Err e) => diagnostic_error_response e
  | None => error_response 503 (str "service_unavailable") (str "peer runtime has stopped")
  end.

Definition dispatch (token : option bytes) (store : Store) (tcp : bool) (request : HttpRequest) : Action :=
  let path := hr_path request in
  let is_dashboard := bool_decide (path = str "/") || bool_decide (path = str "/api/v1/dashboard") in
  if tcp && negb is_dashboard && negb (authorized request token)
  then Respond (error_response 401 (str "unauthorized") (str "local control token is required"))
  else
    let get := bool_decide (hr_method request = str "GET") in
    if get && bool_decide (path = str "/") then Respond (mkResponse 200 dashboard_page (str "text/html; charset=utf-8"))
    else if get && (bool_decide (path = str "/api/v1/dashboard") || bool_decide (path = str "/local/v1/runtime"))
    then Respond (json_response 200 (json_dashboard (so_dashboard store)))
    else if get && bool_decide (path = str "/local/v1/status")
    then Respond (json_response 200 (json_status (so_status store)))
    else if get && bool_decide (path = str "/local/v1/peers")
    then Respond (json_response 200 (json_peers (so_peers store)))
    else if bool_decide (hr_method request = str "POST") && bool_decide (path = str "/local/v1/ping")
    then handle_ping (hr_body request)
    else Respond (error_response 404 (str "not_found") (str "local control endpoint was not found")).

(** [serve_connection]; [reads] is what arrives within the five seconds. *)
Definition serve_connection (token : option bytes) (store : Store) (tcp : bool) (reads : list Read) : Action :=
  match fst (read_request reads) with
  | Ok request => dispatch token store tcp request
  | Err (Refused error) => Respond (error_response 400 (str "invalid_request") error)
  | Err Waiting => Respond (error_response 408 (str "request_timeout") (str "request timed out"))
  end.

(** ** The client *)

(** The bytes [request_stream] writes *)
Definition request_bytes (method path body : bytes) (token : option bytes) : bytes :=
  method ++ [32] ++ path ++ str " HTTP/1.1" ++ CRLF
  ++ str "Host: localhost" ++ CRLF
  ++ str "Connection: close" ++ CRLF
  ++ str "Content-Length: " ++ show_usize (len body) ++ CRLF
  ++ match token with Some token => str "Authorization: Bearer " ++ token ++ CRLF | None => [] end
  ++ CRLF ++ body.

(** The loop of [read_response]; without an end the client waits until its timeout. *)
Fixpoint read_to_end (reads : list Read) (got : bytes) : result bytes DiagnosticError :=
  match reads with
  | [] => Err (ControlProtocol (str "control response timed out"))
  | ReadFailed _ :: _ => Err Diag_Io
  | Chunk [] :: _ => Ok got
  | Chunk chunk :: reads =>
      if MAX_RESPONSE_BYTES <? Z.min USIZE_MAX (len got + len chunk)
      then Err (ControlProtocol (str "response is too large"))
      else read_to_end reads (got ++ chunk)
  end.

Fixpoint response_length (lines : list bytes) : option Z :=
  match lines with
  | [] => None
  | line :: lines =>
      match split_once [58] line with
      | Some (name, value) =>
          if eq_ignore_ascii_case name (str "content-length") then
            match parse_usize (trim value) with Some n => Some n | None => response_length lines end
          else response_length lines
      | None => response_length lines
      end
  end.

(** [read_response]: the status and the body *)
Definition read_response (reads : list Read) : result (Z * bytes) DiagnosticError :=
  let? got := read_to_end reads [] in
  match header_position got with
  | None => Err (ControlProtocol (str "malformed HTTP response"))
  | Some position =>
      let header_end := (position + 4)%nat in
      let text := take (header_end - 4) got in
      if negb (utf8_valid text) then Err (ControlProtocol (str "response headers are not UTF-8"))
      else
        let lines := split_str CRLF text in
        match (head lines ≫= fun line => nth_error (split_whitespace line) 1) ≫= parse_u16 with
        | None => Err (ControlProtocol (str "missing HTTP status"))
        | Some status =>
            match response_length (tail lines) with
            | None => Err (ControlProtocol (str "missing response length"))
            | Some content_length =>
                if MAX_RESPONSE_BYTES <? content_length
                then Err (ControlProtocol (str "response body is too large"))
                else
                  let body_end := Z.of_nat header_end + content_length in
                  if USIZE_MAX <? body_end then Err (ControlProtocol (str "response body length overflow"))
                  else if len got <? body_end then Err (ControlProtocol (str "truncated HTTP response"))
                  else Ok (status, take (Z.to_nat content_length) (drop header_end got))
            end
        end
  end.

(** The end of [request_stream] *)
Definition receive_answer {T} (parse : bytes -> option T) (reads : list Read) : result T DiagnosticError :=
  let? (status, body) := read_response reads in
  if 400 <=? status then
    match parse_error body with
    | None => Err (ControlProtocol (str "invalid error response"))
    | Some (code, message) =>
        Err (ControlRequest (default (str "remote_error") code)
               (default (str "local control request failed") message))
    end
  else match parse body with Some x => Ok x | None => Err Diag_Serialization end.

(** [LocalControlClient::status], [peers], [runtime] and [ping]: what they write;
    [receive_answer] with the parser of the value is what they return. *)
Definition status_request (token : option bytes) : bytes := request_bytes (str "GET") (str "/local/v1/status") [] token.
Definition peers_request (token : option bytes) : bytes := request_bytes (str "GET") (str "/local/v1/peers") [] token.
Definition runtime_request (token : option bytes) : bytes := request_bytes (str "GET") (str "/local/v1/runtime") [] token.
Definition ping_request (target : bytes) (count timeout : Z) (token : option bytes) : bytes :=
  request_bytes (str "POST") (str "/local/v1/ping")
    (json_ping (mkPingRequest target count (Z.min (timeout / 10 ^ 6) (2 ^ 64 - 1)))) token.
End service.

(** ** Files *)

(** [ControlEndpoint] of a Unix system, whose transport is the socket *)
Record ControlEndpoint : Type := mkEndpoint {
  ep_version : Z;
  ep_socket : option bytes;
  ep_address : option SocketAddr;
  ep_token : option bytes;
  ep_pid : Z;
  ep_incarnation : Z
}.

(** The lock files held, the sockets with the service that listens, and the endpoint files *)
Record Files : Type := mkFiles {
  fl_locks : gset bytes;
  fl_sockets : gmap bytes (option nat);
  fl_endpoints : gmap bytes ControlEndpoint
}.

Definition join (dir file : bytes) : bytes := dir ++ str "/" ++ file.

(** [StateLock::acquire]; [io] when the lock file can be opened *)
Definition acquire (io : bool) (state_dir : bytes) (f : Files) : result unit DiagnosticError * Files :=
  let path := join state_dir (str "peer.lock") in
  if negb io then (Err Diag_Io, f)
  else if bool_decide (path ∈ fl_locks f) then (Err AlreadyRunning, f)
  else (Ok tt, mkFiles ({[path]} ∪ fl_locks f) (fl_sockets f) (fl_endpoints f)).

Definition release (state_dir : bytes) (f : Files) : Files :=
  mkFiles (fl_locks f ∖ {[join state_dir (str "peer.lock")]}) (fl_sockets f) (fl_endpoints f).

(** [control_socket_path] on Linux *)
Definition control_socket_path (uid : bytes) (state_dir : bytes) : bytes :=
  join (str "/run/user/" ++ uid ++ str "/vela") (str "control.sock").

(** What the steps of starting give: the address bound, and which file operations succeed *)
Record StartIo : Type := mkStartIo { io_tcp : option SocketAddr; io_remove : bool; io_bind : bool; io_write : bool }.

(** [LocalControlServer::start_with_lock] of service [id]; the lock is dropped when it fails. *)
Definition start_service (uid state_dir token : bytes) (pid incarnation : Z) (id : nat) (io : StartIo) (f : Files)
    : result ControlEndpoint DiagnosticError * Files :=
  let path := control_socket_path uid state_dir in
  match io_tcp io with
  | None => (Err Diag_Io, release state_dir f)
  | Some address =>
      if negb (io_remove io) then (Err Diag_Io, release state_dir f)
      else if negb (io_bind io)
      then (Err Diag_Io, release state_dir (mkFiles (fl_locks f) (delete path (fl_sockets f)) (fl_endpoints f)))
      else
        let endpoint := mkEndpoint CONTROL_VERSION (Some path) (Some address) (Some token) pid incarnation in
        if negb (io_write io)
        then (Err Diag_Io, release state_dir (mkFiles (fl_locks f) (<[path := None]> (fl_sockets f)) (fl_endpoints f)))
        else (Ok endpoint,
              mkFiles (fl_locks f) (<[path := Some id]> (fl_sockets f))
                (<[join state_dir (str "control.json") := endpoint]> (fl_endpoints f)))
  end.

(** [shutdown] and [drop] *)
Definition stop_service (uid state_dir : bytes) (f : Files) : Files :=
  release state_dir
    (mkFiles (fl_locks f) (delete (control_socket_path uid state_dir) (fl_sockets f))
       (delete (join state_dir (str "control.json")) (fl_endpoints f))).

(** [LocalControlClient::open] and [request]: the service a client of a state directory talks to *)
Definition connect_service (uid state_dir : bytes) (f : Files) : result nat DiagnosticError :=
  match fl_sockets f !! control_socket_path uid state_dir with
  | Some (Some id) => Ok id
  | _ => Err ServiceUnavailable
  end.
