(* ===== verification/LocalControlText.v ===== *)
(** * The text of local control

    What the string operations of [LocalControl] do on the lines the service and
    its client write: lines are split where they were joined, words and values
    come back, a number that is written is read again. *)
From S2P Require Import Prelude Net Encoding Wire NodeId Text LocalControl.

(** ** Characters *)

(** The characters of a word, and of a line *)
Definition graphic (l : bytes) : Prop := Forall (fun c => 33 <= c <= 126) l.
Definition printable (l : bytes) : Prop := Forall (fun c => 32 <= c <= 126) l.

#[export] Instance graphic_dec l : Decision (graphic l).
Proof. unfold graphic. apply _. Defined.
#[export] Instance printable_dec l : Decision (printable l).
Proof. unfold printable. apply _. Defined.

Lemma graphic_printable l : graphic l -> printable l.
Proof. intros Hl. eapply Forall_impl; [exact Hl|]. cbn. lia. Qed.

Lemma printable_app l1 l2 : printable (l1 ++ l2) <-> printable l1 /\ printable l2.
Proof. apply Forall_app. Qed.

Lemma utf8_ascii l : Forall (fun c => 0 <= c <= 127) l -> utf8_valid l = true.
Proof.
  induction 1 as [|c l Hc _ IH]; [done|]. cbn [utf8_valid].
  assert (between 0 127 c = true) as -> by (unfold between; lia). done.
Qed.

(** No white space begins with a graphic character. *)
Lemma strip_any_head ws c l :
  Forall (fun w => match w with x :: _ => x <> c | [] => False end) ws -> strip_any ws (c :: l) = None.
Proof.
  induction 1 as [|w ws Hw _ IH]; [done|]. unfold strip_any in *. cbn. destruct w as [|x w]; [done|].
  cbn [strip_prefix]. destruct (Z.eqb_spec x c); [done|]. exact IH.
Qed.

Lemma strip_any_graphic c l : 33 <= c <= 126 -> strip_any white_space (c :: l) = None.
Proof. intros Hc. apply strip_any_head. repeat constructor; lia. Qed.

Lemma strip_any_graphic_rev c l : 33 <= c <= 126 -> strip_any (map reverse white_space) (c :: l) = None.
Proof. intros Hc. apply strip_any_head. vm_compute map. repeat constructor; lia. Qed.

Lemma strip_any_nil ws : Forall (fun w => w <> []) ws -> strip_any ws [] = None.
Proof. induction 1 as [|[|x w] ws Hw _ IH]; [done..|]. exact IH. Qed.

Lemma strip_any_space l : strip_any white_space (32 :: l) = Some l.
Proof. reflexivity. Qed.

(** ** Values *)

(** A value that begins and ends with a graphic character *)
Definition trimmed (l : bytes) : Prop :=
  (exists c r, l = c :: r /\ 33 <= c <= 126) /\ exists c r, l = r ++ [c] /\ 33 <= c <= 126.

Lemma trim_start_trimmed c r : 33 <= c <= 126 -> trim_start (c :: r) = c :: r.
Proof. intros Hc. unfold trim_start. cbn [length strip_all]. by rewrite strip_any_graphic. Qed.

Lemma trim_end_trimmed c r : 33 <= c <= 126 -> trim_end (r ++ [c]) = r ++ [c].
Proof.
  intros Hc. unfold trim_end. rewrite length_app. cbn [length]. rewrite Nat.add_1_r. cbn [strip_all].
  rewrite reverse_snoc, strip_any_graphic_rev by done. by rewrite reverse_cons, reverse_involutive.
Qed.

Lemma trim_trimmed l : trimmed l -> trim l = l.
Proof.
  intros [(c & r & -> & Hc) (d & s & E & Hd)]. unfold trim. rewrite trim_start_trimmed by done.
  rewrite E. by apply trim_end_trimmed.
Qed.

Lemma trim_space l : trimmed l -> trim (32 :: l) = l.
Proof.
  intros Hl. by rewrite <- (trim_trimmed l Hl) at 2.
Qed.

Lemma graphic_trimmed l : graphic l -> l <> [] -> trimmed l.
Proof.
  intros Hl Hn. split.
  - destruct l as [|c r]; [done|]. inversion_clear Hl. eauto.
  - destruct l as [|c r _] using rev_ind; [done|]. apply Forall_app in Hl as [_ Hl]. inversion_clear Hl. eauto.
Qed.

(** ** Words *)

Lemma words_graphic w fuel word l :
  graphic w -> (length w <= fuel)%nat -> words_loop fuel word (w ++ l) = words_loop (fuel - length w) (word ++ w) l.
Proof.
  revert fuel word; induction w as [|c w IH]; intros fuel word Hw Hf.
  { by rewrite app_nil_r, Nat.sub_0_r. }
  inversion_clear Hw. destruct fuel as [|fuel]; cbn in Hf; [lia|]. cbn [app words_loop length].
  rewrite strip_any_graphic by done. rewrite IH by (done || lia). by rewrite <- app_assoc.
Qed.

Lemma words_end fuel word : word <> [] -> words_loop fuel word [] = [word].
Proof.
  intros Hw. destruct fuel; cbn [words_loop]; [by destruct word|].
  rewrite strip_any_nil by (vm_compute; repeat constructor; done). by destruct word.
Qed.

Lemma words_space fuel word l : word <> [] -> words_loop (S fuel) word (32 :: l) = word :: words_loop fuel [] l.
Proof. intros Hw. cbn [words_loop]. rewrite strip_any_space. by destruct word. Qed.

Lemma split_three a b c :
  graphic a -> graphic b -> graphic c -> a <> [] -> b <> [] -> c <> [] ->
  split_whitespace (a ++ 32 :: b ++ 32 :: c) = [a; b; c].
Proof.
  intros Ha Hb Hc Na Nb Nc. unfold split_whitespace. rewrite words_graphic by (done || (rewrite length_app; lia)).
  rewrite !length_app. cbn [length]. rewrite !length_app. cbn [length].
  replace (length a + S (length b + S (length c)) - length a)%nat with (S (length b + S (length c))) by lia.
  rewrite words_space by done. f_equal. rewrite words_graphic by (done || lia).
  replace (length b + S (length c) - length b)%nat with (S (length c)) by lia. rewrite words_space by done. f_equal.
  rewrite <- (app_nil_r c) at 2. rewrite words_graphic by (done || lia). by apply words_end.
Qed.

(** ** Lines *)

Fixpoint joined (lines : list bytes) : bytes :=
  match lines with
  | [] => []
  | [l] => l
  | l :: lines => l ++ CRLF ++ joined lines
  end.

Definition line (l : bytes) : Prop := printable l /\ l <> [].

Lemma joined_cons l lines : lines <> [] -> joined (l :: lines) = l ++ CRLF ++ joined lines.
Proof. by destruct lines. Qed.

Lemma split_once_skip sep c l :
  strip_prefix sep (c :: l) = None -> split_once sep (c :: l) = (fun ab => (c :: ab.1, ab.2)) <$> split_once sep l.
Proof. intros E. cbn [split_once]. rewrite E. by destruct (split_once sep l) as [[]|]. Qed.

Lemma split_once_here sep l : split_once sep (sep ++ l) = Some ([], l).
Proof.
  assert (E : strip_prefix sep (sep ++ l) = Some l) by by apply strip_prefix_Some.
  destruct (sep ++ l); cbn [split_once]; by rewrite E.
Qed.

(** What comes before a separator that begins with a carriage return *)
Lemma split_once_printable sep a l :
  printable a -> split_once (13 :: sep) (a ++ l) = (fun ab => (a ++ ab.1, ab.2)) <$> split_once (13 :: sep) l.
Proof.
  induction 1 as [|c a Hc _ IH]; cbn [app]; [by destruct (split_once _ l) as [[]|]|].
  rewrite split_once_skip.
  - rewrite IH. by destruct (split_once _ l) as [[]|].
  - cbn [strip_prefix]. destruct (Z.eqb_spec 13 c); [lia|done].
Qed.

Lemma split_line a l : printable a -> split_once CRLF (a ++ CRLF ++ l) = Some (a, l).
Proof. intros Ha. unfold CRLF. rewrite (split_once_printable [10]), (split_once_here [13; 10]) by done. cbn. by rewrite app_nil_r. Qed.

Lemma split_last_line a : printable a -> split_once CRLF a = None.
Proof. intros Ha. rewrite <- (app_nil_r a). unfold CRLF. by rewrite (split_once_printable [10]). Qed.

Lemma split_loop_joined lines fuel :
  Forall line lines -> lines <> [] -> (length (joined lines) <= fuel)%nat -> split_loop fuel CRLF (joined lines) = lines.
Proof.
  intros Hl. revert fuel. induction Hl as [|l lines [Hp Hn] Hls IH]; intros fuel Hne Hf; [done|].
  destruct lines as [|l2 lines].
  - cbn [joined]. destruct fuel; cbn [split_loop]; [done|]. by rewrite split_last_line.
  - rewrite joined_cons in * by done. rewrite !length_app in Hf. destruct l as [|c l]; [done|]. cbn [length] in Hf.
    destruct fuel as [|fuel]; [cbn in Hf; lia|]. cbn [split_loop]. rewrite split_line by done. f_equal.
    apply IH; [done|lia].
Qed.

(** The lines of a header are found again. *)
Lemma split_joined lines : Forall line lines -> lines <> [] -> split_str CRLF (joined lines) = lines.
Proof. intros Hl Hn. by apply split_loop_joined. Qed.

(** The empty line ends the header. *)
Lemma header_end_joined lines body :
  Forall line lines -> lines <> [] ->
  split_once [13; 10; 13; 10] (joined lines ++ CRLF ++ CRLF ++ body) = Some (joined lines, body).
Proof.
  induction 1 as [|l lines [Hp Hn] Hls IH]; intros _; [done|]. destruct lines as [|l2 lines].
  - cbn [joined]. rewrite split_once_printable by done.
    change (CRLF ++ CRLF ++ body) with ([13; 10; 13; 10] ++ body). rewrite split_once_here. cbn. by rewrite app_nil_r.
  - rewrite joined_cons by done. rewrite <- !app_assoc, split_once_printable by done.
    assert (Hh : exists c r, joined (l2 :: lines) = c :: r /\ c <> 13).
    { inversion_clear Hls as [|? ? [Hp2 Hn2]]. destruct l2 as [|c r]; [done|]. inversion_clear Hp2.
      destruct lines; cbn; eexists _, _; (split; [done|lia]). }
    specialize (IH ltac:(done)). destruct Hh as (c & r & E & Hc). rewrite E in *. cbn [app CRLF] in *.
    rewrite split_once_skip, split_once_skip, IH; [done|done|].
    destruct (strip_prefix _ _) eqn:Es; [|done]. apply strip_prefix_Some in Es. by injection Es as -> _.
Qed.

Lemma joined_ascii lines : Forall line lines -> utf8_valid (joined lines) = true.
Proof.
  intros Hl. apply utf8_ascii. induction Hl as [|l lines [Hp Hn] Hls IH]; [constructor|].
  assert (Hp' : Forall (fun c => 0 <= c <= 127) l) by (eapply Forall_impl; [exact Hp|]; cbn; lia).
  destruct lines; [done|]. rewrite joined_cons by done. apply Forall_app. split; [done|]. apply Forall_app.
  split; [|done]. repeat constructor; lia.
Qed.

(** ** Numbers *)

Lemma to_digit_show d : 0 <= d < 10 -> to_digit 10 (48 + d) = Some d.
Proof.
  intros Hd. unfold to_digit. assert ((48 <=? 48 + d) && (48 + d <=? 57) = true) as -> by lia.
  cbn zeta. assert (48 + d - 48 <? 10 = true) as -> by lia. f_equal. lia.
Qed.

Lemma digits_value_snoc max acc l d v :
  0 <= d < 10 -> digits_value max acc l = Some v -> v * 10 + d <= max ->
  digits_value max acc (l ++ [48 + d]) = Some (v * 10 + d).
Proof.
  intros Hd. revert acc; induction l as [|c l IH]; intros acc; cbn [app digits_value].
  - intros [= ->] Hm. rewrite to_digit_show by done. by assert (v * 10 + d <=? max = true) as -> by lia.
  - destruct (to_digit 10 c); [|done]. destruct (_ <=? max); [|done]. apply IH.
Qed.

Lemma show_digits_value fuel max n :
  0 <= n <= max -> n < 10 ^ Z.of_nat fuel -> (0 < fuel)%nat -> digits_value max 0 (show_digits fuel n) = Some n.
Proof.
  revert n; induction fuel as [|fuel IH]; intros n Hn Hf Hp; [lia|]. cbn [show_digits].
  destruct (Z.ltb_spec n 10).
  - cbn [digits_value]. rewrite to_digit_show by lia. by assert (0 * 10 + n <=? max = true) as -> by lia.
  - assert (Hdiv : 0 <= n / 10 < n) by (split; [apply Z.div_pos; lia|apply Z.div_lt; lia]).
    pose proof (Z.div_mod n 10 ltac:(lia)) as E. pose proof (Z.mod_pos_bound n 10 ltac:(lia)) as Hm.
    assert (Hfu : (0 < fuel)%nat) by (destruct fuel; cbn in Hf; lia).
    rewrite (digits_value_snoc _ _ _ _ (n / 10)); [f_equal; lia|lia| |lia].
    apply IH; [lia| |done]. apply Z.div_lt_upper_bound; [lia|].
    rewrite Nat2Z.inj_succ, Z.pow_succ_r in Hf by lia. lia.
Qed.

Lemma show_digits_graphic fuel n : 0 <= n -> (0 < fuel)%nat ->
  Forall (fun c => 48 <= c <= 57) (show_digits fuel n) /\ show_digits fuel n <> [].
Proof.
  revert n; induction fuel as [|fuel IH]; intros n Hn Hf; [lia|]. cbn [show_digits]. destruct (Z.ltb_spec n 10).
  - split; [|done]. repeat constructor; lia.
  - pose proof (Z.mod_pos_bound n 10 ltac:(lia)). split; [|by destruct (show_digits fuel (n / 10))].
    apply Forall_app. split; [|repeat constructor; lia]. destruct fuel as [|fuel]; [constructor|].
    apply IH; [apply Z.div_pos; lia|lia].
Qed.

Lemma number_graphic fuel n : 0 <= n -> (0 < fuel)%nat -> graphic (show_digits fuel n) /\ show_digits fuel n <> [].
Proof.
  intros Hn Hf. destruct (show_digits_graphic fuel n Hn Hf) as [H1 H2]. split; [|done].
  eapply Forall_impl; [exact H1|]. cbn. lia.
Qed.

(** No digit is a sign. *)
Lemma unsigned_digits c (l : bytes) : 48 <= c <= 57 -> match c :: l with 43 :: l' => l' | _ => c :: l end = c :: l.
Proof.
  intros Hc. assert (c = 48 \/ c = 49 \/ c = 50 \/ c = 51 \/ c = 52 \/ c = 53 \/ c = 54 \/ c = 55 \/ c = 56 \/ c = 57)
    as Hcs by lia. by destruct_or! Hcs; subst.
Qed.

(** A number is read as it was written. *)
Lemma parse_show_usize n : 0 <= n <= USIZE_MAX -> parse_usize (show_usize n) = Some n.
Proof.
  intros Hn. unfold parse_usize, show_usize. pose proof (show_digits_value 20 USIZE_MAX n Hn) as E.
  destruct (show_digits_graphic 20 n ltac:(lia) ltac:(lia)) as [Hd He]. unfold USIZE_MAX in Hn.
  destruct (show_digits 20 n) as [|c l]; [done|]. inversion_clear Hd.
  rewrite (unsigned_digits c l) by done. apply E; lia.
Qed.

Lemma parse_show_u16 n : 0 <= n <= U16_MAX -> parse_u16 (show_u16 n) = Some n.
Proof.
  intros Hn. unfold parse_u16, show_u16. pose proof (show_digits_value 5 U16_MAX n Hn) as E.
  destruct (show_digits_graphic 5 n ltac:(lia) ltac:(lia)) as [Hd He]. unfold U16_MAX in Hn.
  destruct (show_digits 5 n) as [|c l]; [done|]. inversion_clear Hd.
  rewrite (unsigned_digits c l) by done. apply E; lia.
Qed.
