(* ===== verification/LocalControlInv.v ===== *)
(** * What local control does

    A request is read the same however the stream splits it; what the client
    writes is what the service reads, and what the service writes is what the
    client reads, so a call of the client gives what the runtime holds; over TCP
    only the dashboard is served without the token.  Then what the socket of two
    services does. *)
From S2P Require Import Prelude Net Encoding Wire NodeId Snapshot SignedBytes Crypto Ip Replay Path Handshake.
From S2P Require Import NodeState NodePeers NodeSend NodeSession NodeData NodeTimers NodeInv.
From S2P Require Import Control Text CoordDb Coord CoordInv Dns Stun CoordClient NodeView Diagnostic Runtime.
From S2P Require Import LocalControl LocalControlText.

(** ** Reading a request in pieces *)

(** How the stream goes on after the bytes *)
Inductive Ending : Type := Stalls | Closes | Breaks (error : bytes).
Definition ending_reads (e : Ending) : list Read :=
  match e with Stalls => [] | Closes => [Chunk []] | Breaks error => [ReadFailed error] end.
Definition ending_stop (why : bytes) (e : Ending) : ReadStop :=
  match e with Stalls => Waiting | Closes => Refused why | Breaks error => Refused error end.

(** The bytes come in non-empty pieces. *)
Definition stream (cs : list bytes) (e : Ending) : list Read := map Chunk cs ++ ending_reads e.

(** What a request is, on all of its bytes at once *)
Definition parse_request (data : bytes) (e : Ending) : result HttpRequest ReadStop :=
  match header_position data with
  | None => Err (ending_stop (str "connection closed before request headers") e)
  | Some position =>
      match parse_head (take position data) with
      | Err error => Err (Refused error)
      | Ok (method, path, headers) =>
          match body_length headers (position + 4) with
          | Err error => Err (Refused error)
          | Ok content_length =>
              if Z.of_nat (position + 4) + content_length <=? len data
              then Ok (mkRequest method path headers (take (Z.to_nat content_length) (drop (position + 4) data)))
              else Err (ending_stop (str "connection closed before request body") e)
          end
      end
  end.

Lemma strip_prefix_long p l m : (length p <= length l)%nat -> strip_prefix p l = None -> strip_prefix p (l ++ m) = None.
Proof.
  revert l; induction p as [|x p IH]; intros l Hl E; [by destruct l|].
  destruct l as [|y l]; cbn in Hl; [lia|]. cbn [strip_prefix app] in *. destruct (x =? y); [|done]. apply IH; [lia|done].
Qed.

(** More bytes do not move the first separator. *)
Lemma split_once_more sep l m a b : split_once sep l = Some (a, b) -> split_once sep (l ++ m) = Some (a, b ++ m).
Proof.
  revert a b; induction l as [|x l IH]; intros a b; cbn [split_once app].
  - destruct (strip_prefix sep []) as [r|] eqn:E; [|done]. intros [= <- <-]. apply strip_prefix_Some in E.
    destruct sep; [|done]. cbn in E. subst r. cbn. destruct m; done.
  - destruct (strip_prefix sep (x :: l)) as [r|] eqn:E.
    + intros [= <- <-]. apply strip_prefix_Some in E.
      assert (strip_prefix sep ((x :: l) ++ m) = Some (r ++ m)) as E'.
      { apply strip_prefix_Some. by rewrite E, app_assoc. }
      cbn [app] in E'. by rewrite E'.
    + destruct (split_once sep l) as [[a' b']|] eqn:Es; [|done]. intros [= <- <-].
      assert (E' : strip_prefix sep ((x :: l) ++ m) = None).
      { apply strip_prefix_long; [|done]. apply split_once_app in Es as ->. cbn. rewrite !length_app. lia. }
      cbn [app] in E'. by rewrite E', (IH _ _ eq_refl).
Qed.

Lemma header_position_more l m p : header_position l = Some p -> header_position (l ++ m) = Some p.
Proof.
  unfold header_position. destruct (split_once _ l) as [[a b]|] eqn:E; [|done]. intros [= <-].
  by rewrite (split_once_more _ _ _ _ _ E).
Qed.

Lemma header_position_bound l p : header_position l = Some p -> (p + 4 <= length l)%nat.
Proof.
  unfold header_position. destruct (split_once _ l) as [[a b]|] eqn:E; [|done]. intros [= <-].
  apply split_once_app in E as ->. cbn. rewrite !length_app. cbn. lia.
Qed.

Lemma header_position_nil : header_position [] = None.
Proof. done. Qed.

Lemma stream_cons c cs e : stream (c :: cs) e = Chunk c :: stream cs e.
Proof. done. Qed.

Lemma len_concat_cons (got c : bytes) cs : (got ++ c) ++ concat cs = got ++ concat (c :: cs).
Proof. cbn. by rewrite app_assoc. Qed.

(** A piece that fits is read. *)
Lemma read_headers_step c reads got :
  c <> [] -> len (got ++ c) <= MAX_REQUEST_BYTES ->
  read_headers (Chunk c :: reads) got =
  match header_position (got ++ c) with
  | Some position => (Ok (got ++ c, (position + 4)%nat), reads)
  | None => read_headers reads (got ++ c)
  end.
Proof.
  intros Hc Hl. destruct c as [|x c]; [done|]. cbn [read_headers].
  by assert (MAX_REQUEST_BYTES <? len (got ++ x :: c) = false) as -> by lia.
Qed.

Lemma len_app_le (a b : bytes) m : len (a ++ b) <= m -> len a <= m.
Proof. unfold len. rewrite length_app. lia. Qed.

Lemma read_headers_stream cs e got :
  Forall (fun c => c <> []) cs -> header_position got = None -> len (got ++ concat cs) <= MAX_REQUEST_BYTES ->
  match header_position (got ++ concat cs) with
  | None => fst (read_headers (stream cs e) got) = Err (ending_stop (str "connection closed before request headers") e)
  | Some p => exists cs1 cs2, cs = cs1 ++ cs2 /\ header_position (got ++ concat cs1) = Some p
      /\ read_headers (stream cs e) got = (Ok (got ++ concat cs1, (p + 4)%nat), stream cs2 e)
  end.
Proof.
  intros Hcs. revert got. induction Hcs as [|c cs Hc Hcs IH]; intros got Hn Hl.
  { cbn [concat] in *. rewrite app_nil_r, Hn. by destruct e. }
  rewrite <- len_concat_cons in *. rewrite stream_cons, read_headers_step; [|done|by apply len_app_le in Hl].
  destruct (header_position (got ++ c)) as [p|] eqn:Ep.
  - rewrite (header_position_more _ _ _ Ep). exists [c], cs. cbn [concat app]. by rewrite app_nil_r.
  - specialize (IH _ Ep Hl). destruct (header_position _) as [p|]; [|done].
    destruct IH as (cs1 & cs2 & -> & Hp & E). exists (c :: cs1), cs2. by rewrite <- len_concat_cons.
Qed.

Lemma read_body_stream upto cs e got :
  Forall (fun c => c <> []) cs -> len (got ++ concat cs) <= MAX_REQUEST_BYTES ->
  if upto <=? len (got ++ concat cs)
  then exists cs1 cs2, cs = cs1 ++ cs2 /\ upto <= len (got ++ concat cs1)
       /\ read_body upto (stream cs e) got = (Ok (got ++ concat cs1), stream cs2 e)
  else fst (read_body upto (stream cs e) got) = Err (ending_stop (str "connection closed before request body") e).
Proof.
  intros Hcs. revert got. induction Hcs as [|c cs Hc Hcs IH]; intros got Hl.
  { cbn [concat] in *. rewrite app_nil_r. destruct (Z.leb_spec upto (len got)).
    - exists [], []. cbn [concat app]. rewrite app_nil_r. split_and!; [done|done|]. destruct e; cbn;
        by assert (upto <=? len got = true) as -> by lia.
    - destruct e; cbn; by assert (upto <=? len got = false) as -> by lia. }
  rewrite stream_cons. destruct (Z.leb_spec upto (len got)) as [Hu|Hu].
  - assert (upto <=? len (got ++ concat (c :: cs)) = true) as ->.
    { apply Z.leb_le. clear -Hu. unfold len in *. rewrite length_app. lia. }
    exists [], (c :: cs). cbn [concat app]. rewrite app_nil_r. split_and!; [done|done|].
    cbn [read_body]. by assert (upto <=? len got = true) as -> by lia.
  - rewrite <- len_concat_cons in *. assert (Hs : read_body upto (Chunk c :: stream cs e) got = read_body upto (stream cs e) (got ++ c)).
    { cbn [read_body]. assert (upto <=? len got = false) as -> by lia. destruct c as [|x c]; [done|].
      by assert (MAX_REQUEST_BYTES <? len (got ++ x :: c) = false) as -> by (apply len_app_le in Hl; lia). }
    rewrite Hs. specialize (IH _ Hl). destruct (_ <=? _); [|done].
    destruct IH as (cs1 & cs2 & -> & Hp & E). exists (c :: cs1), cs2. by rewrite <- len_concat_cons.
Qed.

Lemma take_drop_more n k (l m : bytes) :
  (k + n <= length l)%nat -> take n (drop k (l ++ m)) = take n (drop k l).
Proof. intros H. rewrite drop_app_le, take_app_le; [done|rewrite length_drop; lia|lia]. Qed.

Lemma read_request_stream (cs : list bytes) (e : Ending) :
  Forall (fun c => c <> []) cs -> len (concat cs) <= MAX_REQUEST_BYTES ->
  fst (read_request (stream cs e)) = parse_request (concat cs) e.
Proof.
  intros Hcs Hl. unfold read_request, parse_request.
  pose proof (read_headers_stream cs e [] Hcs header_position_nil Hl) as H. cbn [app] in H.
  destruct (header_position (concat cs)) as [p|].
  2:{ destruct (read_headers _ _) as [[]]; cbn in H; by simplify_eq. }
  destruct H as (cs1 & cs2 & -> & Hp & ->). rewrite concat_app in *. pose proof (header_position_bound _ _ Hp) as Hb.
  replace (p + 4 - 4)%nat with p by lia. rewrite take_app_le by lia.
  destruct (parse_head _) as [[[method path] headers]|]; [|done].
  destruct (body_length _ _) as [n|]; [|done].
  apply Forall_app in Hcs as [_ Hcs2].
  pose proof (read_body_stream (Z.of_nat (p + 4) + n) cs2 e _ Hcs2 Hl) as H. destruct (_ <=? _).
  - destruct H as (cs3 & cs4 & -> & Hu & ->). cbn [fst]. rewrite concat_app, app_assoc, (take_drop_more _ _ _ (concat cs4)); [done|].
    unfold len in Hu. rewrite !length_app in *. lia.
  - destruct (read_body _ _ _) as [[]]; cbn in H; by simplify_eq.
Qed.

(** A request is read the same however the network splits it: for bytes within the
    limit, in any non-empty pieces, [read_request] gives what the grammar gives on
    all of them at once; a stream that ends, breaks or stalls too early is an error. *)
Theorem read_request_exact (cs : list bytes) (e : Ending) :
  Forall (fun c => c <> []) cs -> len (concat cs) <= MAX_REQUEST_BYTES ->
  fst (read_request (stream cs e)) = parse_request (concat cs) e.
Proof.
  apply read_request_stream.
Qed.

(** ** What the client writes *)

(** A word of the request *)
Definition word (l : bytes) : Prop := graphic l /\ l <> [].
#[export] Instance word_dec l : Decision (word l).
Proof. unfold word. apply _. Defined.

Definition request_lines (method path : bytes) (n : Z) (token : option bytes) : list bytes :=
  [method ++ 32 :: path ++ 32 :: str "HTTP/1.1"; str "Host: localhost"; str "Connection: close";
   str "Content-Length: " ++ show_usize n]
  ++ match token with Some t => [str "Authorization: Bearer " ++ t] | None => [] end.

Definition request_headers (n : Z) (token : option bytes) : gmap bytes bytes :=
  let headers := <[str "content-length" := show_usize n]> (<[str "connection" := str "close"]>
                   (<[str "host" := str "localhost"]> ∅)) in
  match token with Some t => <[str "authorization" := str "Bearer " ++ t]> headers | None => headers end.

Lemma request_bytes_lines method path body token :
  request_bytes method path body token = joined (request_lines method path (len body) token) ++ CRLF ++ CRLF ++ body.
Proof.
  unfold request_bytes, request_lines. destruct token as [t|]; cbn [joined app]; rewrite <- !app_assoc; cbn [app];
    rewrite <- ?app_assoc; done.
Qed.

Lemma number_line n : 0 <= n -> graphic (show_usize n) /\ show_usize n <> [].
Proof. intros Hn. apply number_graphic; [done|lia]. Qed.

Lemma request_lines_ok method path n token :
  word method -> word path -> 0 <= n -> match token with Some t => word t | None => True end ->
  Forall line (request_lines method path n token).
Proof.
  intros [Hm Hm'] [Hp Hp'] Hn Ht. destruct (number_line n Hn) as [Hd _].
  assert (H : forall a b, printable a -> graphic b -> a <> [] -> line (a ++ b)).
  { intros a b Ha Hb Na. split; [apply printable_app; split; [done|by apply graphic_printable]|by destruct a]. }
  unfold request_lines. apply Forall_app. split.
  - rewrite !Forall_cons. split_and!; [|split; [by_decide|done]..| |constructor].
    + split; [|by destruct method]. apply printable_app. split; [by apply graphic_printable|]. constructor; [lia|].
      apply printable_app. split; [by apply graphic_printable|by_decide].
    + apply H; [by_decide|done|done].
  - destruct token as [t|]; constructor; [|constructor]. apply H; [by_decide|apply Ht|done].
Qed.

(** The headers a request has are read. *)
Lemma field_read name value lines headers :
  split_once [58] (name ++ value) = Some (name, drop 1 value) ->
  parse_fields ((name ++ value) :: lines) headers
  = parse_fields lines (<[to_ascii_lowercase (trim name) := trim (drop 1 value)]> headers).
Proof. intros E. cbn [parse_fields]. by rewrite E. Qed.

Lemma parse_head_request method path n token :
  word method -> word path -> 0 <= n -> match token with Some t => word t | None => True end ->
  parse_head (joined (request_lines method path n token)) = Ok (method, path, request_headers n token).
Proof.
  intros Hm Hp Hn Ht. pose proof (request_lines_ok _ _ _ _ Hm Hp Hn Ht) as Hl. unfold parse_head.
  rewrite joined_ascii, split_joined by done. cbn [negb]. unfold request_lines at 1. cbn [app].
  destruct Hm as [Hm Hm'], Hp as [Hp Hp']. rewrite split_three by (done || by_decide). cbn [head].
  rewrite bool_decide_true by done. cbn [negb]. destruct (number_line n Hn) as [Hd Hd'].
  rewrite (field_read (str "Host") (str ": localhost")) by done.
  rewrite (field_read (str "Connection") (str ": close")) by done.
  rewrite (field_read (str "Content-Length") (str ": " ++ show_usize n)) by done.
  cbn [drop str app]. rewrite trim_space by by apply graphic_trimmed.
  destruct token as [t|]; cbn [app].
  - rewrite (field_read (str "Authorization") (str ": Bearer " ++ t)) by done.
    cbn [drop str app]. rewrite trim_space; [done|].
    destruct Ht as [Ht Ht']. destruct (graphic_trimmed t Ht Ht') as [_ (c & r & -> & Hc)]. split.
    + eexists _, _. split; [done|]. vm_compute. split; discriminate.
    + exists c, (str "Bearer " ++ r). split; [by rewrite <- app_assoc|done].
  - done.
Qed.

Lemma request_length n token header_end :
  0 <= n -> Z.of_nat header_end + n <= MAX_REQUEST_BYTES -> body_length (request_headers n token) header_end = Ok n.
Proof.
  intros Hn Hl. unfold body_length.
  assert (request_headers n token !! str "transfer-encoding" = None) as ->.
  { unfold request_headers. destruct token; rewrite ?lookup_insert_ne by done; done. }
  assert (request_headers n token !! str "content-length" = Some (show_usize n)) as ->.
  { unfold request_headers. destruct token; rewrite ?lookup_insert_ne by done; by rewrite lookup_insert_eq. }
  rewrite parse_show_usize by (unfold USIZE_MAX, MAX_REQUEST_BYTES in *; lia). cbn [rbind].
  assert ((MAX_REQUEST_BYTES <? n) || (MAX_REQUEST_BYTES <? Z.of_nat header_end + n) = false) as -> by lia. done.
Qed.

Lemma parse_request_bytes method path body token e :
  word method -> word path -> match token with Some t => word t | None => True end ->
  len (request_bytes method path body token) <= MAX_REQUEST_BYTES ->
  parse_request (request_bytes method path body token) e
  = Ok (mkRequest method path (request_headers (len body) token) body).
Proof.
  intros Hm Hp Ht Hl. rewrite request_bytes_lines in *. unfold parse_request.
  assert (Hn : 0 <= len body) by (unfold len; lia).
  pose proof (request_lines_ok _ _ _ _ Hm Hp Hn Ht) as Hls.
  set (head := joined (request_lines method path (len body) token)) in *.
  assert (header_position (head ++ CRLF ++ CRLF ++ body) = Some (length head)) as ->.
  { unfold header_position, head. by rewrite header_end_joined. }
  rewrite take_app_length. unfold head at 1. rewrite parse_head_request by done.
  assert (Hlen : len (head ++ CRLF ++ CRLF ++ body) = Z.of_nat (length head + 4) + len body).
  { unfold len. rewrite !length_app. cbn [length CRLF]. lia. }
  rewrite request_length by (done || lia). rewrite Hlen, Z.leb_refl. do 2 f_equal.
  rewrite app_assoc, app_assoc. rewrite drop_app_length'; [|rewrite !length_app; cbn; lia].
  unfold len. by rewrite Nat2Z.id, take_ge.
Qed.

(** ** What the service writes *)

Definition response_lines (r : HttpResponse) : list bytes :=
  [str "HTTP/1.1" ++ 32 :: show_u16 (rs_status r) ++ 32 :: reason (rs_status r);
   str "Content-Type: " ++ rs_content_type r; str "Content-Length: " ++ show_usize (len (rs_body r));
   str "Connection: close"].

Lemma response_bytes_lines r : response_bytes r = joined (response_lines r) ++ CRLF ++ CRLF ++ rs_body r.
Proof. unfold response_bytes, response_lines. cbn [joined app]. rewrite <- !app_assoc. cbn [app]. by rewrite <- ?app_assoc. Qed.

Lemma reason_printable status : printable (reason status).
Proof. unfold reason. repeat case_match; by_decide. Qed.

Lemma response_lines_ok r :
  0 <= rs_status r -> printable (rs_content_type r) -> Forall line (response_lines r).
Proof.
  intros Hs Hc. destruct (number_graphic 5 (rs_status r) Hs ltac:(lia)) as [Hd _].
  destruct (number_line (len (rs_body r)) ltac:(unfold len; lia)) as [Hn _].
  unfold response_lines. rewrite !Forall_cons. split_and!; [| | |split; [by_decide|done]|constructor].
  - split; [|done]. apply printable_app. split; [by_decide|]. constructor; [lia|]. apply printable_app.
    split; [by apply graphic_printable|]. constructor; [lia|]. apply reason_printable.
  - split; [|done]. apply printable_app. split; [by_decide|done].
  - split; [|done]. apply printable_app. split; [by_decide|by apply graphic_printable].
Qed.

Lemma second_word a b rest : word a -> word b -> nth_error (split_whitespace (a ++ 32 :: b ++ 32 :: rest)) 1 = Some b.
Proof.
  intros [Ha Na] [Hb Nb]. unfold split_whitespace. rewrite words_graphic by (done || (rewrite length_app; lia)).
  rewrite !length_app. cbn [length]. rewrite !length_app. cbn [length].
  replace (length a + S (length b + S (length rest)) - length a)%nat with (S (length b + S (length rest))) by lia.
  rewrite words_space by done. rewrite words_graphic by (done || lia).
  replace (length b + S (length rest) - length b)%nat with (S (length rest)) by lia. by rewrite words_space.
Qed.

Lemma response_length_lines r : response_length (tail (response_lines r)) = Some (len (rs_body r)) \/ USIZE_MAX < len (rs_body r).
Proof.
  destruct (Z.le_gt_cases (len (rs_body r)) USIZE_MAX) as [Hl|Hl]; [left|right; lia].
  assert (Hn : 0 <= len (rs_body r)) by (unfold len; lia). destruct (number_line _ Hn) as [Hd Hd'].
  unfold response_lines. cbn [tail response_length].
  change (split_once [58] (str "Content-Type: " ++ rs_content_type r))
    with (Some (str "Content-Type", 32 :: rs_content_type r)). cbn iota beta.
  change (eq_ignore_ascii_case (str "Content-Type") (str "content-length")) with false. cbn iota.
  change (split_once [58] (str "Content-Length: " ++ show_usize (len (rs_body r))))
    with (Some (str "Content-Length", 32 :: show_usize (len (rs_body r)))). cbn iota beta.
  change (eq_ignore_ascii_case (str "Content-Length") (str "content-length")) with true. cbn iota.
  rewrite trim_space by by apply graphic_trimmed. by rewrite parse_show_usize.
Qed.

Lemma read_to_end_stream cs got :
  Forall (fun c => c <> []) cs -> len (got ++ concat cs) <= MAX_RESPONSE_BYTES ->
  read_to_end (stream cs Closes) got = Ok (got ++ concat cs).
Proof.
  intros Hcs. revert got. induction Hcs as [|c cs Hc Hcs IH]; intros got Hl; [cbn; by rewrite app_nil_r|].
  rewrite stream_cons, <- len_concat_cons in *. destruct c as [|x c]; [done|]. cbn [read_to_end].
  assert (MAX_RESPONSE_BYTES <? Z.min USIZE_MAX (len got + len (x :: c)) = false) as ->.
  { apply len_app_le in Hl. unfold len in *. rewrite length_app in Hl. unfold MAX_RESPONSE_BYTES, USIZE_MAX in *. lia. }
  by apply IH.
Qed.

(** The client reads what the service wrote. *)
Lemma read_response_stream cs r :
  Forall (fun c => c <> []) cs -> concat cs = response_bytes r -> len (response_bytes r) <= MAX_RESPONSE_BYTES ->
  0 <= rs_status r <= U16_MAX -> printable (rs_content_type r) ->
  read_response (stream cs Closes) = Ok (rs_status r, rs_body r).
Proof.
  intros Hcs E Hl Hs Hc. unfold read_response. rewrite read_to_end_stream; [|done|by rewrite E].
  cbn [rbind app]. rewrite E, response_bytes_lines in *.
  pose proof (response_lines_ok r ltac:(lia) Hc) as Hls.
  set (head := joined (response_lines r)) in *.
  assert (header_position (head ++ CRLF ++ CRLF ++ rs_body r) = Some (length head)) as ->.
  { unfold header_position, head. by rewrite header_end_joined. }
  replace (length head + 4 - 4)%nat with (length head) by lia. rewrite take_app_length.
  assert (utf8_valid head = true) as -> by by apply joined_ascii. cbn [negb].
  assert (split_str CRLF head = response_lines r) as -> by by apply split_joined.
  assert (Hst : (List.head (response_lines r) ≫= fun l => nth_error (split_whitespace l) 1) ≫= parse_u16 = Some (rs_status r)).
  { unfold response_lines. cbn [List.head mbind option_bind]. rewrite second_word; [by apply parse_show_u16|split; [by_decide|done]|].
    apply number_graphic; lia. }
  rewrite Hst.
  assert (Hlen : len (head ++ CRLF ++ CRLF ++ rs_body r) = Z.of_nat (length head + 4) + len (rs_body r)).
  { unfold len. rewrite !length_app. cbn [length CRLF]. lia. }
  unfold MAX_RESPONSE_BYTES in Hl. assert (0 <= len (rs_body r)) by (unfold len; lia).
  destruct (response_length_lines r) as [->|]; [|unfold USIZE_MAX in *; lia].
  assert (MAX_RESPONSE_BYTES <? len (rs_body r) = false) as -> by (unfold MAX_RESPONSE_BYTES; lia).
  assert (USIZE_MAX <? Z.of_nat (length head + 4) + len (rs_body r) = false) as -> by (apply Z.ltb_ge; rewrite <- Hlen; unfold USIZE_MAX; lia).
  rewrite Hlen, Z.ltb_irrefl. do 2 f_equal.
  rewrite app_assoc, app_assoc. rewrite drop_app_length'; [|rewrite !length_app; cbn; lia].
  unfold len. by rewrite Nat2Z.id, take_ge.
Qed.

(** ** Calls *)

(** A request of the client fits its JSON types. *)
Definition ping_ok (q : PingRequest) : Prop :=
  length (pr_target q) = 32%nat /\ bytes_ok (pr_target q)
  /\ 0 <= pr_count q <= USIZE_MAX /\ 0 <= pr_timeout_ms q <= U64_MAX.

(** [serde_json] reads what it wrote. *)
Class LocalJsonLaws {Dash} (LJ : LocalJson Dash) : Prop := {
  parse_json_status x b : json_status x = Ok b -> parse_status b = Some x;
  parse_json_peers x b : json_peers x = Ok b -> parse_peers b = Some x;
  parse_json_dashboard x b : json_dashboard x = Ok b -> parse_dashboard b = Some x;
  parse_json_report x b : json_report x = Ok b -> parse_report b = Some x;
  parse_json_ping q : ping_ok q -> parse_ping (json_ping q) = Ok q;
  parse_json_error c m : parse_error (json_error c m) = Some (Some c, Some m)
}.

Section calls.
Context {Dash : Type} {LJ : LocalJson Dash} {LL : LocalJsonLaws LJ}.
Context (token : option bytes) (store : @Store Dash).

(** The client may use the transport: over TCP it has the token. *)
Definition admitted (tcp : bool) (client : option bytes) : Prop :=
  (tcp = true -> client = token /\ token <> None) /\ match client with Some t => word t | None => True end.

Lemma authorized_client method path n body t :
  token = Some t -> authorized (mkRequest method path (request_headers n (Some t)) body) token = true.
Proof.
  intros ->. unfold authorized, request_headers. cbn [hr_headers]. rewrite lookup_insert_eq. cbn [mbind option_bind].
  assert (strip_prefix (str "Bearer ") (str "Bearer " ++ t) = Some t) as -> by by apply strip_prefix_Some.
  by rewrite bool_decide_true.
Qed.

(** A request of an admitted client passes the gate. *)
Lemma gate_open tcp client method path n body :
  admitted tcp client ->
  tcp && negb (bool_decide (path = str "/") || bool_decide (path = str "/api/v1/dashboard"))
  && negb (authorized (mkRequest method path (request_headers n client) body) token) = false.
Proof.
  intros [Ht _]. destruct tcp; [|done]. destruct (Ht eq_refl) as [-> Hn].
  destruct token as [t|] eqn:E; [|done]. pose proof (authorized_client method path n body t E) as H.
  rewrite E in H. rewrite H. by rewrite andb_false_r.
Qed.

Lemma serve_request tcp client e cs method path body :
  admitted tcp client -> word method -> word path -> Forall (fun c => c <> []) cs ->
  concat cs = request_bytes method path body client -> len (concat cs) <= MAX_REQUEST_BYTES ->
  serve_connection token store tcp (stream cs e)
  = dispatch token store tcp (mkRequest method path (request_headers (len body) client) body).
Proof.
  intros [_ Hc] Hm Hp Hcs E Hl. unfold serve_connection. rewrite read_request_stream by done.
  rewrite E in *. by rewrite parse_request_bytes.
Qed.

Lemma answer_received {T} (parse : bytes -> option T) cs r :
  Forall (fun c => c <> []) cs -> concat cs = response_bytes r -> len (concat cs) <= MAX_RESPONSE_BYTES ->
  0 <= rs_status r <= U16_MAX -> printable (rs_content_type r) ->
  receive_answer parse (stream cs Closes) =
  if 400 <=? rs_status r
  then match parse_error (rs_body r) with
       | None => Err (ControlProtocol (str "invalid error response"))
       | Some (code, message) => Err (ControlRequest (default (str "remote_error") code)
                                        (default (str "local control request failed") message))
       end
  else match parse (rs_body r) with Some x => Ok x | None => Err Diag_Serialization end.
Proof.
  intros Hcs E Hl Hs Hc. unfold receive_answer. rewrite (read_response_stream cs r) by (done || by rewrite <- E). done.
Qed.

(** What the client gets from an error response *)
Lemma error_received {T} (parse : bytes -> option T) cs status code message :
  Forall (fun c => c <> []) cs -> concat cs = response_bytes (error_response status code message) ->
  len (concat cs) <= MAX_RESPONSE_BYTES -> 400 <= status <= U16_MAX ->
  receive_answer parse (stream cs Closes) = Err (ControlRequest code message).
Proof.
  intros Hcs E Hl Hs. rewrite (answer_received parse cs (error_response status code message));
    [|done|done|done|cbn; lia|by_decide].
  cbn [error_response rs_status rs_body]. assert (400 <=? status = true) as -> by lia. by rewrite parse_json_error.
Qed.

(** What the client gets from a value *)
Definition sent {T} (json : result bytes bytes) (x : T) : result T DiagnosticError :=
  match json with Ok _ => Ok x | Err why => Err (ControlRequest (str "serialization_error") why) end.

Lemma value_received {T} (parse : bytes -> option T) (json : T -> result bytes bytes) cs x :
  (forall y b, json y = Ok b -> parse b = Some y) ->
  Forall (fun c => c <> []) cs -> concat cs = response_bytes (json_response 200 (json x)) ->
  len (concat cs) <= MAX_RESPONSE_BYTES ->
  receive_answer parse (stream cs Closes) = sent (json x) x.
Proof.
  intros Hj Hcs E Hl. unfold json_response in E. destruct (json x) as [b|why] eqn:Ej.
  - rewrite (answer_received parse cs _ Hcs E Hl); [|by_decide|by_decide]. cbn. by rewrite (Hj _ _ Ej).
  - by apply (error_received parse cs 500).
Qed.

Lemma error_code_range e : 400 <= (diagnostic_error_code e).1 <= U16_MAX.
Proof. unfold diagnostic_error_code. repeat case_match; by_decide. Qed.

(** A ping through the service *)
Lemma ping_call (tcp : bool) (client : option bytes) (e : Ending) (cs : list bytes) (target : bytes)
    (count timeout : Z) :
  let ms := Z.min (timeout / 10 ^ 6) (2 ^ 64 - 1) in
  admitted tcp client -> ping_ok (mkPingRequest target count ms) ->
  Forall (fun c => c <> []) cs -> concat cs = ping_request target count timeout client ->
  len (concat cs) <= MAX_REQUEST_BYTES ->
  serve_connection token store tcp (stream cs e) = AskRuntime target count (ms * 10 ^ 6)
  /\ forall outcome cs',
       Forall (fun c => c <> []) cs' -> concat cs' = response_bytes (ping_response outcome) ->
       len (concat cs') <= MAX_RESPONSE_BYTES ->
       receive_answer parse_report (stream cs' Closes) =
       match outcome with
       | Some (Ok report) => sent (json_report report) report
       | Some (Err err) => Err (ControlRequest (diagnostic_error_code err).2 (show_diagnostic err))
       | None => Err (ControlRequest (str "service_unavailable") (str "peer runtime has stopped"))
       end.
Proof.
  intros ms Ha Hq Hcs E Hl. split.
  - assert (Hm : word (str "POST")) by by_decide. assert (Hp : word (str "/local/v1/ping")) by by_decide.
    rewrite (serve_request tcp client e cs _ _ _ Ha Hm Hp Hcs E Hl). unfold dispatch. cbn [hr_path hr_method hr_body]. rewrite gate_open by done.
    rewrite !(bool_decide_false (_ = str "GET")) by done. cbn [andb]. rewrite !bool_decide_true by done. cbn [andb].
    unfold handle_ping. by rewrite parse_json_ping.
  - intros outcome cs' Hcs' E' Hl'. unfold ping_response in E'. destruct outcome as [[report|err]|].
    + apply (value_received parse_report json_report); [apply parse_json_report|done..].
    + unfold diagnostic_error_response in E'. pose proof (error_code_range err) as Hr.
      destruct (diagnostic_error_code err) as [status code]. by apply (error_received parse_report cs' status).
    + by apply (error_received parse_report cs' 503).
Qed.


(** The three readings of the client: path, JSON and parser *)
Lemma get_served {T} (parse : bytes -> option T) (json : T -> result bytes bytes) tcp client e cs path x :
  (forall y b, json y = Ok b -> parse b = Some y) -> word path ->
  dispatch token store tcp (mkRequest (str "GET") path (request_headers 0 client) []) = Respond (json_response 200 (json x)) ->
  admitted tcp client -> Forall (fun c => c <> []) cs -> concat cs = request_bytes (str "GET") path [] client ->
  len (concat cs) <= MAX_REQUEST_BYTES ->
  exists r, serve_connection token store tcp (stream cs e) = Respond r
    /\ forall cs', Forall (fun c => c <> []) cs' -> concat cs' = response_bytes r ->
         len (concat cs') <= MAX_RESPONSE_BYTES -> receive_answer parse (stream cs' Closes) = sent (json x) x.
Proof.
  intros Hj Hp Hd Ha Hcs E Hl. assert (Hm : word (str "GET")) by by_decide. exists (json_response 200 (json x)).
  rewrite (serve_request tcp client e cs _ _ _ Ha Hm Hp Hcs E Hl). split; [exact Hd|].
  intros cs' Hcs' E' Hl'. by apply value_received.
Qed.

(** The status, the peers and the dashboard the client returns are those the runtime
    published, however the stream splits the request and the answer. *)
Theorem client_sees_store (tcp : bool) (client : option bytes) (e : Ending) (cs : list bytes) :
  admitted tcp client -> Forall (fun c => c <> []) cs -> len (concat cs) <= MAX_REQUEST_BYTES ->
  (concat cs = status_request client ->
     exists r, serve_connection token store tcp (stream cs e) = Respond r
       /\ forall cs', Forall (fun c => c <> []) cs' -> concat cs' = response_bytes r ->
            len (concat cs') <= MAX_RESPONSE_BYTES ->
            receive_answer parse_status (stream cs' Closes) = sent (json_status (so_status store)) (so_status store))
  /\ (concat cs = peers_request client ->
     exists r, serve_connection token store tcp (stream cs e) = Respond r
       /\ forall cs', Forall (fun c => c <> []) cs' -> concat cs' = response_bytes r ->
            len (concat cs') <= MAX_RESPONSE_BYTES ->
            receive_answer parse_peers (stream cs' Closes) = sent (json_peers (so_peers store)) (so_peers store))
  /\ (concat cs = runtime_request client ->
     exists r, serve_connection token store tcp (stream cs e) = Respond r
       /\ forall cs', Forall (fun c => c <> []) cs' -> concat cs' = response_bytes r ->
            len (concat cs') <= MAX_RESPONSE_BYTES ->
            receive_answer parse_dashboard (stream cs' Closes)
            = sent (json_dashboard (so_dashboard store)) (so_dashboard store)).
Proof.
  intros Ha Hcs Hl. split_and!; intros E; (eapply get_served; [| | |done|done|exact E|done]).
  all: try by_decide; try (unfold dispatch; cbn [hr_path hr_method]; rewrite gate_open by done; reflexivity).
  all: [> apply parse_json_status | apply parse_json_peers | apply parse_json_dashboard ].
Qed.

(** ** Over TCP *)

(** C28: Over TCP nothing but the dashboard is served without the token: a command reaches
    the runtime, and an answer other than an error is given, only for a request whose
    authorization is the token, or for one of the two dashboard paths. *)
Theorem tcp_gate (reads : list Read) :
  match serve_connection token store true reads with
  | AskRuntime _ _ _ =>
      exists request t, fst (read_request reads) = Ok request /\ token = Some t
        /\ hr_headers request !! str "authorization" = Some (str "Bearer " ++ t)
  | Respond r =>
      rs_status r < 400 ->
      exists request, fst (read_request reads) = Ok request
        /\ (hr_path request = str "/" \/ hr_path request = str "/api/v1/dashboard"
            \/ exists t, token = Some t /\ hr_headers request !! str "authorization" = Some (str "Bearer " ++ t))
  end.
Proof.
  unfold serve_connection. destruct (fst (read_request reads)) as [request|[|error]]; [|cbn; lia..].
  assert (Ha : authorized request token = true ->
            exists t, token = Some t /\ hr_headers request !! str "authorization" = Some (str "Bearer " ++ t)).
  { unfold authorized. destruct token as [t|]; [|done]. destruct (_ !! _) as [v|]; [|done]. cbn [mbind option_bind].
    destruct (strip_prefix _ v) as [v'|] eqn:E; [|done]. apply strip_prefix_Some in E as ->.
    intros H. apply bool_decide_eq_true in H as ->. eauto. }
  unfold dispatch. destruct (authorized request token).
  - destruct (Ha eq_refl) as (t & Ht & Hh). case_match; [|eauto]. intros _. exists request. eauto 6.
  - destruct (bool_decide (hr_path request = str "/") || bool_decide (hr_path request = str "/api/v1/dashboard")) eqn:Ed.
    2:{ cbn. lia. }
    assert (Hd : hr_path request = str "/" \/ hr_path request = str "/api/v1/dashboard").
    { apply orb_true_iff in Ed as [Ed|Ed]; apply bool_decide_eq_true in Ed; auto. }
    assert (bool_decide (hr_path request = str "/local/v1/ping") = false) as ->.
    { apply bool_decide_false. intros E. by destruct Hd as [Hd|Hd]; rewrite Hd in E. }
    rewrite !andb_false_r. cbn [andb negb].
    repeat match goal with |- context [if ?b then _ else _] => destruct b end; intros _; exists request;
      (split; [done|]; destruct Hd; auto).
Qed.

(** The same dashboard that [/local/v1/runtime] protects is served to anybody at
    [/api/v1/dashboard]. *)
Lemma dashboard_without_token e cs cs' :
  Forall (fun c => c <> []) cs -> Forall (fun c => c <> []) cs' ->
  concat cs = request_bytes (str "GET") (str "/api/v1/dashboard") [] None ->
  concat cs' = request_bytes (str "GET") (str "/local/v1/runtime") [] None ->
  serve_connection token store true (stream cs e) = Respond (json_response 200 (json_dashboard (so_dashboard store)))
  /\ serve_connection token store true (stream cs' e)
     = Respond (error_response 401 (str "unauthorized") (str "local control token is required")).
Proof.
  intros Hcs Hcs' E E'. unfold serve_connection.
  rewrite !read_request_stream; [|done|rewrite E'; by_decide|done|rewrite E; by_decide]. rewrite E, E'.
  rewrite !parse_request_bytes by (done || by_decide). unfold dispatch. cbn [hr_path hr_method].
  split; [reflexivity|]. unfold authorized, request_headers. cbn [hr_headers].
  rewrite !lookup_insert_ne by done. rewrite lookup_empty. by destruct token.
Qed.
End calls.

(** ** Two services of one user *)

(** On Linux the socket does not depend on the state directory: the client of the
    first directory talks to the second service, and when the first stops, the
    client of the second finds none. *)
Lemma second_service_takes_socket uid d1 d2 t1 t2 pid1 pid2 n1 n2 id1 id2 a1 a2 (f f1 f2 : Files) e1 e2 :
  start_service uid d1 t1 pid1 n1 id1 (mkStartIo (Some a1) true true true) f = (Ok e1, f1) ->
  start_service uid d2 t2 pid2 n2 id2 (mkStartIo (Some a2) true true true) f1 = (Ok e2, f2) ->
  connect_service uid d1 f2 = Ok id2 /\ connect_service uid d2 (stop_service uid d1 f2) = Err ServiceUnavailable.
Proof.
  unfold start_service. cbn. intros [= <- <-] [= <- <-]. unfold connect_service, stop_service. cbn.
  unfold control_socket_path. rewrite lookup_insert_eq, lookup_delete_eq. done.
Qed.
