(* ===== verification/LocalControlSample.v ===== *)
(** * Calls of local control on a concrete service

    A text form of the values with the laws [LocalControlInv] assumes, and the calls
    of its theorems with the bytes in two pieces. *)
From S2P Require Import Prelude Net Encoding Wire NodeId Snapshot SignedBytes Crypto Ip Replay Path Handshake.
From S2P Require Import NodeState NodePeers NodeSend NodeSession NodeData NodeTimers NodeInv NodeSample.
From S2P Require Import Control Text CoordDb Coord CoordInv Dns Stun CoordClient Codec NodeView Diagnostic Runtime.
From S2P Require Import LocalControl LocalControlText LocalControlInv.

Definition status_codec : codec PeerStatus.
Proof.
  refine (iso_codec (b_codec ** list_codec sock_codec ** list_codec b_codec ** list_codec b_codec
      ** list_codec candidate_codec ** option_codec z_codec ** list_codec summary_codec)
    (fun s => (st_server s, (st_local_addrs s, (st_doh_servers s, (st_stun_servers s, (st_candidates s,
       (st_credential_expires_at s, st_peers s)))))))
    (fun '(a, (b, (c, (d, (e, (f, g)))))) => mkStatus a b c d e f g) _).
  by intros [].
Defined.

Definition report_codec : codec PingReport.
Proof.
  refine (iso_codec (b_codec ** list_codec sock_codec ** sock_codec ** b_codec ** z_codec ** list_codec z_codec
      ** z_codec ** z_codec ** z_codec)
    (fun r => (rp_target r, (rp_local_addrs r, (rp_path r, (rp_candidate_type r, (rp_connect_ms r, (rp_rtts_ms r,
       (rp_min_rtt_ms r, (rp_max_rtt_ms r, rp_avg_rtt_ms r)))))))))
    (fun '(a, (b, (c, (d, (e, (f, (g, (h, i)))))))) => mkReport a b c d e f g h i) _).
  by intros [].
Defined.

Definition ping_codec : codec PingRequest.
Proof.
  refine (iso_codec (b_codec ** z_codec ** z_codec) (fun q => (pr_target q, (pr_count q, pr_timeout_ms q)))
    (fun '(a, (b, c)) => mkPingRequest a b c) _).
  by intros [].
Defined.

Definition read_all {A} (c : codec A) (l : bytes) : option A :=
  match dec c l with Some (x, []) => Some x | _ => None end.

Lemma read_all_enc {A} (c : codec A) x : read_all c (enc c x) = Some x.
Proof. unfold read_all. rewrite <- (app_nil_r (enc c x)). by rewrite dec_enc. Qed.

Lemma written_read {A} (c : codec A) x (b : bytes) : (Ok (enc c x) : result bytes bytes) = Ok b -> read_all c b = Some x.
Proof. intros E. assert (b = enc c x) as -> by congruence. apply read_all_enc. Qed.

#[export] Instance local_json : LocalJson unit := {|
  json_status x := Ok (enc status_codec x);
  json_peers x := Ok (enc (list_codec summary_codec) x);
  json_dashboard _ := Ok [];
  json_report x := Ok (enc report_codec x);
  json_ping q := enc ping_codec q;
  json_error c m := enc (b_codec ** b_codec) (c, m);
  parse_status := read_all status_codec;
  parse_peers := read_all (list_codec summary_codec);
  parse_dashboard l := Some tt;
  parse_report := read_all report_codec;
  parse_ping l := match read_all ping_codec l with Some q => Ok q | None => Err (str "expected value") end;
  parse_error l := (fun cm => (Some cm.1, Some cm.2)) <$> read_all (b_codec ** b_codec) l;
  show_diagnostic _ := str "error";
  dashboard_page := str "<html></html>"
|}.

#[export] Instance local_json_laws : LocalJsonLaws local_json.
Proof.
  constructor.
  - apply (written_read status_codec).
  - apply (written_read (list_codec summary_codec)).
  - by intros [] b _.
  - apply (written_read report_codec).
  - intros q _. unfold parse_ping, json_ping, local_json. by rewrite read_all_enc.
  - intros c m. unfold parse_error, json_error, local_json. by rewrite read_all_enc.
Qed.

Definition sample_token : bytes := str "c2VjcmV0".
Definition sample_status : PeerStatus := mkStatus (str "ws://coord") [SockV4 0x7f000001 4000] [] [] [] (Some 500) [].
Definition sample_store : Store := mkStore sample_status [] tt.
Definition sample_report : PingReport :=
  mkReport (toy_node 2) [] (SockV4 0x0a000002 4000) (str "host") 12 [3; 5; 4] 3 5 4.

(** Two pieces *)
Definition halves (l : bytes) : list bytes := [take 7 l; drop 7 l].

Definition pinged : bytes := ping_request (toy_node 2) 3 (1500 * 10 ^ 6) (Some sample_token).
Definition reported : bytes := response_bytes (ping_response (Some (Ok sample_report))).


Definition status_asked : bytes := status_request (Some sample_token).
Definition status_told : bytes := response_bytes (json_response 200 (json_status sample_status)).

Lemma client_sees_store_witness :
  exists r, serve_connection (Some sample_token) sample_store true (stream (halves status_asked) Stalls) = Respond r
    /\ response_bytes r = status_told
    /\ receive_answer parse_status (stream (halves status_told) Closes) = Ok sample_status.
Proof.
  destruct (client_sees_store (Some sample_token) sample_store true (Some sample_token) Stalls (halves status_asked))
    as (Hs & _ & _).
  - split; [by intros _|by_decide].
  - by_decide.
  - by_decide.
  - destruct Hs as (r & E & Hr); [apply take_drop|]. exists r. split; [exact E|].
    assert (Hb : response_bytes r = status_told).
    { assert (Respond r = Respond (json_response 200 (json_status sample_status))) as [= ->] by (rewrite <- E; vm_compute; reflexivity).
      done. }
    split; [exact Hb|]. rewrite (Hr (halves status_told)); [done|by_decide|rewrite Hb; apply take_drop|by_decide].
Defined.

Lemma read_request_exact_witness :
  fst (read_request (stream (halves pinged) Closes)) = parse_request pinged Closes
  /\ is_ok (parse_request pinged Closes) = true
  /\ fst (read_request (stream [take 7 pinged] Stalls)) = Err Waiting.
Proof.
  split_and!; [|vm_compute; reflexivity|].
  - rewrite (read_request_exact (halves pinged) Closes) by by_decide. f_equal.
  - rewrite (read_request_exact [take 7 pinged] Stalls) by by_decide. vm_compute. reflexivity.
Defined.

(** Without the token the status is refused; the ping has the token. *)
Lemma tcp_gate_witness :
  serve_connection (Some sample_token) sample_store true (stream (halves (status_request None)) Stalls)
  = Respond (error_response 401 (str "unauthorized") (str "local control token is required"))
  /\ exists request t, fst (read_request (stream (halves pinged) Stalls)) = Ok request /\ Some sample_token = Some t
       /\ hr_headers request !! str "authorization" = Some (str "Bearer " ++ t).
Proof.
  split; [vm_compute; reflexivity|].
  assert (E : serve_connection (Some sample_token) sample_store true (stream (halves pinged) Stalls)
              = AskRuntime (toy_node 2) 3 (1500 * 10 ^ 6)) by (vm_compute; reflexivity).
  pose proof (tcp_gate (Some sample_token) sample_store (stream (halves pinged) Stalls)) as H.
  rewrite E in H. exact H.
Defined.
