(* ===== verification/CoordOpen.v ===== *)
(** * Opening the server

    [CoordServer::open_with_admin_credentials_and_network_config] and
    [load_network_config] of [vela-coord/src/lib.rs]: the tables are created or brought
    up to the current columns, addresses are migrated, and the generation and the
    network configuration are read.  Columns that were added to a table are [None] in
    the rows of a database that does not have them.  The main theorem is about a
    restart: a server opened on the database of a running one takes up where it was. *)
From S2P Require Import Prelude Net Encoding Wire NodeId Snapshot SignedBytes Crypto Control.
From S2P Require Import NodeSample CoordDb Coord CoordInv Text Dns Stun CoordClient Codec ClientServer.

(** A row of [peers] as it is stored *)
Record PeerColumns : Type := mkPeerColumns {
  pc_signing_public : bytes;
  pc_noise_public : bytes;
  pc_candidates : list Candidate;
  pc_credential : bytes;
  pc_capabilities : list PeerCapability;
  pc_revoked : bool;
  pc_virtual_ipv4 : option Z;
  pc_virtual_ipv6 : option Z;
  pc_name : option bytes;
  pc_notes : option bytes;
  pc_last_seen : option Z;
  pc_incarnation : option Z
}.

(** A row of [invites] as it is stored *)
Record InviteColumns : Type := mkInviteColumns {
  ic_expires_at : Z;
  ic_used : bool;
  ic_id : option bytes;
  ic_name : option bytes;
  ic_notes : option bytes;
  ic_created_at : option Z;
  ic_revoked : option bool;
  ic_download_token_hash : option bytes;
  ic_download_used : option bool
}.

(** The database; [settings] holds JSON texts. *)
Record Database : Type := mkDatabase {
  db_peers : gmap bytes PeerColumns;
  db_invites : gmap bytes InviteColumns;
  db_generation : option Z;
  db_settings : gmap bytes bytes
}.

(** [serde_json] on a list of strings *)
Class SettingsJson : Type := {
  json_strings : list bytes -> bytes;
  parse_strings : bytes -> option (list bytes)
}.
Class SettingsJsonLaws (SJ : SettingsJson) : Prop := {
  parse_json_strings l : parse_strings (json_strings l) = Some l
}.

(** ** The statements of opening *)

(** [ALTER TABLE peers ADD COLUMN ..] with its defaults *)
Definition add_peer_columns (c : PeerColumns) : PeerRow :=
  mkRow (pc_signing_public c) (pc_noise_public c) (default 0 (pc_incarnation c)) (pc_candidates c)
    (pc_virtual_ipv4 c) (pc_virtual_ipv6 c) (pc_credential c) (pc_capabilities c) (pc_revoked c)
    (default [] (pc_name c)) (default [] (pc_notes c)) (default 0 (pc_last_seen c)).

(** [ALTER TABLE invites ADD COLUMN ..], then an id from the hash and the time of creation
    where they are missing.  A missing download hash matches no token.  (An id made from a
    hash that is already the id of another invite is left out.) *)
Definition add_invite_columns (hash : bytes) (c : InviteColumns) : InviteRow :=
  let id := default [] (ic_id c) in
  let created_at := default 0 (ic_created_at c) in
  mkInvite (if bool_decide (id = []) then hex_encode hash else id) (ic_expires_at c) (ic_used c)
    (default [] (ic_name c)) (default [] (ic_notes c))
    (if created_at =? 0 then ic_expires_at c else created_at)
    (default false (ic_revoked c)) (default [] (ic_download_token_hash c)) (default false (ic_download_used c)).

(** [INSERT OR IGNORE], then the value if it is positive *)
Definition load_generation (stored : option Z) : Z * Z :=
  let value := default 1 stored in
  (value, if 0 <? value then value else 1).

Section opening.
Context {HH : Hash} {SJ : SettingsJson}.

Definition load_network_config (doh_servers stun_servers : list bytes) (settings : gmap bytes bytes)
    : result (list bytes * list bytes * gmap bytes bytes) CoordError :=
  let stored key :=
    match settings !! key with
    | None => Ok None
    | Some text => match parse_strings text with Some l => Ok (Some l) | None => Err Coord_Serialization end
    end in
  let doh_default := match doh_servers with [] => default_servers | _ => doh_servers end in
  let? doh := stored (str "doh_servers") in
  let doh := match doh with Some (s :: l) => s :: l | _ => doh_default end in
  let? stun := stored (str "stun_servers") in
  let stun := default stun_servers stun in
  let ignore key l (m : gmap bytes bytes) := match m !! key with Some _ => m | None => <[key := json_strings l]> m end in
  Ok (doh, stun, ignore (str "stun_servers") stun (ignore (str "doh_servers") doh settings)).

(** [open_with_admin_credentials_and_network_config]; [files] is whether the credentials and
    the signing key could be loaded or made. *)
Definition open_server (files : bool) (doh_servers stun_servers : list bytes) (db : Database)
    : result CoordState CoordError :=
  let peers := add_peer_columns <$> db_peers db in
  let invites := map_imap (fun hash c => Some (add_invite_columns hash c)) (db_invites db) in
  let? peers := ok_or (migrate_virtual_ipv4 blake3 peers) AddressPoolExhausted in
  let '(meta, generation) := load_generation (db_generation db) in
  let? (doh, stun, _) := load_network_config doh_servers stun_servers (db_settings db) in
  if files then Ok (mkCoord peers invites meta generation ∅ ∅ false false doh stun ∅ ∅ [])
  else Err AdminCredentials.

(** ** The database of a running server *)

Definition peer_columns (r : PeerRow) : PeerColumns :=
  mkPeerColumns (row_signing_public r) (row_noise_public r) (row_candidates r) (row_credential r)
    (row_capabilities r) (row_revoked r) (row_virtual_ipv4 r) (row_virtual_ipv6 r) (Some (row_name r))
    (Some (row_notes r)) (Some (row_last_seen r)) (Some (row_incarnation r)).

Definition invite_columns (r : InviteRow) : InviteColumns :=
  mkInviteColumns (inv_expires_at r) (inv_used r) (Some (inv_id r)) (Some (inv_name r)) (Some (inv_notes r))
    (Some (inv_created_at r)) (Some (inv_revoked r)) (Some (inv_download_token_hash r)) (Some (inv_download_used r)).

Definition saved_database (s : CoordState) : Database :=
  mkDatabase (peer_columns <$> cs_peers s) (invite_columns <$> cs_invites s) (Some (cs_meta_generation s))
    (<[str "stun_servers" := json_strings (cs_stun s)]> (<[str "doh_servers" := json_strings (cs_doh s)]> ∅)).
End opening.

(** ** Migration of a good table *)

Lemma migrate_rows_kept blake3 rows used :
  Forall (fun r => exists h, r.2 ≫= virtual_ipv4_host = Some h /\ h ∉ used) rows ->
  NoDup (omap (fun r => r.2 ≫= virtual_ipv4_host) rows) -> migrate_rows blake3 rows used = Some [].
Proof.
  revert used; induction rows as [|[id st] rows IH]; intros used Hall Hnd; [done|].
  inversion_clear Hall as [|? ? (h & Hh & Hu) Hrest]. cbn [snd] in Hh. cbn [migrate_rows].
  cbn [omap list_omap snd] in Hnd. rewrite Hh in *. apply NoDup_cons in Hnd as [Hni Hnd].
  rewrite bool_decide_false by done. apply IH; [|done].
  rewrite Forall_forall in *. intros r Hr. destruct (Hrest r Hr) as (h' & Hh' & Hu'). exists h'. split; [done|].
  intros [->%elem_of_singleton|]%elem_of_union; [|done]. apply Hni, list_elem_of_omap. eauto.
Qed.

(** A table whose addresses are usable and distinct is left as it is. *)
Lemma migrate_kept blake3 t : addresses_ok t -> migrate_virtual_ipv4 blake3 t = Some t.
Proof.
  intros [Ha Hinj]. unfold migrate_virtual_ipv4. rewrite migrate_rows_kept; [done| |].
  - apply Forall_forall. intros x Hx. rewrite sort_by_key_perm in Hx. apply list_elem_of_fmap in Hx as ([id r] & -> & Hr).
    apply elem_of_map_to_list in Hr. destruct (Ha id r Hr) as (a & Ea & Hu). exists (a - VIRTUAL_IPV4_NETWORK_BASE).
    cbn. rewrite Ea. cbn. split; [|set_solver]. unfold virtual_ipv4_host, usable_address in *.
    assert ((1 <=? a - VIRTUAL_IPV4_NETWORK_BASE) && (a - VIRTUAL_IPV4_NETWORK_BASE <=? VIRTUAL_IPV4_USABLE_HOSTS) = true)
      as -> by lia. done.
  - apply (NoDup_omap_inj fst); [apply migrate_rows_nodup|].
    assert (Hrow : forall x b, x ∈ sort_by_key fst (map (fun kv => (kv.1, row_virtual_ipv4 kv.2)) (map_to_list t)) ->
              x.2 ≫= virtual_ipv4_host = Some b ->
              exists r, t !! x.1 = Some r /\ row_virtual_ipv4 r = Some (VIRTUAL_IPV4_NETWORK_BASE + b)).
    { intros x b Hx Hb. rewrite sort_by_key_perm in Hx. apply list_elem_of_fmap in Hx as ([id r] & -> & Hr).
      apply elem_of_map_to_list in Hr. exists r. split; [done|]. cbn [fst snd] in *.
      destruct (row_virtual_ipv4 r) as [a|]; [|done]. cbn [mbind option_bind] in Hb. unfold virtual_ipv4_host in Hb.
      destruct (_ && _); [|done]. injection Hb as <-. f_equal. lia. }
    intros x y b Hx Hy Hbx Hby. destruct (Hrow _ _ Hx Hbx) as (r1 & ? & ?), (Hrow _ _ Hy Hby) as (r2 & ? & ?). eauto.
Qed.

(** ** A restart *)

Lemma peer_columns_kept r : add_peer_columns (peer_columns r) = r.
Proof. by destruct r. Qed.

(** What decides about an invite *)
Definition invite_state (r : InviteRow) : Z * bool * bool * bytes * bool :=
  (inv_expires_at r, inv_used r, inv_revoked r, inv_download_token_hash r, inv_download_used r).

Section restart.
Context {HH : Hash} {HSg : SignatureOps} {HT : TextOps} {SJ : SettingsJson} {SL : SettingsJsonLaws SJ}.
Context (tenant signer : bytes).

Lemma load_saved_config doh stun (s : CoordState) :
  load_network_config doh stun (db_settings (saved_database s)) =
  Ok (match cs_doh s with [] => match doh with [] => default_servers | _ => doh end | _ => cs_doh s end, cs_stun s,
      db_settings (saved_database s)).
Proof.
  unfold load_network_config, saved_database. cbn [db_settings].
  rewrite lookup_insert_ne, lookup_insert_eq, parse_json_strings by done. cbn [rbind].
  rewrite lookup_insert_eq, parse_json_strings. cbn [rbind default].
  by destruct (cs_doh s).
Qed.

(** What opening the saved database gives *)
Lemma reopen_resumes (s : CoordState) (doh stun : list bytes) :
  reachable tenant signer s ->
  exists s', open_server true doh stun (saved_database s) = Ok s'
    /\ coord_init s'
    /\ cs_peers s' = cs_peers s
    /\ cs_generation s' = cs_generation s
    /\ (forall hash, invite_state <$> cs_invites s' !! hash = invite_state <$> cs_invites s !! hash)
    /\ (cs_doh s <> [] -> cs_doh s' = cs_doh s) /\ cs_stun s' = cs_stun s.
Proof.
  intros Hr. apply reachable_inv in Hr as ([Ha Hi] & _ & [Hg Hm] & _).
  unfold open_server. rewrite load_saved_config.
  assert (add_peer_columns <$> db_peers (saved_database s) = cs_peers s) as ->.
  { apply map_eq. intros id. unfold saved_database. cbn. rewrite !lookup_fmap.
    destruct (cs_peers s !! id); [|done]. cbn. by rewrite peer_columns_kept. }
  rewrite migrate_kept by done. cbn [ok_or rbind db_generation saved_database load_generation default].
  unfold load_generation. cbn [default from_option id]. rewrite Hm.
  assert (0 <? cs_generation s = true) as -> by lia. eexists. split; [reflexivity|].
  split; [|split_and!; try done; cbn].
  - by split_and!.
  - intros hash. rewrite map_lookup_imap, lookup_fmap. by destruct (cs_invites s !! hash) as [[]|].
  - by destruct (cs_doh s).
Qed.

(** C12: A restart loses nothing: a server opened on the database of any reachable server
    starts in a consistent state with the same peers, their addresses, the same
    generation, so that members do not reject its snapshots as stale, the same state of
    every invite, so that none can be used twice, and the same configuration; nobody is
    online. *)
Theorem restart_resumes (s : CoordState) (doh stun : list bytes) :
  reachable tenant signer s ->
  exists s', open_server true doh stun (saved_database s) = Ok s'
    /\ coord_init s'
    /\ cs_peers s' = cs_peers s
    /\ cs_generation s' = cs_generation s
    /\ (forall hash, invite_state <$> cs_invites s' !! hash = invite_state <$> cs_invites s !! hash)
    /\ (cs_doh s <> [] -> cs_doh s' = cs_doh s) /\ cs_stun s' = cs_stun s.
Proof. apply reopen_resumes. Qed.
End restart.

(** ** On the sample *)

#[local] Instance strings_json : SettingsJson := {|
  json_strings := enc (list_codec b_codec);
  parse_strings l := match dec (list_codec b_codec) l with Some (x, []) => Some x | _ => None end
|}.
#[local] Instance strings_json_laws : SettingsJsonLaws strings_json.
Proof.
  constructor. intros l. unfold parse_strings, json_strings, strings_json.
  rewrite <- (app_nil_r (enc _ l)), dec_enc. done.
Qed.

Definition running : CoordState := set_conns {[1 := Some (toy_node 1)]} sample_first.
Definition reopened : result CoordState CoordError := open_server (HH := toy_hash) true [] [] (saved_database running).

Lemma restart_resumes_witness :
  exists s', reopened = Ok s' /\ is_Some (cs_peers s' !! toy_node 1) /\ cs_generation s' = cs_generation running.
Proof.
  destruct (restart_resumes (HH := toy_hash) (HSg := toy_sig) (HT := sample_text) (str "tenant") [3] running [] []
              sample_first_reachable) as (s' & E & _ & Hp & Hg & _).
  exists s'. split; [exact E|]. split; [|exact Hg]. rewrite Hp. vm_compute. eauto.
Defined.
