(* ===== verification/Supervisor.v ===== *)
(** * The supervisor of a peer

    [peer up] of [vela-cli/src/main.rs]: [run_peer_up] opens the runtime and the TUN
    interface, [run_tun_peer_once] serves them until one of its tasks ends, and
    [run_tun_peer] starts the runtime again after a delay.  The runtime is the
    interface [Process]: the latest snapshot and MTU it gave and how it moves;
    [SupervisorRuntime] gives it the runtime of [Runtime].  A turn of the two loops
    is a function of what woke it, with the outcome of what it waits for. *)
From stdpp Require Import gmultiset.
From S2P Require Import Prelude Net Encoding Wire NodeId Snapshot Path TunRoutes.

(** A running peer: what its watch channels hold, and its steps *)
Class Process (P : Type) : Type := {
  pc_snapshot : P -> option NetworkSnapshot;
  pc_mtu : P -> Z;
  pc_step : P -> P -> Prop
}.

(** The MTU of the interface *)
Class LinkKernel (K : Type) : Type := { link_mtu : Z -> K -> result unit bytes * K }.
Class LinkKernelLaws (K : Type) {RK : RouteKernel K} {LK : LinkKernel K} : Prop := {
  link_mtu_routes : forall m k, kernel_routes (snd (link_mtu m k)) = kernel_routes k
}.

(** How the task of the runtime ended; a panic is an error. *)
Inductive Ended : Type := EndedOk | EndedErr.

Definition RESTART_DELAY : Z := 10 ^ 9.
Definition MAX_RESTART_DELAY : Z := 30 * 10 ^ 9.

Inductive Phase : Type := Serving | Waiting | Stopped.

Section supervisor.
Context {K : Type} {RK : RouteKernel K} {LK : LinkKernel K}.
Context {P : Type} {PP : Process P}.
Context (blake3 : bytes -> bytes) (order : list IpAddr -> list IpAddr).
(** [handle.node_id()] *)
Context (me : bytes).
Local Notation T := (handler (TunPeer K) CliError).

(** [RouteManager::set_mtu] *)
Definition set_mtu (mtu : Z) : T unit :=
  if (0 <=? mtu) && (mtu <=? 2 ^ 32 - 1) then on_routes (netlink (link_mtu mtu))
  else hfail (CliTun InvalidMtu).

(** The state of [run_tun_peer].  [su_detached]: a runtime runs that nothing holds a
    handle of; [su_seen]: the snapshot the routes were set from. *)
Record Supervisor : Type := mkSup {
  su_phase : Phase;
  su_process : option P;
  su_detached : bool;
  su_tun : TunPeer K;
  su_seen : option NetworkSnapshot;
  su_delay : Z
}.

Definition set_tun (t : TunPeer K) (s : Supervisor) : Supervisor :=
  mkSup (su_phase s) (su_process s) (su_detached s) t (su_seen s) (su_delay s).
Definition set_process (p : P) (s : Supervisor) : Supervisor :=
  mkSup (su_phase s) (Some p) (su_detached s) (su_tun s) (su_seen s) (su_delay s).

(** The end of [run_tun_peer]; the leases that are not released within the time are dropped. *)
Definition stop_supervisor (n : nat) (s : Supervisor) : Supervisor :=
  mkSup Stopped None (su_detached s) (snd (release_route_leases order n (su_tun s))) None (su_delay s).

(** Back in [run_tun_peer] with an error: wait, then start again *)
Definition wait_restart (s : Supervisor) : Supervisor :=
  mkSup Waiting None (su_detached s) (su_tun s) (su_seen s) (su_delay s).

(** The start of [run_tun_peer_once].  When the MTU cannot be set the function returns
    and drops the handle and the task, which runs on. *)
Definition once_begin (p : P) (s : Supervisor) : Supervisor :=
  match set_mtu (pc_mtu p) (su_tun s) with
  | (Ok _, t) => mkSup Serving (Some p) (su_detached s) t (su_seen s) (su_delay s)
  | (Err _, t) => mkSup Waiting None true t (su_seen s) (su_delay s)
  end.

(** The end of [run_tun_peer_once] after its loop: the runtime is stopped and awaited
    unless it has ended; an error of the loop or of the runtime is an error. *)
Definition once_end (n : nat) (loop_ok : bool) (task : Ended) (s : Supervisor) : Supervisor :=
  match loop_ok, task with
  | true, EndedOk => stop_supervisor n s
  | _, _ => wait_restart s
  end.

(** What wakes the loop of [run_tun_peer_once]; [task] is how the runtime ends when it
    is stopped, [n] how many leases are released in time. *)
Inductive Event : Type :=
| TaskEnded
| ReaderEnded
| WriterEnded
| SnapshotChanged
| SnapshotsClosed
| MtuChanged
| MtuClosed
| CtrlC.

Definition once_turn (ev : Event) (n : nat) (task : Ended) (s : Supervisor) : Supervisor :=
  match su_process s with
  | None => s
  | Some p =>
      match ev with
      | TaskEnded | SnapshotsClosed | MtuClosed => once_end n true task s
      | ReaderEnded | WriterEnded => once_end n false task s
      | SnapshotChanged =>
          match pc_snapshot p with
          | None => s
          | Some sn =>
              match apply_tun_snapshot blake3 order me sn (su_tun s) with
              | (Ok _, t) => mkSup (su_phase s) (Some p) (su_detached s) t (Some sn) (su_delay s)
              | (Err _, t) => once_end n false task (set_tun t s)
              end
          end
      | MtuChanged =>
          match set_mtu (pc_mtu p) (su_tun s) with
          | (Ok _, t) => set_tun t s
          | (Err _, t) => once_end n false task (set_tun t s)
          end
      | CtrlC => stop_supervisor n s
      end
  end.

(** ** Starting again *)

(** A delay that passes with a failure is doubled. *)
Definition restart_failed (s : Supervisor) : Supervisor :=
  mkSup Waiting None (su_detached s) (su_tun s) (su_seen s)
    (Z.min (su_delay s + su_delay s) MAX_RESTART_DELAY).

(** [DiagnosticRuntime::open_with_mtu]: the state lock comes first, and a runtime that
    still runs holds it.  [opened] is what opening gives with the lock. *)
Definition open_runtime (opened : option P) (s : Supervisor) : option P :=
  if su_detached s then None else opened.

(** The inner loop of [run_tun_peer] when the delay is over *)
Definition restart_turn (opened : option P) (s : Supervisor) : Supervisor :=
  match open_runtime opened s with
  | None => restart_failed s
  | Some p =>
      match pc_snapshot p with
      | None => restart_failed s
      | Some sn =>
          match apply_tun_snapshot blake3 order me sn (su_tun s) with
          | (Err _, t) => restart_failed (set_tun t s)
          | (Ok _, t) => once_begin p (mkSup Waiting None (su_detached s) t (Some sn) RESTART_DELAY)
          end
      end
  end.

(** [wait_for_peer_restart] with an interrupt *)
Definition restart_cancelled (n : nat) (s : Supervisor) : Supervisor := stop_supervisor n s.

(** [run_peer_up] once the runtime [p] is open; [device] is how opening the device and its
    route manager ends.  The interface gets its MTU and the routes of the snapshot. *)
Definition run_peer_up (mtu : Z) (p : P) (device : result unit TunError) (n : nat) (t : TunPeer K)
    : result Supervisor CliError * TunPeer K :=
  match pc_snapshot p with
  | None => (Err (InvalidInput (str "state has no network snapshot; register first")), t)
  | Some sn =>
      match device with
      | Err e => (Err (CliTun e), t)
      | Ok _ =>
          match set_mtu (Z.min mtu DEFAULT_VIRTUAL_MTU) t with
          | (Err e, t) => (Err e, t)
          | (Ok _, t) =>
              match apply_tun_snapshot blake3 order me sn t with
              | (Err e, t) => (Err e, snd (release_route_leases order n t))
              | (Ok _, t) => let s := once_begin p (mkSup Waiting None false t (Some sn) RESTART_DELAY) in (Ok s, su_tun s)
              end
          end
      end
  end.

(** ** Runs *)

Inductive sup_step : Supervisor -> Supervisor -> Prop :=
| sup_once ev n task s : su_phase s = Serving -> sup_step s (once_turn ev n task s)
| sup_restart opened s : su_phase s = Waiting -> sup_step s (restart_turn opened s)
| sup_cancel n s : su_phase s = Waiting -> sup_step s (restart_cancelled n s)
| sup_process p p' s : su_process s = Some p -> pc_step p p' -> sup_step s (set_process p' s)
| sup_detached_ends s : sup_step s (mkSup (su_phase s) (su_process s) false (su_tun s) (su_seen s) (su_delay s))
| sup_release i s : sup_step s (set_tun (mkTunPeer (run_spawned i (tp_routes (su_tun s))) (tp_leases (su_tun s))) s).

Definition sup_reachable (k : K) (s : Supervisor) : Prop :=
  exists mtu p n s0 t, run_peer_up mtu p (Ok tt) n (fresh_tun k) = (Ok s0, t) /\ rtc sup_step s0 s.
End supervisor.
Arguments Supervisor : clear implicits.

(** ** What the supervisor keeps *)

Section supervised.
Context {K : Type} {RK : RouteKernel K} {RL : RouteKernelLaws K} {LK : LinkKernel K} {LL : LinkKernelLaws K}.
Context {P : Type} {PP : Process P}.
Context (blake3 : bytes -> bytes) (order : list IpAddr -> list IpAddr) (order_perm : forall l, order l ≡ₚ l).
Context (me : bytes).
Abbreviation Sup := (Supervisor K P).

(** The leases are those of the snapshot. *)
Definition routes_of (sn : NetworkSnapshot) (t : TunPeer K) : Prop :=
  validate blake3 sn = Ok tt /\ forall a, a ∈ dom (tp_leases t) <-> member_address sn me a.

Definition tun_inv (k : K) (t : TunPeer K) : Prop := peer_ok t /\ foreign (tp_routes t) = kernel_routes k.

Definition phase_inv (s : Sup) : Prop :=
  match su_phase s with
  | Serving => is_Some (su_process s) /\ exists sn, su_seen s = Some sn /\ routes_of sn (su_tun s)
  | Waiting => su_process s = None
  | Stopped => su_process s = None /\ tp_leases (su_tun s) = ∅
  end.

Definition sup_inv (k : K) (s : Sup) : Prop :=
  tun_inv k (su_tun s) /\ RESTART_DELAY <= su_delay s <= MAX_RESTART_DELAY /\ phase_inv s.

Lemma set_mtu_spec k mtu t res t' :
  tun_inv k t -> set_mtu mtu t = (res, t') -> tun_inv k t' /\ tp_leases t' = tp_leases t.
Proof.
  intros [[Hl [Hc Hk]] Hf]. unfold set_mtu. destruct (_ && _); [|by intros [= <- <-]].
  unfold on_routes, netlink. pose proof (link_mtu_routes mtu (ro_kernel (tp_routes t))) as Hr.
  destruct (link_mtu mtu _) as [x k']. intros [= _ <-]. cbn in Hr. unfold tun_inv, peer_ok, routes_ok, foreign in *.
  cbn. rewrite Hr. done.
Qed.

Lemma apply_keeps k sn t res t' :
  tun_inv k t -> apply_tun_snapshot blake3 order me sn t = (res, t') ->
  tun_inv k t' /\ (res = Ok tt -> routes_of sn t').
Proof.
  intros [Hok Hf] E. apply (apply_tun_snapshot_spec blake3 order order_perm) in E as (Hok' & [Hf' _] & H); [|done..].
  split; [split; [done|congruence]|]. intros Hres. destruct (H Hres) as (l & El & Hd).
  apply (snapshot_route_addresses_spec blake3 order order_perm) in El as [Hv Hl]. split; [done|]. intros a. rewrite Hd, <- Hl. set_solver.
Qed.

Lemma stop_inv k n (s : Sup) :
  tun_inv k (su_tun s) -> RESTART_DELAY <= su_delay s <= MAX_RESTART_DELAY -> sup_inv k (stop_supervisor order n s).
Proof.
  intros [Hok Hf] Hd. destruct (release_route_leases order n (su_tun s)) as [res t'] eqn:E.
  unfold stop_supervisor. rewrite E. apply (release_route_leases_spec order order_perm) in E as (? & ? & ?); [|done..].
  split; [split; [done|cbn; congruence]|]. by split.
Qed.

Lemma once_end_inv k n ok task (s : Sup) :
  tun_inv k (su_tun s) -> RESTART_DELAY <= su_delay s <= MAX_RESTART_DELAY -> sup_inv k (once_end order n ok task s).
Proof.
  intros Ht Hd. unfold once_end. destruct ok, task; try (by split; [|split]). by apply stop_inv.
Qed.

Lemma once_begin_inv k p (s : Sup) sn :
  tun_inv k (su_tun s) -> RESTART_DELAY <= su_delay s <= MAX_RESTART_DELAY ->
  su_seen s = Some sn -> routes_of sn (su_tun s) -> sup_inv k (once_begin p s).
Proof.
  intros Ht Hd Hs Hr. unfold once_begin.
  destruct (set_mtu _ _) as [res t] eqn:E. apply (set_mtu_spec k) in E as [Ht' Hl]; [|done].
  destruct res; (split; [done|]); (split; [done|]); [|done].
  split; [done|]. exists sn. unfold routes_of. cbn. by rewrite Hl.
Qed.

Lemma once_turn_inv k ev n task (s : Sup) : sup_inv k s -> su_phase s = Serving -> sup_inv k (once_turn blake3 order me ev n task s).
Proof.
  intros (Ht & Hd & Hp) Hph. unfold phase_inv in Hp. rewrite Hph in Hp. destruct Hp as [[p Ep] (sn & Hs & Hr)].
  unfold once_turn. rewrite Ep. destruct ev; try by apply once_end_inv; try by apply stop_inv.
  - destruct (pc_snapshot p) as [sn'|].
    + destruct (apply_tun_snapshot _ _ _ _ _) as [res t] eqn:E. apply (apply_keeps k) in E as [Ht' Hr']; [|done].
      destruct res as [[]|].
      * split; [done|]. split; [done|]. unfold phase_inv. cbn. rewrite Hph. split; [done|]. eauto.
      * by apply once_end_inv.
    + split; [done|]. split; [done|]. unfold phase_inv. rewrite Hph. eauto.
  - destruct (set_mtu _ _) as [res t] eqn:E. apply (set_mtu_spec k) in E as [Ht' Hl]; [|done]. destruct res.
    + split; [done|]. split; [done|]. unfold phase_inv. cbn. rewrite Hph, Ep. split; [done|]. exists sn.
      split; [done|]. unfold routes_of. cbn. by rewrite Hl.
    + by apply once_end_inv.
  - by apply stop_inv.
Qed.

Lemma restart_failed_inv k (s : Sup) :
  tun_inv k (su_tun s) -> RESTART_DELAY <= su_delay s <= MAX_RESTART_DELAY -> sup_inv k (restart_failed s).
Proof.
  intros Ht Hd. split; [done|]. split; [|done]. cbn. unfold RESTART_DELAY, MAX_RESTART_DELAY in *. lia.
Qed.

Lemma restart_turn_inv k opened (s : Sup) : sup_inv k s -> sup_inv k (restart_turn blake3 order me opened s).
Proof.
  intros (Ht & Hd & Hp). unfold restart_turn. destruct (open_runtime opened s) as [p|]; [|by apply restart_failed_inv].
  destruct (pc_snapshot p) as [sn|]; [|by apply restart_failed_inv].
  destruct (apply_tun_snapshot _ _ _ _ _) as [res t] eqn:E. apply (apply_keeps k) in E as [Ht' Hr]; [|done].
  destruct res as [[]|].
  - apply (once_begin_inv k p _ sn); cbn; auto. unfold RESTART_DELAY, MAX_RESTART_DELAY. lia.
  - by apply restart_failed_inv.
Qed.

Lemma sup_step_inv k (s s' : Sup) : sup_inv k s -> sup_step blake3 order me s s' -> sup_inv k s'.
Proof.
  intros Hi Hst. destruct Hst as [ev n task s Hph|opened s Hph|n s Hph|p p' s Hp _|s|i s].
  - by apply once_turn_inv.
  - by apply restart_turn_inv.
  - destruct Hi as (? & ? & _). by apply stop_inv.
  - destruct Hi as (Ht & Hd & Hq). split; [done|]. split; [done|]. unfold phase_inv in *. cbn.
    destruct (su_phase s); [|congruence|destruct Hq; congruence]. destruct Hq as [_ Hq]. by split.
  - destruct Hi as (Ht & Hd & Hq). split; [done|]. by split.
  - destruct Hi as ([[Hl Hr] Hf] & Hd & Hq). destruct (run_spawned_spec _ i _ Hr) as [Hr' Hf'].
    split; [|by split]. split; [by split|]. cbn. congruence.
Qed.

Lemma sup_reachable_inv k (s : Sup) : sup_reachable blake3 order me k s -> sup_inv k s.
Proof.
  intros (mtu & p & n & s0 & t & E & Hr). assert (H0 : sup_inv k s0).
  { assert (Hf : tun_inv k (fresh_tun k)) by (by apply (reachable_peer_ok blake3 order order_perm)).
    unfold run_peer_up in E. destruct (pc_snapshot p) as [sn|]; [|done].
    destruct (set_mtu _ _) as [[[]|] t1] eqn:E1; [|done]. apply (set_mtu_spec k) in E1 as [Ht1 _]; [|done].
    destruct (apply_tun_snapshot _ _ _ _ _) as [[[]|] t2] eqn:E2; [|done].
    apply (apply_keeps k) in E2 as [Ht2 Hr2]; [|done]. injection E as <- _.
    apply (once_begin_inv k p _ sn); cbn; auto. unfold RESTART_DELAY, MAX_RESTART_DELAY. lia. }
  clear E. induction Hr as [|s1 s2 s3 Hst _ IH]; [done|]. apply IH. by eapply sup_step_inv.
Qed.


(** When the MTU cannot be set at the start of [run_tun_peer_once] the runtime is neither
    stopped nor awaited.  As long as it runs it holds the state lock, and every attempt
    to start again fails. *)
Lemma mtu_failure_blocks_restart p (s : Sup) e t opened :
  set_mtu (pc_mtu p) (su_tun s) = (Err e, t) ->
  su_phase (restart_turn blake3 order me opened (once_begin p s)) = Waiting
  /\ su_process (restart_turn blake3 order me opened (once_begin p s)) = None
  /\ su_detached (restart_turn blake3 order me opened (once_begin p s)) = true.
Proof. intros E. unfold once_begin. rewrite E. done. Qed.
End supervised.
