(* ===== verification/SupervisorRuntime.v ===== *)
(** * The supervisor with a runtime

    The runtime of [Runtime] as the process of [Supervisor], and a run: a peer whose
    server told it of a second member is brought up, and its interface gets the route. *)
From S2P Require Import Prelude Net Encoding Wire NodeId Snapshot SignedBytes Crypto Ip Replay Path Handshake.
From S2P Require Import NodeState NodePeers NodeSend NodeSession NodeData NodeTimers NodeInv NodeSample.
From S2P Require Import Control Text CoordDb Coord CoordInv Dns Stun CoordClient NodeView Codec ClientServer.
From S2P Require Import Diagnostic DiagnosticInv Runtime RuntimeInv RuntimeSample TunRoutes Supervisor.

Section process.
Context {HH : Hash} {HSg : SignatureOps} {HA : AeadOps} {HK : HkdfOps} {HN : NoiseOps}.
Context {HT : TextOps} {J : ControlJson}.
Context {W : Type} {Sk : StunSocket W} {Hp : Http W} {Tr : Transport W} {Ho : PeerHost W}.
Context (me : Local) (stun_fuel : nat) (first : gset bytes -> option bytes).

(** The watch channels [snapshots] and [mtu] of [RuntimeIo] *)
Definition runtime_process : Process (@Runtime HN W) := {|
  pc_snapshot := ru_published;
  pc_mtu := ru_mtu;
  pc_step := runtime_step me stun_fuel first
|}.
End process.

#[local] Existing Instance table_kernel.
#[local] Existing Instance table_kernel_laws.
#[local] Instance set_link : LinkKernel (gset IpAddr) := {| link_mtu _ k := (Ok tt, k) |}.
#[local] Instance set_link_laws : LinkKernelLaws (gset IpAddr).
Proof. by constructor. Qed.

#[local] Instance sample_process : Process SampleRuntime :=
  runtime_process (HH := toy_hash) (HT := sample_text) (J := message_json) member 0 next.

Definition before : gset IpAddr := {[V4 0xc0000201]}.
Abbreviation brought_up r := (run_peer_up toy_hash (fun l => l) (toy_node 1) 1400 r (Ok tt) 0 (fresh_tun before)).

Definition first_up : Supervisor (gset IpAddr) SampleRuntime :=
  match fst (brought_up (started second_joins)) with
  | Ok s => s
  | Err _ => mkSup Stopped None false (fresh_tun before) None 0
  end.

(** The runtime reads the message of the server, and the supervisor sees the snapshot. *)
Definition told_up : Supervisor (gset IpAddr) SampleRuntime :=
  once_turn toy_hash (fun l => l) (toy_node 1) SnapshotChanged 0 EndedOk (set_process told_of_second first_up).

Definition second_address : option IpAddr :=
  V4 <$> (List.find (fun p => bool_decide (node_id p = toy_node 2)) (peers (member_snapshot sample_second)) ≫= virtual_ipv4).

Lemma up_ok {A E B} (x : result A E * B) d :
  is_ok (fst x) = true -> x = (Ok (match fst x with Ok s => s | Err _ => d end), snd x).
Proof. by destruct x as [[]]. Qed.

Lemma told_up_reachable : sup_reachable toy_hash (fun l => l) (toy_node 1) before told_up.
Proof.
  exists 1400, (started second_joins), 0%nat, first_up, (snd (brought_up (started second_joins))). split.
  - unfold first_up. apply up_ok. vm_compute. reflexivity.
  - eapply rtc_l; [apply (sup_process _ _ _ (started second_joins) told_of_second)|].
    + vm_compute. reflexivity.
    + apply (rs_turn _ _ _ WakeMessage). unfold told_of_second. apply outcome. vm_compute. reflexivity.
    + apply rtc_once, sup_once. vm_compute. reflexivity.
Qed.

