(* ===== verification/Files.v ===== *)
(** * Files

    The part of [std::fs] and [std::path] the programs keep their keys and their
    state with: reading and writing whole files, creating directories, changing
    permissions and renaming.  A [Disk] carries the outcomes of the operations to
    come: one that fails leaves what it had done, a write for example a prefix of the
    data, and its caller returns the error at once.  A process that is killed in
    the middle of an operation leaves the same disk. *)
From S2P Require Import Prelude Net Text.

(** A path to a file: the directory's components and the name in it *)
Record FilePath : Type := mkPath { path_dir : list bytes; path_name : bytes }.

#[export] Instance FilePath_eq_dec : EqDecision FilePath.
Proof. solve_decision. Defined.
#[export] Instance FilePath_countable : Countable FilePath.
Proof.
  refine (inj_countable' (fun p => (path_dir p, path_name p)) (fun '(d, n) => mkPath d n) _).
  by intros [].
Defined.

(** [dir.join(name)] *)
Definition dir_join (dir : list bytes) (name : bytes) : FilePath := mkPath dir name.

(** [path.with_extension(ext)]: in place of what follows the last dot, unless
    that dot starts the name *)
Definition file_stem (name : bytes) : bytes :=
  match rsplit_once 46 name with
  | Some ([], _) | None => name
  | Some (stem, _) => stem
  end.
Definition with_extension (p : FilePath) (ext : bytes) : FilePath :=
  mkPath (path_dir p) (file_stem (path_name p) ++ [46] ++ ext).

Record File : Type := mkFile { file_data : bytes; file_mode : Z }.

(** Owner read and write: [0o600] *)
Definition PRIVATE_MODE : Z := 384.

(** What becomes of an operation.  A failing write may have failed to open the
    file, or have written some bytes of it. *)
Inductive Outcome : Type :=
| Proceeds
| Fails (written : option nat).

Record Disk : Type := mkDisk {
  dk_files : gmap FilePath File;
  dk_dirs : gset (list bytes);
  dk_default_mode : Z;
  dk_outcomes : list Outcome
}.

Definition set_files f (d : Disk) := mkDisk f (dk_dirs d) (dk_default_mode d) (dk_outcomes d).
Definition set_dirs x (d : Disk) := mkDisk (dk_files d) x (dk_default_mode d) (dk_outcomes d).
Definition set_outcomes x (d : Disk) := mkDisk (dk_files d) (dk_dirs d) (dk_default_mode d) x.

Inductive FsError : Type := Fs_Io.

Definition io (A : Type) : Type := handler Disk FsError A.

(** The outcome of the next operation; without one it proceeds *)
Definition next_outcome (d : Disk) : Outcome * Disk :=
  match dk_outcomes d with
  | [] => (Proceeds, d)
  | o :: l => (o, set_outcomes l d)
  end.

(** [path.exists()] *)
Definition path_exists (p : FilePath) (d : Disk) : bool := bool_decide (is_Some (dk_files d !! p)).

(** [fs::read] *)
Definition fs_read (p : FilePath) : io bytes := fun d =>
  match next_outcome d with
  | (Proceeds, d) =>
      match dk_files d !! p with Some f => (Ok (file_data f), d) | None => (Err Fs_Io, d) end
  | (Fails _, d) => (Err Fs_Io, d)
  end.

(** The directory and those above it; the empty path is none *)
Definition ancestors (dir : list bytes) : gset (list bytes) :=
  list_to_set (map (fun n => take n dir) (seq 1 (length dir))).

(** [fs::create_dir_all], failing after some of the directories *)
Definition create_dir_all (dir : list bytes) : io unit := fun d =>
  match next_outcome d with
  | (Proceeds, d) => (Ok tt, set_dirs (dk_dirs d ∪ ancestors dir) d)
  | (Fails n, d) => (Err Fs_Io, set_dirs (dk_dirs d ∪ ancestors (take (default 0%nat n) dir)) d)
  end.

Definition put_file (p : FilePath) (data : bytes) (d : Disk) : Disk :=
  let mode := match dk_files d !! p with Some f => file_mode f | None => dk_default_mode d end in
  set_files (<[p := mkFile data mode]> (dk_files d)) d.

(** [fs::write]: the file is created, or truncated with its mode kept *)
Definition fs_write (p : FilePath) (data : bytes) : io unit := fun d =>
  let present := bool_decide (path_dir p = [] \/ path_dir p ∈ dk_dirs d) in
  match next_outcome d with
  | (Proceeds, d) => if present then (Ok tt, put_file p data d) else (Err Fs_Io, d)
  | (Fails (Some n), d) => (Err Fs_Io, if present then put_file p (take n data) d else d)
  | (Fails None, d) => (Err Fs_Io, d)
  end.

(** [fs::set_permissions] *)
Definition set_permissions (p : FilePath) (mode : Z) : io unit := fun d =>
  match next_outcome d with
  | (Proceeds, d) =>
      match dk_files d !! p with
      | Some f => (Ok tt, set_files (<[p := mkFile (file_data f) mode]> (dk_files d)) d)
      | None => (Err Fs_Io, d)
      end
  | (Fails _, d) => (Err Fs_Io, d)
  end.

(** [fs::rename], which replaces the target at once *)
Definition fs_rename (from to : FilePath) : io unit := fun d =>
  match next_outcome d with
  | (Proceeds, d) =>
      match dk_files d !! from with
      | Some f => (Ok tt, set_files (<[to := f]> (delete from (dk_files d))) d)
      | None => (Err Fs_Io, d)
      end
  | (Fails _, d) => (Err Fs_Io, d)
  end.

(** What every private file is saved with: the data to a temporary file, made
    private, and renamed. *)
Definition replace_private (temporary p : FilePath) (data : bytes) : io unit :=
  fs_write temporary data ;!
  set_permissions temporary PRIVATE_MODE ;!
  fs_rename temporary p.

(** ** Facts *)

Lemma outcome_files d o d' :
  next_outcome d = (o, d') ->
  dk_files d' = dk_files d /\ dk_dirs d' = dk_dirs d /\ dk_default_mode d' = dk_default_mode d
  /\ length (dk_outcomes d') = pred (length (dk_outcomes d)).
Proof. unfold next_outcome. destruct (dk_outcomes d) eqn:E; intros [= <- <-]; cbn; rewrite ?E; done. Qed.

(** [m] changes the files at [ps] alone *)
Definition touches {A} (ps : list FilePath) (m : io A) : Prop :=
  forall d r d', m d = (r, d') ->
  forall p, p ∉ ps -> dk_files d' !! p = dk_files d !! p.

Lemma touches_ret {A} ps (r : result A FsError) : touches ps (fun d => (r, d)).
Proof. by intros d r' d' [= <- <-]. Qed.

Lemma touches_bind {A B} ps (m : io A) (k : A -> io B) :
  touches ps m -> (forall a, touches ps (k a)) -> touches ps (let! a := m in k a).
Proof.
  intros Hm Hk d r d'. unfold hbind. destruct (m d) as [[a|e] d1] eqn:E.
  - intros E' p Hp. rewrite (Hk a _ _ _ E' p Hp). by eapply Hm.
  - intros [= <- <-] p Hp. by eapply Hm.
Qed.

Ltac disk_cases :=
  repeat match goal with
  | H : context [next_outcome ?d] |- _ =>
      let o := fresh "o" in let d1 := fresh "d" in let E := fresh "Eo" in
      destruct (next_outcome d) as [o d1] eqn:E; apply outcome_files in E as (? & ? & ? & ?)
  | H : context [match ?x with _ => _ end] |- _ => destruct x eqn:?
  end.

Lemma touches_read ps p : touches ps (fs_read p).
Proof. intros d r d' E q Hq. unfold fs_read in E. disk_cases; simplify_eq; congruence. Qed.

Lemma touches_create ps dir : touches ps (create_dir_all dir).
Proof. intros d r d' E q Hq. unfold create_dir_all in E. disk_cases; simplify_eq; cbn; congruence. Qed.

Lemma touches_write ps p data : p ∈ ps -> touches ps (fs_write p data).
Proof.
  intros Hp d r d' E q Hq. assert (p <> q) by set_solver. unfold fs_write, put_file in E.
  disk_cases; simplify_eq; cbn; rewrite ?lookup_insert_ne by done; congruence.
Qed.

Lemma touches_permissions ps p mode : p ∈ ps -> touches ps (set_permissions p mode).
Proof.
  intros Hp d r d' E q Hq. assert (p <> q) by set_solver. unfold set_permissions in E.
  disk_cases; simplify_eq; cbn; rewrite ?lookup_insert_ne by done; congruence.
Qed.

Lemma touches_rename ps p q : p ∈ ps -> q ∈ ps -> touches ps (fs_rename p q).
Proof.
  intros Hp Hq d r d' E x Hx. assert (p <> x /\ q <> x) as [] by set_solver. unfold fs_rename in E.
  disk_cases; simplify_eq; cbn; rewrite ?lookup_insert_ne, ?lookup_delete_ne by done; congruence.
Qed.

Create HintDb disk.
#[export] Hint Resolve touches_ret touches_bind touches_read touches_create touches_write
  touches_permissions touches_rename : disk.
#[export] Hint Extern 1 (_ ∈ _) => set_solver : disk.

Lemma fs_rename_Ok p q d d' :
  fs_rename p q d = (Ok tt, d') -> p <> q -> exists f, dk_files d !! p = Some f /\ dk_files d' !! q = Some f.
Proof.
  unfold fs_rename. intros E Hpq. disk_cases; simplify_eq. eexists.
  split; [|by cbn; rewrite lookup_insert_eq]. congruence.
Qed.

Lemma set_permissions_Ok p mode d d' :
  set_permissions p mode d = (Ok tt, d') ->
  exists f, dk_files d !! p = Some f /\ dk_files d' !! p = Some (mkFile (file_data f) mode).
Proof.
  unfold set_permissions. intros E. disk_cases; simplify_eq. eexists.
  split; [|by cbn; rewrite lookup_insert_eq]. congruence.
Qed.

Lemma fs_write_Ok p data d d' :
  fs_write p data d = (Ok tt, d') -> exists mode, dk_files d' !! p = Some (mkFile data mode).
Proof.
  unfold fs_write, put_file. intros E. disk_cases; simplify_eq; eexists; cbn; by rewrite lookup_insert_eq.
Qed.

Lemma replace_private_touches tmp p data : touches [tmp; p] (replace_private tmp p data).
Proof.
  apply touches_bind; [auto with disk|]. intros _. apply touches_bind; [auto with disk|].
  intros _. auto with disk.
Qed.

(** However it ends, the file is what it was, or the new one, whole and private;
    and if it ends well it is the new one. *)
Lemma replace_private_atomic tmp p data d r d' :
  tmp <> p -> replace_private tmp p data d = (r, d') ->
  (dk_files d' !! p = Some (mkFile data PRIVATE_MODE) \/ dk_files d' !! p = dk_files d !! p /\ r <> Ok tt)
  /\ forall q, q <> tmp -> q <> p -> dk_files d' !! q = dk_files d !! q.
Proof.
  intros Hne E. split.
  2: { intros q Hq Hqp. eapply replace_private_touches; [exact E|set_solver]. }
  unfold replace_private, hbind in E.
  destruct (fs_write tmp data d) as [[[]|e] d1] eqn:E1.
  2: { right. simplify_eq. split; [|done]. by eapply (touches_write [tmp]); [|exact E1|]; set_solver. }
  assert (Hp1 : dk_files d1 !! p = dk_files d !! p)
    by (eapply (touches_write [tmp]); [|exact E1|]; set_solver).
  apply fs_write_Ok in E1 as [m1 Hf1].
  destruct (set_permissions tmp PRIVATE_MODE d1) as [[[]|e] d2] eqn:E2.
  2: { right. simplify_eq. split; [|done]. rewrite <- Hp1.
       by eapply (touches_permissions [tmp]); [|exact E2|]; set_solver. }
  assert (Hp2 : dk_files d2 !! p = dk_files d !! p).
  { rewrite <- Hp1. eapply (touches_permissions [tmp]); [|exact E2|]; set_solver. }
  apply set_permissions_Ok in E2 as (f & Hf & Hf2). rewrite Hf1 in Hf. injection Hf as <-.
  cbn [file_data] in Hf2. destruct r as [[]|e].
  - left. apply fs_rename_Ok in E as (f & Hf & ->); [|done]. congruence.
  - right. split; [|done]. rewrite <- Hp2. unfold fs_rename in E. disk_cases; simplify_eq; congruence.
Qed.

(** Renaming comes last, so a failure has not touched the file. *)
Lemma replace_private_failed tmp p data d e d' :
  tmp <> p -> replace_private tmp p data d = (Err e, d') -> dk_files d' !! p = dk_files d !! p.
Proof.
  intros Hne E. assert (Hp : p ∉ [tmp]) by set_solver. assert (Ht : tmp ∈ [tmp]) by set_solver.
  unfold replace_private, hbind in E.
  destruct (fs_write tmp data d) as [[[]|e1] d1] eqn:E1; pose proof (touches_write [tmp] tmp data Ht _ _ _ E1 p Hp) as H1;
    [|by injection E as _ <-].
  destruct (set_permissions tmp PRIVATE_MODE d1) as [[[]|e2] d2] eqn:E2;
    pose proof (touches_permissions [tmp] tmp PRIVATE_MODE Ht _ _ _ E2 p Hp) as H2; [|injection E as _ <-; congruence].
  unfold fs_rename in E. destruct (next_outcome d2) as [o d3] eqn:Eo. apply outcome_files in Eo as (Hf & _).
  destruct o; [destruct (dk_files d3 !! tmp); [done|]|]; injection E as _ <-; congruence.
Qed.

(** On a disk on which everything proceeds, and with the directory there, it ends
    well. *)
Lemma replace_private_calm tmp p data d :
  tmp <> p -> dk_outcomes d = [] -> path_dir tmp = [] \/ path_dir tmp ∈ dk_dirs d ->
  exists d', replace_private tmp p data d = (Ok tt, d') /\ dk_outcomes d' = [] /\ dk_dirs d' = dk_dirs d.
Proof.
  intros Hne Ho Hdir. unfold replace_private, hbind.
  assert (next_outcome d = (Proceeds, d)) as E1 by (unfold next_outcome; by rewrite Ho).
  unfold fs_write. rewrite E1, bool_decide_eq_true_2 by done.
  set (d1 := put_file tmp data d).
  assert (next_outcome d1 = (Proceeds, d1)) as E2 by (unfold next_outcome, d1, put_file; cbn; by rewrite Ho).
  unfold set_permissions at 1. rewrite E2.
  assert (exists m, dk_files d1 !! tmp = Some (mkFile data m)) as [m ->]
    by (eexists; unfold d1, put_file; cbn; by rewrite lookup_insert_eq).
  set (d2 := set_files _ d1).
  assert (next_outcome d2 = (Proceeds, d2)) as E3 by (unfold next_outcome, d2, d1, put_file; cbn; by rewrite Ho).
  unfold fs_rename. rewrite E3. unfold d2 at 1; cbn [dk_files set_files]. rewrite lookup_insert_eq.
  by eexists.
Qed.

Lemma ancestors_self dir dirs : dir = [] \/ dir ∈ dirs ∪ ancestors dir.
Proof.
  destruct dir as [|x dir]; [by left|right]. apply elem_of_union_r. unfold ancestors.
  apply elem_of_list_to_set, list_elem_of_fmap. exists (length (x :: dir)).
  split; [by rewrite take_ge|]. apply elem_of_seq. cbn. lia.
Qed.

Lemma create_dir_all_calm dir d :
  dk_outcomes d = [] ->
  exists d', create_dir_all dir d = (Ok tt, d') /\ dk_outcomes d' = [] /\ dk_files d' = dk_files d
             /\ (dir = [] \/ dir ∈ dk_dirs d').
Proof.
  intros Ho. unfold create_dir_all, next_outcome. rewrite Ho. eexists. split_and!; [done..|].
  apply ancestors_self.
Qed.

Lemma fs_read_calm p d :
  dk_outcomes d = [] ->
  fs_read p d = (match dk_files d !! p with Some f => Ok (file_data f) | None => Err Fs_Io end, d).
Proof. intros Ho. unfold fs_read, next_outcome. rewrite Ho. by destruct (dk_files d !! p). Qed.
