(* ===== verification/Cli.v ===== *)
(** * Arguments of the command line

    The parsers of [vela-cli/src/main.rs] and the paths of the server's files, and what
    the arguments of [peer ping] mean to the runtime they are sent to. *)
From S2P Require Import Prelude Net Encoding Wire NodeId Snapshot SignedBytes Crypto Ip Replay Path Handshake.
From S2P Require Import NodeState NodePeers NodeSend NodeSession NodeData NodeTimers NodeInv.
From S2P Require Import Control Text CoordDb Coord CoordInv Dns Stun CoordClient NodeView Diagnostic Runtime.
From S2P Require Import LocalControl LocalControlText LocalControlInv Files.

(** [value.strip_suffix(suffix)] *)
Definition strip_suffix (suffix l : bytes) : option bytes := reverse <$> strip_prefix (reverse suffix) (reverse l).

(** [value.parse::<u64>()] *)
Definition parse_u64 (l : bytes) : option Z :=
  let digits := match l with 43 :: l' => l' | _ => l end in
  match digits with [] => None | _ => digits_value U64_MAX 0 digits end.

Inductive ArgumentError : Type :=
| NoUnit | InvalidDuration | DurationTooLarge | InvalidCountText | CountOutOfRange | TimeoutOutOfRange
| InvalidKeyText | InvalidKeyLength | MissingPath (option : bytes).

(** A duration in nanoseconds *)
Definition parse_duration (value : bytes) : result Z ArgumentError :=
  let? (number, multiplier) :=
    match strip_suffix (str "ms") value with
    | Some number => Ok (number, 1)
    | None => match strip_suffix (str "s") value with
              | Some number => Ok (number, 1000)
              | None => Err NoUnit
              end
    end in
  let? n := ok_or (parse_u64 number) InvalidDuration in
  if U64_MAX <? n * multiplier then Err DurationTooLarge
  else Ok (n * multiplier * 10 ^ 6).

Definition parse_ping_count (value : bytes) : result Z ArgumentError :=
  let? count := ok_or (parse_usize value) InvalidCountText in
  if (1 <=? count) && (count <=? MAX_PING_COUNT) then Ok count else Err CountOutOfRange.

Definition parse_ping_timeout (value : bytes) : result Z ArgumentError :=
  let? timeout := parse_duration value in
  if negb ((MIN_PING_TIMEOUT <=? timeout) && (timeout <=? MAX_PING_TIMEOUT)) then Err TimeoutOutOfRange
  else Ok timeout.

Definition decode_server_key {HT : TextOps} (value : bytes) : result bytes ArgumentError :=
  let? b := ok_or (b64_decode value) InvalidKeyText in
  if (length b =? 32)%nat then Ok b else Err InvalidKeyLength.

Record ServerPathArgs : Type := mkPaths {
  pa_path : option (list bytes);
  pa_db : option FilePath;
  pa_signer : option FilePath;
  pa_admin_credentials : option FilePath;
  pa_tenant : bytes;
  pa_doh : list bytes;
  pa_stun : list bytes
}.

Definition coordination_paths (a : ServerPathArgs) : result (FilePath * FilePath * FilePath) ArgumentError :=
  let within file := (fun path => dir_join path file) <$> pa_path a in
  let or_else (o o' : option FilePath) := match o with Some x => Some x | None => o' end in
  let? database := ok_or (or_else (pa_db a) (within (str "vela.db"))) (MissingPath (str "db")) in
  let? signer := ok_or (or_else (pa_signer a) (within (str "server.key"))) (MissingPath (str "signer")) in
  let credentials := default (with_extension database (str "admin-credentials"))
                       (or_else (pa_admin_credentials a) (within (str "admin.credentials"))) in
  Ok (database, signer, credentials).

(** ** What a duration means *)

Lemma parse_duration_ms value t :
  parse_duration value = Ok t -> exists ms, t = ms * 10 ^ 6 /\ 0 <= ms <= U64_MAX.
Proof.
  unfold parse_duration. destruct (match strip_suffix _ _ with Some _ => _ | None => _ end) as [[number m]|] eqn:Em; [|done].
  cbn [rbind]. unfold parse_u64.
  destruct (match number with 43 :: _ => _ | _ => _ end) as [|c l] eqn:Ed; [done|].
  destruct (digits_value U64_MAX 0 (c :: l)) as [n|] eqn:En; [|done]. cbn [ok_or rbind].
  apply digits_value_bound in En; [|unfold U64_MAX; lia].
  assert (0 < m) by (repeat case_match; simplify_eq; lia).
  destruct (Z.ltb_spec U64_MAX (n * m)); [done|]. intros [= <-]. exists (n * m). split; [done|]. nia.
Qed.

(** What [peer ping] accepts on the command line the runtime accepts: the count and the
    timeout pass the check of the runtime, and sending the timeout in milliseconds loses
    nothing of it. *)
Theorem ping_arguments_valid (count timeout : bytes) (n t : Z) :
  parse_ping_count count = Ok n -> parse_ping_timeout timeout = Ok t ->
  validate_ping n t = Ok tt
  /\ Z.min (t / 10 ^ 6) (2 ^ 64 - 1) * 10 ^ 6 = t
  /\ forall target, length target = 32%nat -> bytes_ok target ->
       ping_ok (mkPingRequest target n (Z.min (t / 10 ^ 6) (2 ^ 64 - 1))).
Proof.
  unfold parse_ping_count, parse_ping_timeout, validate_ping. intros Hn Ht.
  destruct (parse_usize count) as [n'|]; [|done]. cbn [ok_or rbind] in Hn.
  destruct (_ && _) eqn:Ec in Hn; [|done]. injection Hn as ->.
  destruct (parse_duration timeout) as [t'|] eqn:Ed; [|done]. cbn [rbind] in Ht.
  destruct (_ && _) eqn:Er in Ht; [|done]. injection Ht as ->. rewrite Ec, Er. cbn [negb].
  apply parse_duration_ms in Ed as (ms & -> & Hms). rewrite Z.div_mul by done. unfold U64_MAX in Hms.
  rewrite Z.min_l by lia. split_and!; [done..|]. intros target Hl Hb. unfold ping_ok, U64_MAX, USIZE_MAX. cbn.
  unfold MAX_PING_COUNT in Ec. split_and!; (done || lia).
Qed.

Lemma ping_arguments_valid_witness :
  validate_ping 5 (1500 * 10 ^ 6) = Ok tt /\ Z.min (1500 * 10 ^ 6 / 10 ^ 6) (2 ^ 64 - 1) * 10 ^ 6 = 1500 * 10 ^ 6.
Proof.
  destruct (ping_arguments_valid (str "5") (str "1500ms") 5 (1500 * 10 ^ 6)) as (H1 & H2 & _); [reflexivity..|].
  by split.
Defined.
