(* ===== verification/Socket.v ===== *)
(** * The datagram socket

    [TokioDatagramSocket] of [vela-core/src/lib.rs], the socket under a node: one UDP
    socket for each address family, a reader task for each that passes what arrives to
    one queue, and sending in batches.  The system calls are the class [UdpSockets].  The
    readers and [shutdown] are a step relation, with the places where a reader can be
    when it is told to stop; [Notify] is modelled as tokio documents it. *)
From S2P Require Import Prelude Net.

Inductive AddressFamily : Type := Ipv4 | Ipv6.

#[export] Instance AddressFamily_eq_dec : EqDecision AddressFamily.
Proof. solve_decision. Defined.

Definition family_of (a : SocketAddr) : AddressFamily :=
  match a with SockV4 _ _ => Ipv4 | SockV6 _ _ _ _ => Ipv6 end.

Inductive IoError : Type := NotConnected | UnexpectedEof | InvalidData | OsError (e : bytes).

Abbreviation Datagram := (bytes * SocketAddr)%type.

(** ** Sending *)

(** [UdpSocket::send_to] and [sendmmsg] on the socket of a family *)
Class UdpSockets (W : Type) : Type := {
  udp_send_to : AddressFamily -> Datagram -> W -> result Z IoError * W;
  udp_send_mmsg : AddressFamily -> list Datagram -> W -> result nat IoError * W;
  udp_sent : W -> list Datagram
}.

(** What is sent: one datagram, or the first ones of the list, whose number is returned *)
Class UdpSocketsLaws (W : Type) {U : UdpSockets W} : Prop := {
  udp_send_to_ok : forall f d w n w', udp_send_to f d w = (Ok n, w') -> udp_sent w' = udp_sent w ++ [d];
  udp_send_mmsg_ok : forall f l w n w', udp_send_mmsg f l w = (Ok n, w') ->
    (n <= length l)%nat /\ udp_sent w' = udp_sent w ++ take n l
}.

Section sending.
Context {W : Type} {U : UdpSockets W}.

Definition socket_send_to (closed : bool) (d : Datagram) (w : W) : result Z IoError * W :=
  if closed then (Err NotConnected, w) else udp_send_to (family_of d.2) d w.

(** The loop over [sendmmsg]; every turn but the last sends something, so the number of
    packets is enough fuel. *)
Fixpoint send_mmsg_loop (fuel : nat) (f : AddressFamily) (packets : list Datagram) (sent : nat) (w : W)
    : result nat IoError * W :=
  if (length packets <=? sent)%nat then (Ok sent, w)
  else
    match fuel with
    | O => (Ok sent, w)
    | S fuel =>
        match udp_send_mmsg f (drop sent packets) w with
        | (Err e, w) => (Err e, w)
        | (Ok O, w) => (Ok sent, w)
        | (Ok count, w) => send_mmsg_loop fuel f packets (sent + count) w
        end
    end.

Fixpoint send_each (closed : bool) (packets : list Datagram) (sent : nat) (w : W) : result nat IoError * W :=
  match packets with
  | [] => (Ok sent, w)
  | d :: packets =>
      match socket_send_to closed d w with
      | (Ok _, w) => send_each closed packets (S sent) w
      | (Err e, w) => (Err e, w)
      end
  end.

Definition socket_send_batch (closed : bool) (packets : list Datagram) (w : W) : result nat IoError * W :=
  match packets with
  | [] => (Ok O, w)
  | d :: _ =>
      if closed then (Err NotConnected, w)
      else
        let f := family_of d.2 in
        if forallb (fun p => bool_decide (family_of p.2 = f)) packets
        then send_mmsg_loop (length packets) f packets 0 w
        else send_each closed packets 0 w
  end.

Context {L : UdpSocketsLaws W}.

Lemma send_mmsg_loop_spec fuel f packets sent w n w' :
  send_mmsg_loop fuel f packets sent w = (Ok n, w') -> (sent <= length packets)%nat ->
  (sent <= n <= length packets)%nat /\ udp_sent w' = udp_sent w ++ take (n - sent) (drop sent packets)
  /\ ((length packets - sent <= fuel)%nat ->
        n = length packets \/ exists w1, udp_send_mmsg f (drop n packets) w1 = (Ok O, w')).
Proof.
  revert sent w; induction fuel as [|fuel IH]; intros sent w E Hs; cbn [send_mmsg_loop] in E;
    destruct (Nat.leb_spec (length packets) sent) as [Hl|Hl].
  1,3: injection E as <- <-; rewrite Nat.sub_diag, app_nil_r; split_and!; (done || lia).
  { injection E as <- <-. rewrite Nat.sub_diag, app_nil_r. split_and!; [lia..|done|lia]. }
  destruct (udp_send_mmsg f (drop sent packets) w) as [[c|e] w1] eqn:Ec; [|done]. pose proof Ec as Ec'.
  apply udp_send_mmsg_ok in Ec as [Hc Hsent]. rewrite length_drop in Hc. destruct c as [|c].
  { injection E as <- <-. cbn in Hsent. rewrite Nat.sub_diag. split_and!; [lia..|done|]. intros _. right. eauto. }
  apply IH in E as (Hn & Hw & Hend); [|lia]. split; [lia|]. split.
  - rewrite Hw, Hsent, <- app_assoc. f_equal.
    rewrite <- drop_drop, take_take_drop. f_equal. lia.
  - intros Hf. apply Hend. lia.
Qed.

Lemma send_each_spec packets sent w n w' :
  send_each false packets sent w = (Ok n, w') -> n = (sent + length packets)%nat /\ udp_sent w' = udp_sent w ++ packets.
Proof.
  revert sent w; induction packets as [|d packets IH]; intros sent w; cbn [send_each].
  - intros [= <- <-]. rewrite app_nil_r. split; [cbn; lia|done].
  - unfold socket_send_to. destruct (udp_send_to _ d w) as [[k|e] w1] eqn:E; [|done].
    apply udp_send_to_ok in E. intros Hs. apply IH in Hs as [-> ->]. rewrite E, <- app_assoc. split; [cbn; lia|done].
Qed.

(** A batch that the socket reports as sent up to some number was sent exactly up to there,
    in order, over the socket of its family; a batch of both families is sent whole. *)
Theorem socket_batch_exact (packets : list Datagram) (w w' : W) (n : nat) :
  socket_send_batch false packets w = (Ok n, w') ->
  (n <= length packets)%nat /\ udp_sent w' = udp_sent w ++ take n packets
  /\ (forall p q, p ∈ packets -> q ∈ packets -> family_of p.2 <> family_of q.2 -> n = length packets).
Proof.
  unfold socket_send_batch. destruct packets as [|d l].
  { intros [= <- <-]. rewrite app_nil_r. split_and!; [done..|]. by intros p q ?%elem_of_nil. }
  set (packets := d :: l). destruct (forallb _ packets) eqn:Hb.
  - intros E. apply send_mmsg_loop_spec in E as (Hn & Hs & _); [|lia]. rewrite Nat.sub_0_r in Hs.
    split_and!; [lia|done|]. intros p q Hp Hq Hne. rewrite forallb_forall in Hb.
    apply list_elem_of_In in Hp, Hq.
    apply Hb in Hp, Hq. apply bool_decide_eq_true in Hp, Hq. congruence.
  - intros E. apply send_each_spec in E as [-> Hs]. rewrite Nat.add_0_l, take_ge by lia. done.
Qed.
End sending.

(** ** Receiving *)

(** [DatagramReceiveState], and whether a reader still holds the sender *)
Record Inbox : Type := mkInbox {
  ib_queue : list (result (list Datagram) IoError);
  ib_pending : list Datagram;
  ib_open : bool
}.

(** [recv_packet_batch]; [None] when it waits.  A turn takes a datagram or a batch. *)
Fixpoint recv_loop (fuel limit : nat) (packets : list Datagram) (ib : Inbox)
    : option (result (list Datagram) IoError * Inbox) :=
  if (limit <=? length packets)%nat then Some (Ok packets, ib)
  else
    match fuel with
    | O => Some (Ok packets, ib)
    | S fuel =>
        match ib_pending ib with
        | d :: ds => recv_loop fuel limit (packets ++ [d]) (mkInbox (ib_queue ib) ds (ib_open ib))
        | [] =>
            match ib_queue ib with
            | Ok batch :: queue => recv_loop fuel limit packets (mkInbox queue batch (ib_open ib))
            | Err e :: queue => Some (Err e, mkInbox queue [] (ib_open ib))
            | [] => match packets with
                    | _ :: _ => Some (Ok packets, ib)
                    | [] => if ib_open ib then None else Some (Err UnexpectedEof, ib)
                    end
            end
        end
    end.

Definition inbox_size (ib : Inbox) : nat :=
  length (ib_pending ib)
  + list_sum (map (fun m => S match m with Ok batch => length batch | Err _ => 0 end) (ib_queue ib)).

Definition recv_packet_batch (limit : nat) (ib : Inbox) : option (result (list Datagram) IoError * Inbox) :=
  match limit with
  | O => Some (Ok [], ib)
  | _ => recv_loop (S (inbox_size ib)) limit [] ib
  end.

(** The datagrams in front of the first error *)
Fixpoint batches (queue : list (result (list Datagram) IoError)) : list Datagram :=
  match queue with Ok batch :: queue => batch ++ batches queue | _ => [] end.
Definition arrived (ib : Inbox) : list Datagram := ib_pending ib ++ batches (ib_queue ib).

Lemma recv_loop_spec fuel limit packets ib :
  (inbox_size ib < fuel)%nat -> (0 < limit)%nat -> (length packets <= limit)%nat ->
  match recv_loop fuel limit packets ib with
  | None => packets = [] /\ arrived ib = [] /\ ib_open ib = true
  | Some (Ok got, ib') => packets ++ arrived ib = got ++ arrived ib' /\ (1 <= length got <= limit)%nat
  | Some (Err e, ib') => e = UnexpectedEof /\ packets ++ arrived ib = [] /\ ib_open ib = false
      \/ exists queue, ib_queue ib = queue ++ Err e :: ib_queue ib' /\ (length (packets ++ arrived ib) < limit)%nat
  end.
Proof.
  revert packets ib; induction fuel as [|fuel IH]; intros packets ib Hf Hl Hp; [lia|]. cbn [recv_loop].
  destruct (Nat.leb_spec limit (length packets)) as [Hge|Hlt]; [split; [done|lia]|].
  destruct ib as [queue pending open]. unfold inbox_size, arrived in *. cbn [ib_queue ib_pending ib_open] in *.
  destruct pending as [|d ds].
  - destruct queue as [|[batch|e] queue]; cbn [list_sum map length] in Hf.
    + destruct packets as [|x l]; [destruct open; auto|]. split; [done|cbn in *; lia].
    + specialize (IH packets (mkInbox queue batch open)). cbn [ib_queue ib_pending ib_open batches app] in *.
      specialize (IH ltac:(unfold list_sum in *; cbn in Hf |- *; lia) Hl Hp). destruct (recv_loop _ _ _ _) as [[[got|e] ib']|]; [done| |done].
      destruct IH as [IH|(q & E & Hle)]; [by left|]. right. exists (Ok batch :: q). split; [cbn; by f_equal|done].
    + right. exists []. cbn [app batches]. rewrite app_nil_r. by split.
  - specialize (IH (packets ++ [d]) (mkInbox queue ds open)). cbn [ib_queue ib_pending ib_open] in *.
    rewrite length_app in IH. cbn [length] in *. specialize (IH ltac:(lia) Hl ltac:(lia)).
    rewrite <- app_assoc in IH. cbn [app] in IH. destruct (recv_loop _ _ _ _) as [[[got|e] ib']|].
    + done.
    + destruct IH as [(? & E & ?)|IH]; [by destruct packets|by right].
    + by destruct IH as [E _], packets.
Qed.

(** The node reads what the readers passed on, in order, nothing twice and nothing left out:
    a call returns the first one to [limit] datagrams; it waits only when there are none, and
    fails only at the error of a reader or when both readers are gone. *)
Theorem recv_batch_fifo (limit : nat) (ib : Inbox) :
  (0 < limit)%nat ->
  match recv_packet_batch limit ib with
  | None => arrived ib = [] /\ ib_open ib = true
  | Some (Ok got, ib') => arrived ib = got ++ arrived ib' /\ (1 <= length got <= limit)%nat
  | Some (Err e, ib') => e = UnexpectedEof /\ arrived ib = [] /\ ib_open ib = false
      \/ exists queue, ib_queue ib = queue ++ Err e :: ib_queue ib' /\ (length (arrived ib) < limit)%nat
  end.
Proof.
  intros Hl. unfold recv_packet_batch. destruct limit as [|limit]; [lia|].
  pose proof (recv_loop_spec (S (inbox_size ib)) (S limit) [] ib ltac:(lia) Hl ltac:(cbn; lia)) as H.
  destruct (recv_loop _ _ _ _) as [[[got|e] ib']|]; cbn [app] in H; [done|done|tauto].
Qed.

(** [recv_packet]: every turn takes a batch from the queue. *)
Fixpoint recv_packet_loop (fuel : nat) (ib : Inbox) : option (result Datagram IoError * Inbox) :=
  match ib_pending ib with
  | d :: ds => Some (Ok d, mkInbox (ib_queue ib) ds (ib_open ib))
  | [] =>
      match fuel with
      | O => None
      | S fuel =>
          match ib_queue ib with
          | Ok batch :: queue => recv_packet_loop fuel (mkInbox queue batch (ib_open ib))
          | Err e :: queue => Some (Err e, mkInbox queue [] (ib_open ib))
          | [] => if ib_open ib then None else Some (Err UnexpectedEof, ib)
          end
      end
  end.
Definition recv_packet (ib : Inbox) : option (result Datagram IoError * Inbox) :=
  recv_packet_loop (S (length (ib_queue ib))) ib.

(** [recv_from] with a buffer of some size: a larger datagram is dropped with an error. *)
Definition recv_from (size : nat) (ib : Inbox) : option (result Datagram IoError * Inbox) :=
  match recv_packet ib with
  | Some (Ok d, ib) => Some (if (size <? length d.1)%nat then Err InvalidData else Ok d, ib)
  | other => other
  end.

Lemma recv_packet_loop_one fuel fuel' ib :
  (length (ib_queue ib) < fuel)%nat -> (inbox_size ib < fuel')%nat ->
  recv_loop fuel' 1 [] ib =
  match recv_packet_loop fuel ib with
  | Some (Ok d, ib) => Some (Ok [d], ib)
  | Some (Err e, ib) => Some (Err e, ib)
  | None => None
  end.
Proof.
  revert fuel' ib; induction fuel as [|fuel IH]; intros fuel' ib Hf Hs; [lia|]. destruct fuel' as [|fuel']; [lia|].
  destruct ib as [queue pending open]. cbn [ib_queue] in Hf. cbn [recv_loop recv_packet_loop ib_pending ib_queue ib_open length Nat.leb].
  destruct pending as [|d ds].
  - destruct queue as [|[batch|e] queue]; [by destruct open| |done]. cbn in Hf.
    apply IH; [cbn; lia|]. unfold inbox_size in *. cbn in Hs |- *. unfold list_sum in *. cbn in Hs |- *. lia.
  - by destruct fuel'.
Qed.

(** Receiving one datagram is receiving a batch of at most one. *)
Lemma recv_packet_batch_one ib :
  recv_packet_batch 1 ib =
  match recv_packet ib with
  | Some (Ok d, ib) => Some (Ok [d], ib)
  | Some (Err e, ib) => Some (Err e, ib)
  | None => None
  end.
Proof. apply recv_packet_loop_one; lia. Qed.

(** Datagrams taken before an error are dropped with it. *)
Lemma error_drops_datagrams d e ib :
  ib_pending ib = [d] -> ib_queue ib = [Err e] ->
  recv_packet_batch 64 ib = Some (Err e, mkInbox [] [] (ib_open ib)).
Proof. intros Hp Hq. destruct ib as [q p o]. cbn in Hp, Hq. by subst. Qed.


(** ** The readers and the shutdown *)

(** Where a reader is: before it looks at [closed], between that and waiting, waiting for a
    datagram or the shutdown, with a message in hand, waiting for room in the queue or the
    shutdown, or at its end *)
Inductive Reader : Type :=
| Checking | Entering | Receiving
| Handing (m : result (list Datagram) IoError)
| Sending (m : result (list Datagram) IoError)
| ReaderEnded.

(** How far [shutdown] is *)
Inductive Stage : Type := Open | Closed | WaitersNotified | Notified.

Record Readers : Type := mkReaders {
  rd_reader : AddressFamily -> Reader;
  rd_closed : bool;
  rd_permit : bool;
  rd_stage : Stage;
  rd_failed : Z;
  rd_failure : option AddressFamily;
  rd_queue : list (result (list Datagram) IoError)
}.

Definition DATAGRAM_QUEUE : nat := 4096.

Definition set_reader (f : AddressFamily) (x : Reader) (s : Readers) : Readers :=
  mkReaders (fun g => if decide (g = f) then x else rd_reader s g) (rd_closed s) (rd_permit s) (rd_stage s)
    (rd_failed s) (rd_failure s) (rd_queue s).
Definition set_permit (b : bool) (s : Readers) : Readers :=
  mkReaders (rd_reader s) (rd_closed s) b (rd_stage s) (rd_failed s) (rd_failure s) (rd_queue s).
Definition set_queue (q : list (result (list Datagram) IoError)) (s : Readers) : Readers :=
  mkReaders (rd_reader s) (rd_closed s) (rd_permit s) (rd_stage s) (rd_failed s) (rd_failure s) q.
Definition set_stage (x : Stage) (closed : bool) (s : Readers) : Readers :=
  mkReaders (rd_reader s) closed (rd_permit s) x (rd_failed s) (rd_failure s) (rd_queue s).
Definition set_failed (n : Z) (f : AddressFamily) (s : Readers) : Readers :=
  mkReaders (rd_reader s) (rd_closed s) (rd_permit s) (rd_stage s) n (Some f) (rd_queue s).

Definition family_bit (f : AddressFamily) : Z := match f with Ipv4 => 1 | Ipv6 => 2 end.

(** A reader that waits is registered with [Notify]. *)
Definition registered (x : Reader) : bool := match x with Receiving | Sending _ => true | _ => false end.

(** After a message is in the queue *)
Definition after_send (m : result (list Datagram) IoError) : Reader :=
  match m with Ok _ => Checking | Err _ => ReaderEnded end.

(** A receive error: the first family that fails only ends its reader, the second reports. *)
Definition receive_failed (f : AddressFamily) (e : IoError) (s : Readers) : Readers :=
  if rd_closed s then set_reader f ReaderEnded s
  else
    let failed := Z.lor (rd_failed s) (family_bit f) in
    let s := set_failed failed f s in
    if failed =? 3 then set_reader f (Handing (Err e)) s else set_reader f ReaderEnded s.

Definition other (f : AddressFamily) : AddressFamily := match f with Ipv4 => Ipv6 | Ipv6 => Ipv4 end.

Inductive reader_step : Readers -> Readers -> Prop :=
| rd_check f s : rd_reader s f = Checking ->
    reader_step s (set_reader f (if rd_closed s then ReaderEnded else Entering) s)
| rd_enter f s : rd_reader s f = Entering -> rd_permit s = false -> reader_step s (set_reader f Receiving s)
| rd_enter_permit f s : rd_reader s f = Entering -> rd_permit s = true ->
    reader_step s (set_reader f ReaderEnded (set_permit false s))
| rd_datagrams f batch s : rd_reader s f = Receiving -> reader_step s (set_reader f (Handing (Ok batch)) s)
| rd_error f e s : rd_reader s f = Receiving -> reader_step s (receive_failed f e s)
| rd_hand f m s : rd_reader s f = Handing m \/ rd_reader s f = Sending m -> (length (rd_queue s) < DATAGRAM_QUEUE)%nat ->
    reader_step s (set_reader f (after_send m) (set_queue (rd_queue s ++ [m]) s))
| rd_hand_wait f m s : rd_reader s f = Handing m -> (DATAGRAM_QUEUE <= length (rd_queue s))%nat ->
    rd_permit s = false -> reader_step s (set_reader f (Sending m) s)
| rd_hand_permit f m s : rd_reader s f = Handing m -> rd_permit s = true ->
    reader_step s (set_reader f ReaderEnded (set_permit false s))
| rd_taken m q s : rd_queue s = m :: q -> reader_step s (set_queue q s)
(** [shutdown]: the flag, [notify_waiters], [notify_one] *)
| rd_close s : rd_stage s = Open -> reader_step s (set_stage Closed true s)
| rd_notify_waiters s : rd_stage s = Closed ->
    reader_step s (mkReaders (fun f => if registered (rd_reader s f) then ReaderEnded else rd_reader s f) (rd_closed s)
                     (rd_permit s) WaitersNotified (rd_failed s) (rd_failure s) (rd_queue s))
| rd_notify_one f s : rd_stage s = WaitersNotified -> registered (rd_reader s f) = true ->
    reader_step s (set_reader f ReaderEnded (set_stage Notified true s))
| rd_notify_none s : rd_stage s = WaitersNotified -> (forall f, registered (rd_reader s f) = false) ->
    reader_step s (set_permit true (set_stage Notified true s)).

Definition readers_init : Readers := mkReaders (fun _ => Checking) false false Open 0 None [].

(** A reader that may still wait for the network or the queue *)
Definition exposed (x : Reader) : bool :=
  match x with Entering | Receiving | Handing _ | Sending _ => true | _ => false end.

Definition reports_error (x : Reader) : bool :=
  match x with Handing (Err _) | Sending (Err _) => true | _ => false end.

Definition readers_inv (s : Readers) : Prop :=
  (rd_closed s = match rd_stage s with Open => false | _ => true end)
  /\ (rd_permit s = true -> rd_stage s = Notified)
  /\ (rd_stage s = Notified -> (forall f, exposed (rd_reader s f) = true) -> rd_permit s = true)
  /\ ((exists f, reports_error (rd_reader s f) = true) \/ (exists e, Err e ∈ rd_queue s) -> rd_failed s = 3).

Lemma set_reader_eq f x s : rd_reader (set_reader f x s) f = x.
Proof. cbn. by rewrite decide_True. Qed.

(** A step of one reader keeps the invariant when it neither makes the reader wait after the
    notification nor reports an error early. *)
Lemma set_reader_inv f x s :
  readers_inv s ->
  (rd_stage s = Notified -> exposed x = true -> exposed (rd_reader s f) = true) ->
  (reports_error x = true -> rd_failed s = 3) -> readers_inv (set_reader f x s).
Proof.
  intros (Hc & Hp & Hn & He) Hx Hr. unfold readers_inv. cbn. split_and!; [done..| |].
  - intros Hs Hall. apply Hn; [done|]. intros g. specialize (Hall g). destruct (decide (g = f)) as [->|]; auto.
  - intros [[g Hg]|Hq]; [|auto]. destruct (decide (g = f)); [auto|]. apply He. eauto.
Qed.

Lemma ended_after_permit f s :
  readers_inv s -> rd_permit s = true -> readers_inv (set_reader f ReaderEnded (set_permit false s)).
Proof.
  intros (Hc & Hp & Hn & He) Hpe. unfold readers_inv. cbn. split_and!; [done|done| |].
  - intros _ Hall. specialize (Hall f). by rewrite decide_True in Hall.
  - intros [[g Hg]|Hq]; [|auto]. destruct (decide (g = f)); [done|]. apply He. eauto.
Qed.

Lemma pushed_inv f m s :
  readers_inv s -> rd_reader s f = Handing m \/ rd_reader s f = Sending m ->
  readers_inv (set_reader f (after_send m) (set_queue (rd_queue s ++ [m]) s)).
Proof.
  intros (Hc & Hp & Hn & He) Hm. unfold readers_inv. cbn. split_and!; [done..| |].
  - intros _ Hall. specialize (Hall f). rewrite decide_True in Hall by done. by destruct m.
  - intros [[g Hg]|[e Hq]].
    + destruct (decide (g = f)); [by destruct m|]. apply He. eauto.
    + apply elem_of_app in Hq as [Hq|Hq%list_elem_of_singleton]; [eauto|]. subst m. apply He. left. exists f.
      by destruct Hm as [->| ->].
Qed.

Lemma failed_inv f e s : readers_inv s -> rd_reader s f = Receiving -> readers_inv (receive_failed f e s).
Proof.
  intros Hi Hf. unfold receive_failed. destruct (rd_closed s) eqn:Ec; [by apply set_reader_inv|].
  assert (Hi' : readers_inv (set_failed (Z.lor (rd_failed s) (family_bit f)) f s)).
  { destruct Hi as (Hc & Hp & Hn & He). unfold readers_inv. cbn. split_and!; [congruence|done..|].
    intros H. rewrite (He H). by destruct f. }
  destruct (Z.eqb_spec (Z.lor (rd_failed s) (family_bit f)) 3) as [E|].
  - apply set_reader_inv; [done| |done]. cbn. by rewrite Hf.
  - by apply set_reader_inv.
Qed.

Lemma reader_step_inv s s' : readers_inv s -> reader_step s s' -> readers_inv s'.
Proof.
  intros Hi Hst. pose proof Hi as (Hc & Hp & Hn & He).
  destruct Hst as [f s Hf|f s Hf Hpe|f s Hf Hpe|f batch s Hf|f e s Hf|f m s Hm Hq|f m s Hf Hq Hpe|f m s Hf Hpe|m q s Hq
                  |s Hs|s Hs|f s Hs Hr|s Hs Hr].
  - apply set_reader_inv; [done| |by destruct (rd_closed s)]. intros Hs. rewrite Hc, Hs. done.
  - apply set_reader_inv; [done| |done]. by rewrite Hf.
  - by apply ended_after_permit.
  - apply set_reader_inv; [done| |done]. by rewrite Hf.
  - by apply failed_inv.
  - by apply pushed_inv.
  - apply set_reader_inv; [done| |]; [by rewrite Hf|]. intros H. apply He. left. exists f. by rewrite Hf.
  - by apply ended_after_permit.
  - unfold readers_inv. cbn. split_and!; [done..|]. intros [H|[e H]]; apply He; [by left|]. right. exists e. rewrite Hq. by right.
  - unfold readers_inv. cbn. split_and!; [done| |done|done]. intros Hpe. rewrite (Hp Hpe) in Hs. done.
  - unfold readers_inv. cbn. rewrite Hs in Hc. split_and!; [done| |done|].
    + intros Hpe. rewrite (Hp Hpe) in Hs. done.
    + intros [[g Hg]|H]; [|auto]. apply He. left. exists g. by destruct (registered (rd_reader s g)).
  - unfold readers_inv. cbn. split_and!; [done|done| |].
    + intros _ Hall. specialize (Hall f). by rewrite decide_True in Hall.
    + intros [[g Hg]|H]; [|auto]. destruct (decide (g = f)); [done|]. apply He. eauto.
  - unfold readers_inv. cbn. by split_and!.
Qed.

(** C29: Whatever arrives and whenever the socket is shut down: the node is told of a failure of the
    transport only when both address families have failed, and once [shutdown] has notified
    the readers, at most one of them can be waiting for the network without a permit to end. *)
Theorem socket_readers_invariant (s : Readers) :
  rtc reader_step readers_init s ->
  ((exists e, Err e ∈ rd_queue s) -> rd_failed s = 3)
  /\ (rd_stage s = Notified -> rd_permit s = false ->
        exposed (rd_reader s Ipv4) = false \/ exposed (rd_reader s Ipv6) = false).
Proof.
  intros Hr. assert (Hi : readers_inv s).
  { assert (H0 : readers_inv readers_init).
    { unfold readers_inv. cbn. split_and!; [done..|]. intros [[f Hf]|[e He]]; [done|by apply elem_of_nil in He]. }
    induction Hr as [|s1 s2 s3 Hst _ IH]; [done|]. apply IH. by eapply reader_step_inv. }
  destruct Hi as (_ & _ & Hn & He). split; [auto|]. intros Hs Hp.
  destruct (exposed (rd_reader s Ipv4)) eqn:E4, (exposed (rd_reader s Ipv6)) eqn:E6; auto.
  rewrite Hn in Hp; [done|done|]. by intros [].
Qed.

(** Both readers have looked at [closed] and neither waits yet when the socket is shut down:
    the permit ends one of them, and the other waits until a datagram arrives.  [shutdown]
    waits for it. *)
Lemma shutdown_can_hang :
  exists s, rtc reader_step readers_init s
    /\ rd_stage s = Notified /\ rd_reader s Ipv6 = Receiving
    /\ forall s', reader_step s s' ->
         (exists batch, s' = set_reader Ipv6 (Handing (Ok batch)) s) \/ exists e, s' = receive_failed Ipv6 e s.
Proof.
  eexists. split.
  { eapply rtc_l; [by apply (rd_check Ipv4)|]. eapply rtc_l; [by apply (rd_check Ipv6)|].
    eapply rtc_l; [by apply rd_close|]. eapply rtc_l; [by apply rd_notify_waiters|].
    eapply rtc_l; [apply rd_notify_none; [done|by intros []]|].
    eapply rtc_l; [by apply (rd_enter_permit Ipv4)|]. eapply rtc_once. by apply (rd_enter Ipv6). }
  split; [done|]. split; [done|]. intros s' Hst. inversion Hst; subst; try (by destruct f); try done.
  - destruct f; [done|]. left. eauto.
  - destruct f; [done|]. right. eauto.
  - by destruct f; destruct H.
Qed.

(** ** Examples *)

(** A kernel that takes two datagrams at a time *)
#[local] Instance two_at_a_time : UdpSockets (list Datagram) := {|
  udp_send_to _ d w := (Ok (len d.1), w ++ [d]);
  udp_send_mmsg _ l w := (Ok (Nat.min 2 (length l)), w ++ take 2 l);
  udp_sent w := w
|}.
#[local] Instance two_at_a_time_laws : UdpSocketsLaws (list Datagram).
Proof.
  constructor.
  - intros f d w n w' [= _ <-]. done.
  - intros f l w n w' E. injection E as <- <-. destruct l as [|x [|y l]]; (split; [cbn; lia|done]).
Qed.

Definition four (k : Z) : Datagram := ([k], SockV4 k 4000).

Lemma socket_batch_exact_witness :
  let packets := map four [1; 2; 3] in
  (3 <= length packets)%nat
  /\ udp_sent (snd (socket_send_batch false packets [])) = udp_sent ([] : list Datagram) ++ take 3 packets.
Proof.
  destruct (socket_batch_exact (map four [1; 2; 3]) [] (snd (socket_send_batch false (map four [1; 2; 3]) [])) 3)
    as (H1 & H2 & _); [reflexivity|]. by split.
Defined.

Lemma recv_batch_fifo_witness :
  let ib := mkInbox [Ok [four 2; four 3]; Err UnexpectedEof] [four 1] true in
  match recv_packet_batch 2 ib with
  | Some (Ok got, ib') => arrived ib = got ++ arrived ib' /\ (1 <= length got <= 2)%nat
  | _ => False
  end.
Proof.
  exact (recv_batch_fifo 2 (mkInbox [Ok [four 2; four 3]; Err UnexpectedEof] [four 1] true) ltac:(lia)).
Defined.

(** IPv4 fails first, then IPv6: only then an error is in the queue. *)
Definition both_failed : Readers :=
  set_reader Ipv6 ReaderEnded (set_queue [Err InvalidData]
    (receive_failed Ipv6 InvalidData (set_reader Ipv6 Receiving (set_reader Ipv6 Entering
      (receive_failed Ipv4 NotConnected (set_reader Ipv4 Receiving (set_reader Ipv4 Entering readers_init))))))).

Lemma socket_readers_invariant_witness : (exists e, Err e ∈ rd_queue both_failed) /\ rd_failed both_failed = 3.
Proof.
  assert (Hq : exists e, Err e ∈ rd_queue both_failed) by (exists InvalidData; by left).
  split; [exact Hq|]. apply (socket_readers_invariant both_failed); [|exact Hq].
  eapply rtc_l; [by apply (rd_check Ipv4)|]. eapply rtc_l; [by apply (rd_enter Ipv4)|].
  eapply rtc_l; [by apply (rd_error Ipv4 NotConnected)|].
  eapply rtc_l; [by apply (rd_check Ipv6)|]. eapply rtc_l; [by apply (rd_enter Ipv6)|].
  eapply rtc_l; [by apply (rd_error Ipv6 InvalidData)|].
  apply rtc_once. apply (rd_hand Ipv6 (Err InvalidData)); [by left|by apply Nat.ltb_lt].
Defined.

(** ** Sockets of an embedding program

    The trait [DatagramSocket]: what a program that brings its own socket must define, and
    the methods it gets by default. *)
Class DatagramSocket (W : Type) : Type := {
  dg_send_to : Datagram -> W -> result Z IoError * W;
  dg_recv_from : nat -> W -> result Datagram IoError * W;
  dg_local_addr : W -> result SocketAddr IoError
}.

Section custom.
Context {W : Type} {Ds : DatagramSocket W}.

Fixpoint default_send_batch (packets : list Datagram) (sent : nat) (w : W) : result nat IoError * W :=
  match packets with
  | [] => (Ok sent, w)
  | d :: packets =>
      match dg_send_to d w with
      | (Ok _, w) => default_send_batch packets (S sent) w
      | (Err e, w) => (Err e, w)
      end
  end.

Definition default_recv_packet (w : W) : result Datagram IoError * W := dg_recv_from (Z.to_nat 65535) w.

(** The packets replace those of the vector. *)
Definition default_recv_packet_batch (limit : nat) (w : W) : result (list Datagram) IoError * W :=
  if (limit =? 0)%nat then (Ok [], w)
  else let '(r, w) := default_recv_packet w in (rmap (fun d => [d]) r, w).

Definition default_local_addrs (w : W) : result (list SocketAddr) IoError := rmap (fun a => [a]) (dg_local_addr w).

(** The first packets of a batch go out one after the other, and the number says how many;
    after an error it is the next one that failed. *)
Lemma default_send_batch_spec (P : list Datagram -> W -> W -> Prop) packets sent w r w' :
  (forall w, P [] w w) ->
  (forall l d w w1 w2 k, P l w w1 -> dg_send_to d w1 = (Ok k, w2) -> P (l ++ [d]) w w2) ->
  default_send_batch packets sent w = (r, w') ->
  match r with
  | Ok n => n = (sent + length packets)%nat /\ P packets w w'
  | Err e => exists before d after w1, packets = before ++ d :: after /\ P before w w1 /\ dg_send_to d w1 = (Err e, w')
  end.
Proof.
  intros H0 H1. assert (Hgen : forall done w0, P done w0 w -> default_send_batch packets sent w = (r, w') ->
    match r with
    | Ok n => n = (sent + length packets)%nat /\ P (done ++ packets) w0 w'
    | Err e => exists before d after w1, packets = before ++ d :: after /\ P (done ++ before) w0 w1
                                         /\ dg_send_to d w1 = (Err e, w')
    end); [|exact (Hgen [] w (H0 w))].
  revert sent w; induction packets as [|d packets IH]; intros sent w l w0 Hl; cbn [default_send_batch].
  - intros [= <- <-]. rewrite app_nil_r. split; [cbn; lia|done].
  - destruct (dg_send_to d w) as [[k|e] w1] eqn:Ed.
    + intros E. specialize (IH (S sent) w1 (l ++ [d]) w0 (H1 _ _ _ _ _ _ Hl Ed) E). destruct r as [n|e].
      * rewrite <- app_assoc in IH. destruct IH as [-> HP]. split; [cbn; lia|done].
      * destruct IH as (before & x & after & w2 & -> & HP & Hx). exists (d :: before), x, after, w2.
        rewrite <- app_assoc in HP. done.
    + intros [= <- <-]. exists [], d, packets, w. by rewrite app_nil_r.
Qed.

Lemma default_recv_batch_size limit w l w' :
  default_recv_packet_batch limit w = (Ok l, w') -> (length l <= limit)%nat.
Proof.
  unfold default_recv_packet_batch. destruct (Nat.eqb_spec limit 0); [intros [= <- <-]; cbn; lia|].
  destruct (default_recv_packet w) as [[d|e] w1]; [intros [= <- <-]; cbn; lia|done].
Qed.
End custom.
