(* ===== verification/SockAddr.v ===== *)
(** * Datagrams through the system calls

    What lies between [TokioDatagramSocket] and Linux in [vela-core/src/lib.rs]: an
    address as the bytes of a [sockaddr_storage] ([socket_addr_storage],
    [socket_addr_from_storage]), the messages of [sendmmsg] ([send_mmsg]), and the
    buffers of [recvmmsg], which are used again for every batch ([RecvMmsgBatch]).
    Structures of C are their bytes in memory, for a host of either byte order; the
    two system calls are the class [Mmsg]. *)
From S2P Require Import Prelude Net Socket.

Definition AF_INET : Z := 2.
Definition AF_INET6 : Z := 10.
Definition STORAGE_SIZE : nat := 128.
Definition BUFFER_SIZE : nat := Z.to_nat 65535.

(** A message of [sendmmsg]: its name, the length of the name, and its only buffer *)
Record Message : Type := mkMessage {
  msg_name : bytes;
  msg_namelen : Z;
  msg_iov : bytes
}.

(** [sendmmsg] and [recvmmsg] on a nonblocking socket, with the error of a call that
    returns a negative number, and what was handed to the network.  A received
    message is the bytes of its buffer and of its name. *)
Class Mmsg (K : Type) : Type := {
  sys_sendmmsg : list Message -> K -> Z * K;
  sys_recvmmsg : nat -> K -> result (list (bytes * bytes)) IoError * K;
  sys_errno : K -> IoError;
  sys_wire : K -> list Message
}.

(** [sendmmsg(2)]: the number of messages sent, the first ones of the vector.
    [recvmmsg(2)]: at most as many messages as the vector has, none longer than its
    buffer, with a name no longer than the storage. *)
Class MmsgLaws (K : Type) {M : Mmsg K} : Prop := {
  sendmmsg_law l k r k' : sys_sendmmsg l k = (r, k') -> 0 <= r ->
    r <= Z.of_nat (length l) /\ sys_wire k' = sys_wire k ++ take (Z.to_nat r) l;
  recvmmsg_law n k l k' : sys_recvmmsg n k = (Ok l, k') ->
    (length l <= n)%nat
    /\ Forall (fun m => (length m.1 <= BUFFER_SIZE)%nat /\ (length m.2 <= STORAGE_SIZE)%nat) l
}.

Section host.
Context (little : bool).

(** ** Native integers *)

(** The bytes of an integer in memory *)
Definition ne_bytes (n : nat) (v : Z) : bytes := if little then rev (be_bytes n v) else be_bytes n v.
(** [uN::from_ne_bytes], and reading an integer from memory *)
Definition ne_value (l : bytes) : Z := be_value (if little then rev l else l).
(** [uN::to_be] and [uN::from_be] *)
Definition to_be (n : nat) (v : Z) : Z := if little then be_value (rev (be_bytes n v)) else v.

(** ** Addresses *)

Definition padded_storage (l : bytes) : bytes := l ++ replicate (STORAGE_SIZE - length l) 0.

(** [socket_addr_storage]: [sockaddr_in] has 16 bytes and [sockaddr_in6] 28 *)
Definition socket_addr_storage (a : SocketAddr) : bytes * Z :=
  match a with
  | SockV4 ip port =>
      (padded_storage (ne_bytes 2 AF_INET ++ ne_bytes 2 (to_be 2 port) ++ ne_bytes 4 (ne_value (ipv4_octets ip))), 16)
  | SockV6 ip port flowinfo scope_id =>
      (padded_storage (ne_bytes 2 AF_INET6 ++ ne_bytes 2 (to_be 2 port) ++ ne_bytes 4 flowinfo
                       ++ ipv6_octets ip ++ ne_bytes 4 scope_id), 28)
  end.

Definition socket_addr_from_storage (storage : bytes) : result SocketAddr IoError :=
  let family := ne_value (slice 0 2 storage) in
  let port := to_be 2 (ne_value (slice 2 4 storage)) in
  if family =? AF_INET then Ok (SockV4 (to_be 4 (ne_value (slice 4 8 storage))) port)
  else if family =? AF_INET6 then
    Ok (SockV6 (be_value (slice 8 24 storage)) port (ne_value (slice 4 8 storage)) (ne_value (slice 24 28 storage)))
  else Err InvalidData.

(** ** Sending *)

Definition message_to (d : Datagram) : Message :=
  let '(name, namelen) := socket_addr_storage d.2 in mkMessage name namelen d.1.

Definition send_mmsg {K} {M : Mmsg K} (packets : list Datagram) (k : K) : result nat IoError * K :=
  match packets with
  | [] => (Ok O, k)
  | _ =>
      let '(r, k) := sys_sendmmsg (map message_to packets) k in
      if r <? 0 then (Err (sys_errno k), k) else (Ok (Z.to_nat r), k)
  end.

(** ** Receiving *)

(** [RecvMmsgBatch]: the buffers, the addresses and the lengths of the messages *)
Record RecvMmsgBatch : Type := mkBatch {
  rb_buffers : list bytes;
  rb_addresses : list bytes;
  rb_lengths : list nat
}.

Definition RecvMmsgBatch_new (size : nat) : RecvMmsgBatch :=
  mkBatch (replicate size (replicate BUFFER_SIZE 0)) (replicate size (replicate STORAGE_SIZE 0)) (replicate size O).

(** The kernel writes over the beginning of a buffer. *)
Definition overwrite (data old : bytes) : bytes := data ++ drop (length data) old.

(** [recv]: names and lengths are cleared, the buffers keep what they have. *)
Definition batch_recv {K} {M : Mmsg K} (b : RecvMmsgBatch) (k : K) : result nat IoError * RecvMmsgBatch * K :=
  let size := length (rb_lengths b) in
  let blank := replicate STORAGE_SIZE 0 in
  match sys_recvmmsg size k with
  | (Err e, k) => (Err e, mkBatch (rb_buffers b) (replicate size blank) (replicate size O), k)
  | (Ok l, k) =>
      (Ok (length l),
       mkBatch (zip_with (fun m old => overwrite m.1 old) l (rb_buffers b) ++ drop (length l) (rb_buffers b))
         (map (fun m => overwrite m.2 blank) l ++ replicate (size - length l) blank)
         (map (fun m => length m.1) l ++ replicate (size - length l) O), k)
  end.

(** [take]; an index out of range panics, which is [None]. *)
Definition take_message (b : RecvMmsgBatch) (i : nat) : option (result Datagram IoError) :=
  match rb_lengths b !! i, rb_addresses b !! i, rb_buffers b !! i with
  | Some n, Some address, Some buffer =>
      Some (let? source := socket_addr_from_storage address in Ok (take n buffer, source))
  | _, _, _ => None
  end.

Fixpoint take_messages (b : RecvMmsgBatch) (from count : nat) : option (result (list Datagram) IoError) :=
  match count with
  | O => Some (Ok [])
  | S count =>
      match take_message b from with
      | None => None
      | Some (Err e) => Some (Err e)
      | Some (Ok d) =>
          match take_messages b (S from) count with
          | Some (Ok ds) => Some (Ok (d :: ds))
          | other => other
          end
      end
  end.

Definition recv_datagram_batch {K} {M : Mmsg K} (b : RecvMmsgBatch) (k : K)
    : option (result (list Datagram) IoError) * RecvMmsgBatch * K :=
  match batch_recv b k with
  | (Err e, b, k) => (Some (Err e), b, k)
  | (Ok count, b, k) => (take_messages b 0 count, b, k)
  end.

(** ** Addresses survive the way through memory *)

Definition sock_ok (a : SocketAddr) : Prop :=
  match a with
  | SockV4 ip port => is_u 32 ip /\ is_u 16 port
  | SockV6 ip port flowinfo scope_id => is_u 128 ip /\ is_u 16 port /\ is_u 32 flowinfo /\ is_u 32 scope_id
  end.

Lemma length_ne_bytes n v : length (ne_bytes n v) = n.
Proof. unfold ne_bytes. destruct little; rewrite ?length_rev; apply length_be_bytes. Qed.

Lemma ne_value_ne_bytes n bits v : bits = 8 * Z.of_nat n -> is_u bits v -> ne_value (ne_bytes n v) = v.
Proof.
  intros Hb Hv. unfold ne_value, ne_bytes. destruct little; rewrite ?rev_involutive; by apply be_value_be_bytes_u with bits.
Qed.

Lemma ne_bytes_ne_value n l : length l = n -> bytes_ok l -> ne_bytes n (ne_value l) = l.
Proof.
  intros Hn Hl. unfold ne_value, ne_bytes. destruct little; [|by apply be_bytes_of_value].
  rewrite be_bytes_of_value; [apply rev_involutive|by rewrite length_rev|by apply Forall_rev].
Qed.

(** In memory [to_be] is the big-endian form on every host. *)
Lemma ne_bytes_to_be n v : ne_bytes n (to_be n v) = be_bytes n v.
Proof.
  unfold ne_bytes, to_be. destruct little; [|done]. rewrite be_bytes_of_value.
  - apply rev_involutive.
  - by rewrite length_rev, length_be_bytes.
  - apply Forall_rev, be_bytes_ok.
Qed.

Lemma to_be_ne_value n bits v : bits = 8 * Z.of_nat n -> is_u bits v -> to_be n (ne_value (be_bytes n v)) = v.
Proof.
  intros Hb Hv. unfold ne_value, to_be. destruct little; [|by apply be_value_be_bytes_u with bits].
  rewrite be_bytes_of_value; [|by rewrite length_rev, length_be_bytes|apply Forall_rev, be_bytes_ok].
  rewrite rev_involutive. by apply be_value_be_bytes_u with bits.
Qed.

Lemma storage_slice (i j : nat) (a b c : bytes) :
  i = length a -> j = (i + length b)%nat -> slice i j (a ++ b ++ c) = b.
Proof.
  intros -> ->. unfold slice. rewrite drop_app_length. replace (_ - _)%nat with (length b) by lia. apply take_app_length.
Qed.

Ltac fields := rewrite ?length_app, ?length_ne_bytes, ?length_be_bytes; done.

(** The layout of an address in memory: port and address in network order *)
Lemma storage_fields a :
  let st := (socket_addr_storage a).1 in
  slice 0 2 st = ne_bytes 2 (if sock_is_ipv4 a then AF_INET else AF_INET6)
  /\ slice 2 4 st = be_bytes 2 (sock_port a)
  /\ match a with
     | SockV4 ip _ => slice 4 8 st = be_bytes 4 ip
     | SockV6 ip _ flowinfo scope_id =>
         slice 4 8 st = ne_bytes 4 flowinfo /\ slice 8 24 st = be_bytes 16 ip /\ slice 24 28 st = ne_bytes 4 scope_id
     end.
Proof.
  destruct a as [ip port|ip port flowinfo scope_id]; unfold socket_addr_storage, padded_storage, ipv4_octets, ipv6_octets;
    cbn [fst sock_is_ipv4 sock_port]; rewrite ne_bytes_to_be.
  - rewrite ne_bytes_ne_value by (auto with vela; apply length_be_bytes). rewrite <- !app_assoc. split_and!.
    + apply (storage_slice 0 2 []); fields.
    + apply storage_slice; fields.
    + rewrite app_assoc. apply storage_slice; fields.
  - rewrite <- !app_assoc. split_and!.
    + apply (storage_slice 0 2 []); fields.
    + apply storage_slice; fields.
    + rewrite app_assoc. apply storage_slice; fields.
    + rewrite 2!app_assoc. apply storage_slice; fields.
    + rewrite 3!app_assoc. apply storage_slice; fields.
Qed.

Lemma sockaddr_roundtrip_aux a :
  sock_ok a -> socket_addr_from_storage (socket_addr_storage a).1 = Ok a.
Proof.
  intros Ha. pose proof (storage_fields a) as (Hf & Hp & Hr). unfold socket_addr_from_storage. rewrite Hf, Hp.
  destruct a as [ip port|ip port flowinfo scope_id]; cbn [sock_is_ipv4 sock_port] in *.
  - destruct Ha as [Hi Hpo]. rewrite (ne_value_ne_bytes 2 16) by (done || by_decide). cbn [Z.eqb AF_INET].
    rewrite Hr, (to_be_ne_value 4 32), (to_be_ne_value 2 16) by done. done.
  - destruct Ha as (Hi & Hpo & Hfl & Hs). destruct Hr as (-> & -> & ->).
    rewrite (ne_value_ne_bytes 2 16) by (done || by_decide).
    rewrite (to_be_ne_value 2 16), (be_value_be_bytes_u 16 128), !(ne_value_ne_bytes 4 32) by done. done.
Qed.

Lemma storage_size a : length (socket_addr_storage a).1 = STORAGE_SIZE.
Proof.
  destruct a; cbn [socket_addr_storage fst]; unfold padded_storage; rewrite length_app, length_replicate;
    rewrite !length_app, !length_ne_bytes, ?length_be_bytes; done.
Qed.

(** ** Batches *)

Context {K : Type} {M : Mmsg K} {L : MmsgLaws K}.

(** What a message carries *)
Definition carried (m : Message) : result Datagram IoError :=
  let? a := socket_addr_from_storage (msg_name m) in Ok (msg_iov m, a).

Lemma carried_message d : sock_ok d.2 -> carried (message_to d) = Ok d.
Proof.
  intros Hd. unfold carried, message_to. destruct (socket_addr_storage d.2) as [name namelen] eqn:E. cbn [msg_name msg_iov].
  change name with (name, namelen).1. rewrite <- E, sockaddr_roundtrip_aux by done. by destruct d.
Qed.

Lemma send_mmsg_sent packets k n k' :
  Forall (fun d => sock_ok d.2) packets -> send_mmsg packets k = (Ok n, k') ->
  (n <= length packets)%nat
  /\ exists ms, sys_wire k' = sys_wire k ++ ms /\ map carried ms = map Ok (take n packets).
Proof.
  intros Hok E. unfold send_mmsg in E. destruct packets as [|d l]; [injection E as <- <-; split; [done|]; exists []; by rewrite app_nil_r|].
  destruct (sys_sendmmsg _ k) as [r k1] eqn:Es. destruct (Z.ltb_spec r 0) as [|Hr]; [done|]. injection E as <- <-.
  apply sendmmsg_law in Es as [Hle Hw]; [|done]. rewrite length_map in Hle. split; [lia|].
  eexists. split; [exact Hw|]. rewrite firstn_map, map_map. apply map_ext_in. intros x Hx%list_elem_of_In%elem_of_take.
  destruct Hx as (i & Hx & _). apply carried_message. by eapply Forall_lookup_1 in Hok.
Qed.

(** The batch keeps its size, and every buffer its own. *)
Definition batch_ok (size : nat) (b : RecvMmsgBatch) : Prop :=
  length (rb_buffers b) = size /\ length (rb_addresses b) = size /\ length (rb_lengths b) = size
  /\ Forall (fun l => length l = BUFFER_SIZE) (rb_buffers b).

Lemma batch_new_ok size : batch_ok size (RecvMmsgBatch_new size).
Proof.
  unfold batch_ok, RecvMmsgBatch_new. cbn [rb_buffers rb_addresses rb_lengths]. rewrite !length_replicate.
  split_and!; try done. apply Forall_replicate, length_replicate.
Qed.

Lemma take_overwrite (data old : bytes) : take (length data) (overwrite data old) = data.
Proof. apply take_app_length. Qed.

Lemma length_overwrite (data old : bytes) : (length data <= length old)%nat -> length (overwrite data old) = length old.
Proof. intros. unfold overwrite. rewrite length_app, length_drop. lia. Qed.

Definition source_of (m : bytes * bytes) : result Datagram IoError :=
  let? a := socket_addr_from_storage (overwrite m.2 (replicate STORAGE_SIZE 0)) in Ok (m.1, a).

(** Messages that were written to the first places *)
Lemma take_messages_written b l i :
  (forall j m, l !! j = Some m ->
     rb_lengths b !! (i + j)%nat = Some (length m.1)
     /\ rb_addresses b !! (i + j)%nat = Some (overwrite m.2 (replicate STORAGE_SIZE 0))
     /\ exists old, rb_buffers b !! (i + j)%nat = Some (overwrite m.1 old)) ->
  take_messages b i (length l) = Some (rmapM source_of l).
Proof.
  revert i; induction l as [|m l IH]; intros i Hl; [done|]. cbn [length take_messages rmapM].
  destruct (Hl O m eq_refl) as (H1 & H2 & old & H3). rewrite Nat.add_0_r in *. unfold take_message. rewrite H1, H2, H3.
  rewrite take_overwrite. unfold source_of at 1. destruct (socket_addr_from_storage _) as [a|e]; [|done]. cbn [rbind].
  rewrite (IH (S i)); [by destruct (rmapM source_of l)|]. intros j m' Hj. specialize (Hl (S j) m' Hj).
  by rewrite Nat.add_succ_r in Hl.
Qed.

(** A call returns the messages of the kernel, whatever the buffers held before. *)
Lemma recv_datagram_batch_spec size b k l k' :
  batch_ok size b -> sys_recvmmsg size k = (Ok l, k') ->
  exists b', recv_datagram_batch b k = (Some (rmapM source_of l), b', k') /\ batch_ok size b'.
Proof.
  intros (H1 & H2 & H3 & H4) E. pose proof (recvmmsg_law _ _ _ _ E) as [Hn Hl].
  unfold recv_datagram_batch, batch_recv. rewrite H3, E. eexists. split; [f_equal; f_equal; apply take_messages_written|].
  - intros j m Hj. pose proof (lookup_lt_Some _ _ _ Hj) as Hlt. cbn [rb_buffers rb_addresses rb_lengths].
    rewrite !Nat.add_0_l. split_and!.
    + rewrite lookup_app_l by (by rewrite length_map). by rewrite list_lookup_fmap, Hj.
    + rewrite lookup_app_l by (by rewrite length_map). by rewrite list_lookup_fmap, Hj.
    + destruct (lookup_lt_is_Some_2 (rb_buffers b) j) as [old Ho]; [lia|]. exists old.
      rewrite lookup_app_l; [by rewrite lookup_zip_with, Hj, Ho|]. rewrite length_zip_with. lia.
  - unfold batch_ok. cbn [rb_buffers rb_addresses rb_lengths].
    rewrite !length_app, length_zip_with, length_drop, !length_map, !length_replicate. split_and!; [lia..|].
    apply Forall_app. split; [|by apply Forall_drop]. apply Forall_lookup. intros i x.
    rewrite lookup_zip_with_Some. intros (m & old & -> & Hm & Ho). pose proof (Forall_lookup_1 _ _ _ _ H4 Ho) as Hlen.
    pose proof (Forall_lookup_1 _ _ _ _ Hl Hm) as [Hm1 _]. rewrite length_overwrite; [done|]. cbn in *. lia.
Qed.

(** How the kernel names the source of a datagram: the structure of its family *)
Definition kernel_name (a : SocketAddr) : bytes :=
  let '(storage, namelen) := socket_addr_storage a in take (Z.to_nat namelen) storage.

Lemma kernel_name_written a : overwrite (kernel_name a) (replicate STORAGE_SIZE 0) = (socket_addr_storage a).1.
Proof.
  assert (Hpad : forall l n, (length l <= n <= STORAGE_SIZE)%nat ->
    overwrite (take n (padded_storage l)) (replicate STORAGE_SIZE 0) = padded_storage l).
  { intros l n Hn. unfold overwrite, padded_storage.
    rewrite take_app_ge, take_replicate, length_app, length_replicate, drop_replicate, <- app_assoc by lia.
    rewrite <- replicate_add. do 2 f_equal. lia. }
  unfold kernel_name. destruct a; cbn [socket_addr_storage fst]; apply Hpad; unfold ipv6_octets;
    rewrite !length_app, !length_ne_bytes, ?length_be_bytes; unfold STORAGE_SIZE; lia.
Qed.

Lemma sources_of_datagrams ds :
  Forall (fun d => sock_ok d.2) ds -> rmapM source_of (map (fun d => (d.1, kernel_name d.2)) ds) = Ok ds.
Proof.
  intros Hok. apply rmapM_Ok, Forall2_lookup. intros i. rewrite list_lookup_fmap.
  destruct (ds !! i) as [d|] eqn:Ed; [|constructor]. constructor. unfold source_of. cbn [fst snd].
  rewrite kernel_name_written, sockaddr_roundtrip_aux; [by destruct d|]. by eapply Forall_lookup_1 in Hok.
Qed.

(** C30: on a host of either byte order, datagrams pass through the batched system calls
    unchanged.  When [send_mmsg] reports a number of datagrams, exactly the first ones of
    the batch were handed to the kernel, each with its bytes and a name that reads back as
    its target; and the datagrams that the kernel received are returned with their bytes
    and sources, all of them and in order, whatever the buffers held from earlier
    batches. *)
Theorem datagrams_intact ds size b k :
  Forall (fun d => sock_ok d.2) ds -> batch_ok size b ->
  (forall n k', send_mmsg ds k = (Ok n, k') ->
     (n <= length ds)%nat /\ exists ms, sys_wire k' = sys_wire k ++ ms /\ map carried ms = map Ok (take n ds))
  /\ (forall k', sys_recvmmsg size k = (Ok (map (fun d => (d.1, kernel_name d.2)) ds), k') ->
     exists b', recv_datagram_batch b k = (Some (Ok ds), b', k') /\ batch_ok size b').
Proof.
  intros Hok Hb. split; intros; [by apply send_mmsg_sent|].
  rewrite <- (sources_of_datagrams ds Hok). by apply recv_datagram_batch_spec.
Qed.

(** A datagram of another address family ends the batch with an error. *)
Lemma foreign_family_refused size b k l m k' :
  batch_ok size b -> sys_recvmmsg size k = (Ok (m :: l), k') ->
  ne_value (slice 0 2 (overwrite m.2 (replicate STORAGE_SIZE 0))) ∉ [AF_INET; AF_INET6] ->
  exists b', recv_datagram_batch b k = (Some (Err InvalidData), b', k').
Proof.
  intros Hb E Hf. apply (recv_datagram_batch_spec _ _ _ _ _ Hb) in E as (b' & E & _). exists b'. rewrite E.
  cbn [rmapM]. unfold source_of at 1, socket_addr_from_storage. cbn zeta.
  destruct (Z.eqb_spec (ne_value (slice 0 2 (overwrite m.2 (replicate STORAGE_SIZE 0)))) AF_INET) as [e|_]; [rewrite e in Hf; set_solver|].
  destruct (Z.eqb_spec (ne_value (slice 0 2 (overwrite m.2 (replicate STORAGE_SIZE 0)))) AF_INET6) as [e|_]; [rewrite e in Hf; set_solver|].
  done.
Qed.
End host.

(** ** A kernel that loops back

    What is sent waits, with the name it was sent to, until it is received. *)
#[export] Instance loopback_mmsg : Mmsg (list Message * list (bytes * bytes)) := {|
  sys_sendmmsg l k := (Z.of_nat (length l), (k.1 ++ l, k.2 ++ map (fun m => (msg_iov m, take (Z.to_nat (msg_namelen m)) (msg_name m))) l));
  sys_recvmmsg n k := (Ok (map (fun m => (take BUFFER_SIZE m.1, take STORAGE_SIZE m.2)) (take n k.2)), (k.1, drop n k.2));
  sys_errno _ := InvalidData;
  sys_wire k := k.1
|}.

#[export] Instance loopback_mmsg_laws : MmsgLaws (list Message * list (bytes * bytes)).
Proof.
  split.
  - intros l k r k' [= <- <-] _. split; [done|]. cbn. by rewrite Nat2Z.id, firstn_all.
  - intros n k l k' [= <- <-]. split.
    + rewrite length_map, length_take. lia.
    + apply Forall_map, Forall_forall. intros m _. cbn [fst snd]. rewrite !length_take. lia.
Qed.

(** Two datagrams through buffers that are dirty from before *)
Definition sample_datagrams : list Datagram :=
  [([1; 2; 3], SockV4 0x0a000001 4000); ([4], SockV6 1 5000 7 2)].
Definition dirty_batch : RecvMmsgBatch :=
  mkBatch (replicate 2 (replicate BUFFER_SIZE 9)) (replicate 2 (replicate STORAGE_SIZE 9)) (replicate 2 7%nat).

Lemma sample_datagrams_ok : Forall (fun d => sock_ok d.2) sample_datagrams.
Proof. repeat constructor; cbn; lia. Qed.

Lemma dirty_batch_ok : batch_ok 2 dirty_batch.
Proof. unfold batch_ok, dirty_batch. cbn [rb_buffers rb_addresses rb_lengths]. rewrite !length_replicate. split_and!; try done. apply Forall_replicate, length_replicate. Qed.

Lemma datagrams_intact_witness :
  let k := (send_mmsg true sample_datagrams ([], [])).2 in
  exists b k', recv_datagram_batch true dirty_batch k = (Some (Ok sample_datagrams), b, k').
Proof.
  destruct (datagrams_intact true sample_datagrams 2 dirty_batch (send_mmsg true sample_datagrams ([], [])).2
              sample_datagrams_ok dirty_batch_ok) as [_ H].
  destruct (H (map (message_to true) sample_datagrams, [])) as (b & E & _); [|by exists b, (map (message_to true) sample_datagrams, [])].
  vm_compute. reflexivity.
Defined.
