(* ===== verification/Bind.v ===== *)
(** * Binding the datagram sockets

    How [TokioDatagramProvider] of [vela-core/src/lib.rs] gets its two sockets: the
    interface of the default route ([default_route], [default_route_interface]), the
    calls that make one socket ([bind_udp_socket]), the pair ([bind_socket_pair]), the
    ports that are tried ([bind]), and the host candidates that follow from the
    interfaces ([host_candidates], [local_candidates]).  The system is the class
    [System]; the open descriptors are part of the state, and a socket that goes out of
    scope is closed, which Rust does silently and the model does in [guarded]. *)
From S2P Require Import Prelude Net Socket.

(** A route as [route_manager] lists it *)
Record Route : Type := mkRoute {
  rt_is_ipv4 : bool;
  rt_prefix : Z;
  rt_table : Z;
  rt_metric : option Z;
  rt_if_name : option bytes;
  rt_if_index : option Z
}.

Record DefaultRouteInterface : Type := mkInterface {
  dr_name : bytes;
  dr_index : option Z
}.

(** An address of an interface, with what [if_addrs] says of it *)
Record IfAddr : Type := mkIfAddr {
  ia_name : bytes;
  ia_ip : IpAddr;
  ia_loopback : bool;
  ia_link_local : bool
}.

Inductive BindError : Type :=
| DatagramBind (family : AddressFamily) (port : Z) (source : IoError)
| Bind_Io (e : IoError).

(** The calls on a socket *)
Inductive SysCall : Type :=
| SysSocket (family : AddressFamily)
| SysSetOption (fd level option value : Z)
| SysOnlyV6 (fd : Z)
| SysBindIndex (fd index : Z)
| SysBindName (fd : Z) (name : bytes)
| SysRecvBuffer (fd size : Z)
| SysSendBuffer (fd size : Z)
| SysNonblocking (fd : Z)
| SysBind (fd : Z) (address : SocketAddr)
| SysRegister (fd : Z)
| SysLocalAddr (fd : Z).

(** The socket options of Linux *)
Definition IPPROTO_IP : Z := 0.
Definition IP_MTU_DISCOVER : Z := 10.
Definition IP_PMTUDISC_DO : Z := 2.
Definition IPPROTO_IPV6 : Z := 41.
Definition IPV6_MTU_DISCOVER : Z := 23.
Definition IPV6_PMTUDISC_DO : Z := 2.

(** Whether a call succeeds, and the number it gives (the port of [SysLocalAddr]) *)
Class System (W : Type) : Type := {
  sys_call : SysCall -> W -> result Z IoError * W;
  sys_routes : W -> result (list Route) IoError * W;
  sys_if_addrs : W -> result (list IfAddr) IoError * W
}.

(** ** The default route *)

Fixpoint insert_by {A} (key : A -> Z) (x : A) (l : list A) : list A :=
  match l with
  | [] => [x]
  | y :: l' => if key x <=? key y then x :: l else y :: insert_by key x l'
  end.
(** [sort_by_key], which is stable *)
Definition sort_by {A} (key : A -> Z) (l : list A) : list A := foldr (insert_by key) [] l.

Definition metric_of (r : Route) : Z := default U32_MAX (rt_metric r).
Definition is_default (ipv4 : bool) (r : Route) : bool :=
  (rt_prefix r =? 0) && eqb (rt_is_ipv4 r) ipv4 && (rt_table r =? 254).

Definition default_route (routes : list Route) (ipv4 : bool) : option Route :=
  head (sort_by metric_of (List.filter (is_default ipv4) routes)).

Definition route_interface (r : option Route) : option DefaultRouteInterface :=
  r ≫= (fun r => (fun name => mkInterface name (rt_if_index r ≫= (fun i => if i =? 0 then None else Some i)))
                   <$> rt_if_name r).

Section bind.
Context {W : Type} {Sy : System W}.

Definition default_route_interface (ipv4 : bool) (w : W) : result (option DefaultRouteInterface) IoError * W :=
  match sys_routes w with
  | (Err e, w) => (Err e, w)
  | (Ok routes, w) => (Ok (route_interface (default_route routes ipv4)), w)
  end.

(** ** The calls of one socket *)

(** The process: the system, its open descriptors, and [selected_interfaces] *)
Record Process : Type := mkProcess {
  pr_world : W;
  pr_open : gset Z;
  pr_interfaces : list (AddressFamily * DefaultRouteInterface)
}.

Abbreviation P E A := (handler Process E A).

Definition set_world (w : W) (p : Process) : Process := mkProcess w (pr_open p) (pr_interfaces p).
Definition set_open (o : gset Z) (p : Process) : Process := mkProcess (pr_world p) o (pr_interfaces p).
Definition set_interfaces (l : list (AddressFamily * DefaultRouteInterface)) (p : Process) : Process :=
  mkProcess (pr_world p) (pr_open p) l.

Definition call {E} (wrap : IoError -> E) (c : SysCall) : P E Z := fun p =>
  let '(r, w) := sys_call c (pr_world p) in (rmap_err wrap r, set_world w p).

(** [Socket::new]: a descriptor that is not in use *)
Definition new_socket {E} (wrap : IoError -> E) (family : AddressFamily) : P E Z :=
  let! _ := call wrap (SysSocket family) in
  fun p => let fd := fresh (pr_open p) in (Ok fd, set_open ({[fd]} ∪ pr_open p) p).

(** A socket whose owner returns with an error is closed. *)
Definition guarded {E A} (fd : Z) (m : P E A) : P E A := fun p =>
  match m p with
  | (Err e, p) => (Err e, set_open (pr_open p ∖ {[fd]}) p)
  | r => r
  end.

(** [bind_socket_to_interface] on Linux: by index, or by name without one *)
Definition bind_socket_to_interface {E} (wrap : IoError -> E) (fd : Z) (interface : DefaultRouteInterface) : P E Z :=
  match dr_index interface with
  | None => call wrap (SysBindName fd (dr_name interface))
  | Some index => call wrap (SysBindIndex fd index)
  end.

(** [set_udp_dont_fragment] on Linux: [IP_MTU_DISCOVER] and [IPV6_MTU_DISCOVER] are set to
    discover the path MTU. *)
Definition set_udp_dont_fragment {E} (wrap : IoError -> E) (fd : Z) (family : AddressFamily) : P E Z :=
  let '(level, option, value) :=
    match family with
    | Ipv4 => (IPPROTO_IP, IP_MTU_DISCOVER, IP_PMTUDISC_DO)
    | Ipv6 => (IPPROTO_IPV6, IPV6_MTU_DISCOVER, IPV6_PMTUDISC_DO)
    end in
  call wrap (SysSetOption fd level option value).

Definition bind_udp_socket (family : AddressFamily) (port : Z) (interface : option DefaultRouteInterface)
    : P BindError Z :=
  let err := DatagramBind family port in
  let! fd := new_socket err family in
  guarded fd (
    let! _ := set_udp_dont_fragment err fd family in
    let! _ := (match family with Ipv6 => call err (SysOnlyV6 fd) | Ipv4 => hret 0 end) in
    let! _ := (match interface with Some i => bind_socket_to_interface err fd i | None => hret 0 end) in
    let! _ := call err (SysRecvBuffer fd (4 * 1024 * 1024)) in
    let! _ := call err (SysSendBuffer fd (4 * 1024 * 1024)) in
    let! _ := call err (SysNonblocking fd) in
    let! _ := call err (SysBind fd (match family with Ipv4 => SockV4 0 port | Ipv6 => SockV6 0 port 0 0 end)) in
    let! _ := call Bind_Io (SysRegister fd) in
    hret fd).

Definition bind_socket_pair (ports : Z * Z)
    (interfaces : option DefaultRouteInterface * option DefaultRouteInterface) : P BindError (Z * Z) :=
  let! fd4 := bind_udp_socket Ipv4 ports.1 interfaces.1 in
  guarded fd4 (let! fd6 := bind_udp_socket Ipv6 ports.2 interfaces.2 in hret (fd4, fd6)).

(** ** The provider *)

(** A failure to read the routes leaves the socket unpinned. *)
Definition find_interface (ipv4 : bool) : P BindError (option DefaultRouteInterface) := fun p =>
  let '(r, w) := default_route_interface ipv4 (pr_world p) in
  (Ok (match r with Ok i => i | Err _ => None end), set_world w p).

(** The ports to try, one pair after the other *)
Definition bind_attempts (port : Z) (preferred : option (option Z * option Z)) : list (Z * Z) :=
  if negb (port =? 0) then [(port, port)]
  else
    match preferred with
    | Some (p4, p6) =>
        let ports := (default 0 p4, default 0 p6) in
        if bool_decide (ports = (0, 0)) then [(0, 0)] else [ports; (0, 0)]
    | None => [(0, 0)]
    end.

Definition selected (interfaces : option DefaultRouteInterface * option DefaultRouteInterface)
    : list (AddressFamily * DefaultRouteInterface) :=
  option_list ((fun i => (Ipv4, i)) <$> interfaces.1) ++ option_list ((fun i => (Ipv6, i)) <$> interfaces.2).

(** A bound pair: its descriptors and its local addresses *)
Record BoundPair : Type := mkBound { bp_fds : Z * Z; bp_addrs : SocketAddr * SocketAddr }.

(** The loop over the attempts; [None] as an error would be the panic of [expect]. *)
Fixpoint try_attempts (port : Z) (interfaces : option DefaultRouteInterface * option DefaultRouteInterface)
    (attempts : list (Z * Z)) (last_error : option BindError) : P (option BindError) BoundPair :=
  match attempts with
  | [] => hfail last_error
  | ports :: attempts =>
      let! res := (htry (bind_socket_pair ports interfaces) : P (option BindError) _) in
      match res with
      | Ok (fd4, fd6) =>
          let io e := Some (Bind_Io e) in
          guarded fd4 (guarded fd6 (
            let! port4 := call io (SysLocalAddr fd4) in
            let! port6 := call io (SysLocalAddr fd6) in
            let! _ := hmodify (set_interfaces (selected interfaces)) in
            hret (mkBound (fd4, fd6) (SockV4 0 port4, SockV6 0 port6 0 0))))
      | Err e =>
          if negb (port =? 0) then hfail (Some e) else try_attempts port interfaces attempts (Some e)
      end
  end.

Definition provider_bind (host_candidates : list Candidate) (preferred : option (option Z * option Z)) (port : Z)
    : P (option BindError) BoundPair :=
  let find ipv4 : P (option BindError) _ :=
    if bool_decide (host_candidates = []) then
      let! res := (htry (find_interface ipv4) : P (option BindError) _) in
      hret (match res with Ok i => i | Err _ => None end)
    else hret None in
  let! i4 := find true in
  let! i6 := find false in
  try_attempts port (i4, i6) (bind_attempts port preferred) None.

(** ** Candidates *)

(** [host_candidates] over the addresses of the interfaces *)
Definition host_candidate (local_addrs : list SocketAddr) (interfaces : list (AddressFamily * bytes)) (i : IfAddr)
    : option Candidate :=
  let family := match ia_ip i with V4 _ => Ipv4 | V6 _ => Ipv6 end in
  match List.find (fun a => bool_decide (family_of a = family)) local_addrs with
  | None => None
  | Some a =>
      if negb (existsb (fun s => bool_decide (s = (family, ia_name i))) interfaces) then None
      else if ia_loopback i || ia_link_local i then None
      else Some (Host (match ia_ip i with V4 ip => SockV4 ip (sock_port a) | V6 ip => SockV6 ip (sock_port a) 0 0 end))
  end.

Definition host_candidates (local_addrs : list SocketAddr) (interfaces : list (AddressFamily * bytes)) (w : W)
    : list Candidate * W :=
  match sys_if_addrs w with
  | (Err _, w) => ([], w)
  | (Ok l, w) =>
      (fold_left (fun acc i =>
         match host_candidate local_addrs interfaces i with
         | Some c => if bool_decide (c ∈ acc) then acc else acc ++ [c]
         | None => acc
         end) l [], w)
  end.

(** [VelaNode::local_candidates] with this provider *)
Definition local_candidates (configured : list Candidate) (b : BoundPair) (p : Process) : list Candidate * Process :=
  match configured with
  | _ :: _ => (configured, p)
  | [] =>
      let '(l, w) := host_candidates [(bp_addrs b).1; (bp_addrs b).2]
                       (map (fun i => (i.1, dr_name i.2)) (pr_interfaces p)) (pr_world p) in
      (l, set_world w p)
  end.

(** ** No descriptor is lost *)

(** A step that starts with [o] open ends with [post] open, or with [oe] after an error. *)
Definition opens {E A} (o oe : gset Z) (m : P E A) (post : A -> gset Z -> Prop) : Prop :=
  forall p, pr_open p = o ->
  match m p with (Ok a, p') => post a (pr_open p') | (Err _, p') => pr_open p' = oe end.

Lemma opens_call {E} (wrap : IoError -> E) c o : opens o o (call wrap c) (fun _ o' => o' = o).
Proof. intros p Hp. unfold call. by destruct (sys_call c (pr_world p)) as [[z|e] w]. Qed.

Lemma opens_ret {E A} (a : A) o oe : opens o oe (hret a : P E A) (fun a' o' => a' = a /\ o' = o).
Proof. by intros p Hp. Qed.

Lemma opens_bind {E A B} (m : P E A) (k : A -> P E B) o oe post post' :
  opens o oe m post -> (forall a o', post a o' -> opens o' oe (k a) post') -> opens o oe (hbind m k) post'.
Proof.
  intros Hm Hk p Hp. unfold hbind. specialize (Hm p Hp). destruct (m p) as [[a|e] p1]; [|done]. by apply (Hk a (pr_open p1)).
Qed.

Lemma opens_closed {E A} fd (m : P E A) o oe post :
  opens o oe m post -> opens o (oe ∖ {[fd]}) (guarded fd m) post.
Proof. intros Hm p Hp. specialize (Hm p Hp). unfold guarded. destruct (m p) as [[a|e] p1]; [done|]. cbn. by rewrite Hm. Qed.

Lemma opens_guarded {E A} fd (m : P E A) o post :
  fd ∉ o -> opens ({[fd]} ∪ o) ({[fd]} ∪ o) m post -> opens ({[fd]} ∪ o) o (guarded fd m) post.
Proof. intros Hfd Hm. replace o with (({[fd]} ∪ o) ∖ {[fd]}) at 2 by set_solver. by apply opens_closed. Qed.

Lemma opens_weaken {E A} (m : P E A) o oe (post post' : A -> gset Z -> Prop) :
  opens o oe m post -> (forall a o', post a o' -> post' a o') -> opens o oe m post'.
Proof. intros Hm Hp p Ho. specialize (Hm p Ho). destruct (m p) as [[a|e] p']; auto. Qed.

(** A sequence of calls that ends with a value *)
Lemma opens_then {E A} (wrap : IoError -> E) c (k : P E A) o post :
  opens o o k post -> opens o o (let! _ := call wrap c in k) post.
Proof. intros Hk. eapply opens_bind; [apply opens_call|]. by intros z o' ->. Qed.

Definition one_new (o : gset Z) (fd : Z) (o' : gset Z) : Prop := fd ∉ o /\ o' = {[fd]} ∪ o.

Lemma opens_udp_socket family port interface o :
  opens o o (bind_udp_socket family port interface) (one_new o).
Proof.
  unfold bind_udp_socket, new_socket. cbn zeta. eapply opens_bind with (post := one_new o).
  { apply opens_then. intros p <-. split; [apply is_fresh|done]. }
  intros fd o' [Hfd ->]. apply opens_guarded; [done|].
  eapply opens_bind with (post := fun _ o' => o' = {[fd]} ∪ o).
  { unfold set_udp_dont_fragment. destruct family; apply opens_call. }
  intros _ o' ->. eapply opens_bind with (post := fun _ o' => o' = {[fd]} ∪ o).
  { destruct family; [by intros p Hp|apply opens_call]. }
  intros _ o' ->. eapply opens_bind with (post := fun _ o' => o' = {[fd]} ∪ o).
  { destruct interface as [i|]; [|by intros p Hp]. unfold bind_socket_to_interface. destruct (dr_index i); apply opens_call. }
  intros _ o' ->. do 5 apply opens_then. eapply opens_weaken; [apply opens_ret|]. by intros a o' [-> ->].
Qed.

Definition two_new (o : gset Z) (fds : Z * Z) (o' : gset Z) : Prop :=
  fds.1 ∉ o /\ fds.2 ∉ o /\ fds.1 <> fds.2 /\ o' = {[fds.1; fds.2]} ∪ o.

Lemma opens_pair ports interfaces o : opens o o (bind_socket_pair ports interfaces) (two_new o).
Proof.
  unfold bind_socket_pair. eapply opens_bind; [apply opens_udp_socket|]. intros fd4 o' [H4 ->].
  apply opens_guarded; [done|]. eapply opens_bind; [apply opens_udp_socket|]. intros fd6 o' [H6 ->].
  eapply opens_weaken; [apply opens_ret|]. intros fds o' [-> ->]. unfold two_new. cbn [fst snd]. set_solver.
Qed.

Definition bound_new (o : gset Z) (b : BoundPair) (o' : gset Z) : Prop := two_new o (bp_fds b) o'.

Lemma opens_named fd4 fd6 (interfaces : option DefaultRouteInterface * option DefaultRouteInterface) o :
  two_new o (fd4, fd6) ({[fd4; fd6]} ∪ o) ->
  opens ({[fd4; fd6]} ∪ o) o
    (guarded fd4 (guarded fd6 (
      let! port4 := call (fun e => Some (Bind_Io e)) (SysLocalAddr fd4) in
      let! port6 := call (fun e => Some (Bind_Io e)) (SysLocalAddr fd6) in
      let! _ := hmodify (set_interfaces (selected interfaces)) in
      hret (mkBound (fd4, fd6) (SockV4 0 port4, SockV6 0 port6 0 0))))) (bound_new o).
Proof.
  intros Hnew. pose proof Hnew as (H4 & H6 & Hne & _). cbn [fst snd] in *.
  replace o with ((({[fd4; fd6]} ∪ o) ∖ {[fd6]}) ∖ {[fd4]}) at 2 by set_solver. do 2 apply opens_closed.
  eapply opens_bind; [apply opens_call|]. intros port4 o' ->. eapply opens_bind; [apply opens_call|]. intros port6 o' ->.
  intros p Hp. cbn. unfold bound_new. cbn [bp_fds]. by rewrite Hp.
Qed.

Lemma opens_attempts port interfaces attempts e o :
  opens o o (try_attempts port interfaces attempts e) (bound_new o).
Proof.
  revert e; induction attempts as [|ports attempts IH]; intros e; cbn [try_attempts]; [by intros p Hp|].
  intros p Hp. unfold hbind at 1, htry. pose proof (opens_pair ports interfaces o p Hp) as Hpair.
  destruct (bind_socket_pair ports interfaces p) as [[[fd4 fd6]|e'] p1].
  - pose proof Hpair as (_ & _ & _ & Ho). cbn [fst snd] in Ho. rewrite Ho in Hpair. by apply (opens_named fd4 fd6 interfaces o Hpair).
  - destruct (negb (port =? 0)); [done|]. by apply IH.
Qed.

Lemma opens_find candidates ipv4 o :
  opens o o (if bool_decide (candidates = [] :> list Candidate) then
      let! res := (htry (find_interface ipv4) : P (option BindError) _) in
      hret (match res with Ok i => i | Err _ => None end)
    else hret None) (fun _ o' => o' = o).
Proof.
  intros p Hp. destruct (bool_decide _); [|done]. unfold hbind, htry, find_interface.
  by destruct (default_route_interface ipv4 (pr_world p)) as [[i|e] w].
Qed.

(** The attempts are never empty, so [expect] does not panic. *)
Lemma attempts_error port interfaces attempts e p e' p' :
  try_attempts port interfaces attempts e p = (Err e', p') -> attempts <> [] \/ is_Some e -> is_Some e'.
Proof.
  revert e p; induction attempts as [|ports attempts IH]; intros e p E Hs; cbn [try_attempts] in E.
  - injection E as <- <-. by destruct Hs.
  - unfold hbind at 1, htry in E. destruct (bind_socket_pair ports interfaces p) as [[[fd4 fd6]|e1] p1].
    + unfold guarded, hbind, call in E. cbn [pr_world set_world] in E.
      destruct (sys_call (SysLocalAddr fd4) (pr_world p1)) as [[port4|e4] w4]; cbn in E; [|by injection E as <- _].
      destruct (sys_call (SysLocalAddr fd6) w4) as [[port6|e6] w6]; cbn in E; [done|by injection E as <- _].
    + destruct (negb (port =? 0)); [by injection E as <- _|]. eapply IH; [exact E|by right].
Qed.

Lemma bind_attempts_some port preferred : bind_attempts port preferred <> [].
Proof. unfold bind_attempts. destruct (negb _); [done|]. destruct preferred as [[p4 p6]|]; [|done]. cbn zeta. by destruct (bool_decide _). Qed.

(** The descriptors after a bind *)
Lemma bind_sockets candidates preferred port (p p' : Process) r :
  provider_bind candidates preferred port p = (r, p') ->
  match r with
  | Ok b => two_new (pr_open p) (bp_fds b) (pr_open p')
  | Err e => pr_open p' = pr_open p /\ is_Some e
  end.
Proof.
  intros E. assert (Ho : opens (pr_open p) (pr_open p) (provider_bind candidates preferred port) (bound_new (pr_open p))).
  { unfold provider_bind. cbn zeta. eapply opens_bind; [apply opens_find|]. intros i4 o ->.
    eapply opens_bind; [apply opens_find|]. intros i6 o ->. apply opens_attempts. }
  specialize (Ho p eq_refl). rewrite E in Ho. destruct r as [b|e]; [done|]. split; [done|].
  unfold provider_bind in E. cbn zeta in E.
  assert (Hf : forall ipv4 p e p1, (if bool_decide (candidates = []) then
      let! res := (htry (find_interface ipv4) : P (option BindError) _) in
      hret (match res with Ok i => i | Err _ => None end) else hret None) p <> (Err e, p1)).
  { intros ipv4 q e' q1. destruct (bool_decide _); [|done]. unfold hbind, htry. by destruct (find_interface ipv4 q). }
  unfold hbind at 1 in E. destruct (_ p) as [[i4|e4] p1] eqn:E4 in E; [|by apply Hf in E4].
  unfold hbind at 1 in E. destruct (_ p1) as [[i6|e6] p2] eqn:E6 in E; [|by apply Hf in E6].
  eapply attempts_error; [exact E|]. left. apply bind_attempts_some.
Qed.

(** binding leaves exactly what it should: after success two new sockets are open,
    one for each family, and after any failure, of whichever call, none that was not
    open before; and it never panics. *)
Theorem bind_owns_sockets candidates preferred port (p p' : Process) r :
  provider_bind candidates preferred port p = (r, p') ->
  match r with
  | Ok b => two_new (pr_open p) (bp_fds b) (pr_open p')
  | Err e => pr_open p' = pr_open p /\ is_Some e
  end.
Proof. apply bind_sockets. Qed.

(** ** The ports that are tried *)

(** An attempt fails because its pair cannot be bound or named. *)
Definition attempt_fails (ports : Z * Z) (e : BindError) : Prop :=
  exists interfaces p p', bind_socket_pair ports interfaces p = (Err e, p')
    \/ (exists fds, bind_socket_pair ports interfaces p = (Ok fds, p')) /\ exists io, e = Bind_Io io.

Lemma attempts_fail port interfaces attempts e p e' p' :
  try_attempts port interfaces attempts e p = (Err (Some e'), p') -> attempts <> [] ->
  (exists ports, ports ∈ attempts /\ attempt_fails ports e')
  /\ (port = 0 -> (exists io, e' = Bind_Io io) \/ exists ports, last attempts = Some ports /\ attempt_fails ports e').
Proof.
  revert e p; induction attempts as [|ports attempts IH]; intros e p E Hne; [done|]. cbn [try_attempts] in E.
  unfold hbind at 1, htry in E. destruct (bind_socket_pair ports interfaces p) as [[[fd4 fd6]|e1] p1] eqn:Ep.
  - assert (Hio : exists io, e' = Bind_Io io).
    { unfold guarded, hbind, call in E. cbn [pr_world set_world] in E.
      destruct (sys_call (SysLocalAddr fd4) (pr_world p1)) as [[port4|e4] w4]; cbn in E; [|injection E as <- _; eauto].
      destruct (sys_call (SysLocalAddr fd6) w4) as [[port6|e6] w6]; cbn in E; [done|injection E as <- _; eauto]. }
    split; [|by left]. exists ports. split; [left|]. exists interfaces, p, p1. right. split; [by eexists|done].
  - assert (Hf : attempt_fails ports e1) by (exists interfaces, p, p1; by left).
    destruct (Z.eqb_spec port 0) as [->|Hp]; cbn [negb] in E.
    + destruct attempts as [|ports' attempts].
      * injection E as <- _. split; [exists ports; split; [left|done]|]. intros _. right. by exists ports.
      * apply IH in E as [(q & Hq & Hf') Hl]; [|done]. split; [exists q; split; [by right|done]|]. intros H. by apply Hl.
    + injection E as <- _. split; [exists ports; split; [left|done]|done].
Qed.

(** The error that is reported is that of an attempt, and without a configured port of
    the last one: both ports chosen by the system. *)
Lemma fresh_ports_tried port preferred :
  (port <> 0 -> bind_attempts port preferred = [(port, port)])
  /\ (port = 0 -> last (bind_attempts port preferred) = Some (0, 0)
        /\ forall ports, ports ∈ bind_attempts port preferred ->
             ports = (0, 0) \/ exists p4 p6, preferred = Some (p4, p6) /\ ports = (default 0 p4, default 0 p6)).
Proof.
  unfold bind_attempts. split.
  - intros Hp. by destruct (Z.eqb_spec port 0).
  - intros ->. cbn [Z.eqb negb]. destruct preferred as [[p4 p6]|]; [|by split; [|set_solver]]. cbn zeta.
    destruct (bool_decide _); [by split; [|set_solver]|]. split; [done|]. intros ports. rewrite !elem_of_cons, elem_of_nil.
    intros [->|[->|[]]]; eauto.
Qed.

(** ** The candidates of the host *)

Lemma host_candidate_Some local_addrs interfaces i c :
  host_candidate local_addrs interfaces i = Some c <->
  exists family a, family = (match ia_ip i with V4 _ => Ipv4 | V6 _ => Ipv6 end)
    /\ List.find (fun a => bool_decide (family_of a = family)) local_addrs = Some a
    /\ (family, ia_name i) ∈ interfaces /\ ia_loopback i = false /\ ia_link_local i = false
    /\ c = Host (match ia_ip i with V4 ip => SockV4 ip (sock_port a) | V6 ip => SockV6 ip (sock_port a) 0 0 end).
Proof.
  unfold host_candidate. cbn zeta. set (family := match ia_ip i with V4 _ => Ipv4 | V6 _ => Ipv6 end).
  destruct (List.find _ local_addrs) as [a|] eqn:Ea; [|split; [done|intros (f & a & -> & Ha & _); fold family in Ha; congruence]].
  assert (Hin : existsb (fun s => bool_decide (s = (family, ia_name i))) interfaces = true <-> (family, ia_name i) ∈ interfaces).
  { rewrite existsb_exists. setoid_rewrite bool_decide_eq_true. split; [intros (x & Hx & ->); by apply list_elem_of_In|].
    intros Hx. exists (family, ia_name i). split; [by apply list_elem_of_In|done]. }
  destruct (existsb _ interfaces); cbn [negb].
  - destruct (ia_loopback i) eqn:El, (ia_link_local i) eqn:Ell; cbn [orb]; split; try done;
      try (intros (f & a' & _ & _ & _ & ? & ? & _); congruence).
    + intros [= <-]. exists family, a. split_and!; try done. by apply Hin.
    + intros (f & a' & -> & Ha & _ & _ & _ & ->). fold family in Ha. by simplify_eq.
  - split; [done|]. intros (f & a' & -> & _ & Hf & _). by apply Hin in Hf.
Qed.

Lemma collect_candidates_spec (f : IfAddr -> option Candidate) l acc :
  NoDup acc ->
  let r := fold_left (fun acc i => match f i with
             | Some c => if bool_decide (c ∈ acc) then acc else acc ++ [c] | None => acc end) l acc in
  NoDup r /\ forall c, c ∈ r <-> c ∈ acc \/ exists i, i ∈ l /\ f i = Some c.
Proof.
  revert acc; induction l as [|i l IH]; intros acc Hacc; cbn zeta; cbn [fold_left].
  { split; [done|]. set_solver. }
  destruct (f i) as [c|] eqn:Ef; [destruct (decide (c ∈ acc)) as [Hc|Hc]|].
  - rewrite bool_decide_true by done. destruct (IH acc Hacc) as [Hn Hr]. split; [done|]. intros x. rewrite Hr. set_solver.
  - rewrite bool_decide_false by done. destruct (IH (acc ++ [c])) as [Hn Hr].
    { apply NoDup_app. split_and!; [done|set_solver|apply NoDup_singleton]. }
    split; [done|]. intros x. rewrite Hr, elem_of_app, list_elem_of_singleton. set_solver.
  - destruct (IH acc Hacc) as [Hn Hr]. split; [done|]. intros x. rewrite Hr. set_solver.
Qed.

(** the host candidates of a node are exactly the addresses, each once and with the
    port of the socket of its family, of the interfaces that socket is pinned to, apart
    from loopback and link-local ones; with configured candidates they are those. *)
Theorem local_candidates_exact configured b (p : Process) l w :
  sys_if_addrs (pr_world p) = (Ok l, w) ->
  let cs := (local_candidates configured b p).1 in
  (configured <> [] -> cs = configured)
  /\ (configured = [] -> NoDup cs /\ forall c, c ∈ cs <->
        exists i name, i ∈ l /\ ia_name i = name /\ ia_loopback i = false /\ ia_link_local i = false
          /\ match ia_ip i with
             | V4 ip => (exists d, (Ipv4, d) ∈ pr_interfaces p /\ dr_name d = name)
                 /\ exists a, List.find sock_is_ipv4 [(bp_addrs b).1; (bp_addrs b).2] = Some a /\ c = Host (SockV4 ip (sock_port a))
             | V6 ip => (exists d, (Ipv6, d) ∈ pr_interfaces p /\ dr_name d = name)
                 /\ exists a, List.find (fun a => negb (sock_is_ipv4 a)) [(bp_addrs b).1; (bp_addrs b).2] = Some a
                      /\ c = Host (SockV6 ip (sock_port a) 0 0)
             end).
Proof.
  intros El. cbn zeta. unfold local_candidates. destruct configured as [|c0 cs0]; [|split; [done|done]].
  split; [done|]. intros _. unfold host_candidates. rewrite El. cbn [fst].
  set (addrs := [(bp_addrs b).1; (bp_addrs b).2]). set (ifs := map _ (pr_interfaces p)).
  assert (Hif : forall family name, (family, name) ∈ ifs <-> exists d, (family, d) ∈ pr_interfaces p /\ dr_name d = name).
  { intros family name. unfold ifs. rewrite list_elem_of_fmap. split.
    - intros ([f d] & [= -> ->] & Hd). by exists d.
    - intros (d & Hd & <-). by exists (family, d). }
  assert (H4 : forall l, List.find (fun a => bool_decide (family_of a = Ipv4)) l = List.find sock_is_ipv4 l).
  { induction l0 as [|[] l0 IH]; cbn; by rewrite ?IH. }
  assert (H6 : forall l, List.find (fun a => bool_decide (family_of a = Ipv6)) l = List.find (fun a => negb (sock_is_ipv4 a)) l).
  { induction l0 as [|[] l0 IH]; cbn; by rewrite ?IH. }
  destruct (collect_candidates_spec (host_candidate addrs ifs) l [] NoDup_nil_2) as [Hn Hr]. split; [done|].
  intros c. rewrite Hr. setoid_rewrite host_candidate_Some. split.
  - intros [[]%elem_of_nil|(i & Hi & f & a & -> & Ha & Hin & Hlo & Hll & ->)]. exists i, (ia_name i). split_and!; try done.
    apply Hif in Hin. destruct (ia_ip i) as [ip|ip]; (split; [done|]); exists a; split; rewrite ?H4, ?H6 in Ha; done.
  - intros (i & name & Hi & <- & Hlo & Hll & Hc). right. exists i. split; [done|].
    destruct (ia_ip i) as [ip|ip] eqn:Eip; destruct Hc as (Hd & a & Ha & ->); apply Hif in Hd.
    + exists Ipv4, a. by rewrite H4.
    + exists Ipv6, a. by rewrite H6.
Qed.
End bind.

(** ** The default route *)

Lemma head_sort_by {A} (key : A -> Z) (l : list A) r :
  head (sort_by key l) = Some r <->
  exists l1 l2, l = l1 ++ r :: l2 /\ Forall (fun x => key r < key x) l1 /\ Forall (fun x => key r <= key x) l2.
Proof.
  assert (Hi : forall x s, head (insert_by key x s) =
    Some (match head s with Some y => if key x <=? key y then x else y | None => x end)).
  { intros x [|y s]; cbn; [done|]. by destruct (_ <=? _). }
  revert r; induction l as [|x l IH]; intros r; [split; [done|intros ([|] & l2 & E & _); done]|].
  change (sort_by key (x :: l)) with (insert_by key x (sort_by key l)). rewrite Hi.
  destruct (head (sort_by key l)) as [y|] eqn:Ey.
  - pose proof (proj1 (IH y) eq_refl) as (k1 & k2 & -> & H1 & H2). destruct (Z.leb_spec (key x) (key y)) as [Hle|Hlt].
    + assert (Hall : Forall (fun z => key x <= key z) (k1 ++ y :: k2)).
      { apply Forall_app. split; [eapply Forall_impl; [exact H1|]; cbn; lia|].
        constructor; [done|]. eapply Forall_impl; [exact H2|]. cbn. lia. }
      split; [intros [= <-]; exists [], (k1 ++ y :: k2); split_and!; [done|constructor|done]|].
      intros ([|z l1] & l2 & [= -> E] & Hl1 & Hl2); [done|]. apply Forall_cons in Hl1 as [Hr Hl1].
      rewrite E in Hall. apply Forall_app in Hall as [_ Hall]. apply Forall_cons in Hall as [Hall _]. lia.
    + split.
      * intros [= <-]. exists (x :: k1), k2. split_and!; [done|by constructor|done].
      * intros ([|z l1] & l2 & [= -> E] & Hl1 & Hl2).
        -- subst l2. apply Forall_app in Hl2 as [_ Hl2]. apply Forall_cons in Hl2 as [Hl2 _]. lia.
        -- apply Forall_cons in Hl1 as [Hr Hl1]. apply IH. by exists l1, l2.
  - assert (l = []) as ->.
    { destruct l as [|z l]; [done|]. change (sort_by key (z :: l)) with (insert_by key z (sort_by key l)) in Ey. by rewrite Hi in Ey. }
    split; [intros [= <-]; exists [], []; split_and!; [done|constructor..]|].
    intros ([|z l1] & l2 & [= -> E] & _); [done|by destruct l1].
Qed.

(** The default route is the first one of smallest metric among those of the main table
    that match everything; a route without metric counts as the largest. *)
Lemma default_route_least routes ipv4 r :
  default_route routes ipv4 = Some r <->
  exists l1 l2, List.filter (is_default ipv4) routes = l1 ++ r :: l2
    /\ Forall (fun x => metric_of r < metric_of x) l1 /\ Forall (fun x => metric_of r <= metric_of x) l2.
Proof. apply head_sort_by. Qed.

(** ** A sample host

    Port 4000 is taken for IPv6; the routes prefer [eth0] over [wlan0]. *)
Definition sample_if_addrs : list IfAddr :=
  [mkIfAddr (str "lo") (V4 0x7f000001) true false; mkIfAddr (str "eth0") (V4 0x0a000005) false false;
   mkIfAddr (str "wlan0") (V4 0x0a000105) false false; mkIfAddr (str "eth0") (V6 0xfe80) false true;
   mkIfAddr (str "eth0") (V4 0x0a000005) false false].

#[export] Instance sample_system : System unit := {|
  sys_call c w :=
    (match c with
     | SysBind _ (SockV6 _ 4000 _ _) => Err (OsError [98])
     | SysLocalAddr fd => Ok (40000 + fd)
     | _ => Ok 0
     end, w);
  sys_routes w :=
    (Ok [mkRoute true 0 52 (Some 1) (Some (str "tun0")) (Some 9); mkRoute true 0 254 None (Some (str "wlan0")) (Some 3);
         mkRoute true 0 254 (Some 100) (Some (str "eth0")) (Some 2); mkRoute true 24 254 None (Some (str "eth0")) (Some 2)], w);
  sys_if_addrs w := (Ok sample_if_addrs, w)
|}.

Definition sample_process : Process := mkProcess tt {[0; 1; 2]} [].
Definition sample_bound : result BoundPair (option BindError) * Process :=
  provider_bind [] (Some (Some 4000, Some 4000)) 0 sample_process.

Lemma bind_owns_sockets_witness :
  is_ok sample_bound.1 = true /\ (forall b, sample_bound.1 = Ok b -> two_new {[0; 1; 2]} (bp_fds b) (pr_open sample_bound.2)).
Proof.
  split; [vm_compute; reflexivity|]. intros b Hb.
  pose proof (bind_owns_sockets [] (Some (Some 4000, Some 4000)) 0 sample_process sample_bound.2 sample_bound.1) as H.
  rewrite Hb in H. apply H. rewrite <- Hb. unfold sample_bound. by destruct (provider_bind _ _ _ _).
Defined.

Lemma local_candidates_exact_witness :
  let b := mkBound (3, 4) (SockV4 0 40003, SockV6 0 40004 0 0) in
  (local_candidates [] b sample_bound.2).1 = [Host (SockV4 0x0a000005 40003)]
  /\ NoDup (local_candidates [] b sample_bound.2).1.
Proof.
  cbn zeta. split; [vm_compute; reflexivity|].
  apply (local_candidates_exact [] (mkBound (3, 4) (SockV4 0 40003, SockV6 0 40004 0 0)) sample_bound.2 sample_if_addrs tt); [done|done].
Defined.
