(* ===== verification/AddrText.v ===== *)
(** * The text form of addresses

    [Display] and [FromStr] of [Ipv6Addr] and [SocketAddr] in [core::net], in
    which serde writes the addresses of the state file and of the control
    protocol: the longest run of zero groups is written [::], a mapped IPv4
    address in its dotted form, and a socket address [ip:port], or
    [[ip%scope]:port] for IPv6.  What is written is read back, but for the flow
    label of an IPv6 socket address, which has no text. *)
From S2P Require Import Prelude Net Text.

(** ** Numbers in a radix *)

Definition digit_char (d : Z) : Z := if d <? 10 then 48 + d else 87 + d.

(** The digits of a number below [radix ^ fuel], the first one first *)
Fixpoint radix_digits (fuel : nat) (radix n : Z) : list Z :=
  match fuel with
  | O => []
  | S fuel' => if n <? radix then [n] else radix_digits fuel' radix (n / radix) ++ [n mod radix]
  end.

(** [{:x}] of a [u16] and [{}] of a [u32] *)
Definition show_hex (n : Z) : bytes := map digit_char (radix_digits 4 16 n).
Definition show_u32 (n : Z) : bytes := map digit_char (radix_digits 10 10 n).

(** ** Addresses *)

(** [Ipv6Addr::segments] *)
Definition segments (a : Z) : list Z :=
  map (fun i => a / 2 ^ (112 - 16 * Z.of_nat i) mod 2 ^ 16) (seq 0 8).

(** A run of zero groups; the longest one, the first of that length *)
Record Span : Type := mkSpan { span_start : nat; span_len : nat }.

Fixpoint longest_zeroes (segs : list Z) (i : nat) (current longest : Span) : Span :=
  match segs with
  | [] => longest
  | s :: segs' =>
      if s =? 0 then
        let current :=
          mkSpan (if (span_len current =? 0)%nat then i else span_start current)
            (S (span_len current)) in
        longest_zeroes segs' (S i) current
          (if (span_len longest <? span_len current)%nat then current else longest)
      else longest_zeroes segs' (S i) (mkSpan 0 0) longest
  end.

(** [fmt_subslice] *)
Fixpoint fmt_groups (segs : list Z) : bytes :=
  match segs with
  | [] => []
  | [s] => show_hex s
  | s :: segs' => show_hex s ++ [58] ++ fmt_groups segs'
  end.

(** [to_ipv4_mapped] *)
Definition to_ipv4_mapped (a : Z) : option Z :=
  if a / 2 ^ 32 =? 65535 then Some (a mod 2 ^ 32) else None.

Definition show_ipv6 (a : Z) : bytes :=
  match to_ipv4_mapped a with
  | Some v4 => str "::ffff:" ++ show_ipv4 v4
  | None =>
      let segs := segments a in
      let zeroes := longest_zeroes segs 0 (mkSpan 0 0) (mkSpan 0 0) in
      if (1 <? span_len zeroes)%nat
      then fmt_groups (take (span_start zeroes) segs) ++ [58; 58]
           ++ fmt_groups (drop (span_start zeroes + span_len zeroes) segs)
      else fmt_groups segs
  end.

Definition show_socket_addr (a : SocketAddr) : bytes :=
  match a with
  | SockV4 ip port => show_ipv4 ip ++ [58] ++ show_u32 port
  | SockV6 ip port _ scope =>
      [91] ++ show_ipv6 ip ++ (if scope =? 0 then [] else [37] ++ show_u32 scope)
      ++ [93; 58] ++ show_u32 port
  end.

(** [read_port]: no bound on the number of digits *)
Definition read_port : reader Z := fun l =>
  match read_given_char 58 l with
  | Some (_, l) => read_number 10 (-1) U16_MAX true l
  | None => None
  end.

(** [read_scope_id], which the caller makes optional *)
Definition read_scope_id : reader Z := fun l =>
  match read_given_char 37 l with
  | Some (_, l') => 
      match read_number 10 (-1) U32_MAX true l' with
      | Some r => Some r
      | None => Some (0, l)
      end
  | None => Some (0, l)
  end.

Definition read_socket_addr_v4 : reader SocketAddr := fun l =>
  match read_ipv4_addr l with
  | Some (ip, l) =>
      match read_port l with Some (port, l) => Some (SockV4 ip port, l) | None => None end
  | None => None
  end.

Definition read_socket_addr_v6 : reader SocketAddr := fun l =>
  match read_given_char 91 l with
  | Some (_, l) =>
      match read_ipv6_addr l with
      | Some (ip, l) =>
          match read_scope_id l with
          | Some (scope, l) =>
              match read_given_char 93 l with
              | Some (_, l) =>
                  match read_port l with
                  | Some (port, l) => Some (SockV6 ip port 0 scope, l)
                  | None => None
                  end
              | None => None
              end
          | None => None
          end
      | None => None
      end
  | None => None
  end.

(** [SocketAddr::from_str] *)
Definition parse_socket_addr (l : bytes) : option SocketAddr :=
  parse_with (fun l => match read_socket_addr_v4 l with
                       | Some r => Some r
                       | None => read_socket_addr_v6 l
                       end) l.

(** ** Reading what was written *)

Definition digits_fold (radix acc : Z) (ds : list Z) : Z :=
  fold_left (fun acc d => acc * radix + d) ds acc.

(** What may follow a number: nothing that is a digit. *)
Definition stops (radix : Z) (rest : bytes) : Prop :=
  match rest with [] => True | c :: _ => to_digit radix c = None end.

Lemma to_digit_char radix d : 0 <= d < radix -> radix <= 16 -> to_digit radix (digit_char d) = Some d.
Proof.
  intros Hd Hr. unfold digit_char, to_digit. destruct (Z.ltb_spec d 10).
  - replace ((48 <=? 48 + d) && (48 + d <=? 57)) with true by lia.
    replace (48 + d - 48) with d by lia. by replace (d <? radix) with true by lia.
  - replace ((48 <=? 87 + d) && (87 + d <=? 57)) with false by lia.
    replace ((97 <=? 87 + d) && (87 + d <=? 102)) with true by lia.
    replace (87 + d - 87) with d by lia. by replace (d <? radix) with true by lia.
Qed.

Lemma digits_fold_le radix acc ds :
  1 <= radix -> 0 <= acc -> Forall (fun d => 0 <= d) ds -> acc <= digits_fold radix acc ds.
Proof.
  intros Hr Ha Hds. revert acc Ha. induction Hds as [|d ds Hd Hds IH]; intros acc Ha; cbn; [lia|].
  etrans; [|apply IH]; nia.
Qed.

Lemma number_digits_read fuel radix max left acc count ds rest :
  2 <= radix <= 16 -> 0 <= acc -> Forall (fun d => 0 <= d < radix) ds ->
  digits_fold radix acc ds <= max -> (left < 0 \/ Z.of_nat (length ds) <= left) ->
  (length ds < fuel \/ length ds = fuel /\ rest = [])%nat -> stops radix rest ->
  number_digits fuel radix max left acc count (map digit_char ds ++ rest)
  = Some (digits_fold radix acc ds, count + Z.of_nat (length ds), rest).
Proof.
  intros Hr Ha Hds. revert fuel left acc count Ha.
  induction Hds as [|d ds Hd Hds IH]; intros fuel left acc count Ha Hm Hl Hf Hs; cbn in *.
  - rewrite Z.add_0_r. destruct fuel as [|fuel]; [done|]. cbn. destruct rest as [|c rest]; [done|].
    cbn in Hs. by rewrite Hs.
  - destruct fuel as [|fuel]; [lia|]. cbn [number_digits]. rewrite to_digit_char by lia.
    pose proof (digits_fold_le radix (acc * radix + d) ds ltac:(lia) ltac:(nia)
      ltac:(eapply Forall_impl; [exact Hds|cbn; lia])) as Hle. unfold digits_fold in *.
    replace ((left =? 0) || (max <? acc * radix + d)) with false by lia.
    rewrite IH by (first [nia|done|lia|naive_solver lia]). do 3 f_equal; lia.
Qed.

Lemma radix_digits_range fuel radix n :
  2 <= radix -> 0 <= n -> Forall (fun d => 0 <= d < radix) (radix_digits fuel radix n).
Proof.
  intros Hr. revert n. induction fuel as [|fuel IH]; intros n Hn; cbn; [constructor|].
  destruct (Z.ltb_spec n radix); [repeat constructor; lia|].
  apply Forall_app. split; [apply IH, Z.div_pos; lia|].
  repeat constructor; apply Z.mod_pos_bound; lia.
Qed.

Lemma radix_digits_value fuel radix n :
  2 <= radix -> 0 <= n < radix ^ Z.of_nat fuel -> digits_fold radix 0 (radix_digits fuel radix n) = n.
Proof.
  intros Hr. revert n. induction fuel as [|fuel IH]; intros n Hn; cbn [radix_digits].
  - cbn in Hn |- *. lia.
  - destruct (Z.ltb_spec n radix); [cbn; lia|]. unfold digits_fold in *.
    rewrite fold_left_app. cbn [fold_left]. rewrite IH.
    + pose proof (Z.div_mod n radix). lia.
    + split; [apply Z.div_pos; lia|]. apply Z.div_lt_upper_bound; [lia|].
      rewrite <- Z.pow_succ_r, <- Nat2Z.inj_succ; lia.
Qed.

Lemma radix_digits_length fuel radix n : (length (radix_digits fuel radix n) <= fuel)%nat.
Proof.
  revert n. induction fuel as [|fuel IH]; intros n; cbn; [lia|].
  destruct (n <? radix); cbn; [lia|]. rewrite length_app; cbn. specialize (IH (n / radix)). lia.
Qed.

(** Only zero starts with a zero. *)
Lemma radix_digits_head fuel radix n :
  2 <= radix -> 0 <= n < radix ^ Z.of_nat fuel -> (1 <= fuel)%nat ->
  exists d ds, radix_digits fuel radix n = d :: ds /\ (d = 0 -> ds = []).
Proof.
  intros Hr. revert n. induction fuel as [|fuel IH]; intros n Hn Hf; cbn [radix_digits]; [lia|].
  destruct (Z.ltb_spec n radix); [by exists n, []|].
  assert (Hq : 0 < n / radix) by (apply Z.div_str_pos; lia).
  assert (Hb : n / radix < radix ^ Z.of_nat fuel).
  { apply Z.div_lt_upper_bound; [lia|]. rewrite <- Z.pow_succ_r, <- Nat2Z.inj_succ; lia. }
  destruct fuel as [|fuel]; [cbn in Hb; lia|].
  destruct (IH (n / radix)) as (d & ds & E & Hd); [lia..|]. exists d, (ds ++ [n mod radix]). 
  rewrite E. split; [done|]. intros ->. exfalso. specialize (Hd eq_refl) as ->.
  pose proof (radix_digits_value (S fuel) radix (n / radix) Hr ltac:(lia)) as Hv.
  rewrite E in Hv. cbn in Hv. lia.
Qed.

Lemma digit_char_zero d : 0 <= d -> digit_char d = 48 -> d = 0.
Proof. unfold digit_char. destruct (Z.ltb_spec d 10); lia. Qed.

Lemma match_48 c : c <> 48 -> match c with 48 => true | _ => false end = false.
Proof. intros Hc. destruct c as [|p|p]; try done. do 6 (try done; destruct p as [p|p|]; try done). Qed.

(** A number that was written is read back, whatever stops it. *)
Lemma read_number_shown fuel radix max_digits max zero n rest :
  2 <= radix <= 16 -> 0 <= n < radix ^ Z.of_nat fuel -> n <= max -> (1 <= fuel)%nat ->
  (max_digits < 0 \/ Z.of_nat fuel <= max_digits) -> stops radix rest ->
  read_number radix max_digits max zero (map digit_char (radix_digits fuel radix n) ++ rest)
  = Some (n, rest).
Proof.
  intros Hr Hn Hm Hf Hd Hs. unfold read_number.
  pose proof (radix_digits_range fuel radix n ltac:(lia) ltac:(lia)) as Hrange.
  pose proof (radix_digits_length fuel radix n) as Hlen.
  rewrite number_digits_read; try done; try lia.
  2: { rewrite radix_digits_value; lia. }
  2: { rewrite length_app, length_map. destruct rest; cbn; [right; split; [lia|done]|lia]. }
  rewrite radix_digits_value by lia.
  destruct (radix_digits_head fuel radix n) as (d & ds & E & Hz); [lia..|].
  rewrite E in *. cbn [length map app]. apply Forall_cons in Hrange as [Hdr _].
  assert (Hl : (match digit_char d with 48 => true | _ => false end
                && (1 <? 0 + Z.of_nat (S (length ds)))) = false).
  { destruct (Z.eq_dec (digit_char d) 48) as [Ed|Ed].
    - rewrite (Hz (digit_char_zero d ltac:(lia) Ed)). apply andb_false_r.
    - by rewrite (match_48 _ Ed). }
  rewrite <- andb_assoc, Hl, andb_false_r. by destruct (Z.eqb_spec (0 + Z.of_nat (S (length ds))) 0); [lia|].
Qed.

Lemma radix_digits_fuel f f' radix n :
  2 <= radix -> 0 <= n < radix ^ Z.of_nat f -> (1 <= f <= f')%nat ->
  radix_digits f' radix n = radix_digits f radix n.
Proof.
  intros Hr. revert f' n. induction f as [|f IH]; intros f' n Hn Hf; [lia|].
  destruct f' as [|f']; [lia|]. cbn [radix_digits]. destruct (Z.ltb_spec n radix) as [|Hge]; [done|].
  f_equal. apply IH.
  - split; [apply Z.div_pos; lia|]. apply Z.div_lt_upper_bound; [lia|].
    rewrite <- Z.pow_succ_r, <- Nat2Z.inj_succ; lia.
  - destruct f; [|lia]. change (Z.of_nat 1) with 1 in Hn. rewrite Z.pow_1_r in Hn. lia.
Qed.

Lemma show_digits_radix fuel n : 0 <= n -> show_digits fuel n = map digit_char (radix_digits fuel 10 n).
Proof.
  revert n. induction fuel as [|fuel IH]; intros n Hn; cbn [show_digits radix_digits]; [done|].
  assert (Hc : forall d, d < 10 -> digit_char d = 48 + d)
    by (intros d Hd; unfold digit_char; by destruct (Z.ltb_spec d 10); [|lia]).
  destruct (Z.ltb_spec n 10); [by rewrite <- Hc|].
  rewrite map_app, <- IH by (apply Z.div_pos; lia). cbn. rewrite Hc; [done|].
  apply Z.mod_pos_bound. lia.
Qed.

Lemma read_octet_shown i n rest :
  0 <= n < 256 -> stops 10 rest ->
  read_octet i ((if (i =? 0)%nat then [] else [46]) ++ show_u16 n ++ rest) = Some (n, rest).
Proof.
  intros Hn Hs. unfold read_octet, read_separator, show_u16.
  rewrite show_digits_radix, (radix_digits_fuel 3 5) by (cbn; lia).
  destruct i as [|i]; cbn [Nat.eqb app read_given_char]; [|rewrite Z.eqb_refl];
    apply read_number_shown; cbn; unfold U8_MAX; try lia; done.
Qed.

Lemma read_ipv4_shown a rest :
  is_u 32 a -> stops 10 rest -> read_ipv4_addr (show_ipv4 a ++ rest) = Some (a, rest).
Proof.
  intros Ha Hs. unfold is_u in Ha. unfold show_ipv4, read_ipv4_addr. rewrite <- !app_assoc.
  change (2 ^ 32) with 4294967296 in Ha. change (2 ^ 24) with 16777216.
  change (2 ^ 16) with 65536. change (2 ^ 8) with 256.
  assert (Hm : forall x, 0 <= x mod 256 < 256) by (intros; apply Z.mod_pos_bound; lia).
  pose proof (read_octet_shown 0 (a / 16777216)) as E0. cbn [Nat.eqb app] in E0.
  rewrite E0; [|Z.to_euclidean_division_equations; lia|done].
  pose proof (read_octet_shown 1) as E1. cbn [Nat.eqb] in E1. rewrite E1 by done.
  pose proof (read_octet_shown 2) as E2. cbn [Nat.eqb] in E2. rewrite E2 by done.
  pose proof (read_octet_shown 3) as E3. cbn [Nat.eqb] in E3. rewrite E3 by done.
  do 2 f_equal. unfold be_value. cbn [fold_left]. Z.to_euclidean_division_equations; lia.
Qed.

(** ** IPv6 *)

Lemma read_given_char_suffix c l u r : read_given_char c l = Some (u, r) -> l = c :: r.
Proof. destruct l as [|x l]; cbn; [done|]. destruct (Z.eqb_spec x c) as [->|]; [|done]. by intros [= _ <-]. Qed.

Lemma number_digits_suffix fuel radix max left acc count l v c r :
  number_digits fuel radix max left acc count l = Some (v, c, r) -> exists p, l = p ++ r.
Proof.
  revert left acc count l. induction fuel as [|fuel IH]; intros left acc count l; cbn [number_digits].
  - intros [= _ _ <-]. by exists [].
  - destruct l as [|x l]; [intros [= _ _ <-]; by exists []|].
    destruct (to_digit radix x) as [d|]; [|intros [= _ _ <-]; by exists []].
    destruct (_ || _); [done|]. intros (p & ->)%IH. by exists (x :: p).
Qed.

Lemma read_number_suffix radix digits max zero l v r :
  read_number radix digits max zero l = Some (v, r) -> exists p, l = p ++ r.
Proof.
  unfold read_number. destruct (number_digits _ _ _ _ _ _ _) as [[[v' c] r']|] eqn:E; [|done].
  apply number_digits_suffix in E. destruct (c =? 0); [done|].
  destruct (_ && _); [done|]. by intros [= _ <-].
Qed.

(** Text without a dot is not a dotted address. *)
Lemma no_dot_no_ipv4 l : contains_byte 46 l = false -> read_ipv4_addr l = None.
Proof.
  intros Hl. unfold read_ipv4_addr, read_octet, read_separator.
  destruct (read_number 10 3 U8_MAX false l) as [[a l1]|] eqn:E; [|done].
  apply read_number_suffix in E as [p ->]. rewrite contains_byte_app in Hl.
  destruct l1 as [|x l1]; cbn; [done|]. destruct (Z.eqb_spec x 46) as [->|]; [|done].
  cbn in Hl. by rewrite orb_true_r in Hl.
Qed.

(** The groups with the separator in front of each, from the [i]-th on *)
Fixpoint sep_groups (i : nat) (segs : list Z) : bytes :=
  match segs with
  | [] => []
  | s :: segs' => (if (i =? 0)%nat then [] else [58]) ++ show_hex s ++ sep_groups (S i) segs'
  end.

Lemma fmt_groups_sep segs : fmt_groups segs = sep_groups 0 segs.
Proof.
  assert (H : forall segs i, segs <> [] -> sep_groups (S i) segs = [58] ++ fmt_groups segs).
  { clear. intros segs. induction segs as [|s segs IH]; intros i Hs; [done|].
    cbn [sep_groups Nat.eqb]. destruct segs as [|s' segs]; [cbn; by rewrite app_nil_r|].
    by rewrite IH. }
  destruct segs as [|s [|s' segs]]; [done|cbn; by rewrite app_nil_r|].
  change (sep_groups 0 (s :: s' :: segs)) with (show_hex s ++ sep_groups 1 (s' :: segs)).
  by rewrite H.
Qed.

Definition segs_ok (segs : list Z) : Prop := Forall (is_u 16) segs.

Lemma digits_no_dot fuel radix n :
  2 <= radix -> 0 <= n -> contains_byte 46 (map digit_char (radix_digits fuel radix n)) = false.
Proof.
  intros Hr Hn. pose proof (radix_digits_range fuel radix n Hr Hn) as Hds.
  induction Hds as [|d ds Hd Hds IH]; [done|]. cbn [map contains_byte existsb].
  fold (contains_byte 46 (map digit_char ds)). rewrite IH, orb_false_r. unfold digit_char.
  apply Z.eqb_neq. destruct (Z.ltb_spec d 10); lia.
Qed.

Lemma show_hex_no_dot s : is_u 16 s -> contains_byte 46 (show_hex s) = false.
Proof. intros [Hs _]. by apply digits_no_dot. Qed.

Lemma sep_groups_no_dot i segs : segs_ok segs -> contains_byte 46 (sep_groups i segs) = false.
Proof.
  intros Hs. revert i. induction Hs as [|s segs Hs _ IH]; intros i; [done|]. cbn [sep_groups].
  rewrite !contains_byte_app, show_hex_no_dot, IH by done. by destruct (i =? 0)%nat.
Qed.

(** What may follow an IPv6 address, or its groups before [::] *)
Definition closes (rest : bytes) : Prop :=
  stops 16 rest /\ forall i, read_separator 58 i (read_number 16 4 U16_MAX true) rest = None.

Lemma read_hex_shown s rest :
  is_u 16 s -> stops 16 rest -> read_number 16 4 U16_MAX true (show_hex s ++ rest) = Some (s, rest).
Proof.
  intros Hs Hr. assert (Hb : 0 <= s < 65536) by exact Hs. unfold show_hex.
  apply read_number_shown; try done; unfold U16_MAX; lia.
Qed.

Lemma sep_groups_stops i segs rest : stops 16 rest -> stops 16 (sep_groups (S i) segs ++ rest).
Proof. destruct segs; cbn; [done|]. done. Qed.

Lemma read_groups_shown segs todo i rest :
  segs_ok segs -> (length segs <= todo)%nat -> closes rest -> contains_byte 46 rest = false ->
  read_groups todo i (sep_groups i segs ++ rest) = (segs, false, rest).
Proof.
  intros Hs. revert todo i. induction Hs as [|s segs Hs Hss IH]; intros todo i Hl [Hc1 Hc2] Hd;
    destruct todo as [|todo]; cbn [length] in Hl; try lia; try done.
  - cbn [read_groups sep_groups app]. rewrite Hc2.
    assert (read_separator 58 i read_ipv4_addr rest = None) as ->; [|by destruct todo].
    unfold read_separator. destruct i; [by apply no_dot_no_ipv4|].
    destruct (read_given_char 58 rest) as [[u r]|] eqn:E; [|done].
    apply read_given_char_suffix in E as ->. apply no_dot_no_ipv4. cbn in Hd. done.
  - cbn [read_groups]. 
    assert (Hdot : contains_byte 46 (show_hex s ++ sep_groups (S i) segs ++ rest) = false).
    { by rewrite !contains_byte_app, show_hex_no_dot, sep_groups_no_dot, Hd. }
    assert (Hrd : forall A (inner : reader A), read_separator 58 i inner (sep_groups i (s :: segs) ++ rest)
                  = inner (show_hex s ++ sep_groups (S i) segs ++ rest)).
    { intros A inner. cbn [sep_groups]. rewrite <- !app_assoc. by destruct i. }
    rewrite !Hrd, (no_dot_no_ipv4 _ Hdot), read_hex_shown; [|done|by apply sep_groups_stops].
    rewrite IH by (done || lia). by destruct todo.
Qed.

(** A span of zero groups of [all] *)
Definition zero_span (all : list Z) (sp : Span) : Prop :=
  (span_start sp + span_len sp <= length all)%nat
  /\ forall j, (span_start sp <= j < span_start sp + span_len sp)%nat -> all !! j = Some 0.

Lemma longest_zeroes_span pre segs current longest :
  zero_span (pre ++ segs) current -> zero_span (pre ++ segs) longest ->
  (span_len current = 0 \/ span_start current + span_len current = length pre)%nat ->
  zero_span (pre ++ segs) (longest_zeroes segs (length pre) current longest).
Proof.
  revert pre current longest. induction segs as [|s segs IH]; intros pre current longest Hc Hl He;
    cbn [longest_zeroes]; [done|].
  assert (Hall : pre ++ s :: segs = (pre ++ [s]) ++ segs) by by rewrite <- app_assoc.
  assert (Hn : S (length pre) = length (pre ++ [s])) by (rewrite length_app; cbn; lia).
  rewrite Hn. destruct (Z.eqb_spec s 0) as [->|].
  - set (c := mkSpan _ _). assert (Hc' : zero_span ((pre ++ [0]) ++ segs) c).
    { rewrite <- Hall. destruct Hc as [Hc1 Hc2], current as [st ln]; unfold c, zero_span in *; cbn in *.
      rewrite length_app in *; cbn in *.
      destruct (Nat.eqb_spec ln 0) as [->|Hln]; (split; [lia|]); intros j Hj;
        (destruct (decide (j = length pre)) as [->|];
          [by rewrite lookup_app_r, Nat.sub_diag by lia|apply Hc2; lia]). }
    rewrite Hall in *. apply IH; [done| |].
    + by destruct (_ <? _)%nat.
    + right. unfold c; cbn. rewrite length_app; cbn.
      destruct (Nat.eqb_spec (span_len current) 0) as [Hz|]; lia.
  - rewrite Hall in *. apply IH; [|done|by left]. split; cbn; [lia|intros; lia].
Qed.

Lemma zero_span_split all sp :
  zero_span all sp ->
  all = take (span_start sp) all ++ replicate (span_len sp) 0
        ++ drop (span_start sp + span_len sp) all.
Proof.
  intros [Hb Hz]. rewrite <- (take_drop (span_start sp) all) at 1. f_equal.
  rewrite <- (take_drop (span_len sp) (drop _ _)) at 1. rewrite drop_drop. f_equal.
  apply list_eq. intros i. destruct (decide (i < span_len sp)%nat) as [Hi|Hi].
  - rewrite lookup_take_lt, lookup_drop, lookup_replicate_2 by done. apply Hz. lia.
  - rewrite lookup_take_ge by lia. symmetry. apply lookup_replicate_None. lia.
Qed.

Lemma segments_ok a : segs_ok (segments a).
Proof. apply Forall_fmap, Forall_true. intros i. apply Z.mod_pos_bound. done. Qed.

Lemma segments_value a : is_u 128 a -> groups_value (segments a) = a.
Proof.
  intros Ha. unfold is_u in Ha. unfold segments, groups_value. cbn [seq map fold_left].
  assert (Hq : forall k k', 0 <= k -> k' = k + 16 ->
    a / 2 ^ k' * 2 ^ 16 + a / 2 ^ k mod 2 ^ 16 = a / 2 ^ k).
  { intros k k' Hk ->. rewrite Z.pow_add_r, <- Z.div_div by lia.
    pose proof (Z.div_mod (a / 2 ^ k) (2 ^ 16) ltac:(done)). lia. }
  change (112 - 16 * Z.of_nat 0) with 112. change (112 - 16 * Z.of_nat 1) with 96.
  change (112 - 16 * Z.of_nat 2) with 80. change (112 - 16 * Z.of_nat 3) with 64.
  change (112 - 16 * Z.of_nat 4) with 48. change (112 - 16 * Z.of_nat 5) with 32.
  change (112 - 16 * Z.of_nat 6) with 16. change (112 - 16 * Z.of_nat 7) with 0.
  rewrite <- (Z.div_small a (2 ^ 128)) at 1 by done.
  by rewrite (Hq 112 128), (Hq 96 112), (Hq 80 96), (Hq 64 80), (Hq 48 64), (Hq 32 48), (Hq 16 32),
    (Hq 0 16), Z.pow_0_r, Z.div_1_r.
Qed.

(** What follows an address: nothing, the bracket, or the scope *)
Definition ends (rest : bytes) : Prop :=
  match rest with [] => True | c :: _ => c = 93 \/ c = 37 end /\ contains_byte 46 rest = false.

Lemma ends_closes rest : ends rest -> closes rest.
Proof.
  intros [Hr _]. destruct rest as [|c rest]; [split; [done|]; by intros []|].
  destruct Hr as [-> | ->]; (split; [done|]); by intros [].
Qed.

Lemma ends_stops rest : ends rest -> stops 10 rest.
Proof. intros [Hr _]. destruct rest as [|c rest]; [done|]. by destruct Hr as [-> | ->]. Qed.

Lemma colons_close rest : closes (58 :: 58 :: rest).
Proof. split; [done|]. by intros []. Qed.

Lemma read_mapped_shown v4 rest :
  is_u 32 v4 -> ends rest ->
  read_ipv6_addr (str "::ffff:" ++ show_ipv4 v4 ++ rest) = Some (65535 * 2 ^ 32 + v4, rest).
Proof.
  intros Hv Hr. unfold read_ipv6_addr.
  change (str "::ffff:" ++ show_ipv4 v4 ++ rest)
    with (58 :: 58 :: show_hex 65535 ++ 58 :: show_ipv4 v4 ++ rest).
  set (l := show_hex 65535 ++ 58 :: show_ipv4 v4 ++ rest).
  assert (read_groups 8 0 (58 :: 58 :: l) = ([], false, 58 :: 58 :: l)) as -> by done.
  cbn [length Nat.eqb read_given_char]. rewrite !Z.eqb_refl. cbn [Nat.add Nat.sub].
  assert (E : read_groups 7 0 l = ([65535; v4 / 2 ^ 16; v4 mod 2 ^ 16], true, rest)).
  { cbn [read_groups read_separator]. assert (read_ipv4_addr l = None) as -> by done.
    unfold l. rewrite read_hex_shown by done. cbn [read_given_char]. rewrite Z.eqb_refl.
    by rewrite read_ipv4_shown by (done || by apply ends_stops). }
  cbn [read_given_char]. rewrite Z.eqb_refl, E. do 2 f_equal. unfold groups_value. cbn [length Nat.sub replicate app fold_left].
  pose proof (Z.div_mod v4 (2 ^ 16) ltac:(done)). change (2 ^ 32) with (2 ^ 16 * 2 ^ 16). lia.
Qed.

Lemma read_ipv6_shown a rest :
  is_u 128 a -> ends rest -> read_ipv6_addr (show_ipv6 a ++ rest) = Some (a, rest).
Proof.
  intros Ha Hr. pose proof Hr as [_ Hdot]. pose proof (ends_closes _ Hr) as Hc.
  unfold show_ipv6, to_ipv4_mapped. destruct (Z.eqb_spec (a / 2 ^ 32) 65535) as [Hm|_].
  { rewrite <- app_assoc, read_mapped_shown by (done || apply Z.mod_pos_bound; done).
    rewrite <- Hm, Z.mul_comm, <- Z.div_mod; done. }
  pose proof (segments_ok a) as Hs. pose proof (segments_value a Ha) as Hv.
  assert (Hlen : length (segments a) = 8%nat) by done.
  pose proof (longest_zeroes_span [] (segments a) (mkSpan 0 0) (mkSpan 0 0)) as Hz.
  cbn [app length] in Hz. set (z := longest_zeroes _ _ _ _) in *.
  assert (Hzs : zero_span (segments a) z).
  { apply Hz; [| |by left]; (split; [cbn; lia|cbn; intros; lia]). }
  clearbody z. unfold read_ipv6_addr. rewrite !fmt_groups_sep. destruct (Nat.ltb_spec 1 (span_len z)) as [H1|_].
  2: { rewrite read_groups_shown by (done || lia). by rewrite Hlen, Hv. }
  pose proof (zero_span_split _ _ Hzs) as Hsplit. destruct Hzs as [Hb _]. rewrite Hlen in Hb.
  set (head := take _ _) in *. set (tail := drop _ _) in *.
  assert (Hh : length head = span_start z) by (unfold head; rewrite length_take; lia).
  assert (Ht : length tail = (8 - (span_start z + span_len z))%nat)
    by (unfold tail; rewrite length_drop; lia).
  rewrite Hsplit in Hs. apply Forall_app in Hs as [Hs1 Hs2]. apply Forall_app in Hs2 as [_ Hs2].
  rewrite <- !app_assoc. cbn [app].
  rewrite (read_groups_shown head); [|done|lia|apply colons_close|].
  2: { cbn [contains_byte existsb]. fold (contains_byte 46 (sep_groups 0 tail ++ rest)).
       by rewrite contains_byte_app, sep_groups_no_dot, Hdot. }
  destruct (Nat.eqb_spec (length head) 8); [lia|].
  do 2 (cbn [read_given_char]; rewrite Z.eqb_refl). rewrite read_groups_shown by (done || lia). do 2 f_equal. rewrite <- Hv, Hsplit. do 3 f_equal.
  f_equal. lia.
Qed.

(** ** Round trips *)

Lemma show_u16_octet n : 0 <= n < 256 -> (length (show_u16 n) <= 3)%nat.
Proof.
  intros Hn. unfold show_u16. rewrite show_digits_radix, (radix_digits_fuel 3 5) by (cbn; lia).
  rewrite length_map. apply radix_digits_length.
Qed.

Lemma parse_ipv4_shown a : is_u 32 a -> parse_ipv4 (show_ipv4 a) = Some a.
Proof.
  intros Ha. unfold parse_ipv4, parse_with.
  pose proof (read_ipv4_shown a [] Ha I) as E. rewrite app_nil_r in E. rewrite E.
  assert (Hl : (length (show_ipv4 a) <= 15)%nat).
  { unfold show_ipv4. rewrite !length_app. cbn [length].
    assert (Hm : forall x, (length (show_u16 (x mod 256)) <= 3)%nat)
      by (intros; apply show_u16_octet, Z.mod_pos_bound; done).
    pose proof (Hm (a / 2 ^ 16)). pose proof (Hm (a / 2 ^ 8)). pose proof (Hm a).
    assert (length (show_u16 (a / 2 ^ 24)) <= 3)%nat; [|lia].
    apply show_u16_octet. unfold is_u in Ha. change (2 ^ 32) with 4294967296 in Ha.
    change (2 ^ 24) with 16777216. Z.to_euclidean_division_equations; lia. }
  by destruct (Nat.ltb_spec 15 (length (show_ipv4 a))); [lia|].
Qed.

Lemma parse_ipv6_shown a : is_u 128 a -> parse_ipv6 (show_ipv6 a) = Some a.
Proof.
  intros Ha. unfold parse_ipv6, parse_with.
  pose proof (read_ipv6_shown a [] Ha ltac:(done)) as E. by rewrite app_nil_r in E; rewrite E.
Qed.

Lemma read_port_shown p : is_u 16 p -> read_port (58 :: show_u32 p) = Some (p, []).
Proof.
  intros Hp. assert (Hb : 0 <= p < 65536) by exact Hp. unfold read_port, show_u32.
  cbn [read_given_char]. rewrite Z.eqb_refl, <- (app_nil_r (map _ _)).
  apply read_number_shown; try done; unfold U16_MAX; cbn; lia.
Qed.

(** The socket addresses with a text: within the machine widths, no flow label *)
Definition sock_plain (a : SocketAddr) : Prop :=
  match a with
  | SockV4 ip port => is_u 32 ip /\ is_u 16 port
  | SockV6 ip port flowinfo scope =>
      is_u 128 ip /\ is_u 16 port /\ flowinfo = 0 /\ is_u 32 scope
  end.

#[export] Instance sock_plain_dec a : Decision (sock_plain a).
Proof. destruct a; cbn; apply _. Defined.

Lemma show_u32_no_dot n : 0 <= n -> contains_byte 46 (show_u32 n) = false.
Proof. by apply digits_no_dot. Qed.

Lemma parse_socket_addr_shown a : sock_plain a -> parse_socket_addr (show_socket_addr a) = Some a.
Proof.
  destruct a as [ip port|ip port flow scope]; cbn [sock_plain show_socket_addr];
    unfold parse_socket_addr, parse_with.
  - intros [Hi Hp]. unfold read_socket_addr_v4. rewrite read_ipv4_shown by done. cbn [app].
    by rewrite read_port_shown.
  - intros (Hi & Hp & -> & Hs). assert (Hsb : 0 <= scope < 4294967296) by exact Hs.
    assert (Hd : contains_byte 46 (93 :: 58 :: show_u32 port) = false)
      by (apply show_u32_no_dot; unfold is_u in Hp; lia).
    cbn [app]. unfold read_socket_addr_v4 at 1.
    match goal with |- context [read_ipv4_addr ?l] => assert (read_ipv4_addr l = None) as -> by done end.
    unfold read_socket_addr_v6. cbn [read_given_char]. rewrite Z.eqb_refl.
    destruct (Z.eqb_spec scope 0) as [->|Hne]; cbn [app].
    + rewrite read_ipv6_shown; [|done|split; [by left|done]].
      unfold read_scope_id. cbn [read_given_char Z.eqb Pos.eqb]. by rewrite read_port_shown.
    + rewrite read_ipv6_shown; [|done|].
      2: { split; [by right|]. rewrite app_comm_cons, contains_byte_app.
           cbn [contains_byte existsb]. fold (contains_byte 46 (show_u32 scope)).
           by rewrite show_u32_no_dot by lia. }
      unfold read_scope_id. cbn [read_given_char]. rewrite Z.eqb_refl. unfold show_u32 at 1.
      rewrite read_number_shown; [| | |unfold U32_MAX| | |]; try done; try (cbn; lia).
      cbn [read_given_char Z.eqb Pos.eqb]. by rewrite read_port_shown.
Qed.
