(* ===== verification/Serde.v ===== *)
(** * The JSON of the saved state

    The [Serialize] and [Deserialize] of the types a peer keeps on disk: the
    base64 modules of [vela-proto/src/lib.rs] ([node_id_serde],
    [decode_base64_or_legacy], [base64_16_serde], [base64_32_serde],
    [base64_bytes_serde]) and the derived implementations of [Candidate],
    [PeerInfo], [NetworkSnapshot], [MembershipCredential] and [PeerState], with the
    attributes of their fields.  A [format] is a type with both directions and
    the values that have a text; formats compose as the derived implementations
    do.  Reading follows serde_json: unknown fields are ignored, the last of
    repeated keys counts, a missing [Option] is [None], and a structure may also be
    written as the sequence of its fields. *)
From S2P Require Import Prelude Net Encoding Wire NodeId Snapshot SignedBytes Crypto Control.
From S2P Require Import CoordDb Coord Text Dns Stun AddrText CoordClient NodeView Diagnostic.

(** [serde_json::Value]; a number that is not an integer keeps its text *)
#[warnings="-register-all"] Inductive Json : Type :=
| JNull
| JBool (b : bool)
| JNumber (n : Z)
| JFloat (text : bytes)
| JString (s : bytes)
| JArray (items : list Json)
| JObject (fields : list (bytes * Json)).

(** [Map::get]: a repeated key has the last value *)
Fixpoint obj_get (l : list (bytes * Json)) (k : bytes) : option Json :=
  match l with
  | [] => None
  | (k', v) :: l' =>
      match obj_get l' k with
      | Some v' => Some v'
      | None => if bool_decide (k' = k) then Some v else None
      end
  end.

Definition as_object (j : Json) : option (list (bytes * Json)) :=
  match j with JObject l => Some l | _ => None end.
Definition as_array (j : Json) : option (list Json) :=
  match j with JArray l => Some l | _ => None end.
(** [Value::get] with a key *)
Definition value_get (j : Json) (k : bytes) : option Json := l ← as_object j; obj_get l k.

Record format (A : Type) : Type := mkFormat {
  serialize : A -> Json;
  deserialize : Json -> option A;
  writable : A -> Prop
}.
Arguments mkFormat {A} _ _ _.
Arguments serialize {A} _ _.
Arguments deserialize {A} _ _.
Arguments writable {A} _ _.

(** What is written is read back; and is not [null]. *)
Class Sound {A} (f : format A) : Prop :=
  sound a : writable f a -> deserialize f (serialize f a) = Some a.
Class NonNull {A} (f : format A) : Prop := non_null a : serialize f a <> JNull.

(** ** Basic types *)

Definition string_format : format bytes :=
  mkFormat JString (fun j => match j with JString s => Some s | _ => None end) (fun _ => True).

Definition uint_format (bits : Z) : format Z :=
  mkFormat JNumber
    (fun j => match j with
              | JNumber n => if bool_decide (is_u bits n) then Some n else None
              | _ => None
              end)
    (is_u bits).

Definition list_format {A} (f : format A) : format (list A) :=
  mkFormat (fun l => JArray (map (serialize f) l))
    (fun j => match j with JArray l => mapM (deserialize f) l | _ => None end)
    (Forall (writable f)).

Definition option_format {A} (f : format A) : format (option A) :=
  mkFormat (fun o => match o with Some a => serialize f a | None => JNull end)
    (fun j => match j with JNull => Some None | _ => Some <$> deserialize f j end)
    (fun o => match o with Some a => writable f a | None => True end).

(** A type with a text form *)
Definition text_format {A} (show : A -> bytes) (parse : bytes -> option A) (ok : A -> Prop)
    : format A :=
  mkFormat (fun a => JString (show a))
    (fun j => match j with JString s => parse s | _ => None end) ok.

Definition ipv4_format : format Z := text_format show_ipv4 parse_ipv4 (is_u 32).
Definition ipv6_format : format Z := text_format show_ipv6 parse_ipv6 (is_u 128).
Definition socket_addr_format : format SocketAddr :=
  text_format show_socket_addr parse_socket_addr sock_plain.

(** ** Structures *)

(** The fields of a structure, by name or in order *)
Inductive Source : Type :=
| Fields (l : list (bytes * Json))
| Elements (l : list Json).

Definition visitor (A : Type) : Type := Source -> option (A * Source).
Definition vret {A} (a : A) : visitor A := fun s => Some (a, s).
Definition vbind {A B} (m : visitor A) (k : A -> visitor B) : visitor B :=
  fun s => match m s with Some (a, s') => k a s' | None => None end.

(** A field that is missing: an error; [None] for an [Option], by name only; the
    value of [#[serde(default)]] *)
Inductive Absent (A : Type) : Type :=
| Required
| Optional (a : A)
| Default (a : A).
Arguments Required {A}.
Arguments Optional {A} _.
Arguments Default {A} _.

Definition field {A} (f : format A) (name : bytes) (absent : Absent A) : visitor A := fun s =>
  match s with
  | Fields l =>
      match obj_get l name with
      | Some v => match deserialize f v with Some a => Some (a, s) | None => None end
      | None => match absent with Required => None | Optional a | Default a => Some (a, s) end
      end
  | Elements [] => match absent with Default a => Some (a, s) | _ => None end
  | Elements (v :: l) =>
      match deserialize f v with Some a => Some (a, Elements l) | None => None end
  end.

Definition visit_struct {A} (m : visitor A) (j : Json) : option A :=
  match j with
  | JObject l => fst <$> m (Fields l)
  | JArray l => match m (Elements l) with Some (a, Elements []) => Some a | _ => None end
  | _ => None
  end.

Notation "'let*' x ':=' m 'in' k" := (vbind m (fun x => k))
  (at level 10, x name, m at level 100, k at level 200) : vela_scope.

(** An externally tagged enumeration: an object with one key.  The deserializer
    of the variant is chosen by name. *)
Definition visit_enum {A} (variant : bytes -> option (Json -> option A)) (j : Json) : option A :=
  match j with
  | JObject ((k, v) :: l) =>
      if forallb (fun kv => bool_decide (kv.1 = k)) l
      then d ← variant k; d (default v (obj_get l k))
      else None
  | _ => None
  end.

Section formats.
Context {T : TextOps}.

(** ** The base64 modules *)

(** [try_into] of a vector to an array of [n] bytes *)
Definition try_into (n : nat) (l : bytes) : option bytes :=
  if (length l =? n)%nat then Some l else None.

(** [node_id_serde] *)
Definition node_id_format : format bytes :=
  mkFormat (fun id => JString (b64_encode id))
    (fun j => match j with JString s => l ← b64_decode s; try_into 32 l | _ => None end)
    (fun id => length id = 32%nat).

(** The text, or the array of numbers of older files *)
Definition decode_base64_or_legacy (j : Json) : option bytes :=
  match j with
  | JString s => b64_decode s
  | JArray l => mapM (deserialize (uint_format 8)) l
  | _ => None
  end.

(** [base64_16_serde] and [base64_32_serde] *)
Definition base64_array_serde (n : nat) : format bytes :=
  mkFormat (fun l => JString (b64_encode l))
    (fun j => l ← decode_base64_or_legacy j; try_into n l)
    (fun l => length l = n).
Definition base64_16_serde : format bytes := base64_array_serde 16.
Definition base64_32_serde : format bytes := base64_array_serde 32.

Definition base64_bytes_serde : format bytes :=
  mkFormat (fun l => JString (b64_encode l)) decode_base64_or_legacy (fun _ => True).

(** ** The protocol types *)

Definition candidate_format : format Candidate :=
  mkFormat
    (fun c => match c with
              | Host a => JObject [(str "Host", serialize socket_addr_format a)]
              | ServerReflexive a => JObject [(str "ServerReflexive", serialize socket_addr_format a)]
              | PeerReflexive a => JObject [(str "PeerReflexive", serialize socket_addr_format a)]
              end)
    (visit_enum (fun k =>
       let read := fun (c : SocketAddr -> Candidate) => Some (fun j => c <$> deserialize socket_addr_format j) in
       if bool_decide (k = str "Host") then read Host
       else if bool_decide (k = str "ServerReflexive") then read ServerReflexive
       else if bool_decide (k = str "PeerReflexive") then read PeerReflexive
       else None))
    (fun c => sock_plain (Candidate_address c)).

(** A unit variant is its name; an object with [null] is read too. *)
Definition capability_format : format PeerCapability :=
  mkFormat (fun c => match c with CapDiagnosticPing => JString (str "diagnostic_ping") end)
    (fun j => match j with
              | JString s => if bool_decide (s = str "diagnostic_ping") then Some CapDiagnosticPing else None
              | _ => visit_enum (fun k =>
                       if bool_decide (k = str "diagnostic_ping")
                       then Some (fun v => match v with JNull => Some CapDiagnosticPing | _ => None end)
                       else None) j
              end)
    (fun _ => True).

Definition peer_info_format : format PeerInfo :=
  mkFormat
    (fun p => JObject
      [(str "node_id", serialize node_id_format (node_id p));
       (str "incarnation", serialize (uint_format 64) (incarnation p));
       (str "signing_public", serialize base64_32_serde (signing_public p));
       (str "noise_public", serialize base64_32_serde (noise_public p));
       (str "candidates", serialize (list_format candidate_format) (candidates p));
       (str "virtual_ipv4", serialize (option_format ipv4_format) (virtual_ipv4 p));
       (str "virtual_ipv6", serialize (option_format ipv6_format) (virtual_ipv6 p));
       (str "credential", serialize base64_bytes_serde (credential p));
       (str "capabilities", serialize (list_format capability_format) (capabilities p))])
    (visit_struct (
       let* id := field node_id_format (str "node_id") Required in
       let* inc := field (uint_format 64) (str "incarnation") Required in
       let* sp := field base64_32_serde (str "signing_public") Required in
       let* np := field base64_32_serde (str "noise_public") Required in
       let* cs := field (list_format candidate_format) (str "candidates") Required in
       let* v4 := field (option_format ipv4_format) (str "virtual_ipv4") (Optional None) in
       let* v6 := field (option_format ipv6_format) (str "virtual_ipv6") (Optional None) in
       let* cred := field base64_bytes_serde (str "credential") Required in
       let* caps := field (list_format capability_format) (str "capabilities") Required in
       vret (mkPeer id inc sp np cs v4 v6 cred caps)))
    (fun p => writable node_id_format (node_id p) /\ is_u 64 (incarnation p)
       /\ writable base64_32_serde (signing_public p) /\ writable base64_32_serde (noise_public p)
       /\ writable (list_format candidate_format) (candidates p)
       /\ writable (option_format ipv4_format) (virtual_ipv4 p)
       /\ writable (option_format ipv6_format) (virtual_ipv6 p)).

Definition cidr4_format : format Ipv4Cidr :=
  mkFormat
    (fun c => JObject [(str "address", serialize ipv4_format (cidr4_address c));
                       (str "prefix_len", serialize (uint_format 8) (cidr4_prefix c))])
    (visit_struct (
       let* a := field ipv4_format (str "address") Required in
       let* p := field (uint_format 8) (str "prefix_len") Required in
       vret (mkCidr4 a p)))
    (fun c => is_u 32 (cidr4_address c) /\ is_u 8 (cidr4_prefix c)).

Definition cidr6_format : format Ipv6Cidr :=
  mkFormat
    (fun c => JObject [(str "address", serialize ipv6_format (cidr6_address c));
                       (str "prefix_len", serialize (uint_format 8) (cidr6_prefix c))])
    (visit_struct (
       let* a := field ipv6_format (str "address") Required in
       let* p := field (uint_format 8) (str "prefix_len") Required in
       vret (mkCidr6 a p)))
    (fun c => is_u 128 (cidr6_address c) /\ is_u 8 (cidr6_prefix c)).

Definition snapshot_format : format NetworkSnapshot :=
  mkFormat
    (fun s => JObject
      [(str "network_id", serialize base64_16_serde (network_id s));
       (str "generation", serialize (uint_format 64) (generation s));
       (str "virtual_ipv4", serialize (option_format cidr4_format) (snap_ipv4 s));
       (str "virtual_ipv6", serialize (option_format cidr6_format) (snap_ipv6 s));
       (str "doh_servers", serialize (list_format string_format) (doh_servers s));
       (str "stun_servers", serialize (list_format string_format) (stun_servers s));
       (str "peers", serialize (list_format peer_info_format) (peers s));
       (str "online_peers", serialize (list_format node_id_format) (online_peers s));
       (str "expires_at", serialize (uint_format 64) (expires_at s));
       (str "signature", serialize base64_bytes_serde (signature s))])
    (visit_struct (
       let* nid := field base64_16_serde (str "network_id") Required in
       let* gen := field (uint_format 64) (str "generation") Required in
       let* v4 := field (option_format cidr4_format) (str "virtual_ipv4") (Optional None) in
       let* v6 := field (option_format cidr6_format) (str "virtual_ipv6") (Optional None) in
       let* doh := field (list_format string_format) (str "doh_servers") (Default []) in
       let* stun := field (list_format string_format) (str "stun_servers") (Default []) in
       let* ps := field (list_format peer_info_format) (str "peers") Required in
       let* on := field (list_format node_id_format) (str "online_peers") (Default []) in
       let* exp := field (uint_format 64) (str "expires_at") Required in
       let* sig := field base64_bytes_serde (str "signature") Required in
       vret (mkSnapshot nid gen v4 v6 doh stun ps on exp sig)))
    (fun s => writable base64_16_serde (network_id s) /\ is_u 64 (generation s)
       /\ writable (option_format cidr4_format) (snap_ipv4 s)
       /\ writable (option_format cidr6_format) (snap_ipv6 s)
       /\ writable (list_format peer_info_format) (peers s)
       /\ writable (list_format node_id_format) (online_peers s) /\ is_u 64 (expires_at s)).

Definition credential_format : format MembershipCredential :=
  mkFormat
    (fun c => JObject
      [(str "node_id", serialize node_id_format (cred_node_id c));
       (str "signing_public", serialize base64_32_serde (cred_signing_public c));
       (str "noise_public", serialize base64_32_serde (cred_noise_public c));
       (str "tenant", serialize string_format (cred_tenant c));
       (str "issued_at", serialize (uint_format 64) (cred_issued_at c));
       (str "expires_at", serialize (uint_format 64) (cred_expires_at c));
       (str "server_key_id", serialize base64_32_serde (cred_server_key_id c));
       (str "signature", serialize base64_bytes_serde (cred_signature c))])
    (visit_struct (
       let* id := field node_id_format (str "node_id") Required in
       let* sp := field base64_32_serde (str "signing_public") Required in
       let* np := field base64_32_serde (str "noise_public") Required in
       let* tenant := field string_format (str "tenant") Required in
       let* iss := field (uint_format 64) (str "issued_at") Required in
       let* exp := field (uint_format 64) (str "expires_at") Required in
       let* key := field base64_32_serde (str "server_key_id") Required in
       let* sig := field base64_bytes_serde (str "signature") Required in
       vret (mkCredential id sp np tenant iss exp key sig)))
    (fun c => writable node_id_format (cred_node_id c)
       /\ writable base64_32_serde (cred_signing_public c)
       /\ writable base64_32_serde (cred_noise_public c)
       /\ is_u 64 (cred_issued_at c) /\ is_u 64 (cred_expires_at c)
       /\ writable base64_32_serde (cred_server_key_id c)).

(** [PeerState] *)
Definition state_format : format SavedState :=
  mkFormat
    (fun s => JObject
      [(str "server", serialize string_format (sv_server s));
       (str "server_key", serialize base64_32_serde (sv_server_key s));
       (str "credential", serialize (option_format credential_format) (sv_credential s));
       (str "last_local_addrs", serialize (list_format socket_addr_format) (sv_last_local_addrs s));
       (str "doh_servers", serialize (list_format string_format) (sv_doh_servers s));
       (str "stun_servers", serialize (list_format string_format) (sv_stun_servers s));
       (str "manual_stun_servers", serialize (list_format string_format) (sv_manual_stun_servers s));
       (str "candidates", serialize (list_format candidate_format) (sv_candidates s));
       (str "snapshot", serialize (option_format snapshot_format) (sv_snapshot s))])
    (visit_struct (
       let* server := field string_format (str "server") Required in
       let* key := field base64_32_serde (str "server_key") Required in
       let* cred := field (option_format credential_format) (str "credential") (Optional None) in
       let* addrs := field (list_format socket_addr_format) (str "last_local_addrs") (Default []) in
       let* doh := field (list_format string_format) (str "doh_servers") (Default default_servers) in
       let* stun := field (list_format string_format) (str "stun_servers") Required in
       let* manual := field (list_format string_format) (str "manual_stun_servers") (Default []) in
       let* cs := field (list_format candidate_format) (str "candidates") Required in
       let* sn := field (option_format snapshot_format) (str "snapshot") (Optional None) in
       vret (mkSaved server key cred addrs doh stun manual cs sn)))
    (fun s => writable base64_32_serde (sv_server_key s)
       /\ writable (option_format credential_format) (sv_credential s)
       /\ writable (list_format socket_addr_format) (sv_last_local_addrs s)
       /\ writable (list_format candidate_format) (sv_candidates s)
       /\ writable (option_format snapshot_format) (sv_snapshot s)).

(** ** Files of earlier versions *)

Definition is_legacy_snapshot (state : Json) : bool :=
  match j ← value_get state (str "snapshot"); as_object j with
  | None => false
  | Some snapshot =>
      bool_decide (obj_get snapshot (str "online_peers") = None)
      || match j ← obj_get snapshot (str "peers"); as_array j with
         | Some peers => existsb (fun peer => bool_decide (value_get peer (str "incarnation") = None)) peers
         | None => false
         end
  end.

(** [PeerState::load] after the text is read: the snapshot of an earlier version
    is dropped, by inserting [null] under its key. *)
Definition state_from_value (value : Json) : option SavedState :=
  let value :=
    if is_legacy_snapshot value then
      match value with
      | JObject l => JObject (l ++ [(str "snapshot", JNull)])
      | _ => value
      end
    else value in
  deserialize state_format value.

End formats.

(** ** What is written is read back *)

Fixpoint key_index (ks : list bytes) (k : bytes) : option nat :=
  match ks with
  | [] => None
  | k' :: ks' =>
      match key_index ks' k with
      | Some i => Some (S i)
      | None => if bool_decide (k' = k) then Some 0%nat else None
      end
  end.

Lemma obj_get_index l k : obj_get l k = i ← key_index l.*1 k; snd <$> l !! i.
Proof.
  induction l as [|[k' v] l IH]; [done|]. cbn [obj_get fmap list_fmap key_index]. rewrite IH. cbn.
  destruct (key_index l.*1 k) as [i|] eqn:E; cbn.
  - destruct (l !! i) as [p|] eqn:El; cbn; [done|]. exfalso.
    assert (Hi : forall ks j, key_index ks k = Some j -> (j < length ks)%nat).
    { clear. intros ks. induction ks as [|k' ks IH]; intros j; cbn; [done|].
      destruct (key_index ks k) as [j'|]; [intros [= <-]; specialize (IH j' eq_refl); lia|].
      case_bool_decide; [intros [= <-]; lia|done]. }
    apply Hi in E. rewrite length_fmap in E. apply lookup_ge_None in El. lia.
  - by case_bool_decide.
Qed.

Lemma obj_get_at l k i v : key_index l.*1 k = Some i -> l !! i = Some (k, v) -> obj_get l k = Some v.
Proof. intros Hi Hl. by rewrite obj_get_index, Hi; cbn; rewrite Hl. Qed.

Lemma field_written {A} (f : format A) `{!Sound f} l k i a absent {B} (m : A -> visitor B) b :
  key_index l.*1 k = Some i -> l !! i = Some (k, serialize f a) -> writable f a ->
  m a (Fields l) = b -> vbind (field f k absent) m (Fields l) = b.
Proof.
  intros Hi Hl Ha <-. unfold vbind, field. rewrite (obj_get_at _ _ _ _ Hi Hl).
  by rewrite (sound (f := f)).
Qed.

Lemma visit_struct_object {A} (m : visitor A) l a :
  m (Fields l) = Some (a, Fields l) -> visit_struct m (JObject l) = Some a.
Proof. intros E. cbn. by rewrite E. Qed.

(** Reads the fields of a structure that was just written, one after the other. *)
Ltac read_fields :=
  apply visit_struct_object;
  repeat (eapply (field_written _ _ _ _ _ _); [vm_compute; reflexivity|reflexivity
    |first [cbn in *; tauto|by apply Forall_true]|]);
  reflexivity.

#[export] Instance string_format_sound : Sound string_format.
Proof. done. Qed.
#[export] Instance string_format_non_null : NonNull string_format.
Proof. done. Qed.

#[export] Instance uint_format_sound bits : Sound (uint_format bits).
Proof. intros n Hn. cbn in *. by rewrite bool_decide_eq_true_2. Qed.

#[export] Instance list_format_sound {A} (f : format A) `{!Sound f} : Sound (list_format f).
Proof.
  intros l Hl. cbn in *. induction Hl as [|a l Ha Hl IH]; cbn; [done|].
  by rewrite (sound (f := f)), IH.
Qed.

#[export] Instance option_format_sound {A} (f : format A) `{!Sound f, !NonNull f} : Sound (option_format f).
Proof.
  intros [a|] Ha; cbn in *; [|done]. pose proof (non_null (f := f) a). rewrite (sound (f := f) a Ha).
  by destruct (serialize f a).
Qed.

Lemma text_format_sound {A} show parse (ok : A -> Prop) :
  (forall a, ok a -> parse (show a) = Some a) -> Sound (text_format show parse ok).
Proof. intros H a Ha. by apply H. Qed.

#[export] Instance text_format_non_null {A} show parse (ok : A -> Prop) : NonNull (text_format show parse ok).
Proof. done. Qed.

#[export] Instance ipv4_format_sound : Sound ipv4_format.
Proof. apply text_format_sound, parse_ipv4_shown. Qed.
#[export] Instance ipv6_format_sound : Sound ipv6_format.
Proof. apply text_format_sound, parse_ipv6_shown. Qed.
#[export] Instance socket_addr_format_sound : Sound socket_addr_format.
Proof. apply text_format_sound, parse_socket_addr_shown. Qed.

Section sound.
Context {T : TextOps} {TL : TextLaws T}.

#[export] Instance node_id_format_sound : Sound node_id_format.
Proof. intros i Hi. cbn in *. rewrite b64_roundtrip. cbn. unfold try_into. by rewrite Hi. Qed.

#[export] Instance base64_array_sound n : Sound (base64_array_serde n).
Proof.
  intros l Hl. cbn in *. rewrite b64_roundtrip. cbn. unfold try_into. by rewrite Hl, Nat.eqb_refl.
Qed.

#[export] Instance base64_bytes_sound : Sound base64_bytes_serde.
Proof. intros l _. apply b64_roundtrip. Qed.

#[export] Instance candidate_format_sound : Sound candidate_format.
Proof.
  intros c Hc.
  assert (H : forall a, sock_plain a ->
    (deserialize socket_addr_format (serialize socket_addr_format a)) = Some a) by apply socket_addr_format_sound.
  destruct c as [a|a|a]; cbn in Hc; specialize (H a Hc);
    cbn [serialize candidate_format deserialize visit_enum forallb obj_get from_option];
    repeat (rewrite bool_decide_eq_false_2 by done); rewrite bool_decide_eq_true_2 by done;
    cbn [mbind option_bind]; by rewrite H.
Qed.

#[export] Instance capability_format_sound : Sound capability_format.
Proof. by intros []. Qed.

#[export] Instance peer_info_format_sound : Sound peer_info_format.
Proof. intros [] Hp. cbn in Hp. read_fields. Qed.

#[export] Instance cidr4_format_sound : Sound cidr4_format.
Proof. intros [] Hc. cbn in Hc. read_fields. Qed.
#[export] Instance cidr4_format_non_null : NonNull cidr4_format.
Proof. done. Qed.
#[export] Instance cidr6_format_sound : Sound cidr6_format.
Proof. intros [] Hc. cbn in Hc. read_fields. Qed.
#[export] Instance cidr6_format_non_null : NonNull cidr6_format.
Proof. done. Qed.

#[export] Instance snapshot_format_sound : Sound snapshot_format.
Proof. intros [] Hs. cbn in Hs. read_fields. Qed.
#[export] Instance snapshot_format_non_null : NonNull snapshot_format.
Proof. done. Qed.

#[export] Instance credential_format_sound : Sound credential_format.
Proof. intros [] Hs. cbn in Hs. read_fields. Qed.
#[export] Instance credential_format_non_null : NonNull credential_format.
Proof. done. Qed.

#[export] Instance state_format_sound : Sound state_format.
Proof. intros [] Hs. cbn in Hs. read_fields. Qed.

End sound.

(** ** Loading *)

Section loading.
Context {T : TextOps} {TL : TextLaws T}.

Lemma written_not_legacy s : is_legacy_snapshot (serialize state_format s) = false.
Proof.
  unfold is_legacy_snapshot, value_get. cbn [serialize state_format as_object mbind option_bind].
  erewrite obj_get_at; [|vm_compute; reflexivity|reflexivity]. cbn [mbind option_bind].
  destruct (sv_snapshot s) as [sn|]; [|done]. cbn [serialize option_format snapshot_format as_object].
  do 2 (erewrite obj_get_at; [|vm_compute; reflexivity|reflexivity]). cbn [mbind option_bind].
  rewrite bool_decide_eq_false_2 by done. cbn [orb as_array list_format serialize].
  induction (peers sn) as [|p ps IH]; [done|]. cbn [map existsb]. rewrite IH, orb_false_r.
  unfold value_get. cbn [serialize peer_info_format as_object mbind option_bind].
  erewrite obj_get_at; [|vm_compute; reflexivity|reflexivity]. by rewrite bool_decide_eq_false_2.
Qed.

Lemma state_value_roundtrip s :
  writable state_format s -> state_from_value (serialize state_format s) = Some s.
Proof.
  intros Hs. unfold state_from_value. rewrite written_not_legacy. by apply state_format_sound.
Qed.

Lemma obj_get_snoc l k k' v :
  obj_get (l ++ [(k, v)]) k' = if bool_decide (k = k') then Some v else obj_get l k'.
Proof.
  induction l as [|[k1 v1] l IH]; [done|]. cbn [app obj_get]. rewrite IH.
  by case_bool_decide.
Qed.

Lemma obj_get_filter l k k' :
  obj_get (filter (fun kv => kv.1 <> k) l) k' = if bool_decide (k' = k) then None else obj_get l k'.
Proof.
  induction l as [|[k1 v1] l IH]; [by case_bool_decide|]. rewrite filter_cons. cbn [fst obj_get].
  destruct (decide (k1 <> k)) as [Hne|He].
  - cbn [obj_get]. rewrite IH. case_bool_decide as Hk; [subst|done]. by rewrite bool_decide_eq_false_2.
  - rewrite IH. apply dec_stable in He as ->. case_bool_decide as Hk; [done|].
    rewrite (bool_decide_eq_false_2 (k = k')) by congruence. by destruct (obj_get l k').
Qed.

(** A field that two objects agree on is read alike. *)
Lemma field_agree {A B} (f : format A) k absent (m m' : A -> visitor B) l l' :
  obj_get l k = obj_get l' k ->
  (forall a, fst <$> m a (Fields l) = fst <$> m' a (Fields l')) ->
  fst <$> vbind (field f k absent) m (Fields l) = fst <$> vbind (field f k absent) m' (Fields l').
Proof.
  intros Hk Hm. unfold vbind, field. rewrite Hk. destruct (obj_get l' k) as [v|].
  - by destruct (deserialize f v).
  - by destruct absent.
Qed.

(** A state file with the snapshot of an earlier version is read as if it had
    no snapshot, and nothing else of it is lost. *)
Lemma legacy_snapshot_dropped l :
  is_legacy_snapshot (JObject l) = true ->
  state_from_value (JObject l)
  = deserialize state_format (JObject (filter (fun kv => kv.1 <> str "snapshot") l)).
Proof.
  intros Hl. unfold state_from_value. rewrite Hl.
  assert (Hk : forall k, k <> str "snapshot" ->
    obj_get (l ++ [(str "snapshot", JNull)]) k
    = obj_get (filter (fun kv => kv.1 <> str "snapshot") l) k).
  { intros k Hk. rewrite obj_get_snoc, obj_get_filter.
    by rewrite !bool_decide_eq_false_2 by congruence. }
  cbn [deserialize state_format visit_struct].
  do 8 (apply field_agree; [by apply Hk|intros ?]). unfold vbind, field.
  rewrite obj_get_snoc, obj_get_filter, !bool_decide_eq_true_2 by done. done.
Qed.

End loading.
