(* ===== verification/KeyFiles.v ===== *)
(** * Key, credential and state files

    What the programs keep on disk: a node's identity and the coordinator's
    signing key ([vela-crypto/src/lib.rs]), the administrator's credentials
    ([vela-coord/src/admin.rs]) and the state of a peer
    ([vela-diagnostic/src/lib.rs]), read and written with the file operations of
    [Files] and the JSON of [Serde].  The text of JSON ([serde_json]) is the class
    [JsonText]; keys that are generated are arguments. *)
From S2P Require Import Prelude Net Encoding Wire NodeId Snapshot SignedBytes Crypto Control.
From S2P Require Import CoordDb Coord Text Dns Stun AddrText CoordClient NodeView Diagnostic.
From S2P Require Import Admin Files Serde.

(** The values that have a text: no floating point number, and integers of 64
    bits *)
Fixpoint json_plain (j : Json) : bool :=
  match j with
  | JNull | JBool _ | JString _ => true
  | JNumber n => (- 2 ^ 63 <=? n) && (n <? 2 ^ 64)
  | JFloat _ => false
  | JArray l => forallb json_plain l
  | JObject l => forallb (fun kv => json_plain kv.2) l
  end.

(** [serde_json::to_vec_pretty] of a value, and the document a text is, with
    repeated keys *)
Class JsonText : Type := {
  to_vec_pretty : Json -> bytes;
  json_from_slice : bytes -> option Json
}.

Class JsonTextLaws (J : JsonText) : Prop := {
  json_text_roundtrip j : json_plain j = true -> json_from_slice (to_vec_pretty j) = Some j
}.

(** A structure read from the text directly refuses a repeated field. *)
Definition once (names : list bytes) (j : Json) : bool :=
  match j with
  | JObject l => forallb (fun n => (length (filter (fun kv => kv.1 = n) l) <=? 1)%nat) names
  | _ => true
  end.

(** An identity's secret keys: [SigningKey] and [StaticSecret] *)
Record Identity : Type := mkSecrets { id_signing : bytes; id_noise : bytes }.

Record IdentityFile : Type := mkIdentityFile { if_signing_private : bytes; if_noise_private : bytes }.

Definition identity_file_format : format IdentityFile :=
  mkFormat
    (fun f => JObject [(str "signing_private", serialize string_format (if_signing_private f));
                       (str "noise_private", serialize string_format (if_noise_private f))])
    (fun j => if once [str "signing_private"; str "noise_private"] j
              then visit_struct (
                let* s := field string_format (str "signing_private") Required in
                let* n := field string_format (str "noise_private") Required in
                vret (mkIdentityFile s n)) j
              else None)
    (fun _ => True).

Definition credentials_file_format : format CredentialsFile :=
  mkFormat
    (fun f => JObject [(str "username", serialize string_format (cf_username f));
                       (str "password_hash", serialize string_format (cf_password_hash f))])
    (fun j => if once [str "username"; str "password_hash"] j
              then visit_struct (
                let* u := field string_format (str "username") Required in
                let* h := field string_format (str "password_hash") Required in
                vret (mkCredentials u h)) j
              else None)
    (fun _ => True).

Section files.
Context {T : TextOps} {J : JsonText}.

(** A file operation inside a function with its own errors *)
Definition with_io {E A} (e : E) (m : io A) : handler Disk E A := fun d =>
  let '(r, d) := m d in (rmap_err (fun _ => e) r, d).

(** ** The identity *)

(** What [Identity::load] makes of the bytes of the file *)
Definition identity_from_slice (data : bytes) : result Identity CryptoError :=
  let? file := ok_or (j ← json_from_slice data; deserialize identity_file_format j) Crypto_Serialization in
  let? signing_private := ok_or (b64_decode (if_signing_private file)) InvalidKey in
  let? noise_private := ok_or (b64_decode (if_noise_private file)) InvalidKey in
  let? signing_private := ok_or (try_into 32 signing_private) InvalidKey in
  let? noise_private := ok_or (try_into 32 noise_private) InvalidKey in
  Ok (mkSecrets signing_private noise_private).

Definition Identity_load (path : FilePath) : handler Disk CryptoError Identity :=
  let! data := with_io Crypto_Io (fs_read path) in
  hlift (identity_from_slice data).

Definition identity_file (i : Identity) : Json :=
  serialize identity_file_format (mkIdentityFile (b64_encode (id_signing i)) (b64_encode (id_noise i))).

Definition Identity_save (i : Identity) (path : FilePath) : handler Disk CryptoError unit :=
  with_io Crypto_Io (create_dir_all (path_dir path)) ;!
  with_io Crypto_Io (replace_private (with_extension path (str "tmp")) path (to_vec_pretty (identity_file i))).

(** [fresh] is what [Identity::generate] draws *)
Definition Identity_load_or_generate (path : FilePath) (fresh : Identity) : handler Disk CryptoError Identity :=
  fun d =>
    if path_exists path d then Identity_load path d
    else (let! _ := Identity_save fresh path in hret fresh) d.

(** ** The coordinator's signing key *)

Definition signer_from_slice (data : bytes) : result bytes CryptoError :=
  let? l := ok_or (b64_decode data) InvalidKey in
  ok_or (try_into 32 l) InvalidKey.

Definition ServerSigner_load_or_generate (path : FilePath) (fresh : bytes) : handler Disk CryptoError bytes :=
  fun d =>
    if path_exists path d then
      (let! data := with_io Crypto_Io (fs_read path) in hlift (signer_from_slice data)) d
    else
      (with_io Crypto_Io (create_dir_all (path_dir path)) ;!
       with_io Crypto_Io (fs_write path (b64_encode fresh)) ;!
       hret fresh) d.

(** ** The administrator's credentials *)

Definition credentials_from_slice (data : bytes) : result CredentialsFile CoordError :=
  ok_or (j ← json_from_slice data; deserialize credentials_file_format j) AdminCredentials.

Definition read_credentials (path : FilePath) : handler Disk CoordError CredentialsFile :=
  let! data := with_io Coord_Io (fs_read path) in
  hlift (credentials_from_slice data).

(** [token] is the random suffix of the temporary file. *)
Definition write_credentials (path : FilePath) (file : CredentialsFile) (token : bytes)
    : handler Disk CoordError unit :=
  (if bool_decide (path_dir path = []) then hret tt
   else with_io Coord_Io (create_dir_all (path_dir path))) ;!
  with_io Coord_Io
    (replace_private (with_extension path (str "tmp-" ++ token)) path
       (to_vec_pretty (serialize credentials_file_format file))) ;!
  with_io Coord_Io (set_permissions path PRIVATE_MODE).

Section credentials.
Context {P : PasswordOps}.

Definition AdminAuth_load_or_create (path : FilePath) (password salt token : bytes)
    : handler Disk CoordError (AdminAuth * option bytes) := fun d =>
  if path_exists path d then
    (let! file := read_credentials path in
     if PasswordHash_new (cf_password_hash file)
     then hret (mkAuth (cf_username file) (cf_password_hash file) ∅, None)
     else hfail AdminCredentials) d
  else
    (let! h := hlift (ok_or (hash_password salt password) AdminCredentials) in
     let file := mkCredentials ADMIN_USERNAME h in
     write_credentials path file token ;!
     hret (mkAuth (cf_username file) (cf_password_hash file) ∅, Some password)) d.

(** Credentials that cannot be read are overwritten, under the default name. *)
Definition AdminAuth_reset_password (path : FilePath) (password : option bytes) (fresh salt token : bytes)
    : handler Disk CoordError bytes := fun d =>
  let '(username, d) :=
    if path_exists path d then
      match read_credentials path d with
      | (Ok file, d) => (Some (cf_username file), d)
      | (Err _, d) => (None, d)
      end
    else (None, d) in
  let username := match username with Some (c :: u) => c :: u | _ => ADMIN_USERNAME end in
  let password := default fresh password in
  (if (length password <? 8)%nat then hfail AdminCredentials
   else
     let! h := hlift (ok_or (hash_password salt password) AdminCredentials) in
     write_credentials path (mkCredentials username h) token ;!
     hret password) d.

End credentials.

(** ** The state of a peer *)

Definition STATE_FILE : bytes := str "state.json".
Definition IDENTITY_FILE : bytes := str "identity".

Definition state_from_slice (data : bytes) : result SavedState DiagnosticError :=
  ok_or (j ← json_from_slice data; state_from_value j) Diag_Serialization.

Definition PeerState_load (dir : list bytes) : handler Disk DiagnosticError SavedState :=
  let! data := with_io Diag_Io (fs_read (dir_join dir STATE_FILE)) in
  hlift (state_from_slice data).

Definition PeerState_save (s : SavedState) (dir : list bytes) : handler Disk DiagnosticError unit :=
  with_io Diag_Io (create_dir_all dir) ;!
  with_io Diag_Io (replace_private (dir_join dir (str "state.json.tmp")) (dir_join dir STATE_FILE)
                     (to_vec_pretty (serialize state_format s))).

Definition identity_path (dir : list bytes) : FilePath := dir_join dir IDENTITY_FILE.

End files.

(** ** What is written has a text *)

Class Plain {A} (f : format A) : Prop := plain a : writable f a -> json_plain (serialize f a) = true.

#[export] Instance string_format_plain : Plain string_format.
Proof. done. Qed.

#[export] Instance uint_format_plain bits : 0 <= bits <= 64 -> Plain (uint_format bits).
Proof.
  intros Hb n [Hn Hu]. cbn. pose proof (Z.pow_le_mono_r 2 bits 64 ltac:(lia) ltac:(lia)). lia.
Qed.

#[export] Instance list_format_plain {A} (f : format A) `{!Plain f} : Plain (list_format f).
Proof.
  intros l Hl. cbn in *. induction Hl as [|a l Ha Hl IH]; cbn; [done|]. by rewrite (plain (f := f)), IH.
Qed.

#[export] Instance option_format_plain {A} (f : format A) `{!Plain f} : Plain (option_format f).
Proof. intros [a|] Ha; [by apply (plain (f := f))|done]. Qed.

#[export] Instance text_format_plain {A} show parse (ok : A -> Prop) : Plain (text_format show parse ok).
Proof. done. Qed.

#[export] Hint Extern 1 (Plain (uint_format _)) => apply uint_format_plain; lia : typeclass_instances.
#[export] Hint Extern 1 (Plain (text_format _ _ _)) => apply text_format_plain : typeclass_instances.

(** The object of a structure has a text if its fields do. *)
Lemma object_plain l : Forall (fun kv => json_plain kv.2 = true) l -> json_plain (JObject l) = true.
Proof. intros Hl. cbn. apply forallb_forall. intros kv Hkv. by eapply Forall_forall in Hl; [|apply list_elem_of_In]. Qed.

Ltac plain_object :=
  apply object_plain;
  repeat (apply Forall_cons; split; [apply plain; first [cbn in *; tauto|by apply Forall_true]|]);
  apply Forall_nil_2.

Section plain.
Context {T : TextOps}.

#[export] Instance node_id_format_plain : Plain node_id_format.
Proof. done. Qed.
#[export] Instance base64_array_plain n : Plain (base64_array_serde n).
Proof. done. Qed.
#[export] Instance base64_bytes_plain : Plain base64_bytes_serde.
Proof. done. Qed.
#[export] Instance candidate_format_plain : Plain candidate_format.
Proof. by intros []. Qed.
#[export] Instance capability_format_plain : Plain capability_format.
Proof. by intros []. Qed.
#[export] Instance cidr4_format_plain : Plain cidr4_format.
Proof. intros [] Hc. cbn in Hc. plain_object. Qed.
#[export] Instance cidr6_format_plain : Plain cidr6_format.
Proof. intros [] Hc. cbn in Hc. plain_object. Qed.
#[export] Instance peer_info_format_plain : Plain peer_info_format.
Proof. intros [] Hc. cbn in Hc. plain_object. Qed.
#[export] Instance snapshot_format_plain : Plain snapshot_format.
Proof. intros [] Hc. cbn in Hc. plain_object. Qed.
#[export] Instance credential_format_plain : Plain credential_format.
Proof. intros [] Hc. cbn in Hc. plain_object. Qed.
#[export] Instance state_format_plain : Plain state_format.
Proof. intros [] Hc. cbn in Hc. plain_object. Qed.

End plain.

(** ** Round trips *)

Section keys.
Context {T : TextOps} {TL : TextLaws T} {J : JsonText} {JL : JsonTextLaws J}.

#[local] Instance identity_file_sound : Sound identity_file_format.
Proof.
  intros [s n] _. cbn [serialize deserialize identity_file_format if_signing_private if_noise_private].
  assert (forall u v, once [str "signing_private"; str "noise_private"]
    (JObject [(str "signing_private", u); (str "noise_private", v)]) = true) as -> by by vm_compute.
  read_fields.
Qed.

#[local] Instance credentials_file_sound : Sound credentials_file_format.
Proof.
  intros [u h] _. cbn [serialize deserialize credentials_file_format cf_username cf_password_hash].
  assert (forall u v, once [str "username"; str "password_hash"]
    (JObject [(str "username", u); (str "password_hash", v)]) = true) as -> by by vm_compute.
  read_fields.
Qed.

Lemma text_sound {A} (f : format A) `{!Sound f, !Plain f} a :
  writable f a -> (j ← json_from_slice (to_vec_pretty (serialize f a)); deserialize f j) = Some a.
Proof.
  intros Ha. rewrite json_text_roundtrip by by apply (plain (f := f)). cbn. by apply (sound (f := f)).
Qed.

#[local] Instance identity_file_plain : Plain identity_file_format.
Proof. by intros []. Qed.
#[local] Instance credentials_file_plain : Plain credentials_file_format.
Proof. by intros []. Qed.

Definition secrets_ok (i : Identity) : Prop := length (id_signing i) = 32%nat /\ length (id_noise i) = 32%nat.

Lemma identity_roundtrip i :
  secrets_ok i -> identity_from_slice (to_vec_pretty (identity_file i)) = Ok i.
Proof.
  intros [Hs Hn]. unfold identity_from_slice, identity_file. rewrite (text_sound identity_file_format) by done.
  cbn. rewrite !b64_roundtrip. cbn. unfold try_into. rewrite Hs, Hn. cbn. by destruct i.
Qed.

Lemma credentials_roundtrip f :
  credentials_from_slice (to_vec_pretty (serialize credentials_file_format f)) = Ok f.
Proof. unfold credentials_from_slice. by rewrite (text_sound credentials_file_format). Qed.

Lemma state_roundtrip s :
  writable state_format s -> state_from_slice (to_vec_pretty (serialize state_format s)) = Ok s.
Proof.
  intros Hs. unfold state_from_slice. rewrite json_text_roundtrip by by apply (plain (f := state_format)).
  cbn [mbind option_bind]. by rewrite state_value_roundtrip.
Qed.

(** ** The state file *)

(** What loads from the disk as it is, nothing failing *)
Definition stored_state (dir : list bytes) (d : Disk) : result SavedState DiagnosticError :=
  (PeerState_load dir (set_outcomes [] d)).1.

Lemma stored_state_file dir d :
  stored_state dir d = match dk_files d !! dir_join dir STATE_FILE with
                       | Some f => state_from_slice (file_data f)
                       | None => Err Diag_Io
                       end.
Proof.
  unfold stored_state, PeerState_load, with_io, hbind. rewrite fs_read_calm by done. cbn [dk_files set_outcomes].
  by destruct (dk_files d !! _).
Qed.

Lemma with_io_run {E A} (e : E) (m : io A) d r d' :
  with_io e m d = (r, d') -> exists r0, m d = (r0, d') /\ r = rmap_err (fun _ => e) r0.
Proof. unfold with_io. destruct (m d) as [r0 d0]. intros [= <- <-]. eauto. Qed.

(** The files after saving *)
Lemma state_saved s dir d r d' :
  writable state_format s -> PeerState_save s dir d = (r, d') ->
  (stored_state dir d' = Ok s /\ file_mode <$> dk_files d' !! dir_join dir STATE_FILE = Some PRIVATE_MODE
   \/ r = Err Diag_Io /\ dk_files d' !! dir_join dir STATE_FILE = dk_files d !! dir_join dir STATE_FILE
      /\ stored_state dir d' = stored_state dir d)
  /\ forall p, p <> dir_join dir STATE_FILE -> p <> dir_join dir (str "state.json.tmp") ->
       dk_files d' !! p = dk_files d !! p.
Proof.
  intros Hs E. unfold PeerState_save, hbind in E.
  destruct (with_io Diag_Io (create_dir_all dir) d) as [r1 d1] eqn:E1.
  apply with_io_run in E1 as (r0 & E1 & ->).
  assert (Hf1 : dk_files d1 = dk_files d) by (apply map_eq; intros p; by eapply (touches_create []); [exact E1|set_solver]).
  rewrite !stored_state_file. destruct r0 as [[]|e]; cbn [rmap_err] in E.
  2: { injection E as <- <-. rewrite Hf1. auto 6. }
  apply with_io_run in E as (r2 & E2 & ->). apply replace_private_atomic in E2 as [Ha Ho]; [|done].
  rewrite Hf1 in *. split; [|eauto]. destruct Ha as [->|[-> Hr]].
  - left. cbn [file_data]. by rewrite state_roundtrip.
  - right. by destruct r2 as [[]|[]].
Qed.

(** C15: Saving the state is atomic: whatever operation of it fails, and wherever
    in it the process dies, what loads afterwards is the state that was saved or
    what loaded before, and it is the state that was saved if saving ended well;
    no other file is changed than the state and its temporary file, and the state
    is readable by the owner alone once it was replaced. *)
Theorem state_save_atomic s dir d r d' :
  writable state_format s -> PeerState_save s dir d = (r, d') ->
  (stored_state dir d' = Ok s /\ file_mode <$> dk_files d' !! dir_join dir STATE_FILE = Some PRIVATE_MODE
   \/ r = Err Diag_Io /\ dk_files d' !! dir_join dir STATE_FILE = dk_files d !! dir_join dir STATE_FILE
      /\ stored_state dir d' = stored_state dir d)
  /\ forall p, p <> dir_join dir STATE_FILE -> p <> dir_join dir (str "state.json.tmp") ->
       dk_files d' !! p = dk_files d !! p.
Proof. apply state_saved. Qed.

(** ** The identity *)

Lemma Identity_load_stored path i f d :
  secrets_ok i -> dk_outcomes d = [] -> dk_files d !! path = Some f ->
  file_data f = to_vec_pretty (identity_file i) ->
  forall fresh, Identity_load_or_generate path fresh d = (Ok i, d).
Proof.
  intros Hi Ho Hf Hd fresh. unfold Identity_load_or_generate, path_exists. rewrite Hf, bool_decide_eq_true_2 by done.
  unfold Identity_load, with_io, hbind. rewrite fs_read_calm by done. rewrite Hf. cbn [rmap_err].
  unfold hlift. by rewrite Hd, identity_roundtrip.
Qed.

(** Saving an identity: it is stored and private, or the file is as it was. *)
Lemma Identity_save_atomic i path d r d' :
  with_extension path (str "tmp") <> path -> Identity_save i path d = (r, d') ->
  dk_files d' !! path = Some (mkFile (to_vec_pretty (identity_file i)) PRIVATE_MODE)
  \/ r = Err Crypto_Io /\ dk_files d' !! path = dk_files d !! path.
Proof.
  intros Hne E. unfold Identity_save, hbind in E.
  destruct (with_io Crypto_Io (create_dir_all (path_dir path)) d) as [r1 d1] eqn:E1.
  apply with_io_run in E1 as (r0 & E1 & ->).
  assert (Hf1 : dk_files d1 !! path = dk_files d !! path) by (by eapply (touches_create []); [exact E1|set_solver]).
  destruct r0 as [[]|e]; cbn [rmap_err] in E; [|right; by simplify_eq].
  apply with_io_run in E as (r2 & E2 & ->). apply replace_private_atomic in E2 as [Ha _]; [|done].
  rewrite <- Hf1. destruct Ha as [->|[-> Hr]]; [by left|]. right. by destruct r2 as [[]|[]].
Qed.

Lemma Identity_save_calm i path d :
  with_extension path (str "tmp") <> path -> dk_outcomes d = [] ->
  exists d', Identity_save i path d = (Ok tt, d').
Proof.
  intros Hne Ho. destruct (create_dir_all_calm (path_dir path) d Ho) as (d1 & E1 & Ho1 & _ & Hdir).
  destruct (replace_private_calm (with_extension path (str "tmp")) path (to_vec_pretty (identity_file i)) d1)
    as (d2 & E2 & _); [done..|].
  exists d2. unfold Identity_save, with_io, hbind. rewrite E1. cbn [rmap_err]. by rewrite E2.
Qed.

(** A node keeps its identity.  When the first start has generated and saved
    one, every later start loads that one, whatever it would have generated,
    and the file is private.  When saving it failed or was cut off at any point,
    the next start succeeds all the same, with that identity if it was saved and
    its own otherwise: no crash leaves an identity that cannot be loaded. *)
Theorem identity_survives path i d r d' :
  with_extension path (str "tmp") <> path -> secrets_ok i -> dk_files d !! path = None ->
  Identity_load_or_generate path i d = (r, d') ->
  (r = Ok i \/ r = Err Crypto_Io)
  /\ (dk_files d' !! path = Some (mkFile (to_vec_pretty (identity_file i)) PRIVATE_MODE)
      /\ (forall j, Identity_load_or_generate path j (set_outcomes [] d') = (Ok i, set_outcomes [] d'))
      \/ r = Err Crypto_Io /\ forall j, (Identity_load_or_generate path j (set_outcomes [] d')).1 = Ok j).
Proof.
  intros Hne Hi Hn E. unfold Identity_load_or_generate at 1, path_exists in E.
  rewrite Hn, bool_decide_eq_false_2 in E by (by intros []). unfold hbind in E.
  destruct (Identity_save i path d) as [rs ds] eqn:Es. apply Identity_save_atomic in Es as Ha; [|done].
  assert (ds = d' /\ r = (match rs with Ok _ => Ok i | Err e => Err e end)) as [-> ->]
    by (destruct rs; by injection E as <- <-).
  destruct Ha as [Hf|[-> Hf]].
  - split; [|left; split; [done|]; intros j; by eapply Identity_load_stored].
    destruct rs as [[]|e]; [by left|right].
    unfold Identity_save, hbind in Es. destruct (with_io _ (create_dir_all _) d) as [[[]|e'] d1] eqn:E1;
      [apply with_io_run in Es as ([[]|[]] & _ & [= ->])|apply with_io_run in E1 as ([[]|[]] & _ & [= ->]); simplify_eq]; done.
  - split; [by right|]. right. split; [done|]. intros j. rewrite Hn in Hf.
    unfold Identity_load_or_generate, path_exists. cbn [dk_files set_outcomes].
    rewrite Hf, bool_decide_eq_false_2 by (by intros []).
    destruct (Identity_save_calm j path (set_outcomes [] d') Hne eq_refl) as [d2 E2].
    unfold hbind. by rewrite E2.
Qed.

(** ** The signing key *)

(** The signing key survives too when it was written whole; but it is not made
    private. *)
Lemma signer_survives path key d d' :
  length key = 32%nat -> dk_files d !! path = None ->
  ServerSigner_load_or_generate path key d = (Ok key, d') ->
  file_mode <$> dk_files d' !! path = Some (dk_default_mode d)
  /\ forall fresh, ServerSigner_load_or_generate path fresh (set_outcomes [] d') = (Ok key, set_outcomes [] d').
Proof.
  intros Hk Hn E. unfold ServerSigner_load_or_generate at 1, path_exists in E.
  rewrite Hn, bool_decide_eq_false_2 in E by (by intros []). unfold hbind in E.
  destruct (with_io Crypto_Io (create_dir_all (path_dir path)) d) as [r1 d1] eqn:E1.
  apply with_io_run in E1 as (r0 & E1 & ->).
  assert (Hf1 : dk_files d1 !! path = None) by (rewrite <- Hn; by eapply (touches_create []); [exact E1|set_solver]).
  assert (Hm1 : dk_default_mode d1 = dk_default_mode d)
    by (unfold create_dir_all in E1; disk_cases; simplify_eq; cbn; congruence).
  destruct r0 as [[]|e]; cbn [rmap_err] in E; [|done].
  destruct (with_io Crypto_Io (fs_write path (b64_encode key)) d1) as [r2 d2] eqn:E2.
  apply with_io_run in E2 as (r3 & E2 & ->). destruct r3 as [[]|e]; cbn [rmap_err] in E; [|done].
  injection E as <-.
  assert (Hf : dk_files d2 !! path = Some (mkFile (b64_encode key) (dk_default_mode d))).
  { unfold fs_write, put_file in E2. disk_cases; simplify_eq; cbn; rewrite lookup_insert_eq; do 2 f_equal; congruence. }
  split; [by rewrite Hf|]. intros fresh. unfold ServerSigner_load_or_generate, path_exists. cbn [dk_files set_outcomes].
  rewrite Hf, bool_decide_eq_true_2 by done. unfold with_io, hbind. rewrite fs_read_calm by done.
  cbn [dk_files set_outcomes]. rewrite Hf. cbn [rmap_err file_data]. unfold hlift, signer_from_slice.
  rewrite b64_roundtrip. cbn. unfold try_into. by rewrite Hk.
Qed.

(** A write that is cut off after [n] bytes leaves a key that cannot be read, and
    every later start fails. *)
Lemma signer_interrupted path key n d :
  dk_files d !! path = None -> dk_outcomes d = [Proceeds; Fails (Some n)] ->
  signer_from_slice (take n (b64_encode key)) = Err InvalidKey ->
  let d' := (ServerSigner_load_or_generate path key d).2 in
  forall fresh, ServerSigner_load_or_generate path fresh d' = (Err InvalidKey, d').
Proof.
  intros Hn Ho He d' fresh.
  assert (Hd : dk_outcomes d' = [] /\ exists m, dk_files d' !! path = Some (mkFile (take n (b64_encode key)) m)).
  { unfold d', ServerSigner_load_or_generate, path_exists. rewrite Hn, bool_decide_eq_false_2 by (by intros []).
    unfold hbind, with_io, create_dir_all, next_outcome. rewrite Ho. cbn [rmap_err set_outcomes set_dirs].
    unfold fs_write, next_outcome. cbn [dk_outcomes set_dirs set_outcomes dk_dirs].
    rewrite bool_decide_eq_true_2.
    - cbn. split; [done|]. eexists. by rewrite lookup_insert_eq.
    - apply ancestors_self. }
  clearbody d'. destruct Hd as [Ho' [m Hf]].
  unfold ServerSigner_load_or_generate, path_exists. rewrite Hf, bool_decide_eq_true_2 by done.
  unfold with_io, hbind. rewrite fs_read_calm by done. rewrite Hf. cbn [rmap_err file_data]. unfold hlift. by rewrite He.
Qed.

(** ** The administrator's credentials *)

(** The file as the component [Admin] has it: absent, unreadable or the
    credentials *)
Definition credentials_store (path : FilePath) (d : Disk) : option (option CredentialsFile) :=
  (fun f => match credentials_from_slice (file_data f) with Ok c => Some c | Err _ => None end)
  <$> dk_files d !! path.

Lemma write_credentials_calm path file token d :
  with_extension path (str "tmp-" ++ token) <> path -> dk_outcomes d = [] ->
  exists d', write_credentials path file token d = (Ok tt, d')
    /\ dk_files d' !! path
       = Some (mkFile (to_vec_pretty (serialize credentials_file_format file)) PRIVATE_MODE).
Proof.
  intros Hne Ho. unfold write_credentials.
  assert (H1 : exists d1, (if bool_decide (path_dir path = []) then hret tt
      else with_io Coord_Io (create_dir_all (path_dir path))) d = (Ok tt, d1)
    /\ dk_outcomes d1 = [] /\ (path_dir path = [] \/ path_dir path ∈ dk_dirs d1)).
  { case_bool_decide as Hd; [by exists d; auto|].
    destruct (create_dir_all_calm (path_dir path) d Ho) as (d1 & E1 & Ho1 & _ & Hdir).
    exists d1. unfold with_io. by rewrite E1. }
  destruct H1 as (d1 & E1 & Ho1 & Hdir). unfold hbind at 1. rewrite E1.
  set (data := to_vec_pretty _).
  destruct (replace_private_calm (with_extension path (str "tmp-" ++ token)) path data d1)
    as (d2 & E2 & Ho2 & _); [done..|].
  unfold hbind, with_io at 1. rewrite E2. cbn [rmap_err].
  apply replace_private_atomic in E2 as [[Hf|[_ []]] _]; [|done..].
  unfold with_io, set_permissions, next_outcome. rewrite Ho2, Hf. cbn [rmap_err file_data].
  eexists. split; [done|]. cbn. by rewrite lookup_insert_eq.
Qed.

Context {P : PasswordOps}.

Lemma write_credentials_store path file token d :
  with_extension path (str "tmp-" ++ token) <> path -> dk_outcomes d = [] ->
  exists d', write_credentials path file token d = (Ok tt, d')
    /\ credentials_store path d' = Some (Some file)
    /\ file_mode <$> dk_files d' !! path = Some PRIVATE_MODE.
Proof.
  intros Hne Ho. destruct (write_credentials_calm path file token d Hne Ho) as (d' & E & Hf).
  exists d'. split; [done|]. unfold credentials_store. rewrite Hf. cbn [fmap option_fmap option_map file_data].
  by rewrite credentials_roundtrip.
Qed.

(** Reading the file that is there, nothing failing *)
Lemma read_credentials_calm path f d :
  dk_outcomes d = [] -> dk_files d !! path = Some f ->
  read_credentials path d = (credentials_from_slice (file_data f), d).
Proof.
  intros Ho Hf. unfold read_credentials, with_io, hbind. by rewrite fs_read_calm, Hf by done.
Qed.

Lemma credentials_from_slice_Err data e : credentials_from_slice data = Err e -> e = AdminCredentials.
Proof. unfold credentials_from_slice. destruct (_ ≫= _); cbn; congruence. Qed.

Lemma load_or_create_refines path fresh salt token d r d' :
  with_extension path (str "tmp-" ++ token) <> path -> dk_outcomes d = [] ->
  AdminAuth_load_or_create path fresh salt token d = (r, d') ->
  load_or_create fresh salt (credentials_store path d) = (r, credentials_store path d').
Proof.
  intros Hne Ho E. unfold AdminAuth_load_or_create, path_exists in E. unfold credentials_store at 1.
  destruct (dk_files d !! path) as [f|] eqn:Hf.
  - rewrite bool_decide_eq_true_2 in E by done. unfold hbind in E.
    rewrite (read_credentials_calm _ _ _ Ho Hf) in E. cbn [fmap option_fmap option_map load_or_create].
    destruct (credentials_from_slice (file_data f)) as [c|e] eqn:Ec.
    + assert (Hs : credentials_store path d = Some (Some c))
        by (unfold credentials_store; rewrite Hf; cbn [fmap option_fmap option_map]; by rewrite Ec).
      destruct (PasswordHash_new (cf_password_hash c)); injection E as <- <-; cbn; by rewrite Hs.
    + injection E as <- <-. rewrite (credentials_from_slice_Err _ _ Ec).
      unfold credentials_store. rewrite Hf. cbn [fmap option_fmap option_map]. by rewrite Ec.
  - rewrite bool_decide_eq_false_2 in E by (by intros []). cbn [fmap option_fmap option_map load_or_create].
    unfold hbind, hlift in E. destruct (hash_password salt fresh) as [h|]; cbn [ok_or] in E.
    + destruct (write_credentials_store path (mkCredentials ADMIN_USERNAME h) token d Hne Ho) as (d1 & E1 & Hs & _).
      rewrite E1 in E. injection E as <- <-. by rewrite Hs.
    + injection E as <- <-. unfold credentials_store. by rewrite Hf.
Qed.

Lemma reset_password_refines path password fresh salt token d r d' :
  with_extension path (str "tmp-" ++ token) <> path -> dk_outcomes d = [] ->
  AdminAuth_reset_password path password fresh salt token d = (r, d') ->
  reset_password password fresh salt (credentials_store path d) = (r, credentials_store path d')
  /\ forall p, r = Ok p -> file_mode <$> dk_files d' !! path = Some PRIVATE_MODE.
Proof.
  intros Hne Ho E. unfold AdminAuth_reset_password, path_exists in E.
  set (username := match credentials_store path d with
      | Some (Some f) => if bool_decide (cf_username f = []) then ADMIN_USERNAME else cf_username f
      | _ => ADMIN_USERNAME
      end).
  assert (Hr : reset_password password fresh salt (credentials_store path d)
    = if (length (default fresh password) <? 8)%nat then (Err AdminCredentials, credentials_store path d)
      else match hash_password salt (default fresh password) with
           | None => (Err AdminCredentials, credentials_store path d)
           | Some h => (Ok (default fresh password), Some (Some (mkCredentials username h)))
           end) by done.
  rewrite Hr. clear Hr.
  assert (Hu : exists u, (if bool_decide (is_Some (dk_files d !! path)) then
         match read_credentials path d with
         | (Ok file, d) => (Some (cf_username file), d)
         | (Err _, d) => (None, d)
         end else (None, d)) = (u, d)
      /\ match u with Some (c :: u) => c :: u | _ => ADMIN_USERNAME end = username).
  { unfold username, credentials_store. destruct (dk_files d !! path) as [f|] eqn:Hf.
    - rewrite bool_decide_eq_true_2 by done. rewrite (read_credentials_calm _ _ _ Ho Hf).
      cbn [fmap option_fmap option_map]. destruct (credentials_from_slice (file_data f)) as [c|e]; [|by eexists].
      eexists. split; [done|]. by destruct (cf_username c).
    - rewrite bool_decide_eq_false_2 by (by intros []). by eexists. }
  destruct Hu as (u & Eu & Hu). rewrite Eu, Hu in E. clearbody username.
  destruct (_ <? 8)%nat; [by injection E as <- <-|]. unfold hbind, hlift in E.
  destruct (hash_password salt (default fresh password)) as [h|]; cbn [ok_or] in E; [|by injection E as <- <-].
  destruct (write_credentials_store path (mkCredentials username h) token d Hne Ho) as (d1 & E1 & Hs & Hm).
  rewrite E1 in E. injection E as <- <-. by rewrite Hs.
Qed.

End keys.
