(* ===== verification/KeyFilesSample.v ===== *)
(** * Files of a sample peer

    A text form of JSON values that satisfies the laws of [JsonText], and runs of
    the file operations on a small disk: a peer saves its state over an older
    one and is cut off, a node starts twice, the administrator's password is
    reset. *)
From S2P Require Import Prelude Net Encoding Wire NodeId Snapshot SignedBytes Crypto Control.
From S2P Require Import CoordDb Coord Text Dns Stun AddrText CoordClient Codec NodeView Diagnostic.
From S2P Require Import Admin Files Serde KeyFiles.

(** ** A text for JSON *)

Lemma json_ind' (Q : Json -> Prop) :
  Q JNull -> (forall b, Q (JBool b)) -> (forall n, Q (JNumber n)) -> (forall t, Q (JFloat t)) ->
  (forall s, Q (JString s)) -> (forall l, Forall Q l -> Q (JArray l)) ->
  (forall l, Forall (fun kv => Q kv.2) l -> Q (JObject l)) -> forall j, Q j.
Proof.
  intros H0 H1 H2 H3 H4 H5 H6. fix IH 1. intros [| | | | |l|l]; [done..| |].
  - apply H5. induction l as [|j l IHl]; constructor; [apply IH|apply IHl].
  - apply H6. induction l as [|[k j] l IHl]; constructor; [apply IH|apply IHl].
Qed.

Fixpoint enc_json (j : Json) : bytes :=
  match j with
  | JNull => [0]
  | JBool b => [1; if b then 1 else 0]
  | JNumber n => [2; n]
  | JFloat t => 3 :: enc b_codec t
  | JString s => 4 :: enc b_codec s
  | JArray l => 5 :: Z.of_nat (length l) :: concat (map enc_json l)
  | JObject l => 6 :: Z.of_nat (length l) :: concat (map (fun kv => enc b_codec kv.1 ++ enc_json kv.2) l)
  end.

Section dec.
Context (dec_item : bytes -> option (Json * bytes)).
Fixpoint dec_items (n : nat) (l : bytes) : option (list Json * bytes) :=
  match n with
  | O => Some ([], l)
  | S n' => '(j, l) ← dec_item l; '(js, l) ← dec_items n' l; Some (j :: js, l)
  end.
Fixpoint dec_fields (n : nat) (l : bytes) : option (list (bytes * Json) * bytes) :=
  match n with
  | O => Some ([], l)
  | S n' =>
      '(k, l) ← dec b_codec l; '(j, l) ← dec_item l;
      '(js, l) ← dec_fields n' l; Some ((k, j) :: js, l)
  end.
End dec.

Fixpoint dec_json (fuel : nat) (l : bytes) : option (Json * bytes) :=
  match fuel with
  | O => None
  | S fuel' =>
      match l with
      | 0 :: l => Some (JNull, l)
      | 1 :: b :: l => Some (JBool (b =? 1), l)
      | 2 :: n :: l => Some (JNumber n, l)
      | 3 :: l => '(t, l) ← dec b_codec l; Some (JFloat t, l)
      | 4 :: l => '(t, l) ← dec b_codec l; Some (JString t, l)
      | 5 :: n :: l => '(js, l) ← dec_items (dec_json fuel') (Z.to_nat n) l; Some (JArray js, l)
      | 6 :: n :: l => '(js, l) ← dec_fields (dec_json fuel') (Z.to_nat n) l; Some (JObject js, l)
      | _ => None
      end
  end.

Lemma concat_lengths {A} (f : A -> bytes) (x : A) l :
  x ∈ l -> (length (f x) <= length (concat (map f l)))%nat.
Proof.
  induction l as [|y l IH]; [by intros ?%not_elem_of_nil|].
  cbn. rewrite length_app. intros [->|Hx]%elem_of_cons; [lia|]. specialize (IH Hx). lia.
Qed.

Lemma dec_enc_json j : forall fuel r, (length (enc_json j) <= fuel)%nat -> dec_json fuel (enc_json j ++ r) = Some (j, r).
Proof.
  induction j as [| | | | |l Hl|l Hl] using json_ind'; intros [|fuel] r Hf; cbn [enc_json length] in Hf; try lia.
  - done.
  - cbn. by destruct b.
  - done.
  - cbn [enc_json app dec_json]. by rewrite dec_enc.
  - cbn [enc_json app dec_json]. by rewrite dec_enc.
  - cbn [enc_json app dec_json]. rewrite Nat2Z.id.
    assert (E : dec_items (dec_json fuel) (length l) (concat (map enc_json l) ++ r) = Some (l, r)); [|by rewrite E].
    assert (Hb : forall j, j ∈ l -> (length (enc_json j) <= fuel)%nat).
    { intros j Hj. pose proof (concat_lengths enc_json j l Hj). lia. }
    clear Hf. induction Hl as [|j l Hj Hl IH]; [done|]. cbn [length map concat dec_items]. rewrite <- app_assoc, Hj.
    + cbn. rewrite IH; [done|]. intros j' Hj'. apply Hb. by right.
    + apply Hb. by left.
  - cbn [enc_json app dec_json]. rewrite Nat2Z.id.
    set (f := fun kv : bytes * Json => enc b_codec kv.1 ++ enc_json kv.2) in *.
    assert (E : dec_fields (dec_json fuel) (length l) (concat (map f l) ++ r) = Some (l, r)); [|by rewrite E].
    assert (Hb : forall kv, kv ∈ l -> (length (enc_json kv.2) <= fuel)%nat).
    { intros kv Hkv. pose proof (concat_lengths f kv l Hkv) as H1. unfold f in H1. rewrite length_app in H1.
      fold f in H1. lia. }
    clear Hf. induction Hl as [|[k j] l Hj Hl IH]; [done|]. cbn [length map concat dec_fields].
    unfold f at 1. cbn [fst snd] in *. rewrite <- !app_assoc, dec_enc. cbn [mbind option_bind]. rewrite Hj.
    + cbn [mbind option_bind]. rewrite IH; [done|]. intros kv Hkv. apply Hb. by right.
    + apply (Hb (k, j)). by left.
Qed.

#[export] Instance sample_json : JsonText := {|
  to_vec_pretty := enc_json;
  json_from_slice l := match dec_json (length l) l with Some (j, []) => Some j | _ => None end
|}.

#[export] Instance sample_json_laws : JsonTextLaws sample_json.
Proof.
  split. intros j _. cbn [json_from_slice to_vec_pretty sample_json].
  pose proof (dec_enc_json j (length (enc_json j)) []) as E. rewrite app_nil_r in E. by rewrite E.
Qed.

(** ** A peer's state *)

#[local] Existing Instance sample_text.

Definition sample_saved : SavedState :=
  mkSaved (str "wss://vela.example/ws") (replicate 32 7)
    (Some (mkCredential (replicate 32 1) (replicate 32 2) (replicate 32 3) (str "home") 100 200 (replicate 32 4) (replicate 64 5)))
    [SockV4 3232235777 41641] default_servers [str "stun.example:3478"] []
    [Host (SockV4 3232235777 41641); ServerReflexive (SockV6 (8193 * 2 ^ 112 + 1) 9 0 0)]
    (Some (mkSnapshot (replicate 16 0) 3 (Some (mkCidr4 1681915904 10)) None [] []
       [mkPeer (replicate 32 1) 7 (replicate 32 2) (replicate 32 3) [PeerReflexive (SockV4 1 2)] (Some 1681915905) None [9] [CapDiagnosticPing]]
       [replicate 32 1] 500 (replicate 64 6))).

Lemma sample_saved_writable : writable state_format sample_saved.
Proof. cbn. unfold sock_plain, is_u. cbn. repeat constructor; try done; lia. Qed.

Definition sample_dir : list bytes := [str "var"; str "vela"].

(** The state of a new peer is on the disk, and renaming the next one fails. *)
Definition sample_disk : Disk :=
  mkDisk {[dir_join sample_dir STATE_FILE :=
             mkFile (to_vec_pretty (serialize state_format (SavedState_new (str "wss://vela.example/ws") (replicate 32 7) []))) PRIVATE_MODE]}
    {[ [str "var"]; sample_dir ]} 420 [Proceeds; Proceeds; Proceeds; Fails None].

Definition sample_save := PeerState_save sample_saved sample_dir sample_disk.

Lemma state_save_atomic_witness :
  sample_save.1 = Err Diag_Io
  /\ (stored_state sample_dir sample_save.2 = Ok sample_saved
      /\ file_mode <$> dk_files sample_save.2 !! dir_join sample_dir STATE_FILE = Some PRIVATE_MODE
      \/ sample_save.1 = Err Diag_Io
         /\ dk_files sample_save.2 !! dir_join sample_dir STATE_FILE = dk_files sample_disk !! dir_join sample_dir STATE_FILE
         /\ stored_state sample_dir sample_save.2 = stored_state sample_dir sample_disk)
  /\ forall p, p <> dir_join sample_dir STATE_FILE -> p <> dir_join sample_dir (str "state.json.tmp") ->
       dk_files sample_save.2 !! p = dk_files sample_disk !! p.
Proof.
  split; [vm_compute; reflexivity|].
  apply (state_save_atomic sample_saved sample_dir sample_disk sample_save.1 sample_save.2).
  - apply sample_saved_writable.
  - apply surjective_pairing.
Defined.

(** ** A node's identity *)

Definition sample_identity : Identity := mkSecrets (replicate 32 11) (replicate 32 12).

(** The first start is cut off while it writes the temporary file. *)
Definition empty_disk (outcomes : list Outcome) : Disk := mkDisk ∅ ∅ 420 outcomes.
Definition sample_start :=
  Identity_load_or_generate (identity_path sample_dir) sample_identity (empty_disk [Proceeds; Fails (Some 5%nat)]).

Lemma identity_survives_witness :
  let path := identity_path sample_dir in
  (sample_start.1 = Ok sample_identity \/ sample_start.1 = Err Crypto_Io)
  /\ (dk_files sample_start.2 !! path = Some (mkFile (to_vec_pretty (identity_file sample_identity)) PRIVATE_MODE)
      /\ (forall j, Identity_load_or_generate path j (set_outcomes [] sample_start.2)
                    = (Ok sample_identity, set_outcomes [] sample_start.2))
      \/ sample_start.1 = Err Crypto_Io
         /\ forall j, (Identity_load_or_generate path j (set_outcomes [] sample_start.2)).1 = Ok j).
Proof.
  apply (identity_survives (identity_path sample_dir) sample_identity (empty_disk [Proceeds; Fails (Some 5%nat)])
    sample_start.1 sample_start.2); [by vm_compute|done|done|apply surjective_pairing].
Defined.

(** The two cases: a start that goes through, and one that does not *)
Example identity_saved_once :
  let d := (Identity_load_or_generate (identity_path sample_dir) sample_identity (empty_disk [])).2 in
  (Identity_load_or_generate (identity_path sample_dir) (mkSecrets [] []) d).1 = Ok sample_identity.
Proof. by vm_compute. Qed.
Example identity_cut_off :
  sample_start.1 = Err Crypto_Io /\ path_exists (identity_path sample_dir) sample_start.2 = false.
Proof. by vm_compute. Qed.

(** The signing key of the coordinator, cut off after four bytes *)
Lemma signer_interrupted_sample :
  let path := dir_join sample_dir (str "server.key") in
  let d := (ServerSigner_load_or_generate path (replicate 32 9) (empty_disk [Proceeds; Fails (Some 4%nat)])).2 in
  forall fresh, ServerSigner_load_or_generate path fresh d = (Err InvalidKey, d).
Proof. by apply (signer_interrupted (dir_join sample_dir (str "server.key")) (replicate 32 9) 4). Qed.

(** ** The administrator's password *)

#[local] Existing Instance toy_passwords.

Definition admin_path : FilePath := dir_join sample_dir (str "admin.json").

