(* ===== verification/Status.v ===== *)
(** * The status of a peer

    [VelaNode::peer_statuses] ([vela-core/src/lib.rs]) and what the dashboard is
    made from, [dashboard_snapshot] ([vela-diagnostic/src/lib.rs]): one entry per
    peer of the node, with the session, the attempt and the failure it has, put
    together with what the coordinator says of the peer. *)
From S2P Require Import Prelude Net Encoding Wire NodeId Snapshot SignedBytes Crypto Ip Replay Path Handshake.
From S2P Require Import NodeState NodePeers NodeSend NodeSession NodeData NodeTimers NodeInv NodeSample.
From S2P Require Import Control Text CoordDb Coord CoordInv Dns Stun CoordClient NodeView Codec ClientServer.
From S2P Require Import Diagnostic DiagnosticInv Runtime RuntimeInv RuntimeSample.

(** ** Data *)

Inductive PeerRuntimeState : Type := PeerIdle | Connecting | Connected | Unreachable.

Inductive PeerAttemptPhase : Type := Probing | Handshaking | Retrying.

Record PeerAttemptStatus : Type := mkAttemptStatus {
  pas_phase : PeerAttemptPhase;
  pas_started_at : Z;
  pas_timeout_at : Z;
  pas_retry_count : Z;
  pas_candidates : list PeerCandidateAttempt
}.

Record PeerRuntimeStatus : Type := mkRuntimeStatus {
  rs_node_id : bytes;
  rs_online : bool;
  rs_state : PeerRuntimeState;
  rs_candidates : list Candidate;
  rs_virtual_ipv4 : option Z;
  rs_virtual_ipv6 : option Z;
  rs_capabilities : list PeerCapability;
  rs_active_path : option SocketAddr;
  rs_active_path_type : option string;
  rs_path_mtu : option Z;
  rs_connected_at : option Z;
  rs_path_changed_at : option Z;
  rs_path_history : list PeerPathChange;
  rs_last_rx_at : option Z;
  rs_last_rtt_ms : option Z;
  rs_tx_bytes : Z;
  rs_rx_bytes : Z;
  rs_receive : PeerReceiveCounters;
  rs_attempt : option PeerAttemptStatus;
  rs_last_failure : option (FailureReason * Z)
}.

Record DashboardCoordinatorStatus : Type := mkCoordinatorStatus {
  dc_connected : bool;
  dc_checked_at : Z;
  dc_last_error : option bytes
}.

Record DashboardPeer : Type := mkDashboardPeer {
  db_node_id : bytes;
  db_name : bytes;
  db_coordinator_online : bool;
  db_coordinator_last_seen_at : option Z;
  db_virtual_ipv4 : option Z;
  db_virtual_ipv6 : option Z;
  db_capabilities : list PeerCapability;
  db_last_status_at : option Z;
  db_direct : PeerRuntimeStatus
}.

Record DashboardSnapshot : Type := mkDashboard {
  ds_generated_at : Z;
  ds_node_id : bytes;
  ds_server : bytes;
  ds_coordinator : DashboardCoordinatorStatus;
  ds_local_udp_addresses : list SocketAddr;
  ds_published_candidates : list Candidate;
  ds_snapshot_generation : option Z;
  ds_snapshot_expires_at : option Z;
  ds_credential_expires_at : option Z;
  ds_transport_receive : TransportReceiveCounters;
  ds_tun_packet_queue_drops : Z;
  ds_effective_tun_mtu : Z;
  ds_peers : list DashboardPeer
}.

(** The maximum of the times that are known *)
Definition latest (l : list (option Z)) : option Z :=
  foldr (fun o acc => match o, acc with
                      | Some a, Some b => Some (Z.max a b)
                      | Some a, None => Some a
                      | None, _ => acc
                      end) None l.

Definition NANOSECONDS : Z := 10 ^ 9.

(** ** The node *)

Section node.
Context {N : Type}.

(** The peers the table holds, as the heap has them *)
Definition table_peers (n : Node N) : list (PeerState N) :=
  omap (fun kv => n_heap n !! kv.2) (map_to_list (n_peers n)).

Definition retry_status (now : Z) (p : PeerState N) : PeerAttemptStatus :=
  mkAttemptStatus Retrying (from_option snd now (ps_last_failure p)) 0 (rc_attempts (ps_reconnect p))
    (map (fun c => mkCandidateAttempt c CandPending None None None) (candidates (ps_info p))).

Definition attempt_status (now : Z) (p : PeerState N) : option PeerAttemptStatus :=
  match ps_attempt p with
  | Some a =>
      Some (mkAttemptStatus (match at_handshake a with Some _ => Handshaking | None => Probing end)
              (at_started_at a) (at_timeout_at a) (rc_attempts (ps_reconnect p)) (at_candidates a))
  | None => if rc_requested (ps_reconnect p) then Some (retry_status now p) else None
  end.

(** One turn of the loop of [peer_statuses]: what is left out without a session
    is [None] or zero. *)
Definition peer_status (w : World) (p : PeerState N) : PeerRuntimeStatus :=
  let now := w_unix w in
  let info := ps_info p in
  let reconnect := ps_reconnect p in
  let last_rx s := Z.max 0 (now - Z.max 0 (w_instant w - as_last_rx s) / NANOSECONDS) in
  let state :=
    match ps_active p with
    | Some _ => Connected
    | None =>
        if bool_decide (is_Some (ps_attempt p)) || rc_requested reconnect || rc_running reconnect then Connecting
        else match ps_last_failure p with Some _ => Unreachable | None => PeerIdle end
    end in
  let active := ps_active p in
  mkRuntimeStatus (node_id info) (ps_online p) state (candidates info) (virtual_ipv4 info) (virtual_ipv6 info)
    (capabilities info) (as_path <$> active) ((fun s => candidate_type (candidates info) (as_path s)) <$> active)
    ((fun s => confirmed (as_path_mtu s)) <$> active) (as_created_at_unix <$> active)
    (s ← active; as_path_changed_at s) (ps_path_history p) (last_rx <$> active) (s ← active; as_last_rtt_ms s)
    (from_option as_tx_bytes 0 active) (from_option as_rx_bytes 0 active) (ps_receive p)
    (attempt_status now p) (ps_last_failure p).

Definition peer_statuses (w : World) (n : Node N) : list PeerRuntimeStatus :=
  sort_by_key rs_node_id (map (peer_status w) (table_peers n)).

(** [effective_virtual_mtu] of the node *)
Definition node_virtual_mtu (cfg : NodeConfig) (n : Node N) : Z :=
  effective_virtual_mtu (virtual_mtu cfg) (map as_path_mtu (omap ps_active (table_peers n))).

End node.

(** [summaries.iter().map(..).collect::<HashMap<_, _>>()]: of two summaries of a
    peer the later one is kept *)
Definition summary_by_id (summaries : list PeerSummary) : gmap bytes PeerSummary :=
  fold_left (fun m s => <[sum_node_id s := s]> m) summaries ∅.

Definition dashboard_peer (summary : option PeerSummary) (direct : PeerRuntimeStatus) : DashboardPeer :=
  mkDashboardPeer (rs_node_id direct) (from_option sum_name [] summary) (from_option sum_online false summary)
    (summary ≫= sum_last_seen) (rs_virtual_ipv4 direct) (rs_virtual_ipv6 direct) (rs_capabilities direct)
    (latest [summary ≫= sum_last_seen; rs_connected_at direct; rs_path_changed_at direct;
             pas_started_at <$> rs_attempt direct; snd <$> rs_last_failure direct])
    direct.

Section dashboard.
Context {HH : Hash} {HSg : SignatureOps} {HA : AeadOps} {HK : HkdfOps} {HN : NoiseOps}.
Context {HT : TextOps} {J : ControlJson}.
Context {W : Type} {Sk : StunSocket W} {Hp : Http W} {Tr : Transport W} {Ho : PeerHost W}.
Context (me : Local).

(** The clock is read for the peers, for the time it was made and for the time the
    coordinator was asked. *)
Definition dashboard_snapshot (coordinator_connected : bool) (summaries : list PeerSummary)
    (last_error : option bytes) : handler (Peer (HN := HN) (W := W)) DiagnosticError DashboardSnapshot :=
  let! w := on_world host_world in
  let! d := hget in
  let runtime := peer_statuses w (dp_node d) in
  let by_id := summary_by_id summaries in
  let peers := map (fun direct => dashboard_peer (by_id !! rs_node_id direct) direct) runtime in
  let! generated := on_world host_world in
  let! checked := on_world host_world in
  let! addrs := on_world host_local_addrs in
  let! d := hget in
  let state := dp_state d in
  hret (mkDashboard (w_unix generated) (pid_node_id (Identity_public (signing_secret me) (local_noise_public me)))
    (sv_server state) (mkCoordinatorStatus coordinator_connected (w_unix checked) last_error)
    (match addrs with Ok l => l | Err _ => [] end) (dp_candidates d) (generation <$> sv_snapshot state)
    (Snapshot.expires_at <$> sv_snapshot state) (cred_expires_at <$> sv_credential state)
    (n_receive (dp_node d)) 0 (node_virtual_mtu (dp_config d) (dp_node d)) peers).

End dashboard.

(** ** Facts *)

Lemma latest_spec l :
  match latest l with
  | Some m => Some m ∈ l /\ forall x, Some x ∈ l -> x <= m
  | None => forall x, Some x ∉ l
  end.
Proof.
  induction l as [|o l IH]; [intros x; apply not_elem_of_nil|]. cbn [latest foldr]. fold (latest l).
  destruct o as [a|]; destruct (latest l) as [b|].
  - destruct IH as [Hin Hle]. split.
    + destruct (Z.max_spec a b) as [[_ ->]|[_ ->]]; set_solver.
    + intros x [[= ->]|Hx]%elem_of_cons; [lia|]. specialize (Hle x Hx). lia.
  - split; [set_solver|]. intros x [[= ->]|Hx]%elem_of_cons; [done|]. by destruct (IH x).
  - destruct IH as [Hin Hle]. split; [set_solver|]. intros x [?|Hx]%elem_of_cons; [done|by apply Hle].
  - intros x [?|Hx]%elem_of_cons; [done|by destruct (IH x)].
Qed.

Section facts.
Context {HN : NoiseOps}.
Abbreviation N := (@NState HN).

(** The table of a consistent node: a peer for every id, under its own name *)
Lemma table_peers_ids (n : Node N) :
  peers_wf n -> map (fun p => node_id (ps_info p)) (table_peers n) = map fst (map_to_list (n_peers n)).
Proof.
  intros [_ Hp]. unfold table_peers.
  assert (Hall : Forall (fun kv => peer_named n kv.1 kv.2) (map_to_list (n_peers n))).
  { apply Forall_forall. intros [id r] Hin. apply Hp. by apply elem_of_map_to_list. }
  induction Hall as [|[id r] l (p & Hl & _ & Hid) Hall IH]; [done|]. cbn [omap list_omap snd map fst].
  cbn in Hl. rewrite Hl. cbn. by rewrite IH, Hid.
Qed.

Lemma table_peers_elem (n : Node N) p :
  p ∈ table_peers n <-> exists id r, n_peers n !! id = Some r /\ n_heap n !! r = Some p.
Proof.
  unfold table_peers. rewrite list_elem_of_omap. split.
  - intros ([id r] & Hin & Hl). exists id, r. by rewrite <- elem_of_map_to_list.
  - intros (id & r & Hin & Hl). exists (id, r). by rewrite elem_of_map_to_list.
Qed.

Lemma peer_statuses_ids w (n : Node N) :
  peers_wf n ->
  NoDup (map rs_node_id (peer_statuses w n))
  /\ forall id, id ∈ map rs_node_id (peer_statuses w n) <-> is_Some (n_peers n !! id).
Proof.
  intros Hn. unfold peer_statuses.
  assert (E : map rs_node_id (sort_by_key rs_node_id (map (peer_status w) (table_peers n)))
              ≡ₚ map fst (map_to_list (n_peers n))).
  { rewrite sort_by_key_perm, map_map. cbn [peer_status rs_node_id]. by rewrite table_peers_ids. }
  split; [rewrite E; apply NoDup_fst_map_to_list|]. intros id. rewrite E. split.
  - intros ([k r] & -> & Hin)%list_elem_of_fmap. apply elem_of_map_to_list in Hin. by eexists.
  - intros [r Hr]. apply list_elem_of_fmap. exists (id, r). by rewrite elem_of_map_to_list.
Qed.

Lemma peer_statuses_elem w (n : Node N) s :
  s ∈ peer_statuses w n
  <-> exists id r p, n_peers n !! id = Some r /\ n_heap n !! r = Some p /\ s = peer_status w p.
Proof.
  unfold peer_statuses. rewrite sort_by_key_perm, list_elem_of_fmap. setoid_rewrite table_peers_elem. naive_solver.
Qed.

(** What the state of an entry says about the peer *)
Definition state_exact (s : PeerRuntimeStatus) (p : PeerState N) : Prop :=
  let busy := is_Some (ps_attempt p) \/ rc_requested (ps_reconnect p) = true \/ rc_running (ps_reconnect p) = true in
  match rs_state s with
  | Connected => exists a, ps_active p = Some a /\ rs_active_path s = Some (as_path a)
                           /\ rs_path_mtu s = Some (confirmed (as_path_mtu a))
                           /\ rs_tx_bytes s = as_tx_bytes a /\ rs_rx_bytes s = as_rx_bytes a
  | Connecting => ps_active p = None /\ rs_active_path s = None /\ busy
  | Unreachable => ps_active p = None /\ rs_active_path s = None /\ ~ busy /\ is_Some (ps_last_failure p)
  | PeerIdle => ps_active p = None /\ rs_active_path s = None /\ ~ busy /\ ps_last_failure p = None
  end.

Lemma peer_status_exact w (p : PeerState N) : state_exact (peer_status w p) p.
Proof.
  unfold state_exact, peer_status. cbn [rs_state rs_active_path rs_path_mtu rs_tx_bytes rs_rx_bytes].
  destruct (ps_active p) as [a|]; [by exists a|]. case_bool_decide as Ha; [by cbn; auto|].
  destruct (rc_requested (ps_reconnect p)) eqn:Er; [by cbn; auto|].
  destruct (rc_running (ps_reconnect p)) eqn:En; [by cbn; auto|]. cbn.
  assert (~ (is_Some (ps_attempt p) \/ false = true \/ false = true)) by naive_solver.
  by destruct (ps_last_failure p).
Qed.

Lemma summary_by_id_last summaries id s :
  summary_by_id summaries !! id = Some s -> s ∈ summaries /\ sum_node_id s = id.
Proof.
  unfold summary_by_id. assert (H0 : forall (m : gmap bytes PeerSummary) l,
    fold_left (fun m s => <[sum_node_id s := s]> m) l m !! id = Some s ->
    m !! id = Some s \/ s ∈ l /\ sum_node_id s = id).
  { intros m l. revert m. induction l as [|x l IH]; intros m E; [by left|]. cbn in E.
    apply IH in E as [E|[E ?]]; [|by right; split; [right|]].
    apply lookup_insert_Some in E as [[? <-]|[? E]]; [|by left].
    right. by split; [left|]. }
  intros E. apply H0 in E as [E|E]; [|done]. by rewrite lookup_empty in E.
Qed.

End facts.

Section exact.
Context {HH : Hash} {HSg : SignatureOps} {HA : AeadOps} {HK : HkdfOps} {HN : NoiseOps}.
Context {HT : TextOps} {J : ControlJson}.
Context {W : Type} {Sk : StunSocket W} {Hp : Http W} {Tr : Transport W} {Ho : PeerHost W}.
Context (me : Local).

(** The dashboard [ds] shows the node [n], given the coordinator's summaries *)
Definition shows (summaries : list PeerSummary) (n : Node (@NState HN)) (w : World) (ds : DashboardSnapshot) : Prop :=
  StronglySorted (key_le rs_node_id) (map db_direct (ds_peers ds))
  /\ NoDup (map db_node_id (ds_peers ds))
  /\ (forall id, id ∈ map db_node_id (ds_peers ds) <-> is_Some (n_peers n !! id))
  /\ forall e, e ∈ ds_peers ds ->
       exists r p, n_peers n !! db_node_id e = Some r /\ n_heap n !! r = Some p
       /\ db_direct e = peer_status w p /\ state_exact (db_direct e) p
       /\ (db_coordinator_online e = true ->
           exists s, s ∈ summaries /\ sum_node_id s = db_node_id e /\ sum_online s = true)
       /\ (forall t, Some t ∈ [db_coordinator_last_seen_at e; rs_connected_at (db_direct e);
                             rs_path_changed_at (db_direct e); pas_started_at <$> rs_attempt (db_direct e);
                             snd <$> ps_last_failure p] ->
           exists m, db_last_status_at e = Some m /\ t <= m).

(** C37: The dashboard shows every peer of the node once, in the order of the ids,
    and no other; each entry is the status of that peer, its state agrees with
    the session, the attempts and the failure the peer has, what it says of the
    coordinator is a summary of that very peer, and the time of the last status is
    no earlier than any time known.  Making it changes nothing of the node. *)
Theorem dashboard_exact connected summaries err (d : Peer (HN := HN) (W := W)) :
  peers_wf (dp_node d) ->
  exists ds d' w, dashboard_snapshot me connected summaries err d = (Ok ds, d')
    /\ dp_node d' = dp_node d /\ dp_state d' = dp_state d /\ shows summaries (dp_node d) w ds.
Proof.
  intros Hn. unfold dashboard_snapshot, hbind, hget, on_world, in_world, hret.
  destruct (host_world (dp_world d)) as [w W1]. cbn [dp_world set_dp_world].
  destruct (host_world W1) as [g W2]. cbn [dp_world set_dp_world].
  destruct (host_world W2) as [c W3]. cbn [dp_world set_dp_world].
  destruct (host_local_addrs W3) as [addrs W4]. cbn [dp_node dp_state set_dp_world].
  eexists _, _, w. unfold shows. split; [done|]. cbn [ds_peers dp_node dp_state set_dp_world].
  destruct (peer_statuses_ids w (dp_node d) Hn) as [Hnd Hids].
  assert (Eid : map db_node_id (map (fun x => dashboard_peer (summary_by_id summaries !! rs_node_id x) x)
      (peer_statuses w (dp_node d))) = map rs_node_id (peer_statuses w (dp_node d))) by by rewrite map_map.
  split_and!; [done|done| |by rewrite Eid|intros id; by rewrite Eid|].
  - rewrite map_map. cbn [dashboard_peer db_direct]. rewrite map_id. apply sort_by_key_sorted.
  - intros e (s & -> & Hs)%list_elem_of_fmap. apply peer_statuses_elem in Hs as (id & r & p & Hid & Hr & ->).
    exists r, p. cbn [db_node_id dashboard_peer].
    assert (Hnm : rs_node_id (peer_status w p) = id).
    { destruct (proj2 Hn id r Hid) as (p' & Hr' & _ & Hpn). cbn. congruence. }
    rewrite Hnm. split_and!; [done|done|done|apply peer_status_exact| |].
    + cbn [db_coordinator_online dashboard_peer]. destruct (summary_by_id summaries !! id) as [s|] eqn:Es; [|done].
      intros Ho'. apply summary_by_id_last in Es as []. by exists s.
    + intros t Ht. cbn [db_last_status_at dashboard_peer].
      match goal with |- context [latest ?l] => pose proof (latest_spec l) as Hl; set (times := l) in * end.
      destruct (latest times) as [m|]; [|by destruct (Hl t Ht)]. exists m. split; [done|]. by apply Hl, Ht.
Qed.

End exact.

(** A node with an open session, and a coordinator that has heard of its peer *)
Definition connected_peer : @Peer toy_noise Script :=
  mkDiagnosticPeer (sample_config 1) a_open (new_client []) saved [] [] None [].
Definition heard_of : list PeerSummary := [mkSummary (node_id (sample_info 2)) (str "laptop") true (Some 900) None None []].

Lemma dashboard_exact_witness :
  exists ds d' w, dashboard_snapshot (HH := toy_hash) (sample_local 1) true heard_of None connected_peer = (Ok ds, d')
    /\ dp_node d' = dp_node connected_peer /\ dp_state d' = dp_state connected_peer
    /\ shows heard_of (dp_node connected_peer) w ds.
Proof.
  apply (dashboard_exact (HH := toy_hash) (sample_local 1) true heard_of None connected_peer). apply a_open_peers_wf.
Defined.

Example connected_peer_shown :
  match (dashboard_snapshot (HH := toy_hash) (sample_local 1) true heard_of None connected_peer).1 with
  | Ok ds => map (fun e => (db_name e, rs_state (db_direct e), db_last_status_at e)) (ds_peers ds)
             = [(str "laptop", Connected, Some 1000)]
  | Err _ => False
  end.
Proof. by vm_compute. Qed.
