(* ===== verification/StunAdapter.v ===== *)
(** * STUN on the socket of a running node

    [StunSocketAdapter] of [vela-core/src/lib.rs]: how a node asks STUN servers on
    the very socket its peers use.  Before the node is started the socket is used
    directly.  Afterwards the read loop receives everything: a request registers a
    waiter under its transaction, and the read loop hands the response from the
    server asked to it through a oneshot channel.  Below, a channel is a number;
    its sender is the waiter that holds it, so a channel without one is closed.
    The datagram socket and the clock are those of the class [StunSocket]. *)
From S2P Require Import Prelude Net Encoding Wire NodeId Snapshot SignedBytes Crypto Ip Replay Path Handshake.
From S2P Require Import NodeState NodePeers NodeSend NodeSession NodeData Text Dns Stun.

Definition STUN_WAITER_LIFETIME : Z := 10 * 10 ^ 9.
(** The buffer of [binding_address] *)
Definition STUN_BUFFER : nat := 1500.

(** [StunWaiter], with the channel of its sender *)
Record StunWaiter : Type := mkWaiter { sw_deadline : Z; sw_target : SocketAddr; sw_channel : nat }.

(** The part of [Inner] the adapter shares with the read loop, and its [pending]
    receiver; [ad_filled] holds the responses that were sent. *)
Record Adapter : Type := mkAdapter {
  ad_started : bool;
  ad_waiters : gmap bytes StunWaiter;
  ad_pending : option nat;
  ad_filled : gmap nat (bytes * SocketAddr);
  ad_next : nat
}.

Definition set_ad_waiters x a := mkAdapter (ad_started a) x (ad_pending a) (ad_filled a) (ad_next a).
Definition set_ad_pending x a := mkAdapter (ad_started a) (ad_waiters a) x (ad_filled a) (ad_next a).

(** [StunSocketAdapter] as [gather_server_reflexive_candidates] makes it *)
Definition adapter_new (started : bool) (waiters : gmap bytes StunWaiter) (next : nat) : Adapter :=
  mkAdapter started waiters None ∅ next.

(** A STUN datagram in the read loop *)
Definition stun_dispatch (packet : bytes) (source : SocketAddr) (a : Adapter) : Adapter :=
  match stun_transaction_id packet with
  | None => a
  | Some transaction =>
      match ad_waiters a !! transaction with
      | Some waiter =>
          if bool_decide (sw_target waiter = source)
          then mkAdapter (ad_started a) (delete transaction (ad_waiters a)) (ad_pending a)
                 (<[sw_channel waiter := (packet, source)]> (ad_filled a)) (ad_next a)
          else a
      | None => a
      end
  end.

(** Whether some waiter holds the sender of the channel *)
Definition channel_open (c : nat) (a : Adapter) : bool :=
  existsb (fun kv => (sw_channel kv.2 =? c)%nat) (map_to_list (ad_waiters a)).

Section adapter.
Context {W : Type} {Sk : StunSocket W}.

Definition adapter_send_to (request : bytes) (target : SocketAddr) (s : Adapter * W)
    : result Z IoError * (Adapter * W) :=
  let '(a, w) := s in
  let direct := let '(r, w) := send_to request target w in (r, (a, w)) in
  if negb (ad_started a) then direct
  else
    match stun_transaction_id request with
    | None => direct
    | Some transaction =>
        let '(now, w) := tick w in
        let waiters := filter (fun kv => now < sw_deadline kv.2) (ad_waiters a) in
        let waiter := mkWaiter (now + STUN_WAITER_LIFETIME) target (ad_next a) in
        let a := mkAdapter (ad_started a) (<[transaction := waiter]> waiters) (Some (ad_next a))
                   (ad_filled a) (S (ad_next a)) in
        match send_to request target w with
        | (Ok length, w) => (Ok length, (a, w))
        | (Err error, w) =>
            (Err error, (set_ad_pending None (set_ad_waiters (delete transaction (ad_waiters a)) a), w))
        end
    end.

(** [receiver.await] until [deadline]: the read loop goes on meanwhile.  When the
    socket fails it clears the waiters and ends.  Every datagram takes some time,
    so the time left bounds the turns. *)
Fixpoint await_channel (fuel : nat) (c : nat) (deadline : Z) (a : Adapter) (w : W)
    : option (result (bytes * SocketAddr) IoError) * (Adapter * W) :=
  match fuel with
  | O => (None, (a, w))
  | S fuel' =>
      match ad_filled a !! c with
      | Some (packet, source) =>
          ((if (STUN_BUFFER <? length packet)%nat
            then Some (Err (InvalidDataError "STUN response is larger than the receive buffer"))
            else Some (Ok (packet, source))), (a, w))
      | None =>
          if negb (channel_open c a)
          then (Some (Err (ConnectionAborted "STUN request was cancelled")), (a, w))
          else
            let '(now, w) := tick w in
            if deadline <=? now then (None, (a, w))
            else
              match recv_timeout (deadline - now) w with
              | (None, w) => (None, (a, w))
              | (Some (Err _), w) =>
                  (Some (Err (ConnectionAborted "STUN request was cancelled")), (set_ad_waiters ∅ a, w))
              | (Some (Ok (packet, source)), w) =>
                  await_channel fuel' c deadline (stun_dispatch packet source a) w
              end
      end
  end.

(** [timeout(d, adapter.recv_from(..))] *)
Definition adapter_recv_timeout (d : Z) (s : Adapter * W)
    : option (result (bytes * SocketAddr) IoError) * (Adapter * W) :=
  let '(a, w) := s in
  if negb (ad_started a) then let '(r, w) := recv_timeout d w in (r, (a, w))
  else
    match ad_pending a with
    | None => (Some (Err (InvalidInput "STUN receive has no pending request")), (a, w))
    | Some c =>
        let '(now, w) := tick w in
        await_channel (S (Z.to_nat d)) c (now + d) (set_ad_pending None a) w
    end.

#[export] Instance adapter_socket : StunSocket (Adapter * W) := {|
  tick s := let '(t, w) := tick s.2 in (t, (s.1, w));
  send_to := adapter_send_to;
  recv_timeout := adapter_recv_timeout;
  fill_bytes n s := let '(b, w) := fill_bytes n s.2 in (b, (s.1, w))
|}.

End adapter.

(** ** The read loop and the node *)

(** The waiters as the node's read loop ([receive_datagram]) has them: a STUN
    datagram changes them as the node does. *)
Lemma dispatch_refines {HH : Hash} {HSg : SignatureOps} {HA : AeadOps} {HK : HkdfOps} {HN : NoiseOps}
    parse_credential cfg me w packet source a (n : Node (@NState HN)) t :
  stun_transaction_id packet = Some t -> n_stun_waiters n = sw_target <$> ad_waiters a ->
  n_stun_waiters (receive_datagram parse_credential cfg me w packet source n).2
  = sw_target <$> ad_waiters (stun_dispatch packet source a).
Proof.
  intros Ht Hn. unfold receive_datagram, stun_dispatch. rewrite Ht. unfold hbind, count, hmodify.
  cbn [snd n_stun_waiters set_n_receive]. rewrite Hn.
  destruct (ad_waiters a !! t) as [x|] eqn:Ex.
  - rewrite lookup_fmap, Ex. cbn [fmap option_fmap option_map].
    destruct (decide (sw_target x = source)) as [->|Hne].
    + rewrite !bool_decide_eq_true_2 by done. cbn. by rewrite fmap_delete.
    + rewrite !bool_decide_eq_false_2 by congruence. cbn. by rewrite Hn.
  - rewrite lookup_fmap, Ex. done.
Qed.

(** ** Responses *)

Section responses.
Context {W : Type} {Sk : StunSocket W}.

(** The socket gave the datagram *)
Definition datagram_received (packet : bytes) (source : SocketAddr) : Prop :=
  exists d w w', recv_timeout (W := W) d w = (Some (Ok (packet, source)), w').

(** Channel [c] is the one of the request [t] to [target]: no other waiter holds
    it, and what was sent on it answers that request. *)
Definition channel_for (c : nat) (t : bytes) (target : SocketAddr) (a : Adapter) : Prop :=
  (forall t' x, ad_waiters a !! t' = Some x -> sw_channel x = c -> t' = t /\ sw_target x = target)
  /\ (forall packet source, ad_filled a !! c = Some (packet, source) ->
      source = target /\ stun_transaction_id packet = Some t /\ datagram_received packet source).

Lemma dispatch_channel c t target packet source a :
  datagram_received packet source -> channel_for c t target a ->
  channel_for c t target (stun_dispatch packet source a).
Proof.
  intros Hd [Hw Hf]. unfold stun_dispatch. destruct (stun_transaction_id packet) as [t0|] eqn:Et; [|done].
  destruct (ad_waiters a !! t0) as [x|] eqn:Ex; [|done]. case_bool_decide as Hs; [|done].
  split; cbn [ad_waiters ad_filled].
  - intros t' y Hy. apply lookup_delete_Some in Hy as [_ Hy]. by apply Hw.
  - intros p q Hp. apply lookup_insert_Some in Hp as [[Hc [= <- <-]]|[_ Hp]]; [|by apply Hf].
    destruct (Hw t0 x Ex Hc) as [-> <-]. by split_and!.
Qed.

Lemma await_channel_genuine fuel c t target deadline a w response source s' :
  channel_for c t target a ->
  await_channel fuel c deadline a w = (Some (Ok (response, source)), s') ->
  source = target /\ stun_transaction_id response = Some t /\ datagram_received response source.
Proof.
  revert a w. induction fuel as [|fuel IH]; intros a w Hc E; cbn [await_channel] in E; [done|].
  destruct (ad_filled a !! c) as [[p q]|] eqn:Ef.
  { destruct (STUN_BUFFER <? length p)%nat; [done|]. injection E as <- <- _. by apply Hc. }
  destruct (channel_open c a); cbn [negb] in E; [|done].
  destruct (tick w) as [now w1]. destruct (deadline <=? now); [done|].
  destruct (recv_timeout (deadline - now) w1) as [[[[p q]|e]|] w2] eqn:Er; [|done..].
  eapply IH; [|exact E]. apply dispatch_channel; [by eexists _, _, _|done].
Qed.

Lemma send_channel request target t a w n a' w' :
  ad_started a = true -> stun_transaction_id request = Some t ->
  (forall c, (ad_next a <= c)%nat -> ad_filled a !! c = None) ->
  (forall t' x, ad_waiters a !! t' = Some x -> (sw_channel x < ad_next a)%nat) ->
  adapter_send_to request target (a, w) = (Ok n, (a', w')) ->
  ad_started a' = true /\ ad_pending a' = Some (ad_next a) /\ channel_for (ad_next a) t target a'.
Proof.
  intros Hs Ht Hf Hw E. unfold adapter_send_to in E. rewrite Hs, Ht in E. cbn [negb] in E.
  destruct (tick w) as [now w1]. destruct (send_to request target w1) as [[m|e] w2]; [|done].
  injection E as <- <- <-. split_and!; [done|done|]. split; cbn [ad_waiters ad_filled].
  - intros t' x Hx Hc. apply lookup_insert_Some in Hx as [[<- <-]|[_ Hx]]; [done|].
    apply map_lookup_filter_Some in Hx as [Hx _]. apply Hw in Hx. lia.
  - intros p q Hp. by rewrite Hf in Hp.
Qed.

(** The channels in use were handed out, and are used once. *)
Definition adapter_wf (a : Adapter) : Prop :=
  (forall c, (ad_next a <= c)%nat -> ad_filled a !! c = None)
  /\ (forall t x, ad_waiters a !! t = Some x -> (sw_channel x < ad_next a)%nat)
  /\ (forall c, ad_pending a = Some c -> (c < ad_next a)%nat).

Lemma dispatch_wf packet source a : adapter_wf a -> adapter_wf (stun_dispatch packet source a).
Proof.
  intros (Hf & Hw & Hp). unfold stun_dispatch. destruct (stun_transaction_id packet) as [t|]; [|done].
  destruct (ad_waiters a !! t) as [x|] eqn:Ex; [|done]. case_bool_decide; [|done].
  split_and!; cbn; [|intros t' y [_ Hy]%lookup_delete_Some; by eapply Hw|done].
  intros c Hc. rewrite lookup_insert_ne; [by apply Hf|]. apply Hw in Ex. lia.
Qed.

Lemma await_channel_wf fuel c deadline a w r a' w' :
  adapter_wf a -> await_channel fuel c deadline a w = (r, (a', w')) -> adapter_wf a'.
Proof.
  revert a w. induction fuel as [|fuel IH]; intros a w Ha E; cbn [await_channel] in E; [by simplify_eq|].
  destruct (ad_filled a !! c) as [[p q]|]; [by simplify_eq|].
  destruct (channel_open c a); cbn [negb] in E; [|by simplify_eq].
  destruct (tick w) as [now w1]. destruct (deadline <=? now); [by simplify_eq|].
  destruct (recv_timeout (deadline - now) w1) as [[[[p q]|e]|] w2].
  - eapply IH; [|exact E]. by apply dispatch_wf.
  - simplify_eq. destruct Ha as (Hf & _ & Hp). split_and!; [done| |done]. by intros t x.
  - by simplify_eq.
Qed.

(** Every operation keeps the channels apart. *)
Lemma adapter_ops_wf s s' :
  adapter_wf s.1 ->
  (exists request target r, send_to request target s = (r, s')) \/ (exists d r, recv_timeout d s = (r, s')) ->
  adapter_wf s'.1.
Proof.
  destruct s as [a w], s' as [a' w']. intros Ha [(request & target & r & E)|(d & r & E)];
    cbn [fst snd send_to recv_timeout adapter_socket] in *.
  - unfold adapter_send_to in E. destruct (ad_started a) eqn:Es; cbn [negb] in E.
    2: { destruct (send_to request target w). by simplify_eq. }
    destruct (stun_transaction_id request) as [t|]; [|destruct (send_to request target w); by simplify_eq].
    destruct (tick w) as [now w1]. destruct Ha as (Hf & Hw & Hp).
    destruct (send_to request target w1) as [[m|e] w2]; simplify_eq; cbn;
      (split_and!; cbn; [intros c Hc; apply Hf; lia| |]).
    + intros t' x Hx. apply lookup_insert_Some in Hx as [[<- <-]|[_ Hx]]; [cbn; lia|].
      apply map_lookup_filter_Some in Hx as [Hx _]. apply Hw in Hx. lia.
    + intros c [= <-]. lia.
    + intros t' x Hx. apply lookup_delete_Some in Hx as [? Hx]. rewrite lookup_insert_ne in Hx by done.
      apply map_lookup_filter_Some in Hx as [Hx _]. apply Hw in Hx. lia.
    + done.
  - unfold adapter_recv_timeout in E. destruct (ad_started a); cbn [negb] in E.
    2: { destruct (recv_timeout d w). by simplify_eq. }
    destruct (ad_pending a) as [c|] eqn:Ep; [|by simplify_eq]. destruct (tick w) as [now w1].
    apply await_channel_wf in E; [done|]. destruct Ha as (Hf & Hw & Hp). by split_and!.
Qed.
Lemma await_channel_kept fuel c deadline a w r a' w' :
  await_channel fuel c deadline a w = (r, (a', w')) ->
  ad_pending a' = ad_pending a /\ ad_started a' = ad_started a.
Proof.
  revert a w. induction fuel as [|fuel IH]; intros a w E; cbn [await_channel] in E; [by simplify_eq|].
  destruct (ad_filled a !! c) as [[p q]|]; [by simplify_eq|].
  destruct (channel_open c a); cbn [negb] in E; [|by simplify_eq].
  destruct (tick w) as [now w1]. destruct (deadline <=? now); [by simplify_eq|].
  destruct (recv_timeout (deadline - now) w1) as [[[[p q]|e]|] w2]; [|by simplify_eq..].
  apply IH in E as [-> ->]. unfold stun_dispatch. by repeat case_match.
Qed.

(** The time left is enough fuel: without an answer the time is up. *)
Lemma await_channel_ends {Laws : StunSocketLaws W} fuel c deadline a w a' w' :
  (Z.to_nat (deadline - clock w) < fuel)%nat ->
  await_channel fuel c deadline a w = (None, (a', w')) -> deadline <= clock w'.
Proof.
  revert a w. induction fuel as [|fuel IH]; intros a w Hf E; cbn [await_channel] in E; [lia|].
  destruct (ad_filled a !! c) as [[p q]|]; [by destruct (_ <? _)%nat|].
  destruct (channel_open c a); cbn [negb] in E; [|done].
  destruct (tick w) as [now w1] eqn:Et. apply tick_law in Et as [Hc _].
  destruct (Z.leb_spec deadline now); [simplify_eq; lia|].
  destruct (recv_timeout (deadline - now) w1) as [r w2] eqn:Er.
  apply recv_law in Er as (Hc2 & _ & Hn & Hok). destruct r as [[[p q]|e]|]; [|done|].
  - specialize (Hok _ eq_refl). eapply IH; [|exact E]. lia.
  - specialize (Hn eq_refl). simplify_eq. lia.
Qed.

Lemma request_transaction transaction :
  length transaction = 12%nat -> stun_transaction_id (binding_request transaction) = Some transaction.
Proof.
  intros Ht. do 13 (destruct transaction as [|? transaction]; try done).
Qed.

Lemma receive_takes d s v s' :
  ad_started s.1 = true -> recv_timeout d s = (Some (Ok v), s') ->
  ad_started s'.1 = true /\ ad_pending s'.1 = None.
Proof.
  intros Hs E. destruct s as [a w], s' as [a' w']. cbn [recv_timeout adapter_socket fst] in *.
  unfold adapter_recv_timeout in E. rewrite Hs in E. cbn [negb] in E.
  destruct (ad_pending a) as [c|]; [|done]. destruct (tick w) as [now w1].
  apply await_channel_kept in E as [Hp Hs']. cbn in Hp, Hs'. by rewrite Hs', Hp.
Qed.

Lemma no_pending_fails d s :
  ad_started s.1 = true -> ad_pending s.1 = None ->
  recv_timeout d s = (Some (Err (InvalidInput "STUN receive has no pending request")), s).
Proof.
  intros Hs Hp. destruct s as [a w]. cbn [recv_timeout adapter_socket fst] in *.
  unfold adapter_recv_timeout. by rewrite Hs, Hp.
Qed.

(** While a node runs a response that cannot be used ends the transaction with an
    error, though there is time left for another one. *)
Lemma unusable_response_ends fuel server transaction deadline s t s1 response source s2 t2 s3 :
  ad_started s.1 = true -> tick s = (t, s1) -> t < deadline ->
  recv_timeout (deadline - t) s1 = (Some (Ok (response, source)), s2) ->
  usable_response server transaction response source = None ->
  tick s2 = (t2, s3) -> t2 < deadline ->
  await_response (S (S fuel)) server transaction deadline false s
  = Some (Broken (InvalidInput "STUN receive has no pending request"), s3).
Proof.
  intros Hs Et Ht Er Eu Et2 Ht2.
  assert (Hk : forall u v (x : Z), tick u = (x, v) -> v.1 = u.1)
    by (intros [] v x E; cbn in E; destruct (tick w); by simplify_eq).
  rewrite <- (Hk _ _ _ Et) in Hs. apply receive_takes in Er as Hr; [|done].
  rewrite <- (Hk _ _ _ Et2) in Hr. destruct Hr as [Hs3 Hp3].
  cbn [await_response]. rewrite Et. destruct (Z.eqb_spec (sat_sub deadline t) 0) as [Hz|_]; [unfold sat_sub in Hz; lia|].
  replace (sat_sub deadline t) with (deadline - t) by (unfold sat_sub; lia).
  rewrite Er, Eu, Et2. destruct (Z.eqb_spec (sat_sub deadline t2) 0) as [Hz|_]; [unfold sat_sub in Hz; lia|].
  by rewrite no_pending_fails.
Qed.

End responses.

(** ** Before the node is started *)

(** The adapter is the socket. *)
Lemma adapter_direct {W} {Sk : StunSocket W} a w :
  ad_started a = false ->
  (forall request target, adapter_send_to request target (a, w)
     = let '(r, w') := send_to request target w in (r, (a, w')))
  /\ forall d, adapter_recv_timeout d (a, w) = let '(r, w') := recv_timeout d w in (r, (a, w')).
Proof. intros Ha. unfold adapter_send_to, adapter_recv_timeout. by rewrite Ha. Qed.

(** ** A sample network *)

#[local] Existing Instance sample_socket.
#[local] Existing Instance sample_laws.

(** One request was sent before; the next one is answered after 20 ms. *)
Definition sample_transaction : bytes := replicate 12 7.
Definition sample_running : Adapter * SampleNet := (adapter_new true ∅ 0, mkSampleNet 0 1 []).
Definition sample_asked := (adapter_send_to (binding_request sample_transaction) sample_server sample_running).2.
Definition sample_answered := adapter_recv_timeout 1000 sample_asked.

