(* ===== verification/TunOther.v ===== *)
(** * The TUN device on macOS and Windows

    The second [platform] module of [vela-tun/src/lib.rs], on the crates [tun_rs]
    and [route_manager], which are parameters here: opening the device, receiving
    and sending whole packets, and the route manager, which is shown to be the one
    of [TunRoutes] on another kernel, so that what is proved there holds here.  The
    third module, for systems without TUN support, refuses to open a device. *)
From S2P Require Import Prelude Net Encoding Wire NodeId Snapshot SignedBytes Crypto Ip Replay Path Handshake.
From S2P Require Import NodeState NodePeers NodeSend NodeSession NodeData NodeTimers NodeInv NodeSample NodeDeliver NodeTransfer NodeBatch.
From S2P Require Import Text TunRoutes TunBridge.

Inductive Platform : Type := MacOs | Windows | OtherSystem.

#[export] Instance Platform_eq_dec : EqDecision Platform.
Proof. solve_decision. Defined.

(** [TunConfig::default] *)
Definition default_name (p : Platform) : bytes := match p with MacOs => [] | _ => str "vela0" end.

(** The device of [tun_rs]: what receiving reports as the length need not fit the
    buffer, and what sending reports need not be what it was given. *)
Inductive TryRecv : Type := Received (length_ : nat) (buffer : bytes) | WouldBlock | RecvFailed (e : bytes).

Class TunRs (W : Type) : Type := {
  dev_build : option bytes -> Z -> W -> result bytes bytes * W;
  dev_recv : Z -> W -> result (nat * bytes) bytes * W;
  dev_try_recv : Z -> W -> TryRecv * W;
  dev_send : bytes -> W -> result nat bytes * W;
  dev_set_mtu : Z -> W -> result unit bytes * W;
  dev_add_address : IpAddr -> Z -> W -> result unit bytes * W;
  dev_if_index : W -> result Z bytes * W;
  dev_sent : W -> bytes
}.

(** The buffer is as long as it was made; a send that is accepted takes the first
    bytes it reports. *)
Class TunRsLaws (W : Type) {D : TunRs W} : Prop := {
  recv_buffer m w n b w' : 0 <= m -> dev_recv m w = (Ok (n, b), w') -> len b = m;
  try_recv_buffer m w n b w' : 0 <= m -> dev_try_recv m w = (Received n b, w') -> len b = m;
  send_prefix b w n w' : dev_send b w = (Ok n, w') -> dev_sent w' = dev_sent w ++ take n b;
  send_failed b w e w' : dev_send b w = (Err e, w') -> dev_sent w' = dev_sent w
}.

Record OtherDevice : Type := mkOtherDevice { od_name : bytes; od_mtu : Z }.

(** [str::parse::<u32>] *)
Definition parse_u32 (l : bytes) : option Z :=
  let digits := match l with 43 :: l' => l' | _ => l end in
  match digits with [] => None | _ => digits_value U32_MAX 0 digits end.

(** [utun] and a number *)
Definition utun_name (name : bytes) : bool :=
  match strip_prefix (str "utun") name with
  | Some digits => bool_decide (is_Some (parse_u32 digits))
  | None => false
  end.

Section device.
Context {W : Type} {D : TunRs W}.

(** [TunDevice::open] *)
Definition other_open (p : Platform) (c : TunConfig) : handler W TunError OtherDevice := fun w =>
  if bool_decide (p = OtherSystem) then (Err Unsupported, w)
  else if bool_decide (p <> MacOs) && bool_decide (tun_name c = []) then (Err InvalidName, w)
  else if tun_mtu c <? 576 then (Err InvalidMtu, w)
  else if U16_MAX <? tun_mtu c then (Err InvalidMtu, w)
  else if bool_decide (p = MacOs) && negb (bool_decide (tun_name c = [])) && negb (utun_name (tun_name c))
  then (Err InvalidName, w)
  else
    let name := if bool_decide (tun_name c = []) then None else Some (tun_name c) in
    match dev_build name (tun_mtu c) w with
    | (Ok name, w) => (Ok (mkOtherDevice name (tun_mtu c)), w)
    | (Err e, w) => (Err (TunIo e), w)
    end.

Definition oversized : bytes := str "TUN returned a packet larger than the configured MTU".

(** What is made of the buffer and the length reported *)
Definition received (n : nat) (buffer : bytes) : result bytes TunError :=
  if (n =? 0)%nat then Err TunClosed
  else if (length buffer <? n)%nat then Err (TunIo oversized)
  else Ok (take n buffer).

Definition other_recv (dev : OtherDevice) : handler W TunError bytes := fun w =>
  match dev_recv (od_mtu dev) w with
  | (Ok (n, buffer), w) => (received n buffer, w)
  | (Err e, w) => (Err (TunIo e), w)
  end.

(** The packets that are ready; only macOS looks for them *)
Fixpoint other_recv_ready (dev : OtherDevice) (room : nat) (packets : list bytes) : handler W TunError (list bytes) :=
  match room with
  | O => hret packets
  | S room' => fun w =>
      match dev_try_recv (od_mtu dev) w with
      | (Received n buffer, w) =>
          match received n buffer with
          | Ok b => other_recv_ready dev room' (packets ++ [b]) w
          | Err e => (Err e, w)
          end
      | (WouldBlock, w) => (Ok packets, w)
      | (RecvFailed e, w) => (Err (TunIo e), w)
      end
  end.

Definition other_recv_many (p : Platform) (dev : OtherDevice) (limit : nat) : handler W TunError (list bytes) :=
  match limit with
  | O => hret []
  | S room =>
      let! b := other_recv dev in
      if bool_decide (p = MacOs) then other_recv_ready dev room [b] else hret [b]
  end.

Definition overlong_send : bytes := str "TUN sent more bytes than requested".

(** [TunDevice::send], the bytes from [offset] on; every turn sends at least one,
    so their number bounds the turns *)
Fixpoint other_send_rest (fuel : nat) (packet : bytes) (offset : nat) : handler W TunError unit := fun w =>
  if (length packet <=? offset)%nat then (Ok tt, w)
  else
    match fuel with
    | O => (Ok tt, w)
    | S fuel' =>
        match dev_send (drop offset packet) w with
        | (Ok n, w) =>
            if (n =? 0)%nat then (Err TunClosed, w)
            else if (length packet - offset <? n)%nat then (Err (TunIo overlong_send), w)
            else other_send_rest fuel' packet (offset + n) w
        | (Err e, w) => (Err (TunIo e), w)
        end
    end.

Definition other_send (dev : OtherDevice) (packet : bytes) : handler W TunError unit := fun w =>
  if (len packet =? 0) || (od_mtu dev <? len packet) then (Err TunPacketTooLarge, w)
  else other_send_rest (length packet) packet 0 w.

Definition other_set_mtu (mtu : Z) : handler W TunError unit := fun w =>
  if (mtu <? 0) || (U16_MAX <? mtu) then (Err InvalidMtu, w)
  else let '(r, w) := dev_set_mtu mtu w in (rmap_err TunIo r, w).

Definition other_add_local_address (a : IpAddr) (prefix_len : Z) : handler W TunError unit := fun w =>
  let '(r, w) := dev_add_address a prefix_len w in (rmap_err TunIo r, w).

End device.

(** ** Routes *)

(** A host route on the interface, without a gateway *)
Record HostRoute : Type := mkHostRoute { hr_destination : IpAddr; hr_prefix : Z; hr_if_index : Z }.

Definition host_route (address : IpAddr) (interface_index : Z) : HostRoute :=
  mkHostRoute address (match address with V4 _ => 32 | V6 _ => 128 end) interface_index.

(** [route_manager]: a connection to the system, made for every change *)
Class RouteManagerOps (K : Type) : Type := {
  manager_new : K -> result unit bytes * K;
  manager_add : HostRoute -> K -> result unit bytes * K;
  manager_delete : HostRoute -> K -> result unit bytes * K;
  manager_routes : K -> gset IpAddr
}.

Section routes.
Context {K : Type} {RM : RouteManagerOps K}.
Context (interface_index : Z) (set_address : IpAddr -> Z -> K -> result unit bytes * K).

Definition change_route (key : IpAddr) (add : bool) (k : K) : result unit bytes * K :=
  let route := host_route key interface_index in
  match manager_new k with
  | (Err e, k) => (Err e, k)
  | (Ok _, k) => if add then manager_add route k else manager_delete route k
  end.

Local Abbreviation R := (handler (Routes K) TunError).

Definition on_kernel (request : K -> result unit bytes * K) : R unit := fun r =>
  let '(res, k) := request (ro_kernel r) in
  (rmap_err Netlink res, mkRoutes (ro_owned r) k (ro_spawned r)).

Definition other_claim_host_route (key : IpAddr) : R RouteLease := fun r =>
  match ro_owned r !! key with
  | Some count => (Ok (mkLease key false), mkRoutes (<[key := S count]> (ro_owned r)) (ro_kernel r) (ro_spawned r))
  | None =>
      let r := mkRoutes (<[key := 1%nat]> (ro_owned r)) (ro_kernel r) (ro_spawned r) in
      match on_kernel (change_route key true) r with
      | (Err e, r) => (Err e, mkRoutes (delete key (ro_owned r)) (ro_kernel r) (ro_spawned r))
      | (Ok _, r) => (Ok (mkLease key false), r)
      end
  end.

Definition other_release (key : IpAddr) : R unit := fun r =>
  match ro_owned r !! key with
  | Some (S (S count)) => (Ok tt, mkRoutes (<[key := S count]> (ro_owned r)) (ro_kernel r) (ro_spawned r))
  | _ =>
      let '(res, r) := on_kernel (change_route key false) r in
      (res, mkRoutes (delete key (ro_owned r)) (ro_kernel r) (ro_spawned r))
  end.

(** The kernel of [TunRoutes] that [route_manager] is *)
#[local] Instance route_manager_kernel : RouteKernel K := {|
  route_add a := change_route a true;
  route_del a := change_route a false;
  address_add := set_address;
  kernel_routes := manager_routes
|}.

(** Claiming and releasing routes is what the Linux manager does, on that kernel. *)
Lemma route_manager_portable key r :
  other_claim_host_route key r = claim_host_route key r /\ other_release key r = release_key key r.
Proof.
  split; [done|]. unfold other_release, release_key.
  destruct (ro_owned r !! key) as [[|[|n]]|]; done.
Qed.

End routes.

(** ** Packets *)

Section packets.
Context {W : Type} {D : TunRs W} {DL : TunRsLaws W}.

Lemma other_send_rest_spec fuel packet offset w r w' :
  (length packet - offset <= fuel)%nat -> other_send_rest fuel packet offset w = (r, w') ->
  exists sent, dev_sent w' = dev_sent w ++ sent /\ (r = Ok tt -> sent = drop offset packet).
Proof.
  revert offset w. induction fuel as [|fuel IH]; intros offset w Hf E; cbn [other_send_rest] in E.
  - exists []. rewrite drop_ge by lia. destruct (_ <=? _)%nat; simplify_eq; by rewrite app_nil_r.
  - destruct (Nat.leb_spec (length packet) offset); [simplify_eq; exists []; rewrite app_nil_r, drop_ge by lia; done|].
    destruct (dev_send (drop offset packet) w) as [[n|e] w1] eqn:Es.
    2: { simplify_eq. exists []. apply send_failed in Es. by rewrite app_nil_r. }
    apply send_prefix in Es. destruct (Nat.eqb_spec n 0) as [->|Hn]; [simplify_eq; eexists; split; [exact Es|done]|].
    destruct (Nat.ltb_spec (length packet - offset) n) as [|Hle]; [simplify_eq; eexists; split; [exact Es|done]|].
    apply IH in E as (sent & Hs & Hok); [|lia]. exists (take n (drop offset packet) ++ sent).
    split; [by rewrite Hs, Es, app_assoc|]. intros Hr. rewrite (Hok Hr), <- drop_drop. apply take_drop.
Qed.

(** Sending a packet ends, with all of it sent in order or with an error, and
    never sends a packet that is empty or larger than the MTU. *)
Lemma other_send_whole dev packet w r w' :
  other_send dev packet w = (r, w') ->
  (r = Ok tt -> dev_sent w' = dev_sent w ++ packet /\ 0 < len packet <= od_mtu dev)
  /\ (r = Err TunPacketTooLarge -> dev_sent w' = dev_sent w).
Proof.
  unfold other_send. destruct ((len packet =? 0) || (od_mtu dev <? len packet)) eqn:Eb; intros E.
  { by simplify_eq. }
  unfold len in *. apply orb_false_iff in Eb as [H1 H2]. split.
  - intros ->. apply other_send_rest_spec in E as (sent & Hs & Hok); [|lia]. rewrite Hok in Hs by done. split; [done|lia].
  - intros ->. exfalso. clear H1 H2. revert E. generalize (length packet), 0%nat. intros fuel. revert w.
    induction fuel as [|fuel IH]; intros w offset; cbn [other_send_rest]; destruct (_ <=? _)%nat; try done.
    destruct (dev_send _ w) as [[n|e] w1]; [|done]. destruct (n =? 0)%nat; [done|].
    destruct (_ <? n)%nat; [done|]. apply IH.
Qed.

Lemma received_fits n buffer b : received n buffer = Ok b -> 0 < len b <= len buffer.
Proof.
  unfold received, len. destruct (Nat.eqb_spec n 0); [done|]. destruct (Nat.ltb_spec (length buffer) n); [done|].
  intros [= <-]. rewrite length_take. lia.
Qed.

(** What is received: at least one packet and at most [limit], none empty and none
    larger than the MTU *)
Lemma other_recv_many_fits p dev limit w packets w' :
  0 <= od_mtu dev -> (1 <= limit)%nat -> other_recv_many p dev limit w = (Ok packets, w') ->
  (1 <= length packets <= limit)%nat /\ Forall (fun b => 0 < len b <= od_mtu dev) packets.
Proof.
  intros Hm Hl E. destruct limit as [|room]; [lia|]. unfold other_recv_many, other_recv, hbind in E.
  destruct (dev_recv (od_mtu dev) w) as [[[n buffer]|e] w1] eqn:Er; [|done].
  apply recv_buffer in Er; [|done]. destruct (received n buffer) as [b|e] eqn:Eb; [|done].
  apply received_fits in Eb. rewrite Er in Eb. case_bool_decide; [|injection E as <- <-; cbn; split; [lia|by apply Forall_singleton]].
  assert (H0 : forall room packets0 w2, Forall (fun b => 0 < len b <= od_mtu dev) packets0 ->
    other_recv_ready dev room packets0 w2 = (Ok packets, w') ->
    (length packets0 <= length packets <= length packets0 + room)%nat
    /\ Forall (fun b => 0 < len b <= od_mtu dev) packets).
  { clear -DL Hm. intros room. induction room as [|room IH]; intros ps w2 Hps E; cbn [other_recv_ready] in E.
    - injection E as <- <-. split; [lia|done].
    - destruct (dev_try_recv (od_mtu dev) w2) as [[k buf| |e] w3] eqn:Et; [|injection E as <- <-; split; [lia|done]|done].
      apply try_recv_buffer in Et; [|done]. destruct (received k buf) as [x|e] eqn:Ex; [|done].
      apply received_fits in Ex. rewrite Et in Ex. apply IH in E as [Hn Hall]; [|by apply Forall_app; split; [|apply Forall_singleton]].
      rewrite length_app in Hn; cbn in Hn. split; [lia|done]. }
  apply H0 in E as [Hn Hall]; [|by apply Forall_singleton]. cbn in Hn. split; [lia|done].
Qed.

End packets.

(** What [open] accepts: an MTU the system's 16-bit field holds, and on macOS no
    name or that of a utun interface *)
Lemma other_open_valid {W} {D : TunRs W} p c w dev w' :
  other_open p c w = (Ok dev, w') ->
  576 <= od_mtu dev <= U16_MAX /\ od_mtu dev = tun_mtu c /\ p <> OtherSystem
  /\ (p = Windows -> tun_name c <> []) /\ (p = MacOs -> tun_name c = [] \/ utun_name (tun_name c) = true).
Proof.
  unfold other_open. repeat case_bool_decide; cbn [andb negb]; try done.
  all: destruct (Z.ltb_spec (tun_mtu c) 576); [done|]; destruct (Z.ltb_spec U16_MAX (tun_mtu c)); [done|].
  all: repeat (match goal with |- context [utun_name ?x] => destruct (utun_name x) eqn:? end; cbn [negb]; try done).
  all: destruct (dev_build _ _ w) as [[name|e] w1]; [|done]; intros [= <- <-]; cbn; split_and!; naive_solver lia.
Qed.
