(* ===== verification/StackApi.v ===== *)
(** * The interface of the userspace stack

    The public side of [vela-stack/src/lib.rs]: [VelaStack] and the handles of
    streams, listeners and sockets.  A call sends a command with a fresh oneshot
    channel to the task and waits for the answer on it; a channel that is dropped
    without an answer is [StackError::Closed].  The application may have any
    number of calls under way: a call is a number, the commands that were sent
    wait in a queue, and the task of [Stack] takes them in turn.

    In the source an answer has the type its channel was made with.  The task of
    [Stack] puts its answers into one log, so that this is a theorem here: every
    answer is of the type the call waits for. *)
From stdpp Require Import gmultiset.
From S2P Require Import Prelude Net Encoding Wire NodeId Snapshot SignedBytes Crypto Ip Replay Path Handshake NodeState NodeSend.
From S2P Require Import Stack StackInv.

Definition COMMAND_QUEUE : nat := 256.

(** ** Handles and calls *)

Record VelaTcpStream : Type := mkStream { stream_id : Z }.
Record VelaTcpListener : Type := mkTcpListener { listener_id : Z }.
Record VelaUdpSocket : Type := mkUdpSocket { udp_id : Z }.
Record VelaRawSocket : Type := mkRawSocket { raw_id : Z }.
Record VelaIcmpSocket : Type := mkIcmpSocket { icmp_id : Z }.

(** The methods, by what they return *)
Inductive Call : Type -> Type :=
| VelaStack_inject_ip (packet : bytes) : Call unit
| VelaStack_shutdown : Call unit
| VelaStack_dial_tcp (remote : SocketAddr) : Call VelaTcpStream
| VelaStack_listen_tcp (local : SocketAddr) : Call VelaTcpListener
| VelaStack_bind_udp (local : SocketAddr) : Call VelaUdpSocket
| VelaStack_raw_socket (version : IpVersion) (protocol : Z) : Call VelaRawSocket
| VelaStack_bind_icmp (identifier : Z) : Call VelaIcmpSocket
| VelaTcpStream_send (s : VelaTcpStream) (data : bytes) : Call Z
| VelaTcpStream_recv (s : VelaTcpStream) (max_len : Z) : Call bytes
| VelaTcpStream_shutdown (s : VelaTcpStream) : Call unit
| VelaTcpListener_accept (l : VelaTcpListener) : Call (VelaTcpStream * SocketAddr)
| VelaUdpSocket_send_to (s : VelaUdpSocket) (data : bytes) (target : SocketAddr) : Call Z
| VelaUdpSocket_recv_from (s : VelaUdpSocket) (max_len : Z) : Call (bytes * SocketAddr)
| VelaRawSocket_send (s : VelaRawSocket) (packet : bytes) : Call unit
| VelaRawSocket_recv (s : VelaRawSocket) (max_len : Z) : Call bytes
| VelaIcmpSocket_send_to (s : VelaIcmpSocket) (payload : bytes) (target : IpAddr) : Call unit
| VelaIcmpSocket_recv (s : VelaIcmpSocket) (max_len : Z) : Call (bytes * IpAddr).

(** The aliases *)
Definition VelaStack_send_ip (packet : bytes) : Call unit := VelaStack_inject_ip packet.
Definition VelaStack_dial (remote : SocketAddr) : Call VelaTcpStream := VelaStack_dial_tcp remote.
Definition VelaStack_listen (local : SocketAddr) : Call VelaTcpListener := VelaStack_listen_tcp local.
Definition VelaStack_listen_packet (local : SocketAddr) : Call VelaUdpSocket := VelaStack_bind_udp local.

(** The command a method sends *)
Definition command_of {A} (c : Call A) : Command :=
  match c with
  | VelaStack_inject_ip packet => Inject packet
  | VelaStack_shutdown => Shutdown
  | VelaStack_dial_tcp remote => DialTcp remote
  | VelaStack_listen_tcp local => ListenTcp local
  | VelaStack_bind_udp local => BindUdp local
  | VelaStack_raw_socket version protocol => BindRaw version protocol
  | VelaStack_bind_icmp identifier => BindIcmp identifier
  | VelaTcpStream_send s data => TcpSend (stream_id s) data
  | VelaTcpStream_recv s max_len => TcpRecv (stream_id s) max_len
  | VelaTcpStream_shutdown s => TcpShutdown (stream_id s)
  | VelaTcpListener_accept l => TcpAccept (listener_id l)
  | VelaUdpSocket_send_to s data target => UdpSend (udp_id s) data target
  | VelaUdpSocket_recv_from s max_len => UdpRecv (udp_id s) max_len
  | VelaRawSocket_send s packet => RawSend (raw_id s) packet
  | VelaRawSocket_recv s max_len => RawRecv (raw_id s) max_len
  | VelaIcmpSocket_send_to s payload target => IcmpSend (icmp_id s) payload target
  | VelaIcmpSocket_recv s max_len => IcmpRecv (icmp_id s) max_len
  end.

Definition as_unit (a : Answer) : option (result unit StackError) := match a with AnsUnit r => Some r | _ => None end.
Definition as_size (a : Answer) : option (result Z StackError) := match a with AnsSize r => Some r | _ => None end.
Definition as_bytes (a : Answer) : option (result bytes StackError) := match a with AnsBytes r => Some r | _ => None end.
Definition as_handle {H} (f : Z -> H) (a : Answer) : option (result H StackError) :=
  match a with AnsId r => Some (rmap f r) | _ => None end.

(** What a method makes of the answer; [None] is an answer of another type *)
Definition decode_answer {A} (c : Call A) : Answer -> option (result A StackError) :=
  match c with
  | VelaStack_inject_ip _ | VelaStack_shutdown | VelaTcpStream_shutdown _
  | VelaRawSocket_send _ _ | VelaIcmpSocket_send_to _ _ _ => as_unit
  | VelaStack_dial_tcp _ => as_handle mkStream
  | VelaStack_listen_tcp _ => as_handle mkTcpListener
  | VelaStack_bind_udp _ => as_handle mkUdpSocket
  | VelaStack_raw_socket _ _ => as_handle mkRawSocket
  | VelaStack_bind_icmp _ => as_handle mkIcmpSocket
  | VelaTcpStream_send _ _ | VelaUdpSocket_send_to _ _ _ => as_size
  | VelaTcpStream_recv _ _ | VelaRawSocket_recv _ _ => as_bytes
  | VelaTcpListener_accept _ => fun a =>
      match a with AnsAccept r => Some (rmap (fun x => (mkStream x.1, x.2)) r) | _ => None end
  | VelaUdpSocket_recv_from _ _ => fun a => match a with AnsFrom r => Some r | _ => None end
  | VelaIcmpSocket_recv _ _ => fun a => match a with AnsFromIp r => Some r | _ => None end
  end.

(** ** The application *)

Section application.
Context {Sm : Smoltcp} (order : list Z -> list Z).

(** The task, the commands in its channel, whether it has ended, and the commands
    of all the calls made, the [t]-th of which has the channel [t] *)
Record App : Type := mkApp {
  ap_runtime : Runtime;
  ap_queue : list nat;
  ap_stopped : bool;
  ap_calls : list Command
}.

(** [VelaStack::attach], with the interface the task makes *)
Definition VelaStack_attach (i : Interface) (c : StackConfig) : result App StackError :=
  let? _ := attach c in Ok (mkApp (new_runtime i c) [] false []).

(** A call sends its command: [None] waits for room in the channel *)
Definition send_command (c : Command) (s : App) : option (result nat StackError * App) :=
  if ap_stopped s then Some (Err StackClosed, s)
  else if (COMMAND_QUEUE <=? length (ap_queue s))%nat then None
  else
    let t := length (ap_calls s) in
    Some (Ok t, mkApp (ap_runtime s) (ap_queue s ++ [t]) false (ap_calls s ++ [c])).

(** A turn of the task; when it ends the channel and all that it kept are dropped *)
Definition task_turn (k : Wake) (queue : list nat) (s : App) : App :=
  match turn order k (ap_runtime s) with
  | (Ok (false, _), r) => mkApp r queue false (ap_calls s)
  | (_, r) => mkApp r [] true (ap_calls s)
  end.

Definition answer_of (t : nat) (s : App) : option Answer :=
  snd <$> head (filter (fun x => x.1 = t) (rt_answers (ap_runtime s))).

(** What the call returns: [None] waits.  An answer of another type would not be
    read. *)
Definition receive_answer {A} (c : Call A) (t : nat) (s : App) : option (result A StackError) :=
  match answer_of t s with
  | Some a => decode_answer c a
  | None => if ap_stopped s then Some (Err StackClosed) else None
  end.

Inductive app_step : App -> App -> Prop :=
| step_call c s t s' : send_command c s = Some (Ok t, s') -> app_step s s'
| step_command s t queue c :
    ap_stopped s = false -> ap_queue s = t :: queue -> ap_calls s !! t = Some c ->
    room (2 + size (rt_listeners (ap_runtime s))) (ap_runtime s) ->
    app_step s (task_turn (OnCommand t c) queue s)
| step_wake s k :
    ap_stopped s = false -> (forall t c, k <> OnCommand t c) ->
    room (2 + size (rt_listeners (ap_runtime s))) (ap_runtime s) ->
    app_step s (task_turn k (ap_queue s) s).

Definition app_reachable (s : App) : Prop :=
  exists i c s0, VelaStack_attach i c = Ok s0 /\ rtc app_step s0 s.

End application.

(** ** Types of answers *)

Inductive AnswerKind : Type := KUnit | KId | KSize | KBytes | KAccept | KFrom | KFromIp.

Definition answer_kind (a : Answer) : AnswerKind :=
  match a with
  | AnsUnit _ => KUnit | AnsId _ => KId | AnsSize _ => KSize | AnsBytes _ => KBytes
  | AnsAccept _ => KAccept | AnsFrom _ => KFrom | AnsFromIp _ => KFromIp
  end.

Definition command_kind (c : Command) : AnswerKind :=
  match c with
  | Shutdown | Inject _ | TcpShutdown _ | RawSend _ _ | IcmpSend _ _ _ => KUnit
  | DialTcp _ | ListenTcp _ | BindUdp _ | BindRaw _ _ | BindIcmp _ => KId
  | TcpSend _ _ | UdpSend _ _ _ => KSize
  | TcpRecv _ _ | RawRecv _ _ => KBytes
  | TcpAccept _ => KAccept
  | UdpRecv _ _ => KFrom
  | IcmpRecv _ _ => KFromIp
  end.

Lemma decode_answer_kind {A} (c : Call A) a :
  answer_kind a = command_kind (command_of c) -> is_Some (decode_answer c a).
Proof. destruct c, a; cbn; intros E; try done; by eexists. Qed.

Section typed.
Context {Sm : Smoltcp} (kinds : nat -> option AnswerKind).
Abbreviation RT := (handler Runtime Panic).

(** An operation that is kept has a channel of its type *)
Definition kept_as {A} (k : AnswerKind) (o : option (A * nat)) : Prop :=
  forall x t, o = Some (x, t) -> kinds t = Some k.
Definition kept_token (k : AnswerKind) (o : option nat) : Prop := forall t, o = Some t -> kinds t = Some k.

Definition tcp_typed (st : TcpState) : Prop :=
  kept_token KId (pending_connect st) /\ kept_as KSize (pending_send st) /\ kept_as KBytes (pending_recv st).

Definition typed (r : Runtime) : Prop :=
  Forall (fun x => kinds x.1 = Some (answer_kind x.2)) (rt_answers r)
  /\ map_Forall (fun _ => tcp_typed) (rt_tcp r)
  /\ map_Forall (fun _ st => kept_token KAccept (pending_accept st)) (rt_listeners r)
  /\ map_Forall (fun _ st => kept_as KFrom (pk_pending st)) (rt_udp r)
  /\ map_Forall (fun _ st => kept_as KBytes (pk_pending st)) (rt_raw r)
  /\ map_Forall (fun _ st => kept_as KFromIp (pk_pending st)) (rt_icmp r).

(** [m] keeps the types, and what it returns satisfies [Q] *)
Definition types {A} (m : RT A) (Q : A -> Prop) : Prop :=
  forall r res r', typed r -> m r = (res, r') -> typed r' /\ forall a, res = Ok a -> Q a.

Lemma types_bind {A B} (m : RT A) (k : A -> RT B) (Q : A -> Prop) (Q' : B -> Prop) :
  types m Q -> (forall a, Q a -> types (k a) Q') -> types (hbind m k) Q'.
Proof.
  intros Hm Hk r res r' Hr. unfold hbind. destruct (m r) as [[a|e] r1] eqn:E.
  - intros E'. destruct (Hm _ _ _ Hr E) as [H1 HQ]. by eapply Hk; [apply HQ| |].
  - intros [= <- <-]. destruct (Hm _ _ _ Hr E). by split.
Qed.

Lemma types_ret {A} (a : A) (Q : A -> Prop) : Q a -> types (hret a) Q.
Proof. intros Ha r res r' Hr [= <- <-]. split; [done|]. by intros ? [= <-]. Qed.

Lemma types_get : types hget typed.
Proof. intros r res r' Hr [= <- <-]. split; [done|]. by intros ? [= <-]. Qed.

Lemma types_modify (f : Runtime -> Runtime) :
  (forall r, typed r -> typed (f r)) -> types (hmodify f) (fun _ => True).
Proof. intros Hf r res r' Hr [= <- <-]. by split; [apply Hf|]. Qed.

Lemma types_weaken {A} (m : RT A) (Q Q' : A -> Prop) : types m Q -> (forall a, Q a -> Q' a) -> types m Q'.
Proof. intros Hm HQ r res r' Hr E. destruct (Hm _ _ _ Hr E) as [? H]. split; [done|]. eauto. Qed.

Lemma types_answer t a : kinds t = Some (answer_kind a) -> types (answer t a) (fun _ => True).
Proof.
  intros Ht. apply types_modify. intros r (H1 & H2). split; [|done]. cbn. apply Forall_app. split; [done|].
  by apply Forall_singleton.
Qed.

(** What changes no table and no answer *)
Lemma types_frame {A} (m : RT A) :
  (forall r res r', m r = (res, r') -> rt_answers r' = rt_answers r /\ rt_tcp r' = rt_tcp r
     /\ rt_listeners r' = rt_listeners r /\ rt_udp r' = rt_udp r /\ rt_raw r' = rt_raw r /\ rt_icmp r' = rt_icmp r) ->
  types m (fun _ => True).
Proof. intros H r res r' Hr E. apply H in E as (E1 & E2 & E3 & E4 & E5 & E6). unfold typed. by rewrite E1, E2, E3, E4, E5, E6. Qed.

Lemma types_get_tcp h : types (get_tcp h) (fun _ => True).
Proof. apply types_frame. intros r res r' E. unfold get_tcp in E. by destruct (set_get h _) as [[]|]; simplify_eq. Qed.
Lemma types_get_udp h : types (get_udp h) (fun _ => True).
Proof. apply types_frame. intros r res r' E. unfold get_udp in E. by destruct (set_get h _) as [[]|]; simplify_eq. Qed.
Lemma types_get_raw h : types (get_raw h) (fun _ => True).
Proof. apply types_frame. intros r res r' E. unfold get_raw in E. by destruct (set_get h _) as [[]|]; simplify_eq. Qed.
Lemma types_get_icmp h : types (get_icmp h) (fun _ => True).
Proof. apply types_frame. intros r res r' E. unfold get_icmp in E. by destruct (set_get h _) as [[]|]; simplify_eq. Qed.
Lemma types_put h s : types (put_socket h s) (fun _ => True).
Proof. by apply types_frame; intros r res r' [= <- <-]. Qed.
Lemma types_add s : types (add_socket s) (fun _ => True).
Proof. apply types_frame. intros r res r' E. unfold add_socket in E. by destruct (set_add s _); simplify_eq. Qed.
Lemma types_next_id : types next_id (fun _ => True).
Proof. by apply types_frame; intros r res r' [= <- <-]. Qed.

Lemma types_allocate n : types (allocate_loop n) (fun _ => True).
Proof.
  induction n as [|n IH]; [by apply types_frame; intros r res r' [= <- <-]|]. intros r res r' Hr E.
  cbn [allocate_loop] in E. destruct (port_used _ _); [by eapply IH; [|exact E]|by simplify_eq].
Qed.

Create HintDb types.
Hint Resolve types_get_tcp types_get_udp types_get_raw types_get_icmp types_put types_add types_next_id
  types_allocate types_get types_answer : types.

(** The tables with one entry changed *)
Lemma typed_set_tcp id st r : typed r -> tcp_typed st -> typed (set_tcp (<[id := st]> (rt_tcp r)) r).
Proof. intros (H1 & H2 & H3) Hst. split_and!; try done; try apply H3. by apply map_Forall_insert_2. Qed.
Lemma typed_set_listener id st r :
  typed r -> kept_token KAccept (pending_accept st) -> typed (set_listeners (<[id := st]> (rt_listeners r)) r).
Proof. intros (H1 & H2 & H3 & H4 & H5 & H6) Hst. split_and!; try done. by apply map_Forall_insert_2. Qed.
Lemma typed_set_udp id st r :
  typed r -> kept_as KFrom (pk_pending st) -> typed (set_udp (<[id := st]> (rt_udp r)) r).
Proof. intros (H1 & H2 & H3 & H4 & H5 & H6) Hst. split_and!; try done. by apply map_Forall_insert_2. Qed.
Lemma typed_set_raw id st r :
  typed r -> kept_as KBytes (pk_pending st) -> typed (set_raw (<[id := st]> (rt_raw r)) r).
Proof. intros (H1 & H2 & H3 & H4 & H5 & H6) Hst. split_and!; try done. by apply map_Forall_insert_2. Qed.
Lemma typed_set_icmp id st r :
  typed r -> kept_as KFromIp (pk_pending st) -> typed (set_icmp (<[id := st]> (rt_icmp r)) r).
Proof. intros (H1 & H2 & H3 & H4 & H5 & H6) Hst. split_and!; try done. by apply map_Forall_insert_2. Qed.

(** ** The operations *)

Ltac types_step :=
  match goal with
  | |- types (hbind _ _) _ => eapply types_bind; [solve [eauto with types nocore]|intros ? ?]
  | |- types (let _ := _ in _) _ => cbn zeta
  | |- types (let '(_, _) := ?x in _) _ => destruct x
  | |- types (if ?b then _ else _) _ => destruct b
  | |- types (hret _) _ => apply types_ret
  end.

Lemma try_tcp_send_types h data t : kinds t = Some KSize -> types (try_tcp_send h data t) (kept_as KSize).
Proof. intros Ht. unfold try_tcp_send. repeat types_step; intros ? ? E; by simplify_eq. Qed.
Lemma try_tcp_recv_types h n t : kinds t = Some KBytes -> types (try_tcp_recv h n t) (kept_as KBytes).
Proof. intros Ht. unfold try_tcp_recv. repeat types_step; intros ? ? E; by simplify_eq. Qed.
Lemma try_udp_recv_types h n t : kinds t = Some KFrom -> types (try_udp_recv h n t) (kept_as KFrom).
Proof. intros Ht. unfold try_udp_recv. repeat types_step; intros ? ? E; by simplify_eq. Qed.
Lemma try_raw_recv_types h n t : kinds t = Some KBytes -> types (try_raw_recv h n t) (kept_as KBytes).
Proof. intros Ht. unfold try_raw_recv. repeat types_step; intros ? ? E; by simplify_eq. Qed.
Lemma try_icmp_recv_types h n t : kinds t = Some KFromIp -> types (try_icmp_recv h n t) (kept_as KFromIp).
Proof. intros Ht. unfold try_icmp_recv. repeat types_step; intros ? ? E; by simplify_eq. Qed.
Hint Resolve try_tcp_send_types try_tcp_recv_types try_udp_recv_types try_raw_recv_types try_icmp_recv_types : types.

Lemma kept_none {A} k : kept_as (A := A) k None.
Proof. by intros x t. Qed.
Lemma kept_token_none k : kept_token k None.
Proof. by intros t. Qed.
Lemma kept_token_some k t : kinds t = Some k -> kept_token k (Some t).
Proof. by intros Ht u [= <-]. Qed.
Hint Resolve kept_none kept_token_none kept_token_some : types.

(** A change of one table entry, the entry having kept what it had *)
Ltac types_entry :=
  apply types_modify; intros;
  first [apply typed_set_tcp|apply typed_set_listener|apply typed_set_udp|apply typed_set_raw|apply typed_set_icmp];
  [assumption|unfold tcp_typed; cbn [pending_connect pending_send pending_recv pending_accept pk_pending];
   repeat split; auto with types].

Lemma dial_tcp_types remote t : kinds t = Some KId -> types (dial_tcp remote t) (fun _ => True).
Proof.
  intros Ht. unfold dial_tcp, allocate_tcp_port. do 2 types_step. destruct a0 as [port|e]; [|by apply types_answer].
  types_step. destruct (tcp_connect _ _ _ _) as [res iface].
  eapply types_bind; [apply types_modify; by intros|intros _ _].
  destruct res as [sk|e]; [|by apply types_answer]. types_step. types_entry.
Qed.

Lemma listen_tcp_types local t : kinds t = Some KId -> types (listen_tcp local t) (fun _ => True).
Proof.
  intros Ht. unfold listen_tcp. do 2 types_step. destruct (tcp_listen _ _); [|by apply types_answer].
  types_step. eapply types_bind; [types_entry|intros _ _]. by apply types_answer.
Qed.

Lemma bind_udp_types local t : kinds t = Some KId -> types (bind_udp local t) (fun _ => True).
Proof.
  intros Ht. unfold bind_udp. do 2 types_step. destruct (udp_bind _ _); [|by apply types_answer].
  types_step. eapply types_bind; [types_entry|intros _ _]. by apply types_answer.
Qed.

Lemma bind_raw_types version protocol t : kinds t = Some KId -> types (bind_raw version protocol t) (fun _ => True).
Proof.
  intros Ht. unfold bind_raw. do 3 types_step. eapply types_bind; [types_entry|intros _ _]. by apply types_answer.
Qed.

Lemma bind_icmp_types identifier t : kinds t = Some KId -> types (bind_icmp identifier t) (fun _ => True).
Proof.
  intros Ht. unfold bind_icmp. do 2 types_step. destruct (icmp_bind _ _); [|by apply types_answer].
  types_step. eapply types_bind; [types_entry|intros _ _]. by apply types_answer.
Qed.

(** An entry that is there *)
Lemma typed_tcp_at r id st : typed r -> rt_tcp r !! id = Some st -> tcp_typed st.
Proof. intros (_ & H & _) E. by apply (H id). Qed.

Lemma tcp_send_types id data t : kinds t = Some KSize -> types (tcp_send id data t) (fun _ => True).
Proof.
  intros Ht. unfold tcp_send. types_step. rename a into r0. destruct (rt_tcp r0 !! id) as [st|] eqn:E; [|by apply types_answer].
  destruct (typed_tcp_at _ _ _ H E) as (H1 & H2 & H3). destruct (pending_send st); [by apply types_answer|].
  types_step. types_entry.
Qed.

Lemma tcp_recv_types id n t : kinds t = Some KBytes -> types (tcp_recv id n t) (fun _ => True).
Proof.
  intros Ht. unfold tcp_recv. types_step. rename a into r0. destruct (rt_tcp r0 !! id) as [st|] eqn:E; [|by apply types_answer].
  destruct (typed_tcp_at _ _ _ H E) as (H1 & H2 & H3). destruct (pending_recv st); [by apply types_answer|].
  types_step. types_entry.
Qed.

Lemma tcp_shutdown_types id t : kinds t = Some KUnit -> types (tcp_shutdown id t) (fun _ => True).
Proof. intros Ht. unfold tcp_shutdown. types_step. destruct (_ !! id); repeat types_step; by apply types_answer. Qed.

Lemma tcp_accept_types id t : kinds t = Some KAccept -> types (tcp_accept id t) (fun _ => True).
Proof.
  intros Ht. unfold tcp_accept. intros r res r' Hr E. unfold hbind at 1, hget in E.
  destruct (rt_listeners r !! id) as [st|] eqn:El; [|by eapply (types_answer t (AnsAccept _) Ht); [exact Hr|exact E]].
  destruct (pending_accept st) eqn:Ep; [by eapply (types_answer t (AnsAccept _) Ht); [exact Hr|exact E]|]. destruct (Stack.accepted st) as [|first rest].
  - injection E as <- <-. split; [|done]. apply typed_set_listener; [done|]. cbn. auto with types.
  - unfold hbind, hmodify in E. eapply (types_answer t (AnsAccept _) Ht); [|exact E]. apply typed_set_listener; [done|]. cbn. auto with types.
Qed.

Lemma udp_send_types id data target t : kinds t = Some KSize -> types (udp_send id data target t) (fun _ => True).
Proof. intros Ht. unfold udp_send. types_step. destruct (_ !! id); repeat types_step; by apply types_answer. Qed.
Lemma raw_send_types id packet t : kinds t = Some KUnit -> types (raw_send id packet t) (fun _ => True).
Proof. intros Ht. unfold raw_send. types_step. destruct (_ !! id); repeat types_step; by apply types_answer. Qed.
Lemma icmp_send_types id payload target t : kinds t = Some KUnit -> types (icmp_send id payload target t) (fun _ => True).
Proof. intros Ht. unfold icmp_send. types_step. destruct (_ !! id); repeat types_step; by apply types_answer. Qed.

Lemma udp_recv_types id n t : kinds t = Some KFrom -> types (udp_recv id n t) (fun _ => True).
Proof.
  intros Ht. unfold udp_recv. types_step. destruct (_ !! id) as [st|]; [|by apply types_answer].
  destruct (pk_pending st); [by apply types_answer|]. types_step. types_entry.
Qed.
Lemma raw_recv_types id n t : kinds t = Some KBytes -> types (raw_recv id n t) (fun _ => True).
Proof.
  intros Ht. unfold raw_recv. types_step. destruct (_ !! id) as [st|]; [|by apply types_answer].
  destruct (pk_pending st); [by apply types_answer|]. types_step. types_entry.
Qed.
Lemma icmp_recv_types id n t : kinds t = Some KFromIp -> types (icmp_recv id n t) (fun _ => True).
Proof.
  intros Ht. unfold icmp_recv. types_step. destruct (_ !! id) as [st|]; [|by apply types_answer].
  destruct (pk_pending st); [by apply types_answer|]. types_step. types_entry.
Qed.
Hint Resolve dial_tcp_types listen_tcp_types bind_udp_types bind_raw_types bind_icmp_types tcp_send_types
  tcp_recv_types tcp_shutdown_types tcp_accept_types udp_send_types raw_send_types icmp_send_types udp_recv_types
  raw_recv_types icmp_recv_types : types.

Lemma handle_command_types t c : kinds t = Some (command_kind c) -> types (handle_command t c) (fun _ => True).
Proof.
  intros Ht. destruct c; cbn [handle_command command_kind] in *.
  2: { types_step. destruct (push_rx _ _) as [res d]. eapply types_bind; [apply types_modify; by intros|intros _ _].
       eapply types_bind; [by apply types_answer|intros _ _]. by apply types_ret. }
  all: (eapply types_bind; [by auto with types|intros _ _]; by apply types_ret).
Qed.

(** *** Kept operations *)

Lemma retry_types {A} (f : A -> nat -> RT (option (A * nat))) k o :
  (forall x t, kinds t = Some k -> types (f x t) (kept_as k)) -> kept_as k o -> types (retry f o) (kept_as k).
Proof. intros Hf Ho. destruct o as [[x t]|]; cbn; [apply Hf; by eapply Ho|apply types_ret; auto with types]. Qed.

Lemma complete_connect_types id h o : kept_token KId o -> types (complete_connect id h o) (kept_token KId).
Proof.
  intros Ho. destruct o as [t|]; cbn [complete_connect]; [|apply types_ret; auto with types].
  specialize (Ho t eq_refl). types_step. case_bool_decide; [|apply types_ret; auto with types].
  eapply types_bind; [by apply types_answer|intros _ _]. apply types_ret. auto with types.
Qed.

Lemma complete_tcp_types id : types (complete_tcp id) (fun _ => True).
Proof.
  unfold complete_tcp. types_step. rename a into r0. destruct (rt_tcp r0 !! id) as [st|] eqn:E; [|by apply types_ret].
  destruct (typed_tcp_at _ _ _ H E) as (H1 & H2 & H3). cbn zeta. types_step.
  eapply types_bind; [by apply complete_connect_types|intros ? ?].
  eapply types_bind; [apply retry_types; [|exact H2]; by auto with types|intros ? ?].
  eapply types_bind; [apply retry_types; [|exact H3]; by auto with types|intros ? ?]. types_entry.
Qed.

Lemma complete_listener_types id : types (complete_listener id) (fun _ => True).
Proof.
  unfold complete_listener. do 2 types_step. rename a0 into r0.
  destruct (rt_listeners r0 !! id) as [st|] eqn:E; [|by apply types_ret].
  assert (Hp : kept_token KAccept (pending_accept st)) by (destruct H0 as (_ & _ & Hl & _); by apply (Hl id)).
  types_step. case_bool_decide; cbn [negb]; [|by apply types_ret].
  destruct (tcp_remote _ ≫= _) as [remote|]; [|by apply types_ret].
  destruct (tcp_listen _ _); [|by apply types_ret]. types_step. eapply types_bind; [types_entry|intros _ _].
  destruct (pending_accept st) as [t|]; [|types_entry].
  eapply types_bind; [types_entry|intros _ _]. apply types_answer. by apply Hp.
Qed.

Lemma complete_udp_types id : types (complete_udp id) (fun _ => True).
Proof.
  unfold complete_udp. types_step. rename a into r0. destruct (rt_udp r0 !! id) as [st|] eqn:E; [|by apply types_ret].
  eapply types_bind; [apply retry_types; [by auto with types|]; destruct H as (_ & _ & _ & Hu & _); by apply (Hu id)|intros ? ?].
  types_entry.
Qed.
Lemma complete_raw_types id : types (complete_raw id) (fun _ => True).
Proof.
  unfold complete_raw. types_step. rename a into r0. destruct (rt_raw r0 !! id) as [st|] eqn:E; [|by apply types_ret].
  eapply types_bind; [apply retry_types; [by auto with types|]; destruct H as (_ & _ & _ & _ & Hu & _); by apply (Hu id)|intros ? ?].
  types_entry.
Qed.
Lemma complete_icmp_types id : types (complete_icmp id) (fun _ => True).
Proof.
  unfold complete_icmp. types_step. rename a into r0. destruct (rt_icmp r0 !! id) as [st|] eqn:E; [|by apply types_ret].
  eapply types_bind; [apply retry_types; [by auto with types|]; destruct H as (_ & _ & _ & _ & _ & Hu); by apply (Hu id)|intros ? ?].
  types_entry.
Qed.

Lemma each_types (f : Z -> RT unit) l : (forall x, types (f x) (fun _ => True)) -> types (each f l) (fun _ => True).
Proof.
  intros Hf. induction l as [|x l IH]; cbn [each]; [by apply types_ret|]. eapply types_bind; [apply Hf|]. by intros.
Qed.

Context (order : list Z -> list Z).

Lemma complete_pending_types : types (complete_pending order) (fun _ => True).
Proof.
  unfold complete_pending. types_step.
  eapply types_bind; [apply each_types, complete_tcp_types|intros _ _]. types_step.
  eapply types_bind; [apply each_types, complete_listener_types|intros _ _]. types_step.
  eapply types_bind; [apply each_types, complete_udp_types|intros _ _]. types_step.
  eapply types_bind; [apply each_types, complete_raw_types|intros _ _]. types_step.
  apply each_types, complete_icmp_types.
Qed.

Lemma turn_types k :
  (forall t c, k = OnCommand t c -> kinds t = Some (command_kind c)) -> types (turn order k) (fun _ => True).
Proof.
  intros Hk. unfold turn. eapply (types_bind _ _ (fun _ => True)).
  - destruct k as [t c|[e|]|now]; cbn [on_wake]; [by apply handle_command_types; apply Hk| | |].
    + destruct e; try (by apply types_ret). eapply types_bind; [apply types_modify; by intros|intros _ _]. by apply types_ret.
    + by apply types_ret.
    + eapply types_bind; [apply types_modify; intros r Hr|intros _ _; by apply types_ret].
      by destruct (iface_poll _ _ _) as [d [i ss]].
  - intros stop _. destruct stop; [by apply types_ret|].
    eapply types_bind; [apply complete_pending_types|intros _ _].
    eapply (types_bind _ _ (fun _ => True)); [by intros r res r' Hr [= <- <-]|intros packets _; by apply types_ret].
Qed.
End typed.

(** ** Calls *)

Section calls.
Context {Sm : Smoltcp} {SL : SmoltcpLaws Sm}.
Context (order : list Z -> list Z) (Horder : forall l, order l ≡ₚ l).

Definition kinds_of (calls : list Command) (t : nat) : option AnswerKind := command_kind <$> calls !! t.

Lemma typed_more calls c r : typed (kinds_of calls) r -> typed (kinds_of (calls ++ [c])) r.
Proof.
  assert (Hk : forall t k, kinds_of calls t = Some k -> kinds_of (calls ++ [c]) t = Some k).
  { unfold kinds_of. intros t k (x & Hx & ->)%fmap_Some. by rewrite (lookup_app_l_Some _ _ _ _ Hx). }
  intros (H1 & H2 & H3 & H4 & H5 & H6). unfold typed, tcp_typed, kept_token, kept_as in *.
  split; [eapply Forall_impl; [exact H1|]; naive_solver|].
  split_and!; intros id st E; [destruct (H2 id st E) as (? & ? & ?)|specialize (H3 id st E)|specialize (H4 id st E)
    |specialize (H5 id st E)|specialize (H6 id st E)]; naive_solver.
Qed.

(** The task has taken the calls [l]; those in the queue are the others. *)
Definition app_inv (s : App) : Prop :=
  typed (kinds_of (ap_calls s)) (ap_runtime s) /\ wf (ap_runtime s)
  /\ exists l queue, channels (ap_runtime s) = chans l /\ l ++ queue = seq 0 (length (ap_calls s))
     /\ (ap_stopped s = false -> ap_queue s = queue).

Lemma task_turn_inv s k queue l :
  app_inv s -> ap_stopped s = false ->
  (forall t c, k = OnCommand t c -> ap_calls s !! t = Some c) ->
  channels (ap_runtime s) = chans l -> l ++ channel_of k ++ queue = seq 0 (length (ap_calls s)) ->
  room (2 + size (rt_listeners (ap_runtime s))) (ap_runtime s) -> app_inv (task_turn order k queue s).
Proof.
  intros (Ht & Hwf & _) Hs Hk Hch Hl Hroom. unfold task_turn.
  destruct (turn_sound order Horder k _ Hwf Hroom) as (stop & packets & r' & E & W & C & _). rewrite E.
  assert (Ht' : typed (kinds_of (ap_calls s)) r').
  { eapply turn_types; [|exact Ht|exact E]. intros t c ->. unfold kinds_of. by rewrite (Hk t c eq_refl). }
  assert (Hc : channels r' = chans (l ++ channel_of k)) by (rewrite C, Hch, chans_app; count_chans).
  destruct stop; (split; [done|]; split; [done|]); exists (l ++ channel_of k), queue; rewrite <- app_assoc; by split_and!.
Qed.

Lemma app_step_inv s s' : app_step order s s' -> app_inv s -> app_inv s'.
Proof.
  intros [c s0 t s1 E|s0 t queue c Hs Hq Hc Hroom|s0 k Hs Hk Hroom] Hi.
  - destruct Hi as (Ht & Hwf & l & queue & Hch & Hl & Hq). unfold send_command in E.
    destruct (ap_stopped s0) eqn:Es; [done|]. destruct (_ <=? _)%nat; [done|]. injection E as <- <-.
    unfold app_inv. cbn [ap_runtime ap_calls ap_queue ap_stopped].
    split; [by apply typed_more|]. split; [done|]. exists l, (queue ++ [length (ap_calls s0)]). split; [done|]. split; [|by rewrite (Hq eq_refl)].
    rewrite length_app, app_assoc, Hl. cbn. by rewrite Nat.add_1_r, seq_S.
  - pose proof Hi as (_ & _ & l & queue' & Hch & Hl & Hq'). specialize (Hq' Hs). rewrite Hq in Hq'. subst queue'.
    eapply task_turn_inv; [done|done| |exact Hch|exact Hl|done]. by intros t' c' [= -> ->].
  - pose proof Hi as (_ & _ & l & queue' & Hch & Hl & Hq'). specialize (Hq' Hs). subst queue'.
    eapply task_turn_inv; [done|done| |exact Hch| |done]; [intros t c ->; by destruct (Hk t c)|].
    destruct k as [t c|e|now]; [by destruct (Hk t c)|done..].
Qed.

Lemma app_reachable_inv s : app_reachable order s -> app_inv s.
Proof.
  intros (i & c & s0 & E & Hr). assert (H0 : app_inv s0).
  { unfold VelaStack_attach in E. destruct (attach c) as [[]|] eqn:Ea; [|done]. injection E as <-.
    destruct (running_inv order Horder _ _ (running_new order i c Ea)) as [Hwf Hch].
    split; [by split_and!|]. split; [done|]. by exists [], []. }
  clear E. induction Hr as [|x y z Hxy _ IH]; [done|]. apply IH. by eapply app_step_inv.
Qed.

Lemma multiplicity_seq t n : (multiplicity t (chans (seq 0 n)) <= 1)%nat.
Proof.
  induction n as [|n IH]; [cbn; rewrite multiplicity_empty; lia|]. rewrite seq_S, chans_app, multiplicity_disj_union.
  unfold chans at 2. rewrite list_to_set_disj_cons, list_to_set_disj_nil, multiplicity_disj_union, multiplicity_empty.
  cbn [Nat.add]. rewrite multiplicity_singleton. destruct (decide (t = n)) as [->|Hne]; [|lia].
  assert (Hz : multiplicity n (chans (seq 0 n)) = 0%nat); [|lia].
  apply not_elem_of_multiplicity. unfold chans. rewrite elem_of_list_to_set_disj, elem_of_seq. lia.
Qed.

Lemma answer_of_answered t s :
  t ∈ answered (ap_runtime s) <-> is_Some (answer_of t s).
Proof.
  unfold answered, answer_of, chans. rewrite elem_of_list_to_set_disj, list_elem_of_fmap. split.
  - intros (x & -> & Hx). assert (Hf : x ∈ filter (fun y => y.1 = x.1) (rt_answers (ap_runtime s)))
      by by apply list_elem_of_filter.
    destruct (filter _ _) as [|y l]; [by apply not_elem_of_nil in Hf|]. by eexists.
  - intros [a Ha]. destruct (filter _ _) as [|y l] eqn:Ef; [done|].
    assert (Hy : y ∈ filter (fun x => x.1 = t) (rt_answers (ap_runtime s))) by (rewrite Ef; by left).
    apply list_elem_of_filter in Hy as [<- Hy]. by exists y.
Qed.

(** C19: Whatever calls an application makes of the stack, and in whatever order
    the task serves them: a call gets at most one answer, and it is of the type
    the call returns; a call without an answer waits while its command is in the
    queue or kept by the task, and returns [Closed] when the task has ended; and
    once the task has ended no further call is accepted. *)
Theorem api_calls_answered {A} (c : Call A) t s :
  app_reachable order s -> ap_calls s !! t = Some (command_of c) ->
  (multiplicity t (answered (ap_runtime s)) <= 1)%nat
  /\ match answer_of t s with
     | Some a => exists r, decode_answer c a = Some r /\ receive_answer c t s = Some r
     | None =>
         if ap_stopped s then receive_answer c t s = Some (Err StackClosed)
         else receive_answer c t s = None /\ (t ∈ ap_queue s \/ t ∈ kept_channels (ap_runtime s))
     end
  /\ (ap_stopped s = true -> forall c', send_command c' s = Some (Err StackClosed, s)).
Proof.
  intros Hr Hc. apply app_reachable_inv in Hr as (Ht & _ & l & queue & Hch & Hl & Hq).
  assert (Hm : (multiplicity t (channels (ap_runtime s)) <= 1)%nat).
  { rewrite Hch. pose proof (multiplicity_seq t (length (ap_calls s))) as H1. rewrite <- Hl, chans_app in H1.
    rewrite multiplicity_disj_union in H1. lia. }
  unfold channels in Hm, Hch. rewrite multiplicity_disj_union in Hm. split; [lia|]. split.
  - unfold receive_answer. destruct (answer_of t s) as [a|] eqn:Ea.
    + assert (Hk : kinds_of (ap_calls s) t = Some (answer_kind a)).
      { unfold answer_of in Ea. destruct (filter _ _) as [|y l'] eqn:Ef; [done|]. injection Ea as <-.
        assert (Hy : y ∈ filter (fun x => x.1 = t) (rt_answers (ap_runtime s))) by (rewrite Ef; by left).
        apply list_elem_of_filter in Hy as [<- Hy]. destruct Ht as [Hall _]. by eapply Forall_forall in Hall. }
      unfold kinds_of in Hk. rewrite Hc in Hk. injection Hk as Hk.
      destruct (decode_answer_kind c a (eq_sym Hk)) as [r Er]. by exists r.
    + destruct (ap_stopped s); [done|]. split; [done|]. specialize (Hq eq_refl). subst queue.
      assert (Hin : t ∈ l ++ ap_queue s) by (rewrite Hl; apply elem_of_seq; apply lookup_lt_Some in Hc; lia).
      apply elem_of_app in Hin as [Hin|Hin]; [right|by left].
      assert (Hin' : t ∈ answered (ap_runtime s) ⊎ kept_channels (ap_runtime s))
        by (rewrite Hch; by apply elem_of_list_to_set_disj).
      apply gmultiset_elem_of_disj_union in Hin' as [Hin'|Hin']; [|done].
      apply answer_of_answered in Hin'. rewrite Ea in Hin'. by destruct Hin'.
  - intros Hs c'. unfold send_command. by rewrite Hs.
Qed.

End calls.

(** ** An application *)

#[local] Existing Instance StackInv.loopback.
#[local] Existing Instance StackInv.loopback_laws.

(** Binds a UDP socket, dials, and waits on the socket; the task has served the
    first two calls. *)
Definition app_calls : list Command :=
  [command_of (VelaStack_bind_udp (SockV4 0 53)); command_of (VelaStack_dial (SockV4 0x0afe0002 80));
   command_of (VelaUdpSocket_recv_from (mkUdpSocket 1) 100)].
Definition app_new : App := mkApp stack_new [] false [].
Definition app_called : App := mkApp stack_new [0; 1; 2]%nat false app_calls.
Definition app_bound : App := task_turn same_order (OnCommand 0 (BindUdp (SockV4 0 53))) [1; 2]%nat app_called.
Definition app_dialling : App := task_turn same_order (OnCommand 1 (DialTcp (SockV4 0x0afe0002 80))) [2]%nat app_bound.

Lemma app_dialling_reachable : app_reachable same_order app_dialling.
Proof.
  exists tt, (StackConfig_ipv4 0x0afe0001), app_new. split; [vm_compute; reflexivity|].
  eapply rtc_l; [by apply (step_call _ (command_of (VelaStack_bind_udp (SockV4 0 53))) _ 0)|].
  eapply rtc_l; [by apply (step_call _ (command_of (VelaStack_dial (SockV4 0x0afe0002 80))) _ 1)|].
  eapply rtc_l; [by apply (step_call _ (command_of (VelaUdpSocket_recv_from (mkUdpSocket 1) 100)) _ 2)|].
  eapply rtc_l; [by apply (step_command _ app_called 0 [1; 2]%nat (BindUdp (SockV4 0 53))); vm_compute|].
  eapply rtc_l; [by apply (step_command _ app_bound 1 [2]%nat (DialTcp (SockV4 0x0afe0002 80))); vm_compute|].
  apply rtc_refl.
Qed.

Lemma api_calls_answered_witness :
  answer_of 0 app_dialling = Some (AnsId (Ok 1))
  /\ (multiplicity 0%nat (answered (ap_runtime app_dialling)) <= 1)%nat
  /\ match answer_of 0 app_dialling with
     | Some a => exists r, decode_answer (VelaStack_bind_udp (SockV4 0 53)) a = Some r
                           /\ receive_answer (VelaStack_bind_udp (SockV4 0 53)) 0 app_dialling = Some r
     | None =>
         if ap_stopped app_dialling
         then receive_answer (VelaStack_bind_udp (SockV4 0 53)) 0 app_dialling = Some (Err StackClosed)
         else receive_answer (VelaStack_bind_udp (SockV4 0 53)) 0 app_dialling = None
              /\ (0%nat ∈ ap_queue app_dialling \/ 0%nat ∈ kept_channels (ap_runtime app_dialling))
     end
  /\ (ap_stopped app_dialling = true -> forall c', send_command c' app_dialling = Some (Err StackClosed, app_dialling)).
Proof.
  split; [vm_compute; reflexivity|].
  apply (api_calls_answered same_order (fun l => reflexivity l) (VelaStack_bind_udp (SockV4 0 53)) 0 app_dialling).
  - apply app_dialling_reachable.
  - vm_compute. reflexivity.
Defined.
