(* ===== verification/Commands.v ===== *)
(** * Commands of the server

    The commands of [vela-cli/src/main.rs] that work on the files of a coordination
    server ([identity], [server], [invite], [peers], [revoke], [admin password reset]),
    composed of opening the server ([CoordOpen]), its key files ([KeyFiles]) and its
    operations ([Coord]).  Each command is a process of its own: it opens the database,
    acts and ends.  The quick start of the README runs them beside the server that
    serves the same database, which is what the theorems are about: the server and
    the command share the tables and nothing else. *)
From S2P Require Import Prelude Net Encoding Wire NodeId Snapshot SignedBytes Crypto Control.
From S2P Require Import CoordDb Coord CoordInv Text Dns Stun CoordClient NodeView Diagnostic.
From S2P Require Import Admin CoordOpen Files Serde KeyFiles KeyFilesSample Cli.

Inductive CommandError : Type :=
| Cmd_Argument (e : ArgumentError)
| Cmd_Coord (e : CoordError)
| Cmd_Crypto (e : CryptoError)
| EmptyPassword
| Cmd_Io.

(** A server that was opened: [ServerInner] *)
Record Server : Type := mkServer {
  srv_tenant : bytes;
  srv_signer : bytes;
  srv_admin : AdminAuth;
  srv_state : CoordState
}.

(** What a process draws at random, and its clock *)
Record Draws : Type := mkDraws {
  dw_password : bytes;
  dw_salt : bytes;
  dw_file_token : bytes;
  dw_signer : bytes;
  dw_identity : Identity;
  dw_invite_id : bytes;
  dw_invite_token : bytes;
  dw_download_token : bytes;
  dw_now : Z
}.

(** The machine: its files, its databases ([None] is a file that is none), what can
    be read from standard input, and the lines printed *)
Record Host : Type := mkHost {
  ho_disk : Disk;
  ho_databases : gmap FilePath (option Database);
  ho_stdin : option bytes;
  ho_out : list bytes
}.

Abbreviation HM A := (handler Host CommandError A).

Definition set_ho_disk x h := mkHost x (ho_databases h) (ho_stdin h) (ho_out h).
Definition set_ho_databases x h := mkHost (ho_disk h) x (ho_stdin h) (ho_out h).
Definition set_ho_stdin x h := mkHost (ho_disk h) (ho_databases h) x (ho_out h).
Definition set_ho_out x h := mkHost (ho_disk h) (ho_databases h) (ho_stdin h) x.

Definition on_disk {E A} (wrap : E -> CommandError) (m : handler Disk E A) : HM A := fun h =>
  let '(r, d) := m (ho_disk h) in (rmap_err wrap r, set_ho_disk d h).

(** [println!] *)
Definition print (line : bytes) : HM unit := hmodify (fun h => set_ho_out (ho_out h ++ [line]) h).

Definition empty_database : Database := mkDatabase ∅ ∅ None ∅.

(** Statements on the database at a path; a file that is missing is created. *)
Definition on_database {A} (path : FilePath) (f : Database -> result A CoordError * Database) : HM A := fun h =>
  match default (Some empty_database) (ho_databases h !! path) with
  | None => (Err (Cmd_Coord Coord_Database), h)
  | Some db =>
      let '(r, db) := f db in
      (rmap_err Cmd_Coord r, set_ho_databases (<[path := Some db]> (ho_databases h)) h)
  end.

Section commands.
Context {HH : Hash} {HSg : SignatureOps} {HT : TextOps} {SJ : SettingsJson} {J : JsonText} {PW : PasswordOps}.

(** ** Opening the server *)

(** The statements of opening, with what each leaves in the database *)
Definition prepare_database (doh stun : list bytes) (db : Database) : result CoordState CoordError * Database :=
  let peers := add_peer_columns <$> db_peers db in
  let invites := map_imap (fun hash c => Some (add_invite_columns hash c)) (db_invites db) in
  let columns peers meta settings := mkDatabase (peer_columns <$> peers) (invite_columns <$> invites) meta settings in
  match migrate_virtual_ipv4 blake3 peers with
  | None => (Err AddressPoolExhausted, columns peers (db_generation db) (db_settings db))
  | Some peers =>
      let '(meta, generation) := load_generation (db_generation db) in
      match load_network_config doh stun (db_settings db) with
      | Err e => (Err e, columns peers (Some meta) (db_settings db))
      | Ok (doh, stun, settings) =>
          (Ok (mkCoord peers invites meta generation ∅ ∅ false false doh stun ∅ ∅ []),
           columns peers (Some meta) settings)
      end
  end.

Definition open_with_admin_credentials_and_network_config (dw : Draws) (paths : FilePath * FilePath * FilePath)
    (tenant : bytes) (doh stun : list bytes) : HM Server :=
  let '(database, signer, credentials) := paths in
  on_disk (fun _ => Cmd_Coord Coord_Io) (create_dir_all (path_dir database)) ;!
  let! s := on_database database (prepare_database doh stun) in
  let! admin := on_disk Cmd_Coord
    (AdminAuth_load_or_create credentials (dw_password dw) (dw_salt dw) (dw_file_token dw)) in
  let! key := on_disk (fun e => Cmd_Coord (Coord_Crypto e)) (ServerSigner_load_or_generate signer (dw_signer dw)) in
  (match admin.2 with
   | Some password => print (str "generated admin password (save it now): " ++ password)
   | None => hret tt
   end) ;!
  hret (mkServer tenant key admin.1 s).

Definition open_coordination_server (dw : Draws) (a : ServerPathArgs) : HM Server :=
  let! paths := hlift (rmap_err Cmd_Argument (coordination_paths a)) in
  open_with_admin_credentials_and_network_config dw paths (pa_tenant a) (pa_doh a) (pa_stun a).

(** An operation on the server that was opened; its statements reach the database. *)
Definition store_tables (s : CoordState) (db : Database) : Database :=
  mkDatabase (peer_columns <$> cs_peers s) (invite_columns <$> cs_invites s) (Some (cs_meta_generation s))
    (db_settings db).

Definition operate {A} (a : ServerPathArgs) (srv : Server) (m : handler CoordState CoordError A) : HM A :=
  let! paths := hlift (rmap_err Cmd_Argument (coordination_paths a)) in
  on_database paths.1.1 (fun db => let '(r, s) := m (srv_state srv) in (r, store_tables s db)).

(** ** The commands *)

(** [trim_end_matches] of carriage returns and line feeds *)
Definition read_password (enabled : bool) : HM (option bytes) := fun h =>
  if negb enabled then (Ok None, h)
  else
    match ho_stdin h with
    | None => (Err Cmd_Io, h)
    | Some text =>
        let password := reverse (strip_all (length text) [[13]; [10]] (reverse text)) in
        (if bool_decide (password = []) then Err EmptyPassword else Ok (Some password), set_ho_stdin (Some []) h)
    end.

Definition reset_admin_password (dw : Draws) (credentials : FilePath) (password : option bytes) : HM bytes :=
  on_disk Cmd_Coord
    (AdminAuth_reset_password credentials password (dw_password dw) (dw_salt dw) (dw_file_token dw)).

(** [Command::Server] until it serves; [listening] is whether the address could be bound. *)
Definition run_server (dw : Draws) (a : ServerPathArgs) (password_stdin listening : bool) : HM Server :=
  let! paths := hlift (rmap_err Cmd_Argument (coordination_paths a)) in
  let! password := read_password password_stdin in
  (match password with
   | Some p => let! _ := reset_admin_password dw paths.2 (Some p) in hret tt
   | None => hret tt
   end) ;!
  let! srv := open_with_admin_credentials_and_network_config dw paths (pa_tenant a) (pa_doh a) (pa_stun a) in
  print (str "coordination server public key: " ++ b64_encode (ServerSigner_public (srv_signer srv))) ;!
  if listening then hret srv else hfail Cmd_Io.

Inductive ServerCommand : Type :=
| CmdIdentity (path : FilePath)
| CmdInvite (a : ServerPathArgs) (ttl : Z)
| CmdPeers (a : ServerPathArgs)
| CmdRevoke (id : bytes) (a : ServerPathArgs)
| CmdAdminReset (path : list bytes) (password_stdin : bool).

Fixpoint print_all (lines : list bytes) : HM unit :=
  match lines with [] => hret tt | l :: lines => print l ;! print_all lines end.

Definition run_command (dw : Draws) (c : ServerCommand) : HM unit :=
  match c with
  | CmdIdentity path =>
      let! i := on_disk Cmd_Crypto (Identity_load_or_generate path (dw_identity dw)) in
      print (NodeId_display (pid_node_id (Identity_public (id_signing i) [])))
  | CmdInvite a ttl =>
      let! srv := open_coordination_server dw a in
      let! _ := operate a srv
        (create_invite (dw_invite_id dw) (dw_invite_token dw) (dw_download_token dw) [] [] ttl (dw_now dw)) in
      print (dw_invite_token dw)
  | CmdPeers a =>
      let! srv := open_coordination_server dw a in
      let! ids := operate a srv (fun s => (Ok (list_peers (cs_peers s)), s)) in
      print_all (map NodeId_display ids)
  | CmdRevoke id a =>
      let! srv := open_coordination_server dw a in
      operate a srv (revoke_peer id)
  | CmdAdminReset path password_stdin =>
      let! password := read_password password_stdin in
      let! password := reset_admin_password dw (dir_join path (str "admin.credentials")) password in
      print_all [str "admin username: admin"; str "admin password: " ++ password;
                 str "restart the server to load the new password"]
  end.

(** ** Beside a server that runs *)

(** The state of a running server after another process changed the tables: its memory
    is its own. *)
Definition share (db : Database) (s : CoordState) : CoordState :=
  mkCoord (add_peer_columns <$> db_peers db)
    (map_imap (fun hash c => Some (add_invite_columns hash c)) (db_invites db)) (default 1 (db_generation db))
    (cs_generation s) (cs_online s) (cs_runtime s) (cs_pending s) (cs_running s) (cs_doh s) (cs_stun s)
    (cs_conns s) (cs_closed s) (cs_sent s).

(** The database at a path *)
Definition database_at (path : FilePath) (h : Host) : Database :=
  default empty_database (default None (ho_databases h !! path)).

(** ** Opening beside it *)

Lemma prepare_open doh stun db : (prepare_database doh stun db).1 = open_server true doh stun db.
Proof.
  unfold prepare_database, open_server. destruct (migrate_virtual_ipv4 _ _); [|done]. cbn [ok_or rbind].
  destruct (load_generation _) as [meta gen]. by destruct (load_network_config _ _ _) as [[[? ?] ?]|].
Qed.

(** Every invite has an id and a time, as those have that a server made. *)
Definition invites_complete (t : InviteTable) : Prop :=
  forall hash r, t !! hash = Some r -> inv_id r <> [] /\ inv_created_at r <> 0.

Lemma invites_kept t :
  invites_complete t -> map_imap (fun hash c => Some (add_invite_columns hash c)) (invite_columns <$> t) = t.
Proof.
  intros Ht. apply map_eq. intros hash. rewrite map_lookup_imap, lookup_fmap.
  destruct (t !! hash) as [r|] eqn:Er; [|done]. destruct (Ht _ _ Er) as [Hid Hc]. cbn.
  unfold add_invite_columns, invite_columns. cbn. rewrite bool_decide_false by done.
  rewrite (proj2 (Z.eqb_neq _ _)) by done. by destruct r.
Qed.

Lemma peers_kept (t : PeerTable) : add_peer_columns <$> (peer_columns <$> t) = t.
Proof.
  apply map_eq. intros id. rewrite !lookup_fmap. destruct (t !! id); [|done]. cbn. by rewrite peer_columns_kept.
Qed.

(** The tables of [x], the memory of [s] *)
Lemma share_saved x s :
  invites_complete (cs_invites x) ->
  share (saved_database x) s =
  mkCoord (cs_peers x) (cs_invites x) (cs_meta_generation x) (cs_generation s) (cs_online s) (cs_runtime s)
    (cs_pending s) (cs_running s) (cs_doh s) (cs_stun s) (cs_conns s) (cs_closed s) (cs_sent s).
Proof. intros Hx. unfold share, saved_database. cbn. by rewrite peers_kept, invites_kept. Qed.

Context {SL : SettingsJsonLaws SJ} (tenant signer : bytes).

(** The files and the database of a server in the state [s] are in place. *)
Definition site_ready (a : ServerPathArgs) (database : FilePath) (s : CoordState) (h : Host) : Prop :=
  exists key_file credentials,
    coordination_paths a = Ok (database, key_file, credentials)
    /\ dk_outcomes (ho_disk h) = []
    /\ (exists f c, dk_files (ho_disk h) !! credentials = Some f /\ credentials_from_slice (file_data f) = Ok c
                    /\ PasswordHash_new (cf_password_hash c) = true)
    /\ (exists f key, dk_files (ho_disk h) !! key_file = Some f /\ signer_from_slice (file_data f) = Ok key)
    /\ ho_databases h !! database = Some (Some (saved_database s)).

(** What another process has in memory after opening: the tables, and nobody online *)
Definition reopened_state (s s0 : CoordState) : Prop :=
  cs_peers s0 = cs_peers s /\ cs_invites s0 = cs_invites s /\ cs_meta_generation s0 = cs_meta_generation s
  /\ cs_generation s0 = cs_generation s /\ cs_online s0 = ∅.

Lemma prepare_saved doh stun s :
  reachable tenant signer s -> invites_complete (cs_invites s) ->
  exists s0, prepare_database doh stun (saved_database s) = (Ok s0, saved_database s) /\ reopened_state s s0.
Proof.
  intros Hr Hc. apply reachable_inv in Hr as ([Ha Hi] & _ & [Hg Hm] & _).
  unfold prepare_database. rewrite load_saved_config.
  assert (add_peer_columns <$> db_peers (saved_database s) = cs_peers s) as -> by apply peers_kept.
  assert (map_imap (fun hash c => Some (add_invite_columns hash c)) (db_invites (saved_database s)) = cs_invites s)
    as -> by by apply invites_kept.
  rewrite migrate_kept by done. assert (load_generation (db_generation (saved_database s)) = (cs_meta_generation s, cs_generation s)) as ->.
  { unfold load_generation, saved_database. cbn. rewrite Hm. by assert (0 <? cs_generation s = true) as -> by lia. }
  eexists. split; [reflexivity|]. by split_and!.
Qed.

Lemma open_ready dw a database s h :
  reachable tenant signer s -> invites_complete (cs_invites s) -> site_ready a database s h ->
  exists srv h1, open_coordination_server dw a h = (Ok srv, h1)
    /\ reopened_state s (srv_state srv) /\ ho_out h1 = ho_out h
    /\ ho_databases h1 !! database = Some (Some (saved_database s)).
Proof.
  intros Hr Hc (key_file & credentials & Ep & Ho & (f & c & Hf & Ec & Hpw) & (fk & key & Hk & Ek) & Hdb).
  unfold open_coordination_server, hbind at 1, hlift. rewrite Ep. cbn [rmap_err].
  unfold open_with_admin_credentials_and_network_config, hbind at 1, on_disk at 1.
  destruct (create_dir_all_calm (path_dir database) (ho_disk h) Ho) as (d1 & E1 & Ho1 & Hfs & _). rewrite E1. cbn [rmap_err].
  destruct (prepare_saved (pa_doh a) (pa_stun a) s Hr Hc) as (s0 & Es & Hs0).
  unfold hbind at 1, on_database. cbn [ho_databases set_ho_disk]. rewrite Hdb. cbn [default from_option id]. rewrite Es. cbn [rmap_err].
  unfold hbind at 1, on_disk at 1. cbn [ho_disk set_ho_databases set_ho_disk].
  unfold AdminAuth_load_or_create, path_exists. rewrite Hfs, Hf, bool_decide_true by done.
  unfold hbind at 1. rewrite (read_credentials_calm _ f d1 Ho1) by (rewrite Hfs; exact Hf). rewrite Ec, Hpw. cbn [hret rmap_err fst snd].
  unfold hbind at 1, on_disk at 1. cbn [ho_disk set_ho_disk].
  unfold ServerSigner_load_or_generate, path_exists. rewrite Hfs, Hk, bool_decide_true by done.
  unfold with_io, hbind at 1. rewrite fs_read_calm by done. rewrite Hfs, Hk. cbn [rmap_err file_data]. unfold hlift. rewrite Ek.
  eexists _, _. split; [reflexivity|]. cbn. split_and!; [apply Hs0..|done|]. by rewrite lookup_insert_eq.
Qed.

(** ** What the commands do to the tables *)

Definition same_tables (s s' : CoordState) : Prop :=
  cs_peers s' = cs_peers s /\ cs_invites s' = cs_invites s /\ cs_meta_generation s' = cs_meta_generation s
  /\ cs_generation s' = cs_generation s /\ cs_doh s' = cs_doh s /\ cs_stun s' = cs_stun s.

Lemma disconnect_tables id s : same_tables s (disconnect_peer id s).
Proof.
  unfold disconnect_peer. set (s0 := set_online _ s). assert (Hs0 : same_tables s s0) by done.
  generalize (elements (default ∅ (cs_online s !! id))). intros l. revert Hs0. generalize s0.
  induction l as [|c l IH]; intros s1 Hs1; [done|]. cbn [fold_left]. apply IH.
  unfold send_ignore, send. case_bool_decide; done.
Qed.

Lemma revoke_tables id s r :
  cs_peers s !! id = Some r -> row_revoked r = false -> 1 <= cs_generation s < 2 ^ 63 - 1 ->
  exists s', revoke_peer_inner id s = (Ok true, s')
    /\ same_tables (set_generation (cs_generation s + 1) (set_peers (<[id := set_revoked r]> (cs_peers s)) s)) s'.
Proof.
  intros Hl Hrev Hg. unfold revoke_peer_inner, revoke_row. rewrite Hl, Hrev. unfold after_removal, hbind, bump_snapshot.
  cbn [cs_generation set_peers]. assert (U64_MAX <? cs_generation s + 1 = false) as -> by (unfold U64_MAX; lia).
  assert (2 ^ 63 - 1 <? cs_generation s + 1 = false) as -> by lia. cbn [hmodify broadcast_snapshot hret].
  eexists. split; [reflexivity|]. apply disconnect_tables.
Qed.

(** A snapshot that lists a stranger as online is refused. *)
Lemma stranger_refused sn id :
  id ∈ online_peers sn -> id ∉ map node_id (peers sn) -> validate blake3 sn <> Ok tt.
Proof.
  intros Hon Hno Hv. unfold validate in Hv. destruct (generation sn =? 0); [done|].
  rewrite !rbind_unit, validate_online_iff in Hv. destruct Hv as (_ & _ & _ & _ & Hf).
  rewrite Forall_forall in Hf. apply Hf in Hon. by apply elem_of_list_to_set in Hon.
Qed.

Lemma operate_ready {A} a database s h srv (m : handler CoordState CoordError A) :
  site_ready a database s h -> forall h1, ho_databases h1 !! database = Some (Some (saved_database s)) ->
  operate a srv m h1 =
  let '(r, s1) := m (srv_state srv) in
  (rmap_err Cmd_Coord r,
   set_ho_databases (<[database := Some (store_tables s1 (saved_database s))]> (ho_databases h1)) h1).
Proof.
  intros (key_file & credentials & Ep & _) h1 Hdb. unfold operate, hbind, hlift. rewrite Ep. cbn [rmap_err fst].
  unfold on_database. rewrite Hdb. cbn [default from_option id]. by destruct (m (srv_state srv)).
Qed.

Lemma store_tables_saved s x y :
  cs_peers x = cs_peers y -> cs_invites x = cs_invites y -> cs_meta_generation x = cs_meta_generation y ->
  cs_doh s = cs_doh y -> cs_stun s = cs_stun y ->
  store_tables x (saved_database s) = saved_database y.
Proof. intros H1 H2 H3 H4 H5. unfold store_tables, saved_database. cbn. by rewrite H1, H2, H3, H4, H5. Qed.

Lemma wrap_signed_small x : 0 <= x < 2 ^ 63 -> wrap_signed 64 x = x.
Proof.
  intros Hx. unfold wrap_signed, wrap. change (2 ^ 64) with 18446744073709551616 in *.
  change (2 ^ 63) with 9223372036854775808 in *. change (2 ^ (64 - 1)) with 9223372036854775808.
  rewrite Z.mod_small by lia. assert (x <? 9223372036854775808 = true) as -> by lia. done.
Qed.

(** The row of an invite that is made *)
Definition new_invite (dw : Draws) (ttl : Z) : InviteRow :=
  mkInvite (dw_invite_id dw) (wrap_signed 64 (sat_add64 (dw_now dw) ttl)) false [] []
    (wrap_signed 64 (dw_now dw)) false (blake3 (dw_download_token dw)) false.

Lemma create_invite_fresh dw ttl s :
  cs_invites s !! blake3 (dw_invite_token dw) = None ->
  (forall hash r, cs_invites s !! hash = Some r -> inv_id r <> dw_invite_id dw) ->
  create_invite (dw_invite_id dw) (dw_invite_token dw) (dw_download_token dw) [] [] ttl (dw_now dw) s
  = (Ok (sat_add64 (dw_now dw) ttl),
     set_invites (<[blake3 (dw_invite_token dw) := new_invite dw ttl]> (cs_invites s)) s).
Proof.
  intros Hn Hid. unfold create_invite. rewrite bool_decide_false by (rewrite Hn; by intros []). cbn [orb].
  destruct (existsb _ _) eqn:E; [|done]. apply existsb_exists in E as ([hash r] & Hin & E).
  apply bool_decide_eq_true in E. apply list_elem_of_In, elem_of_map_to_list in Hin. by apply Hid in Hin.
Qed.

Definition invite_drawn (dw : Draws) (ttl : Z) (s : CoordState) : Prop :=
  dw_invite_id dw <> [] /\ 0 < dw_now dw /\ 0 <= ttl /\ dw_now dw + ttl < 2 ^ 63
  /\ cs_invites s !! blake3 (dw_invite_token dw) = None
  /\ (forall hash r, cs_invites s !! hash = Some r -> inv_id r <> dw_invite_id dw).

(** C14: an invite made on the command line beside a server that runs is as good as one made
    by the server.  The command succeeds when the files are in place, prints the token,
    and leaves the server in the very state that its own operation leaves it in; and
    until the invite expires, a node that presents the token is admitted. *)
Theorem invite_beside_server dw a database ttl s h :
  reachable tenant signer s -> invites_complete (cs_invites s) -> site_ready a database s h ->
  invite_drawn dw ttl s ->
  exists h', run_command dw (CmdInvite a ttl) h = (Ok tt, h')
    /\ ho_out h' = ho_out h ++ [dw_invite_token dw]
    /\ let s' := share (database_at database h') s in
       s' = (create_invite (dw_invite_id dw) (dw_invite_token dw) (dw_download_token dw) [] [] ttl (dw_now dw) s).2
       /\ forall id signing noise t, 0 <= t <= dw_now dw + ttl -> exists reg s2,
            register_with_invite tenant signer id signing noise (dw_invite_token dw) t s' = (Ok reg, s2).
Proof.
  intros Hr Hc Hsite (Hid & Hnow & Httl & Hmax & Hfresh & Hnew).
  destruct (open_ready dw a database s h Hr Hc Hsite) as (srv & h1 & E1 & (Hp0 & Hi0 & Hm0 & _) & Hout & Hdb).
  cbn [run_command]. unfold hbind at 1. rewrite E1. unfold hbind at 1.
  rewrite (operate_ready _ _ _ _ _ _ Hsite _ Hdb), create_invite_fresh by (by rewrite Hi0). cbn [rmap_err].
  set (t' := <[blake3 (dw_invite_token dw) := new_invite dw ttl]> (cs_invites (srv_state srv))). eexists. split; [reflexivity|].
  assert (Ht' : invites_complete t').
  { intros hash r [[<- <-]|[_ Hl]]%lookup_insert_Some; [|rewrite Hi0 in Hl; by apply Hc in Hl].
    split; [done|]. cbn [new_invite inv_created_at]. rewrite wrap_signed_small; lia. }
  split; [cbn; by rewrite Hout|]. unfold database_at. cbn -[share]. rewrite lookup_insert_eq. cbn [default from_option id].
  rewrite (store_tables_saved s _ (set_invites t' s)), share_saved, create_invite_fresh by done.
  split; [unfold set_invites, t'; by rewrite Hi0|]. intros id signing noise t Ht. unfold register_with_invite.
  cbn [cs_invites set_invites]. unfold t'. rewrite lookup_insert_eq. cbn [new_invite inv_revoked inv_used inv_expires_at orb].
  unfold sat_add64, U64_MAX. rewrite !wrap_signed_small by lia.
  assert (_ <? t = false) as -> by lia. by eexists _, _.
Qed.

Lemma online_listed s id : is_Some (cs_online s !! id) -> id ∈ online_peer_ids s.
Proof.
  intros [conns Hc]. unfold online_peer_ids, online_ids. rewrite sort_by_key_perm. apply list_elem_of_fmap.
  exists (id, conns). split; [done|]. by apply elem_of_map_to_list.
Qed.

Lemma revoked_not_loaded (t : PeerTable) id r : load_peer (<[id := set_revoked r]> t) id = None.
Proof. unfold load_peer. by rewrite lookup_insert_eq. Qed.

Lemma not_loaded_not_listed tenant' signer' s online now id :
  load_peer (cs_peers s) id = None -> id ∉ map node_id (peers (network_snapshot tenant' signer' s online now)).
Proof.
  intros Hl. cbn. rewrite map_map. intros (p & -> & Hp)%list_elem_of_fmap.
  apply elem_of_load_peers in Hp as (i & r & Hi & Hr & ->). unfold load_peer in Hl. cbn in Hl. by rewrite Hi, Hr in Hl.
Qed.

End commands.

(** ** A server and its commands *)

Module CommandSample.
#[local] Instance command_hash : Hash := toy_hash.
#[local] Existing Instances toy_sig toy_text strings_json strings_json_laws toy_passwords.

Definition draws : Draws :=
  mkDraws (str "first password") [1] [2] (replicate 32 3) (mkSecrets (replicate 32 4) (replicate 32 5))
    (str "id-7") [7] [8] 300.
Definition arguments : ServerPathArgs := mkPaths (Some [str "vela"]) None None None (str "tenant") [] [].
Definition database_path : FilePath := dir_join [str "vela"] (str "vela.db").
Definition new_host : Host := mkHost (mkDisk ∅ ∅ 420 []) ∅ None [].

(** The server is started, and two nodes join it. *)
Definition started := run_server draws arguments false true new_host.
Definition serving : Host :=
  set_ho_databases {[database_path := Some (saved_database server_of_two)]} started.2.

Lemma serving_ready : site_ready arguments database_path server_of_two serving.
Proof.
  exists (dir_join [str "vela"] (str "server.key")), (dir_join [str "vela"] (str "admin.credentials")).
  split_and!; [vm_compute; reflexivity..| | |vm_compute; reflexivity].
  - eexists _, _. split_and!; vm_compute; reflexivity.
  - eexists _, _. split; vm_compute; reflexivity.
Qed.

Lemma server_of_two_complete : invites_complete (cs_invites server_of_two).
Proof.
  assert (Hall : forallb (fun kv => negb (bool_decide (inv_id kv.2 = [])) && negb (inv_created_at kv.2 =? 0))
            (map_to_list (cs_invites server_of_two)) = true) by by vm_compute.
  intros hash r Hl%elem_of_map_to_list%list_elem_of_In. rewrite forallb_forall in Hall. apply Hall in Hl.
  cbn in Hl. apply andb_prop in Hl as [H1%negb_true_iff%bool_decide_eq_false H2%negb_true_iff%Z.eqb_neq]. done.
Qed.

Lemma invite_beside_server_witness :
  exists h', run_command draws (CmdInvite arguments 60) serving = (Ok tt, h') /\ last (ho_out h') = Some [7].
Proof.
  destruct (invite_beside_server (str "tenant") [3] draws arguments database_path 60 server_of_two serving)
    as (h' & E & Hout & _).
  - apply run_reachable.
  - apply server_of_two_complete.
  - apply serving_ready.
  - split_and!; [done|done|done|vm_compute; done|by vm_compute|].
    assert (Hall : forallb (fun kv => negb (bool_decide (inv_id kv.2 = str "id-7"))) (map_to_list (cs_invites server_of_two)) = true)
      by by vm_compute.
    intros hash r Hl%elem_of_map_to_list%list_elem_of_In. rewrite forallb_forall in Hall. apply Hall in Hl.
    by apply negb_true_iff, bool_decide_eq_false in Hl.
  - exists h'. split; [exact E|]. by rewrite Hout, last_snoc.
Defined.

End CommandSample.
