(* ===== verification/PeerControl.v ===== *)
(** * A control connection of a peer

    [DiagnosticControl] of [vela-diagnostic/src/lib.rs]: a program that has the state
    directory of a peer opens it, registers with the coordination server under the
    identity of the peer, saves what it learned and lists members, without a node.  It
    is composed of the files of [KeyFiles] and the client of [CoordClient]. *)
From S2P Require Import Prelude Net Encoding Wire NodeId Snapshot SignedBytes Crypto Ip Replay Path Handshake.
From S2P Require Import NodeState Control Text CoordDb Coord Dns Stun CoordClient NodeView Diagnostic.
From S2P Require Import Admin Files Serde KeyFiles Runtime.

Section control.
Context {HH : Hash} {HSg : SignatureOps} {HT : TextOps} {HL : TextLaws HT} {J : ControlJson}.
Context {JT : JsonText} {JTL : JsonTextLaws JT}.
Context {W : Type} {Hp : Http W} {Tr : Transport W}.
(** X25519 public keys *)
Context (noise_public_key : bytes -> bytes).

Record DiagnosticControl : Type := mkControl {
  dc_client : CoordClient.Client;
  dc_state : SavedState;
  dc_identity : Identity
}.

Definition public_of (i : Identity) : PublicIdentity := Identity_public (id_signing i) (noise_public_key (id_noise i)).

(** What [open] makes of the state with a registration *)
Definition registered_state (s : SavedState) (reg : Registration) : SavedState :=
  set_sv_network (effective_doh_servers (doh_servers (reg_snapshot reg)))
    (merge_stun_servers (sv_manual_stun_servers s) (stun_servers (reg_snapshot reg))) (Some (reg_snapshot reg))
    (set_sv_credential (Some (reg_credential reg)) s).

Record Desk : Type := mkDesk { dk_disk : Disk; dk_world : W }.

Definition on_files {E A} (wrap : E -> DiagnosticError) (m : handler Disk E A) : handler Desk DiagnosticError A := fun k =>
  let '(r, d) := m (dk_disk k) in (rmap_err wrap r, mkDesk d (dk_world k)).

(** [open]; [incarnation] is drawn, and [frames] arrive while the registration waits. *)
Definition control_open (dir : list bytes) (incarnation now : Z) (frames : list Frame)
    : handler Desk DiagnosticError DiagnosticControl :=
  let! s := on_files (fun e => e) (PeerState_load dir) in
  let! i := on_files Diag_Crypto (Identity_load (identity_path dir)) in
  let! c := (fun k => let '(r, w) := connect_with_doh (sv_server s) (sv_doh_servers s) (dk_world k) in
                      (rmap_err Coordination r, mkDesk (dk_disk k) w)) in
  let c := trust_server_key (sv_server_key s) c in
  let '(r, c) := register_with_incarnation (public_of i) incarnation None (sv_credential s) (sv_candidates s) now
                   (set_stream (cl_stream c ++ frames) c) in
  let! reg := hlift (rmap_err Coordination r) in
  let s := registered_state s reg in
  let! _ := on_files (fun e => e) (PeerState_save s dir) in
  hret (mkControl c s i).

Definition control_list_peers (frames : list Frame) : handler DiagnosticControl DiagnosticError (list PeerSummary) := fun k =>
  let c := dc_client k in
  let '(r, c) := client_list_peers (set_stream (cl_stream c ++ frames) c) in
  (rmap_err Coordination r, mkControl c (dc_state k) (dc_identity k)).

(** [status]: the saved state, and the members the server knows *)
Definition control_status (frames : list Frame) : handler DiagnosticControl DiagnosticError Runtime.PeerStatus :=
  let! k := hget in
  let s := dc_state k in
  let! peers := control_list_peers frames in
  hret (mkStatus (sv_server s) (sv_last_local_addrs s) (sv_doh_servers s) (sv_stun_servers s) (sv_candidates s)
          (cred_expires_at <$> sv_credential s) peers).

Lemma load_keeps dir d r d' : PeerState_load dir d = (r, d') -> dk_files d' = dk_files d /\ (r = stored_state dir d \/ r = Err Diag_Io).
Proof.
  unfold PeerState_load, with_io, hbind, fs_read. rewrite stored_state_file. destruct (next_outcome d) as [o d1] eqn:Eo.
  apply outcome_files in Eo as (Hf & _). destruct o; cbn; [|intros [= <- <-]; by auto]. rewrite Hf.
  destruct (dk_files d !! _); cbn; intros [= <- <-]; auto.
Qed.

Lemma identity_load_keeps path d r d' : Identity_load path d = (r, d') -> dk_files d' = dk_files d.
Proof.
  unfold Identity_load, with_io, hbind, fs_read. destruct (next_outcome d) as [o d1] eqn:Eo.
  apply outcome_files in Eo as (Hf & _). destruct o; cbn; [|by intros [= <- <-]].
  destruct (dk_files d1 !! _); cbn; by intros [= <- <-].
Qed.

Lemma save_touches s dir d r d' p :
  PeerState_save s dir d = (r, d') -> p <> dir_join dir STATE_FILE -> p <> dir_join dir (str "state.json.tmp") ->
  dk_files d' !! p = dk_files d !! p.
Proof.
  intros E H1 H2. unfold PeerState_save, hbind in E.
  destruct (with_io Diag_Io (create_dir_all dir) d) as [r1 d1] eqn:E1. apply with_io_run in E1 as (r0 & E1 & ->).
  rewrite <- (touches_create [] _ _ _ _ E1 p) by set_solver.
  destruct r0 as [[]|e]; cbn [rmap_err] in E; [|by injection E as _ <-].
  apply with_io_run in E as (r2 & E2 & _). apply replace_private_atomic in E2 as [_ Ho]; [|done]. by apply Ho.
Qed.

(** A save that fails has not touched the state. *)
Lemma save_failed s dir d e d' :
  PeerState_save s dir d = (Err e, d') -> stored_state dir d' = stored_state dir d.
Proof.
  intros E. rewrite !stored_state_file. unfold PeerState_save, hbind at 1 in E.
  destruct (with_io Diag_Io (create_dir_all dir) d) as [r1 d1] eqn:E1. apply with_io_run in E1 as (r0 & E1 & ->).
  assert (Hf1 : dk_files d1 = dk_files d) by (apply map_eq; intros p; by eapply (touches_create []); [exact E1|set_solver]).
  rewrite <- Hf1. destruct r0 as [[]|e']; cbn [rmap_err] in E; [|by injection E as _ <-].
  apply with_io_run in E as (r2 & E2 & Hr). destruct r2 as [[]|e2]; [done|].
  apply replace_private_failed in E2; [|done]. by rewrite E2.
Qed.

(** Opening a control connection keeps the files of the peer in order: when it succeeds
    the state file holds the state that is in use, which is the one that was there with
    the credential, the snapshot and the servers of the registration; when it fails,
    wherever, what loads is what loaded before; and the identity is never touched. *)
Theorem control_open_files dir incarnation now frames k r k' s :
  control_open dir incarnation now frames k = (r, k') -> stored_state dir (dk_disk k) = Ok s ->
  dk_files (dk_disk k') !! identity_path dir = dk_files (dk_disk k) !! identity_path dir
  /\ match r with
     | Ok c => exists reg, dc_state c = registered_state s reg
                 /\ (writable state_format (dc_state c) -> stored_state dir (dk_disk k') = Ok (dc_state c))
     | Err _ => stored_state dir (dk_disk k') = Ok s
     end.
Proof.
  intros E Hs. unfold control_open, hbind at 1, on_files at 1 in E.
  destruct (PeerState_load dir (dk_disk k)) as [r0 d1] eqn:E1. apply load_keeps in E1 as [Hf1 Hr0].
  assert (Hst : forall d, dk_files d = dk_files (dk_disk k) -> stored_state dir d = Ok s).
  { intros d Hd. rewrite stored_state_file in *. by rewrite Hd. }
  destruct r0 as [s0|e]; cbn [rmap_err] in E; [|injection E as <- <-; cbn; rewrite Hf1; by auto].
  assert (s0 = s) as -> by (destruct Hr0; congruence).
  unfold hbind at 1, on_files at 1 in E. cbn [dk_disk dk_world] in E.
  destruct (Identity_load _ d1) as [[i|e] d2] eqn:E2; apply identity_load_keeps in E2 as Hf2; rewrite Hf1 in Hf2;
    cbn [rmap_err] in E; [|injection E as <- <-; cbn; rewrite Hf2; by auto].
  unfold hbind at 1 in E. cbn [dk_disk dk_world] in E.
  destruct (connect_with_doh _ _ _) as [[c|e] w]; cbn [rmap_err] in E; [|injection E as <- <-; cbn; rewrite Hf2; by auto].
  destruct (register_with_incarnation _ _ _ _ _ _ _) as [[reg|e] c'];
    unfold hbind at 1, hlift in E; cbn [rmap_err] in E; [|injection E as <- <-; cbn; rewrite Hf2; by auto].
  unfold hbind, on_files in E. cbn [dk_disk dk_world] in E.
  destruct (PeerState_save _ dir d2) as [r3 d3] eqn:E3.
  assert (Hid : dk_files d3 !! identity_path dir = dk_files d2 !! identity_path dir).
  { eapply save_touches; [exact E3|done..]. }
  destruct r3 as [[]|e]; cbn [rmap_err] in E; injection E as <- <-; cbn; rewrite Hid, Hf2; split; try done.
  - exists reg. split; [done|]. intros Hw. by apply state_saved in E3 as [[[H3 _]|[? _]] _].
  - apply save_failed in E3. rewrite E3. by apply Hst.
Qed.
End control.
