(* ===== verification/NodeBuild.v ===== *)
(** * Building a node

    [VelaNodeBuilder] of [vela-core/src/lib.rs] over [TokioDatagramProvider], and the
    operations in which a node and a coordination client act together
    ([register_with_coordination], [update_candidates_with_coordination],
    [connect_via_coordination]).  The node itself is that of [NodeState], the provider
    that of [Bind] and the client that of [CoordClient]. *)
From S2P Require Import Prelude Net Encoding Wire NodeId Snapshot SignedBytes Crypto Ip Replay Path Handshake.
From S2P Require Import NodeState NodePeers NodeSend NodeSession NodeData NodeTimers NodeInv.
From S2P Require Import Control Text CoordDb Coord Dns Stun CoordClient Socket Bind.

Inductive CryptoPolicy : Type := PreferHybrid | RequireHybrid | ClassicalOnly.

(** [TokioDatagramProvider] *)
Record Provider : Type := mkProvider {
  tp_host_candidates : list Candidate;
  tp_preferred_ports : option (option Z * option Z)
}.

(** The builder; the port and the policy are fields of its configuration. *)
Record VelaNodeBuilder : Type := mkBuilder {
  vb_identity : option (bytes * bytes);
  vb_incarnation : option Z;
  vb_provider : option Provider;
  vb_port : Z;
  vb_policy : CryptoPolicy;
  vb_config : NodeConfig
}.

Section build.
Context {HH : Hash} {HSg : SignatureOps} {HA : AeadOps} {HK : HkdfOps} {HN : NoiseOps}.
Context {W : Type} {Sy : System W}.

Abbreviation N := (@NState HN).

(** [VelaNode] as it is built; the identity is its two secret keys. *)
Record VelaNode : Type := mkVelaNode {
  vn_identity : bytes * bytes;
  vn_incarnation : Z;
  vn_provider : Provider;
  vn_bound : BoundPair;
  vn_config : NodeConfig;
  vn_node : Node N
}.

Definition bind_error (e : option BindError) : CoreError :=
  match e with Some (Bind_Io _) => Core_Io | _ => Core_DatagramBind end.

(** [build]; [drawn] is the identity and the incarnation it generates where none is given. *)
Definition build (b : VelaNodeBuilder) (drawn : (bytes * bytes) * Z) (parallelism : option Z)
    : handler (Bind.Process (W := W)) CoreError VelaNode := fun p =>
  match vb_policy b with
  | RequireHybrid => (Err HybridCryptoUnavailable, p)
  | _ =>
      let identity := default drawn.1 (vb_identity b) in
      let incarnation := default drawn.2 (vb_incarnation b) in
      match vb_provider b with
      | None => (Err MissingProvider, p)
      | Some provider =>
          match provider_bind (tp_host_candidates provider) (tp_preferred_ports provider) (vb_port b) p with
          | (Err e, p) => (Err (bind_error e), p)
          | (Ok bound, p) =>
              (Ok (mkVelaNode identity incarnation provider bound (vb_config b)
                     (node_new (vb_config b) parallelism)), p)
          end
      end
  end.

(** [VelaNode::local_candidates] *)
Definition node_candidates (v : VelaNode) (p : Bind.Process (W := W)) : list Candidate * Bind.Process (W := W) :=
  local_candidates (tp_host_candidates (vn_provider v)) (vn_bound v) p.

(** ** With the coordination client *)

Context {HT : TextOps} {J : ControlJson} (me : Local).

Record Coordinated : Type := mkCoordinated {
  co_node : VelaNode;
  co_client : Client;
  co_process : Bind.Process (W := W)
}.

Abbreviation X E A := (handler Coordinated E A).

Definition set_node (n : Node N) (x : Coordinated) : Coordinated :=
  let v := co_node x in
  mkCoordinated (mkVelaNode (vn_identity v) (vn_incarnation v) (vn_provider v) (vn_bound v) (vn_config v) n)
    (co_client x) (co_process x).

Definition ask_client {A} (m : handler Client CoordClientError A) : X CoreError A := fun x =>
  let '(r, c) := m (co_client x) in
  (rmap_err (fun _ => Core_Coordination) r, mkCoordinated (co_node x) c (co_process x)).
Definition at_node {E A} (m : NodeConfig -> handler (Node N) E A) : X E A := fun x =>
  let '(r, n) := m (vn_config (co_node x)) (vn_node (co_node x)) in (r, set_node n x).
Definition own_candidates {E} : X E (list Candidate) := fun x =>
  let '(l, p) := node_candidates (co_node x) (co_process x) in (Ok l, mkCoordinated (co_node x) (co_client x) p).
Definition as_core {A} (m : X CoreError A) : X ConnectError A := fun x =>
  let '(r, x) := m x in (rmap_err Connect_Core r, x).

Definition register_with_coordination (w : World) (token : option bytes) (cred : option MembershipCredential)
    : X CoreError Registration :=
  let! candidates := own_candidates in
  let! registration := ask_client (register_with_incarnation (Identity_public (signing_secret me) (local_noise_public me))
                                    (local_incarnation me) token cred candidates (w_unix w)) in
  let! _ := at_node (fun cfg => apply_snapshot parse_credential cfg me w (reg_snapshot registration)) in
  hret registration.

Definition update_candidates_with_coordination : X CoreError unit :=
  let! candidates := own_candidates in
  ask_client (update_candidates candidates).

(** Until the loop of [connect]; [nonce] and [sid] are drawn. *)
Definition connect_via_coordination (w : World) (id nonce : bytes) (sid : Z) : X ConnectError (option ConnectLoop) :=
  let! peer := as_core (ask_client (lookup_peer id (w_unix w))) in
  let! _ := as_core (at_node (fun cfg => register_peer parse_credential cfg w peer)) in
  at_node (fun cfg => connect_begin cfg me w id nonce sid).

(** ** What a node starts with *)

(** The node is one that [NodeInv] knows. *)
Definition well_built (v : VelaNode) : Prop := node_reachable parse_credential (vn_config v) me (vn_node v).

(** A builder that requires what is not implemented gets no node, and no socket is
    opened for it; whenever no node is built no socket stays open, and a node that is
    built owns two new ones and is in its initial state. *)
Theorem node_built b drawn parallelism p r p' :
  build b drawn parallelism p = (r, p') ->
  (vb_policy b = RequireHybrid -> r = Err HybridCryptoUnavailable /\ p' = p)
  /\ match r with
     | Ok v => two_new (pr_open p) (bp_fds (vn_bound v)) (pr_open p') /\ well_built v /\ vn_config v = vb_config b
     | Err _ => pr_open p' = pr_open p
     end.
Proof.
  unfold build. intros E. destruct (vb_policy b) eqn:Hp; try (by injection E as <- <-).
  all: split; [done|]; destruct (vb_provider b) as [provider|]; [|by injection E as <- <-].
  all: destruct (provider_bind _ _ _ p) as [[bound|e] p1] eqn:Eb; injection E as <- <-; apply bind_sockets in Eb.
  1, 3: split_and!; [apply Eb|exists parallelism; apply rtc_refl|done].
  all: apply Eb.
Qed.

Lemma reached_next (v : VelaNode) n :
  well_built v -> node_step parse_credential (vn_config v) me (vn_node v) n ->
  well_built (mkVelaNode (vn_identity v) (vn_incarnation v) (vn_provider v) (vn_bound v) (vn_config v) n).
Proof. intros [par Hr] Hs. exists par. by eapply rtc_r. Qed.

Abbreviation sound := (fun x => well_built (co_node x)).

Lemma keeps_client {A} (m : handler Client CoordClientError A) : keeps sound (ask_client m).
Proof. intros x Hx. unfold ask_client. by destruct (m (co_client x)). Qed.

Lemma keeps_candidates {E} : keeps sound (own_candidates (E := E)).
Proof. intros x Hx. unfold own_candidates. by destruct (node_candidates _ _). Qed.

Lemma keeps_node {E A} (m : NodeConfig -> handler (Node N) E A) :
  (forall cfg n, node_step parse_credential cfg me n (snd (m cfg n))) -> keeps sound (at_node m).
Proof.
  intros Hm x Hx. unfold at_node. specialize (Hm (vn_config (co_node x)) (vn_node (co_node x))).
  destruct (m _ _) as [r n]. cbn in *. by apply reached_next.
Qed.

Lemma keeps_core {A} (m : X CoreError A) : keeps sound m -> keeps sound (as_core m).
Proof. intros Hm x Hx. unfold as_core. specialize (Hm x Hx). by destruct (m x). Qed.

(** Whatever comes of them, the operations with the client take a node through steps
    of its own. *)
Theorem coordination_sound w token cred id nonce sid :
  keeps sound (register_with_coordination w token cred)
  /\ keeps sound update_candidates_with_coordination
  /\ keeps sound (connect_via_coordination w id nonce sid).
Proof.
  split_and!.
  - apply keeps_bind; [apply keeps_candidates|intros l]. apply keeps_bind; [apply keeps_client|intros reg].
    apply keeps_bind; [apply keeps_node; intros; constructor|intros _]. apply keeps_ret.
  - apply keeps_bind; [apply keeps_candidates|intros l]. apply keeps_client.
  - apply keeps_bind; [apply keeps_core, keeps_client|intros peer].
    apply keeps_bind; [apply keeps_core, keeps_node; intros; constructor|intros _]. apply keeps_node. intros; constructor.
Qed.
End build.
