(* ===== verification/PeerCommands.v ===== *)
(** * Commands of a peer

    [peer list] and [peer ping] of [vela-cli/src/main.rs], which ask the service of a
    running peer over its control socket and print the answer.  A connection is a
    function from the bytes of a request to what can be read afterwards; a service that
    answers is one that behaves as [LocalControl] does.  The theorems go from the text of
    the arguments to the runtime and from the runtime to the lines printed. *)
From S2P Require Import Prelude Net Encoding Wire NodeId Snapshot SignedBytes Crypto Ip Replay Path Handshake.
From S2P Require Import NodeState NodePeers NodeSend NodeSession NodeData NodeTimers NodeInv NodeSample.
From S2P Require Import Control Text CoordDb Coord CoordInv Dns Stun CoordClient Codec NodeView Diagnostic Runtime.
From S2P Require Import LocalControl LocalControlText LocalControlInv LocalControlSample AddrText Files Cli.

(** ** Text *)

Fixpoint joined_by (separator : bytes) (l : list bytes) : bytes :=
  match l with
  | [] => []
  | [x] => x
  | x :: l => x ++ separator ++ joined_by separator l
  end.

(** [{:?}] of a list, given that of its elements *)
Definition debug_list {A} (debug : A -> bytes) (l : list A) : bytes :=
  [91] ++ joined_by (str ", ") (map debug l) ++ [93].

Definition debug_capability (c : PeerCapability) : bytes := match c with CapDiagnosticPing => str "DiagnosticPing" end.

(** A row of [print_peer_table]: its columns are separated by tabs. *)
Definition peer_columns_text (p : PeerSummary) : list bytes :=
  [if bool_decide (sum_name p = []) then str "-" else sum_name p;
   NodeId_display (sum_node_id p);
   if sum_online p then str "online" else str "offline";
   default (str "-") (show_ipv4 <$> sum_virtual_ipv4 p);
   default (str "-") (show_ipv6 <$> sum_virtual_ipv6 p);
   debug_list debug_capability (sum_capabilities p)].

Definition print_peer_table (peers : list PeerSummary) : list bytes :=
  joined_by [9] (map str ["name"; "node"; "status"; "ipv4"; "ipv6"; "capabilities"]%string)
  :: map (fun p => joined_by [9] (peer_columns_text p)) peers.

Definition print_report (r : PingReport) : bytes :=
  str "direct ping " ++ NodeId_display (rp_target r) ++ str " via " ++ show_socket_addr (rp_path r)
  ++ str " (" ++ rp_candidate_type r ++ str ") connect=" ++ show_digits 39 (rp_connect_ms r)
  ++ str "ms rtt=" ++ debug_list (show_digits 39) (rp_rtts_ms r) ++ str "ms".

Section commands.
Context {Dash : Type} {LJ : LocalJson Dash}.
(** [serde_json::to_string_pretty] of the two values *)
Context (pretty_peers : list PeerSummary -> bytes) (pretty_report : PingReport -> bytes).

(** What comes back on a connection; [None] when it is refused *)
Abbreviation Connect := (bytes -> option (list Read)).

(** [LocalControlClient::request] on Unix, which sends no token *)
Definition control_call {T} (parse : bytes -> option T) (connect : Connect) (request : bytes) : result T DiagnosticError :=
  match connect request with
  | None => Err ServiceUnavailable
  | Some reads => LocalControl.receive_answer parse reads
  end.

(** ** The commands *)

Definition peer_list (json : bool) (connect : Connect) : result (list bytes) DiagnosticError :=
  let? peers := control_call parse_peers connect (peers_request None) in
  Ok (if json then [pretty_peers peers] else print_peer_table peers).

Definition peer_ping (target : bytes) (count timeout : Z) (json : bool) (connect : Connect)
    : result (list bytes) DiagnosticError :=
  let? report := control_call parse_report connect (ping_request target count timeout None) in
  Ok [if json then pretty_report report else print_report report].

(** ** A service that answers *)

Context {LL : LocalJsonLaws LJ} (token : option bytes) (store : @Store Dash).
(** The outcomes the runtime may give to a ping *)
Context (runtime : bytes -> Z -> Z -> option (result PingReport DiagnosticError) -> Prop).

Definition arrives (r : HttpResponse) (reads : list Read) : Prop :=
  exists cs, Forall (fun c => c <> []) cs /\ concat cs = response_bytes r /\ len (concat cs) <= MAX_RESPONSE_BYTES
             /\ reads = stream cs Closes.

(** The bytes of a request reach the service in some pieces, and those of its answer the
    client. *)
Definition service_answers (connect : Connect) : Prop :=
  forall request, len request <= MAX_REQUEST_BYTES ->
  exists cs e, Forall (fun c => c <> []) cs /\ concat cs = request
  /\ match serve_connection token store false (stream cs e) with
     | Respond r => exists reads, connect request = Some reads /\ arrives r reads
     | AskRuntime target count timeout =>
         exists outcome reads, runtime target count timeout outcome /\ connect request = Some reads
                               /\ arrives (ping_response outcome) reads
     end.

Lemma admitted_unix : admitted token false None.
Proof. by split. Qed.

(** [peer list] prints a line for each member the runtime published, in order, or the error
    of writing them as JSON. *)
Theorem peer_list_prints connect :
  service_answers connect ->
  peer_list false connect = rmap print_peer_table (sent (json_peers (so_peers store)) (so_peers store)).
Proof.
  intros Ha. destruct (Ha (peers_request None)) as (cs & e & Hcs & E & Hs); [by_decide|].
  destruct (client_sees_store token store false None e cs admitted_unix Hcs) as (_ & Hp & _); [rewrite E; by_decide|].
  destruct (Hp E) as (r & Er & Hr). rewrite Er in Hs. destruct Hs as (reads & Ec & cs' & Hcs' & E' & Hl' & ->).
  unfold peer_list, control_call. rewrite Ec, Hr by done. by destruct (sent _ _).
Qed.

(** What [peer ping] is given as text reaches the runtime as the numbers it stands for, and
    what the runtime answers is what is printed: its report on one line, or the code
    and the text of its error. *)
Theorem peer_ping_prints connect target count timeout n t :
  service_answers connect -> length target = 32%nat -> bytes_ok target ->
  parse_ping_count count = Ok n -> parse_ping_timeout timeout = Ok t ->
  len (ping_request target n t None) <= MAX_REQUEST_BYTES ->
  exists outcome, runtime target n t outcome
    /\ peer_ping target n t false connect =
       match outcome with
       | Some (Ok report) => rmap (fun r => [print_report r]) (sent (json_report report) report)
       | Some (Err err) => Err (ControlRequest (diagnostic_error_code err).2 (show_diagnostic err))
       | None => Err (ControlRequest (str "service_unavailable") (str "peer runtime has stopped"))
       end.
Proof.
  intros Ha Ht Hb Hn Htm Hl. destruct (ping_arguments_valid count timeout n t Hn Htm) as (_ & Hms & Hok).
  destruct (Ha _ Hl) as (cs & e & Hcs & E & Hs).
  destruct (ping_call token store false None e cs target n t admitted_unix (Hok target Ht Hb) Hcs E) as [Es Hr]; [by rewrite E|].
  rewrite Es, Hms in Hs. destruct Hs as (outcome & reads & Ho & Ec & cs' & Hcs' & E' & Hl' & ->).
  exists outcome. split; [done|]. unfold peer_ping, control_call. rewrite Ec, (Hr outcome) by done.
  destruct outcome as [[report|err]|]; [by destruct (sent _ _)|done|done].
Qed.

(** Without a service both commands say so. *)
Lemma service_unavailable connect target n t json :
  (forall request, connect request = None) ->
  peer_list json connect = Err ServiceUnavailable /\ peer_ping target n t json connect = Err ServiceUnavailable.
Proof. intros Hc. unfold peer_list, peer_ping, control_call. by rewrite !Hc. Qed.
End commands.

(** ** The table of a network of two *)

Example table_of_two :
  print_peer_table [mkSummary (replicate 32 171) (str "laptop") true None (Some 0x0afe0001) None [CapDiagnosticPing];
                    mkSummary (replicate 32 205) [] false None None None []]
  = [str "name" ++ [9] ++ str "node" ++ [9] ++ str "status" ++ [9] ++ str "ipv4" ++ [9] ++ str "ipv6" ++ [9] ++ str "capabilities";
     str "laptop" ++ [9] ++ NodeId_display (replicate 32 171) ++ [9] ++ str "online" ++ [9] ++ str "10.254.0.1" ++ [9]
       ++ str "-" ++ [9] ++ str "[DiagnosticPing]";
     str "-" ++ [9] ++ NodeId_display (replicate 32 205) ++ [9] ++ str "offline" ++ [9] ++ str "-" ++ [9] ++ str "-" ++ [9] ++ str "[]"].
Proof. by vm_compute. Qed.
